(* ===== verification/_CoqProject ===== *)
-Q . S2P
Prelude.v
Bytes.v
Params.v
Crypto.v
ForwardSecure.v
Types.v
VoteSet.v
VoteSetFacts.v
VotePick.v
MinerContract.v
Sortition.v
MinerKeys.v
Engine.v
HeaderBatch.v
Ticker.v
Shutdown.v
StateMachine.v
MachineLogic.v
MachineInvariant.v
MachineEvents.v
MachineRun.v
Machine.v
TrieEncoding.v
Trie.v
TrieTree.v
TrieFacts.v
Hasher.v
HasherFacts.v
StateDB.v
SecureTrie.v
StateDBFacts.v
StateDBRevert.v
StateDBCommit.v
StateDBView.v
EvmWord.v
EvmCode.v
EvmMemory.v
EvmState.v
EvmGas.v
EvmCall.v
EvmInstr.v
Evm.v
EvmEffect.v
StateTyped.v
EvmLogic.v
EvmCallFacts.v
EvmInstrFacts.v
EvmGasFacts.v
EvmRun.v
EvmFuel.v
EvmPrecompiled.v
EvmSafety.v
StateTransition.v
TransitionFacts.v
TransitionSafety.v
ChainContext.v
Mortgage.v
ChainConfig.v
Transaction.v
TrieProof.v
TrieProofFacts.v
CertProof.v
Receipt.v
Heap.v
Processor.v
ProcessorFacts.v
TxList.v
TxListFacts.v
TxOrder.v
TxOrderFacts.v
