(* ===== verification/Prelude.v ===== *)
(** * Kaleido: a verification of the node's consensus, state and virtual machine

    Kaleido is a fork of go-ethereum whose blocks are agreed on by an Algorand-style
    committee.  A node draws by sortition whether it may speak in a step of a round, votes
    with forward-secure keys, counts the votes of others and commits a block once enough
    cert votes for it are there; the votes become the certificate in its header.  Every
    node verifies headers by that certificate, runs the transactions of the block in the
    virtual machine on the account state, and keeps the state in Merkle tries.  This library
    translates these parts from the Go (and C++) under src/ into Gallina functions and proves
    what they promise to each other and to the rest of the node.

    ** The parts, the files and how they interact

    Foundations.
    - Prelude.v: machine integers, record updates, tactics, sums, lemmas on lists and maps.
    - Bytes.v: byte strings, big-endian numbers, hashes and addresses (common/types.go).
    - Params.v, ChainConfig.v: the parameters and forks of a chain (params/config.go), the
      steps and committees of the consensus (core/types/certificate.go).
    - Crypto.v: the hash, ed25519, VRF and RLP functions as classes, their laws apart.
    - Types.v: headers, blocks, certificates, consensus messages (core/types,
      consensus/algorand/core/types.go).

    Consensus (consensus/algorand, sortition, crypto/ed25519, core/weight.go).
    - ForwardSecure.v, Sortition.v, MinerContract.v, MinerKeys.v: the keys, the tickets, the
      registry of miners in the storage of a contract, and the credentials made of the three.
    - VoteSet.v, VoteSetFacts.v, VotePick.v: counting votes, and offering them to peers.
    - Engine.v: header rules, the seal made of cert votes, rewards (algorand.go,
      block_validator.go); HeaderBatch.v: the goroutines that verify a batch of headers.
    - Ticker.v: the goroutine of the timeouts; Shutdown.v: the locks and waits of stopping.
    - StateMachine.v: the state machine of a node (context.go, state.go, verifier.go) as a
      function from events to outcomes; MachineLogic.v, MachineInvariant.v, MachineEvents.v
      are its program logic and invariant, MachineRun.v an executable node, Machine.v the
      theorems.
    - CertProof.v: the Merkle proof in a certificate (core/proof.go).

    State (trie, core/state).
    - TrieEncoding.v, Trie.v: the Patricia trie in memory; TrieTree.v, TrieFacts.v: the map it
      implements; Hasher.v, HasherFacts.v: root hashes, commits and the node database.
    - TrieProof.v, TrieProofFacts.v: Merkle proofs and the decoder of nodes.
    - StateDB.v: accounts, journal and snapshots (statedb.go, state_object.go, journal.go)
      above the interfaces of database.go, which the class [StateDatabase] states and
      SecureTrie.v implements with the trie above; StateDBFacts.v, StateDBRevert.v,
      StateDBCommit.v, StateDBView.v, StateTyped.v are about it.

    Virtual machine (core/vm) and transactions (core).
    - EvmWord.v, EvmCode.v, EvmMemory.v, EvmState.v, EvmGas.v, EvmInstr.v, Evm.v: words, code,
      stack, memory, prices, instructions and the interpreter; EvmCall.v: calls, creations and
      the registry of creators; EvmPrecompiled.v: the precompiled contracts.
    - EvmEffect.v, EvmLogic.v: the effects a run may have on the state, and the program logic
      of the machine's monad; EvmCallFacts.v, EvmInstrFacts.v, EvmGasFacts.v, EvmRun.v,
      EvmFuel.v, EvmSafety.v: what calls, instructions and whole messages promise.
    - StateTransition.v, TransitionFacts.v, TransitionSafety.v: messages (state_transition.go,
      gaspool.go) and gas that creators pay for (syscon/mechanism.go).
    - ChainContext.v: how contracts see earlier blocks (core/evm.go).
    - Transaction.v: signing and senders; Receipt.v: receipts and bloom filters.
    - Processor.v, ProcessorFacts.v: whole blocks (state_processor.go), the DAO fork.
    - Mortgage.v: the calls a creator may pay for (mortgage.go).
    - Heap.v: the heaps of the Go library (container/heap), over any order; TxList.v,
      TxListFacts.v: the list of an account in the transaction pool (tx_list.go); TxOrder.v,
      TxOrderFacts.v: the order by price in which the miner takes transactions
      (transaction.go) and the pool drops them (tx_list.go, tx_pool.go).

    ** How the code is translated

    Go's fixed-width integers are integers of [Z] with the wrap-around of every operation
    written out ([add64], [sub64], ...); [big.Int] is [Z].  Slices of bytes are lists of [Z];
    fixed arrays are the numbers their bytes spell.  Structs are records, enumerations and
    interfaces with known implementations inductive types, maps [gmap]s; nil is [None].  A
    method that mutates its receiver returns the new one.  An error is a value; a panic of Go
    is an outcome of its own ([None], [Panics], [Crash], according to the file), and so is a
    loop or a recursion that runs out of the model's fuel.  Goroutines are step relations
    with their channels as data (Ticker.v, HeaderBatch.v, Shutdown.v); the state machine
    records its effects on other goroutines in order.  In the virtual machine the panic of a
    precompiled contract, with its input, and that of the refund counter are outcomes
    ([Crashes]) apart from the panics that are proved not to happen ([Panics]).  Floating-point
    numbers are those of the standard library's [SpecFloat].  Definitions are executable, and the witnesses
    of the theorems run them.

    ** What the theorems show

    - Consensus: votes follow the protocol; every committed block has a certificate of verified
      votes, which another node accepts if it finds the same parent state and the block has the
      number of the height; two blocks committed at one height and round convict double voters
      of their weight; an event of the machine ends, waits only to hand a chain head to the
      snapshot loop, and has none of the panics that guard the machine itself (the panics the
      code leaves open are those of [open_panic]); as long as the ticker was not asked for a
      later step, the timeout of the current step is pending or handed over, and moves the
      machine on; the counters of votes are exact and majorities intersect; own credentials
      pass the checks of others, and the loaded keys and their files lose the slots of past
      heights; the searches of the sortition agree where boost's distribution does not decrease;
      batches of headers are answered in order unless they are aborted or a check panics.
    - Tries and state: the trie is a map, its root hash is a function of that map, a committed
      trie reopens with its content; Merkle proofs are complete and sound against any peer;
      snapshots restore what was there; a finished transaction is recorded in the trie, the
      miner tracker has the accounts it must have; the proof in a certificate is sound, and
      complete for slots whose keys have no leading zero byte.
    - Virtual machine, by all rules: every message ends with fuel above its gas; it panics only
      in the contract at address 99, in the modular exponentiation for at least 2^43 gas, or in
      the refund counter of EIP-1283; failing calls leave no trace, static calls show nothing,
      no message makes money.
    - Transactions and blocks: signatures bind sender and chain; messages charge exactly the gas
      they use, and what refused ones leave is stated; by the rules of EIP-158 and outside the
      DAO fork block, blocks end with an error, with one of these panics or that of an engine
      without stake, or with exact receipts, within the gas limit, and with no money but the
      reward; a changed configuration is checked exactly when both name Petersburg or neither; filters find every log; the sorted map of the pool is a map,
      the list of an account keeps its bounds, the miner takes the best paid transactions in
      the order of their accounts and the pool drops the cheapest ones.

    ** Bounds and fuel

    The interpreter has one unit of fuel for an instruction: every instruction that does not
    end the run costs gas and a callee gets less gas than its caller has, so more fuel than gas
    suffices (EvmRun.v) and more changes nothing (EvmFuel.v).  The walks over tries have fuel
    for the nodes on a path, [enough] for the length of the keys; verifying a proof needs twice
    the nibbles of the key, [proof_fuel] for keys of 32 bytes.  The loops over a heap have fuel
    for its elements, one of which every turn takes off.  Walks over ancestors have fuel
    for the number of the block ([walkFuel]), the check of configurations for the height.
    Theorems that say an operation returns are proved for all such fuel.  Bounds such as
    [2 ^ 63] for block numbers are those at which the Go conversions stop being exact.

    ** Parameters

    Hash functions, signatures, VRF, curves and pairings, the binomial distribution of boost,
    the RLP library, precompiled cryptography and the database below the node store are not
    Go code under src/ that is translated here; they are operations of classes ([Crypto],
    [Primitives], [Secp256k1], [Codec], ...).  What the code relies on is stated in classes of
    laws ([DigestSize], [KeysDistinct], [SecpCorrect], ...), which toy instances satisfy
    (the modules [Toy], [ToyState], [ToySecp], ...).  Collision freeness is only assumed for
    the keys or nodes a theorem names.

    ** Not modelled

    Reading and writing of databases, files and the network: the chain database and the
    insertion of blocks into it, peers and gossip, synchronisation, RPC, accounts and wallets,
    commands.  Failing writes of key files, the loop that keeps the pending block and the
    journal of messages, of which only the entries it replays appear.  The mining worker and, of the transaction pool, what promotes and demotes
    transactions, its journal and its events, which work behind locks and timers.  Other engines (clique, ethash).  Within modelled parts: tracing and cancellation of the
    virtual machine, its pool of integers and the memo of its code analysis, which hold no
    meaning of their own; reference counts and flushing of the node store; caches of a
    library (LRU), metrics, logging and the text forms of types. *)

From stdpp Require Export prelude gmap sets list list_numbers strings sorting.

#[export] Set Default Goal Selector "!".
#[export] Set Warnings "-clear-no-such-hyp".

(** ** Machine integers

    Go's [uint64] and [uint32] are integers of [Z] kept in range by the
    wrap-around of the arithmetic operators. *)

Declare Scope uint_scope.
Delimit Scope uint_scope with uint.

Definition max_u64 : Z := 2 ^ 64.
Definition max_u32 : Z := 2 ^ 32.
Definition u64 (x : Z) : Z := x `mod` 2 ^ 64.
Definition u32 (x : Z) : Z := x `mod` 2 ^ 32.

Definition is_u64 (x : Z) : Prop := (0 ≤ x < 2 ^ 64)%Z.
Definition is_u32 (x : Z) : Prop := (0 ≤ x < 2 ^ 32)%Z.

Definition add64 (x y : Z) : Z := u64 (x + y).
Definition sub64 (x y : Z) : Z := u64 (x - y).
Definition mul64 (x y : Z) : Z := u64 (x * y).
Definition add32 (x y : Z) : Z := u32 (x + y).
Definition sub32 (x y : Z) : Z := u32 (x - y).

Infix "+₆₄" := add64 (at level 50, left associativity) : uint_scope.
Infix "-₆₄" := sub64 (at level 50, left associativity) : uint_scope.
Infix "*₆₄" := mul64 (at level 40, left associativity) : uint_scope.
Infix "+₃₂" := add32 (at level 50, left associativity) : uint_scope.
Infix "-₃₂" := sub32 (at level 50, left associativity) : uint_scope.

Create HintDb kal discriminated.
#[export] Hint Constants Opaque : kal.

Lemma u64_id x : is_u64 x → u64 x = x.
Proof. intros H. apply Z.mod_small, H. Qed.

Lemma u64_range x : is_u64 (u64 x).
Proof. apply Z.mod_pos_bound. lia. Qed.

Lemma u32_id x : is_u32 x → u32 x = x.
Proof. intros H. apply Z.mod_small, H. Qed.

Lemma u32_range x : is_u32 (u32 x).
Proof. apply Z.mod_pos_bound. lia. Qed.

Lemma add64_id x y : is_u64 (x + y) → add64 x y = (x + y)%Z.
Proof. apply u64_id. Qed.

Lemma sub64_id x y : is_u64 (x - y) → sub64 x y = (x - y)%Z.
Proof. apply u64_id. Qed.

Lemma sub64_add64 x y : is_u64 x → sub64 (add64 x y) y = x.
Proof.
  intros H. unfold sub64, add64, u64. rewrite Zminus_mod_idemp_l. replace (x + y - y)%Z with x by lia.
  by apply u64_id.
Qed.

Lemma mul64_id x y : is_u64 (x * y) → mul64 x y = (x * y)%Z.
Proof. apply u64_id. Qed.

Lemma add32_id x y : is_u32 (x + y) → add32 x y = (x + y)%Z.
Proof. apply u32_id. Qed.

Lemma sub32_id x y : is_u32 (x - y) → sub32 x y = (x - y)%Z.
Proof. apply u32_id. Qed.

#[export] Hint Resolve u64_range u32_range : kal.

(** ** Record update

    [s <| f := v |>] is the record [s] with field [f] replaced, the assignment
    [s.f = v] of the source.  A record declares its eta-expansion once, as an
    instance of [Fields], and the update of each field is found from it. *)

Class Fields (R : Type) := fields_eta : R → R.
Class FieldUpdate {R E : Type} (get : R → E) := field_update : (E → E) → R → R.
#[global] Arguments field_update {R E} get {_} _ _ : simpl never.

Ltac solve_field_update :=
  lazymatch goal with
  | |- @FieldUpdate ?R ?E ?g =>
      let i := constr:(_ : Fields R) in
      let h := eval hnf in i in
      lazymatch eval pattern g in h with
      | ?k _ => let k' := eval cbv beta in (fun f : E → E => k (fun r => f (g r))) in
                exact k'
      end
  end.
#[export] Hint Extern 0 (FieldUpdate _) => solve_field_update : typeclass_instances.

Definition set_to {E : Type} (v : E) : E → E := fun _ => v.

Declare Scope update_scope.
Open Scope update_scope.
Notation "s <| f := v |>" := (field_update f (set_to v) s)
  (at level 1, f at level 9, v at level 200, left associativity,
   format "s  <| f  :=  v |>") : update_scope.
Notation "s <| f ::= g |>" := (field_update f g s)
  (at level 1, f at level 9, g at level 200, left associativity,
   format "s  <| f  ::=  g |>") : update_scope.

(** [upd] evaluates the projections of updated records, in the goal and in the
    hypotheses, and leaves the updates themselves folded. *)
Ltac upd_goal :=
  match goal with
  | |- context [?g (@field_update ?R ?E ?h ?i ?f ?s)] =>
      first [ change (g (@field_update R E h i f s)) with (g s)
            | change (g (@field_update R E h i f s)) with (f (g s)) ]
  end.
Ltac upd_hyp :=
  match goal with
  | H : context [?g (@field_update ?R ?E ?h ?i ?f ?s)] |- _ =>
      first [ change (g (@field_update R E h i f s)) with (g s) in H
            | change (g (@field_update R E h i f s)) with (f (g s)) in H ]
  end.
Ltac upd := repeat upd_goal; repeat upd_hyp; unfold set_to in *; cbv beta in *.

(** ** Case analysis on the boolean comparisons of the source *)

Ltac case_cmp :=
  match goal with
  | |- context [Z.eqb ?a ?b] => destruct (Z.eqb_spec a b)
  | |- context [Z.ltb ?a ?b] => destruct (Z.ltb_spec a b)
  | |- context [Z.leb ?a ?b] => destruct (Z.leb_spec a b)
  end.

Ltac case_cmp_in H :=
  match type of H with
  | context [Z.eqb ?a ?b] => destruct (Z.eqb_spec a b)
  | context [Z.ltb ?a ?b] => destruct (Z.ltb_spec a b)
  | context [Z.leb ?a ?b] => destruct (Z.leb_spec a b)
  end.

(** ** Weighted sums over lists and finite sets *)

Section sums.
Context {A : Type}.
Implicit Types (f : A → Z) (l : list A).

Definition sumZ f l : Z := foldr (λ x acc, (f x + acc)%Z) 0%Z l.

Lemma sumZ_nil f : sumZ f [] = 0%Z.
Proof. done. Qed.

Lemma sumZ_cons f x l : sumZ f (x :: l) = (f x + sumZ f l)%Z.
Proof. done. Qed.

Lemma sumZ_app f l k : sumZ f (l ++ k) = (sumZ f l + sumZ f k)%Z.
Proof. induction l as [|x l IH]; [done|]. simpl. rewrite IH. lia. Qed.

Lemma sumZ_perm f l k : l ≡ₚ k → sumZ f l = sumZ f k.
Proof. induction 1; simpl; lia. Qed.

Lemma sumZ_nonneg f l : (∀ x, x ∈ l → 0 ≤ f x)%Z → (0 ≤ sumZ f l)%Z.
Proof.
  induction l as [|x l IH]; intros H; simpl; [lia|].
  assert (0 ≤ f x)%Z by (apply H; set_solver).
  assert (0 ≤ sumZ f l)%Z by (apply IH; set_solver). lia.
Qed.

Lemma sumZ_ext f g l : (∀ x, x ∈ l → f x = g x) → sumZ f l = sumZ g l.
Proof.
  induction l as [|x l IH]; intros H; simpl; [done|].
  rewrite (H x) by set_solver. rewrite IH by set_solver. done.
Qed.
End sums.

Lemma sumZ_fmap {A B : Type} (g : A → B) (f : B → Z) (l : list A) :
  sumZ f (g <$> l) = sumZ (f ∘ g) l.
Proof. induction l as [|x l IH]; [done|]. by rewrite fmap_cons, !sumZ_cons, IH. Qed.

Section set_sums.
Context `{Countable A}.
Implicit Types (w : A → Z) (X Y : gset A).

Definition weight_of w X : Z := sumZ w (elements X).

Lemma weight_of_empty w : weight_of w ∅ = 0%Z.
Proof. unfold weight_of. by rewrite elements_empty. Qed.

Lemma weight_of_union w X Y :
  X ## Y → weight_of w (X ∪ Y) = (weight_of w X + weight_of w Y)%Z.
Proof.
  intros HXY. unfold weight_of.
  by rewrite (sumZ_perm _ _ _ (elements_disj_union X Y HXY)), sumZ_app.
Qed.

Lemma weight_of_nonneg w X : (∀ a, a ∈ X → 0 ≤ w a)%Z → (0 ≤ weight_of w X)%Z.
Proof. intros Hw. apply sumZ_nonneg. intros a Ha. apply Hw. set_solver. Qed.

Lemma weight_of_subset w X Y :
  X ⊆ Y → (∀ a, a ∈ Y → 0 ≤ w a)%Z → (weight_of w X ≤ weight_of w Y)%Z.
Proof.
  intros Hsub Hw. rewrite (union_difference_L X Y Hsub).
  rewrite weight_of_union by set_solver.
  assert (0 ≤ weight_of w (Y ∖ X))%Z by (apply weight_of_nonneg; set_solver).
  lia.
Qed.

(** Inclusion and exclusion: two subsets of [C] overlap by at least what
    their weights exceed that of [C]. *)
Lemma weight_of_overlap w X Y C :
  X ⊆ C → Y ⊆ C → (∀ a, a ∈ C → 0 ≤ w a)%Z →
  (weight_of w X + weight_of w Y - weight_of w C ≤ weight_of w (X ∩ Y))%Z.
Proof.
  intros HX HY Hw.
  assert (weight_of w Y = weight_of w (X ∩ Y) + weight_of w (Y ∖ X))%Z as HYs.
  { rewrite <- weight_of_union by set_solver. f_equal.
    apply set_eq. intros a. destruct (decide (a ∈ X)); set_solver. }
  assert (weight_of w X + weight_of w (Y ∖ X) ≤ weight_of w C)%Z.
  { rewrite <- weight_of_union by set_solver. apply weight_of_subset; set_solver. }
  lia.
Qed.

Lemma weight_of_list w (l : list A) :
  NoDup l → weight_of w (list_to_set l) = sumZ w l.
Proof. intros Hl. apply sumZ_perm. by apply elements_list_to_set. Qed.

(** A relation that gives each element of a list one weight is a function there. *)
Lemma weights_exist (P : A → Z → Prop) (l : list A) (ws : list Z) :
  Forall2 P l ws → (∀ a u v, P a u → P a v → u = v) →
  ∃ w : A → Z, ∀ a, a ∈ l → P a (w a).
Proof.
  intros Hl HP. induction Hl as [|a u l ws Ha _ [w IH]].
  { exists (λ _, 0%Z). intros a Ha. by apply elem_of_nil in Ha. }
  exists (λ b, if decide (b = a) then u else w b). intros b Hb.
  destruct (decide (b = a)) as [->|Hn]; [done|]. apply IH. set_solver.
Qed.

Lemma sumZ_weights (P : A → Z → Prop) (w : A → Z) (l : list A) (ws : list Z) :
  Forall2 P l ws → (∀ a u v, P a u → P a v → u = v) → (∀ a, a ∈ l → P a (w a)) →
  sumZ w l = sumZ id ws.
Proof.
  intros Hl HP Hw. induction Hl as [|a u l ws Ha _ IH]; [done|].
  rewrite !sumZ_cons, IH by (intros; apply Hw; set_solver). unfold id at 2. f_equal.
  eapply HP; [apply Hw; set_solver|done].
Qed.
End set_sums.

(** ** Lists *)

Lemma existsb_elem {A : Type} (p : A → bool) (l : list A) :
  existsb p l = true ↔ ∃ x, x ∈ l ∧ p x = true.
Proof.
  rewrite existsb_exists. split; intros (x & Hx & Hp); exists x.
  - by rewrite list_elem_of_In.
  - by rewrite <- list_elem_of_In.
Qed.

Lemma map_to_list_existsb `{Countable K} {V : Type} (p : V → bool) (m : gmap K V) :
  existsb (λ kv, p kv.2) (map_to_list m) = true ↔ ∃ k v, m !! k = Some v ∧ p v = true.
Proof.
  rewrite existsb_elem. split.
  - intros ([k v] & Hkv%elem_of_map_to_list & Hp). eauto.
  - intros (k & v & Hkv & Hp). exists (k, v). by rewrite elem_of_map_to_list.
Qed.

(** A run that returns. *)
Definition returns {A : Type} (mx : option A) : bool := match mx with Some _ => true | None => false end.

Lemma default_ran {A : Type} (d : A) (mx : option A) : returns mx = true → mx = Some (default d mx).
Proof. by destruct mx. Qed.
