(* ===== verification/Bytes.v ===== *)
(** * Bytes: byte strings, hashes and addresses

    A Go [[]byte] is a list of byte values; a fixed array ([common.Hash],
    [common.Address], keys, proofs and signatures) is the unsigned integer its
    bytes read in big-endian order, and [be_bytes n] gives its [n] bytes back.
    The file has the big-endian conversions of [encoding/binary], the
    comparison of [bytes.Compare], the minimal encoding of [big.Int.Bytes] and
    the conversions of src/common/types.go. *)

From S2P Require Import Prelude.

Local Open Scope Z_scope.

Definition byte_ok (b : Z) : Prop := 0 ≤ b < 256.
Abbreviation bytes := (list Z) (only parsing).

(** ** Big-endian integers *)

Definition be_int (l : bytes) : Z := foldl (λ acc b, Z.shiftl acc 8 + b) 0 l.

(** The low [n] bytes of [x] in front of [acc]. *)
Fixpoint push_bytes (n : nat) (x : Z) (acc : bytes) : bytes :=
  match n with
  | O => acc
  | S n => push_bytes n (Z.shiftr x 8) (Z.land x 255 :: acc)
  end.

Definition be_bytes (n : nat) (x : Z) : bytes := push_bytes n x [].

Lemma foldl_be_int acc l :
  foldl (λ acc b, Z.shiftl acc 8 + b) acc l = acc * 256 ^ Z.of_nat (length l) + be_int l.
Proof.
  unfold be_int. revert acc. induction l as [|b l IH]; intros acc; [simpl; lia|].
  cbn [foldl length]. rewrite (IH (Z.shiftl acc 8 + b)), (IH (Z.shiftl 0 8 + b)), Nat2Z.inj_succ, Z.pow_succ_r by lia.
  rewrite !Z.shiftl_mul_pow2 by lia. change (2 ^ 8) with 256. lia.
Qed.

Lemma be_int_cons b l : be_int (b :: l) = b * 256 ^ Z.of_nat (length l) + be_int l.
Proof. unfold be_int at 1. cbn [foldl]. by rewrite foldl_be_int. Qed.

Lemma push_bytes_acc n x acc : push_bytes n x acc = be_bytes n x ++ acc.
Proof.
  unfold be_bytes. revert x acc. induction n as [|n IH]; intros x acc; [done|]. cbn [push_bytes].
  by rewrite IH, (IH _ [_]), <- app_assoc.
Qed.

Lemma be_bytes_snoc n x : be_bytes (S n) x = be_bytes n (x `div` 256) ++ [x `mod` 256].
Proof.
  unfold be_bytes at 1. cbn [push_bytes]. rewrite push_bytes_acc, Z.shiftr_div_pow2 by lia.
  change 255 with (Z.ones 8). by rewrite Z.land_ones by lia.
Qed.

Lemma be_bytes_S n x : be_bytes (S n) x = (x `div` 256 ^ Z.of_nat n) `mod` 256 :: be_bytes n x.
Proof.
  revert x. induction n as [|n IH]; intros x; [by rewrite be_bytes_snoc, Z.div_1_r|].
  rewrite be_bytes_snoc, IH, (be_bytes_snoc n x), Nat2Z.inj_succ, Z.pow_succ_r by lia.
  by rewrite Z.div_div by (try apply Z.pow_pos_nonneg; lia).
Qed.

Lemma length_be_bytes n x : length (be_bytes n x) = n.
Proof. induction n; [done|]. rewrite be_bytes_S. simpl. congruence. Qed.

Lemma be_bytes_ok n x : Forall byte_ok (be_bytes n x).
Proof.
  induction n; [constructor|]. rewrite be_bytes_S. constructor; [|done].
  unfold byte_ok. apply Z.mod_pos_bound. lia.
Qed.

Lemma pow256_pos n : 0 < 256 ^ Z.of_nat n.
Proof. apply Z.pow_pos_nonneg; lia. Qed.

Lemma pow256_S n : 256 ^ Z.of_nat (S n) = 256 * 256 ^ Z.of_nat n.
Proof. rewrite Nat2Z.inj_succ, Z.pow_succ_r; lia. Qed.

#[export] Hint Resolve be_bytes_ok pow256_pos : kal.

Lemma be_int_bound l : Forall byte_ok l → 0 ≤ be_int l < 256 ^ Z.of_nat (length l).
Proof.
  induction 1 as [|b l Hb Hl IH]; [by vm_compute|].
  cbn [length]. rewrite be_int_cons, pow256_S. unfold byte_ok in Hb. nia.
Qed.

Lemma be_int_app l k :
  be_int (l ++ k) = be_int l * 256 ^ Z.of_nat (length k) + be_int k.
Proof.
  induction l as [|b l IH]; [done|].
  cbn [app]. rewrite !be_int_cons, IH, length_app, Nat2Z.inj_add, Z.pow_add_r by lia. lia.
Qed.

Lemma be_int_be_bytes n x : be_int (be_bytes n x) = x `mod` 256 ^ Z.of_nat n.
Proof.
  induction n as [|n IH]; [by rewrite Z.mod_1_r|].
  rewrite be_bytes_S, be_int_cons, IH, length_be_bytes, pow256_S.
  rewrite (Z.mul_comm 256), Z.rem_mul_r by (pose proof (pow256_pos n); lia).
  lia.
Qed.

Lemma be_int_be_bytes_id n x :
  0 ≤ x < 256 ^ Z.of_nat n → be_int (be_bytes n x) = x.
Proof. intros H. rewrite be_int_be_bytes. by apply Z.mod_small. Qed.

Lemma be_int_inj l k :
  Forall byte_ok l → Forall byte_ok k → length l = length k →
  be_int l = be_int k → l = k.
Proof.
  intros Hl. revert k.
  induction Hl as [|b l Hb Hl IH]; intros [|c k] Hk Hlen; try done.
  intros E. rewrite !be_int_cons in E. inversion Hk as [|?? Hc Hk']; subst.
  injection Hlen as Hlen. rewrite Hlen in E.
  pose proof (be_int_bound l Hl) as Bl. pose proof (be_int_bound k Hk') as Bk.
  rewrite Hlen in Bl. unfold byte_ok in *.
  assert (b = c) by nia. subst c. f_equal. apply IH; [done..|lia].
Qed.

Lemma be_bytes_be_int l : Forall byte_ok l → be_bytes (length l) (be_int l) = l.
Proof.
  intros Hl. apply be_int_inj; [auto with kal|done|by rewrite length_be_bytes|].
  apply be_int_be_bytes_id. by apply be_int_bound.
Qed.

Lemma be_bytes_inj n x y :
  0 ≤ x < 256 ^ Z.of_nat n → 0 ≤ y < 256 ^ Z.of_nat n →
  be_bytes n x = be_bytes n y → x = y.
Proof.
  intros Hx Hy E. rewrite <- (be_int_be_bytes_id n x Hx), <- (be_int_be_bytes_id n y Hy).
  by rewrite E.
Qed.

Lemma be_bytes_app n m x :
  be_bytes (n + m) x = be_bytes n (x `div` 256 ^ Z.of_nat m) ++ be_bytes m x.
Proof.
  induction n as [|n IH]; [done|].
  cbn [Nat.add]. rewrite !be_bytes_S, IH. cbn [app]. f_equal.
  rewrite Z.div_div by (pose proof (pow256_pos m); pose proof (pow256_pos n); lia).
  rewrite <- Z.pow_add_r by lia. do 3 f_equal. lia.
Qed.

Lemma be_bytes_mod n x : be_bytes n (x `mod` 256 ^ Z.of_nat n) = be_bytes n x.
Proof.
  apply be_int_inj; [auto with kal..|by rewrite !length_be_bytes|].
  rewrite !be_int_be_bytes. apply Z.mod_mod. pose proof (pow256_pos n); lia.
Qed.

(** The reading of a slice of a fixed array: bytes [n .. n+m) of an array of
    [n + m + k] bytes. *)
Lemma be_int_slice n m k x :
  be_int (take m (drop n (be_bytes (n + (m + k)) x)))
  = (x `div` 256 ^ Z.of_nat k) `mod` 256 ^ Z.of_nat m.
Proof.
  rewrite be_bytes_app, drop_app_length' by (by rewrite length_be_bytes).
  rewrite be_bytes_app, take_app_length' by (by rewrite length_be_bytes).
  apply be_int_be_bytes.
Qed.

(** ** bytes.Compare *)

Fixpoint bytes_compare (a b : bytes) : comparison :=
  match a, b with
  | [], [] => Eq
  | [], _ :: _ => Lt
  | _ :: _, [] => Gt
  | x :: a, y :: b =>
      match x ?= y with Eq => bytes_compare a b | c => c end
  end.

(** On arrays of one length the lexicographic order is that of the integers
    they read, which is how the development compares hashes and addresses. *)
Lemma bytes_compare_be_int a b :
  Forall byte_ok a → Forall byte_ok b → length a = length b →
  bytes_compare a b = (be_int a ?= be_int b).
Proof.
  intros Ha. revert b.
  induction Ha as [|x a Hx Ha IH]; intros [|y b] Hb Hlen; try done.
  inversion Hb as [|?? Hy Hb']; subst. injection Hlen as Hlen.
  cbn [bytes_compare]. rewrite !be_int_cons, Hlen.
  pose proof (be_int_bound a Ha) as Ba. pose proof (be_int_bound b Hb') as Bb.
  rewrite Hlen in Ba. unfold byte_ok in *.
  destruct (Z.compare_spec x y) as [->|Hlt|Hgt].
  - rewrite IH by done.
    destruct (Z.compare_spec (be_int a) (be_int b)), (Z.compare_spec
      (y * 256 ^ Z.of_nat (length b) + be_int a)
      (y * 256 ^ Z.of_nat (length b) + be_int b)); try done; lia.
  - symmetry. apply Z.compare_lt_iff. nia.
  - symmetry. apply Z.compare_gt_iff. nia.
Qed.

Lemma bytes_compare_be_bytes n x y :
  0 ≤ x < 256 ^ Z.of_nat n → 0 ≤ y < 256 ^ Z.of_nat n →
  bytes_compare (be_bytes n x) (be_bytes n y) = (x ?= y).
Proof.
  intros Hx Hy. rewrite bytes_compare_be_int; [|auto with kal..|by rewrite !length_be_bytes].
  by rewrite !be_int_be_bytes_id.
Qed.

(** ** big.Int *)

(** [big.Int.Bytes]: the big-endian bytes of the absolute value, with no
    leading zero byte. *)
Definition big_bytes (x : Z) : bytes :=
  if x =? 0 then [] else be_bytes (Z.to_nat (Z.log2 (Z.abs x) `div` 8 + 1)) (Z.abs x).

Lemma big_bytes_bound x : 0 < x →
  let n := Z.to_nat (Z.log2 x `div` 8 + 1) in 256 ^ Z.of_nat (n - 1) ≤ x < 256 ^ Z.of_nat n.
Proof.
  intros Hx n. pose proof (Z.log2_spec x Hx) as [H1 H2]. pose proof (Z.log2_nonneg x).
  set (k := Z.log2 x `div` 8) in *.
  assert (0 ≤ k) by (apply Z.div_pos; lia).
  assert (Z.of_nat n = k + 1) as En by lia.
  assert (Z.of_nat (n - 1) = k) as En1 by lia.
  rewrite En, En1. replace 256 with (2 ^ 8) by lia. rewrite <- !Z.pow_mul_r by lia.
  pose proof (Z.mul_div_le (Z.log2 x) 8). pose proof (Z.mod_pos_bound (Z.log2 x) 8).
  pose proof (Z.div_mod (Z.log2 x) 8). split.
  - etransitivity; [|exact H1]. apply Z.pow_le_mono_r; lia.
  - eapply Z.lt_le_trans; [exact H2|]. apply Z.pow_le_mono_r; lia.
Qed.

Lemma be_int_big_bytes x : 0 ≤ x → be_int (big_bytes x) = x.
Proof.
  intros Hx. unfold big_bytes. destruct (Z.eqb_spec x 0) as [->|]; [done|].
  rewrite Z.abs_eq by done. apply be_int_be_bytes_id.
  pose proof (big_bytes_bound x ltac:(lia)). simpl in *. lia.
Qed.

Lemma big_bytes_ok x : Forall byte_ok (big_bytes x).
Proof. unfold big_bytes. case_match; auto with kal. Qed.

(** A full-width integer (its top byte is not zero) has exactly the bytes of
    the array. *)
Lemma big_bytes_full n x :
  256 ^ Z.of_nat n ≤ x < 256 ^ Z.of_nat (S n) → big_bytes x = be_bytes (S n) x.
Proof.
  intros Hx. pose proof (pow256_pos n). unfold big_bytes.
  destruct (Z.eqb_spec x 0) as [->|]; [lia|]. rewrite Z.abs_eq by lia.
  pose proof (big_bytes_bound x ltac:(lia)) as B. simpl in B.
  set (m := Z.to_nat (Z.log2 x `div` 8 + 1)) in *. f_equal.
  assert (m - 1 < S n)%nat.
  { apply Nat2Z.inj_lt, (Z.pow_lt_mono_r_iff 256); lia. }
  assert (n < m)%nat.
  { apply Nat2Z.inj_lt, (Z.pow_lt_mono_r_iff 256); lia. }
  lia.
Qed.

(** An integer whose top byte is zero has fewer bytes than the array. *)
Lemma length_big_bytes_short n x :
  0 ≤ x < 256 ^ Z.of_nat n → (length (big_bytes x) ≤ n)%nat.
Proof.
  intros Hx. unfold big_bytes. destruct (Z.eqb_spec x 0) as [->|]; [simpl; lia|].
  rewrite length_be_bytes, Z.abs_eq by lia.
  pose proof (big_bytes_bound x ltac:(lia)) as B. simpl in B.
  set (m := Z.to_nat (Z.log2 x `div` 8 + 1)) in *.
  assert (m - 1 < n)%nat; [|lia].
  apply Nat2Z.inj_lt, (Z.pow_lt_mono_r_iff 256); lia.
Qed.

(** ** Hashes and addresses (src/common/types.go) *)

Definition HashLength : nat := 32.
Definition AddressLength : nat := 20.

Abbreviation Hash := Z (only parsing).
Abbreviation Address := Z (only parsing).

Definition hash_ok (h : Hash) : Prop := 0 ≤ h < 2 ^ 256.
Definition address_ok (a : Address) : Prop := 0 ≤ a < 2 ^ 160.

(** [copy(dst[len(dst)-len(b):], b)] into a zeroed array of [n] bytes, after
    [b] was cropped from the left to at most [n] bytes. *)
Definition right_aligned (n : nat) (b : bytes) : bytes :=
  let b := if (n <? length b)%nat then drop (length b - n) b else b in
  replicate (n - length b) 0 ++ b.

Definition BytesToHash (b : bytes) : Hash := be_int (right_aligned HashLength b).
Definition BytesToAddress (b : bytes) : Address := be_int (right_aligned AddressLength b).
Definition Uint64ToHash (n : Z) : Hash :=
  be_int (replicate (HashLength - 8) 0 ++ be_bytes 8 n).
Definition BigToHash (b : Z) : Hash := BytesToHash (big_bytes b).
Definition Hash_Bytes (h : Hash) : bytes := be_bytes HashLength h.
Definition Hash_Big (h : Hash) : Z := be_int (be_bytes HashLength h).
Definition Address_Bytes (a : Address) : bytes := be_bytes AddressLength a.
Definition Address_Hash (a : Address) : Hash := BytesToHash (Address_Bytes a).
Definition EmptyHash (h : Hash) : bool := h =? 0.

Lemma be_int_zeros n : be_int (replicate n 0) = 0.
Proof. induction n as [|n IH]; [done|]. cbn [replicate]. rewrite be_int_cons, IH. lia. Qed.

Lemma right_aligned_int n b :
  Forall byte_ok b → be_int (right_aligned n b) = be_int b `mod` 256 ^ Z.of_nat n.
Proof.
  intros Hb. unfold right_aligned. rewrite be_int_app, be_int_zeros.
  destruct (Nat.ltb_spec n (length b)) as [Hlt|Hge].
  - assert (be_int b = be_int (take (length b - n) b) * 256 ^ Z.of_nat n
                       + be_int (drop (length b - n) b)) as ->.
    { rewrite <- (take_drop (length b - n) b) at 1. rewrite be_int_app, length_drop.
      by replace (length b - (length b - n))%nat with n by lia. }
    rewrite (Z.add_comm (be_int (take _ _) * _)).
    rewrite Z.mod_add by (pose proof (pow256_pos n); lia).
    rewrite Z.mod_small; [lia|].
    pose proof (be_int_bound (drop (length b - n) b)) as B.
    rewrite length_drop in B. replace (length b - (length b - n))%nat with n in B by lia.
    apply B. by apply Forall_drop.
  - rewrite Z.mod_small; [lia|]. pose proof (be_int_bound b Hb) as B. split; [lia|].
    eapply Z.lt_le_trans; [apply B|]. apply Z.pow_le_mono_r; lia.
Qed.

Lemma BytesToHash_int b : Forall byte_ok b → BytesToHash b = be_int b `mod` 2 ^ 256.
Proof. intros Hb. unfold BytesToHash. by rewrite right_aligned_int. Qed.

Lemma BytesToAddress_int b : Forall byte_ok b → BytesToAddress b = be_int b `mod` 2 ^ 160.
Proof. intros Hb. unfold BytesToAddress. by rewrite right_aligned_int. Qed.

Lemma BigToHash_int x : 0 ≤ x → BigToHash x = x `mod` 2 ^ 256.
Proof.
  intros Hx. unfold BigToHash. rewrite BytesToHash_int by apply big_bytes_ok.
  by rewrite be_int_big_bytes.
Qed.

Lemma Hash_Big_id h : hash_ok h → Hash_Big h = h.
Proof. intros Hh. by apply be_int_be_bytes_id. Qed.

Lemma BytesToHash_Hash_Big h : hash_ok h → BytesToHash (big_bytes (Hash_Big h)) = h.
Proof.
  intros Hh. rewrite Hash_Big_id by done. unfold hash_ok in Hh.
  transitivity (h `mod` 2 ^ 256); [apply BigToHash_int; lia|by apply Z.mod_small].
Qed.

Lemma Uint64ToHash_id n : is_u64 n → Uint64ToHash n = n.
Proof.
  intros Hn. unfold Uint64ToHash. rewrite be_int_app, be_int_zeros.
  rewrite be_int_be_bytes_id; [lia|]. exact Hn.
Qed.

Lemma Address_Hash_id a : address_ok a → Address_Hash a = a.
Proof.
  intros Ha. unfold Address_Hash. rewrite BytesToHash_int by apply be_bytes_ok.
  unfold Address_Bytes. rewrite be_int_be_bytes_id by exact Ha.
  apply Z.mod_small. unfold address_ok in Ha.
  assert (2 ^ 160 < 2 ^ 256) by (apply Z.pow_lt_mono_r; lia). lia.
Qed.

#[global] Arguments be_bytes : simpl never.
#[global] Arguments be_int : simpl never.
#[global] Arguments bytes_compare : simpl never.
