(* ===== verification/Params.v ===== *)
(** * Params: chain parameters, steps and committees

    The Algorand part of src/params/config.go and the step, vote-type and
    committee tables of src/core/types/certificate.go. *)

From S2P Require Import Prelude.

Local Open Scope Z_scope.

(** ** src/params/config.go *)

Record AlgorandConfig := mkAlgorandConfig {
  TimeoutTwoLambda : Z;   (* uint64, milliseconds *)
  TotalWeight : Z;        (* *big.Int *)
  IntervalSize : Z        (* uint32 *)
}.

(** The division panics in Go when [IntervalSize] is 0; [Z.div] gives 0 there,
    and every theorem that meets the quotient has [0 < IntervalSize]. *)
Definition GetIntervalSn (c : AlgorandConfig) (height : Z) : Z :=
  height `div` IntervalSize c.

Definition GetInterval (c : AlgorandConfig) (sn : Z) : Z * Z :=
  (mul64 sn (IntervalSize c), mul64 (add64 sn 1) (IntervalSize c)).

(** [time.Duration] is an [int64] of nanoseconds. *)
Definition TimeoutTwoLambdaDuration (c : AlgorandConfig) : Z :=
  let p := u64 (1000000 * TimeoutTwoLambda c) in
  if p <? 2 ^ 63 then p else p - 2 ^ 64.

Record CommitteeConfig := mkCommitteeConfig {
  NumProposer : Z;
  SoftCommitteeThreshold : Z;
  CertCommitteeThreshold : Z;
  NextCommitteeThreshold : Z;
  SoftCommitteeSize : Z;
  CertCommitteeSize : Z;
  NextCommitteeSize : Z
}.

Definition CommitteeConfigv1 : CommitteeConfig := {|
  NumProposer := 20;
  SoftCommitteeThreshold := 2267;
  CertCommitteeThreshold := 1112;
  NextCommitteeThreshold := 3838;
  SoftCommitteeSize := 2990;
  CertCommitteeSize := 1500;
  NextCommitteeSize := 5000
|}.

Definition KaleidoAlgorandConfig : AlgorandConfig := {|
  TimeoutTwoLambda := 2000;
  TotalWeight := 10000000000;
  IntervalSize := 1000 * 1000
|}.

Definition ConsensusVersion : Z := 1.

(** ** src/core/types/certificate.go *)

Definition BadRound : Z := 0.
Definition BadStep : Z := 0.
Definition MaxStep : Z := 2 ^ 32 - 1.

Definition RoundStep1Proposal : Z := 1.
Definition RoundStep2Filtering : Z := 2.
Definition RoundStep3Certifying : Z := 3.
Definition RoundStep4FirstFinishing : Z := 4.
Definition RoundStep5SecondFinishing : Z := 5.

Definition VoteTypeSoft : Z := 1.
Definition VoteTypeCert : Z := 2.
Definition VoteTypeNext : Z := 3.

Definition VoteTypeOfStep (step : Z) : Z :=
  if step =? RoundStep2Filtering then VoteTypeSoft
  else if step =? RoundStep3Certifying then VoteTypeCert
  else if RoundStep4FirstFinishing <=? step then VoteTypeNext
  else BadStep.

Definition proposerThreshold : Z := 1.

Definition GetCommitteeNumber (height step : Z) : Z * Z :=
  if step =? RoundStep1Proposal then
    (proposerThreshold, NumProposer CommitteeConfigv1)
  else if step =? RoundStep2Filtering then
    (SoftCommitteeThreshold CommitteeConfigv1, SoftCommitteeSize CommitteeConfigv1)
  else if step =? RoundStep3Certifying then
    (CertCommitteeThreshold CommitteeConfigv1, CertCommitteeSize CommitteeConfigv1)
  else (NextCommitteeThreshold CommitteeConfigv1, NextCommitteeSize CommitteeConfigv1).

(** ** Facts *)

Lemma GetInterval_contains c h :
  0 < IntervalSize c → 0 ≤ h → h + IntervalSize c < 2 ^ 64 →
  (GetInterval c (GetIntervalSn c h)).1 ≤ h < (GetInterval c (GetIntervalSn c h)).2.
Proof.
  intros HI Hh Hmax. unfold GetInterval, GetIntervalSn. simpl.
  set (q := h `div` IntervalSize c).
  assert (0 ≤ q) by (apply Z.div_pos; lia).
  pose proof (Z.mul_div_le h (IntervalSize c) HI) as H1.
  pose proof (Z.mod_pos_bound h (IntervalSize c) HI) as H2.
  pose proof (Z.div_mod h (IntervalSize c)) as H3. fold q in H1, H3.
  assert (q ≤ h) by nia.
  rewrite add64_id by (unfold is_u64; lia).
  rewrite !mul64_id by (unfold is_u64; nia). nia.
Qed.

Lemma GetCommitteeNumber_threshold_pos h s : 1 ≤ (GetCommitteeNumber h s).1 ≤ 3838.
Proof. unfold GetCommitteeNumber. repeat case_match; simpl; unfold proposerThreshold; lia. Qed.

(** Every threshold is more than two thirds of its committee. *)
Lemma GetCommitteeNumber_two_thirds h s :
  s ≠ RoundStep1Proposal →
  2 * (GetCommitteeNumber h s).2 < 3 * (GetCommitteeNumber h s).1.
Proof.
  intros Hs. unfold GetCommitteeNumber.
  destruct (Z.eqb_spec s RoundStep1Proposal); [done|].
  repeat case_match; simpl; lia.
Qed.

Lemma VoteTypeOfStep_soft s : VoteTypeOfStep s = VoteTypeSoft ↔ s = RoundStep2Filtering.
Proof. unfold VoteTypeOfStep. repeat case_cmp; unfold RoundStep2Filtering in *; split; intros; (done || lia). Qed.

Lemma VoteTypeOfStep_cert s : VoteTypeOfStep s = VoteTypeCert ↔ s = RoundStep3Certifying.
Proof.
  unfold VoteTypeOfStep, RoundStep2Filtering, RoundStep3Certifying.
  repeat case_cmp; split; intros; (done || lia).
Qed.

Lemma VoteTypeOfStep_next s : VoteTypeOfStep s = VoteTypeNext ↔ RoundStep4FirstFinishing ≤ s.
Proof.
  unfold VoteTypeOfStep, RoundStep2Filtering, RoundStep3Certifying, RoundStep4FirstFinishing.
  repeat case_cmp; split; intros; (done || lia).
Qed.
