(* ===== verification/Crypto.v ===== *)
(** * Crypto: the primitives the consensus calls

    The hash functions, the ed25519 signatures, the verifiable random function
    and the RLP encoder are C code (src/crypto/ed25519/libsodium, reached with
    cgo from src/crypto/ed25519) or vendored Go.  They are the operations of a
    class; what the code relies on is stated as separate classes of laws, used
    only by the theorems that need them. *)

From S2P Require Import Prelude Bytes.

Local Open Scope Z_scope.

(** An item of an RLP list as the sources build them: a byte array, an unsigned
    machine integer or a big integer. *)
Inductive rlp_item :=
| RArr (b : bytes)
| RUint (n : Z)
| RBig (n : Z).

Class Crypto := {
  (** golang.org/x/crypto/sha3, crypto/sha512 *)
  keccak256 : bytes → Hash;
  sha512_256 : bytes → Z;
  (** vendored go-ethereum/rlp *)
  rlp_list : list rlp_item → bytes;
  (** crypto_sign_ed25519: [PrivateKeyToPublicKey], [Sign], [Verify] *)
  ed_pub : Z → Z;
  ed_sign : Z → bytes → Z;
  ed_verify : Z → bytes → Z → bool;
  (** crypto_vrf: [VrfPrivateKeyToPublicKey], [VrfProve], [VrfProofToHash256],
      [VrfVerify256]; [None] is a false [ok] *)
  vrf_pub : Z → Z;
  VrfProve : Z → bytes → option Z;
  VrfProofToHash256 : Z → option Z;
  VrfVerify256 : Z → Z → bytes → option Z
}.

(** Signatures made with a private key verify under its public key. *)
Class SignatureCorrect `{Crypto} : Prop :=
  ed_sign_verify : ∀ sk data, ed_verify (ed_pub sk) data (ed_sign sk data) = true.

(** RFC 9381: a proof made with a key verifies under its public key and yields
    the hash that can be read off the proof, and all proofs that verify for one
    key and message yield one output. *)
Class VrfCorrect `{Crypto} : Prop := {
  vrf_complete : ∀ sk m p, VrfProve sk m = Some p →
    VrfVerify256 (vrf_pub sk) p m = VrfProofToHash256 p;
  vrf_unique : ∀ pk m p p' h h',
    VrfVerify256 pk p m = Some h → VrfVerify256 pk p' m = Some h' → h = h';
  vrf_output : ∀ pk m p h, VrfVerify256 pk p m = Some h → VrfProofToHash256 p = Some h
}.

(** Digests are 32 bytes. *)
Class DigestSize `{Crypto} : Prop := {
  keccak256_ok : ∀ b, hash_ok (keccak256 b);
  sha512_256_ok : ∀ b, hash_ok (sha512_256 b)
}.

(** ** An executable instance

    A toy scheme in which a key is its own public key, a signature repeats the
    key and a hash is a linear function of its input.  It satisfies the laws, and
    concrete examples are evaluated with it. *)
Module Toy.
Definition tail_sum (b : bytes) : Z := foldl (λ acc x, Z.land (acc * 3 + x) 72057594037927935) 0 b.
Definition digest (b : bytes) : Z := (be_int (take 32 b) + 2 ^ 200 * tail_sum (drop 32 b)) `mod` 2 ^ 256.
Definition vrf (pk : Z) (m : bytes) : Z := pk * 2 ^ 256 + digest m.

Definition item_bytes (i : rlp_item) : bytes :=
  match i with RArr b => b | RUint n => be_bytes 8 n | RBig n => be_bytes 32 n end.

#[export] Instance crypto : Crypto := {|
  keccak256 := digest;
  sha512_256 := digest;
  rlp_list l := mjoin (item_bytes <$> l);
  ed_pub sk := sk;
  ed_sign sk _ := sk;
  ed_verify pk _ sig := pk =? sig;
  vrf_pub sk := sk;
  VrfProve sk m := Some (vrf sk m);
  VrfProofToHash256 p := Some (p `mod` 2 ^ 256);
  VrfVerify256 pk p m := if p =? vrf pk m then Some (p `mod` 2 ^ 256) else None
|}.

#[export] Instance signature_correct : SignatureCorrect.
Proof. intros sk data. apply Z.eqb_refl. Qed.

#[export] Instance vrf_correct : VrfCorrect.
Proof.
  split; cbn.
  - intros sk m p [= <-]. by rewrite Z.eqb_refl.
  - intros pk m p p' h h'. repeat case_cmp; congruence.
  - intros pk m p h. by case_cmp.
Qed.

#[export] Instance digest_size : DigestSize.
Proof. split; intros b; apply Z.mod_pos_bound; lia. Qed.
End Toy.
