(* ===== verification/ForwardSecure.v ===== *)
(** * ForwardSecure: the vote keys of src/crypto/ed25519/forwardsecure.go

    A forward-secure key is a master public key and one ed25519 sub key per
    offset, each signed by the master key that is destroyed at generation.
    Signing at an offset uses its sub key; [ForwardSecureUpdate] deletes the sub
    keys of past offsets. *)

From S2P Require Import Prelude Bytes Crypto.

Local Open Scope Z_scope.

Record signedSubKey := mkSubKey { Sk : Z; PkSig : Z }.

Record ForwardSecurePrivateKey := mkFSKey {
  fs_PublicKey : Z;
  fs_Start : Z;                    (* uint64 *)
  fs_SubKeys : list signedSubKey
}.

Record ForwardSecureSignature := mkFSSig { sig_Sig : Z; sig_Pk : Z; sig_PkSig : Z }.

#[export] Instance signedSubKey_eq : EqDecision signedSubKey.
Proof. solve_decision. Defined.
#[export] Instance ForwardSecureSignature_eq : EqDecision ForwardSecureSignature.
Proof. solve_decision. Defined.

Definition zeroSignature : ForwardSecureSignature := mkFSSig 0 0 0.

Definition ValidOffset (key : ForwardSecurePrivateKey) (offset : Z) : bool :=
  let limit := add64 (fs_Start key) (Z.of_nat (length (fs_SubKeys key))) in
  (fs_Start key <=? offset) && (offset <? limit).

(** [var buffer [8+32]byte; PutUint64(buffer[0:8], offset);
    copy(buffer[8:PublicKeySize], subPk[:])]: the destination of the copy is
    [buffer[8:32]]. *)
Definition toBytes (offset subPk : Z) : bytes :=
  be_bytes 8 offset ++ take (32 - 8) (be_bytes 32 subPk) ++ replicate 8 0.

Section forward_secure.
Context `{CR : Crypto}.

(** [GenerateKey] draws a fresh private key at each call: [keygen 0] is the
    master key and [keygen (S i)] the [i]-th sub key. *)
Definition GenerateForwardSecureKey (keygen : nat → Z) (offset : Z) (count : nat) :
    Z * ForwardSecurePrivateKey :=
  let skToBeDestroyed := keygen O in
  let subs := (λ i, let subSk := keygen (S i) in
                    let data := toBytes (add64 offset (Z.of_nat i)) (ed_pub subSk) in
                    mkSubKey subSk (ed_sign skToBeDestroyed data)) <$> seq 0 count in
  let pk := ed_pub skToBeDestroyed in
  (pk, mkFSKey pk offset subs).

(** [None] is the index panic of [sk.SubKeys[idx]]. *)
Definition ForwardSecureSign (sk : ForwardSecurePrivateKey) (offset : Z) (data : bytes) :
    option ForwardSecureSignature :=
  if negb (ValidOffset sk offset) then Some zeroSignature
  else
    let idx := sub64 offset (fs_Start sk) in
    k ← fs_SubKeys sk !! Z.to_nat idx;
    Some (mkFSSig (ed_sign (Sk k) data) (ed_pub (Sk k)) (PkSig k)).

Definition ForwardSecureVerify (pk offset : Z) (data : bytes) (sig : ForwardSecureSignature) : bool :=
  let verifyData := toBytes offset (sig_Pk sig) in
  ed_verify pk verifyData (sig_PkSig sig) && ed_verify (sig_Pk sig) data (sig_Sig sig).

Definition ForwardSecureUpdate (sk : ForwardSecurePrivateKey) (offset : Z) :
    Z * ForwardSecurePrivateKey :=
  if fs_Start sk <? offset then
    let deleted := sub64 offset (fs_Start sk) in
    let max := Z.of_nat (length (fs_SubKeys sk)) in
    let deleted := if max <? deleted then max else deleted in
    (deleted, mkFSKey (fs_PublicKey sk) (add64 (fs_Start sk) deleted)
                (drop (Z.to_nat deleted) (fs_SubKeys sk)))
  else (0, sk).

(** ** Well-formed keys

    Every sub key carries the master's signature for its own offset, and the
    offsets do not wrap around. *)
Record fs_wf (msk : Z) (sk : ForwardSecurePrivateKey) : Prop := {
  fs_wf_pub : fs_PublicKey sk = ed_pub msk;
  fs_wf_start : 0 ≤ fs_Start sk;
  fs_wf_limit : fs_Start sk + Z.of_nat (length (fs_SubKeys sk)) < 2 ^ 64;
  fs_wf_sub : ∀ i k, fs_SubKeys sk !! i = Some k →
    PkSig k = ed_sign msk (toBytes (fs_Start sk + Z.of_nat i) (ed_pub (Sk k)))
}.

Lemma ValidOffset_iff msk sk o : fs_wf msk sk →
  ValidOffset sk o = true ↔
  fs_Start sk ≤ o < fs_Start sk + Z.of_nat (length (fs_SubKeys sk)).
Proof.
  intros [_ H0 H1 _]. unfold ValidOffset.
  rewrite add64_id by (unfold is_u64; lia).
  rewrite andb_true_iff, Z.leb_le, Z.ltb_lt. done.
Qed.

Lemma GenerateForwardSecureKey_wf keygen offset count :
  0 ≤ offset → offset + Z.of_nat count < 2 ^ 64 →
  fs_wf (keygen O) (GenerateForwardSecureKey keygen offset count).2.
Proof.
  intros H0 H1. split; simpl; [done..| |].
  - by rewrite length_fmap, length_seq.
  - intros i k Hk. apply list_lookup_fmap_Some in Hk as (j & -> & Hk).
    apply lookup_seq in Hk as [-> Hi]. simpl.
    by rewrite add64_id by (unfold is_u64; lia).
Qed.

Lemma ForwardSecureUpdate_wf msk sk offset :
  is_u64 offset → fs_wf msk sk → fs_wf msk (ForwardSecureUpdate sk offset).2.
Proof.
  intros Ho [Hp H0 H1 Hs]. unfold ForwardSecureUpdate, is_u64 in *.
  destruct (Z.ltb_spec (fs_Start sk) offset); [|by split].
  rewrite sub64_id by (unfold is_u64; lia).
  set (d := if Z.of_nat _ <? _ then _ else _).
  assert (0 ≤ d ≤ Z.of_nat (length (fs_SubKeys sk))) by (unfold d; case_cmp; lia).
  split; simpl; rewrite ?add64_id by (unfold is_u64; lia); [done|lia| |].
  - rewrite length_drop. lia.
  - intros i k. rewrite lookup_drop. intros Hk. rewrite (Hs _ _ Hk).
    do 2 f_equal. lia.
Qed.

(** What a node keeps after [ForwardSecureUpdate]: exactly the offsets it had
    that are not before the new one. *)
Lemma ForwardSecureUpdate_valid msk sk offset o :
  is_u64 offset → fs_wf msk sk →
  ValidOffset (ForwardSecureUpdate sk offset).2 o = ValidOffset sk o && (offset <=? o).
Proof.
  intros Ho Hwf. pose proof (ForwardSecureUpdate_wf msk sk offset Ho Hwf) as Hwf'.
  apply Bool.eq_iff_eq_true. rewrite andb_true_iff, Z.leb_le.
  rewrite (ValidOffset_iff msk _ o Hwf'), (ValidOffset_iff msk _ o Hwf).
  destruct Hwf as [_ H0 H1 _]. unfold ForwardSecureUpdate, is_u64 in *.
  destruct (Z.ltb_spec (fs_Start sk) offset); simpl; [|lia].
  rewrite sub64_id by (unfold is_u64; lia). rewrite length_drop.
  case_cmp; rewrite add64_id by (unfold is_u64; lia); lia.
Qed.

Lemma ForwardSecureSign_ok msk sk o data :
  fs_wf msk sk → ValidOffset sk o = true →
  ∃ k, fs_SubKeys sk !! Z.to_nat (o - fs_Start sk) = Some k ∧
       ForwardSecureSign sk o data
       = Some (mkFSSig (ed_sign (Sk k) data) (ed_pub (Sk k)) (PkSig k)).
Proof.
  intros Hwf Hv. unfold ForwardSecureSign. rewrite Hv. simpl.
  apply (ValidOffset_iff msk) in Hv; [|done]. destruct Hwf as [_ H0 H1 _].
  rewrite sub64_id by (unfold is_u64; lia).
  destruct (lookup_lt_is_Some_2 (fs_SubKeys sk) (Z.to_nat (o - fs_Start sk))) as [k Hk]; [lia|].
  exists k. by rewrite Hk.
Qed.

Lemma ForwardSecureSign_verifies `{SC : !SignatureCorrect} msk sk o data :
  fs_wf msk sk → ValidOffset sk o = true →
  ∃ sig, ForwardSecureSign sk o data = Some sig ∧
         ForwardSecureVerify (ed_pub msk) o data sig = true.
Proof.
  intros Hwf Hv. destruct (ForwardSecureSign_ok msk sk o data Hwf Hv) as (k & Hk & ->).
  eexists; split; [done|]. unfold ForwardSecureVerify. simpl.
  apply (ValidOffset_iff _ _ _ Hwf) in Hv. destruct Hwf as [_ HS _ Hsub].
  rewrite (Hsub _ _ Hk), Z2Nat.id by lia.
  replace (fs_Start sk + (o - fs_Start sk)) with o by lia.
  by rewrite !ed_sign_verify.
Qed.

(** The life of a key: it is generated, then updated to any sequence of
    offsets. *)
Definition fs_updates (sk : ForwardSecurePrivateKey) (offsets : list Z) : ForwardSecurePrivateKey :=
  foldl (λ sk o, (ForwardSecureUpdate sk o).2) sk offsets.

Lemma fs_updates_wf msk sk os :
  Forall is_u64 os → fs_wf msk sk → fs_wf msk (fs_updates sk os).
Proof.
  intros Hos. revert sk. induction Hos as [|o os Ho Hos IH]; intros sk Hsk; [done|].
  simpl. apply IH. by apply ForwardSecureUpdate_wf.
Qed.

Lemma fs_updates_valid msk sk os o :
  Forall is_u64 os → fs_wf msk sk →
  ValidOffset (fs_updates sk os) o = ValidOffset sk o && forallb (λ x, x <=? o) os.
Proof.
  intros Hos. revert sk. induction Hos as [|x os Ho Hos IH]; intros sk Hsk; simpl.
  - by rewrite andb_true_r.
  - rewrite IH by (by apply ForwardSecureUpdate_wf).
    rewrite (ForwardSecureUpdate_valid msk) by done. by rewrite andb_assoc.
Qed.

(** C39. A key generated for [count] offsets from [offset] signs, after any updates,
    at exactly the offsets of its range that no update passed: at those the
    signature verifies under the public key returned at generation, and at all
    others the zero signature is returned.  Signing never panics. *)
Theorem forward_secure_sign_verify `{SC : !SignatureCorrect} keygen offset count os o data :
  0 ≤ offset → offset + Z.of_nat count < 2 ^ 64 → Forall is_u64 os →
  let '(pk, sk0) := GenerateForwardSecureKey keygen offset count in
  let sk := fs_updates sk0 os in
  if (offset <=? o) && (o <? offset + Z.of_nat count) && forallb (λ x, x <=? o) os then
    ∃ sig, ForwardSecureSign sk o data = Some sig ∧ ForwardSecureVerify pk o data sig = true
  else ForwardSecureSign sk o data = Some zeroSignature.
Proof.
  intros H0 H1 Hos.
  pose proof (GenerateForwardSecureKey_wf keygen offset count H0 H1) as Hwf.
  destruct (GenerateForwardSecureKey keygen offset count) as [pk sk0] eqn:Eg.
  injection Eg as Epk Esk. simpl in Hwf.
  pose proof (fs_updates_wf _ _ os Hos Hwf) as Hwf'.
  assert ((offset <=? o) && (o <? offset + Z.of_nat count) = ValidOffset sk0 o) as ->.
  { apply Bool.eq_iff_eq_true. rewrite (ValidOffset_iff _ _ _ Hwf), <- Esk.
    rewrite andb_true_iff, Z.leb_le, Z.ltb_lt. simpl. by rewrite length_fmap, length_seq. }
  rewrite <- (fs_updates_valid _ _ _ o Hos Hwf). cbn zeta.
  destruct (ValidOffset (fs_updates sk0 os) o) eqn:Hv.
  - rewrite <- Epk. by apply ForwardSecureSign_verifies.
  - unfold ForwardSecureSign. by rewrite Hv.
Qed.
End forward_secure.

(** The message the master key signs holds only the first 24 bytes of the sub
    key: sub keys that differ in their last 8 bytes are not told apart. *)
Theorem toBytes_ignores_tail offset pk x y :
  0 ≤ x < 2 ^ 64 → 0 ≤ y < 2 ^ 64 →
  toBytes offset (pk * 2 ^ 64 + x) = toBytes offset (pk * 2 ^ 64 + y).
Proof.
  intros Hx Hy. unfold toBytes. do 2 f_equal.
  change 32%nat with (24 + 8)%nat. rewrite !be_bytes_app.
  rewrite !take_app_length' by (by rewrite length_be_bytes). f_equal.
  change (256 ^ Z.of_nat 8) with (2 ^ 64).
  by rewrite !Z.div_add_l, (Z.div_small x), (Z.div_small y) by lia.
Qed.

Import Toy.

Lemma forward_secure_sign_verify_witness : ∃ sig,
  ForwardSecureSign (fs_updates (GenerateForwardSecureKey (λ i, Z.of_nat i) 10 5).2 [9; 12]) 13 [1]
    = Some sig ∧
  ForwardSecureVerify (GenerateForwardSecureKey (λ i, Z.of_nat i) 10 5).1 13 [1] sig = true.
Proof.
  pose proof (forward_secure_sign_verify (λ i, Z.of_nat i) 10 5 [9; 12] 13 [1]) as H.
  apply H; [lia|lia|]. repeat constructor; lia.
Defined.
