(* ===== verification/Types.v ===== *)
(** * Types: headers, blocks, certificates and the consensus messages

    src/core/types/block.go, src/core/types/certificate.go (storage types and
    the credential order) and src/consensus/algorand/core/types.go. *)

From S2P Require Import Prelude Bytes Params Crypto ForwardSecure.

Local Open Scope Z_scope.

(** ** Certificates (src/core/types/certificate.go) *)

Record CredentialStorage := mkCredentialStorage { cs_Address : Address; cs_Proof : Z }.

Record ProposalStorage := mkProposalStorage {
  ps_ESignValue : ForwardSecureSignature;
  ps_Round : Z;
  ps_Credential : CredentialStorage;
  ps_SeedProof : Z
}.

Record CertVoteStorage := mkCertVoteStorage {
  cv_ESignValue : ForwardSecureSignature;
  cv_Credential : CredentialStorage
}.

Abbreviation NodeList := (list bytes).

Record Certificate := mkCertificate {
  ct_Height : Z;
  ct_Round : Z;
  ct_Value : Hash;
  ct_Proposal : ProposalStorage;
  ct_CertVoteSet : list CertVoteStorage;
  ct_TrieProof : NodeList
}.

#[export] Instance Certificate_fields : Fields Certificate := λ c,
  mkCertificate (ct_Height c) (ct_Round c) (ct_Value c) (ct_Proposal c)
    (ct_CertVoteSet c) (ct_TrieProof c).
#[export] Instance ProposalStorage_fields : Fields ProposalStorage := λ p,
  mkProposalStorage (ps_ESignValue p) (ps_Round p) (ps_Credential p) (ps_SeedProof p).
#[export] Instance CredentialStorage_fields : Fields CredentialStorage := λ c,
  mkCredentialStorage (cs_Address c) (cs_Proof c).

Definition emptyProposalStorage : ProposalStorage :=
  mkProposalStorage zeroSignature 0 (mkCredentialStorage 0 0) 0.
(** [new(types.Certificate)] *)
Definition emptyCertificate : Certificate := mkCertificate 0 0 0 emptyProposalStorage [] [].

Definition Certificate_Proposer (c : Certificate) : Address :=
  cs_Address (ps_Credential (ct_Proposal c)).
Definition Certificate_SetProposer (addr : Address) (c : Certificate) : Certificate :=
  c <| ct_Proposal ::= λ p, p <| ps_Credential ::= λ cr, cr <| cs_Address := addr |> |> |>.
Definition Certificate_Proof (c : Certificate) : Z := cs_Proof (ps_Credential (ct_Proposal c)).
Definition Certificate_SeedProof (c : Certificate) : Z := ps_SeedProof (ct_Proposal c).
Definition Certificate_SetSeedProof (proof : Z) (c : Certificate) : Certificate :=
  c <| ct_Proposal ::= λ p, p <| ps_SeedProof := proof |> |>.

(** [CertVoteStorageSlice.Less]: the order of the addresses' bytes. *)
Definition CertVoteStorage_Less (a b : CertVoteStorage) : bool :=
  match bytes_compare (Address_Bytes (cs_Address (cv_Credential a)))
                      (Address_Bytes (cs_Address (cv_Credential b))) with
  | Lt => true | _ => false
  end.

(** ** Transactions (src/core/types/transaction.go), the fields of txdata *)

Record Transaction := mkTransaction {
  tx_AccountNonce : Z;
  tx_Price : Z;
  tx_GasLimit : Z;
  tx_Recipient : option Address;
  tx_Amount : Z;
  tx_Payload : bytes;
  tx_V : Z; tx_R : Z; tx_S : Z;
  tx_ContractGas : Z
}.

(** ** Headers and blocks (src/core/types/block.go) *)

Record Header := mkHeader {
  hd_ParentHash : Hash;
  hd_UncleHash : Hash;
  hd_Coinbase : Address;
  hd_Root : Hash;
  hd_TxHash : Hash;
  hd_ReceiptHash : Hash;
  hd_Bloom : Z;                 (* 256 bytes *)
  hd_Difficulty : Z;            (* *big.Int *)
  hd_Number : Z;                (* *big.Int *)
  hd_GasLimit : Z;
  hd_GasUsed : Z;
  hd_Time : Z;
  hd_Extra : bytes;
  hd_MixDigest : Hash;          (* used as seed *)
  hd_Nonce : Z;                 (* 8 bytes, used as consensus version *)
  hd_TotalBalanceOfMiners : Z;  (* *big.Int *)
  hd_Certificate : Certificate  (* not included in any hash *)
}.

#[export] Instance Header_fields : Fields Header := λ h,
  mkHeader (hd_ParentHash h) (hd_UncleHash h) (hd_Coinbase h) (hd_Root h) (hd_TxHash h)
    (hd_ReceiptHash h) (hd_Bloom h) (hd_Difficulty h) (hd_Number h) (hd_GasLimit h)
    (hd_GasUsed h) (hd_Time h) (hd_Extra h) (hd_MixDigest h) (hd_Nonce h)
    (hd_TotalBalanceOfMiners h) (hd_Certificate h).

Definition EncodeNonce (i : Z) : Z := be_int (be_bytes 8 i).
Definition Header_SetVersion (version : Z) (h : Header) : Header :=
  h <| hd_Nonce := EncodeNonce version |>.
Definition Header_Version (h : Header) : Z := be_int (be_bytes 8 (hd_Nonce h)).
Definition Header_Seed (h : Header) : Z := hd_MixDigest h.
Definition Header_SetSeed (seed : Z) (h : Header) : Header := h <| hd_MixDigest := seed |>.
Definition Header_Proposer (h : Header) : Address := Certificate_Proposer (hd_Certificate h).
Definition Header_Proof (h : Header) : Z := Certificate_Proof (hd_Certificate h).

Record Block := mkBlock {
  bl_header : Header;
  bl_uncles : list Header;
  bl_transactions : list Transaction
}.

Definition Block_Number (b : Block) : Z := hd_Number (bl_header b).
Definition Block_NumberU64 (b : Block) : Z := u64 (hd_Number (bl_header b)).
Definition Block_Time (b : Block) : Z := hd_Time (bl_header b).
Definition Block_Coinbase (b : Block) : Address := hd_Coinbase (bl_header b).
Definition Block_Root (b : Block) : Hash := hd_Root (bl_header b).
Definition Block_ParentHash (b : Block) : Hash := hd_ParentHash (bl_header b).
Definition Block_Certificate (b : Block) : Certificate := hd_Certificate (bl_header b).
Definition Block_Seed (b : Block) : Z := Header_Seed (bl_header b).
Definition Block_SeedProof (b : Block) : Z := Certificate_SeedProof (Block_Certificate b).
Definition Block_Proof (b : Block) : Z := Header_Proof (bl_header b).
Definition Block_Proposer (b : Block) : Address := Header_Proposer (bl_header b).
Definition Block_TotalBalanceOfMiners (b : Block) : Z := hd_TotalBalanceOfMiners (bl_header b).
(** [WithSeal]: the same body under another header. *)
Definition Block_WithSeal (b : Block) (h : Header) : Block :=
  mkBlock h (bl_uncles b) (bl_transactions b).

Section hashing.
Context `{CR : Crypto}.

Definition Header_Hash (h : Header) : Hash :=
  keccak256 (rlp_list [
    RArr (be_bytes 32 (hd_ParentHash h));
    RArr (be_bytes 32 (hd_UncleHash h));
    RArr (be_bytes 20 (hd_Coinbase h));
    RArr (be_bytes 32 (hd_Root h));
    RArr (be_bytes 32 (hd_TxHash h));
    RArr (be_bytes 32 (hd_ReceiptHash h));
    RArr (be_bytes 256 (hd_Bloom h));
    RBig (hd_Difficulty h);
    RBig (hd_Number h);
    RUint (hd_GasLimit h);
    RUint (hd_GasUsed h);
    RUint (hd_Time h);
    RArr (hd_Extra h);
    RArr (be_bytes 32 (hd_MixDigest h));
    RArr (be_bytes 8 (hd_Nonce h));
    RBig (hd_TotalBalanceOfMiners h)]).

Definition AlgorandEmptyValue (h : Header) : Hash :=
  keccak256 (rlp_list [RArr (be_bytes 32 (hd_ParentHash h)); RBig (hd_Number h)]).

Definition Block_Hash (b : Block) : Hash := Header_Hash (bl_header b).

(** The certificate is not hashed: sealing a block does not change its hash. *)
Lemma Block_Hash_WithSeal b c :
  Block_Hash (Block_WithSeal b ((bl_header b) <| hd_Certificate := c |>)) = Block_Hash b.
Proof. done. Qed.

(** ** The order of credentials (src/core/types/certificate.go) *)

Definition minRandHash (hash j : Z) : Z :=
  foldl (λ min i,
      let hash512 := sha512_256 (be_bytes 32 hash ++ be_bytes 8 i) in
      if match bytes_compare (be_bytes 32 hash512) (be_bytes 32 min) with Lt => true | _ => false end
      then hash512 else min)
    (sha512_256 (be_bytes 32 hash)) (seqZ 2 (j - 1)).

(** [None] is the panic on a proof that yields no hash. *)
Definition LessThanByProofInt (proofA proofB jA jB : Z) : option comparison :=
  if jA =? 0 then Some Gt
  else if jB =? 0 then Some Lt
  else
    hashA ← VrfProofToHash256 proofA;
    hashB ← VrfProofToHash256 proofB;
    let minA := minRandHash hashA jA in
    let minB := minRandHash hashB jB in
    Some (bytes_compare (be_bytes 32 minA) (be_bytes 32 minB)).

Definition LessThanByProof (proofA proofB jA jB : Z) : option bool :=
  c ← LessThanByProofInt proofA proofB jA jB;
  Some (match c with Lt => true | _ => false end).
End hashing.

(** ** Consensus messages (src/consensus/algorand/core/types.go) *)

Inductive MsgCode :=
| HandshakeMsg | StatusMsg | ProposalLeaderMsg | ProposalBlockMsg | VoteMsg
| HasVoteMsg | TimeoutMsg | HasProposalLeaderMsg | HasProposalBlockMsg.

Record StatusData := mkStatusData { st_Height : Z; st_Round : Z }.

Record Credential := mkCredential {
  cr_Address : Address;
  cr_Height : Z;   (* uint64 *)
  cr_Round : Z;    (* uint32 *)
  cr_Step : Z;     (* uint32 *)
  cr_Proof : Z;
  cr_Weight : Z    (* uint64, cached, not encoded *)
}.
#[export] Instance Credential_fields : Fields Credential := λ c,
  mkCredential (cr_Address c) (cr_Height c) (cr_Round c) (cr_Step c) (cr_Proof c) (cr_Weight c).

Definition NewCredentialFromCredentialStorage (storage : CredentialStorage)
    (height round step weight : Z) : Credential :=
  mkCredential (cs_Address storage) height round step (cs_Proof storage) weight.

Record ProposalLeaderData := mkProposalLeaderData {
  pl_Value : Hash;
  pl_ESignValue : ForwardSecureSignature;
  pl_Credential : Credential
}.

Record ProposalBlockData := mkProposalBlockData {
  pb_Block : Block;
  pb_ESignValue : ForwardSecureSignature;
  pb_Credential : Credential
}.

Record VoteData := mkVoteData {
  vt_Value : Hash;
  vt_ESignValue : ForwardSecureSignature;
  vt_Credential : Credential
}.

#[export] Instance ProposalLeaderData_fields : Fields ProposalLeaderData := λ d,
  mkProposalLeaderData (pl_Value d) (pl_ESignValue d) (pl_Credential d).
#[export] Instance ProposalBlockData_fields : Fields ProposalBlockData := λ d,
  mkProposalBlockData (pb_Block d) (pb_ESignValue d) (pb_Credential d).
#[export] Instance VoteData_fields : Fields VoteData := λ d,
  mkVoteData (vt_Value d) (vt_ESignValue d) (vt_Credential d).

#[export] Instance Credential_eq : EqDecision Credential.
Proof. solve_decision. Defined.
#[export] Instance VoteData_eq : EqDecision VoteData.
Proof. solve_decision. Defined.
#[export] Instance ProposalLeaderData_eq : EqDecision ProposalLeaderData.
Proof. solve_decision. Defined.

Record HasVoteData := mkHasVoteData {
  hv_Address : Address; hv_Height : Z; hv_Round : Z; hv_Step : Z }.

Record HasProposalData := mkHasProposalData {
  hp_Height : Z; hp_Round : Z; hp_Proof : Z; hp_Value : Hash; hp_Weight : Z }.

(** The embedded credential's fields. *)
Abbreviation vt_Address v := (cr_Address (vt_Credential v)).
Abbreviation vt_Height v := (cr_Height (vt_Credential v)).
Abbreviation vt_Round v := (cr_Round (vt_Credential v)).
Abbreviation vt_Step v := (cr_Step (vt_Credential v)).
Abbreviation vt_Weight v := (cr_Weight (vt_Credential v)).

Definition ToHasVote (data : VoteData) : HasVoteData :=
  mkHasVoteData (vt_Address data) (vt_Height data) (vt_Round data) (vt_Step data).

Definition NewVoteDataFromCertVoteStorage (storage : CertVoteStorage)
    (height round : Z) (value : Hash) : VoteData :=
  mkVoteData value (cv_ESignValue storage)
    (NewCredentialFromCredentialStorage (cv_Credential storage) height round
       RoundStep3Certifying 0).

Definition NewProposalLeaderDataFromStorage (value : Hash) (height : Z)
    (storage : ProposalStorage) : ProposalLeaderData :=
  mkProposalLeaderData value (ps_ESignValue storage)
    (NewCredentialFromCredentialStorage (ps_Credential storage) height (ps_Round storage)
       RoundStep1Proposal 0).

Definition VoteData_SignBytes (data : VoteData) : bytes := be_bytes 32 (vt_Value data).
Definition ProposalLeaderData_SignBytes (data : ProposalLeaderData) : bytes :=
  be_bytes 32 (pl_Value data).

Definition VoteData_Valid (data : VoteData) (height : Z) (emptyValue : Hash) : bool :=
  if negb (vt_Height data =? height) || (vt_Round data =? BadRound) || (vt_Step data =? BadStep)
     || (vt_Step data =? RoundStep1Proposal) || (MaxStep <? vt_Step data)
  then false
  else if ((vt_Step data =? RoundStep2Filtering) || (vt_Step data =? RoundStep3Certifying))
          && (vt_Value data =? emptyValue)
  then false
  else true.

Definition Proposal_Valid (c : Credential) (height : Z) : bool :=
  (cr_Height c =? height) && negb (cr_Round c =? BadRound) && (cr_Step c =? RoundStep1Proposal).

Definition ProposalLeaderData_Valid (data : ProposalLeaderData) (height : Z) : bool :=
  Proposal_Valid (pl_Credential data) height.
Definition ProposalBlockData_Valid (data : ProposalBlockData) (height : Z) : bool :=
  Proposal_Valid (pb_Credential data) height.

Section messages.
Context `{CR : Crypto}.

Definition Credential_LessThan (c other : Credential) : option bool :=
  LessThanByProof (cr_Proof c) (cr_Proof other) (cr_Weight c) (cr_Weight other).

Definition ProposalLeaderData_LessThan (data other : ProposalLeaderData) : option bool :=
  Credential_LessThan (pl_Credential data) (pl_Credential other).

Definition ProposalLeaderData_ToHasProposalData (data : ProposalLeaderData) : HasProposalData :=
  let c := pl_Credential data in
  mkHasProposalData (cr_Height c) (cr_Round c) (cr_Proof c) (pl_Value data) (cr_Weight c).

Definition ProposalBlockData_ToHasProposalData (data : ProposalBlockData) : HasProposalData :=
  let c := pb_Credential data in
  mkHasProposalData (cr_Height c) (cr_Round c) (cr_Proof c) (Block_Hash (pb_Block data))
    (cr_Weight c).

Definition NewProposalLeaderData (data : ProposalBlockData) : ProposalLeaderData :=
  mkProposalLeaderData (Block_Hash (pb_Block data)) (pb_ESignValue data) (pb_Credential data).

Definition ProposalBlockData_SignBytes (data : ProposalBlockData) : bytes :=
  be_bytes 32 (Block_Hash (pb_Block data)).

Definition ToProposalStorage (data : ProposalBlockData) : ProposalStorage :=
  mkProposalStorage (pb_ESignValue data) (cr_Round (pb_Credential data))
    (mkCredentialStorage (cr_Address (pb_Credential data)) (cr_Proof (pb_Credential data)))
    (Block_SeedProof (pb_Block data)).

Definition NewProposalBlockDataFromProposalStorage (leader : ProposalStorage) (block : Block)
    (weight : Z) : ProposalBlockData :=
  let headerNoCert := (bl_header block) <| hd_Certificate :=
    Certificate_SetProposer (cs_Address (ps_Credential leader))
      (Certificate_SetSeedProof (ps_SeedProof leader) emptyCertificate) |> in
  mkProposalBlockData (Block_WithSeal block headerNoCert) (ps_ESignValue leader)
    (NewCredentialFromCredentialStorage (ps_Credential leader) (Block_NumberU64 block)
       (ps_Round leader) RoundStep1Proposal weight).
End messages.

(** ** Properties of the credential order

    A member of weight [j] holds [j] tickets; [subHash hash i] is the hash of
    the [i]-th. *)
Section order.
Context `{CR : Crypto} `{DS : !DigestSize}.

Definition subHash (hash i : Z) : Z :=
  if i =? 1 then sha512_256 (be_bytes 32 hash)
  else sha512_256 (be_bytes 32 hash ++ be_bytes 8 i).

Lemma subHash_ok hash i : hash_ok (subHash hash i).
Proof. unfold subHash. case_match; apply sha512_256_ok. Qed.

Lemma minRandHash_step m h :
  hash_ok m → hash_ok h →
  (if match bytes_compare (be_bytes 32 h) (be_bytes 32 m) with Lt => true | _ => false end
   then h else m) = Z.min h m.
Proof.
  intros Hm Hh. rewrite bytes_compare_be_bytes by done.
  destruct (Z.compare_spec h m); lia.
Qed.

Lemma minRandHash_foldl hash (l : list Z) m :
  hash_ok m → Forall (λ i, 2 ≤ i) l →
  foldl (λ min i,
      let hash512 := sha512_256 (be_bytes 32 hash ++ be_bytes 8 i) in
      if match bytes_compare (be_bytes 32 hash512) (be_bytes 32 min) with Lt => true | _ => false end
      then hash512 else min) m l
  = foldl (λ min i, Z.min (subHash hash i) min) m l.
Proof.
  intros Hm Hl. revert m Hm. induction Hl as [|i l Hi Hl IH]; intros m Hm; [done|].
  cbn [foldl]. rewrite minRandHash_step by (done || apply sha512_256_ok).
  assert (sha512_256 (be_bytes 32 hash ++ be_bytes 8 i) = subHash hash i) as ->.
  { unfold subHash. destruct (Z.eqb_spec i 1); [lia|done]. }
  apply IH. pose proof (subHash_ok hash i). unfold hash_ok in *. lia.
Qed.

Lemma foldl_min (f : Z → Z) (l : list Z) m :
  let r := foldl (λ min i, Z.min (f i) min) m l in
  r ≤ m ∧ (∀ i, i ∈ l → r ≤ f i) ∧ (r = m ∨ ∃ i, i ∈ l ∧ r = f i).
Proof.
  revert m. induction l as [|x l IH]; intros m; simpl.
  { split; [done|]. split; [set_solver|by left]. }
  destruct (IH (Z.min (f x) m)) as (H1 & H2 & H3). split; [lia|]. split.
  - intros i [->|Hi]%elem_of_cons; [lia|by apply H2].
  - destruct H3 as [H3|(i & Hi & H3)].
    + rewrite H3. destruct (Z.min_spec (f x) m) as [[? ->]|[? ->]].
      * right. exists x. split; [set_solver|done].
      * by left.
    + right. exists i. split; [set_solver|done].
Qed.

(** [minRandHash hash j] is the least ticket of the [j] the member holds. *)
Lemma minRandHash_min hash j :
  1 ≤ j →
  (∃ i, 1 ≤ i ≤ j ∧ minRandHash hash j = subHash hash i) ∧
  ∀ i, 1 ≤ i ≤ j → minRandHash hash j ≤ subHash hash i.
Proof.
  intros Hj. unfold minRandHash.
  rewrite minRandHash_foldl; [|apply sha512_256_ok|].
  2: { apply Forall_forall. intros i Hi%elem_of_seqZ. lia. }
  change (sha512_256 (be_bytes 32 hash)) with (subHash hash 1).
  pose proof (foldl_min (subHash hash) (seqZ 2 (j - 1)) (subHash hash 1)) as (H1 & H2 & H3).
  split.
  - destruct H3 as [H3|(i & Hi%elem_of_seqZ & H3)].
    + exists 1. split; [lia|done].
    + exists i. split; [lia|done].
  - intros i Hi. destruct (Z.eq_dec i 1) as [->|]; [done|].
    apply H2, elem_of_seqZ. lia.
Qed.

Lemma minRandHash_ok hash j : 1 ≤ j → hash_ok (minRandHash hash j).
Proof. intros Hj. destruct (proj1 (minRandHash_min hash j Hj)) as (i & _ & ->). apply subHash_ok. Qed.

(** The rank of a credential: its least ticket, or infinity ([None]) for one of
    weight 0. *)
Definition cred_rank (c : Credential) : option (option Z) :=
  if cr_Weight c =? 0 then Some None
  else hash ← VrfProofToHash256 (cr_Proof c); Some (Some (minRandHash hash (cr_Weight c))).

Definition rank_lt (a b : option Z) : bool :=
  match a, b with
  | None, _ => false
  | Some _, None => true
  | Some x, Some y => x <? y
  end.

(** [LessThan] compares ranks whenever both credentials have one. *)
Lemma LessThan_rank c d rc rd :
  0 ≤ cr_Weight c → 0 ≤ cr_Weight d →
  cred_rank c = Some rc → cred_rank d = Some rd →
  Credential_LessThan c d = Some (rank_lt rc rd).
Proof.
  unfold cred_rank, Credential_LessThan, LessThanByProof, LessThanByProofInt.
  intros Hc Hd.
  destruct (Z.eqb_spec (cr_Weight c) 0); intros Ec Ed.
  { injection Ec as <-. done. }
  destruct (VrfProofToHash256 (cr_Proof c)) as [hc|] eqn:Ehc; [|done].
  injection Ec as <-.
  destruct (Z.eqb_spec (cr_Weight d) 0).
  { injection Ed as <-. reflexivity. }
  destruct (VrfProofToHash256 (cr_Proof d)) as [hd|] eqn:Ehd; [|discriminate Ed].
  injection Ed as <-. cbn [mbind option_bind rank_lt].
  rewrite bytes_compare_be_bytes by (apply minRandHash_ok; lia).
  by unfold Z.ltb.
Qed.
End order.
