(* ===== verification/VoteSet.v ===== *)
(** * VoteSet: vote counting (src/consensus/algorand/core/voteset.go)

    HeightVoteSet -> RoundVoteSet -> StepVoteSet -> VoteSet, UserSet.  A Go map
    is a [gmap]; a map keyed by [value.Str()] or [user.Str()] is keyed by the
    hash or address itself, [Str] being the identity on bytes; a pointer into
    the structure that a method mutates is read, changed and written back.  The
    mutexes make every method atomic, so each is one function on the state. *)

From S2P Require Import Prelude Bytes Params Crypto ForwardSecure Types.

Local Open Scope Z_scope.

(** ** UserSet *)

Record UserSet := mkUserSet { us_exists : gmap Address bool }.

Definition UserSet_Has (us : UserSet) (user : Address) : bool :=
  default false (us_exists us !! user).

Definition UserSet_Add (us : UserSet) (user : Address) : UserSet :=
  if negb (UserSet_Has us user) then mkUserSet (<[user := true]> (us_exists us)) else us.

(** ** VoteSet and StepVoteSet *)

Record VoteSet := mkVoteSet {
  vs_Weight : Z;              (* uint64: sum of all voters' weight *)
  vs_Votes : list VoteData
}.

Record StepVoteSet := mkStepVoteSet {
  Values : gmap Hash VoteSet;
  MajorValue : Hash;
  PotentialValue : list Hash;
  userSet : UserSet
}.
#[export] Instance StepVoteSet_fields : Fields StepVoteSet := λ s,
  mkStepVoteSet (Values s) (MajorValue s) (PotentialValue s) (userSet s).

Definition NewStepVoteSet : StepVoteSet := mkStepVoteSet ∅ 0 [] (mkUserSet ∅).

Definition hasValue (value : Hash) (l : list Hash) : bool := existsb (Z.eqb value) l.

Definition StepVoteSet_hasPotentialValue (svs : StepVoteSet) (value : Hash) : bool :=
  hasValue value (PotentialValue svs).

Definition appendNotIn (tmp votes : list VoteData) (us : option UserSet) : list VoteData :=
  foldl (λ tmp vote,
      if match us with None => true | Some us => negb (UserSet_Has us (vt_Address vote)) end
      then tmp ++ [vote] else tmp) tmp votes.

Section random.
(** [rand.Intn], and the order in which Go ranges over a map. *)
Context (intn : nat → nat) (range : list VoteSet → list VoteSet).

Definition RandomSelect (from : list VoteData) : option VoteData :=
  match from with [] => None | _ => from !! intn (length from) end.

(** The votes of each value of [values] not in [us]; [None] is the nil
    dereference of a value that has no vote set. *)
Fixpoint collectNotIn (svs : StepVoteSet) (tmp : list VoteData) (us : option UserSet)
    (values : list Hash) : option (list VoteData) :=
  match values with
  | [] => Some tmp
  | v :: values =>
      vs ← Values svs !! v;
      collectNotIn svs (appendNotIn tmp (vs_Votes vs) us) us values
  end.

(** [RandomNotIn]: [None] is a run-time panic, [Some None] the nil result. *)
Definition RandomNotIn (svs : StepVoteSet) (other : option StepVoteSet) : option (option VoteData) :=
  if (size (Values svs) =? 0)%nat then Some None
  else
    let us := userSet <$> other in
    tmp1 ← (if negb (EmptyHash (MajorValue svs))
            then collectNotIn svs [] us [MajorValue svs] else Some []);
    match tmp1 with
    | _ :: _ => Some (RandomSelect tmp1)
    | [] =>
        tmp2 ← collectNotIn svs [] us (PotentialValue svs);
        match tmp2 with
        | _ :: _ => Some (RandomSelect tmp2)
        | [] =>
            let tmp3 := foldl (λ tmp self, appendNotIn tmp (vs_Votes self) us) []
                          (range (map_to_list (Values svs)).*2) in
            Some (RandomSelect tmp3)
        end
    end.
End random.

(** ** RoundVoteSet *)

Record RoundVoteSet := mkRoundVoteSet {
  softVoteSet : StepVoteSet;
  certVoteSet : StepVoteSet;
  nextVoteSet : gmap Z StepVoteSet;   (* step -> set *)
  potentialValues : list Hash
}.
#[export] Instance RoundVoteSet_fields : Fields RoundVoteSet := λ r,
  mkRoundVoteSet (softVoteSet r) (certVoteSet r) (nextVoteSet r) (potentialValues r).

Definition NewRoundVoteSet : RoundVoteSet := mkRoundVoteSet NewStepVoteSet NewStepVoteSet ∅ [].

(** [votes[0]] panics on an empty slice: [None]. *)
Definition NewRoundVoteSetFromCertificates (votes : list VoteData) (threshold : Z) :
    option RoundVoteSet :=
  match votes with
  | [] => None
  | v0 :: _ =>
      let us := foldl (λ us v, UserSet_Add us (vt_Address v)) (mkUserSet ∅) votes in
      let cert := mkStepVoteSet {[vt_Value v0 := mkVoteSet threshold votes]} 0 [] us in
      Some (NewRoundVoteSet <| certVoteSet := cert |>)
  end.

Definition getStepVoteSet (rvs : RoundVoteSet) (step : Z) : option StepVoteSet :=
  let voteType := VoteTypeOfStep step in
  if voteType =? VoteTypeSoft then Some (softVoteSet rvs)
  else if voteType =? VoteTypeCert then Some (certVoteSet rvs)
  else if voteType =? VoteTypeNext then nextVoteSet rvs !! step
  else None.

(** Writing through the pointer [getStepVoteSet] returned. *)
Definition putStepVoteSet (rvs : RoundVoteSet) (step : Z) (svs : StepVoteSet) : RoundVoteSet :=
  let voteType := VoteTypeOfStep step in
  if voteType =? VoteTypeSoft then rvs <| softVoteSet := svs |>
  else if voteType =? VoteTypeCert then rvs <| certVoteSet := svs |>
  else if voteType =? VoteTypeNext then rvs <| nextVoteSet ::= <[step := svs]> |>
  else rvs.

Definition ensureStepVoteSet (rvs : RoundVoteSet) (step : Z) : RoundVoteSet * option StepVoteSet :=
  match getStepVoteSet rvs step with
  | Some svs => (rvs, Some svs)
  | None =>
      if VoteTypeOfStep step =? VoteTypeNext
      then (rvs <| nextVoteSet ::= <[step := NewStepVoteSet]> |>, Some NewStepVoteSet)
      else (rvs, None)
  end.

Definition RoundVoteSet_HasVote (rvs : RoundVoteSet) (step : Z) (user : Address) : bool :=
  match getStepVoteSet rvs step with
  | None => false
  | Some svs => UserSet_Has (userSet svs) user
  end.

Definition RoundVoteSet_SetHasVote (rvs : RoundVoteSet) (step : Z) (user : Address) : RoundVoteSet :=
  match ensureStepVoteSet rvs step with
  | (rvs, None) => rvs
  | (rvs, Some svs) =>
      putStepVoteSet rvs step (svs <| userSet ::= λ us, UserSet_Add us user |>)
  end.

Definition RoundVoteSet_IsNextVoteEnoughForEmptyAtAnyStep (rvs : RoundVoteSet) (empty : Hash) : bool :=
  existsb (λ kv, MajorValue kv.2 =? empty) (map_to_list (nextVoteSet rvs)).

Definition RoundVoteSet_GetCertVotesOfValue (rvs : RoundVoteSet) (value : Hash) : list VoteData :=
  match Values (certVoteSet rvs) !! value with
  | None => []
  | Some vv => vs_Votes vv
  end.

Definition GetSoftMajorValue (rvs : RoundVoteSet) : Hash := MajorValue (softVoteSet rvs).
Definition GetCertMajorValue (rvs : RoundVoteSet) : Hash := MajorValue (certVoteSet rvs).
Definition RoundVoteSet_HasPotentialValue (rvs : RoundVoteSet) (value : Hash) : bool :=
  hasValue value (potentialValues rvs).
Definition GetPotentialSoftedValues (rvs : RoundVoteSet) : list Hash := PotentialValue (softVoteSet rvs).
Definition GetPotentialCertifiedValues (rvs : RoundVoteSet) : list Hash := PotentialValue (certVoteSet rvs).

Inductive vote_error := BadVoteStep | DuplicateVote | MajorValueExists.

Record vote_result := mkVoteResult {
  added : bool; newPotential : bool; enough : bool; vr_err : option vote_error }.

(** The counting of [AddVoteAndCount] once its three checks have passed. *)
Definition countVote (svs : StepVoteSet) (vote : VoteData) (threshold : Z) :
    StepVoteSet * vote_result :=
  let voteValue := vt_Value vote in
  let voteSet := default (mkVoteSet 0 []) (Values svs !! voteValue) in
  let added := vs_Weight voteSet <? threshold in
  let voteSet := if added
    then mkVoteSet (add64 (vs_Weight voteSet) (vt_Weight vote)) (vs_Votes voteSet ++ [vote])
    else voteSet in
  let svs := svs <| Values ::= <[voteValue := voteSet]> |> in
  let svs := if added then svs <| userSet ::= λ us, UserSet_Add us (vt_Address vote) |> else svs in
  let newPotential := (add64 threshold 1 <=? mul64 (vs_Weight voteSet) 2)
                      && negb (StepVoteSet_hasPotentialValue svs voteValue) in
  let svs := if newPotential then svs <| PotentialValue ::= λ l, l ++ [voteValue] |> else svs in
  let enough := threshold <=? vs_Weight voteSet in
  let svs := if enough then svs <| MajorValue := voteValue |> else svs in
  (svs, mkVoteResult added newPotential enough None).

Definition RoundVoteSet_AddVoteAndCount (rvs : RoundVoteSet) (vote : VoteData) (threshold : Z) :
    RoundVoteSet * vote_result :=
  match ensureStepVoteSet rvs (vt_Step vote) with
  | (rvs, None) => (rvs, mkVoteResult false false false (Some BadVoteStep))
  | (rvs, Some svs) =>
      if UserSet_Has (userSet svs) (vt_Address vote)
      then (rvs, mkVoteResult false false false (Some DuplicateVote))
      else if negb (EmptyHash (MajorValue svs))
      then (rvs, mkVoteResult false true true (Some MajorValueExists))
      else
        let '(svs, res) := countVote svs vote threshold in
        let rvs := putStepVoteSet rvs (vt_Step vote) svs in
        let rvs := if newPotential res && negb (hasValue (vt_Value vote) (potentialValues rvs))
                   then rvs <| potentialValues ::= λ l, l ++ [vt_Value vote] |> else rvs in
        (rvs, res)
  end.

Section random_round.
Context (intn : nat → nat) (range : list VoteSet → list VoteSet).

Fixpoint pickSteps (rvs other : RoundVoteSet) (steps : list Z) : option (option VoteData) :=
  match steps with
  | [] => Some None
  | step :: steps =>
      svs ← nextVoteSet rvs !! step;
      vote ← RandomNotIn intn range svs (nextVoteSet other !! step);
      match vote with
      | Some vote => Some (Some vote)
      | None => pickSteps rvs other steps
      end
  end.

Definition sortedSteps (rvs : RoundVoteSet) : list Z :=
  merge_sort (≤) (map_to_list (nextVoteSet rvs)).*1.

Definition pickNextVoteToSend (rvs other : RoundVoteSet) : option (option VoteData) :=
  pickSteps rvs other (sortedSteps rvs).

Definition PickVoteToSend (rvs other : option RoundVoteSet) : option (option VoteData) :=
  match rvs with
  | None => Some None
  | Some rvs =>
      let other := default NewRoundVoteSet other in
      vote ← RandomNotIn intn range (certVoteSet rvs) (Some (certVoteSet other));
      match vote with
      | Some vote => Some (Some vote)
      | None =>
          vote ← RandomNotIn intn range (softVoteSet rvs) (Some (softVoteSet other));
          match vote with
          | Some vote => Some (Some vote)
          | None => pickNextVoteToSend rvs other
          end
      end
  end.

Definition PickNextVoteToSend (rvs other : option RoundVoteSet) : option (option VoteData) :=
  match rvs with
  | None => Some None
  | Some rvs => pickNextVoteToSend rvs (default NewRoundVoteSet other)
  end.
End random_round.

(** ** HeightVoteSet *)

Record HeightVoteSet := mkHeightVoteSet { roundVoteSet : gmap Z RoundVoteSet }.
#[export] Instance HeightVoteSet_fields : Fields HeightVoteSet := λ h, mkHeightVoteSet (roundVoteSet h).

Definition NewHeightVoteSet : HeightVoteSet := mkHeightVoteSet ∅.

Definition HeightVoteSet_RoundVoteSet (hvs : HeightVoteSet) (round : Z) : option RoundVoteSet :=
  roundVoteSet hvs !! round.

Definition EnsureRoundVoteSet (hvs : HeightVoteSet) (round : Z) : HeightVoteSet * RoundVoteSet :=
  match roundVoteSet hvs !! round with
  | Some rvs => (hvs, rvs)
  | None => (hvs <| roundVoteSet ::= <[round := NewRoundVoteSet]> |>, NewRoundVoteSet)
  end.

Definition putRoundVoteSet (hvs : HeightVoteSet) (round : Z) (rvs : RoundVoteSet) : HeightVoteSet :=
  hvs <| roundVoteSet ::= <[round := rvs]> |>.

Definition HeightVoteSet_AddVoteAndCount (hvs : HeightVoteSet) (vote : VoteData) (threshold : Z) :
    HeightVoteSet * vote_result :=
  let '(hvs, rvs) := EnsureRoundVoteSet hvs (vt_Round vote) in
  let '(rvs, res) := RoundVoteSet_AddVoteAndCount rvs vote threshold in
  (putRoundVoteSet hvs (vt_Round vote) rvs, res).

Definition HeightVoteSet_HasVote (hvs : HeightVoteSet) (round step : Z) (user : Address) : bool :=
  match HeightVoteSet_RoundVoteSet hvs round with
  | None => false
  | Some rvs => RoundVoteSet_HasVote rvs step user
  end.

Definition HeightVoteSet_SetHasVote (hvs : HeightVoteSet) (round step : Z) (user : Address) : HeightVoteSet :=
  let '(hvs, rvs) := EnsureRoundVoteSet hvs round in
  putRoundVoteSet hvs round (RoundVoteSet_SetHasVote rvs step user).

Definition IsSoftVoteEnoughForNonEmpty (hvs : HeightVoteSet) (empty : Hash) (round : Z) : bool * Hash :=
  match HeightVoteSet_RoundVoteSet hvs round with
  | None => (false, empty)
  | Some rvs =>
      let value := GetSoftMajorValue rvs in
      if negb (EmptyHash value) && negb (value =? empty) then (true, value) else (false, empty)
  end.

(** [IsSoftVoteEnoughForNonEmptyForAnyRound]: [range] is the order in which the
    map is read.  [rvsMap] is keyed by the position [i] and read with the round
    number; reading a missing key gives a nil pointer whose method call
    panics: [None]. *)
Fixpoint searchSoft (rvsMap : gmap Z RoundVoteSet) (empty : Hash) (rounds : list Z) :
    option (bool * Hash) :=
  match rounds with
  | [] => Some (false, empty)
  | round :: rounds =>
      rvs ← rvsMap !! round;
      let value := GetSoftMajorValue rvs in
      if negb (EmptyHash value) && negb (value =? empty) then Some (true, value)
      else searchSoft rvsMap empty rounds
  end.

Definition IsSoftVoteEnoughForNonEmptyForAnyRound
    (range : list (Z * RoundVoteSet) → list (Z * RoundVoteSet))
    (hvs : HeightVoteSet) (empty : Hash) : option (bool * Hash) :=
  let kvs := range (map_to_list (roundVoteSet hvs)) in
  let rvsMap := list_to_map (imap (λ i kv, (Z.of_nat i, kv.2)) kvs) in
  searchSoft rvsMap empty (merge_sort (≤) kvs.*1).

Definition HeightVoteSet_IsNextVoteEnoughForEmptyAtAnyStep (hvs : HeightVoteSet) (round : Z)
    (empty : Hash) : bool :=
  match HeightVoteSet_RoundVoteSet hvs round with
  | None => false
  | Some rvs => RoundVoteSet_IsNextVoteEnoughForEmptyAtAnyStep rvs empty
  end.

Definition HeightVoteSet_GetCertVotesOfValue (hvs : HeightVoteSet) (round : Z) (value : Hash) :
    list VoteData :=
  match HeightVoteSet_RoundVoteSet hvs round with
  | None => []
  | Some rvs => RoundVoteSet_GetCertVotesOfValue rvs value
  end.

Definition CertVoteStorage_of_vote (vote : VoteData) : CertVoteStorage :=
  mkCertVoteStorage (vt_ESignValue vote)
    (mkCredentialStorage (vt_Address vote) (cr_Proof (vt_Credential vote))).

Definition GetCertVoteStorage (hvs : HeightVoteSet) (round : Z) (value : Hash) : list CertVoteStorage :=
  CertVoteStorage_of_vote <$> HeightVoteSet_GetCertVotesOfValue hvs round value.

Definition IsPotentialValue (hvs : HeightVoteSet) (round : Z) (value : Hash) : bool :=
  match HeightVoteSet_RoundVoteSet hvs round with
  | None => false
  | Some rvs => RoundVoteSet_HasPotentialValue rvs value
  end.
