(* ===== verification/VoteSetFacts.v ===== *)
(** * VoteSetFacts: what the vote sets promise

    The invariant of every set a node fills with [AddVoteAndCount], the
    uniqueness and stability of the majority value, the quorum-intersection
    bound between two nodes, and the gossip picks. *)

From S2P Require Import Prelude Bytes Params Crypto ForwardSecure Types VoteSet.

Local Open Scope Z_scope.

(** ** UserSet *)

Lemma UserSet_Has_Add us u v :
  UserSet_Has (UserSet_Add us u) v = (u =? v) || UserSet_Has us v.
Proof.
  unfold UserSet_Add. destruct (UserSet_Has us u) eqn:E; simpl.
  - destruct (Z.eqb_spec u v) as [->|]; [by rewrite E|done].
  - unfold UserSet_Has. simpl. rewrite lookup_insert.
    destruct (Z.eqb_spec u v); case_decide; done.
Qed.

Lemma UserSet_Has_empty u : UserSet_Has (mkUserSet ∅) u = false.
Proof. done. Qed.

Lemma hasValue_true v l : hasValue v l = true ↔ v ∈ l.
Proof.
  unfold hasValue. rewrite existsb_elem. split.
  - by intros (x & Hx & ->%Z.eqb_eq).
  - intros Hv. exists v. by rewrite Z.eqb_refl.
Qed.

Lemma hasValue_false v l : hasValue v l = false ↔ v ∉ l.
Proof. rewrite <- hasValue_true. by destruct (hasValue v l). Qed.

(** ** The invariant of one step

    [T] is the threshold, [B] bounds the weight of one vote, and [P] is a
    property every counted vote has. *)
Record svs_inv (T B : Z) (P : VoteData → Prop) (svs : StepVoteSet) : Prop := {
  inv_weight : ∀ v vs, Values svs !! v = Some vs →
    vs_Weight vs = sumZ (λ vt, vt_Weight vt) (vs_Votes vs);
  inv_cap : ∀ v vs, Values svs !! v = Some vs → 0 ≤ vs_Weight vs < T + B;
  inv_vote : ∀ v vs vt, Values svs !! v = Some vs → vt ∈ vs_Votes vs →
    vt_Value vt = v ∧ 0 ≤ vt_Weight vt ≤ B ∧ P vt ∧
    UserSet_Has (userSet svs) (vt_Address vt) = true;
  inv_nonempty : ∀ v vs, Values svs !! v = Some vs → vs_Votes vs ≠ [];
  inv_nodup : ∀ v vs, Values svs !! v = Some vs →
    NoDup ((λ vt, vt_Address vt) <$> vs_Votes vs);
  inv_once : ∀ v v' vs vs' vt vt', Values svs !! v = Some vs → Values svs !! v' = Some vs' →
    vt ∈ vs_Votes vs → vt' ∈ vs_Votes vs' → vt_Address vt = vt_Address vt' → v = v';
  inv_below : ∀ v vs, v ≠ 0 → Values svs !! v = Some vs →
    T ≤ vs_Weight vs → MajorValue svs = v;
  inv_major : MajorValue svs ≠ 0 →
    ∃ vs, Values svs !! MajorValue svs = Some vs ∧ T ≤ vs_Weight vs;
  inv_potential : ∀ v, v ∈ PotentialValue svs ↔
    ∃ vs, Values svs !! v = Some vs ∧ T + 1 ≤ 2 * vs_Weight vs;
  inv_potential_nodup : NoDup (PotentialValue svs)
}.

Lemma svs_inv_new T B P : svs_inv T B P NewStepVoteSet.
Proof.
  split; simpl; try (intros; simplify_map_eq; done).
  - intros v. rewrite elem_of_nil. split; [done|]. intros (vs & Hv & _). simplify_map_eq.
  - constructor.
Qed.

(** [SetHasVote] only enlarges the user set. *)
Lemma svs_inv_user T B P svs u :
  svs_inv T B P svs → svs_inv T B P (svs <| userSet ::= λ us, UserSet_Add us u |>).
Proof.
  intros [H1 H2 H3 H4 H5 H6 H7 H8 H9 H10]. split; upd; [done..| |done|done|done|done|done|done|done].
  intros v vs vt Hv Hvt. destruct (H3 v vs vt Hv Hvt) as (? & ? & ? & Hu).
  rewrite UserSet_Has_Add, Hu. by rewrite orb_true_r.
Qed.

(** What [countVote] does when it is called: the voter is new and there is no
    majority yet. *)
Section count.
Context (T B : Z) (P : VoteData → Prop).
Context (HT : 0 < T) (HTB : 2 * (T + B) < 2 ^ 64).
Context (svs : StepVoteSet) (vote : VoteData).
Context (Hinv : svs_inv T B P svs).
Context (Hnew : UserSet_Has (userSet svs) (vt_Address vote) = false).
Context (Hmaj : MajorValue svs = 0).
Context (Hbelow : vs_Weight (default (mkVoteSet 0 []) (Values svs !! vt_Value vote)) < T).
Context (HP : P vote) (Hw : 0 ≤ vt_Weight vote ≤ B).

Local Abbreviation vv := (vt_Value vote).
Local Abbreviation old := (default (mkVoteSet 0 []) (Values svs !! vv)).
Local Abbreviation new := (mkVoteSet (vs_Weight old + vt_Weight vote) (vs_Votes old ++ [vote])).

Lemma count_old_below : 0 ≤ vs_Weight old < T.
Proof.
  split; [|done]. destruct (Values svs !! vv) as [vs|] eqn:E; simpl; [|lia].
  by apply (inv_cap _ _ _ _ Hinv _ _ E).
Qed.

Lemma count_old_votes vt : vt ∈ vs_Votes old →
  vt_Value vt = vv ∧ 0 ≤ vt_Weight vt ≤ B ∧ P vt ∧
  UserSet_Has (userSet svs) (vt_Address vt) = true.
Proof.
  destruct (Values svs !! vv) as [vs|] eqn:E; simpl; [|set_solver].
  by apply (inv_vote _ _ _ _ Hinv).
Qed.

(** The result in closed form. *)
Lemma countVote_eq :
  countVote svs vote T =
  (let w := vs_Weight old + vt_Weight vote in
   let pot := (T + 1 <=? 2 * w) && negb (hasValue vv (PotentialValue svs)) in
   (mkStepVoteSet (<[vv := new]> (Values svs))
      (if T <=? w then vv else 0)
      (if pot then PotentialValue svs ++ [vv] else PotentialValue svs)
      (UserSet_Add (userSet svs) (vt_Address vote)),
    mkVoteResult true pot (T <=? w) None)).
Proof.
  pose proof count_old_below as Hold. unfold countVote.
  rewrite (proj2 (Z.ltb_lt _ _)) by lia.
  rewrite !add64_id by (unfold is_u64; lia). cbn [vs_Weight vs_Votes].
  rewrite mul64_id by (unfold is_u64; lia). rewrite (Z.mul_comm _ 2).
  unfold StepVoteSet_hasPotentialValue. upd.
  destruct svs as [V M PV US]. simpl in *. subst M.
  destruct (_ && _), (T <=? _); reflexivity.
Qed.

(** The values after the vote: the voted one is replaced, the others stay. *)
Lemma count_cases v vs :
  <[vv := new]> (Values svs) !! v = Some vs →
  (v = vv ∧ vs = new) ∨ (v ≠ vv ∧ Values svs !! v = Some vs).
Proof. rewrite lookup_insert. case_decide; intros; simplify_eq; auto. Qed.

Lemma count_new_votes vt : vt ∈ vs_Votes new ↔ vt ∈ vs_Votes old ∨ vt = vote.
Proof. simpl. by rewrite elem_of_app, list_elem_of_singleton. Qed.

Lemma count_fresh v vs vt :
  Values svs !! v = Some vs → vt ∈ vs_Votes vs → vt_Address vt ≠ vt_Address vote.
Proof.
  intros Hv Hvt E. destruct (inv_vote _ _ _ _ Hinv _ _ _ Hv Hvt) as (_ & _ & _ & Hh).
  rewrite E in Hh. congruence.
Qed.

Lemma count_fresh_old vt : vt ∈ vs_Votes old → vt_Address vt ≠ vt_Address vote.
Proof.
  destruct (Values svs !! vv) as [vs|] eqn:E; simpl; [|set_solver].
  by apply (count_fresh _ _ _ E).
Qed.

Lemma count_weight v vs : <[vv := new]> (Values svs) !! v = Some vs →
  vs_Weight vs = sumZ (λ vt, vt_Weight vt) (vs_Votes vs) ∧ 0 ≤ vs_Weight vs < T + B ∧
  vs_Votes vs ≠ [] ∧ NoDup ((λ vt, vt_Address vt) <$> vs_Votes vs).
Proof.
  pose proof count_old_below. pose proof count_fresh_old as Hf.
  intros [[-> ->]|[_ Hv]]%count_cases; last first.
  { split; [|split; [|split]]; eauto using inv_weight, inv_cap, inv_nonempty, inv_nodup. }
  cbn [vs_Weight vs_Votes]. rewrite sumZ_app, fmap_app, NoDup_app. split_and!; [|lia|lia| | | |].
  - destruct (Values svs !! vv) eqn:E; simpl; [|lia].
    rewrite (inv_weight _ _ _ _ Hinv _ _ E). lia.
  - by destruct (vs_Votes old).
  - destruct (Values svs !! vv) eqn:E; simpl; [by eapply inv_nodup|constructor].
  - intros a (vt & -> & Hvt)%list_elem_of_fmap Hb%list_elem_of_singleton. by apply (Hf vt Hvt).
  - apply NoDup_singleton.
Qed.

Lemma count_vote v vs vt : <[vv := new]> (Values svs) !! v = Some vs → vt ∈ vs_Votes vs →
  vt_Value vt = v ∧ 0 ≤ vt_Weight vt ≤ B ∧ P vt ∧
  UserSet_Has (UserSet_Add (userSet svs) (vt_Address vote)) (vt_Address vt) = true.
Proof.
  rewrite UserSet_Has_Add.
  intros [[-> ->]|[_ Hv]]%count_cases Hvt; [apply count_new_votes in Hvt as [Hvt| ->]|].
  - destruct (count_old_votes vt Hvt) as (? & ? & ? & ->). by rewrite orb_true_r.
  - by rewrite Z.eqb_refl.
  - destruct (inv_vote _ _ _ _ Hinv _ _ _ Hv Hvt) as (? & ? & ? & ->). by rewrite orb_true_r.
Qed.

Lemma count_other vt v' vs' vt' : vt ∈ vs_Votes new → Values svs !! v' = Some vs' → v' ≠ vv →
  vt' ∈ vs_Votes vs' → vt_Address vt ≠ vt_Address vt'.
Proof.
  intros [Hvt| ->]%count_new_votes Hv' Hne Hvt' E.
  - destruct (Values svs !! vv) as [vs0|] eqn:E0; simpl in Hvt; [|set_solver].
    apply Hne. symmetry. by eapply (inv_once _ _ _ _ Hinv).
  - by apply (count_fresh _ _ _ Hv' Hvt').
Qed.

Lemma count_once v v' vs vs' vt vt' :
  <[vv := new]> (Values svs) !! v = Some vs → <[vv := new]> (Values svs) !! v' = Some vs' →
  vt ∈ vs_Votes vs → vt' ∈ vs_Votes vs' → vt_Address vt = vt_Address vt' → v = v'.
Proof.
  intros [[-> ->]|[Hn Hv]]%count_cases [[-> ->]|[Hn' Hv']]%count_cases Hvt Hvt' E.
  - done.
  - by destruct (count_other vt v' vs' vt' Hvt Hv' Hn' Hvt').
  - by destruct (count_other vt' v vs vt Hvt' Hv Hn Hvt).
  - by eapply (inv_once _ _ _ _ Hinv).
Qed.

Lemma count_potential v :
  let pot := (T + 1 <=? 2 * vs_Weight new) && negb (hasValue vv (PotentialValue svs)) in
  v ∈ (if pot then PotentialValue svs ++ [vv] else PotentialValue svs) ↔
  ∃ vs, <[vv := new]> (Values svs) !! v = Some vs ∧ T + 1 ≤ 2 * vs_Weight vs.
Proof.
  pose proof (inv_potential _ _ _ _ Hinv) as H9. cbn zeta.
  destruct (decide (v = vv)) as [->|Hne].
  - rewrite lookup_insert_eq.
    destruct (Z.leb_spec (T + 1) (2 * vs_Weight new)) as [Hp|Hp]; cbn [andb].
    + split; [eauto|]. intros _.
      destruct (hasValue vv (PotentialValue svs)) eqn:Eh; cbn [negb]; [|set_solver].
      by apply hasValue_true.
    + rewrite H9. split; [|intros (? & [= <-] & ?); lia].
      intros (vs & Hv & ?). rewrite Hv in Hp. simpl in Hp. lia.
  - rewrite lookup_insert_ne, <- H9 by done. case_match; set_solver.
Qed.

Lemma svs_inv_countVote : svs_inv T B P (countVote svs vote T).1.
Proof.
  rewrite countVote_eq. cbn [fst]. pose proof count_old_below.
  split; cbn [Values MajorValue PotentialValue userSet].
  - intros v vs Hv. by apply (count_weight v).
  - intros v vs Hv. by apply (count_weight v).
  - apply count_vote.
  - intros v vs Hv. by apply (count_weight v).
  - intros v vs Hv. by apply (count_weight v).
  - apply count_once.
  - intros v vs Hv0 [[-> ->]|[Hn Hv]]%count_cases Hge; cbn [vs_Weight] in *.
    + by rewrite (proj2 (Z.leb_le _ _)).
    + pose proof (inv_below _ _ _ _ Hinv v vs Hv0 Hv Hge). congruence.
  - intros HM. destruct (Z.leb_spec T (vs_Weight old + vt_Weight vote)); [|done].
    exists new. rewrite lookup_insert_eq. split; [done|]. simpl. lia.
  - apply count_potential.
  - pose proof (inv_potential_nodup _ _ _ _ Hinv). destruct (_ && _) eqn:Ep; [|done].
    apply andb_true_iff in Ep as [_ Ep%negb_true_iff%hasValue_false].
    apply NoDup_app. split; [done|]. split; [|apply NoDup_singleton].
    intros x Hx ->%list_elem_of_singleton. done.
Qed.
End count.

(** Without a majority, every value but the zero hash is below the threshold. *)
Lemma below_threshold T B P svs v :
  0 < T → svs_inv T B P svs → MajorValue svs = 0 → v ≠ 0 →
  vs_Weight (default (mkVoteSet 0 []) (Values svs !! v)) < T.
Proof.
  intros HT Hinv Hmaj Hval. destruct (Values svs !! v) as [vs|] eqn:E; simpl; [|lia].
  destruct (Z.lt_ge_cases (vs_Weight vs) T); [lia|].
  pose proof (inv_below _ _ _ _ Hinv _ _ Hval E) as HM. rewrite Hmaj in HM. lia.
Qed.

(** A vote for the zero hash above its threshold is reported and not counted. *)
Lemma countVote_full T B P svs vote :
  0 < T → 2 * (T + B) < 2 ^ 64 → svs_inv T B P svs → MajorValue svs = 0 →
  T ≤ vs_Weight (default (mkVoteSet 0 []) (Values svs !! vt_Value vote)) →
  vt_Value vote = 0 ∧ countVote svs vote T = (svs, mkVoteResult false false true None).
Proof.
  intros HT HTB Hinv Hmaj Hge.
  destruct (Z.eq_dec (vt_Value vote) 0) as [Hz|Hnz].
  2: { pose proof (below_threshold _ _ _ _ _ HT Hinv Hmaj Hnz). lia. }
  split; [done|]. destruct (Values svs !! vt_Value vote) as [vs|] eqn:E; simpl in Hge; [|lia].
  pose proof (inv_cap _ _ _ _ Hinv _ _ E). unfold countVote. rewrite E.
  change (default (mkVoteSet 0 []) (Some vs)) with vs.
  rewrite (proj2 (Z.ltb_ge (vs_Weight vs) T)) by done. unfold StepVoteSet_hasPotentialValue. upd.
  rewrite add64_id, mul64_id by (unfold is_u64; lia).
  assert (hasValue (vt_Value vote) (PotentialValue svs) = true) as ->.
  { apply hasValue_true, (inv_potential _ _ _ _ Hinv). exists vs. split; [done|lia]. }
  rewrite andb_false_r, (proj2 (Z.leb_le T _)) by done.
  f_equal. destruct svs as [V M PV US]. cbn in *. unfold field_update, set_to. cbn.
  by rewrite insert_id, Hz, <- Hmaj.
Qed.

(** The votes for [v] reach the threshold. *)
Definition step_quorum (T : Z) (svs : StepVoteSet) (v : Hash) : Prop :=
  ∃ vs, Values svs !! v = Some vs ∧ T ≤ vs_Weight vs.

(** What [countVote] does, whatever the vote's value. *)
Record count_post (T B : Z) (P : VoteData → Prop) (svs : StepVoteSet) (vote : VoteData)
    (svs' : StepVoteSet) (res : vote_result) : Prop := {
  cp_inv : svs_inv T B P svs';
  cp_err : vr_err res = None;
  cp_major : MajorValue svs' = if enough res then vt_Value vote else 0;
  cp_potential : PotentialValue svs'
    = if newPotential res then PotentialValue svs ++ [vt_Value vote] else PotentialValue svs;
  cp_added : vt_Value vote ≠ 0 → added res = true ∧
    UserSet_Has (userSet svs') (vt_Address vote) = true;
  cp_quorum : enough res = true → step_quorum T svs' (vt_Value vote);
  cp_mono : ∀ v, step_quorum T svs v → step_quorum T svs' v
}.

Lemma countVote_post T B P svs vote :
  0 < T → 2 * (T + B) < 2 ^ 64 → svs_inv T B P svs →
  UserSet_Has (userSet svs) (vt_Address vote) = false → MajorValue svs = 0 →
  P vote → 0 ≤ vt_Weight vote ≤ B →
  count_post T B P svs vote (countVote svs vote T).1 (countVote svs vote T).2.
Proof.
  intros HT HTB Hinv Hnew Hmaj HP Hw.
  destruct (Z.lt_ge_cases (vs_Weight (default (mkVoteSet 0 []) (Values svs !! vt_Value vote))) T)
    as [Hb|Hge].
  - pose proof (svs_inv_countVote _ _ _ HT HTB svs vote Hinv Hnew Hmaj Hb HP Hw) as Hinv'.
    rewrite (countVote_eq _ _ _ HT HTB svs vote Hinv Hnew Hmaj Hb Hw) in *.
    split; [done|done|done|done| | |].
    + intros _. split; [done|]. cbn [fst userSet]. by rewrite UserSet_Has_Add, Z.eqb_refl.
    + cbn [fst snd enough]. intros ?%Z.leb_le. eexists. cbn [Values]. by rewrite lookup_insert_eq.
    + intros v (vs & Hv & Hle). cbn [fst Values]. unfold step_quorum. cbn [Values].
      destruct (decide (vt_Value vote = v)) as [<-|].
      * rewrite Hv in Hb. cbn in Hb. lia.
      * exists vs. by rewrite lookup_insert_ne.
  - destruct (countVote_full _ _ _ _ _ HT HTB Hinv Hmaj Hge) as [Hz ->].
    split; [done|done|cbn; congruence|done|done| |done].
    intros _. cbn [fst]. destruct (Values svs !! vt_Value vote) as [vs|] eqn:E; [|cbn in Hge; lia].
    by exists vs.
Qed.

(** ** The sets of a round *)

Lemma getStepVoteSet_cases rvs s :
  getStepVoteSet rvs s =
  if s =? RoundStep2Filtering then Some (softVoteSet rvs)
  else if s =? RoundStep3Certifying then Some (certVoteSet rvs)
  else if RoundStep4FirstFinishing <=? s then nextVoteSet rvs !! s
  else None.
Proof.
  unfold getStepVoteSet, VoteTypeOfStep. by repeat case_cmp.
Qed.

Lemma putStepVoteSet_cases rvs s svs :
  putStepVoteSet rvs s svs =
  if s =? RoundStep2Filtering then rvs <| softVoteSet := svs |>
  else if s =? RoundStep3Certifying then rvs <| certVoteSet := svs |>
  else if RoundStep4FirstFinishing <=? s then rvs <| nextVoteSet ::= <[s := svs]> |>
  else rvs.
Proof.
  unfold putStepVoteSet, VoteTypeOfStep.
  by destruct (s =? RoundStep2Filtering), (s =? RoundStep3Certifying),
    (RoundStep4FirstFinishing <=? s).
Qed.

Lemma getStepVoteSet_put rvs s svs s' :
  2 ≤ s →
  getStepVoteSet (putStepVoteSet rvs s svs) s' =
  if s =? s' then Some svs else getStepVoteSet rvs s'.
Proof.
  intros Hs. rewrite !getStepVoteSet_cases, putStepVoteSet_cases.
  unfold RoundStep2Filtering, RoundStep3Certifying, RoundStep4FirstFinishing.
  repeat case_cmp; upd; subst; cbn; try done; try lia.
  all: rewrite lookup_insert; by case_decide.
Qed.

Lemma ensureStepVoteSet_get rvs s rvs' svs :
  ensureStepVoteSet rvs s = (rvs', Some svs) →
  2 ≤ s ∧ getStepVoteSet rvs' s = Some svs ∧ potentialValues rvs' = potentialValues rvs ∧
  (getStepVoteSet rvs s = Some svs ∨ (getStepVoteSet rvs s = None ∧ svs = NewStepVoteSet)) ∧
  ∀ s', s' ≠ s → getStepVoteSet rvs' s' = getStepVoteSet rvs s'.
Proof.
  unfold ensureStepVoteSet. destruct (getStepVoteSet rvs s) as [svs0|] eqn:E.
  - intros [= <- <-]. split_and!; auto.
    rewrite getStepVoteSet_cases in E.
    unfold RoundStep2Filtering, RoundStep3Certifying, RoundStep4FirstFinishing in E.
    repeat case_cmp_in E; try lia; done.
  - destruct (Z.eqb_spec (VoteTypeOfStep s) VoteTypeNext) as [Hn|]; [|done].
    intros [= <- <-]. apply VoteTypeOfStep_next in Hn. unfold RoundStep4FirstFinishing in Hn.
    rewrite !getStepVoteSet_cases in *.
    unfold RoundStep2Filtering, RoundStep3Certifying, RoundStep4FirstFinishing in *.
    upd. split_and!; [lia| |done|by right|].
    + repeat case_cmp; try lia. by rewrite lookup_insert_eq.
    + intros s' Hs'. rewrite !getStepVoteSet_cases.
      unfold RoundStep2Filtering, RoundStep3Certifying, RoundStep4FirstFinishing.
      upd. by rewrite lookup_insert_ne.
Qed.

Lemma ensureStepVoteSet_none rvs s rvs' :
  ensureStepVoteSet rvs s = (rvs', None) → rvs' = rvs ∧ s < 2.
Proof.
  unfold ensureStepVoteSet. rewrite getStepVoteSet_cases. unfold VoteTypeOfStep.
  unfold RoundStep2Filtering, RoundStep3Certifying, RoundStep4FirstFinishing.
  repeat case_cmp; simpl; repeat case_match; intros; simplify_eq; split; (done || lia).
Qed.

(** [Th] gives the threshold of a step and [P] the property of the votes
    counted at a step. *)
Record rvs_inv (Th : Z → Z) (B : Z) (P : Z → VoteData → Prop) (rvs : RoundVoteSet) : Prop := {
  rinv_step : ∀ s svs, getStepVoteSet rvs s = Some svs → svs_inv (Th s) B (P s) svs;
  rinv_next : ∀ s svs, nextVoteSet rvs !! s = Some svs → RoundStep4FirstFinishing ≤ s;
  rinv_potential : ∀ v, v ∈ potentialValues rvs ↔
    ∃ s svs, getStepVoteSet rvs s = Some svs ∧ v ∈ PotentialValue svs
}.

Lemma rvs_inv_new Th B P : rvs_inv Th B P NewRoundVoteSet.
Proof.
  assert (∀ s svs, getStepVoteSet NewRoundVoteSet s = Some svs → svs = NewStepVoteSet) as H.
  { intros s svs. rewrite getStepVoteSet_cases. simpl. rewrite lookup_empty.
    repeat case_match; congruence. }
  split.
  - intros s svs ->%H. apply svs_inv_new.
  - intros s svs Hs. simpl in Hs. by rewrite lookup_empty in Hs.
  - intros v. simpl. rewrite elem_of_nil. split; [done|].
    intros (s & svs & ->%H & Hv). simpl in Hv. set_solver.
Qed.

Lemma rvs_inv_ensure Th B P rvs s rvs' svs :
  rvs_inv Th B P rvs → ensureStepVoteSet rvs s = (rvs', Some svs) →
  rvs_inv Th B P rvs' ∧ svs_inv (Th s) B (P s) svs.
Proof.
  intros [H1 H2 H3] E. pose proof (ensureStepVoteSet_get _ _ _ _ E) as (Hs & Hg & Hp & Hc & Ho).
  assert (svs_inv (Th s) B (P s) svs) as Hsvs.
  { destruct Hc as [Hc|[_ ->]]; [by apply H1|apply svs_inv_new]. }
  split; [split|done].
  - intros s' svs' Hs'. destruct (decide (s' = s)) as [->|]; [by simplify_eq|].
    rewrite Ho in Hs' by done. by apply H1.
  - intros s' svs'. unfold ensureStepVoteSet in E.
    destruct (getStepVoteSet rvs s); simplify_eq; [by apply H2|].
    destruct (Z.eqb_spec (VoteTypeOfStep s) VoteTypeNext) as [Hn|]; simplify_eq. upd.
    rewrite lookup_insert. case_decide; subst; [|apply H2].
    intros _. by apply VoteTypeOfStep_next.
  - intros v. rewrite Hp, H3. split; intros (s' & svs' & Hs' & Hv); exists s', svs'.
    + destruct (decide (s' = s)) as [->|]; [|by rewrite Ho].
      destruct Hc as [Hc|[Hc _]]; [|congruence]. by simplify_eq.
    + destruct (decide (s' = s)) as [->|]; [|by rewrite <- Ho].
      destruct Hc as [Hc|[_ ->]]; [by simplify_eq|]. simplify_eq. simpl in Hv. set_solver.
Qed.

(** Replacing the set of one step. *)
Lemma rvs_inv_put Th B P rvs s svs svs' pv :
  2 ≤ s → rvs_inv Th B P rvs → getStepVoteSet rvs s = Some svs →
  svs_inv (Th s) B (P s) svs' → PotentialValue svs ⊆ PotentialValue svs' →
  (∀ v, v ∈ pv ↔ v ∈ potentialValues rvs ∨ v ∈ PotentialValue svs') →
  rvs_inv Th B P ((putStepVoteSet rvs s svs') <| potentialValues := pv |>).
Proof.
  intros Hs [H1 H2 H3] Hg Hsvs' Hsub Hpv.
  assert (∀ s', getStepVoteSet ((putStepVoteSet rvs s svs') <| potentialValues := pv |>) s'
                = if s =? s' then Some svs' else getStepVoteSet rvs s') as Hget.
  { intros s'. rewrite <- getStepVoteSet_put by done. by rewrite !getStepVoteSet_cases. }
  split.
  - intros s' svs0. rewrite Hget. case_cmp; intros; simplify_eq; [done|by apply H1].
  - intros s' svs0. upd. rewrite putStepVoteSet_cases. repeat case_cmp; upd; try apply H2.
    rewrite lookup_insert. case_decide; subst; [done|apply H2].
  - intros v. upd. rewrite Hpv, H3. split.
    + intros [(s' & svs0 & Hs' & Hv)|Hv].
      * destruct (decide (s = s')) as [<-|].
        -- simplify_eq. exists s, svs'. rewrite Hget, Z.eqb_refl. set_solver.
        -- exists s', svs0. rewrite Hget. by rewrite (proj2 (Z.eqb_neq _ _)).
      * exists s, svs'. by rewrite Hget, Z.eqb_refl.
    + intros (s' & svs0 & Hs' & Hv). rewrite Hget in Hs'. case_cmp_in Hs'; simplify_eq; eauto.
Qed.

Lemma putStepVoteSet_potential rvs s svs :
  potentialValues (putStepVoteSet rvs s svs) = potentialValues rvs.
Proof. rewrite putStepVoteSet_cases. by repeat case_match. Qed.

Lemma set_potential_id (rvs : RoundVoteSet) pv :
  potentialValues rvs = pv → rvs = rvs <| potentialValues := pv |>.
Proof. intros <-. by destruct rvs. Qed.

(** The majority value of a step, 0 while there is none. *)
Definition major_at (rvs : RoundVoteSet) (s : Z) : Hash :=
  match getStepVoteSet rvs s with Some svs => MajorValue svs | None => 0 end.

(** A vote that passed the credential check of step [s]. *)
Record vote_ok (Th : Z → Z) (B : Z) (P : Z → VoteData → Prop) (vote : VoteData) : Prop := {
  vok_threshold : 0 < Th (vt_Step vote);
  vok_range : 2 * (Th (vt_Step vote) + B) < 2 ^ 64;
  vok_weight : 0 ≤ vt_Weight vote ≤ B;
  vok_prop : P (vt_Step vote) vote
}.

Section add_vote.
Context (Th : Z → Z) (B : Z) (P : Z → VoteData → Prop).
Local Abbreviation addVote rvs vote := (RoundVoteSet_AddVoteAndCount rvs vote (Th (vt_Step vote))).

(** The votes for [v] at step [s] reach the step's threshold. *)
Definition quorum_at (rvs : RoundVoteSet) (s : Z) (v : Hash) : Prop :=
  ∃ svs, getStepVoteSet rvs s = Some svs ∧ step_quorum (Th s) svs v.

(** What one call of [AddVoteAndCount] does to the round. *)
Record add_vote_post (rvs rvs' : RoundVoteSet) (vote : VoteData) (res : vote_result) : Prop := {
  avp_frame : ∀ s, s ≠ vt_Step vote → getStepVoteSet rvs' s = getStepVoteSet rvs s;
  avp_major : ∀ s, major_at rvs s ≠ 0 → getStepVoteSet rvs' s = getStepVoteSet rvs s;
  avp_err : vr_err res ≠ None → added res = false ∧
    (getStepVoteSet rvs' (vt_Step vote) = getStepVoteSet rvs (vt_Step vote) ∨
     getStepVoteSet rvs' (vt_Step vote) = Some NewStepVoteSet);
  avp_ok : vr_err res = None → 2 ≤ vt_Step vote ∧
    RoundVoteSet_HasVote rvs (vt_Step vote) (vt_Address vote) = false ∧
    major_at rvs (vt_Step vote) = 0 ∧
    major_at rvs' (vt_Step vote) = (if enough res then vt_Value vote else 0);
  avp_added : vr_err res = None → vt_Value vote ≠ 0 → added res = true ∧
    RoundVoteSet_HasVote rvs' (vt_Step vote) (vt_Address vote) = true;
  avp_quorum : vr_err res = None → enough res = true →
    quorum_at rvs' (vt_Step vote) (vt_Value vote);
  avp_mono : ∀ s v, quorum_at rvs s v → quorum_at rvs' s v
}.

(** The round's list of potential values grows with the step's. *)
Lemma add_vote_potential (rvs : RoundVoteSet) (s : Z) (svs svs' : StepVoteSet) (v : Hash) (pot : bool) :
  (∀ x, x ∈ PotentialValue svs → x ∈ potentialValues rvs) →
  PotentialValue svs' = (if pot then PotentialValue svs ++ [v] else PotentialValue svs) →
  let rvs' := putStepVoteSet rvs s svs' in
  ∃ pv, (if pot && negb (hasValue v (potentialValues rvs'))
         then rvs' <| potentialValues ::= λ l, l ++ [v] |> else rvs')
        = rvs' <| potentialValues := pv |> ∧
        ∀ x, x ∈ pv ↔ x ∈ potentialValues rvs ∨ x ∈ PotentialValue svs'.
Proof.
  intros Hsub Epv rvs'. unfold rvs'. rewrite putStepVoteSet_potential, Epv.
  destruct pot; cbn [andb].
  - destruct (hasValue v (potentialValues rvs)) eqn:Ehv; cbn [negb].
    + exists (potentialValues rvs). apply hasValue_true in Ehv. split; [|set_solver].
      apply set_potential_id, putStepVoteSet_potential.
    + exists (potentialValues rvs ++ [v]). split; [|set_solver].
      by rewrite <- (putStepVoteSet_potential rvs s svs').
  - exists (potentialValues rvs). split; [|set_solver].
    apply set_potential_id, putStepVoteSet_potential.
Qed.

Lemma AddVoteAndCount_post rvs vote :
  rvs_inv Th B P rvs → vote_ok Th B P vote →
  rvs_inv Th B P (addVote rvs vote).1 ∧
  add_vote_post rvs (addVote rvs vote).1 vote (addVote rvs vote).2.
Proof.
  intros Hinv [HT HTB Hw HP]. unfold RoundVoteSet_AddVoteAndCount.
  destruct (ensureStepVoteSet rvs (vt_Step vote)) as [rvs1 [svs|]] eqn:E; last first.
  { apply ensureStepVoteSet_none in E as [-> Hs]. split; [done|].
    split; simpl; [done|done|auto|done|done|done|done]. }
  destruct (rvs_inv_ensure _ _ _ _ _ _ _ Hinv E) as [Hinv1 Hsvs].
  apply ensureStepVoteSet_get in E as (Hs & Hg & Hp & Hc & Ho).
  assert (∀ s x, getStepVoteSet rvs s = Some x → getStepVoteSet rvs1 s = Some x) as Hold.
  { intros s x. destruct (decide (s = vt_Step vote)) as [->|]; [|by rewrite Ho].
    destruct Hc as [Hc|[Hc _]]; rewrite Hc; [congruence|done]. }
  assert (∀ s, major_at rvs s ≠ 0 → getStepVoteSet rvs1 s = getStepVoteSet rvs s) as Hkeep.
  { intros s. unfold major_at. destruct (getStepVoteSet rvs s) eqn:Es; [|done]. intros _. by apply Hold. }
  assert (∀ s v, quorum_at rvs s v → quorum_at rvs1 s v) as Hq.
  { intros s v (x & Hx & HT'). exists x. auto. }
  assert (getStepVoteSet rvs1 (vt_Step vote) = getStepVoteSet rvs (vt_Step vote) ∨
          getStepVoteSet rvs1 (vt_Step vote) = Some NewStepVoteSet) as Hsame.
  { destruct Hc as [Hc|[_ Hc]]; [left; congruence|right; congruence]. }
  destruct (UserSet_Has (userSet svs) (vt_Address vote)) eqn:Eh.
  { split; [done|]. split; simpl; auto; done. }
  destruct (EmptyHash (MajorValue svs)) eqn:Em; cbn [negb].
  2: { split; [done|]. split; simpl; auto; done. }
  unfold EmptyHash in Em. apply Z.eqb_eq in Em.
  pose proof (countVote_post _ _ _ svs vote HT HTB Hsvs Eh Em HP Hw) as Hcp.
  destruct (countVote svs vote (Th (vt_Step vote))) as [svs' res]. cbn [fst snd] in Hcp.
  destruct Hcp as [Hsvs' Herr Hmaj Hpot Hadd Hquo Hmono].
  assert (∀ v, v ∈ PotentialValue svs → v ∈ potentialValues rvs1) as Hsub.
  { intros v Hvp. apply (rinv_potential _ _ _ _ Hinv1). eauto. }
  destruct (add_vote_potential rvs1 (vt_Step vote) svs svs' (vt_Value vote) (newPotential res) Hsub)
    as (pv & Erv & Hpv); [done|].
  set (rvs2 := if newPotential res && _ then _ else _) in *.
  assert (∀ s, getStepVoteSet rvs2 s
               = if vt_Step vote =? s then Some svs' else getStepVoteSet rvs1 s) as Hget.
  { intros s. rewrite Erv, <- getStepVoteSet_put by done. by rewrite !getStepVoteSet_cases. }
  cbn [fst snd]. split.
  - rewrite Erv. eapply rvs_inv_put; eauto. rewrite Hpot. clear. case_match; set_solver.
  - split.
    + intros s Hn. rewrite Hget. rewrite (proj2 (Z.eqb_neq _ _)) by done. by apply Ho.
    + intros s Hm. rewrite Hget, <- Hkeep by done. case_cmp; [|done]. subst s.
      exfalso. apply Hm. unfold major_at. rewrite <- Hkeep by done. by rewrite Hg.
    + by rewrite Herr.
    + intros _. unfold RoundVoteSet_HasVote, major_at. rewrite Hget, Z.eqb_refl.
      split_and!; [done| | |done]; destruct Hc as [Hc|[Hc _]]; by rewrite Hc.
    + intros _ Hv. unfold RoundVoteSet_HasVote. rewrite Hget, Z.eqb_refl. by apply Hadd.
    + intros _ He. exists svs'. rewrite Hget, Z.eqb_refl. auto.
    + intros s v (x & Hx & HT')%Hq. unfold quorum_at. rewrite Hget. case_cmp; [subst s|by exists x].
      exists svs'. split; [done|]. apply Hmono. congruence.
Qed.
End add_vote.

(** ** The sets of a height *)

Definition round_at (hvs : HeightVoteSet) (r : Z) : RoundVoteSet :=
  default NewRoundVoteSet (roundVoteSet hvs !! r).

(** The majority value of a round and step, 0 while there is none. *)
Definition hmajor (hvs : HeightVoteSet) (r s : Z) : Hash := major_at (round_at hvs r) s.

Definition hvs_inv (Th : Z → Z) (B : Z) (P : Z → Z → VoteData → Prop) (hvs : HeightVoteSet) : Prop :=
  ∀ r, rvs_inv Th B (P r) (round_at hvs r).

Lemma hvs_inv_new Th B P : hvs_inv Th B P NewHeightVoteSet.
Proof. intros r. apply rvs_inv_new. Qed.

Lemma EnsureRoundVoteSet_round hvs r :
  (EnsureRoundVoteSet hvs r).2 = round_at hvs r ∧
  ∀ r', round_at (EnsureRoundVoteSet hvs r).1 r' = round_at hvs r'.
Proof.
  unfold EnsureRoundVoteSet, round_at.
  destruct (roundVoteSet hvs !! r) as [rvs|] eqn:E; [done|]. split; [done|].
  intros r'. simpl. upd. rewrite lookup_insert. case_decide; subst; [by rewrite E|done].
Qed.

Lemma round_at_put hvs r rvs r' :
  round_at (putRoundVoteSet hvs r rvs) r' = if r =? r' then rvs else round_at hvs r'.
Proof.
  unfold putRoundVoteSet, round_at. upd. rewrite lookup_insert.
  case_decide; case_cmp; done.
Qed.

Lemma round_at_AddVote hvs vote T r :
  round_at (HeightVoteSet_AddVoteAndCount hvs vote T).1 r =
  if vt_Round vote =? r
  then (RoundVoteSet_AddVoteAndCount (round_at hvs (vt_Round vote)) vote T).1
  else round_at hvs r.
Proof.
  unfold HeightVoteSet_AddVoteAndCount.
  destruct (EnsureRoundVoteSet_round hvs (vt_Round vote)) as [E1 E2].
  destruct (EnsureRoundVoteSet hvs (vt_Round vote)) as [hvs1 rvs]. cbn [fst snd] in *. subst rvs.
  destruct (RoundVoteSet_AddVoteAndCount _ _ _) as [rvs' res]. cbn [fst].
  rewrite round_at_put. by case_cmp.
Qed.

Lemma AddVote_result hvs vote T :
  (HeightVoteSet_AddVoteAndCount hvs vote T).2
  = (RoundVoteSet_AddVoteAndCount (round_at hvs (vt_Round vote)) vote T).2.
Proof.
  unfold HeightVoteSet_AddVoteAndCount.
  destruct (EnsureRoundVoteSet_round hvs (vt_Round vote)) as [E1 E2].
  destruct (EnsureRoundVoteSet hvs (vt_Round vote)) as [hvs1 rvs]. cbn [fst snd] in *. subst rvs.
  by destruct (RoundVoteSet_AddVoteAndCount _ _ _).
Qed.

Lemma round_at_SetHasVote hvs r s u r' :
  round_at (HeightVoteSet_SetHasVote hvs r s u) r' =
  if r =? r' then RoundVoteSet_SetHasVote (round_at hvs r) s u else round_at hvs r'.
Proof.
  unfold HeightVoteSet_SetHasVote.
  destruct (EnsureRoundVoteSet_round hvs r) as [E1 E2].
  destruct (EnsureRoundVoteSet hvs r) as [hvs1 rvs]. cbn [fst snd] in *. subst rvs.
  rewrite round_at_put. by case_cmp.
Qed.

Lemma hvs_inv_add Th B P hvs vote :
  hvs_inv Th B P hvs → vote_ok Th B (P (vt_Round vote)) vote →
  let hr := HeightVoteSet_AddVoteAndCount hvs vote (Th (vt_Step vote)) in
  hvs_inv Th B P hr.1 ∧
  add_vote_post Th (round_at hvs (vt_Round vote)) (round_at hr.1 (vt_Round vote)) vote hr.2.
Proof.
  intros Hinv Hok. cbn zeta. rewrite AddVote_result.
  destruct (AddVoteAndCount_post Th B _ _ _ (Hinv (vt_Round vote)) Hok) as [Hi Hp]. split.
  - intros r. rewrite round_at_AddVote. case_cmp; [by subst r|apply Hinv].
  - by rewrite round_at_AddVote, Z.eqb_refl.
Qed.

(** Majorities are never lost or changed by counting another vote. *)
Lemma hmajor_add Th B P hvs vote r s :
  hvs_inv Th B P hvs → vote_ok Th B (P (vt_Round vote)) vote → hmajor hvs r s ≠ 0 →
  hmajor (HeightVoteSet_AddVoteAndCount hvs vote (Th (vt_Step vote))).1 r s = hmajor hvs r s.
Proof.
  intros Hinv Hok Hm. destruct (hvs_inv_add _ _ _ _ _ Hinv Hok) as [_ Hp].
  unfold hmajor in *. rewrite round_at_AddVote. case_cmp; [|done]. subst r.
  unfold major_at. rewrite round_at_AddVote, Z.eqb_refl in Hp.
  by rewrite (avp_major _ _ _ _ _ Hp).
Qed.

(** The votes for [v] in round [r] at step [s] reach the threshold. *)
Definition hquorum (Th : Z → Z) (hvs : HeightVoteSet) (r s : Z) (v : Hash) : Prop :=
  quorum_at Th (round_at hvs r) s v.

Lemma hquorum_add Th B P hvs vote r s v :
  hvs_inv Th B P hvs → vote_ok Th B (P (vt_Round vote)) vote → hquorum Th hvs r s v →
  hquorum Th (HeightVoteSet_AddVoteAndCount hvs vote (Th (vt_Step vote))).1 r s v.
Proof.
  intros Hinv Hok Hq. destruct (hvs_inv_add _ _ _ _ _ Hinv Hok) as [_ Hp].
  unfold hquorum in *. rewrite round_at_AddVote in *. rewrite Z.eqb_refl in Hp.
  case_cmp; [subst r|done]. by apply (avp_mono _ _ _ _ _ Hp).
Qed.

Lemma hquorum_enough Th B P hvs vote :
  hvs_inv Th B P hvs → vote_ok Th B (P (vt_Round vote)) vote →
  let hr := HeightVoteSet_AddVoteAndCount hvs vote (Th (vt_Step vote)) in
  vr_err hr.2 = None → enough hr.2 = true →
  hquorum Th hr.1 (vt_Round vote) (vt_Step vote) (vt_Value vote).
Proof.
  intros Hinv Hok hr He Hen. destruct (hvs_inv_add _ _ _ _ _ Hinv Hok) as [_ Hp].
  by apply (avp_quorum _ _ _ _ _ Hp).
Qed.

Lemma hmajor_quorum Th B P hvs r s :
  hvs_inv Th B P hvs → hmajor hvs r s ≠ 0 → hquorum Th hvs r s (hmajor hvs r s).
Proof.
  intros Hinv. unfold hmajor, major_at, hquorum, quorum_at.
  destruct (getStepVoteSet (round_at hvs r) s) as [svs|] eqn:E; [|done]. intros Hm.
  exists svs. split; [done|]. by apply (inv_major _ _ _ _ (rinv_step _ _ _ _ (Hinv r) _ _ E)).
Qed.

(** Two values that reach the threshold at one step are equal. *)
Lemma hquorum_unique Th B P hvs r s v v' :
  hvs_inv Th B P hvs → v ≠ 0 → v' ≠ 0 →
  hquorum Th hvs r s v → hquorum Th hvs r s v' → v = v'.
Proof.
  intros Hinv Hv Hv' (svs & E & vs & Hvs & HT) (svs' & E' & vs' & Hvs' & HT').
  assert (svs' = svs) as -> by congruence.
  pose proof (rinv_step _ _ _ _ (Hinv r) _ _ E) as Hi.
  rewrite <- (inv_below _ _ _ _ Hi _ _ Hv Hvs HT). by apply (inv_below _ _ _ _ Hi _ _ Hv' Hvs' HT').
Qed.

Lemma soft_enough_quorum Th B P hvs empty r v :
  hvs_inv Th B P hvs → IsSoftVoteEnoughForNonEmpty hvs empty r = (true, v) →
  v ≠ 0 ∧ v ≠ empty ∧ hquorum Th hvs r RoundStep2Filtering v.
Proof.
  intros Hinv. unfold IsSoftVoteEnoughForNonEmpty, HeightVoteSet_RoundVoteSet.
  pose proof (hmajor_quorum Th B P hvs r RoundStep2Filtering Hinv) as Hq. unfold hmajor, major_at in Hq.
  rewrite getStepVoteSet_cases, Z.eqb_refl in Hq.
  unfold round_at in Hq at 1 2. destruct (roundVoteSet hvs !! r) as [rvs|]; [|done].
  cbn [default] in Hq. unfold GetSoftMajorValue, EmptyHash.
  destruct (Z.eqb_spec (MajorValue (softVoteSet rvs)) 0) as [|Hz]; [done|].
  destruct (Z.eqb_spec (MajorValue (softVoteSet rvs)) empty) as [|He]; [done|].
  intros [= <-]. auto.
Qed.

(** The cert votes collected for a value that reached the threshold. *)
Lemma cert_quorum_votes Th B P hvs r v :
  hvs_inv Th B P hvs → hquorum Th hvs r RoundStep3Certifying v →
  let l := HeightVoteSet_GetCertVotesOfValue hvs r v in
  l ≠ [] ∧ NoDup ((λ vt, vt_Address vt) <$> l) ∧
  Th RoundStep3Certifying ≤ sumZ (λ vt, vt_Weight vt) l < Th RoundStep3Certifying + B ∧
  Forall (λ vt, vt_Value vt = v ∧ 0 ≤ vt_Weight vt ≤ B ∧ P r RoundStep3Certifying vt) l.
Proof.
  intros Hinv (svs & E & vs & Hvs & HT). pose proof (rinv_step _ _ _ _ (Hinv r) _ _ E) as Hi.
  assert (HeightVoteSet_GetCertVotesOfValue hvs r v = vs_Votes vs) as ->.
  { unfold HeightVoteSet_GetCertVotesOfValue, HeightVoteSet_RoundVoteSet, RoundVoteSet_GetCertVotesOfValue.
    rewrite getStepVoteSet_cases in E. cbn in E. unfold round_at in E.
    destruct (roundVoteSet hvs !! r) as [rvs|]; injection E as E; subst svs; [by rewrite Hvs|].
    cbn in Hvs. by rewrite lookup_empty in Hvs. }
  cbn zeta. split; [by apply (inv_nonempty _ _ _ _ Hi v)|]. split; [by apply (inv_nodup _ _ _ _ Hi v)|].
  split; [rewrite <- (inv_weight _ _ _ _ Hi v) by done; split; [done|by apply (inv_cap _ _ _ _ Hi v)]|].
  apply Forall_forall. intros vt Hvt.
  by destruct (inv_vote _ _ _ _ Hi v vs vt Hvs Hvt) as (? & ? & ? & _).
Qed.

(** A counter of a node: made by counting verified votes and by noting the
    votes the peer is known to have. *)
Inductive counted (Th : Z → Z) (B : Z) (P : Z → Z → VoteData → Prop) : HeightVoteSet → Prop :=
| counted_new : counted Th B P NewHeightVoteSet
| counted_add hvs vote :
    counted Th B P hvs → vote_ok Th B (P (vt_Round vote)) vote →
    counted Th B P (HeightVoteSet_AddVoteAndCount hvs vote (Th (vt_Step vote))).1
| counted_has hvs r s u :
    counted Th B P hvs → counted Th B P (HeightVoteSet_SetHasVote hvs r s u).

(** A later state of the same counter. *)
Inductive counts_on (Th : Z → Z) (B : Z) (P : Z → Z → VoteData → Prop) (h : HeightVoteSet) :
    HeightVoteSet → Prop :=
| counts_refl : counts_on Th B P h h
| counts_add hvs vote :
    counts_on Th B P h hvs → vote_ok Th B (P (vt_Round vote)) vote →
    counts_on Th B P h (HeightVoteSet_AddVoteAndCount hvs vote (Th (vt_Step vote))).1
| counts_has hvs r s u :
    counts_on Th B P h hvs → counts_on Th B P h (HeightVoteSet_SetHasVote hvs r s u).

Lemma SetHasVote_get rvs s u s' :
  getStepVoteSet (RoundVoteSet_SetHasVote rvs s u) s' = getStepVoteSet rvs s' ∨
  s' = s ∧ ∃ svs, getStepVoteSet (RoundVoteSet_SetHasVote rvs s u) s'
                  = Some (svs <| userSet ::= λ us, UserSet_Add us u |>) ∧
                  svs = default NewStepVoteSet (getStepVoteSet rvs s').
Proof.
  unfold RoundVoteSet_SetHasVote.
  destruct (ensureStepVoteSet rvs s) as [rvs1 [svs|]] eqn:E.
  - apply ensureStepVoteSet_get in E as (Hs & Hg & _ & Hc & Ho).
    rewrite getStepVoteSet_put by done. case_cmp; [subst s'|left; by apply Ho].
    right. split; [done|]. exists svs. split; [done|].
    destruct Hc as [->|[-> ->]]; done.
  - apply ensureStepVoteSet_none in E as [-> _]. by left.
Qed.

Lemma rvs_inv_SetHasVote Th B P rvs s u :
  rvs_inv Th B P rvs → rvs_inv Th B P (RoundVoteSet_SetHasVote rvs s u).
Proof.
  intros Hinv. unfold RoundVoteSet_SetHasVote.
  destruct (ensureStepVoteSet rvs s) as [rvs1 [svs|]] eqn:E.
  - destruct (rvs_inv_ensure _ _ _ _ _ _ _ Hinv E) as [Hinv1 Hsvs].
    apply ensureStepVoteSet_get in E as (Hs & Hg & _).
    rewrite (set_potential_id (putStepVoteSet _ _ _) _ eq_refl).
    eapply rvs_inv_put; eauto; [by apply svs_inv_user|].
    intros v. rewrite putStepVoteSet_potential. upd. split; [auto|]. intros [Hv|Hv]; [done|].
    apply (rinv_potential _ _ _ _ Hinv1). eauto.
  - apply ensureStepVoteSet_none in E as [-> _]. done.
Qed.

Lemma hvs_inv_SetHasVote Th B P hvs r s u :
  hvs_inv Th B P hvs → hvs_inv Th B P (HeightVoteSet_SetHasVote hvs r s u).
Proof.
  intros Hinv r'. rewrite round_at_SetHasVote. case_cmp; [|apply Hinv].
  subst r'. apply rvs_inv_SetHasVote, Hinv.
Qed.

Lemma hmajor_SetHasVote hvs r s u r' s' :
  hmajor (HeightVoteSet_SetHasVote hvs r s u) r' s' = hmajor hvs r' s'.
Proof.
  unfold hmajor, major_at. rewrite round_at_SetHasVote. case_cmp; [subst r'|done].
  destruct (SetHasVote_get (round_at hvs r) s u s') as [->|(_ & svs & -> & ->)]; [done|].
  by destruct (getStepVoteSet _ _).
Qed.

Lemma counted_hvs_inv Th B P hvs : counted Th B P hvs → hvs_inv Th B P hvs.
Proof.
  induction 1.
  - apply hvs_inv_new.
  - by apply hvs_inv_add.
  - by apply hvs_inv_SetHasVote.
Qed.

Lemma counts_on_counted Th B P h hvs :
  counted Th B P h → counts_on Th B P h hvs → counted Th B P hvs.
Proof. intros Hh. induction 1; eauto using counted. Qed.

(** ** Majorities: unique, stable, reported once *)

(** The voters counted for a value. *)
Definition voters (svs : StepVoteSet) (v : Hash) : gset Address :=
  list_to_set ((λ vt, vt_Address vt) <$>
    vs_Votes (default (mkVoteSet 0 []) (Values svs !! v))).

Lemma counts_on_major Th B P h h' r s :
  counted Th B P h → counts_on Th B P h h' → hmajor h r s ≠ 0 → hmajor h' r s = hmajor h r s.
Proof.
  intros Hh Hon Hm. induction Hon as [|hvs vote Hon IH Hok|hvs r' s' u Hon IH]; [done| |].
  - rewrite <- IH. eapply hmajor_add; [|done|congruence].
    eapply counted_hvs_inv, counts_on_counted; eauto.
  - by rewrite hmajor_SetHasVote.
Qed.

Lemma svs_major_voters T B P svs v w C :
  svs_inv T B P svs → MajorValue svs = v → v ≠ 0 →
  (∀ vt, P vt → vt_Weight vt = w (vt_Address vt) ∧ vt_Address vt ∈ C) →
  voters svs v ⊆ C ∧ T ≤ weight_of w (voters svs v).
Proof.
  intros Hinv HM Hv HP. destruct (inv_major _ _ _ _ Hinv) as (vs & Hvs & HT); [congruence|].
  rewrite HM in Hvs. unfold voters. rewrite Hvs. simpl.
  assert (∀ vt, vt ∈ vs_Votes vs → P vt) as HPv.
  { intros vt Hvt. by destruct (inv_vote _ _ _ _ Hinv _ _ _ Hvs Hvt) as (_ & _ & ? & _). }
  split.
  - intros a Ha%elem_of_list_to_set. apply list_elem_of_fmap in Ha as (vt & -> & Hvt).
    by apply HP, HPv.
  - rewrite weight_of_list by (by eapply inv_nodup). rewrite sumZ_fmap.
    rewrite (inv_weight _ _ _ _ Hinv _ _ Hvs) in HT.
    erewrite <- (sumZ_ext (λ vt, vt_Weight vt)); [done|].
    intros vt Hvt. simpl. by apply HP, HPv.
Qed.

Lemma counted_step Th B P hvs r s svs :
  counted Th B P hvs → getStepVoteSet (round_at hvs r) s = Some svs →
  svs_inv (Th s) B (P r s) svs.
Proof. intros Hc Hg. by eapply rinv_step, Hg; apply counted_hvs_inv. Qed.

Lemma hmajor_step hvs r s v : hmajor hvs r s = v → v ≠ 0 →
  ∃ svs, getStepVoteSet (round_at hvs r) s = Some svs ∧ MajorValue svs = v.
Proof.
  unfold hmajor, major_at. destruct (getStepVoteSet _ _) as [svs|]; [eauto|congruence].
Qed.


Lemma HasVote_round_at hvs r s u :
  HeightVoteSet_HasVote hvs r s u = RoundVoteSet_HasVote (round_at hvs r) s u.
Proof.
  unfold HeightVoteSet_HasVote, HeightVoteSet_RoundVoteSet, round_at.
  destruct (roundVoteSet hvs !! r) as [rvs|]; [done|].
  unfold RoundVoteSet_HasVote. rewrite getStepVoteSet_cases. simpl. rewrite lookup_empty.
  by repeat case_cmp.
Qed.

(** The conditions under which a vote is counted. *)
Lemma RoundVoteSet_AddVote_no_err rvs vote T :
  vr_err (RoundVoteSet_AddVoteAndCount rvs vote T).2 = None ↔
  2 ≤ vt_Step vote ∧ RoundVoteSet_HasVote rvs (vt_Step vote) (vt_Address vote) = false ∧
  major_at rvs (vt_Step vote) = 0.
Proof.
  unfold RoundVoteSet_AddVoteAndCount.
  destruct (ensureStepVoteSet rvs (vt_Step vote)) as [rvs1 [svs|]] eqn:E.
  - apply ensureStepVoteSet_get in E as (Hs & _ & _ & Hc & _).
    assert (RoundVoteSet_HasVote rvs (vt_Step vote) (vt_Address vote)
            = UserSet_Has (userSet svs) (vt_Address vote)) as ->.
    { unfold RoundVoteSet_HasVote. destruct Hc as [->|[-> ->]]; done. }
    assert (major_at rvs (vt_Step vote) = MajorValue svs) as ->.
    { unfold major_at. destruct Hc as [->|[-> ->]]; done. }
    destruct (UserSet_Has _ _); simpl; [split; [done|by intros (_ & ? & _)]|].
    unfold EmptyHash. case_cmp; cbn [negb]; [|split; [done|by intros (_ & _ & ?)]].
    by destruct (countVote svs vote T) as [svs' res] eqn:Ec; injection Ec as <- <-.
  - apply ensureStepVoteSet_none in E as [_ Hs]. simpl. split; [done|lia].
Qed.

Lemma AddVote_no_err hvs vote T :
  vr_err (HeightVoteSet_AddVoteAndCount hvs vote T).2 = None ↔
  2 ≤ vt_Step vote ∧
  HeightVoteSet_HasVote hvs (vt_Round vote) (vt_Step vote) (vt_Address vote) = false ∧
  hmajor hvs (vt_Round vote) (vt_Step vote) = 0.
Proof. by rewrite AddVote_result, RoundVoteSet_AddVote_no_err, HasVote_round_at. Qed.

Lemma avp_err_major Th rvs rvs' vote res s :
  add_vote_post Th rvs rvs' vote res → vr_err res ≠ None → major_at rvs' s = major_at rvs s.
Proof.
  intros Hp He. destruct (Z.eq_dec (major_at rvs s) 0) as [Hz|Hn].
  2: { unfold major_at. by rewrite (avp_major _ _ _ _ _ Hp). }
  unfold major_at in *. destruct (decide (s = vt_Step vote)) as [->|].
  - destruct (avp_err _ _ _ _ _ Hp He) as [_ [->| ->]]; [done|]. by rewrite Hz.
  - by rewrite (avp_frame _ _ _ _ _ Hp).
Qed.

(** ** The promises *)

(** C8. In every state a counter reaches by counting verified votes and noting
    votes peers have, the set of each round and step is consistent: the weight
    of a value is exactly the sum of the weights of the votes counted for it, no
    voter is counted twice, neither for one value nor for two, every counted
    vote was verified, a value is the majority exactly when its weight reaches
    the threshold, so there is at most one, and a value is potential exactly
    when its weight exceeds half the threshold. *)
Theorem vote_counter_invariant Th B P hvs r s svs :
  counted Th B P hvs → getStepVoteSet (round_at hvs r) s = Some svs →
  (∀ v vs, Values svs !! v = Some vs →
     vs_Weight vs = sumZ (λ vt, vt_Weight vt) (vs_Votes vs) ∧
     NoDup ((λ vt, vt_Address vt) <$> vs_Votes vs) ∧
     (∀ vt, vt ∈ vs_Votes vs → vt_Value vt = v ∧ P r s vt) ∧
     (v ≠ 0 → (MajorValue svs = v ↔ Th s ≤ vs_Weight vs)) ∧
     (v ∈ PotentialValue svs ↔ Th s + 1 ≤ 2 * vs_Weight vs)) ∧
  (∀ v v' vs vs' vt vt', Values svs !! v = Some vs → Values svs !! v' = Some vs' →
     vt ∈ vs_Votes vs → vt' ∈ vs_Votes vs' → vt_Address vt = vt_Address vt' → v = v').
Proof.
  intros Hc Hg. pose proof (counted_step _ _ _ _ _ _ _ Hc Hg) as Hinv. split.
  - intros v vs Hv. split_and!; [by eapply inv_weight|by eapply inv_nodup| | |].
    + intros vt Hvt. by destruct (inv_vote _ _ _ _ Hinv _ _ _ Hv Hvt) as (? & _ & ? & _).
    + intros H0. split; [|by apply (inv_below _ _ _ _ Hinv)]. intros HM.
      destruct (inv_major _ _ _ _ Hinv) as (vs' & Hv' & HT); [congruence|]. congruence.
    + rewrite (inv_potential _ _ _ _ Hinv). split; [|eauto].
      intros (vs' & Hv' & ?). congruence.
  - apply (inv_once _ _ _ _ Hinv).
Qed.

(** Once a counter has a majority value for a round and step, no later vote
    or gossip changes or removes it. *)
Theorem majority_stable Th B P h h' r s :
  counted Th B P h → counts_on Th B P h h' → hmajor h r s ≠ 0 → hmajor h' r s = hmajor h r s.
Proof. apply counts_on_major. Qed.

(** C23. Quorum intersection.  Two nodes count verified votes of one committee,
    in which each member has one weight.  If they see the majority values
    [v1] and [v2] at the same round and step, the members counted for [v1] by the
    one and for [v2] by the other weigh at least twice the threshold minus the
    whole committee; when the committee weighs less than twice the threshold
    there is such a member, so different majorities need a double voter. *)
Theorem quorum_intersection Th B P C w h1 h2 r s v1 v2 :
  (∀ vt, P r s vt → vt_Weight vt = w (vt_Address vt) ∧ vt_Address vt ∈ C) →
  (∀ a, a ∈ C → 0 ≤ w a) →
  counted Th B P h1 → counted Th B P h2 →
  hmajor h1 r s = v1 → hmajor h2 r s = v2 → v1 ≠ 0 → v2 ≠ 0 →
  ∃ svs1 svs2,
    getStepVoteSet (round_at h1 r) s = Some svs1 ∧ getStepVoteSet (round_at h2 r) s = Some svs2 ∧
    2 * Th s - weight_of w C ≤ weight_of w (voters svs1 v1 ∩ voters svs2 v2) ∧
    (weight_of w C < 2 * Th s → ∃ a, a ∈ voters svs1 v1 ∧ a ∈ voters svs2 v2).
Proof.
  intros HP Hw Hc1 Hc2 HM1 HM2 H1 H2.
  destruct (hmajor_step _ _ _ _ HM1 H1) as (svs1 & Hg1 & Hm1).
  destruct (hmajor_step _ _ _ _ HM2 H2) as (svs2 & Hg2 & Hm2).
  destruct (svs_major_voters _ _ _ _ v1 w C (counted_step _ _ _ _ _ _ _ Hc1 Hg1) Hm1 H1 HP)
    as [Hs1 HT1].
  destruct (svs_major_voters _ _ _ _ v2 w C (counted_step _ _ _ _ _ _ _ Hc2 Hg2) Hm2 H2 HP)
    as [Hs2 HT2].
  pose proof (weight_of_overlap w _ _ C Hs1 Hs2 Hw) as Hov.
  exists svs1, svs2. split_and!; [done|done|lia|]. intros HC.
  destruct (set_choose_or_empty (voters svs1 v1 ∩ voters svs2 v2)) as [[a Ha]|He].
  - exists a. by apply elem_of_intersection in Ha.
  - apply leibniz_equiv in He. rewrite He, weight_of_empty in Hov. lia.
Qed.

(** [AddVoteAndCount] on a verified vote for a value: it counts the vote and reports no
    error exactly when the step is a voting step, the voter is new there and
    there is no majority yet; then [enough] is reported exactly when the step's
    majority becomes the vote's value.  With an error nothing is counted and no
    majority changes.  So each majority is reported by exactly one vote. *)
Theorem add_vote_reports Th B P hvs vote :
  counted Th B P hvs → vote_ok Th B (P (vt_Round vote)) vote → vt_Value vote ≠ 0 →
  let r := vt_Round vote in
  let s := vt_Step vote in
  let '(hvs', res) := HeightVoteSet_AddVoteAndCount hvs vote (Th s) in
  added res = bool_decide (vr_err res = None) ∧
  (vr_err res = None ↔
     2 ≤ s ∧ HeightVoteSet_HasVote hvs r s (vt_Address vote) = false ∧ hmajor hvs r s = 0) ∧
  (vr_err res = None → HeightVoteSet_HasVote hvs' r s (vt_Address vote) = true ∧
     hmajor hvs' r s = if enough res then vt_Value vote else 0) ∧
  (∀ r' s', (r', s') ≠ (r, s) ∨ vr_err res ≠ None → hmajor hvs' r' s' = hmajor hvs r' s').
Proof.
  intros Hc Hok Hv. pose proof (counted_hvs_inv _ _ _ _ Hc) as Hinv. cbn zeta.
  destruct (hvs_inv_add _ _ _ _ _ Hinv Hok) as [_ Hp].
  pose proof (AddVote_no_err hvs vote (Th (vt_Step vote))) as Herr.
  pose proof (round_at_AddVote hvs vote (Th (vt_Step vote))) as Hround.
  destruct (HeightVoteSet_AddVoteAndCount _ _ _) as [hvs' res]. cbn [fst snd] in *.
  split; [|split; [done|split]].
  - case_bool_decide; [by apply (avp_added _ _ _ _ _ Hp)|by apply (avp_err _ _ _ _ _ Hp)].
  - intros He. destruct (avp_ok _ _ _ _ _ Hp He) as (_ & _ & _ & Hm).
    rewrite HasVote_round_at. split; [by apply (avp_added _ _ _ _ _ Hp)|done].
  - intros r' s' [Hne|He].
    + unfold hmajor. rewrite Hround. case_cmp; [subst r'|done].
      unfold major_at. rewrite <- (avp_frame _ _ _ _ _ Hp) by congruence.
      by rewrite Hround, Z.eqb_refl.
    + unfold hmajor. destruct (decide (r' = vt_Round vote)) as [->|].
      * by apply (avp_err_major _ _ _ _ _ _ Hp).
      * rewrite Hround. by rewrite (proj2 (Z.eqb_neq _ _)).
Qed.

(** ** A concrete committee

    Three members of weight 1500 vote at round 1, step 2, with the thresholds
    of src/params/config.go: two votes are a majority. *)
Module Committee.
Definition Th (s : Z) : Z := (GetCommitteeNumber 1 s).1.
Definition B : Z := 2 ^ 40.
Definition members : gset Address := {[1; 2; 3]}.
Definition valid (r s : Z) (vt : VoteData) : Prop :=
  vt_Weight vt = 1500 ∧ vt_Address vt ∈ members.
Definition vote (a : Address) (v : Hash) : VoteData :=
  mkVoteData v zeroSignature (mkCredential a 1 1 RoundStep2Filtering 0 1500).
Definition add (hvs : HeightVoteSet) (vt : VoteData) : HeightVoteSet :=
  (HeightVoteSet_AddVoteAndCount hvs vt (Th (vt_Step vt))).1.
Definition h1 : HeightVoteSet := add (add NewHeightVoteSet (vote 1 7)) (vote 2 7).
Definition h2 : HeightVoteSet := add (add NewHeightVoteSet (vote 2 9)) (vote 3 9).

Lemma vote_valid a v : a ∈ members → vote_ok Th B (valid 1) (vote a v).
Proof. intros Ha. by split. Qed.

Lemma h1_counted : counted Th B valid h1.
Proof. apply counted_add; [apply counted_add; [constructor|]|]; by apply vote_valid. Qed.

Lemma h2_counted : counted Th B valid h2.
Proof. apply counted_add; [apply counted_add; [constructor|]|]; by apply vote_valid. Qed.
End Committee.

Lemma vote_counter_invariant_witness :
  ∃ svs, getStepVoteSet (round_at Committee.h1 1) 2 = Some svs ∧ MajorValue svs = 7 ∧
    ∀ v vs, Values svs !! v = Some vs → vs_Weight vs = sumZ (λ vt, vt_Weight vt) (vs_Votes vs).
Proof.
  destruct (getStepVoteSet (round_at Committee.h1 1) 2) as [svs|] eqn:E; [|vm_compute in E; done].
  exists svs. split; [done|]. split.
  - assert (hmajor Committee.h1 1 2 = 7) as H by (vm_compute; reflexivity).
    unfold hmajor, major_at in H. by rewrite E in H.
  - intros v vs Hv.
    by apply (proj1 (vote_counter_invariant _ _ _ _ _ _ _ Committee.h1_counted E) v vs Hv).
Defined.

Lemma majority_stable_witness : hmajor (Committee.add Committee.h1 (Committee.vote 3 9)) 1 2 = 7.
Proof.
  transitivity (hmajor Committee.h1 1 2); [|vm_compute; reflexivity].
  apply (majority_stable _ _ _ _ _ 1 2 Committee.h1_counted).
  - apply counts_add; [constructor|]. by apply Committee.vote_valid.
  - vm_compute. discriminate.
Defined.

Lemma quorum_intersection_witness : ∃ svs1 svs2,
  getStepVoteSet (round_at Committee.h1 1) 2 = Some svs1 ∧
  getStepVoteSet (round_at Committee.h2 1) 2 = Some svs2 ∧
  ∃ a, a ∈ voters svs1 7 ∧ a ∈ voters svs2 9.
Proof.
  destruct (quorum_intersection Committee.Th Committee.B Committee.valid Committee.members
    (λ _, 1500) Committee.h1 Committee.h2 1 2 7 9) as (svs1 & svs2 & H1 & H2 & _ & H3).
  - by intros vt [? ?].
  - intros a _. lia.
  - apply Committee.h1_counted.
  - apply Committee.h2_counted.
  - vm_compute. reflexivity.
  - vm_compute. reflexivity.
  - lia.
  - lia.
  - exists svs1, svs2. split; [done|]. split; [done|]. apply H3. vm_compute. reflexivity.
Defined.

Lemma add_vote_reports_witness : hmajor (Committee.add Committee.h1 (Committee.vote 3 9)) 1 2 = 7.
Proof.
  pose proof (add_vote_reports Committee.Th Committee.B Committee.valid Committee.h1
    (Committee.vote 3 9) Committee.h1_counted
    (Committee.vote_valid 3 9 ltac:(vm_compute; exact eq_refl)) ltac:(cbn; lia)) as H.
  cbn zeta in H. unfold Committee.add.
  destruct (HeightVoteSet_AddVoteAndCount _ _ _) as [hvs' res].
  destruct H as (_ & He & _ & H). cbn [fst].
  rewrite (H 1 2); [vm_compute; reflexivity|].
  right. intros (_ & _ & Hm)%He. vm_compute in Hm. discriminate.
Defined.
