(* ===== verification/VotePick.v ===== *)
(** * VotePick: the votes a node offers a peer

    [PickVoteToSend] and [PickNextVoteToSend] of
    src/consensus/algorand/core/voteset.go never panic on a counter of verified
    votes, offer only counted votes the peer lacks, and find one whenever there
    is one. *)

From S2P Require Import Prelude Bytes Params Crypto ForwardSecure Types VoteSet VoteSetFacts.

Local Open Scope Z_scope.

(** ** The sets a node gossips from *)

Definition svs_votes (svs : StepVoteSet) (vote : VoteData) : Prop :=
  ∃ v vs, Values svs !! v = Some vs ∧ vote ∈ vs_Votes vs.

Definition svs_wf (svs : StepVoteSet) : Prop :=
  (MajorValue svs ≠ 0 → is_Some (Values svs !! MajorValue svs)) ∧
  ∀ v, v ∈ PotentialValue svs → is_Some (Values svs !! v).

Lemma svs_inv_wf T B P svs : svs_inv T B P svs → svs_wf svs.
Proof.
  intros Hinv. split.
  - intros (vs & Hvs & _)%(inv_major _ _ _ _ Hinv). eauto.
  - intros v (vs & Hvs & _)%(inv_potential _ _ _ _ Hinv). eauto.
Qed.

(** Does the peer lack the vote? *)
Definition lacks (us : option UserSet) (vote : VoteData) : bool :=
  match us with None => true | Some us => negb (UserSet_Has us (vt_Address vote)) end.

Lemma elem_of_appendNotIn vote tmp votes us :
  vote ∈ appendNotIn tmp votes us ↔ vote ∈ tmp ∨ (vote ∈ votes ∧ lacks us vote = true).
Proof.
  unfold appendNotIn. revert tmp. induction votes as [|x votes IH]; intros tmp; cbn [foldl].
  - rewrite elem_of_nil. tauto.
  - rewrite IH. fold (lacks us x).
    destruct (lacks us x) eqn:E; rewrite ?elem_of_app, ?list_elem_of_singleton, elem_of_cons;
      clear IH; split; intros; destruct_or?; destruct_and?; destruct_or?; subst; auto; congruence.
Qed.

Lemma elem_of_collectNotIn svs us values tmp :
  (∀ v, v ∈ values → is_Some (Values svs !! v)) →
  ∃ l, collectNotIn svs tmp us values = Some l ∧
    ∀ vote, vote ∈ l ↔ vote ∈ tmp ∨
      (lacks us vote = true ∧ ∃ v vs, v ∈ values ∧ Values svs !! v = Some vs ∧ vote ∈ vs_Votes vs).
Proof.
  revert tmp. induction values as [|v values IH]; intros tmp Hwf; cbn [collectNotIn].
  - exists tmp. split; [done|]. intros vote. split; [by left|].
    intros [?|(_ & v & vs & Hv & _)]; [done|]. by apply elem_of_nil in Hv.
  - destruct (Hwf v) as [vs Hvs]; [apply list_elem_of_here|]. rewrite Hvs. cbn [mbind option_bind].
    destruct (IH (appendNotIn tmp (vs_Votes vs) us)) as (l & -> & Hl).
    { intros v' Hv'. apply Hwf. by apply list_elem_of_further. }
    exists l. split; [done|]. intros vote. rewrite Hl, elem_of_appendNotIn. split.
    + intros [[?|[??]]|(? & v' & vs' & ? & ? & ?)]; [by left|right..]; split; try done.
      * exists v, vs. split; [apply list_elem_of_here|done].
      * exists v', vs'. split; [by apply list_elem_of_further|done].
    + intros [?|(? & v' & vs' & [->|?]%elem_of_cons & Hvs' & ?)].
      * by left; left.
      * rewrite Hvs in Hvs'. injection Hvs' as ->. left; right. done.
      * right. split; [done|]. by exists v', vs'.
Qed.

Lemma elem_of_foldNotIn us sets tmp vote :
  vote ∈ foldl (λ tmp self, appendNotIn tmp (vs_Votes self) us) tmp sets ↔
  vote ∈ tmp ∨ (lacks us vote = true ∧ ∃ vs, vs ∈ sets ∧ vote ∈ vs_Votes vs).
Proof.
  revert tmp. induction sets as [|vs sets IH]; intros tmp; cbn [foldl].
  - split; [by left|]. intros [?|(_ & vs & Hvs & _)]; [done|]. by apply elem_of_nil in Hvs.
  - rewrite IH, elem_of_appendNotIn. split.
    + intros [[?|[??]]|(? & vs' & ? & ?)]; [by left|right; split; [done|]..].
      * exists vs. split; [apply list_elem_of_here|done].
      * exists vs'. split; [by apply list_elem_of_further|done].
    + intros [?|(? & vs' & [->|?]%elem_of_cons & ?)].
      * by left; left.
      * left; right. done.
      * right. split; [done|]. by exists vs'.
Qed.

Section picks.
Context (intn : nat → nat) (range : list VoteSet → list VoteSet).
(** The documented behaviour of [rand.Intn] and of ranging over a map. *)
Hypothesis intn_lt : ∀ n, (0 < n)%nat → (intn n < n)%nat.
Hypothesis range_perm : ∀ l, range l ≡ₚ l.

Lemma RandomSelect_elem l : l ≠ [] → ∃ vote, RandomSelect intn l = Some vote ∧ vote ∈ l.
Proof.
  intros Hl. destruct l as [|x l]; [done|]. unfold RandomSelect.
  destruct (lookup_lt_is_Some_2 (x :: l) (intn (length (x :: l)))) as [y Hy].
  { apply intn_lt. simpl. lia. }
  exists y. split; [done|]. by eapply list_elem_of_lookup_2.
Qed.

(** [o] is a correct pick from [svs] for a peer that has the users [us]. *)
Definition pick_ok (svs : StepVoteSet) (us : option UserSet) (o : option VoteData) : Prop :=
  match o with
  | Some vote => svs_votes svs vote ∧ lacks us vote = true
  | None => ∀ vote, svs_votes svs vote → lacks us vote = false
  end.

Lemma pick_list svs us l :
  l ≠ [] → (∀ vote, vote ∈ l → svs_votes svs vote ∧ lacks us vote = true) →
  pick_ok svs us (RandomSelect intn l).
Proof. intros (vote & -> & Hvote)%RandomSelect_elem Hl. by apply Hl. Qed.

Lemma RandomNotIn_ok svs other :
  svs_wf svs →
  ∃ o, RandomNotIn intn range svs other = Some o ∧ pick_ok svs (userSet <$> other) o.
Proof.
  intros [HM HPot]. unfold RandomNotIn. set (us := userSet <$> other).
  destruct (Nat.eqb_spec (size (Values svs)) 0) as [Hz|_].
  { eexists; split; [done|]. intros vote (v & vs & Hv & _).
    apply map_size_empty_inv in Hz. rewrite Hz in Hv. by rewrite lookup_empty in Hv. }
  assert (∃ l, (if negb (EmptyHash (MajorValue svs)) then collectNotIn svs [] us [MajorValue svs]
                else Some []) = Some l ∧
            ∀ vote, vote ∈ l → svs_votes svs vote ∧ lacks us vote = true) as (l1 & -> & H1).
  { unfold EmptyHash. destruct (Z.eqb_spec (MajorValue svs) 0); cbn [negb].
    { exists []. split; [done|]. by intros vote ?%elem_of_nil. }
    destruct (elem_of_collectNotIn svs us [MajorValue svs] []) as (l & -> & Hl).
    { intros v ->%list_elem_of_singleton. by apply HM. }
    exists l. split; [done|]. intros vote [?%elem_of_nil|(? & v & vs & _ & ? & ?)]%Hl; [done|].
    split; [by exists v, vs|done]. }
  cbn [mbind option_bind].
  destruct l1 as [|x l1]; [|by eexists; split; [done|]; apply pick_list].
  destruct (elem_of_collectNotIn svs us (PotentialValue svs) []) as (l2 & -> & H2); [done|].
  cbn [mbind option_bind].
  destruct l2 as [|x l2].
  2: { eexists; split; [done|]. apply pick_list; [done|].
       intros vote [?%elem_of_nil|(? & v & vs & _ & ? & ?)]%H2; [done|]. split; [by exists v, vs|done]. }
  eexists; split; [done|].
  set (sets := range _). set (l3 := foldl _ [] sets).
  assert (∀ vote, vote ∈ l3 ↔ svs_votes svs vote ∧ lacks us vote = true) as H3.
  { intros vote. unfold l3. rewrite elem_of_foldNotIn. unfold sets. setoid_rewrite range_perm. split.
    - intros [?%elem_of_nil|(? & vs & ([k vs'] & -> & Hk%elem_of_map_to_list)%list_elem_of_fmap & ?)];
        [done|]. split; [by exists k, vs'|done].
    - intros [(v & vs & Hv & ?) ?]. right. split; [done|]. exists vs. split; [|done].
      apply list_elem_of_fmap. exists (v, vs). by rewrite elem_of_map_to_list. }
  clearbody l3. destruct l3 as [|y l3].
  - intros vote Hvote. destruct (lacks us vote) eqn:El; [|done].
    assert (vote ∈ []) as ?%elem_of_nil by (apply H3; done). done.
  - apply pick_list; [done|]. intros vote. apply H3.
Qed.

(** A correct pick over all the steps of a round: [o] is a vote counted at some
    step that the peer's round [other] lacks, or there is none. *)
Definition round_pick (rvs other : RoundVoteSet) (steps : Z → Prop) (o : option VoteData) : Prop :=
  match o with
  | Some vote => ∃ s svs, steps s ∧ getStepVoteSet rvs s = Some svs ∧ svs_votes svs vote ∧
      RoundVoteSet_HasVote other s (vt_Address vote) = false
  | None => ∀ s svs vote, steps s → getStepVoteSet rvs s = Some svs → svs_votes svs vote →
      RoundVoteSet_HasVote other s (vt_Address vote) = true
  end.

Lemma getStepVoteSet_next rvs s :
  RoundStep4FirstFinishing ≤ s → getStepVoteSet rvs s = nextVoteSet rvs !! s.
Proof.
  rewrite getStepVoteSet_cases.
  unfold RoundStep2Filtering, RoundStep3Certifying, RoundStep4FirstFinishing.
  intros. repeat case_cmp; (lia || done).
Qed.

(** The steps after [s] add nothing when the pick at [s] is not nil. *)
Lemma round_pick_step rvs other s svs o (steps : Z → Prop) :
  getStepVoteSet rvs s = Some svs →
  pick_ok svs (userSet <$> getStepVoteSet other s) o →
  match o with
  | Some _ => round_pick rvs other (λ s', s' = s ∨ steps s') o
  | None => ∀ o', round_pick rvs other steps o' →
                  round_pick rvs other (λ s', s' = s ∨ steps s') o'
  end.
Proof.
  intros Hg Hok.
  assert (∀ vote, lacks (userSet <$> getStepVoteSet other s) vote
                  = negb (RoundVoteSet_HasVote other s (vt_Address vote))) as Hl.
  { intros vote. unfold RoundVoteSet_HasVote. by destruct (getStepVoteSet other s). }
  destruct o as [vote|]; simpl in Hok.
  - destruct Hok as [Hv Hlack]. rewrite Hl in Hlack. apply negb_true_iff in Hlack.
    exists s, svs. auto.
  - intros [vote|]; simpl.
    + intros (s' & svs' & ? & ? & ? & ?). exists s', svs'. auto.
    + intros Hn s' svs' vote [->|Hs'] Hg' Hv; [|by eapply Hn].
      rewrite Hg in Hg'. injection Hg' as <-. specialize (Hok vote Hv).
      rewrite Hl in Hok. by apply negb_false_iff in Hok.
Qed.

Lemma round_pick_ext rvs other (p q : Z → Prop) o :
  (∀ s svs, getStepVoteSet rvs s = Some svs → p s ↔ q s) →
  round_pick rvs other p o → round_pick rvs other q o.
Proof.
  intros Hpq. destruct o as [vote|]; simpl.
  - intros (s & svs & ? & Hg & ? & ?). exists s, svs. by rewrite <- (Hpq s svs Hg).
  - intros Hn s svs vote Hq Hg. apply (Hn s svs); [|done]. by apply (Hpq s svs Hg).
Qed.

Lemma pickSteps_ok rvs other steps :
  (∀ s svs, getStepVoteSet rvs s = Some svs → svs_wf svs) →
  (∀ s, s ∈ steps → RoundStep4FirstFinishing ≤ s ∧ is_Some (nextVoteSet rvs !! s)) →
  ∃ o, pickSteps intn range rvs other steps = Some o ∧ round_pick rvs other (λ s, s ∈ steps) o.
Proof.
  intros Hwf. induction steps as [|s steps IH]; intros Hs; cbn [pickSteps].
  { exists None. split; [done|]. intros s svs vote Hs'. by apply elem_of_nil in Hs'. }
  destruct (Hs s) as [H4 [svs Hsvs]]; [apply list_elem_of_here|].
  pose proof (getStepVoteSet_next rvs s H4) as Hg. rewrite Hsvs in Hg.
  rewrite Hsvs. cbn [mbind option_bind]. rewrite <- (getStepVoteSet_next other s H4).
  destruct (RandomNotIn_ok svs (getStepVoteSet other s) (Hwf _ _ Hg)) as (o & -> & Hok).
  cbn [mbind option_bind].
  pose proof (round_pick_step rvs other s svs o (λ s, s ∈ steps) Hg Hok) as Hstep.
  assert (∀ o', round_pick rvs other (λ s', s' = s ∨ s' ∈ steps) o' →
                round_pick rvs other (λ s', s' ∈ s :: steps) o') as Hext.
  { intros o'. apply round_pick_ext. intros s' svs' _. by rewrite elem_of_cons. }
  destruct o as [vote|]; [by eexists; split; [done|]; apply Hext|].
  destruct IH as (o & -> & Ho).
  { intros s' Hs'. apply Hs. by apply list_elem_of_further. }
  exists o. split; [done|]. by apply Hext, Hstep.
Qed.

Lemma elem_of_sortedSteps rvs s : s ∈ sortedSteps rvs ↔ is_Some (nextVoteSet rvs !! s).
Proof.
  unfold sortedSteps. rewrite merge_sort_Permutation, list_elem_of_fmap. split.
  - intros ([k svs] & -> & Hk%elem_of_map_to_list). eauto.
  - intros [svs Hs%elem_of_map_to_list]. by exists (s, svs).
Qed.

Lemma pickNextVoteToSend_ok Th B P rvs other :
  rvs_inv Th B P rvs →
  ∃ o, pickNextVoteToSend intn range rvs other = Some o ∧
       round_pick rvs other (λ s, RoundStep4FirstFinishing ≤ s) o.
Proof.
  intros Hinv. unfold pickNextVoteToSend.
  destruct (pickSteps_ok rvs other (sortedSteps rvs)) as (o & -> & Ho).
  - intros s svs Hg. by eapply svs_inv_wf, (rinv_step _ _ _ _ Hinv).
  - intros s [svs Hs]%elem_of_sortedSteps. split; [by eapply (rinv_next _ _ _ _ Hinv)|eauto].
  - exists o. split; [done|]. revert Ho. apply round_pick_ext. intros s svs Hg.
    rewrite elem_of_sortedSteps. split.
    + intros [svs' Hs]. by eapply (rinv_next _ _ _ _ Hinv).
    + intros H4. rewrite getStepVoteSet_next in Hg by done. eauto.
Qed.

Lemma PickVoteToSend_ok Th B P rvs other :
  rvs_inv Th B P rvs →
  ∃ o, PickVoteToSend intn range (Some rvs) other = Some o ∧
       round_pick rvs (default NewRoundVoteSet other) (λ _, True) o.
Proof.
  intros Hinv. unfold PickVoteToSend. set (ot := default _ other).
  assert (getStepVoteSet rvs RoundStep3Certifying = Some (certVoteSet rvs)) as Hc by done.
  assert (getStepVoteSet rvs RoundStep2Filtering = Some (softVoteSet rvs)) as Hs by done.
  assert (∀ s svs, getStepVoteSet rvs s = Some svs → svs_wf svs) as Hwf.
  { intros s svs Hg. by eapply svs_inv_wf, (rinv_step _ _ _ _ Hinv). }
  destruct (RandomNotIn_ok _ (Some (certVoteSet ot)) (Hwf _ _ Hc)) as (o1 & -> & H1).
  destruct (RandomNotIn_ok _ (Some (softVoteSet ot)) (Hwf _ _ Hs)) as (o2 & -> & H2).
  destruct (pickNextVoteToSend_ok Th B P rvs ot Hinv) as (o3 & -> & H3). cbn [mbind option_bind].
  pose proof (round_pick_step _ ot _ _ o2 (λ s, RoundStep4FirstFinishing ≤ s) Hs H2) as P2.
  pose proof (round_pick_step _ ot _ _ o1
    (λ s, s = RoundStep2Filtering ∨ RoundStep4FirstFinishing ≤ s) Hc H1) as P1.
  set (o := match o1 with Some v => Some v | None => match o2 with Some v => Some v | None => o3 end end).
  exists o. split; [subst o; by destruct o1, o2|].
  eapply (round_pick_ext _ _ (λ s, s = RoundStep3Certifying ∨ s = RoundStep2Filtering ∨
                                   RoundStep4FirstFinishing ≤ s)).
  { intros s svs Hg. split; [done|]. intros _. rewrite getStepVoteSet_cases in Hg.
    repeat case_cmp_in Hg; auto. done. }
  subst o. destruct o1; [done|]. apply P1. destruct o2; [done|]. by apply P2.
Qed.
End picks.

(** For a counter of verified votes, whatever the random choices and the
    iteration order of the maps, [PickVoteToSend] for any round the counter has
    does not panic, returns only a vote counted at some step of the round that
    the peer's round set lacks, and returns nil only if there is no such vote;
    [PickNextVoteToSend] likewise over the steps of next votes. *)
Theorem pick_vote_correct (intn : nat → nat) (range : list VoteSet → list VoteSet)
    Th B P hvs r rvs other :
  (∀ n, (0 < n)%nat → (intn n < n)%nat) → (∀ l, range l ≡ₚ l) →
  counted Th B P hvs → HeightVoteSet_RoundVoteSet hvs r = Some rvs →
  (∃ o, PickVoteToSend intn range (Some rvs) other = Some o ∧
        round_pick rvs (default NewRoundVoteSet other) (λ _, True) o) ∧
  (∃ o, PickNextVoteToSend intn range (Some rvs) other = Some o ∧
        round_pick rvs (default NewRoundVoteSet other) (λ s, RoundStep4FirstFinishing ≤ s) o).
Proof.
  intros Hi Hr Hc Hrvs. pose proof (counted_hvs_inv _ _ _ _ Hc r) as Hinv.
  unfold round_at in Hinv. unfold HeightVoteSet_RoundVoteSet in Hrvs. rewrite Hrvs in Hinv.
  split; [by eapply PickVoteToSend_ok|by eapply pickNextVoteToSend_ok].
Qed.

Lemma pick_vote_correct_witness : ∃ rvs vote,
  HeightVoteSet_RoundVoteSet Committee.h1 1 = Some rvs ∧
  PickVoteToSend (λ n, pred n) id (Some rvs) None = Some (Some vote) ∧
  RoundVoteSet_HasVote NewRoundVoteSet 2 (vt_Address vote) = false.
Proof.
  destruct (HeightVoteSet_RoundVoteSet Committee.h1 1) as [rvs|] eqn:E; [|vm_compute in E; done].
  exists rvs. destruct (pick_vote_correct (λ n, pred n) id Committee.Th Committee.B Committee.valid
    Committee.h1 1 rvs None) as [(o & Ho & Hpick) _].
  - intros n. lia.
  - done.
  - apply Committee.h1_counted.
  - done.
  - exists (Committee.vote 2 7). split; [done|]. split; [|done].
    vm_compute in E. injection E as <-. vm_compute. reflexivity.
Defined.
