(* ===== verification/MinerContract.v ===== *)
(** * MinerContract: the miner registry and the balance of the miners

    src/core/state/minerdb.go reads the storage of the miner contract,
    src/core/state/delegation.go that of the delegation contract, and the
    [MinerTracker] of src/core/state/statedb.go keeps the total balance of the
    miners from one block to the next.  The account state itself is an
    interface: what the code reads of it. *)

From S2P Require Import Prelude Bytes Params Crypto.

Local Open Scope Z_scope.

(** What is read of a [StateDB]; balances are [*big.Int]. *)
Class StateReader (StateDB : Type) := {
  GetState : StateDB → Address → Hash → Hash;
  GetBalance : StateDB → Address → Z
}.

(** src/contracts/system.go *)
Definition MinerAddress : Address := 0x1000000000000000000000000000000000000002.
Definition DelegationAddress : Address := 0x1000000000000000000000000000000000000004.

(** ** src/core/state/minerdb.go *)

Definition zeroHash : Hash := Uint64ToHash 0.
Definition oneHash : Hash := Uint64ToHash 1.

(** [data[n:m]] of a hash. *)
Definition hash_slice (data : Hash) (n m : nat) : bytes := take (m - n) (drop n (Hash_Bytes data)).

Definition parseStartLifespanCoinbase (data : Hash) : Z * Z * Address :=
  let start := be_int (hash_slice data (HashLength - 8) HashLength) in
  let lifespan := be_int (hash_slice data (HashLength - 8 - 4) (HashLength - 8)) in
  let coinbase := BytesToAddress (hash_slice data (HashLength - 8 - 4 - 20) (HashLength - 8 - 4)) in
  (start, lifespan, coinbase).

Definition MakeStartLifespanCoinbase (start lifespan : Z) (coinbase : Address) : Hash :=
  be_int (Address_Bytes coinbase ++ be_bytes 4 lifespan ++ be_bytes 8 start).

Definition isMinerOf (height begin : Z) : bool := negb (begin =? 0) && (begin <=? height).

Section miner_contract.
Context `{CR : Crypto} {StateDB : Type} `{SR : !StateReader StateDB}.
Context (config : AlgorandConfig).

Definition MakeMinerInfoKey (height : Z) (miner : Address) : Hash :=
  let minerMapHash := zeroHash in
  let minerHash := Address_Hash miner in
  let snHash := Uint64ToHash (GetIntervalSn config height) in
  let inner := keccak256 (Hash_Bytes snHash ++ Hash_Bytes minerMapHash) in
  let key := keccak256 (Hash_Bytes minerHash ++ Hash_Bytes inner) in
  BytesToHash (Hash_Bytes key).

Definition MakeNewMinersKey (height : Z) : Hash :=
  let heightHash := Uint64ToHash height in
  BytesToHash (Hash_Bytes (keccak256 (Hash_Bytes heightHash ++ Hash_Bytes oneHash))).

(** [MinerContract.Get]: start, lifespan, coinbase, vrfVerifier, voteVerifier. *)
Definition MinerContract_Get (stateDb : StateDB) (height : Z) (miner : Address) :
    Z * Z * Address * Z * Z :=
  let minerInfoKey := MakeMinerInfoKey height miner in
  let first256 := GetState stateDb MinerAddress minerInfoKey in
  let '(start, lifespan, coinbase) := parseStartLifespanCoinbase first256 in
  if start =? 0 then (0, 0, 0, 0, 0)
  else
    let offset := Hash_Big minerInfoKey + 1 in
    let vrfVerifier := GetState stateDb MinerAddress (BigToHash offset) in
    let offset := offset + 1 in
    let voteVerifier := GetState stateDb MinerAddress (BigToHash offset) in
    (start, lifespan, coinbase, vrfVerifier, voteVerifier).

Definition NewAddedMiners (stateDb : StateDB) (height : Z) : list Address :=
  let newMinersKey := MakeNewMinersKey height in
  let newMinerNum := Hash_Big (GetState stateDb MinerAddress newMinersKey) in
  if u64 newMinerNum =? 0 then []
  else
    let pos := Hash_Big (BytesToHash (Hash_Bytes (keccak256 (Hash_Bytes newMinersKey)))) in
    (λ p, BytesToAddress (Hash_Bytes (GetState stateDb MinerAddress (BigToHash p))))
      <$> seqZ pos newMinerNum.

Definition IsMinerOf (stateDb : StateDB) (height : Z) (miner : Address) : bool :=
  let minerInfoKey := MakeMinerInfoKey height miner in
  let first256 := GetState stateDb MinerAddress minerInfoKey in
  let '(start, _, _) := parseStartLifespanCoinbase first256 in
  isMinerOf height start.
End miner_contract.

(** ** src/core/state/delegation.go *)

Section delegation.
Context `{CR : Crypto} {StateDB : Type} `{SR : !StateReader StateDB}.

Definition idSlotKey (id : Address) : Hash :=
  BytesToHash (Hash_Bytes (keccak256 (Hash_Bytes (Address_Hash id) ++ Hash_Bytes 0))).

Definition addrSlotKey (addr : Address) : Hash :=
  BytesToHash (Hash_Bytes (keccak256 (Hash_Bytes (Address_Hash addr) ++ Hash_Bytes 1))).

Definition GetTotalReceived (statedb : StateDB) (id : Address) : Z :=
  Hash_Big (GetState statedb DelegationAddress (idSlotKey id)).

Definition GetTotalFund (statedb : StateDB) (addr : Address) : Z :=
  Hash_Big (GetState statedb DelegationAddress (addrSlotKey addr)).

Definition GetBalanceWithFund (statedb : StateDB) (addr : Address) : Z :=
  GetBalance statedb addr + GetTotalFund statedb addr.
End delegation.

(** ** MinerTracker (src/core/state/statedb.go) *)

Section tracker.
Context `{CR : Crypto} {StateDB : Type} `{SR : !StateReader StateDB}.

Record MinerTracker := mkMinerTracker {
  mt_config : AlgorandConfig;
  mt_initialState : StateDB;
  mt_height : Z;
  mt_totalBalanceOfMiners : Z;
  mt_objectsDirty : gset Address
}.
#[global] Instance MinerTracker_fields : Fields MinerTracker := λ t,
  mkMinerTracker (mt_config t) (mt_initialState t) (mt_height t)
    (mt_totalBalanceOfMiners t) (mt_objectsDirty t).

Definition NewMinerTracker (config : AlgorandConfig) (initialState : StateDB)
    (height totalBalanceOfMiners : Z) : MinerTracker :=
  mkMinerTracker config initialState height totalBalanceOfMiners ∅.

Definition SetDirty (tracker : MinerTracker) (addr : Address) : MinerTracker :=
  tracker <| mt_objectsDirty ::= λ d, {[addr]} ∪ d |>.

(** [TotalBalance]: [None] is the panic on a zero total. *)
Definition TotalBalance (tracker : option MinerTracker) (finalState : StateDB) : option Z :=
  match tracker with
  | None => Some 0
  | Some tracker =>
      let config := mt_config tracker in
      let nextHeight := add64 (mt_height tracker) 1 in
      let newMiners := NewAddedMiners finalState nextHeight in
      let total := foldl (λ total miner, total + GetBalanceWithFund finalState miner) 0 newMiners in
      let total :=
        if GetIntervalSn config nextHeight =? GetIntervalSn config (mt_height tracker) then
          foldl (λ total addr,
              if negb (IsMinerOf config (mt_initialState tracker) (mt_height tracker) addr) then total
              else
                let beforeBalance := GetBalanceWithFund (mt_initialState tracker) addr in
                let afterBalance := GetBalanceWithFund finalState addr in
                total + afterBalance - beforeBalance)
            (total + mt_totalBalanceOfMiners tracker) (elements (mt_objectsDirty tracker))
        else total in
      if total =? 0 then None else Some total
  end.
End tracker.
#[global] Arguments MinerTracker : clear implicits.

(** ** Registration round trip *)

Lemma pack_bound (start lifespan coinbase : Z) :
  is_u64 start → is_u32 lifespan → address_ok coinbase →
  MakeStartLifespanCoinbase start lifespan coinbase
  = (coinbase * 2 ^ 32 + lifespan) * 2 ^ 64 + start.
Proof.
  intros Hs Hl Hc. unfold MakeStartLifespanCoinbase.
  rewrite !be_int_app, !length_app, !length_be_bytes. unfold Address_Bytes.
  rewrite !be_int_be_bytes_id by assumption.
  change (256 ^ Z.of_nat (4 + 8)) with (2 ^ 32 * 2 ^ 64).
  change (256 ^ Z.of_nat 8) with (2 ^ 64). lia.
Qed.

Lemma hash_slice_int data n m :
  (n ≤ m ≤ 32)%nat →
  be_int (hash_slice data n m) = (data `div` 256 ^ Z.of_nat (32 - m)) `mod` 256 ^ Z.of_nat (m - n).
Proof.
  intros Hnm. unfold hash_slice, Hash_Bytes, HashLength.
  replace 32%nat with (n + ((m - n) + (32 - m)))%nat at 1 by lia.
  by rewrite be_int_slice.
Qed.

Lemma hash_slice_ok data n m : Forall byte_ok (hash_slice data n m).
Proof. unfold hash_slice. apply Forall_take, Forall_drop, be_bytes_ok. Qed.

Lemma parse_make (start lifespan coinbase : Z) :
  is_u64 start → is_u32 lifespan → address_ok coinbase →
  parseStartLifespanCoinbase (MakeStartLifespanCoinbase start lifespan coinbase)
  = (start, lifespan, coinbase).
Proof.
  intros Hs Hl Hc. rewrite pack_bound by done. unfold parseStartLifespanCoinbase.
  rewrite BytesToAddress_int by apply hash_slice_ok.
  unfold HashLength. rewrite !hash_slice_int by lia.
  change (256 ^ Z.of_nat (32 - 32)) with 1. change (256 ^ Z.of_nat (32 - (32 - 8))) with (2 ^ 64).
  change (256 ^ Z.of_nat (32 - (32 - 8 - 4))) with (2 ^ 64 * 2 ^ 32).
  change (256 ^ Z.of_nat (32 - 8 - (32 - 8 - 4))) with (2 ^ 32).
  change (256 ^ Z.of_nat (32 - 8 - 4 - (32 - 8 - 4 - 20))) with (2 ^ 160).
  rewrite Z.div_1_r, <- Z.div_div by lia.
  unfold is_u64, is_u32, address_ok in *.
  rewrite (Z.add_comm _ start), Z.mod_add, Z.div_add, (Z.mod_small start), (Z.div_small start) by lia.
  rewrite Z.add_0_l, (Z.add_comm _ lifespan), Z.mod_add, Z.div_add, (Z.mod_small lifespan),
    (Z.div_small lifespan), Z.add_0_l by lia.
  by rewrite !Z.mod_small by (rewrite ?Z.mod_small; lia).
Qed.

(** ** The total balance of the miners *)

Lemma foldl_sum {A : Type} (f : A → Z) (l : list A) (t : Z) :
  foldl (λ total x, total + f x) t l = t + sumZ f l.
Proof.
  revert t. induction l as [|x l IH]; intros t; cbn [foldl]; [rewrite sumZ_nil; lia|].
  rewrite IH, sumZ_cons. lia.
Qed.

Lemma sumZ_filter {A : Type} (P : A → Prop) `{!∀ x, Decision (P x)} (f : A → Z) (l : list A) :
  sumZ (λ x, if decide (P x) then f x else 0) l = sumZ f (filter P l).
Proof.
  induction l as [|x l IH]; [done|]. rewrite sumZ_cons, filter_cons, IH.
  case_decide; rewrite ?sumZ_cons; lia.
Qed.

Lemma sumZ_sub {A : Type} (f g : A → Z) (l : list A) :
  sumZ (λ x, f x - g x) l = sumZ f l - sumZ g l.
Proof. induction l as [|x l IH]; rewrite ?sumZ_nil, ?sumZ_cons; lia. Qed.

(** Only the dirty members of [M] change the sum of [M]. *)
Lemma weight_of_change (w w' : Address → Z) (M D : gset Address) :
  (∀ a, a ∈ M → a ∉ D → w' a = w a) →
  weight_of w' M = weight_of w M + sumZ (λ a, if decide (a ∈ M) then w' a - w a else 0) (elements D).
Proof.
  intros Heq. rewrite sumZ_filter.
  assert (filter (λ a, a ∈ M) (elements D) ≡ₚ elements (M ∩ D)) as Hp.
  { apply NoDup_Permutation; [apply NoDup_filter, NoDup_elements|apply NoDup_elements|].
    intros a. rewrite list_elem_of_filter, !elem_of_elements, elem_of_intersection. done. }
  rewrite (sumZ_perm _ _ _ Hp), sumZ_sub.
  assert (M = (M ∩ D) ∪ (M ∖ D)) as HM.
  { apply set_eq. intros a. rewrite elem_of_union, elem_of_intersection, elem_of_difference.
    destruct (decide (a ∈ D)); tauto. }
  assert ((M ∩ D) ## (M ∖ D)) as Hd by set_solver.
  rewrite HM at 1 2. rewrite !weight_of_union by done.
  assert (weight_of w' (M ∖ D) = weight_of w (M ∖ D)) as ->.
  { unfold weight_of. apply sumZ_ext. intros a [Ha Hn]%elem_of_elements%elem_of_difference.
    by apply Heq. }
  unfold weight_of. lia.
Qed.

Section tracker_facts.
Context `{CR : Crypto} {StateDB : Type} `{SR : !StateReader StateDB}.

(** What the miner contract and the state promise the tracker over one block:
    [M] are the miners of the block, the state tracks every change of a balance
    or fund as a dirty account, the contract lists each miner that joins at the
    next height once, and within an interval miners stay. *)
Record block_promises (t : MinerTracker StateDB) (final : StateDB) (M : gset Address) : Prop := {
  bp_address : ∀ a, a ∈ mt_objectsDirty t → address_ok a;
  bp_miners : ∀ a, a ∈ M ↔
    address_ok a ∧ IsMinerOf (mt_config t) (mt_initialState t) (mt_height t) a = true;
  bp_dirty : ∀ a, a ∉ mt_objectsDirty t →
    GetBalanceWithFund final a = GetBalanceWithFund (mt_initialState t) a;
  bp_nodup : NoDup (NewAddedMiners final (add64 (mt_height t) 1));
  bp_next : ∀ a, address_ok a ∧ IsMinerOf (mt_config t) final (add64 (mt_height t) 1) a = true ↔
    a ∈ NewAddedMiners final (add64 (mt_height t) 1) ∨
    (GetIntervalSn (mt_config t) (add64 (mt_height t) 1)
     = GetIntervalSn (mt_config t) (mt_height t) ∧ a ∈ M);
  bp_fresh : ∀ a, a ∈ NewAddedMiners final (add64 (mt_height t) 1) → a ∉ M
}.

Lemma dirty_fold t final M total :
  block_promises t final M →
  foldl (λ total addr,
      if negb (IsMinerOf (mt_config t) (mt_initialState t) (mt_height t) addr) then total
      else total + GetBalanceWithFund final addr - GetBalanceWithFund (mt_initialState t) addr)
    (total + weight_of (GetBalanceWithFund (mt_initialState t)) M) (elements (mt_objectsDirty t))
  = total + weight_of (GetBalanceWithFund final) M.
Proof.
  intros Hp. rewrite (weight_of_change (GetBalanceWithFund (mt_initialState t)) (GetBalanceWithFund final)
    M (mt_objectsDirty t)) by (intros; by apply (bp_dirty _ _ _ Hp)).
  rewrite Z.add_assoc, <- foldl_sum. generalize (total + weight_of (GetBalanceWithFund (mt_initialState t)) M).
  assert (∀ a, a ∈ elements (mt_objectsDirty t) → address_ok a) as Hok.
  { intros a Ha%elem_of_elements. by apply (bp_address _ _ _ Hp). }
  induction (elements (mt_objectsDirty t)) as [|a l IH]; intros z; cbn [foldl]; [done|].
  rewrite IH by (intros; apply Hok; by apply list_elem_of_further).
  f_equal. destruct (IsMinerOf _ _ _ a) eqn:E; cbn [negb].
  - rewrite decide_True; [lia|]. apply (bp_miners _ _ _ Hp). split; [|done].
    apply Hok, list_elem_of_here.
  - rewrite decide_False; [lia|]. intros [_ HM]%(bp_miners _ _ _ Hp). congruence.
Qed.

End tracker_facts.

(** ** A registry with two miners

    Account 100 mines from height 1; account 1 joins at height 6, in the block
    of height 5, which also takes 10 from account 100. *)
Module Registry.
Record MapState := mkMapState { ms_storage : gmap (Address * Hash) Hash; ms_balance : gmap Address Z }.
#[export] Instance map_state_reader : StateReader MapState := {|
  GetState s a k := default 0 (ms_storage s !! (a, k));
  GetBalance s a := default 0 (ms_balance s !! a)
|}.

Import Toy.
Definition config : AlgorandConfig := mkAlgorandConfig 2000 1000000 1000.
Definition initial : MapState := mkMapState
  {[(MinerAddress, 100) := MakeStartLifespanCoinbase 1 1 100]} {[100 := 50; 1 := 20]}.
Definition final : MapState := mkMapState
  {[(MinerAddress, 100) := MakeStartLifespanCoinbase 1 1 100;
    (MinerAddress, 1) := MakeStartLifespanCoinbase 6 1 1;
    (MinerAddress, 6 + 2 ^ 200) := 1]} {[100 := 40; 1 := 20]}.
Definition tracker : MinerTracker MapState :=
  SetDirty (NewMinerTracker config initial 5 50) 100.

Lemma info_key h a : 0 ≤ h < 1000 → address_ok a → MakeMinerInfoKey config h a = a.
Proof.
  intros Hh Ha. unfold MakeMinerInfoKey, GetIntervalSn. cbn [IntervalSize config].
  rewrite (Z.div_small h) by lia. rewrite Address_Hash_id by done.
  change (keccak256 (Hash_Bytes (Uint64ToHash 0) ++ Hash_Bytes zeroHash)) with 0.
  unfold keccak256, crypto, digest, Hash_Bytes, HashLength.
  rewrite take_app_length', drop_app_length' by (by rewrite length_be_bytes).
  assert (hash_ok a) by (unfold hash_ok, address_ok in *;
    assert (2 ^ 160 < 2 ^ 256) by (apply Z.pow_lt_mono_r; lia); lia).
  rewrite (be_int_be_bytes_id 32 a) by done.
  change (tail_sum (be_bytes 32 0)) with 0. rewrite Z.add_0_r, Z.mod_small by done.
  rewrite BytesToHash_int by apply be_bytes_ok. rewrite be_int_be_bytes_id by done.
  by apply Z.mod_small.
Qed.

Lemma is_miner (s : MapState) h a (known : list Address) :
  0 ≤ h < 1000 → address_ok a → (∀ k, k ∉ known → ms_storage s !! (MinerAddress, k) = None) →
  IsMinerOf config s h a = true → a ∈ known.
Proof.
  intros Hh Ha Hk. unfold IsMinerOf. rewrite info_key by done. cbn [GetState map_state_reader].
  destruct (decide (a ∈ known)) as [|Hn]; [done|]. rewrite (Hk a Hn).
  change (parseStartLifespanCoinbase (default 0 None)) with (0, 0, 0).
  unfold isMinerOf. simpl. done.
Qed.

Lemma initial_miners a : a ∈ ({[100]} : gset Address) ↔ address_ok a ∧ IsMinerOf config initial 5 a = true.
Proof.
  rewrite elem_of_singleton. split; [intros ->; split; vm_compute; intuition congruence|].
  intros [Ha Hm]. apply (is_miner _ _ _ [100]) in Hm; [set_solver|lia|done|].
  intros k Hk. unfold initial, ms_storage. apply lookup_singleton_ne. set_solver.
Qed.

Lemma final_miners a :
  a ∈ ({[100; 1]} : gset Address) ↔ address_ok a ∧ IsMinerOf config final 6 a = true.
Proof.
  rewrite elem_of_union, !elem_of_singleton.
  split; [intros [-> | ->]; split; vm_compute; intuition congruence|].
  intros [Ha Hm]. apply (is_miner _ _ _ [100; 1; 6 + 2 ^ 200]) in Hm; [|lia|done|].
  - apply elem_of_cons in Hm as [->|Hm]; [by left|].
    apply elem_of_cons in Hm as [->|Hm]; [by right|].
    apply list_elem_of_singleton in Hm as ->. unfold address_ok in Ha. lia.
  - intros k Hk. unfold final, ms_storage.
    rewrite !lookup_insert_ne by (intros [= <-]; apply Hk; set_solver).
    apply lookup_singleton_ne. intros [= <-]. apply Hk. set_solver.
Qed.

Lemma initial_no_fund k :
  ms_storage (mt_initialState tracker) !! (DelegationAddress, k) = None.
Proof. apply lookup_singleton_ne. intros [= E _]. Qed.

Lemma final_no_fund k : ms_storage final !! (DelegationAddress, k) = None.
Proof.
  unfold final, ms_storage. rewrite !lookup_insert_ne by (intros [= E _]).
  apply lookup_singleton_ne. intros [= E _].
Qed.

Lemma promises : block_promises tracker final {[100]}.
Proof.
  assert (NewAddedMiners final (add64 (mt_height tracker) 1) = [1]) as Hnew
    by (vm_compute; reflexivity).
  assert (mt_objectsDirty tracker = {[100]} ∪ ∅) as Hdirty by reflexivity.
  split; rewrite ?Hnew, ?Hdirty; clear Hnew Hdirty.
  - intros a [->%elem_of_singleton|Ha]%elem_of_union; [unfold address_ok; lia|].
    by apply elem_of_empty in Ha.
  - apply initial_miners.
  - intros a Ha. assert (a ≠ 100) as Hne.
    { intros ->. apply Ha. apply elem_of_union_l, elem_of_singleton. done. }
    unfold GetBalanceWithFund, GetTotalFund. cbn [GetBalance GetState map_state_reader].
    rewrite final_no_fund, initial_no_fund. f_equal.
    change (ms_balance (mt_initialState tracker)) with ({[100 := 50; 1 := 20]} : gmap Address Z).
    unfold final, ms_balance. by rewrite !lookup_insert_ne by congruence.
  - apply NoDup_singleton.
  - intros a. change (add64 (mt_height tracker) 1) with 6.
    change (mt_config tracker) with config. rewrite <- final_miners.
    rewrite list_elem_of_singleton, elem_of_union, !elem_of_singleton.
    change (GetIntervalSn config 6 = GetIntervalSn config (mt_height tracker)) with (0 = 0).
    intuition congruence.
  - intros a ->%list_elem_of_singleton. rewrite elem_of_singleton. lia.
Qed.
End Registry.

Import Toy Registry.

