(* ===== verification/Sortition.v ===== *)
(** * Sortition: the weight a miner wins

    src/sortition/sortition.cpp searches the binomial distribution for the
    number of tickets a hash wins, src/core/weight.go computes the two weights
    the search is called with. *)

From Stdlib Require Import SpecFloat.
From S2P Require Import Prelude Bytes Params Crypto MinerContract ForwardSecure Types.

Local Open Scope Z_scope.

(** ** Floating-point numbers

    A [double] and a [cpp_bin_float<256>] are binary floating-point numbers of 53
    and 256 bits that round to the nearest, ties to even; every value below stays far
    inside of the exponents of both. *)
Definition floatx_t : Type := spec_float.
Definition float256_t : Type := spec_float.

Definition floatx (n : Z) : floatx_t := binary_normalize 53 1024 n 0 false.
Definition fdiv : floatx_t → floatx_t → floatx_t := SFdiv 53 1024.
Definition fle : floatx_t → floatx_t → bool := SFleb.
Definition flt : floatx_t → floatx_t → bool := SFltb.

Definition float256 (n : Z) : float256_t := binary_normalize 256 (2 ^ 30) n 0 false.
Definition div256 : float256_t → float256_t → float256_t := SFdiv 256 (2 ^ 30).

(** [convert_to<floatx_t>] *)
Definition convert_to_floatx (x : float256_t) : floatx_t :=
  match x with
  | S754_finite s m e => binary_normalize 53 1024 (cond_Zopp s (Z.pos m)) e s
  | x => x
  end.

(** [hash] is the number [import_bits] reads from the 32 bytes, the first byte the
    most significant one. *)
Definition hash2float (hash : Z) : floatx_t :=
  convert_to_floatx (div256 (float256 hash) (float256 (2 ^ 256 - 1))).

(** boost's [binomial_distribution<double>] is a parameter: whether its constructor
    accepts a number of trials and a probability, or throws, and its [cdf]. *)
Class Boost := {
  binomial_ok : floatx_t → floatx_t → bool;
  cdf : floatx_t → floatx_t → floatx_t → floatx_t       (* trials, probability, point *)
}.

(** ** src/sortition/sortition.cpp *)

Section search.
Context `{BO : Boost}.

(** [dist_t dist(n, floatx_t(t) / floatx_t(W))] and its [cdf]; [None] is the
    exception of the constructor, which nobody catches. *)
Definition dist_t (n t W : Z) : option (Z → floatx_t) :=
  let p := fdiv (floatx t) (floatx W) in
  if binomial_ok (floatx n) p then Some (λ j, cdf (floatx n) p (floatx j)) else None.

Definition MaxJ (n t : Z) : Z := Z.min n (add64 t 0).

(** [assert(n <= W && t <= W)] *)
Definition sortition_assert (n t W : Z) : bool := (n <=? W) && (t <=? W).

Fixpoint standardLoop (fuel : nat) (le : Z → bool) (maxj j : Z) : option Z :=
  match fuel with
  | O => None
  | S fuel =>
      if le j then
        let j := add64 j 1 in
        if maxj <=? j then Some j else standardLoop fuel le maxj j
      else Some j
  end.

(** [None] is the failed assertion or the exception, which abort the process. *)
Definition SortitionByStandardSearch (hash n t W : Z) : option Z :=
  if negb (sortition_assert n t W) then None
  else
    let h := hash2float hash in
    dist ← dist_t n t W;
    let maxj := MaxJ n t in
    standardLoop (S (Z.to_nat maxj)) (λ j, fle (dist j) h) maxj 0.

Fixpoint binaryLoop (fuel : nat) (le : Z → bool) (low high : Z) : option Z :=
  match fuel with
  | O => None
  | S fuel =>
      if low <? high then
        let middle := add64 low (sub64 high low `div` 2) in
        if le middle then binaryLoop fuel le (add64 middle 1) high
        else binaryLoop fuel le low middle
      else Some low
  end.

(** 65 rounds are enough: each halves a 64-bit interval. *)
Definition SortitionByBinarySearch (hash n t W : Z) : option Z :=
  if negb (sortition_assert n t W) then None
  else
    let h := hash2float hash in
    dist ← dist_t n t W;
    if flt h (dist 0) then Some 0
    else binaryLoop 65 (λ j, fle (dist j) h) 1 (MaxJ n t).

Definition SortitionIsZeroByStandardSearch (hash n t W : Z) : option Z :=
  if negb (sortition_assert n t W) then None
  else
    let h := hash2float hash in
    dist ← dist_t n t W;
    if flt h (dist 0) then Some 1 else Some 0.

(** src/sortition/sortition.go *)
Definition Choose (hash ownedWeight expectedThreshold expectedWeight totalWeight : Z) : option Z :=
  SortitionByBinarySearch hash ownedWeight expectedWeight totalWeight.
End search.

(** ** src/core/weight.go *)

Definition hashHalf : Z := 0x80 * 2 ^ 248.

Section weight.
Context `{CR : Crypto} `{BO : Boost} {StateDB : Type} `{SR : !StateReader StateDB}.
Context (config : AlgorandConfig).

(** [None] is the division by zero of [QuoRem]. *)
Definition GetWeight (miner : Address) (stateDb : StateDB) (totalBalanceOfMiners hash : Z) :
    option (Z * Z) :=
  let ownBalance := GetBalanceWithFund stateDb miner in
  let ownWeightBig := TotalWeight config * ownBalance in
  if totalBalanceOfMiners =? 0 then None
  else
    let reminder := Z.rem ownWeightBig totalBalanceOfMiners in
    let ownWeightBig := Z.quot ownWeightBig totalBalanceOfMiners in
    let ownWeight := u64 ownWeightBig in
    let delta :=
      if negb (u64 reminder =? 0) then
        match bytes_compare (be_bytes 32 hash) (be_bytes 32 hashHalf) with
        | Lt => 0
        | Gt => 1
        | Eq => if ownWeight `mod` 2 =? 0 then 0 else 1
        end
      else 0 in
    Some (add64 ownWeight delta, u64 (TotalWeight config)).

Definition getSortitionWeight (parentStateDb : StateDB) (height proof : Z) (miner : Address)
    (totalBalanceOfMiners : Z) : option Z :=
  match VrfProofToHash256 proof with
  | None => Some 0
  | Some hash =>
      '(ownWeight, totalWeight) ← GetWeight miner parentStateDb totalBalanceOfMiners hash;
      let '(threshold, size) := GetCommitteeNumber height RoundStep1Proposal in
      Choose hash ownWeight threshold size totalWeight
  end.

Definition GetSortitionWeightByState (parentStateDb : StateDB) (parent header : Header) : option Z :=
  getSortitionWeight parentStateDb (u64 (hd_Number header)) (Header_Proof header)
    (Header_Proposer header) (hd_TotalBalanceOfMiners parent).

(** [GetHeaderByNumber] and [StateAt] of the chain; a nil header is
    dereferenced: [None]. *)
Definition GetSortitionWeight (GetHeaderByNumber : Z → option Header)
    (StateAt : Hash → option StateDB) (height proof : Z) (miner : Address) : option Z :=
  parentHeader ← GetHeaderByNumber (sub64 height 1);
  match StateAt (hd_Root parentHeader) with
  | None => Some 0
  | Some stateDb =>
      getSortitionWeight stateDb height proof miner (hd_TotalBalanceOfMiners parentHeader)
  end.
End weight.

(** ** Comparing floating-point numbers *)

(** The place of a number in the order, a NaN apart. *)
Definition frank (x : spec_float) : option (Z * Z * Z) :=
  match x with
  | S754_nan => None
  | S754_zero _ => Some (0, 0, 0)
  | S754_infinity s => Some (if s then -2 else 2, 0, 0)
  | S754_finite s m e => Some (if s then (-1, - e, - Z.pos m) else (1, e, Z.pos m))
  end.

Definition lex (a b : Z * Z * Z) : comparison :=
  match a.1.1 ?= b.1.1 with
  | Eq => match a.1.2 ?= b.1.2 with Eq => a.2 ?= b.2 | r => r end
  | r => r
  end.

Lemma SFcompare_frank x y :
  SFcompare x y = match frank x, frank y with Some a, Some b => Some (lex a b) | _, _ => None end.
Proof.
  destruct x as [[]|[]| |[] m e], y as [[]|[]| |[] m' e']; try done; cbn; unfold lex; cbn [fst snd].
  rewrite Z.compare_opp, (Z.compare_antisym e' e).
  by destruct (Z.compare_spec e' e).
Qed.

Definition is_nan (x : spec_float) : bool := match x with S754_nan => true | _ => false end.

Lemma frank_some x : is_nan x = false → is_Some (frank x).
Proof. destruct x; (done || by eexists). Qed.

Ltac lex_cases := unfold lex;
  repeat match goal with
  | |- context [?a ?= ?b] => destruct (Z.compare_spec a b)
  | H : context [?a ?= ?b] |- _ => destruct (Z.compare_spec a b)
  end; (done || lia).

Lemma flt_fle x y : is_nan x = false → is_nan y = false → flt x y = negb (fle y x).
Proof.
  intros [a Ha]%frank_some [b Hb]%frank_some. unfold flt, fle, SFltb, SFleb.
  rewrite !SFcompare_frank, Ha, Hb. destruct a as [[a1 a2] a3], b as [[b1 b2] b3].
  unfold lex. cbn [fst snd]. lex_cases.
Qed.

Lemma fle_trans x y z : fle x y = true → fle y z = true → fle x z = true.
Proof.
  unfold fle, SFleb. rewrite !SFcompare_frank.
  destruct (frank x) as [[[a1 a2] a3]|], (frank y) as [[[b1 b2] b3]|], (frank z) as [[[c1 c2] c3]|]; try done.
  unfold lex. cbn [fst snd]. lex_cases.
Qed.

(** Rounding a nonnegative number gives no NaN. *)
Lemma shr_1_nonneg mrs : 0 ≤ shr_m mrs → 0 ≤ shr_m (shr_1 mrs).
Proof. destruct mrs as [m r sx]. cbn. destruct m as [|[]|[]]; cbn; lia. Qed.

Lemma iter_shr_nonneg p mrs : 0 ≤ shr_m mrs → 0 ≤ shr_m (SpecFloat.iter_pos shr_1 p mrs).
Proof. revert mrs. induction p; cbn; auto using shr_1_nonneg. Qed.

Lemma shr_fexp_nonneg prec emax m e l : 0 ≤ m → 0 ≤ shr_m (shr_fexp prec emax m e l).1.
Proof.
  intros Hm. unfold shr_fexp, shr. assert (0 ≤ shr_m (shr_record_of_loc m l)) by (by destruct l as [|[]]).
  destruct (_ - _); cbn [fst]; auto using iter_shr_nonneg.
Qed.

Lemma round_aux_not_nan prec emax sx m e l : 0 ≤ m → is_nan (binary_round_aux prec emax sx m e l) = false.
Proof.
  intros Hm. unfold binary_round_aux. pose proof (shr_fexp_nonneg prec emax m e l Hm) as H1.
  destruct (shr_fexp prec emax m e l) as [mrs e']. cbn [fst] in H1.
  set (m' := round_nearest_even _ _). assert (0 ≤ m') as Hm'.
  { unfold m', round_nearest_even. destruct (loc_of_shr_record mrs) as [|[]]; try lia. destruct (Z.even _); lia. }
  pose proof (shr_fexp_nonneg prec emax m' e' loc_Exact Hm') as H2.
  destruct (shr_fexp prec emax m' e' loc_Exact) as [mrs' e'']. cbn [fst] in H2.
  destruct (shr_m mrs'); [done|by destruct (_ <=? _)|lia].
Qed.

Lemma normalize_not_nan prec emax m e sz : is_nan (binary_normalize prec emax m e sz) = false.
Proof.
  destruct m as [|m|m]; [done|..]; cbn [binary_normalize]; unfold binary_round;
    destruct (shl_align _ _ _) as [mz ez]; apply round_aux_not_nan; lia.
Qed.

Lemma float256_max : ∃ m e, float256 (2 ^ 256 - 1) = S754_finite false m e.
Proof. eexists _, _. vm_compute. reflexivity. Qed.

Lemma hash2float_not_nan hash : is_nan (hash2float hash) = false.
Proof.
  unfold hash2float. destruct float256_max as (m & e & ->).
  assert (is_nan (div256 (float256 hash) (S754_finite false m e)) = false) as H.
  { pose proof (normalize_not_nan 256 (2 ^ 30) hash 0 false) as H. unfold float256, div256.
    destruct (binary_normalize _ _ _ _ _) as [| | |sx mx ex]; try done. cbn [SFdiv].
    destruct (SFdiv_core_binary _ _ _ _ _ _) as [[q e'] l] eqn:E. apply round_aux_not_nan.
    unfold SFdiv_core_binary in E. set (m' := match _ - _ with Z0 => _ | _ => _ end) in E.
    assert (0 ≤ m') as Hm'.
    { unfold m'. destruct (_ - _); [lia|apply Z.shiftl_nonneg; lia|lia]. }
    pose proof (Z.div_pos m' (Z.pos m) Hm' ltac:(lia)) as Hq. unfold Z.div in Hq.
    destruct (Z.div_eucl m' (Z.pos m)) as [q' r']. by injection E as <- _ _. }
  unfold convert_to_floatx. destruct (div256 _ _); [done|done|done|apply normalize_not_nan].
Qed.

(** ** The number of tickets

    [choice le M j]: [j] is the least number at which [le] fails, capped at
    [M]. *)
Record choice (le : Z → bool) (M j : Z) : Prop := {
  choice_range : 0 ≤ j ≤ M;
  choice_below : ∀ i, 0 ≤ i < j → le i = true;
  choice_at : j < M → le j = false
}.

(** [crossing le M j]: [le] changes at [j], or [j] is the cap. *)
Record crossing (le : Z → bool) (M j : Z) : Prop := {
  crossing_range : 0 ≤ j ≤ M;
  crossing_before : 0 < j → le (j - 1) = true;
  crossing_at : j < M → le j = false
}.

(** Where [le] only changes once, its crossing is the choice. *)
Lemma crossing_choice le M j j' :
  (∀ i k, 0 ≤ i ≤ k → k < M → le k = true → le i = true) →
  crossing le M j → choice le M j' → j = j'.
Proof.
  intros Hmono [Hr Hb Ha] [Hr' Hb' Ha'].
  destruct (Z.lt_trichotomy j j') as [Hlt|[?|Hlt]]; [|done|].
  - rewrite Hb' in Ha by lia. discriminate Ha. lia.
  - assert (le j' = true) as E by (apply (Hmono j' (j - 1)); [lia|lia|]; apply Hb; lia).
    rewrite Ha' in E by lia. discriminate.
Qed.

(** The cap: at least 1, because both searches answer 1 when even 0 tickets are
    exceeded. *)
Definition cap (n t : Z) : Z := Z.max 1 (Z.min n t).

Lemma MaxJ_min n t : is_u64 t → MaxJ n t = Z.min n t.
Proof. intros Ht. unfold MaxJ. rewrite add64_id, Z.add_0_r by (by rewrite Z.add_0_r). done. Qed.

Lemma standardLoop_choice fuel le maxj j :
  0 ≤ j → maxj < 2 ^ 64 - 1 → j < Z.max 1 maxj → maxj - j ≤ Z.of_nat fuel →
  (∀ i, 0 ≤ i < j → le i = true) →
  ∃ r, standardLoop (S fuel) le maxj j = Some r ∧ choice le (Z.max 1 maxj) r.
Proof.
  revert j. induction fuel as [|fuel IH]; intros j Hj Hm Hlt Hf Hb; cbn [standardLoop].
  - assert (j = 0) as -> by lia. destruct (le 0) eqn:E.
    + change (add64 0 1) with 1. rewrite (proj2 (Z.leb_le _ _)) by lia. exists 1. split; [done|].
      split; [lia| |lia]. intros i Hi. by replace i with 0 by lia.
    + exists 0. split; [done|]. split; [lia|intros; lia|done].
  - destruct (le j) eqn:E; [|exists j; split; [done|]; split; auto; lia].
    rewrite add64_id by (unfold is_u64; lia).
    assert (∀ i, 0 ≤ i < j + 1 → le i = true) as Hb'.
    { intros i Hi. destruct (Z.eq_dec i j) as [->|]; [done|]. apply Hb. lia. }
    destruct (Z.leb_spec maxj (j + 1)).
    + exists (j + 1). split; [done|]. split; [lia|done|lia].
    + apply (IH (j + 1)); auto; lia.
Qed.

Lemma binaryLoop_crossing k le low high :
  1 ≤ low ≤ high → high < 2 ^ 64 - 1 → high - low < 2 ^ Z.of_nat k →
  ∃ r, binaryLoop (S k) le low high = Some r ∧ low ≤ r ≤ high ∧
    (low < r → le (r - 1) = true) ∧ (r < high → le r = false).
Proof.
  revert low high. induction k as [|k IH]; intros low high Hl H64 Hk; cbn [binaryLoop].
  - change (2 ^ Z.of_nat 0) with 1 in Hk. assert (low = high) as -> by lia.
    rewrite Z.ltb_irrefl. exists high. split; [done|]. split; [lia|]. split; lia.
  - destruct (Z.ltb_spec low high) as [Hlt|].
    2: { assert (low = high) as -> by lia. exists high. split; [done|]. split; [lia|]. split; lia. }
    rewrite sub64_id by (unfold is_u64; lia).
    pose proof (Z.div_mod (high - low) 2 ltac:(lia)).
    pose proof (Z.mod_pos_bound (high - low) 2 ltac:(lia)).
    set (d := (high - low) `div` 2) in *.
    rewrite Nat2Z.inj_succ, Z.pow_succ_r in Hk by lia.
    rewrite (add64_id low d) by (unfold is_u64; lia).
    destruct (le (low + d)) eqn:E.
    + rewrite add64_id by (unfold is_u64; lia).
      destruct (IH (low + d + 1) high) as (r & Er & Hr & Hb & Ha); [lia..|]. exists r. split; [exact Er|].
      split; [lia|]. split; [|done]. intros _. destruct (Z.eq_dec r (low + d + 1)) as [->|]; [|apply Hb; lia].
      by replace (low + d + 1 - 1) with (low + d) by lia.
    + destruct (IH low (low + d)) as (r & Er & Hr & Hb & Ha); [lia..|]. exists r. split; [exact Er|].
      split; [lia|]. split; [done|]. intros _. destruct (Z.eq_dec r (low + d)) as [->|]; [done|apply Ha; lia].
Qed.

Lemma binaryLoop_empty k le low high : high ≤ low → binaryLoop (S k) le low high = Some low.
Proof. intros H. cbn [binaryLoop]. by rewrite (proj2 (Z.ltb_ge _ _)). Qed.

Section search_facts.
Context `{BO : Boost}.
Context (hash n t W : Z).
Context (Hn : 0 ≤ n ≤ W) (Ht : 0 ≤ t ≤ W) (HW : W < 2 ^ 64 - 1).

Let F (j : Z) : floatx_t := cdf (floatx n) (fdiv (floatx t) (floatx W)) (floatx j).
Let le (j : Z) : bool := fle (F j) (hash2float hash).

Context (Hdist : binomial_ok (floatx n) (fdiv (floatx t) (floatx W)) = true).

Lemma sortition_assert_ok : sortition_assert n t W = true.
Proof. unfold sortition_assert. by rewrite !(proj2 (Z.leb_le _ _)) by lia. Qed.

Lemma dist_t_ok : dist_t n t W = Some F.
Proof. unfold dist_t. by rewrite Hdist. Qed.

Lemma standard_choice :
  ∃ j, SortitionByStandardSearch hash n t W = Some j ∧ choice le (cap n t) j.
Proof.
  unfold SortitionByStandardSearch. rewrite sortition_assert_ok, dist_t_ok. cbn [negb mbind option_bind].
  rewrite MaxJ_min by (unfold is_u64; lia).
  apply standardLoop_choice; [lia..|]. intros i Hi. lia.
Qed.

Lemma binary_crossing :
  is_nan (F 0) = false → ∃ j, SortitionByBinarySearch hash n t W = Some j ∧ crossing le (cap n t) j.
Proof.
  intros H0. unfold SortitionByBinarySearch. rewrite sortition_assert_ok, dist_t_ok. cbn [negb mbind option_bind].
  rewrite flt_fle by (done || apply hash2float_not_nan). fold (le 0). rewrite MaxJ_min by (unfold is_u64; lia).
  destruct (le 0) eqn:E0; cbn [negb].
  2: { exists 0. split; [done|]. split; [unfold cap; lia|lia|done]. }
  destruct (Z.le_gt_cases 1 (Z.min n t)) as [H1|H1].
  - destruct (binaryLoop_crossing 64 le 1 (Z.min n t)) as (r & Hr & Hb & Hc & Ha); [lia..|].
    exists r. split; [exact Hr|]. split; [unfold cap; lia| |intros; apply Ha; unfold cap in *; lia].
    intros _. destruct (Z.eq_dec r 1) as [->|]; [done|apply Hc; lia].
  - rewrite binaryLoop_empty by lia. exists 1. split; [done|]. unfold cap. split; [lia|done|lia].
Qed.
End search_facts.

(** C38. The binary search of the sortition is the standard search.  On weights
    within the asserted bounds for which boost's distribution accepts the parameters
    (with a total of 0 it gets a NaN) and has a number at 0, the binary search ends
    with a number of tickets between 0 and the smaller of the miner's and the expected
    weight (never capped below 1) at which the distribution function crosses the
    number made of the hash.  If moreover the values boost computes up to that cap do
    not decrease, the standard search ends with the same number, the least one at which
    the function exceeds the hash. *)
Theorem binary_search_is_standard_search `{BO : Boost} hash n t W :
  let p := fdiv (floatx t) (floatx W) in
  let F := λ j, cdf (floatx n) p (floatx j) in
  let h := hash2float hash in
  let M := Z.max 1 (Z.min n t) in
  0 ≤ n ≤ W → 0 ≤ t ≤ W → W < 2 ^ 64 - 1 → binomial_ok (floatx n) p = true → is_nan (F 0) = false →
  ∃ j, SortitionByBinarySearch hash n t W = Some j ∧ 0 ≤ j ≤ M ∧
    (0 < j → fle (F (j - 1)) h = true) ∧ (j < M → fle (F j) h = false) ∧
    ((∀ i k, 0 ≤ i ≤ k → k < M → fle (F i) (F k) = true) →
       SortitionByStandardSearch hash n t W = Some j ∧ ∀ i, 0 ≤ i < j → fle (F i) h = true).
Proof.
  intros p F h M Hn Ht HW Hd H0. destruct (binary_crossing hash n t W Hn Ht HW Hd H0) as (j & Hj & Hc).
  exists j. split; [done|]. pose proof Hc as [Hr Hb Ha]. split; [done|]. split; [done|]. split; [done|].
  intros Hmono. destruct (standard_choice hash n t W Hn Ht HW Hd) as (j' & Hj' & Hc').
  assert (j = j') as <-; [|split; [done|apply Hc']].
  refine (crossing_choice _ _ _ _ _ Hc Hc'). intros i k Hik Hk Hle. eapply fle_trans; [by apply Hmono|exact Hle].
Qed.

(** With a total weight of 0 the probability is NaN: boost, which takes only
    probabilities from 0 to 1, throws, and the process aborts. *)
Theorem zero_total_aborts `{BO : Boost} hash :
  (∀ n, binomial_ok n S754_nan = false) → SortitionByBinarySearch hash 0 0 0 = None.
Proof.
  intros Hnan. unfold SortitionByBinarySearch, dist_t.
  assert (fdiv (floatx 0) (floatx 0) = S754_nan) as -> by reflexivity. by rewrite Hnan.
Qed.

(** ** The weights *)

Section weight_facts.
Context `{CR : Crypto} `{BO : Boost} {StateDB : Type} `{SR : !StateReader StateDB}.
Context (config : AlgorandConfig) (miner : Address) (stateDb : StateDB) (total hash : Z).

(** The weights of a round trip through the configuration's total. *)
Context (HTW : 0 < TotalWeight config < 2 ^ 64 - 1).
Context (Hown : 0 ≤ GetBalanceWithFund stateDb miner ≤ total) (Htotal : 0 < total).

Lemma GetWeight_bounds :
  ∃ w, GetWeight config miner stateDb total hash = Some (w, TotalWeight config) ∧
       0 ≤ w ≤ TotalWeight config ∧
       Z.abs (w * total - TotalWeight config * GetBalanceWithFund stateDb miner) < total.
Proof.
  unfold GetWeight. rewrite (proj2 (Z.eqb_neq _ _)) by lia.
  set (TW := TotalWeight config) in *. set (own := GetBalanceWithFund stateDb miner) in *.
  rewrite Z.quot_div_nonneg, Z.rem_mod_nonneg by nia.
  pose proof (Z.div_mod (TW * own) total ltac:(lia)) as Hdm.
  pose proof (Z.mod_pos_bound (TW * own) total ltac:(lia)) as Hr.
  set (q := (TW * own) `div` total) in *. set (r := (TW * own) `mod` total) in *.
  assert (0 ≤ q) by (apply Z.div_pos; nia).
  assert (q ≤ TW) by nia.
  rewrite (u64_id q) by (unfold is_u64; lia). rewrite (u64_id TW) by (unfold is_u64; lia).
  destruct (Z.eqb_spec (u64 r) 0) as [_|Hne]; cbn [negb].
  - rewrite add64_id by (unfold is_u64; lia). eexists. split; [done|]. nia.
  - assert (r ≠ 0) as Hr0 by (intros E; apply Hne; by rewrite E).
    assert (q < TW) by nia.
    set (d := match bytes_compare _ _ with Lt => 0 | Gt => 1 | Eq => _ end).
    assert (d = 0 ∨ d = 1) as Hd.
    { unfold d. repeat case_match; auto. }
    rewrite add64_id by (unfold is_u64; lia). eexists. split; [done|].
    destruct Hd as [-> | ->]; nia.
Qed.
End weight_facts.

Lemma GetCommitteeNumber_size h s : 0 ≤ (GetCommitteeNumber h s).2 ≤ 5000.
Proof. unfold GetCommitteeNumber. repeat case_match; simpl; lia. Qed.

(** Computing and drawing a weight does not abort the node, at any height and
    step, for a miner whose balance is part of the total, if boost accepts the
    parameters: the weight is within one unit of the miner's exact share of the total
    weight and at most the total weight, the assertion of the sortition holds, and the
    tickets drawn are at most the miner's weight and the committee's size (or 1). *)
Theorem sortition_never_aborts `{CR : Crypto} `{BO : Boost} {StateDB : Type}
    `{SR : !StateReader StateDB} config miner (stateDb : StateDB) total hash h s :
  5000 ≤ TotalWeight config < 2 ^ 64 - 1 →
  0 ≤ GetBalanceWithFund stateDb miner ≤ total → 0 < total →
  (∀ n, 0 ≤ n ≤ TotalWeight config →
     let p := fdiv (floatx (GetCommitteeNumber h s).2) (floatx (TotalWeight config)) in
     binomial_ok (floatx n) p = true ∧ is_nan (cdf (floatx n) p (floatx 0)) = false) →
  ∃ w j, GetWeight config miner stateDb total hash = Some (w, TotalWeight config) ∧
    Choose hash w (GetCommitteeNumber h s).1 (GetCommitteeNumber h s).2 (TotalWeight config) = Some j ∧
    0 ≤ w ≤ TotalWeight config ∧
    Z.abs (w * total - TotalWeight config * GetBalanceWithFund stateDb miner) < total ∧
    0 ≤ j ≤ Z.max 1 (Z.min w (GetCommitteeNumber h s).2).
Proof.
  intros HTW Hown Ht Hboost.
  destruct (GetWeight_bounds config miner stateDb total hash) as (w & -> & Hw & Habs); [lia..|].
  pose proof (GetCommitteeNumber_size h s). destruct (Hboost w Hw) as [Hok H0].
  destruct (binary_crossing hash w (GetCommitteeNumber h s).2 (TotalWeight config)) as (j & Hj & Hc);
    [lia|lia|lia|done|done|].
  exists w, j. split; [done|]. split; [done|]. split; [lia|]. split; [done|]. apply (crossing_range _ _ _ Hc).
Qed.

(** The greatest hash becomes the number 1, as do those up to [2 ^ 202] below it. *)
Lemma hash2float_top : hash2float (2 ^ 256 - 1) = floatx 1 ∧ hash2float (2 ^ 256 - 2 ^ 202) = floatx 1.
Proof. split; vm_compute; reflexivity. Qed.

(** A miner without any weight still wins a ticket when its hash is converted to
    a number not below [F(0) = 1], as the greatest hashes are. *)
Theorem zero_weight_can_win `{BO : Boost} t W :
  0 ≤ t ≤ W → W < 2 ^ 64 - 1 → let p := fdiv (floatx t) (floatx W) in
  binomial_ok (floatx 0) p = true → cdf (floatx 0) p (floatx 0) = floatx 1 →
  SortitionByBinarySearch (2 ^ 256 - 2 ^ 202) 0 t W = Some 1.
Proof.
  intros Ht HW p Hok H1. unfold SortitionByBinarySearch, dist_t. fold p. rewrite Hok.
  rewrite sortition_assert_ok by lia. cbn [negb mbind option_bind]. rewrite H1, (proj2 hash2float_top).
  change (flt (floatx 1) (floatx 1)) with false. cbn iota.
  rewrite MaxJ_min by (unfold is_u64; lia). rewrite binaryLoop_empty by lia. done.
Qed.

(** ** A step distribution

    An executable instance: a distribution that puts the miner's [n] tickets on
    [0, 1, ..., n], one in [n + 1] each, whatever the probability. *)
Module Uniform.
#[export] Instance boost : Boost := {|
  binomial_ok _ p := fle (floatx 0) p && fle p (floatx 1);
  cdf n _ j := if fle n j then floatx 1
               else fdiv (SFadd 53 1024 j (floatx 1)) (SFadd 53 1024 n (floatx 1))
|}.

(** Its values up to 20 of 100 tickets. *)
Definition value (i : Z) : floatx_t := cdf (floatx 100) (fdiv (floatx 20) (floatx 200)) (floatx i).

Lemma value_mono_checked :
  forallb (λ k, forallb (λ i, fle (value i) (value k)) (seqZ 0 (k + 1))) (seqZ 0 20) = true.
Proof. vm_compute. reflexivity. Qed.

Lemma value_mono i k : 0 ≤ i ≤ k → k < 20 → fle (value i) (value k) = true.
Proof.
  intros Hi Hk. pose proof value_mono_checked as H. rewrite forallb_forall in H.
  specialize (H k ltac:(apply list_elem_of_In, elem_of_seqZ; lia)). rewrite forallb_forall in H.
  apply H, list_elem_of_In, elem_of_seqZ. lia.
Qed.
End Uniform.

Import Toy Registry Uniform.

Lemma binary_search_is_standard_search_witness :
  SortitionByBinarySearch (2 ^ 252) 100 20 200 = SortitionByStandardSearch (2 ^ 252) 100 20 200.
Proof.
  destruct (binary_search_is_standard_search (2 ^ 252) 100 20 200) as (j & -> & _ & _ & _ & H);
    [lia|lia|lia|vm_compute; reflexivity|vm_compute; reflexivity|].
  symmetry. apply H. intros i k Hi Hk. apply value_mono; [exact Hi|]. change (Z.max 1 (Z.min 100 20)) with 20 in Hk. lia.
Defined.
