(* ===== verification/MinerKeys.v ===== *)
(** * MinerKeys: who may speak at a height, and proving it

    src/consensus/algorand/core/minerverifier.go, minerutils.go, minerkey.go and
    minerkeymanager.go: a miner signs and draws its credentials with a
    [MinerKey]; every node checks them against the [MinerVerifier] it reads from
    the miner contract.  A division by zero, the failed assertion or the
    exception of the sortition and an index out of range are run-time panics: the outer [None]. *)

From S2P Require Import Prelude Bytes Params Crypto MinerContract ForwardSecure Types Sortition.

Local Open Scope Z_scope.

Inductive miner_error :=
| NotRegistered | BadProof | BadSeed | ZeroWeight | BadSignature
| VrfProveFailed | VrfHashFailed | InvalidHeight | InvalidOffset | InvalidStartLifespan
| LifespanTooLong | KeyExists | NoKeyFile | BadKeyFile.

(** ** The data that is proved (minerutils.go) *)

Section data.
Context `{CR : Crypto}.

Definition seedData_Bytes (miner : Address) (height parentSeed : Z) (parentHash : Hash) : bytes :=
  rlp_list [RArr (Address_Bytes miner); RUint height; RArr (be_bytes 32 parentSeed);
            RArr (Hash_Bytes parentHash)].

Definition sortitionData_Bytes (miner : Address) (height round step parentSeed : Z) : bytes :=
  rlp_list [RArr (Address_Bytes miner); RUint height; RUint round; RUint step;
            RArr (be_bytes 32 parentSeed)].
End data.

(** ** MinerVerifier (minerverifier.go) *)

Record MinerVerifier := mkMinerVerifier {
  mv_config : AlgorandConfig;
  mv_miner : Address;
  mv_coinbase : Address;
  mv_start : Z;        (* uint64 *)
  mv_end : Z;          (* uint64 *)
  mv_lifespan : Z;     (* uint32 *)
  mv_vrfVerifier : Z;
  mv_voteVerifier : Z
}.

Definition MinerVerifier_Validate (mv : MinerVerifier) (height : Z) : bool :=
  negb (mv_start mv =? 0) && (mv_start mv <=? height) && (height <? mv_end mv).

Section verifier.
Context `{CR : Crypto} `{BO : Boost} {StateDB : Type} `{SR : !StateReader StateDB}.

Definition VerifySeed (mv : MinerVerifier) (height parentSeed : Z) (parentHash : Hash)
    (seed proof : Z) : option miner_error :=
  if negb (MinerVerifier_Validate mv height) then Some NotRegistered
  else
    match VrfVerify256 (mv_vrfVerifier mv) proof
            (seedData_Bytes (mv_miner mv) height parentSeed parentHash) with
    | None => Some BadProof
    | Some seedCheck => if negb (seed =? seedCheck) then Some BadSeed else None
    end.

(** The error and the weight. *)
Definition VerifySortition (mv : MinerVerifier) (height round step proof parentSeed : Z)
    (parentState : StateDB) (totalBalanceOfMiners : Z) : option (option miner_error * Z) :=
  if negb (MinerVerifier_Validate mv height) then Some (Some NotRegistered, 0)
  else
    match VrfVerify256 (mv_vrfVerifier mv) proof
            (sortitionData_Bytes (mv_miner mv) height round step parentSeed) with
    | None => Some (Some BadProof, 0)
    | Some hash =>
        '(ownWeight, totalWeight) ←
          GetWeight (mv_config mv) (mv_miner mv) parentState totalBalanceOfMiners hash;
        let '(threshold, size) := GetCommitteeNumber height step in
        j ← Choose hash ownWeight threshold size totalWeight;
        Some (if j =? 0 then Some ZeroWeight else None, j)
    end.

Definition VerifySignature (mv : MinerVerifier) (height : Z) (data : bytes)
    (sig : ForwardSecureSignature) : option (option miner_error) :=
  if negb (MinerVerifier_Validate mv height) then Some (Some NotRegistered)
  else if mv_lifespan mv =? 0 then None
  else
    let offset := height `div` mv_lifespan mv in
    Some (if ForwardSecureVerify (mv_voteVerifier mv) offset data sig then None
          else Some BadSignature).

(** The storage a registration of [mv] writes, as key and value pairs. *)
Definition KeyValueStorage (mv : MinerVerifier) : list (Hash * Hash) :=
  let offset := Hash_Big (MakeMinerInfoKey (mv_config mv) (mv_start mv) (mv_miner mv)) in
  [(BytesToHash (big_bytes offset),
    MakeStartLifespanCoinbase (mv_start mv) (mv_lifespan mv) (mv_coinbase mv));
   (BytesToHash (big_bytes (offset + 1)), mv_vrfVerifier mv);
   (BytesToHash (big_bytes (offset + 1 + 1)), mv_voteVerifier mv)].

(** ** minerutils.go *)

Definition GetMinerVerifier (config : AlgorandConfig) (statedb : StateDB) (miner : Address)
    (height : Z) : MinerVerifier :=
  let '(start, lifespan, coinbase, vrfVerifier, voteVerifier) :=
    MinerContract_Get config statedb height miner in
  let end_ := (GetInterval config (GetIntervalSn config start)).2 in
  mkMinerVerifier config miner coinbase start end_ lifespan vrfVerifier voteVerifier.

(** The credential is updated through its pointer. *)
Definition VerifySignatureAndCredential (mv : MinerVerifier) (signBytes : bytes)
    (signature : ForwardSecureSignature) (credential : Credential) (stateDb : StateDB)
    (parentSeed totalBalanceOfMiners : Z) : option (option miner_error * Credential) :=
  err ← VerifySignature mv (cr_Height credential) signBytes signature;
  match err with
  | Some err => Some (Some err, credential)
  | None =>
      '(err, choosedWeight) ← VerifySortition mv (cr_Height credential) (cr_Round credential)
        (cr_Step credential) (cr_Proof credential) parentSeed stateDb totalBalanceOfMiners;
      match err with
      | Some err => Some (Some err, credential)
      | None => Some (None, credential <| cr_Weight := choosedWeight |>)
      end
  end.
End verifier.

(** ** MinerKey (minerkey.go) *)

Record MinerKey := mkMinerKey {
  mk_config : AlgorandConfig;
  mk_Miner : Address;
  mk_Coinbase : Address;
  mk_Start : Z;
  mk_End : Z;
  mk_Lifespan : Z;
  mk_VrfKey : Z;
  mk_VoteKey : ForwardSecurePrivateKey
}.
#[export] Instance MinerKey_fields : Fields MinerKey := λ k,
  mkMinerKey (mk_config k) (mk_Miner k) (mk_Coinbase k) (mk_Start k) (mk_End k) (mk_Lifespan k)
    (mk_VrfKey k) (mk_VoteKey k).

Definition MinerKey_Validate (mk : MinerKey) (height : Z) : bool :=
  negb (mk_Start mk =? 0) && (mk_Start mk <=? height) && (height <? mk_End mk).

Section key.
Context `{CR : Crypto} `{BO : Boost} {StateDB : Type} `{SR : !StateReader StateDB}.

Definition MinerKey_Seed (mk : MinerKey) (height parentSeed : Z) (parentHash : Hash) :
    (Z * Z) + miner_error :=
  if negb (MinerKey_Validate mk height) then inr NotRegistered
  else
    match VrfProve (mk_VrfKey mk) (seedData_Bytes (mk_Miner mk) height parentSeed parentHash) with
    | None => inr VrfProveFailed
    | Some proof =>
        match VrfProofToHash256 proof with
        | None => inr VrfHashFailed
        | Some seed => inl (seed, proof)
        end
    end.

(** The hash, the proof and the weight. *)
Definition MinerKey_Sortition (mk : MinerKey) (height round step parentSeed : Z)
    (parentState : StateDB) (totalBalanceOfMiners : Z) : option ((Z * Z * Z) + miner_error) :=
  if negb (MinerKey_Validate mk height) then Some (inr NotRegistered)
  else
    match VrfProve (mk_VrfKey mk) (sortitionData_Bytes (mk_Miner mk) height round step parentSeed) with
    | None => Some (inr VrfProveFailed)
    | Some proof =>
        match VrfProofToHash256 proof with
        | None => Some (inr VrfHashFailed)
        | Some hash =>
            '(ownWeight, totalWeight) ←
              GetWeight (mk_config mk) (mk_Miner mk) parentState totalBalanceOfMiners hash;
            let '(threshold, size) := GetCommitteeNumber height step in
            j ← Choose hash ownWeight threshold size totalWeight;
            Some (inl (hash, proof, j))
        end
    end.

Definition MinerKey_Sign (mk : MinerKey) (height : Z) (data : bytes) :
    option (ForwardSecureSignature + miner_error) :=
  if negb (MinerKey_Validate mk height) then Some (inr InvalidHeight)
  else if mk_Lifespan mk =? 0 then None
  else
    let offset := height `div` mk_Lifespan mk in
    if negb (ValidOffset (mk_VoteKey mk) offset) then Some (inr InvalidOffset)
    else sig ← ForwardSecureSign (mk_VoteKey mk) offset data; Some (inl sig).

(** The number of deleted sub keys and the key after the update. *)
Definition MinerKey_Update (mk : MinerKey) (height : Z) : option (Z * MinerKey) :=
  if mk_Lifespan mk =? 0 then None
  else
    let offset := height `div` mk_Lifespan mk in
    let '(deleted, key) := ForwardSecureUpdate (mk_VoteKey mk) offset in
    Some (deleted, mk <| mk_VoteKey := key |>).

Definition ToVerifier (mk : MinerKey) : MinerVerifier :=
  mkMinerVerifier (mk_config mk) (mk_Miner mk) (mk_Coinbase mk) (mk_Start mk) (mk_End mk)
    (mk_Lifespan mk) (vrf_pub (mk_VrfKey mk)) (fs_PublicKey (mk_VoteKey mk)).

(** [vrfkey] and [keygen] are the keys the generators draw. *)
Definition generateMinerKey (vrfKey : Z) (keygen : nat → Z) (config : AlgorandConfig)
    (miner coinbase : Address) (start lifespan : Z) :
    option ((MinerVerifier * MinerKey) + miner_error) :=
  let sn := GetIntervalSn config start in
  let end_ := (GetInterval config sn).2 in
  if lifespan =? 0 then None
  else
    let offset := start `div` lifespan in
    let limit := end_ `div` lifespan in
    if limit <=? offset then Some (inr InvalidStartLifespan)
    else
      let count := sub64 limit offset in
      let vrfVerifier := vrf_pub vrfKey in
      let '(voteVerifier, voteKey) := GenerateForwardSecureKey keygen offset (Z.to_nat count) in
      Some (inl (mkMinerVerifier config miner coinbase start end_ lifespan vrfVerifier voteVerifier,
                 mkMinerKey config miner coinbase start end_ lifespan vrfKey voteKey)).
End key.

(** ** Registration *)

Section registration.
Context `{CR : Crypto} `{DS : !DigestSize} `{BO : Boost}.
Context {StateDB : Type} `{SR : !StateReader StateDB}.

(** The miner contract stores the registration of [mv]. *)
Definition registered (statedb : StateDB) (mv : MinerVerifier) : Prop :=
  ∀ k v, (k, v) ∈ KeyValueStorage mv → GetState statedb MinerAddress k = v.

(** The fields of a registration have their widths and [mv_end] closes the
    interval of the start. *)
Record mv_wf (mv : MinerVerifier) : Prop := {
  mvw_start : is_u64 (mv_start mv);
  mvw_started : mv_start mv ≠ 0;
  mvw_lifespan : is_u32 (mv_lifespan mv);
  mvw_coinbase : address_ok (mv_coinbase mv);
  mvw_end : mv_end mv = (GetInterval (mv_config mv) (GetIntervalSn (mv_config mv) (mv_start mv))).2
}.

Lemma MakeMinerInfoKey_ok config h a : hash_ok (MakeMinerInfoKey config h a).
Proof.
  unfold MakeMinerInfoKey. rewrite BytesToHash_int by apply be_bytes_ok.
  apply Z.mod_pos_bound. lia.
Qed.

Lemma registered_verifier config statedb mv miner height :
  mv_wf mv → registered statedb mv → mv_config mv = config → mv_miner mv = miner →
  GetIntervalSn config height = GetIntervalSn config (mv_start mv) →
  GetMinerVerifier config statedb miner height = mv.
Proof.
  intros [Hs Hs0 Hl Hc He] Hreg <- <- Hsn. unfold GetMinerVerifier, MinerContract_Get.
  assert (MakeMinerInfoKey (mv_config mv) height (mv_miner mv)
          = MakeMinerInfoKey (mv_config mv) (mv_start mv) (mv_miner mv)) as ->.
  { unfold MakeMinerInfoKey. by rewrite Hsn. }
  pose proof (MakeMinerInfoKey_ok (mv_config mv) (mv_start mv) (mv_miner mv)) as Hkey.
  set (key := MakeMinerInfoKey (mv_config mv) (mv_start mv) (mv_miner mv)) in *.
  assert (key = BytesToHash (big_bytes (Hash_Big key))) as Hk.
  { symmetry. by apply BytesToHash_Hash_Big. }
  assert (GetState statedb MinerAddress key
          = MakeStartLifespanCoinbase (mv_start mv) (mv_lifespan mv) (mv_coinbase mv)) as ->.
  { rewrite Hk at 1. apply Hreg. unfold KeyValueStorage. fold key. apply list_elem_of_here. }
  rewrite parse_make by done. rewrite (proj2 (Z.eqb_neq _ _)) by done.
  assert (GetState statedb MinerAddress (BigToHash (Hash_Big key + 1)) = mv_vrfVerifier mv) as ->.
  { apply Hreg. unfold KeyValueStorage. fold key. apply list_elem_of_further, list_elem_of_here. }
  assert (GetState statedb MinerAddress (BigToHash (Hash_Big key + 1 + 1)) = mv_voteVerifier mv) as ->.
  { apply Hreg. unfold KeyValueStorage. fold key.
    apply list_elem_of_further, list_elem_of_further, list_elem_of_here. }
  rewrite <- He. by destruct mv.
Qed.

(** Heights of one interval. *)
Lemma interval_same config start h :
  0 < IntervalSize config → 0 ≤ start → start + IntervalSize config < 2 ^ 64 →
  start ≤ h < (GetInterval config (GetIntervalSn config start)).2 →
  GetIntervalSn config h = GetIntervalSn config start.
Proof.
  intros HI Hs Hmax [H1 H2]. pose proof (GetInterval_contains config start HI Hs Hmax) as [H3 _].
  unfold GetInterval, GetIntervalSn in *. simpl in *.
  set (q := start `div` IntervalSize config) in *.
  assert (0 ≤ q) by (apply Z.div_pos; lia).
  pose proof (Z.mul_div_le start (IntervalSize config) HI). fold q in H0.
  assert (q ≤ start) by nia.
  rewrite add64_id in H2 by (unfold is_u64; lia).
  rewrite mul64_id in H2 by (unfold is_u64; nia).
  symmetry. apply (Z.div_unique h (IntervalSize config) q (h - q * IntervalSize config)); [left; nia|lia].
Qed.

Lemma GetInterval_end config start :
  0 < IntervalSize config → 0 ≤ start → start + IntervalSize config < 2 ^ 64 →
  is_u64 (GetInterval config (GetIntervalSn config start)).2.
Proof. intros. unfold GetInterval. simpl. apply u64_range. Qed.
End registration.

(** ** The life of a miner key *)

(** The key after the chain head passed the heights [hs]. *)
Definition mk_updates (mk : MinerKey) (hs : list Z) : MinerKey :=
  foldl (λ mk h, match MinerKey_Update mk h with Some (_, mk) => mk | None => mk end) mk hs.

Lemma mk_updates_eq mk hs :
  mk_Lifespan mk ≠ 0 →
  mk_updates mk hs
  = mk <| mk_VoteKey ::= λ k, fs_updates k ((λ h, h `div` mk_Lifespan mk) <$> hs) |>.
Proof.
  revert mk. induction hs as [|h hs IH]; intros mk Hl; [by destruct mk|].
  unfold mk_updates. cbn [foldl]. unfold MinerKey_Update at 2.
  rewrite (proj2 (Z.eqb_neq _ _)) by done.
  destruct (ForwardSecureUpdate (mk_VoteKey mk) (h `div` mk_Lifespan mk)) as [d k] eqn:E.
  fold (mk_updates (mk <| mk_VoteKey := k |>) hs). rewrite IH by done. upd.
  destruct mk. cbn in E. unfold field_update, set_to, fs_updates. cbn. by rewrite E.
Qed.

Section key_life.
Context `{CR : Crypto} `{DS : !DigestSize} `{SC : !SignatureCorrect} `{VC : !VrfCorrect} `{BO : Boost}.
Context {StateDB : Type} `{SR : !StateReader StateDB}.
Context (vrfKey : Z) (keygen : nat → Z) (config : AlgorandConfig) (miner coinbase : Address).
Context (start lifespan : Z) (mv : MinerVerifier) (mk0 : MinerKey).

(** A generation request within the machine's range. *)
Record gen_wf : Prop := {
  gw_interval : 0 < IntervalSize config;
  gw_start : 0 < start;
  gw_range : start + IntervalSize config < 2 ^ 64;
  gw_lifespan : 0 < lifespan < 2 ^ 32;
  gw_coinbase : address_ok coinbase;
  gw_generated : generateMinerKey vrfKey keygen config miner coinbase start lifespan
                 = Some (inl (mv, mk0))
}.

Let end_ := (GetInterval config (GetIntervalSn config start)).2.

Lemma generated_fields : gen_wf →
  start `div` lifespan < end_ `div` lifespan ∧
  let gen := GenerateForwardSecureKey keygen (start `div` lifespan)
               (Z.to_nat (end_ `div` lifespan - start `div` lifespan)) in
  mv = mkMinerVerifier config miner coinbase start end_ lifespan (vrf_pub vrfKey) gen.1 ∧
  mk0 = mkMinerKey config miner coinbase start end_ lifespan vrfKey gen.2.
Proof.
  intros [HI Hs Hr Hl Hc Hg]. unfold generateMinerKey in Hg. fold end_ in Hg.
  pose proof (GetInterval_end config start HI ltac:(lia) Hr) as He. fold end_ in He.
  rewrite (proj2 (Z.eqb_neq _ _)) in Hg by lia.
  destruct (Z.leb_spec (end_ `div` lifespan) (start `div` lifespan)); [done|].
  unfold is_u64 in He.
  assert (0 ≤ start `div` lifespan) by (apply Z.div_pos; lia).
  assert (end_ `div` lifespan ≤ end_) by (apply Z.div_le_upper_bound; nia).
  rewrite sub64_id in Hg by (unfold is_u64; lia).
  destruct (GenerateForwardSecureKey _ _ _) as [pk sk]. injection Hg as <- <-. done.
Qed.

Lemma generated_wf : gen_wf → mv_wf mv.
Proof.
  intros Hg. pose proof (generated_fields Hg) as (_ & -> & _). destruct Hg as [HI Hs Hr Hl Hc _].
  split; cbn; unfold is_u64, is_u32; (done || lia).
Qed.

Lemma generated_vote_key : gen_wf →
  fs_wf (keygen O) (mk_VoteKey mk0) ∧
  ∀ o, ValidOffset (mk_VoteKey mk0) o = true ↔ start `div` lifespan ≤ o < end_ `div` lifespan.
Proof.
  intros Hg. pose proof (generated_fields Hg) as (Hlt & _ & ->). destruct Hg as [HI Hs Hr Hl Hc _].
  pose proof (GetInterval_end config start HI ltac:(lia) Hr) as He. fold end_ in He.
  unfold is_u64 in He.
  assert (0 ≤ start `div` lifespan) by (apply Z.div_pos; lia).
  assert (end_ `div` lifespan ≤ end_) by (apply Z.div_le_upper_bound; nia).
  cbn [mk_VoteKey].
  assert (fs_wf (keygen O) (GenerateForwardSecureKey keygen (start `div` lifespan)
    (Z.to_nat (end_ `div` lifespan - start `div` lifespan))).2) as Hwf.
  { apply GenerateForwardSecureKey_wf; lia. }
  split; [done|]. intros o. rewrite (ValidOffset_iff _ _ o Hwf).
  cbn [GenerateForwardSecureKey snd fs_Start fs_SubKeys]. rewrite length_fmap, length_seq. lia.
Qed.

Context (hs : list Z).
Let mk := mk_updates mk0 hs.

(** At which heights the key signs, whatever updates it went through. *)
Lemma key_signs h data : gen_wf → Forall is_u64 hs →
  start ≤ h < end_ → h `div` lifespan < end_ `div` lifespan → Forall (λ x, x ≤ h) hs →
  ∃ sig, MinerKey_Sign mk h data = Some (inl sig) ∧
         VerifySignature mv h data sig = Some None.
Proof.
  intros Hg Hhs Hh Ho Hpast. pose proof (generated_fields Hg) as (_ & Emv & Emk).
  destruct (generated_vote_key Hg) as [Hwf Hvalid].
  destruct Hg as [HI Hs Hr Hl Hc _].
  assert (mk_Lifespan mk0 = lifespan) as El by (by rewrite Emk).
  assert (mk = mk0 <| mk_VoteKey ::= λ k, fs_updates k ((λ h, h `div` lifespan) <$> hs) |>) as ->.
  { unfold mk. rewrite mk_updates_eq by lia. by rewrite El. }
  assert (Forall is_u64 ((λ h, h `div` lifespan) <$> hs)) as Hos.
  { apply Forall_fmap. eapply Forall_impl; [exact Hhs|]. intros x [Hx1 Hx2]. unfold compose.
    split; [apply Z.div_pos; lia|]. apply Z.div_lt_upper_bound; nia. }
  set (key := fs_updates (mk_VoteKey mk0) ((λ h, h `div` lifespan) <$> hs)).
  assert (ValidOffset key (h `div` lifespan) = true) as Hv.
  { unfold key. rewrite (fs_updates_valid (keygen O)) by done. apply andb_true_iff. split.
    - apply Hvalid. split; [apply Z.div_le_mono; lia|done].
    - apply forallb_forall. intros o Ho'. apply list_elem_of_In, list_elem_of_fmap in Ho' as (x & -> & Hx).
      apply Z.leb_le, Z.div_le_mono; [lia|]. rewrite Forall_forall in Hpast. by apply Hpast. }
  destruct (ForwardSecureSign_verifies (keygen O) key (h `div` lifespan) data) as (sig & Hsig & Hver).
  { by apply fs_updates_wf. }
  { done. }
  exists sig. unfold MinerKey_Sign, VerifySignature, MinerKey_Validate, MinerVerifier_Validate. upd.
  rewrite Emv. rewrite Emk at 1 2 3. cbn [mk_Start mk_End mv_start mv_end mv_lifespan mv_voteVerifier].
  rewrite El. fold key. rewrite Hv.
  rewrite (proj2 (Z.eqb_neq start 0)), (proj2 (Z.leb_le start h)), (proj2 (Z.ltb_lt h end_)),
    (proj2 (Z.eqb_neq lifespan 0)) by lia.
  cbn [negb andb]. rewrite Hsig. cbn [mbind option_bind]. split; [done|].
  cbn [GenerateForwardSecureKey fst]. by rewrite Hver.
Qed.

(** The drawn weight is the weight the verifiers compute. *)
Lemma key_sortition_verified h r s seed statedb total hash proof j : gen_wf →
  MinerKey_Sortition mk h r s seed statedb total = Some (inl (hash, proof, j)) →
  VerifySortition mv h r s proof seed statedb total
  = Some (if j =? 0 then Some ZeroWeight else None, j).
Proof.
  intros Hg. pose proof (generated_fields Hg) as (_ & Emv & Emk). destruct Hg as [HI Hs Hr Hl Hc _].
  assert (mk_Lifespan mk0 = lifespan) as El by (by rewrite Emk).
  unfold mk. rewrite mk_updates_eq by lia.
  unfold MinerKey_Sortition, VerifySortition, MinerKey_Validate, MinerVerifier_Validate. upd.
  rewrite Emv, Emk. cbn [mk_Start mk_End mk_VrfKey mk_Miner mk_config mv_start mv_end mv_vrfVerifier
    mv_miner mv_config].
  destruct (negb _); [done|]. destruct (VrfProve _ _) as [p|] eqn:Ep; [|done].
  destruct (VrfProofToHash256 p) as [hh|] eqn:Eh; [|done].
  destruct (GetWeight _ _ _ _ _) as [[ow tw]|] eqn:Ew; [|done]. cbn [mbind option_bind].
  destruct (GetCommitteeNumber h s) as [th size]. destruct (Choose _ _ _ _ _) as [j'|] eqn:Ej; [|done].
  cbn [mbind option_bind]. intros [= <- <- <-].
  rewrite (vrf_complete _ _ _ Ep), Eh, Ew. cbn [mbind option_bind]. by rewrite Ej.
Qed.
End key_life.

(** C35. What a miner signs and draws, every node accepts.  A key is generated
    and registered; the chain head has passed any heights up to [h] since.  Then
    at every height [h] of the key's interval whose signature slot the key has,
    signing succeeds, and for every round and step in which the miner draws a
    weight [j > 0] the check of the signature and the credential, against the
    verifier read from the contract, succeeds and finds the same [j]. *)
Theorem own_credential_accepted `{CR : Crypto} `{DS : !DigestSize} `{SC : !SignatureCorrect}
    `{VC : !VrfCorrect} `{BO : Boost} {StateDB : Type} `{SR : !StateReader StateDB}
    vrfKey keygen config miner coinbase start lifespan mv mk0 hs h r s seed (statedb : StateDB)
    total hash proof j data :
  gen_wf vrfKey keygen config miner coinbase start lifespan mv mk0 →
  registered statedb mv →
  Forall is_u64 hs → Forall (λ x, x ≤ h) hs →
  start ≤ h < mv_end mv → h `div` lifespan < mv_end mv `div` lifespan →
  MinerKey_Sortition (mk_updates mk0 hs) h r s seed statedb total = Some (inl (hash, proof, j)) →
  0 < j →
  ∃ sig, MinerKey_Sign (mk_updates mk0 hs) h data = Some (inl sig) ∧
    ∀ w, VerifySignatureAndCredential (GetMinerVerifier config statedb miner h) data sig
           (mkCredential miner h r s proof w) statedb seed total
         = Some (None, mkCredential miner h r s proof j).
Proof.
  intros Hg Hreg Hhs Hpast Hh Ho Hsort Hj.
  pose proof (generated_fields _ _ _ _ _ _ _ _ _ Hg) as (_ & Emv & _).
  assert (mv_end mv = (GetInterval config (GetIntervalSn config start)).2) as Eend
    by (by rewrite Emv).
  rewrite Eend in Hh, Ho.
  destruct (key_signs _ _ _ _ _ _ _ _ _ hs h data Hg Hhs Hh Ho Hpast) as (sig & Hsig & Hver).
  pose proof (key_sortition_verified _ _ _ _ _ _ _ _ _ hs h r s seed statedb total hash proof j Hg Hsort)
    as Hvs.
  exists sig. split; [done|]. intros w.
  rewrite (registered_verifier config statedb mv miner h).
  - unfold VerifySignatureAndCredential. cbn [cr_Height cr_Round cr_Step cr_Proof].
    rewrite Hver. cbn [mbind option_bind]. rewrite Hvs. cbn [mbind option_bind].
    by rewrite (proj2 (Z.eqb_neq _ _)) by lia.
  - by eapply generated_wf.
  - done.
  - by rewrite Emv.
  - by rewrite Emv.
  - rewrite Emv. cbn [mv_start]. destruct Hg. apply interval_same; (done || lia).
Qed.

(** When the lifespan does not divide the end of the interval, the key is valid
    for the last heights of the interval but has no signature slot for them:
    signing fails there. *)
Theorem last_heights_unsignable `{CR : Crypto} vrfKey keygen config miner coinbase start lifespan
    mv mk0 h data :
  gen_wf vrfKey keygen config miner coinbase start lifespan mv mk0 →
  start ≤ h < mv_end mv → mv_end mv `div` lifespan * lifespan ≤ h →
  MinerKey_Validate mk0 h = true ∧ MinerKey_Sign mk0 h data = Some (inr InvalidOffset).
Proof.
  intros Hg Hh Hlast.
  pose proof (generated_fields _ _ _ _ _ _ _ _ _ Hg) as (_ & Emv & Emk).
  destruct (generated_vote_key _ _ _ _ _ _ _ _ _ Hg) as [_ Hvalid].
  destruct Hg as [HI Hs Hr Hl Hc _].
  assert (MinerKey_Validate mk0 h = true) as Hv.
  { unfold MinerKey_Validate. rewrite Emk, Emv in *. cbn [mk_Start mk_End mv_end] in *.
    rewrite (proj2 (Z.eqb_neq start 0)), (proj2 (Z.leb_le _ _)), (proj2 (Z.ltb_lt _ _)) by lia. done. }
  split; [done|]. unfold MinerKey_Sign. rewrite Hv. cbn [negb].
  rewrite Emk at 1. cbn [mk_Lifespan]. rewrite (proj2 (Z.eqb_neq lifespan 0)) by lia.
  destruct (ValidOffset (mk_VoteKey mk0) (h `div` mk_Lifespan mk0)) eqn:E; [|done].
  apply Hvalid in E. rewrite Emk, Emv in *. cbn [mk_Lifespan mv_end] in *.
  destruct E as [_ E]. exfalso.
  pose proof (Z.div_le_mono _ h lifespan ltac:(lia) Hlast) as Hd.
  rewrite Z.div_mul in Hd by lia. lia.
Qed.

(** ** MinerKeyManager (minerkeymanager.go)

    The key files are the RLP encoding of a key, or empty when a generation
    failed after the file was created.  The file name spells the id, so the
    directory is a map from ids.  Errors of the file system other than a
    missing file do not occur in the model. *)

Abbreviation minerKeyId := (Address * Z * Z)%type.   (* miner, begin, end *)

Definition DefaultLifespan : Z := 100.
Definition MaxLifespan : Z := 100.

Record MinerKeyManager := mkMinerKeyManager {
  mkm_config : AlgorandConfig;
  mkm_keys : gmap minerKeyId MinerKey;
  mkm_files : gmap minerKeyId (option MinerKey)
}.
#[export] Instance MinerKeyManager_fields : Fields MinerKeyManager := λ m,
  mkMinerKeyManager (mkm_config m) (mkm_keys m) (mkm_files m).

Definition intervalId (config : AlgorandConfig) (miner : Address) (height : Z) : minerKeyId :=
  let sn := GetIntervalSn config height in
  let '(begin, end_) := GetInterval config sn in
  (miner, begin, end_).

(** [mk.id()] *)
Definition MinerKey_id (mk : MinerKey) : minerKeyId :=
  let sn := GetIntervalSn (mk_config mk) (mk_Start mk) in
  let '(begin, _) := GetInterval (mk_config mk) sn in
  (mk_Miner mk, begin, mk_End mk).

Definition GetMinerKey (mkm : MinerKeyManager) (miner : Address) (height : Z) :
    MinerKeyManager * (MinerKey + miner_error) :=
  let id := intervalId (mkm_config mkm) miner height in
  match mkm_keys mkm !! id with
  | Some mk => (mkm, inl mk)
  | None =>
      match mkm_files mkm !! id with
      | None => (mkm, inr NoKeyFile)
      | Some None => (mkm, inr BadKeyFile)
      | Some (Some mk) => (mkm <| mkm_keys ::= <[id := mk]> |>, inl mk)
      end
  end.

Section manager.
Context `{CR : Crypto}.

Definition MinerKeyManager_Generate (vrfKey : Z) (keygen : nat → Z) (mkm : MinerKeyManager)
    (miner coinbase : Address) (start lifespan : Z) :
    option (MinerKeyManager * ((MinerVerifier * MinerKey) + miner_error)) :=
  let lifespan := if lifespan =? 0 then DefaultLifespan else lifespan in
  if MaxLifespan <? lifespan then Some (mkm, inr LifespanTooLong)
  else
    let id := intervalId (mkm_config mkm) miner start in
    match mkm_files mkm !! id with
    | Some _ => Some (mkm, inr KeyExists)
    | None =>
        let mkm := mkm <| mkm_files ::= <[id := None]> |> in
        r ← generateMinerKey vrfKey keygen (mkm_config mkm) miner coinbase start lifespan;
        match r with
        | inr err => Some (mkm, inr err)
        | inl (mv, mk) => Some (mkm <| mkm_files ::= <[id := Some mk]> |>, inl (mv, mk))
        end
    end.
End manager.

(** [updateMinerKeyStore] rewrites an existing file only. *)
Definition updateMinerKeyStore (mkm : MinerKeyManager) (mk : MinerKey) : MinerKeyManager :=
  match mkm_files mkm !! MinerKey_id mk with
  | Some _ => mkm <| mkm_files ::= <[MinerKey_id mk := Some mk]> |>
  | None => mkm
  end.

(** One entry of the loop over the keys in [updateRoutine]: the manager and the
    keys to unload. *)
Definition updateEntry (current : Z) (acc : MinerKeyManager * list minerKeyId)
    (e : minerKeyId * MinerKey) : MinerKeyManager * list minerKeyId :=
  let '(mkm, toUnload) := acc in
  let '(id, v) := e in
  if MinerKey_Validate v current then
    match MinerKey_Update v current with
    | None => (mkm, toUnload)   (* division by zero, see [updateRoutine_step] *)
    | Some (deleted, v') =>
        let mkm := mkm <| mkm_keys ::= <[id := v']> |> in
        if deleted =? 0 then (mkm, toUnload) else (updateMinerKeyStore mkm v', toUnload)
    end
  else (mkm, toUnload ++ [id]).

(** The reaction of [updateRoutine] to a chain head at height [current]; [None]
    is the panic of a key whose lifespan is 0. *)
Definition updateRoutine_step (mkm : MinerKeyManager) (current : Z) : option MinerKeyManager :=
  let entries := map_to_list (mkm_keys mkm) in
  if existsb (λ e, MinerKey_Validate e.2 current && (mk_Lifespan e.2 =? 0)) entries then None
  else
    let '(mkm, toUnload) := foldl (updateEntry current) (mkm, []) entries in
    Some (mkm <| mkm_keys ::= λ keys, foldl (λ keys id, delete id keys) keys toUnload |>).

(** ** What the manager promises *)

Definition NewMinerKeyManager (config : AlgorandConfig) : MinerKeyManager :=
  mkMinerKeyManager config ∅ ∅.

Section manager_facts.
Context `{CR : Crypto}.

Record entry_ok (config : AlgorandConfig) (id : minerKeyId) (mk : MinerKey) : Prop := {
  eo_id : MinerKey_id mk = id;
  eo_config : mk_config mk = config;
  eo_lifespan : 0 < mk_Lifespan mk;
  eo_key : ∃ msk, fs_wf msk (mk_VoteKey mk)
}.

(** Every key is stored under its own id, and every loaded key is the one in its
    file. *)
Record mkm_wf (mkm : MinerKeyManager) : Prop := {
  mw_files : ∀ id mk, mkm_files mkm !! id = Some (Some mk) → entry_ok (mkm_config mkm) id mk;
  mw_keys : ∀ id mk, mkm_keys mkm !! id = Some mk → mkm_files mkm !! id = Some (Some mk)
}.

Lemma mkm_wf_new config : mkm_wf (NewMinerKeyManager config).
Proof. split; intros id mk H; cbn in H; by rewrite lookup_empty in H. Qed.

Lemma mkm_wf_get mkm miner height : mkm_wf mkm → mkm_wf (GetMinerKey mkm miner height).1.
Proof.
  intros [Hf Hk]. unfold GetMinerKey. set (id := intervalId _ _ _).
  destruct (mkm_keys mkm !! id); [done|].
  destruct (mkm_files mkm !! id) as [[mk|]|] eqn:E; [|done..].
  split; cbn [fst]; upd; [done|]. intros id' mk'. rewrite lookup_insert.
  case_decide; [|apply Hk]. intros [= <-]. by subst id'.
Qed.

Lemma update_entry_ok config id mk current d mk' :
  is_u64 current → entry_ok config id mk → MinerKey_Update mk current = Some (d, mk') →
  entry_ok config id mk' ∧ mk_Lifespan mk' = mk_Lifespan mk ∧
  (d = 0 → mk' = mk) ∧
  (∀ h, MinerKey_Validate mk' h = MinerKey_Validate mk h) ∧
  ∀ o, ValidOffset (mk_VoteKey mk') o
       = ValidOffset (mk_VoteKey mk) o && (current `div` mk_Lifespan mk <=? o).
Proof.
  intros Hc [Hid Hcfg Hl [msk Hwf]]. unfold MinerKey_Update.
  rewrite (proj2 (Z.eqb_neq _ _)) by lia.
  assert (is_u64 (current `div` mk_Lifespan mk)) as Ho.
  { destruct Hc as [H1 H2]. split; [apply Z.div_pos; lia|]. apply Z.div_lt_upper_bound; nia. }
  pose proof (ForwardSecureUpdate_wf msk (mk_VoteKey mk) _ Ho Hwf) as Hwf'.
  pose proof (λ o, ForwardSecureUpdate_valid msk (mk_VoteKey mk) _ o Ho Hwf) as Hv.
  destruct (ForwardSecureUpdate _ _) as [d' k] eqn:E. cbn [snd] in *. intros [= <- <-].
  split_and!; [split; upd; eauto|done| |done|done].
  intros ->. unfold ForwardSecureUpdate in E. destruct Hwf as [_ H0 Hlim _].
  destruct (Z.ltb_spec (fs_Start (mk_VoteKey mk)) (current `div` mk_Lifespan mk)) as [Hlt|].
  - injection E as E1 E2. rewrite E1 in E2. unfold is_u64 in Ho.
    assert (fs_SubKeys (mk_VoteKey mk) = []) as Hnil.
    { rewrite sub64_id in E1 by (unfold is_u64; lia). case_cmp_in E1; [|lia].
      apply nil_length_inv. lia. }
    rewrite drop_0, add64_id, Z.add_0_r in E2 by (unfold is_u64; lia).
    subst k. destruct mk as [? ? ? ? ? ? ? [? ? ?]]. done.
  - injection E as <-. by destruct mk.
Qed.

Lemma foldl_delete_lookup {V : Type} (l : list minerKeyId) (m : gmap minerKeyId V) id :
  foldl (λ m id, delete id m) m l !! id = if decide (id ∈ l) then None else m !! id.
Proof.
  revert m. induction l as [|x l IH]; intros m; cbn [foldl].
  - by rewrite decide_False by apply not_elem_of_nil.
  - clear -IH. rewrite IH, lookup_delete.
    destruct (decide (x = id)) as [->|], (decide (id ∈ l)).
    + by rewrite decide_True by (by apply list_elem_of_further).
    + by rewrite decide_True by apply list_elem_of_here.
    + by rewrite decide_True by (by apply list_elem_of_further).
    + rewrite decide_False; [done|]. by intros [?|?]%elem_of_cons.
Qed.

(** The state of the loop after the entries [l]. *)
Record loop_post (current : Z) (l : list (minerKeyId * MinerKey)) (mkm : MinerKeyManager)
    (un0 : list minerKeyId) (acc : MinerKeyManager * list minerKeyId) : Prop := {
  lp_wf : mkm_wf acc.1;
  lp_config : mkm_config acc.1 = mkm_config mkm;
  lp_frame : ∀ id, id ∉ l.*1 → mkm_keys acc.1 !! id = mkm_keys mkm !! id;
  lp_valid : ∀ id v, (id, v) ∈ l → MinerKey_Validate v current = true →
    ∃ d v', MinerKey_Update v current = Some (d, v') ∧ mkm_keys acc.1 !! id = Some v';
  lp_unload : ∀ id, id ∈ acc.2 ↔ id ∈ un0 ∨ ∃ v, (id, v) ∈ l ∧ MinerKey_Validate v current = false;
  lp_files : ∀ id, (∀ v, (id, v) ∈ l → MinerKey_Validate v current = false) →
    mkm_files acc.1 !! id = mkm_files mkm !! id
}.

(** Storing an updated key keeps memory and files in step. *)
Lemma mkm_wf_store mkm id v v' current d :
  is_u64 current → mkm_wf mkm → mkm_keys mkm !! id = Some v →
  MinerKey_Update v current = Some (d, v') →
  let mkm' := mkm <| mkm_keys ::= <[id := v']> |> in
  mkm_wf (if d =? 0 then mkm' else updateMinerKeyStore mkm' v') ∧
  mkm_keys (if d =? 0 then mkm' else updateMinerKeyStore mkm' v') = <[id := v']> (mkm_keys mkm) ∧
  mkm_config (if d =? 0 then mkm' else updateMinerKeyStore mkm' v') = mkm_config mkm ∧
  ∀ id', id' ≠ id →
    mkm_files (if d =? 0 then mkm' else updateMinerKeyStore mkm' v') !! id' = mkm_files mkm !! id'.
Proof.
  intros Hc [Hf Hk] Hv Hu mkm'. pose proof (Hk _ _ Hv) as Hfile.
  destruct (update_entry_ok _ _ _ _ _ _ Hc (Hf _ _ Hfile) Hu) as (Hok & _ & Hsame & _).
  destruct (Z.eqb_spec d 0) as [->|Hd].
  - assert (v' = v) as -> by auto. subst mkm'. upd. split_and!; [|done|done|done]. split; upd; [done|].
    intros id' mk'. rewrite insert_id by done. apply Hk.
  - unfold updateMinerKeyStore. rewrite (eo_id _ _ _ Hok). subst mkm'. upd. rewrite Hfile.
    split_and!; [|done|done|intros id' Hne; upd; by rewrite lookup_insert_ne].
    split; upd; intros id' mk'; rewrite !lookup_insert;
      case_decide; subst; try apply Hf; try apply Hk; intros; simplify_eq; done.
Qed.

Lemma updateEntry_post current mkm un id v :
  is_u64 current → mkm_wf mkm → mkm_keys mkm !! id = Some v →
  loop_post current [(id, v)] mkm un (updateEntry current (mkm, un) (id, v)).
Proof.
  intros Hc Hwf Hv. unfold updateEntry.
  pose proof (mw_files _ Hwf _ _ (mw_keys _ Hwf _ _ Hv)) as Hok.
  destruct (MinerKey_Validate v current) eqn:Ev.
  - destruct (MinerKey_Update v current) as [[d v']|] eqn:Eu.
    2: { unfold MinerKey_Update in Eu. destruct Hok as [_ _ Hl _].
         rewrite (proj2 (Z.eqb_neq _ _)) in Eu by lia.
         by destruct (ForwardSecureUpdate _ _). }
    pose proof (mkm_wf_store mkm id v v' current d Hc Hwf Hv Eu) as (H1 & H2 & H3 & H4).
    set (mkm' := mkm <| mkm_keys ::= <[id := v']> |>) in *.
    assert ((if d =? 0 then (mkm', un) else (updateMinerKeyStore mkm' v', un))
            = (if d =? 0 then mkm' else updateMinerKeyStore mkm' v', un)) as ->
      by (by destruct (d =? 0)).
    split; cbn [fst snd]; [done|done| | | |].
    + intros id' Hid'. rewrite H2, lookup_insert_ne; [done|]. intros ->. apply Hid', list_elem_of_here.
    + intros id' w [= -> ->]%list_elem_of_singleton _. exists d, v'. by rewrite H2, lookup_insert_eq.
    + intros id'. split; [by left|]. intros [?|(w & [= -> ->]%list_elem_of_singleton & Hw)]; [done|].
      congruence.
    + intros id' Hid'. apply H4. intros ->. rewrite (Hid' v) in Ev; [done|apply list_elem_of_here].
  - split; cbn [fst snd]; [done|done|done| | |done].
    + intros id' w [= -> ->]%list_elem_of_singleton. congruence.
    + intros id'. rewrite elem_of_app, list_elem_of_singleton. split.
      * intros [?| ->]; [by left|]. right. exists v. by rewrite list_elem_of_singleton.
      * intros [?|(w & [= -> ->]%list_elem_of_singleton & _)]; auto.
Qed.

Lemma updateLoop_post current l mkm un :
  is_u64 current → mkm_wf mkm → NoDup l.*1 → (∀ id v, (id, v) ∈ l → mkm_keys mkm !! id = Some v) →
  loop_post current l mkm un (foldl (updateEntry current) (mkm, un) l).
Proof.
  intros Hc. revert mkm un. induction l as [|[id v] l IH]; intros mkm un Hwf Hnd Hl.
  { split; cbn; [done|done|done|by intros ? ? ?%elem_of_nil| |done].
    intros id. split; [by left|]. by intros [?|(? & ?%elem_of_nil & _)]. }
  rewrite fmap_cons in Hnd. apply NoDup_cons in Hnd as [Hfresh Hnd]. cbn [fst] in Hfresh. cbn [foldl].
  pose proof (updateEntry_post current mkm un id v Hc Hwf (Hl _ _ (list_elem_of_here _ _))) as H1.
  destruct (updateEntry current (mkm, un) (id, v)) as [mkm1 un1]. destruct H1 as [W1 C1 F1 V1 U1 X1].
  cbn [fst snd] in *.
  assert (∀ id', id' ≠ id → mkm_keys mkm1 !! id' = mkm_keys mkm !! id') as F1'.
  { intros id' Hid'. apply F1. by intros ->%list_elem_of_singleton. }
  assert (∀ id' v', (id', v') ∈ l → id' ≠ id) as Hne.
  { intros id' v' Hin ->. apply Hfresh, list_elem_of_fmap. by exists (id, v'). }
  destruct (IH mkm1 un1) as [W2 C2 F2 V2 U2 X2]; [done|done| |].
  { intros id' v' Hin. rewrite F1' by (by eapply Hne).
    apply Hl. by apply list_elem_of_further. }
  split; [done|congruence| | | |].
  - intros id' Hid'. rewrite fmap_cons, elem_of_cons in Hid'. cbn [fst] in Hid'.
    rewrite F2, F1'; tauto.
  - intros id' v' [[= -> ->]|Hin]%elem_of_cons Hv'; [|by apply V2].
    rewrite F2 by done. apply V1; [apply list_elem_of_here|done].
  - intros id'. rewrite U2, U1. split.
    + intros [[?|(w & [= -> ->]%list_elem_of_singleton & ?)]|(w & ? & ?)]; [by left|right..].
      * exists v. split; [apply list_elem_of_here|done].
      * exists w. split; [by apply list_elem_of_further|done].
    + intros [?|(w & [[= -> ->]|?]%elem_of_cons & ?)]; [by left; left|left; right|right].
      * exists v. split; [apply list_elem_of_here|done].
      * by exists w.
  - intros id' Hid'. rewrite X2, X1; [done| |].
    + intros w [= -> ->]%list_elem_of_singleton. apply Hid', list_elem_of_here.
    + intros w Hw. apply Hid'. by apply list_elem_of_further.
Qed.

(** The step never panics on a well-formed manager, and in closed form. *)
Lemma updateRoutine_post mkm current :
  is_u64 current → mkm_wf mkm →
  ∃ mkm', updateRoutine_step mkm current = Some mkm' ∧ mkm_wf mkm' ∧
    mkm_config mkm' = mkm_config mkm ∧
    (∀ id mk, mkm_keys mkm' !! id = Some mk →
      ∃ mk0 d, mkm_keys mkm !! id = Some mk0 ∧ MinerKey_Validate mk0 current = true ∧
               MinerKey_Update mk0 current = Some (d, mk)) ∧
    (∀ id mk0, mkm_keys mkm !! id = Some mk0 → MinerKey_Validate mk0 current = true →
       is_Some (mkm_keys mkm' !! id)) ∧
    (∀ id, mkm_keys mkm' !! id = None → mkm_files mkm' !! id = mkm_files mkm !! id).
Proof.
  intros Hc Hwf. unfold updateRoutine_step.
  assert (existsb (λ e, MinerKey_Validate e.2 current && (mk_Lifespan e.2 =? 0))
            (map_to_list (mkm_keys mkm)) = false) as ->.
  { apply not_true_iff_false. rewrite existsb_elem.
    intros ([id v] & Hin%elem_of_map_to_list & [_ Hz]%andb_true_iff). cbn in Hz.
    apply (mw_keys _ Hwf) in Hin. apply (mw_files _ Hwf) in Hin as [_ _ Hl _]. lia. }
  pose proof (updateLoop_post current (map_to_list (mkm_keys mkm)) mkm [] Hc Hwf) as Hloop.
  destruct Hloop as [W C F V U X].
  { apply NoDup_fst_map_to_list. }
  { intros id v. by rewrite elem_of_map_to_list. }
  destruct (foldl _ _ _) as [mkm1 un]. cbn [fst snd] in *.
  assert (∀ id mk0, mkm_keys mkm !! id = Some mk0 → MinerKey_Validate mk0 current = true → id ∉ un) as Hkeep.
  { intros id mk0 H0 Hv. rewrite U. intros [?%elem_of_nil|(v & Hv'%elem_of_map_to_list & ?)]; [done|congruence]. }
  eexists. split; [done|]. split; [|split; [by upd|split; [|split]]].
  - split; upd; [apply (mw_files _ W)|]. intros id mk. rewrite foldl_delete_lookup.
    case_decide; [done|]. apply (mw_keys _ W).
  - intros id mk. upd. rewrite foldl_delete_lookup. case_decide as Hun; [done|]. intros Hmk.
    destruct (mkm_keys mkm !! id) as [mk0|] eqn:E0.
    2: { rewrite F, E0 in Hmk; [done|].
         intros ([id' v] & -> & Hin%elem_of_map_to_list)%list_elem_of_fmap. cbn in E0. congruence. }
    assert ((id, mk0) ∈ map_to_list (mkm_keys mkm)) as Hin by (by rewrite elem_of_map_to_list).
    destruct (MinerKey_Validate mk0 current) eqn:Ev.
    + destruct (V id mk0 Hin Ev) as (d & v' & Hu & Hv'). exists mk0, d.
      rewrite Hmk in Hv'. injection Hv' as ->. done.
    + exfalso. apply Hun, U. right. by exists mk0.
  - intros id mk0 H0 Hv. upd. rewrite foldl_delete_lookup, decide_False by (by eapply Hkeep).
    destruct (V id mk0) as (d & v' & _ & Hv'); [by rewrite elem_of_map_to_list|done|by eexists].
  - intros id. upd. rewrite foldl_delete_lookup. intros Hn. apply X. intros v Hv%elem_of_map_to_list.
    destruct (MinerKey_Validate v current) eqn:Ev; [|done]. rewrite decide_False in Hn by (by eapply Hkeep).
    destruct (V id v) as (d & v' & _ & Hv'); [by rewrite elem_of_map_to_list|done|congruence].
Qed.

(** The managers a node can have. *)
Inductive mkm_reach (config : AlgorandConfig) : MinerKeyManager → Prop :=
| mr_new : mkm_reach config (NewMinerKeyManager config)
| mr_generate vrfKey keygen mkm miner coinbase start lifespan mkm' r :
    mkm_reach config mkm →
    0 < IntervalSize config → 0 < start → start + IntervalSize config < 2 ^ 64 → 0 ≤ lifespan →
    address_ok coinbase →
    MinerKeyManager_Generate vrfKey keygen mkm miner coinbase start lifespan = Some (mkm', r) →
    mkm_reach config mkm'
| mr_get mkm miner height :
    mkm_reach config mkm → mkm_reach config (GetMinerKey mkm miner height).1
| mr_head mkm current mkm' :
    mkm_reach config mkm → is_u64 current → updateRoutine_step mkm current = Some mkm' →
    mkm_reach config mkm'.

Lemma mkm_wf_generate vrfKey keygen mkm miner coinbase start lifespan mkm' r :
  mkm_wf mkm → 0 < IntervalSize (mkm_config mkm) → 0 < start →
  start + IntervalSize (mkm_config mkm) < 2 ^ 64 → 0 ≤ lifespan → address_ok coinbase →
  MinerKeyManager_Generate vrfKey keygen mkm miner coinbase start lifespan = Some (mkm', r) →
  mkm_wf mkm' ∧ mkm_config mkm' = mkm_config mkm.
Proof.
  intros Hwf HI Hs Hr Hl Hc. unfold MinerKeyManager_Generate.
  set (ls := if lifespan =? 0 then DefaultLifespan else lifespan).
  assert (0 < ls) by (unfold ls, DefaultLifespan; case_cmp; lia).
  unfold MaxLifespan. destruct (Z.ltb_spec 100 ls); [by intros [= <- <-]|].
  set (id := intervalId _ _ _).
  destruct (mkm_files mkm !! id) as [o|] eqn:Ef; [by intros [= <- <-]|]. upd.
  assert (∀ mk, mkm_keys mkm !! id ≠ Some mk) as Hnk.
  { intros mk Hk%(mw_keys _ Hwf). congruence. }
  assert (∀ e, (∀ mk, e = Some mk → entry_ok (mkm_config mkm) id mk) →
            mkm_wf (mkm <| mkm_files ::= <[id := e]> |>)) as Hput.
  { intros e He. split; upd; intros id' mk'; rewrite lookup_insert; case_decide as Hd; subst.
    - intros [= He']. by apply He.
    - apply (mw_files _ Hwf).
    - intros Hk. by destruct (Hnk mk').
    - apply (mw_keys _ Hwf). }
  destruct (generateMinerKey _ _ _ _ _ _ _) as [[[mv mk]|err]|] eqn:Eg; cbn [mbind option_bind]; [| |done].
  - intros [= <- <-]. split; [|done].
    assert (gen_wf vrfKey keygen (mkm_config mkm) miner coinbase start ls mv mk) as Hg.
    { split; (done || lia). }
    pose proof (generated_fields _ _ _ _ _ _ _ _ _ Hg) as (_ & _ & Emk).
    destruct (generated_vote_key _ _ _ _ _ _ _ _ _ Hg) as [Hkey _].
    assert ((mkm <| mkm_files ::= <[id := None]> |>) <| mkm_files ::= <[id := Some mk]> |>
            = mkm <| mkm_files ::= <[id := Some mk]> |>) as ->.
    { destruct mkm. unfold field_update. cbn. f_equal. apply insert_insert_eq. }
    apply Hput. intros mk' [= <-]. split; [|by rewrite Emk|by rewrite Emk|eauto].
    unfold MinerKey_id. rewrite Emk. cbn [mk_config mk_Start mk_Miner mk_End].
    unfold id, intervalId. by destruct (GetInterval _ _).
  - intros [= <- <-]. split; [|done]. by apply Hput.
Qed.

Lemma mkm_reach_wf config mkm : mkm_reach config mkm → mkm_wf mkm ∧ mkm_config mkm = config.
Proof.
  induction 1 as [|?????????? [IH1 IH2]|??? _ [IH1 IH2]|??? _ [IH1 IH2] Hc Hu].
  - split; [apply mkm_wf_new|done].
  - subst config. by eapply mkm_wf_generate.
  - split; [by apply mkm_wf_get|]. rewrite <- IH2. unfold GetMinerKey.
    by repeat case_match.
  - destruct (updateRoutine_post _ _ Hc IH1) as (m & Hm & Hwf & Hcfg & _).
    rewrite Hm in Hu. injection Hu as <-. split; [done|congruence].
Qed.
End manager_facts.

(** C36. Forward security of the loaded keys.  In every manager a node can reach,
    the reaction to a chain head at height [current] does not panic, and afterwards
    the keys in memory are those that were loaded and are valid at [current]; each is
    exactly the key its file holds, has no signature slot left for the offsets before
    that of [current], and has kept all its slots from there on.  No other file is
    touched: that of a key that was not loaded, or that is unloaded because its
    interval is over, keeps the past slots it had. *)
Theorem past_keys_erased `{CR : Crypto} config mkm current :
  mkm_reach config mkm → is_u64 current →
  ∃ mkm', updateRoutine_step mkm current = Some mkm' ∧
    (∀ id, is_Some (mkm_keys mkm' !! id) ↔
       ∃ mk0, mkm_keys mkm !! id = Some mk0 ∧ MinerKey_Validate mk0 current = true) ∧
    (∀ id mk, mkm_keys mkm' !! id = Some mk →
      MinerKey_Validate mk current = true ∧ mkm_files mkm' !! id = Some (Some mk) ∧
      ∃ mk0, mkm_keys mkm !! id = Some mk0 ∧
        ∀ o, ValidOffset (mk_VoteKey mk) o
             = ValidOffset (mk_VoteKey mk0) o && (current `div` mk_Lifespan mk <=? o)) ∧
    (∀ id, mkm_keys mkm' !! id = None → mkm_files mkm' !! id = mkm_files mkm !! id).
Proof.
  intros [Hwf _]%mkm_reach_wf Hc.
  destruct (updateRoutine_post mkm current Hc Hwf) as (mkm' & Hstep & Hwf' & _ & Hkeys & Hkept & Hfiles).
  exists mkm'. split; [done|]. split; [|split; [|done]].
  - intros id. split; [intros [mk Hmk]|intros (mk0 & H0 & Hv); by eapply Hkept].
    destruct (Hkeys id mk Hmk) as (mk0 & d & H0 & Hv & _). by exists mk0.
  - intros id mk Hmk. destruct (Hkeys id mk Hmk) as (mk0 & d & H0 & Hv & Hu).
    pose proof (mw_files _ Hwf _ _ (mw_keys _ Hwf _ _ H0)) as Hok.
    destruct (update_entry_ok _ _ _ _ _ _ Hc Hok Hu) as (_ & Hl & _ & Hval & Hoff).
    split; [by rewrite Hval|]. split; [by apply (mw_keys _ Hwf')|].
    exists mk0. rewrite Hl. done.
Qed.

(** A generation that fails leaves an empty key file behind: from then on the
    miner can neither load nor generate a key for that interval. *)
Theorem failed_generation_blocks `{CR : Crypto} vrfKey keygen mkm miner coinbase start lifespan mkm' :
  mkm_files mkm !! intervalId (mkm_config mkm) miner start = None →
  mkm_keys mkm !! intervalId (mkm_config mkm) miner start = None →
  MinerKeyManager_Generate vrfKey keygen mkm miner coinbase start lifespan
    = Some (mkm', inr InvalidStartLifespan) →
  ∀ vrfKey' keygen' coinbase' start' lifespan',
    intervalId (mkm_config mkm) miner start' = intervalId (mkm_config mkm) miner start →
    0 < lifespan' ≤ MaxLifespan →
    MinerKeyManager_Generate vrfKey' keygen' mkm' miner coinbase' start' lifespan'
      = Some (mkm', inr KeyExists) ∧
    GetMinerKey mkm' miner start' = (mkm', inr BadKeyFile).
Proof.
  intros Hf Hk Hgen vrfKey' keygen' coinbase' start' lifespan' Hid Hl.
  assert (mkm' = mkm <| mkm_files ::= <[intervalId (mkm_config mkm) miner start := None]> |>) as ->.
  { unfold MinerKeyManager_Generate in Hgen.
    set (ls := if lifespan =? 0 then _ else _) in Hgen.
    destruct (MaxLifespan <? ls); [done|]. rewrite Hf in Hgen. upd.
    destruct (generateMinerKey _ _ _ _ _ _ _) as [[[? ?]|?]|]; cbn [mbind option_bind] in Hgen;
      [done| |done]. by injection Hgen as <- _. }
  split.
  - unfold MinerKeyManager_Generate. rewrite (proj2 (Z.eqb_neq lifespan' 0)) by lia.
    rewrite (proj2 (Z.ltb_ge _ _)) by lia. upd. rewrite Hid. by rewrite lookup_insert_eq.
  - unfold GetMinerKey. upd. rewrite Hid, Hk. by rewrite lookup_insert_eq.
Qed.

(** ** A registered miner

    Account 100 registers a key with lifespan 10 from height 1 in an interval of
    1000 heights. *)
Module Sample.
Import Toy Registry Uniform.
Definition keygen (i : nat) : Z := 1000 + Z.of_nat i.
Definition generated : option ((MinerVerifier * MinerKey) + miner_error) :=
  generateMinerKey 77 keygen Registry.config 100 100 1 10.
Definition mv : MinerVerifier :=
  match generated with Some (inl (mv, _)) => mv | _ => mkMinerVerifier config 0 0 0 0 0 0 0 end.
Definition mk : MinerKey :=
  match generated with
  | Some (inl (_, mk)) => mk | _ => mkMinerKey config 0 0 0 0 0 0 (mkFSKey 0 0 [])
  end.
Definition state : MapState := mkMapState
  (list_to_map ((λ kv, ((MinerAddress, kv.1), kv.2)) <$> KeyValueStorage mv)) {[100 := 50]}.

Lemma gen_ok : gen_wf 77 keygen Registry.config 100 100 1 10 mv mk.
Proof. split; [vm_compute; intuition congruence..|]. vm_compute. reflexivity. Qed.

Lemma state_registers : registered state mv.
Proof.
  intros k v Hin. assert ((k, v) ∈ KeyValueStorage mv) as Hin' by exact Hin.
  vm_compute in Hin. repeat (apply elem_of_cons in Hin as [[= -> ->]|Hin]; [vm_compute; reflexivity|]).
  by apply elem_of_nil in Hin.
Qed.

Definition manager : MinerKeyManager :=
  match MinerKeyManager_Generate 77 keygen (NewMinerKeyManager Registry.config) 100 100 1 10 with
  | Some (mkm, _) => (GetMinerKey mkm 100 5).1
  | None => NewMinerKeyManager Registry.config
  end.

Lemma manager_reach : mkm_reach Registry.config manager.
Proof.
  unfold manager.
  destruct (MinerKeyManager_Generate _ _ _ _ _ _ _) as [[mkm r]|] eqn:E; [|constructor].
  apply mr_get. eapply mr_generate; [apply mr_new| | | | | |exact E]; vm_compute; intuition congruence.
Qed.
End Sample.

Import Toy Registry Uniform.

Lemma own_credential_accepted_witness : ∃ proof sig j,
  MinerKey_Sign (mk_updates Sample.mk [3; 25]) 25 [9] = Some (inl sig) ∧ 0 < j ∧
  VerifySignatureAndCredential (GetMinerVerifier Registry.config Sample.state 100 25) [9] sig
    (mkCredential 100 25 1 2 proof 0) Sample.state (2 ^ 50) 100 = Some (None, mkCredential 100 25 1 2 proof j).
Proof.
  destruct (MinerKey_Sortition (mk_updates Sample.mk [3; 25]) 25 1 2 (2 ^ 50) Sample.state 100)
    as [[[[hash proof] j]|err]|] eqn:E.
  2: { exfalso. revert E. vm_compute. discriminate. }
  2: { exfalso. revert E. vm_compute. discriminate. }
  assert (0 < j) as Hj.
  { destruct (Z.ltb_spec 0 j) as [|Hn]; [done|]. exfalso. revert E Hn. vm_compute.
    intros [= _ _ <-]. intros H. apply H. reflexivity. }
  destruct (own_credential_accepted 77 Sample.keygen Registry.config 100 100 1 10 Sample.mv Sample.mk
    [3; 25] 25 1 2 (2 ^ 50) Sample.state 100 hash proof j [9] Sample.gen_ok Sample.state_registers)
    as (sig & Hsig & Hv).
  - repeat constructor; lia.
  - repeat constructor; lia.
  - vm_compute. split; [discriminate|reflexivity].
  - vm_compute. reflexivity.
  - exact E.
  - exact Hj.
  - exists proof, sig, j. split; [exact Hsig|]. split; [exact Hj|]. apply Hv.
Defined.

Lemma past_keys_erased_witness : ∃ mkm' mk, updateRoutine_step Sample.manager 50 = Some mkm' ∧
  mkm_keys mkm' !! intervalId Registry.config 100 5 = Some mk ∧
  mkm_files mkm' !! intervalId Registry.config 100 5 = Some (Some mk) ∧ MinerKey_Validate mk 50 = true.
Proof.
  destruct (past_keys_erased Registry.config Sample.manager 50 Sample.manager_reach) as (mkm' & H & Hin & Hk & _).
  - split; lia.
  - destruct (proj2 (Hin (intervalId Registry.config 100 5))) as [mk Hmk].
    + exists Sample.mk. split; vm_compute; reflexivity.
    + exists mkm', mk. split; [exact H|]. split; [exact Hmk|]. destruct (Hk _ _ Hmk) as (Hv & Hf & _).
      split; [exact Hf|exact Hv].
Defined.

(** The key of an interval that is over is unloaded, and its file keeps the slots it
    had: at height 1500 the slot of height 5 is still on the disk. *)
Theorem expired_file_keeps_slots : ∃ mkm' mk,
  updateRoutine_step Sample.manager 1500 = Some mkm' ∧ mkm_keys mkm' = ∅ ∧
  mkm_files mkm' !! intervalId Registry.config 100 5 = Some (Some mk) ∧
  ValidOffset (mk_VoteKey mk) (5 `div` mk_Lifespan mk) = true.
Proof.
  eexists _, Sample.mk. split; [vm_compute; reflexivity|]. split_and!; vm_compute; reflexivity.
Qed.
