(* ===== verification/Engine.v ===== *)
(** * Engine: the consensus engine of src/consensus/algorand/algorand.go

    The rules a header obeys, the seal made of cert votes, what a worker checks of one
    header of a batch, and the rewards. *)

From S2P Require Import Prelude Bytes Params Crypto MinerContract ForwardSecure Types Sortition MinerKeys.

Local Open Scope Z_scope.

(** src/params/protocol_params.go *)
Definition MaximumExtraDataSize : Z := 32.
Definition GasLimitBoundDivisor : Z := 1024.
Definition MinGasLimit : Z := 63000000.

(** [int64(x)] and [uint64(x)] *)
Definition s64 (x : Z) : Z := if u64 x <? 2 ^ 63 then u64 x else u64 x - 2 ^ 64.

Inductive header_error :=
| ErrUnknownAncestor | BadVersion | BadDifficulty | ExtraTooLong | ErrFutureBlock | OldTimestamp
| GasLimitTooBig | GasUsedTooBig | BadGasLimit | ErrInvalidNumber
| ProofError | StateError | VoteError (e : miner_error) | DuplicateAddress | WeightTooLow
| ProposerError (e : miner_error) | SeedError (e : miner_error) | HasUncles.

(** The chain the engine reads: [GetHeader] and [StateAtHeader] of
    [consensus.ChainReader], [core.VerifyProof] of a certificate's trie proof
    ([None] is success), and the state made of the proof's nodes. *)
Class ChainReader (StateDB : Type) := {
  GetHeader : Hash → Z → option Header;
  StateAtHeader : Header → option StateDB;
  VerifyProof : Hash → Z → Address → list CertVoteStorage → NodeList → option header_error;
  ProofState : Hash → NodeList → StateDB
}.

Section engine.
Context `{CR : Crypto} `{BO : Boost} {StateDB : Type} `{SR : !StateReader StateDB}.
Context `{CH : !ChainReader StateDB}.
Context (config : AlgorandConfig).

Definition Author (header : Header) : Address := Certificate_Proposer (hd_Certificate header).

Definition VerifyUncles (block : Block) : option header_error :=
  match bl_uncles block with [] => None | _ => Some HasUncles end.

(** The loop over the cert votes: the weight so far and the addresses seen. *)
Fixpoint verifyVotes (stateDb : StateDB) (height : Z) (certificate : Certificate) (parent : Header)
    (votes : list CertVoteStorage) (weightSum : Z) (addrSet : gset Address) :
    option ((Z * gset Address) + header_error) :=
  match votes with
  | [] => Some (inl (weightSum, addrSet))
  | certVote :: votes =>
      let vote := NewVoteDataFromCertVoteStorage certVote height (ct_Round certificate)
                    (ct_Value certificate) in
      let mv := GetMinerVerifier config stateDb (vt_Address vote) (vt_Height vote) in
      '(err, credential) ← VerifySignatureAndCredential mv (VoteData_SignBytes vote)
        (vt_ESignValue vote) (vt_Credential vote) stateDb (Header_Seed parent)
        (hd_TotalBalanceOfMiners parent);
      match err with
      | Some err => Some (inr (VoteError err))
      | None =>
          verifyVotes stateDb height certificate parent votes
            (add64 weightSum (cr_Weight credential))
            ({[cs_Address (cv_Credential certVote)]} ∪ addrSet)
      end
  end.

(** The state the votes are checked against. *)
Definition sealState (header parent : Header) : StateDB + header_error :=
  let height := u64 (hd_Number header) in
  let certificate := hd_Certificate header in
  match ct_TrieProof certificate with
  | _ :: _ =>
      match VerifyProof (hd_Root parent) height (Certificate_Proposer certificate)
              (ct_CertVoteSet certificate) (ct_TrieProof certificate) with
      | Some err => inr err
      | None => inl (ProofState (hd_Root parent) (ct_TrieProof certificate))
      end
  | [] =>
      match StateAtHeader parent with
      | None => inr StateError
      | Some stateDb => inl stateDb
      end
  end.

(** [VerifySeal]: [Some None] is acceptance, [None] a run-time panic. *)
Definition VerifySeal (header parent : Header) : option (option header_error) :=
  let height := u64 (hd_Number header) in
  let certificate := hd_Certificate header in
  match sealState header parent with
  | inr err => Some (Some err)
  | inl stateDb =>
      r ← verifyVotes stateDb height certificate parent (ct_CertVoteSet certificate) 0 ∅;
      match r with
      | inr err => Some (Some err)
      | inl (weightSum, addrSet) =>
          if negb (size addrSet =? length (ct_CertVoteSet certificate))%nat
          then Some (Some DuplicateAddress)
          else
            let '(threshold, _) := GetCommitteeNumber height RoundStep3Certifying in
            if weightSum <? threshold then Some (Some WeightTooLow)
            else
              let proposerVerifier :=
                GetMinerVerifier config stateDb (Certificate_Proposer certificate) height in
              let hash := Header_Hash header in
              let proposalLeader :=
                NewProposalLeaderDataFromStorage hash height (ct_Proposal certificate) in
              '(err, _) ← VerifySignatureAndCredential proposerVerifier
                (ProposalLeaderData_SignBytes proposalLeader) (pl_ESignValue proposalLeader)
                (pl_Credential proposalLeader) stateDb (Header_Seed parent)
                (hd_TotalBalanceOfMiners parent);
              match err with
              | Some err => Some (Some (ProposerError err))
              | None =>
                  Some (match VerifySeed proposerVerifier height (Header_Seed parent)
                                (Header_Hash parent) (Header_Seed header)
                                (Certificate_SeedProof certificate) with
                        | Some err => Some (SeedError err)
                        | None => None
                        end)
              end
      end
  end.

(** [now] is the wall clock in seconds. *)
Definition verifyHeader (now : Z) (header parent : Header) (seal : bool) :
    option (option header_error) :=
  if negb (Header_Version header =? ConsensusVersion) then Some (Some BadVersion)
  else if negb (hd_Difficulty header =? 1) then Some (Some BadDifficulty)
  else if MaximumExtraDataSize <? Z.of_nat (length (hd_Extra header)) then Some (Some ExtraTooLong)
  else if u64 (now + 15) <? hd_Time header then Some (Some ErrFutureBlock)
  else if hd_Time header <=? hd_Time parent then Some (Some OldTimestamp)
  else if 0x7fffffffffffffff <? hd_GasLimit header then Some (Some GasLimitTooBig)
  else if hd_GasLimit header <? hd_GasUsed header then Some (Some GasUsedTooBig)
  else
    let diff := s64 (s64 (hd_GasLimit parent) - s64 (hd_GasLimit header)) in
    let diff := if diff <? 0 then s64 (diff * -1) else diff in
    let limit := hd_GasLimit parent `div` GasLimitBoundDivisor in
    if (limit <=? u64 diff) || (hd_GasLimit header <? MinGasLimit) then Some (Some BadGasLimit)
    else if negb (hd_Number header - hd_Number parent =? 1) then Some (Some ErrInvalidNumber)
    else if seal then VerifySeal header parent
    else Some None.

Definition VerifyHeader (now : Z) (header : Header) (seal : bool) : option (option header_error) :=
  let number := u64 (hd_Number header) in
  match GetHeader (Header_Hash header) number with
  | Some _ => Some None
  | None =>
      match GetHeader (hd_ParentHash header) (sub64 number 1) with
      | None => Some (Some ErrUnknownAncestor)
      | Some parent => verifyHeader now header parent seal
      end
  end.

(** [Prepare] sets the difficulty ([CalcDifficulty] is always 1). *)
Definition Prepare (header : Header) : Header + header_error :=
  match GetHeader (hd_ParentHash header) (sub64 (u64 (hd_Number header)) 1) with
  | None => inr ErrUnknownAncestor
  | Some _ => inl (header <| hd_Difficulty := 1 |>)
  end.

(** The body of a worker of [VerifyHeaders]: the result for one index. *)
Definition verifyIndex (now : Z) (headers : list Header) (seals : list bool) (index : nat) :
    option (option header_error) :=
  header ← headers !! index;
  match GetHeader (Header_Hash header) (u64 (hd_Number header)) with
  | Some _ => Some None
  | None =>
      let parent :=
        match index with
        | O => GetHeader (hd_ParentHash header) (sub64 (u64 (hd_Number header)) 1)
        | S index' =>
            match headers !! index' with
            | Some prev => if Header_Hash prev =? hd_ParentHash header then Some prev else None
            | None => None
            end
        end in
      match parent with
      | None => Some (Some ErrUnknownAncestor)
      | Some parent => seal ← seals !! index; verifyHeader now header parent seal
      end
  end.
End engine.

(** ** Rewards *)

Definition BigEther : Z := 10 ^ 18.
Definition eidosFirstYearBlockReward : Z := 40 * BigEther.
Definition eidosSecondYearBlockReward : Z := 20 * BigEther.
Definition eidosSteadyBlockReward : Z := 10 * BigEther.

Definition EidosBlockReward (BlockYear num : Z) : Z :=
  let height := u64 num in
  if height <=? BlockYear then eidosFirstYearBlockReward
  else if height <=? mul64 2 BlockYear then eidosSecondYearBlockReward
  else eidosSteadyBlockReward.

(** What [Finalize] asks of the account state: [AddBalance],
    [IntermediateRoot] and, after it, [TotalBalanceOfMiners]. *)
Class StateWriter (StateDB : Type) := {
  AddBalance : StateDB → Address → Z → StateDB;
  IntermediateRoot : StateDB → bool → Hash * StateDB;
  TotalBalanceOfMiners : StateDB → Z
}.

(** The tries and the bloom filter over the body of a block. *)
Class BodyHash (Receipts : Type) := {
  no_receipts : Receipts → bool;                    (* len(receipts) == 0 *)
  DeriveSha_Transactions : list Transaction → Hash;
  DeriveSha_Receipts : Receipts → Hash;
  CreateBloom : Receipts → Z
}.

Section finalize.
Context `{CR : Crypto} {StateDB Receipts : Type} `{SW : !StateWriter StateDB}.
Context `{BH : !BodyHash Receipts}.

Definition EmptyRootHash : Hash := DeriveSha_Transactions [].

(** [CalcUncleHash(nil)] *)
Definition EmptyUncleHash : Hash := keccak256 (rlp_list []).

(** [NewBlock] without uncles. *)
Definition NewBlock (header : Header) (txs : list Transaction) (receipts : Receipts) : Block :=
  let header := header <| hd_TxHash :=
    match txs with [] => EmptyRootHash | _ => DeriveSha_Transactions txs end |> in
  let header :=
    if no_receipts receipts then header <| hd_ReceiptHash := EmptyRootHash |>
    else header <| hd_ReceiptHash := DeriveSha_Receipts receipts |>
                <| hd_Bloom := CreateBloom receipts |> in
  mkBlock (header <| hd_UncleHash := EmptyUncleHash |>) [] txs.

Definition accumulateRewards (BlockYear : Z) (state : StateDB) (header : Header) : StateDB :=
  AddBalance state (hd_Coinbase header) (EidosBlockReward BlockYear (hd_Number header)).

(** The block, the header and the state the caller shares with it. *)
Definition Finalize (BlockYear : Z) (IsEIP158 : Z → bool) (header : Header) (state : StateDB)
    (txs : list Transaction) (receipts : Receipts) : Block * Header * StateDB :=
  let state := accumulateRewards BlockYear state header in
  let '(root, state) := IntermediateRoot state (IsEIP158 (hd_Number header)) in
  let header := header <| hd_Root := root |>
                       <| hd_TotalBalanceOfMiners := TotalBalanceOfMiners state |> in
  (NewBlock header txs receipts, header, state).
End finalize.

(** ** The gas limit of the next block (src/core/block_validator.go) *)

Definition CalcGasLimit (parent : Block) (gasFloor gasCeil : Z) : Z :=
  let GasUsed := hd_GasUsed (bl_header parent) in
  let GasLimit := hd_GasLimit (bl_header parent) in
  let contrib := add64 GasUsed (GasUsed `div` 2) `div` GasLimitBoundDivisor in
  let decay := sub64 (GasLimit `div` GasLimitBoundDivisor) 1 in
  let limit := add64 (sub64 GasLimit decay) contrib in
  let limit := if limit <? MinGasLimit then MinGasLimit else limit in
  if limit <? gasFloor then
    let limit := add64 GasLimit decay in
    if gasFloor <? limit then gasFloor else limit
  else if gasCeil <? limit then
    let limit := sub64 GasLimit decay in
    if limit <? gasCeil then gasCeil else limit
  else limit.

(** The gas limit a miner computes for its block is one that [verifyHeader]
    accepts, whatever floor and ceiling the miner is configured with (a ceiling of
    at least the minimum): it is at least the minimum, fits [int64] and differs from
    the parent's by less than a 1024th of it. *)
Theorem gas_limit_accepted parent gasFloor gasCeil :
  let L := hd_GasLimit (bl_header parent) in
  MinGasLimit ≤ L < 2 ^ 62 → 0 ≤ hd_GasUsed (bl_header parent) ≤ L → is_u64 gasFloor → MinGasLimit ≤ gasCeil →
  let L' := CalcGasLimit parent gasFloor gasCeil in
  MinGasLimit ≤ L' < 2 ^ 63 ∧ Z.abs (L' - L) < L `div` 1024.
Proof.
  intros L HL HU Hf Hceil. unfold CalcGasLimit. fold L. set (U := hd_GasUsed (bl_header parent)) in *.
  unfold GasLimitBoundDivisor, MinGasLimit, is_u64 in *.
  assert (0 ≤ U `div` 2 ≤ U) as HU2 by (split; [apply Z.div_pos|apply Z.div_le_upper_bound]; lia).
  rewrite (add64_id U) by (unfold is_u64; lia).
  assert (7 ≤ L `div` 1024) as Hq by (apply Z.div_le_lower_bound; lia).
  assert (L `div` 1024 ≤ L) as Hq' by (apply Z.div_le_upper_bound; lia).
  assert (L < 1024 * (L `div` 1024) + 1024) as HLq
    by (pose proof (Z.mod_pos_bound L 1024); pose proof (Z.div_mod L 1024); lia).
  set (q := L `div` 1024) in *. set (k := (U + U `div` 2) `div` 1024).
  assert (0 ≤ k ≤ 2 * q - 2) as Hk.
  { split; [apply Z.div_pos; lia|]. apply Z.lt_succ_r. apply Z.div_lt_upper_bound; [lia|].
    pose proof (Z.mul_div_le U 2 ltac:(lia)). lia. }
  rewrite (sub64_id q) by (unfold is_u64; lia). rewrite (sub64_id L) by (unfold is_u64; lia).
  rewrite (add64_id _ k) by (unfold is_u64; lia). rewrite (add64_id L) by (unfold is_u64; lia).
  cbn zeta. destruct (Z.ltb_spec (L - (q - 1) + k) 63000000); repeat case_cmp; lia.
Qed.

(** ** What an accepted header satisfies *)

Lemma s64_id x : - 2 ^ 63 ≤ x < 2 ^ 63 → s64 x = x.
Proof.
  intros Hx. unfold s64, u64. destruct (Z.le_gt_cases 0 x).
  - rewrite Z.mod_small by lia. by rewrite (proj2 (Z.ltb_lt _ _)) by lia.
  - assert (x `mod` 2 ^ 64 = x + 2 ^ 64) as ->.
    { symmetry. apply (Z.mod_unique _ _ (-1)); lia. }
    rewrite (proj2 (Z.ltb_ge _ _)) by lia. lia.
Qed.

Section header_facts.
Context `{CR : Crypto} `{BO : Boost} {StateDB : Type} `{SR : !StateReader StateDB}.
Context `{CH : !ChainReader StateDB}.

(** The rules of a header, in plain arithmetic. *)
Record header_rules (now : Z) (header parent : Header) : Prop := {
  hr_version : Header_Version header = ConsensusVersion;
  hr_difficulty : hd_Difficulty header = 1;
  hr_extra : (length (hd_Extra header) ≤ 32)%nat;
  hr_time : hd_Time parent < hd_Time header ≤ now + 15;
  hr_gas : hd_GasUsed header ≤ hd_GasLimit header;
  hr_limit : MinGasLimit ≤ hd_GasLimit header < 2 ^ 63;
  hr_bound : Z.abs (hd_GasLimit header - hd_GasLimit parent) < hd_GasLimit parent `div` 1024;
  hr_number : hd_Number header = hd_Number parent + 1
}.

Lemma gas_diff (h p : Z) :
  0 ≤ p < 2 ^ 63 → 0 ≤ h < 2 ^ 63 →
  let diff := s64 (s64 p - s64 h) in
  u64 (if diff <? 0 then s64 (diff * -1) else diff) = Z.abs (h - p).
Proof.
  intros Hp Hh. rewrite (s64_id p), (s64_id h) by lia. rewrite (s64_id (p - h)) by lia. cbn zeta.
  destruct (Z.ltb_spec (p - h) 0); [rewrite s64_id by lia|]; rewrite u64_id by (unfold is_u64; lia); lia.
Qed.

Lemma verifyHeader_rules config now header parent :
  0 ≤ now → now + 15 < 2 ^ 64 → 0 ≤ hd_GasLimit parent < 2 ^ 63 → 0 ≤ hd_GasLimit header →
  header_rules now header parent → ∀ seal,
  verifyHeader config now header parent seal
  = if seal then VerifySeal config header parent else Some None.
Proof.
  intros Hn0 Hn Hp Hh [H1 H2 H3 H4 H5 H6 H7 H8] seal. unfold verifyHeader.
  rewrite H1, H2, Z.eqb_refl. cbn [negb]. change (1 =? 1) with true. cbn [negb].
  unfold MaximumExtraDataSize, GasLimitBoundDivisor.
  rewrite (proj2 (Z.ltb_ge 32 _)) by lia.
  rewrite u64_id by (unfold is_u64; lia). rewrite (proj2 (Z.ltb_ge (now + 15) _)) by lia.
  rewrite (proj2 (Z.leb_gt _ _)) by lia. rewrite (proj2 (Z.ltb_ge _ (hd_GasLimit header))) by lia.
  rewrite (proj2 (Z.ltb_ge (hd_GasLimit header) (hd_GasUsed header))) by lia.
  rewrite gas_diff by lia. rewrite (proj2 (Z.leb_gt _ _)) by lia.
  rewrite (proj2 (Z.ltb_ge _ MinGasLimit)) by lia. cbn [orb].
  rewrite (proj2 (Z.eqb_eq _ 1)) by lia. done.
Qed.

Lemma verifyHeader_sound config now header parent seal :
  0 ≤ now → now + 15 < 2 ^ 64 → 0 ≤ hd_GasLimit parent < 2 ^ 63 → 0 ≤ hd_GasLimit header →
  verifyHeader config now header parent seal = Some None →
  header_rules now header parent ∧ (seal = true → VerifySeal config header parent = Some None).
Proof.
  intros Hn0 Hn Hp Hh. unfold verifyHeader. rewrite u64_id by (unfold is_u64; lia).
  destruct (Z.eqb_spec (Header_Version header) ConsensusVersion); [|done]. cbn [negb].
  destruct (Z.eqb_spec (hd_Difficulty header) 1); [|done]. cbn [negb].
  unfold MaximumExtraDataSize, GasLimitBoundDivisor.
  destruct (Z.ltb_spec 32 (Z.of_nat (length (hd_Extra header)))); [done|].
  destruct (Z.ltb_spec (now + 15) (hd_Time header)); [done|].
  destruct (Z.leb_spec (hd_Time header) (hd_Time parent)); [done|].
  destruct (Z.ltb_spec 0x7fffffffffffffff (hd_GasLimit header)); [done|].
  destruct (Z.ltb_spec (hd_GasLimit header) (hd_GasUsed header)); [done|].
  rewrite gas_diff by lia.
  destruct (Z.leb_spec (hd_GasLimit parent `div` 1024) (Z.abs (hd_GasLimit header - hd_GasLimit parent)));
    cbn [orb]; [done|].
  destruct (Z.ltb_spec (hd_GasLimit header) MinGasLimit); [done|].
  destruct (Z.eqb_spec (hd_Number header - hd_Number parent) 1); [|done]. cbn [negb].
  intros Hs. split; [|by intros ->]. split; (done || lia).
Qed.
End header_facts.

(** [verifyHeader] accepts exactly the headers that follow the rules:
    version and difficulty 1, at most 32 extra bytes, a timestamp after the
    parent's and at most 15 seconds ahead, gas used within the limit, a limit of
    at least the minimum that fits [int64] and differs from the parent's by less
    than one 1024th of it, the parent's number plus one, and, when asked for, an
    accepted seal. *)
Theorem verifyHeader_correct `{CR : Crypto} `{BO : Boost} {StateDB : Type}
    `{SR : !StateReader StateDB} `{CH : !ChainReader StateDB} config now header parent seal :
  0 ≤ now → now + 15 < 2 ^ 64 → 0 ≤ hd_GasLimit parent < 2 ^ 63 → 0 ≤ hd_GasLimit header →
  verifyHeader config now header parent seal = Some None ↔
  header_rules now header parent ∧ (seal = true → VerifySeal config header parent = Some None).
Proof.
  intros Hn0 Hn Hp Hh. split; [by apply verifyHeader_sound|].
  intros [Hr Hs]. rewrite (verifyHeader_rules config now header parent Hn0 Hn Hp Hh Hr).
  destruct seal; [by apply Hs|done].
Qed.

(** ** What an accepted seal proves *)

Lemma binaryLoop_nonneg fuel le low high j :
  0 ≤ low → binaryLoop fuel le low high = Some j → 0 ≤ j.
Proof.
  revert low high. induction fuel as [|fuel IH]; intros low high Hl; cbn [binaryLoop]; [done|].
  destruct (low <? high); [|by intros [= <-]]. destruct (le _); apply IH; [|done].
  apply u64_range.
Qed.

Section seal_facts.
Context `{CR : Crypto} `{BO : Boost} {StateDB : Type} `{SR : !StateReader StateDB}.
Context `{CH : !ChainReader StateDB}.
Context (config : AlgorandConfig).

Lemma Choose_nonneg hash n th t W j : Choose hash n th t W = Some j → 0 ≤ j.
Proof.
  unfold Choose, SortitionByBinarySearch. destruct (negb _); [done|].
  destruct (dist_t n t W) as [dist|]; [|done]. cbn [mbind option_bind].
  destruct (flt _ _); [by intros [= <-]|]. apply binaryLoop_nonneg. lia.
Qed.

Lemma binaryLoop_le fuel le low high j :
  0 ≤ low → Z.max low high < 2 ^ 64 - 1 → binaryLoop fuel le low high = Some j → j ≤ Z.max low high.
Proof.
  revert low high. induction fuel as [|fuel IH]; intros low high Hl Hh; cbn [binaryLoop]; [done|].
  destruct (Z.ltb_spec low high); [|intros [= <-]; lia].
  assert (0 ≤ (high - low) `div` 2 < high - low) as Hd.
  { split; [apply Z.div_pos; lia|apply Z.div_lt_upper_bound; lia]. }
  rewrite sub64_id by (unfold is_u64; lia). rewrite !add64_id by (unfold is_u64; lia).
  destruct (le _); intros Hj; apply IH in Hj; lia.
Qed.

(** Nobody draws more tickets than the committee has seats. *)
Lemma Choose_le hash n th t W j :
  0 ≤ t ≤ 5000 → Choose hash n th t W = Some j → j ≤ 5000.
Proof.
  intros Ht. unfold Choose, SortitionByBinarySearch, MaxJ. destruct (negb _); [done|].
  destruct (dist_t n t W) as [dist|]; [|done]. cbn [mbind option_bind].
  destruct (flt _ _); [intros [= <-]; lia|]. rewrite add64_id by (unfold is_u64; lia).
  intros Hj%binaryLoop_le; lia.
Qed.

(** What the check of a signature and a credential establishes: the speaker is
    registered at the height, signed these bytes with the sub key of the
    height's slot, and drew the weight [w] with its own VRF key. *)
Record speaks (stateDb : StateDB) (seed total : Z) (miner : Address) (height round step proof : Z)
    (data : bytes) (sig : ForwardSecureSignature) (w : Z) : Prop := {
  sp_registered : MinerVerifier_Validate (GetMinerVerifier config stateDb miner height) height = true;
  sp_lifespan : mv_lifespan (GetMinerVerifier config stateDb miner height) ≠ 0;
  sp_signed : let mv := GetMinerVerifier config stateDb miner height in
    ForwardSecureVerify (mv_voteVerifier mv) (height `div` mv_lifespan mv) data sig = true;
  sp_drawn : ∃ hash ow tw,
    VrfVerify256 (mv_vrfVerifier (GetMinerVerifier config stateDb miner height)) proof
      (sortitionData_Bytes miner height round step seed) = Some hash ∧
    GetWeight config miner stateDb total hash = Some (ow, tw) ∧
    Choose hash ow (GetCommitteeNumber height step).1 (GetCommitteeNumber height step).2 tw = Some w;
  sp_weight : 0 < w
}.

Lemma speaks_le stateDb seed total miner height round step proof data sig w :
  speaks stateDb seed total miner height round step proof data sig w → w ≤ 5000.
Proof.
  intros [_ _ _ (hash & ow & tw & _ & _ & Hc) _]. eapply Choose_le; [|done].
  apply GetCommitteeNumber_size.
Qed.

Lemma GetMinerVerifier_fields stateDb miner height :
  mv_config (GetMinerVerifier config stateDb miner height) = config ∧
  mv_miner (GetMinerVerifier config stateDb miner height) = miner.
Proof.
  unfold GetMinerVerifier. by destruct (MinerContract_Get config stateDb height miner) as [[[[??]?]?]?].
Qed.

Lemma VerifySignatureAndCredential_ok stateDb seed total c data sig c' :
  VerifySignatureAndCredential (GetMinerVerifier config stateDb (cr_Address c) (cr_Height c)) data sig c
    stateDb seed total = Some (None, c') →
  ∃ w, c' = c <| cr_Weight := w |> ∧
    speaks stateDb seed total (cr_Address c) (cr_Height c) (cr_Round c) (cr_Step c) (cr_Proof c)
      data sig w.
Proof.
  destruct (GetMinerVerifier_fields stateDb (cr_Address c) (cr_Height c)) as [Hcfg Hm].
  unfold VerifySignatureAndCredential, VerifySignature, VerifySortition. rewrite Hcfg, Hm.
  destruct (MinerVerifier_Validate _ _) eqn:Ev; cbn [negb mbind option_bind]; [|done].
  destruct (Z.eqb_spec (mv_lifespan (GetMinerVerifier config stateDb (cr_Address c) (cr_Height c))) 0)
    as [|Hl]; [done|]. cbn [mbind option_bind].
  destruct (ForwardSecureVerify _ _ _ _) eqn:Es; [|done].
  destruct (VrfVerify256 _ _ _) as [hash|] eqn:Eh; [|done].
  destruct (GetWeight _ _ _ _ _) as [[ow tw]|] eqn:Ew; [|done]. cbn [mbind option_bind].
  destruct (GetCommitteeNumber _ _) as [th size] eqn:Ec.
  destruct (Choose _ _ _ _ _) as [j|] eqn:Ej; [|done]. cbn [mbind option_bind].
  pose proof (Choose_nonneg _ _ _ _ _ _ Ej). destruct (Z.eqb_spec j 0); [done|].
  intros [= <-]. exists j. split; [done|]. split; [done|done|done| |lia].
  exists hash, ow, tw. by rewrite Ec.
Qed.

(** The check accepts whoever speaks. *)
Lemma VerifySignatureAndCredential_complete stateDb seed total c data sig w :
  speaks stateDb seed total (cr_Address c) (cr_Height c) (cr_Round c) (cr_Step c) (cr_Proof c)
    data sig w →
  VerifySignatureAndCredential (GetMinerVerifier config stateDb (cr_Address c) (cr_Height c)) data sig c
    stateDb seed total = Some (None, c <| cr_Weight := w |>).
Proof.
  intros [Hr Hl Hs (hash & ow & tw & Hv & Hw & Hc) Hp].
  destruct (GetMinerVerifier_fields stateDb (cr_Address c) (cr_Height c)) as [Hcfg Hm].
  unfold VerifySignatureAndCredential, VerifySignature, VerifySortition. rewrite Hcfg, Hm, Hr.
  rewrite (proj2 (Z.eqb_neq _ _) Hl). cbn [negb mbind option_bind]. cbn zeta in Hs. rewrite Hs.
  rewrite Hv, Hw. cbn [mbind option_bind].
  destruct (GetCommitteeNumber _ _) as [th size]. cbn [fst snd] in Hc. rewrite Hc.
  cbn [mbind option_bind]. by rewrite (proj2 (Z.eqb_neq w 0)) by lia.
Qed.

(** A cert vote of a certificate, with its weight. *)
Definition cert_vote_speaks (stateDb : StateDB) (parent : Header) (height : Z) (c : Certificate)
    (cv : CertVoteStorage) (w : Z) : Prop :=
  speaks stateDb (Header_Seed parent) (hd_TotalBalanceOfMiners parent)
    (cs_Address (cv_Credential cv)) height (ct_Round c) RoundStep3Certifying
    (cs_Proof (cv_Credential cv)) (be_bytes 32 (ct_Value c)) (cv_ESignValue cv) w.

Lemma verifyVotes_ok stateDb height c parent votes sum0 set0 sum set :
  0 ≤ sum0 →
  verifyVotes config stateDb height c parent votes sum0 set0 = Some (inl (sum, set)) →
  ∃ ws, Forall2 (cert_vote_speaks stateDb parent height c) votes ws ∧
    sum ≤ sum0 + sumZ id ws ∧
    set = list_to_set ((λ cv, cs_Address (cv_Credential cv)) <$> votes) ∪ set0.
Proof.
  revert sum0 set0. induction votes as [|cv votes IH]; intros sum0 set0 Hs; cbn [verifyVotes].
  { intros [= <- <-]. exists []. split; [constructor|]. rewrite sumZ_nil. split; [lia|]. set_solver. }
  destruct (VerifySignatureAndCredential _ _ _ _ _ _ _) as [[[err|] c']|] eqn:Ev; [done| |done].
  cbn [mbind option_bind]. intros Hrec.
  apply VerifySignatureAndCredential_ok in Ev as (w & -> & Hsp). upd.
  pose proof (sp_weight _ _ _ _ _ _ _ _ _ _ _ Hsp) as Hw.
  assert (0 ≤ add64 sum0 w ≤ sum0 + w) as Hadd.
  { unfold add64, u64. split; [apply Z.mod_pos_bound; lia|apply Z.mod_le; lia]. }
  apply IH in Hrec as (ws & Hws & Hsum & ->); [|lia].
  exists (w :: ws). split; [by constructor|]. rewrite sumZ_cons. split; [unfold id at 1; lia|].
  rewrite fmap_cons. cbn [list_to_set]. set_solver.
Qed.

(** Votes of speakers are accepted and added up. *)
Lemma verifyVotes_complete stateDb height c parent votes ws sum0 set0 :
  Forall2 (cert_vote_speaks stateDb parent height c) votes ws → 0 ≤ sum0 → sum0 + sumZ id ws < 2 ^ 64 →
  verifyVotes config stateDb height c parent votes sum0 set0
  = Some (inl (sum0 + sumZ id ws, list_to_set ((λ cv, cs_Address (cv_Credential cv)) <$> votes) ∪ set0)).
Proof.
  intros Hws. revert sum0 set0. induction Hws as [|cv w votes ws Hsp Hws IH]; intros sum0 set0 H0 Hlt.
  { cbn [verifyVotes]. rewrite sumZ_nil, Z.add_0_r. repeat f_equal. set_solver. }
  rewrite sumZ_cons in *. unfold id in Hlt at 1. pose proof (sp_weight _ _ _ _ _ _ _ _ _ _ _ Hsp).
  assert (0 ≤ sumZ id ws).
  { apply sumZ_nonneg. intros x Hx. unfold id. apply list_elem_of_lookup in Hx as [i Hi].
    destruct (Forall2_lookup_r _ _ _ _ _ Hws Hi) as (cv' & _ & Hsp').
    pose proof (sp_weight _ _ _ _ _ _ _ _ _ _ _ Hsp'). lia. }
  cbn [verifyVotes].
  set (vt := NewVoteDataFromCertVoteStorage cv height (ct_Round c) (ct_Value c)).
  rewrite (VerifySignatureAndCredential_complete _ _ _ (vt_Credential vt) (VoteData_SignBytes vt)
    (vt_ESignValue vt) w Hsp).
  cbn [mbind option_bind]. upd. rewrite add64_id by (unfold is_u64; lia).
  rewrite IH by lia. unfold id at 2. rewrite Z.add_assoc, fmap_cons. cbn [list_to_set].
  do 2 f_equal. f_equal. set_solver.
Qed.

Lemma NoDup_of_size (l : list Address) :
  size (list_to_set l : gset Address) = length l → NoDup l.
Proof.
  induction l as [|a l IH]; [constructor|]. cbn [list_to_set length]. intros Hsz.
  assert (size (list_to_set l : gset Address) ≤ length l)%nat as Hle.
  { clear. induction l as [|b l IH]; [done|]. cbn [list_to_set length].
    pose proof (size_union_alt ({[b]} : gset Address) (list_to_set l)) as E.
    rewrite E, size_singleton.
    pose proof (subseteq_size (list_to_set l ∖ {[b]} : gset Address) (list_to_set l)
      ltac:(set_solver)). lia. }
  destruct (decide (a ∈ l)) as [Hin|Hn].
  - assert (({[a]} ∪ list_to_set l : gset Address) = list_to_set l) as E by set_solver.
    rewrite E in Hsz. lia.
  - constructor; [done|]. apply IH. rewrite size_union, size_singleton in Hsz by set_solver. lia.
Qed.
End seal_facts.

(** C24. What an accepted seal proves: against the state of the parent, the
    certificate holds cert votes of distinct registered miners, each with a
    valid signature on the certificate's value and a valid credential for the
    certificate's round, whose weights add up to at least the threshold; and the
    proposer signed this very header, drew a positive proposer weight, and
    proved the header's seed. *)
Theorem seal_accepted `{CR : Crypto} `{BO : Boost} {StateDB : Type} `{SR : !StateReader StateDB}
    `{CH : !ChainReader StateDB} config header parent :
  VerifySeal config header parent = Some None →
  let c := hd_Certificate header in
  let height := u64 (hd_Number header) in
  ∃ stateDb ws wp,
    sealState header parent = inl stateDb ∧
    NoDup ((λ cv, cs_Address (cv_Credential cv)) <$> ct_CertVoteSet c) ∧
    Forall2 (cert_vote_speaks config stateDb parent height c) (ct_CertVoteSet c) ws ∧
    (GetCommitteeNumber height RoundStep3Certifying).1 ≤ sumZ id ws ∧
    speaks config stateDb (Header_Seed parent) (hd_TotalBalanceOfMiners parent)
      (Certificate_Proposer c) height (ps_Round (ct_Proposal c)) RoundStep1Proposal
      (Certificate_Proof c) (be_bytes 32 (Header_Hash header)) (ps_ESignValue (ct_Proposal c)) wp ∧
    VerifySeed (GetMinerVerifier config stateDb (Certificate_Proposer c) height) height
      (Header_Seed parent) (Header_Hash parent) (Header_Seed header) (Certificate_SeedProof c) = None.
Proof.
  unfold VerifySeal. set (c := hd_Certificate header). set (height := u64 (hd_Number header)).
  cbn zeta. destruct (sealState header parent) as [stateDb|err]; [|done].
  destruct (verifyVotes _ _ _ _ _ _ _ _) as [[[sum set]|err]|] eqn:Ev; [|done..].
  cbn [mbind option_bind]. apply verifyVotes_ok in Ev as (ws & Hws & Hsum & Hset); [|lia].
  destruct (Nat.eqb_spec (size set) (length (ct_CertVoteSet c))) as [Hsz|]; [|done]. cbn [negb].
  destruct (GetCommitteeNumber height RoundStep3Certifying) as [th sz] eqn:Ec.
  destruct (Z.ltb_spec sum th); [done|].
  set (leader := NewProposalLeaderDataFromStorage _ _ _).
  destruct (VerifySignatureAndCredential _ _ _ _ _ _ _) as [[[err|] c']|] eqn:Ep; [done| |done].
  cbn [mbind option_bind]. destruct (VerifySeed _ _ _ _ _ _) eqn:Es; [done|]. intros _.
  change (Certificate_Proposer c) with (cr_Address (pl_Credential leader)) in Ep at 1.
  change height with (cr_Height (pl_Credential leader)) in Ep at 1.
  apply VerifySignatureAndCredential_ok in Ep as (wp & -> & Hsp).
  exists stateDb, ws, wp. split; [done|]. split.
  { apply NoDup_of_size. rewrite length_fmap, <- Hsz, Hset. by rewrite union_empty_r_L. }
  split; [done|]. split; [cbn [fst]; lia|]. by split.
Qed.

(** The votes of a certificate are not tied to the header they seal: the value
    they signed, [ct_Value], is never compared with the header's hash.  A second
    header of the same proposer passes with the votes cast for the first one, as
    soon as the proposer signs it. *)
Theorem seal_value_unbound `{CR : Crypto} `{BO : Boost} {StateDB : Type} `{SR : !StateReader StateDB}
    `{CH : !ChainReader StateDB} config header header' parent p stateDb wp :
  VerifySeal config header parent = Some None →
  sealState header parent = inl stateDb →
  hd_Number header' = hd_Number header →
  hd_Certificate header' = (hd_Certificate header) <| ct_Proposal := p |> →
  cs_Address (ps_Credential p) = Certificate_Proposer (hd_Certificate header) →
  let height := u64 (hd_Number header) in
  let mv := GetMinerVerifier config stateDb (cs_Address (ps_Credential p)) height in
  let leader := NewProposalLeaderDataFromStorage (Header_Hash header') height p in
  VerifySignatureAndCredential mv (ProposalLeaderData_SignBytes leader) (pl_ESignValue leader)
    (pl_Credential leader) stateDb (Header_Seed parent) (hd_TotalBalanceOfMiners parent)
    = Some (None, wp) →
  VerifySeed mv height (Header_Seed parent) (Header_Hash parent) (Header_Seed header')
    (ps_SeedProof p) = None →
  VerifySeal config header' parent = Some None ∧
  ct_Value (hd_Certificate header') = ct_Value (hd_Certificate header).
Proof.
  intros Hseal Hst Hnum Hcert Haddr height mv leader Hlead Hseed.
  split; [|by rewrite Hcert]. revert Hseal.
  set (c := hd_Certificate header) in *. set (c' := hd_Certificate header') in *.
  assert (Certificate_Proposer c' = cs_Address (ps_Credential p)) as Hp by (by rewrite Hcert).
  assert (ct_CertVoteSet c' = ct_CertVoteSet c) as Hcvs by (by rewrite Hcert).
  assert (sealState header' parent = inl stateDb) as Hst'.
  { rewrite <- Hst. unfold sealState. fold c c'. rewrite Hcvs, Hp, Haddr, Hnum.
    by rewrite Hcert. }
  assert (∀ votes sum set, verifyVotes config stateDb height c' parent votes sum set
    = verifyVotes config stateDb height c parent votes sum set) as Hvotes.
  { rewrite Hcert. clear. induction votes as [|cv votes IH]; intros sum set; [done|].
    cbn [verifyVotes]. upd.
    destruct (VerifySignatureAndCredential _ _ _ _ _ _ _) as [[[err|] cr]|]; [done| |done].
    cbn [mbind option_bind]. apply IH. }
  unfold VerifySeal. fold c c'. rewrite Hst, Hst', Hnum. fold height. rewrite Hcvs, Hvotes, Hp.
  destruct (verifyVotes _ _ _ _ _ _ _ _) as [[[sum set]|err]|]; [|discriminate..].
  cbn [mbind option_bind].
  destruct (negb _); [discriminate|]. destruct (GetCommitteeNumber _ _) as [th sz].
  destruct (sum <? th); [discriminate|]. intros _.
  assert (ct_Proposal c' = p) as -> by (by rewrite Hcert).
  assert (Certificate_SeedProof c' = ps_SeedProof p) as -> by (by rewrite Hcert).
  fold mv leader. rewrite Hlead. cbn [mbind option_bind]. rewrite Hseed. reflexivity.
Qed.

(** ** A sealed block

    The miner of [MinerKeys.Sample] proposes and certifies the block of height
    25 on its own. *)
Module Sealed.
Import Toy Registry Uniform.
#[export] Instance chain : ChainReader MapState := {|
  GetHeader _ _ := None;
  StateAtHeader _ := Some Sample.state;
  VerifyProof _ _ _ _ _ := None;
  ProofState _ _ := Sample.state
|}.

Definition seed : Z := 2 ^ 50.
Definition parent : Header := mkHeader 1 0 100 3 0 0 0 1 24 100000000 0 1000 [] seed 1 100 emptyCertificate.

Definition sign (data : bytes) : ForwardSecureSignature :=
  match MinerKey_Sign Sample.mk 25 data with Some (inl sig) => sig | _ => zeroSignature end.
Definition draw (step : Z) : Z :=
  match MinerKey_Sortition Sample.mk 25 1 step seed Sample.state 100 with
  | Some (inl (_, proof, _)) => proof | _ => 0
  end.
Definition seed_proof : Z * Z :=
  match MinerKey_Seed Sample.mk 25 seed (Header_Hash parent) with inl r => r | inr _ => (0, 0) end.

Definition unsealed : Header := mkHeader (Header_Hash parent) 0 100 4 0 0 0 1 25 100000000 21000 1005
  [] seed_proof.1 1 100 emptyCertificate.
Definition value : Hash := Header_Hash unsealed.
Definition header : Header := unsealed <| hd_Certificate := mkCertificate 25 1 value
  (mkProposalStorage (sign (be_bytes 32 value)) 1 (mkCredentialStorage 100 (draw 1)) seed_proof.2)
  [mkCertVoteStorage (sign (be_bytes 32 value)) (mkCredentialStorage 100 (draw 3))] [] |>.

Lemma accepted : VerifySeal Registry.config header parent = Some None.
Proof. vm_compute. reflexivity. Qed.
End Sealed.

Import Toy Registry Uniform Sealed.

Lemma verifyHeader_correct_witness :
  header_rules 1000 Sealed.header Sealed.parent.
Proof.
  apply (verifyHeader_correct Registry.config 1000 Sealed.header Sealed.parent true);
    [vm_compute; intuition congruence..|].
  vm_compute. reflexivity.
Defined.

Lemma seal_accepted_witness : ∃ ws : list Z,
  length ws = 1%nat ∧ 1112 ≤ sumZ id ws.
Proof.
  destruct (seal_accepted Registry.config Sealed.header Sealed.parent Sealed.accepted)
    as (stateDb & ws & wp & _ & _ & Hws & Hsum & _).
  exists ws. split; [|exact Hsum]. apply Forall2_length in Hws. symmetry. exact Hws.
Defined.

Lemma gas_limit_accepted_witness :
  let parent := mkBlock (Sealed.parent <| hd_GasUsed := 100000000 |>) [] [] in
  MinGasLimit ≤ CalcGasLimit parent 63000000 200000000 < 2 ^ 63 ∧
  Z.abs (CalcGasLimit parent 63000000 200000000 - 100000000) < 100000000 `div` 1024.
Proof.
  refine (gas_limit_accepted (mkBlock (Sealed.parent <| hd_GasUsed := 100000000 |>) [] []) 63000000 200000000 _ _ _ _);
    vm_compute; intuition discriminate.
Defined.
