(* ===== verification/HeaderBatch.v ===== *)
(** * HeaderBatch: the concurrent verification of a batch of headers

    [VerifyHeaders] of src/consensus/algorand/algorand.go: workers that verify one
    header each, and a goroutine that hands out the indices over an unbuffered
    channel, collects the finished ones from a channel with one place per worker, and
    sends the results in the order of the input, until all are sent or the caller
    closes [abort].  A step is one communication, or the end or the panic of one
    worker's computation; steps interleave freely.  A panic of a worker ends the
    process. *)

From S2P Require Import Prelude Bytes Params Crypto ForwardSecure Types MinerContract.
From S2P Require Import Sortition MinerKeys Engine.

Local Open Scope nat_scope.

Abbreviation err := (option header_error).

Record batch := mkBatch {
  b_in : nat;                (* next index to hand out *)
  b_busy : list nat;         (* a worker verifies it *)
  b_sending : list nat;      (* its worker is at [done <- index] *)
  b_errs : gmap nat err;     (* the slice [errs]; nil where nothing was written *)
  b_done : list nat;         (* the channel [done] *)
  b_checked : gset nat;
  b_out : nat;
  b_errorsOut : list err;    (* sent on [errorsOut], which has a place for each header *)
  b_abort : bool;            (* the caller closed [abort] *)
  b_returned : bool;         (* the collecting goroutine returned and closed [inputs] *)
  b_crashed : bool
}.
#[export] Instance batch_fields : Fields batch := λ b,
  mkBatch (b_in b) (b_busy b) (b_sending b) (b_errs b) (b_done b) (b_checked b) (b_out b)
    (b_errorsOut b) (b_abort b) (b_returned b) (b_crashed b).

Definition batch_start : batch := mkBatch 0 [] [] ∅ [] ∅ 0 [] false false false.

Section batch.
Context (n workers : nat) (result : nat → option err).

(** The inner loop [for checked[index] = true; checked[out]; out++], which returns
    after the last header; [fuel] bounds the indices left. *)
Fixpoint flush (fuel : nat) (errs : gmap nat err) (checked : gset nat) (out : nat) (sent : list err) :
    nat * list err * bool :=
  match fuel with
  | O => (out, sent, false)
  | S fuel =>
      if decide (out ∈ checked) then
        let sent := sent ++ [default None (errs !! out)] in
        if out =? n - 1 then (S out, sent, true) else flush fuel errs checked (S out) sent
      else (out, sent, false)
  end.

Definition collect (b : batch) (index : nat) (rest : list nat) : batch :=
  let checked := {[index]} ∪ b_checked b in
  let '(out, sent, returned) := flush (n - b_out b) (b_errs b) checked (b_out b) (b_errorsOut b) in
  b <| b_done := rest |> <| b_checked := checked |> <| b_out := out |> <| b_errorsOut := sent |>
    <| b_returned := returned |>.

Inductive batch_step (b : batch) : batch → Prop :=
| batch_hand :                     (* case inputs <- in, an idle worker receives *)
    b_crashed b = false → b_returned b = false → b_in b < n →
    length (b_busy b) + length (b_sending b) < workers →
    batch_step b (b <| b_in := S (b_in b) |> <| b_busy := b_busy b ++ [b_in b] |>)
| batch_work l i r e :             (* errs[index] = err *)
    b_crashed b = false → b_busy b = l ++ i :: r → result i = Some e →
    batch_step b (b <| b_busy := l ++ r |> <| b_errs := <[i := e]> (b_errs b) |>
                    <| b_sending := b_sending b ++ [i] |>)
| batch_panic l i r :
    b_crashed b = false → b_busy b = l ++ i :: r → result i = None →
    batch_step b (b <| b_crashed := true |>)
| batch_send l i r :               (* done <- index *)
    b_crashed b = false → b_sending b = l ++ i :: r → length (b_done b) < workers →
    batch_step b (b <| b_sending := l ++ r |> <| b_done := b_done b ++ [i] |>)
| batch_collect i r :              (* case index := <-done *)
    b_crashed b = false → b_returned b = false → b_done b = i :: r →
    batch_step b (collect b i r)
| batch_abort :                    (* case <-abort *)
    b_crashed b = false → b_returned b = false → b_abort b = true →
    batch_step b (b <| b_returned := true |>).

(** A step of the goroutines, or the caller closes [abort]. *)
Inductive batch_move (b : batch) : batch → Prop :=
| move_step b' : batch_step b b' → batch_move b b'
| move_close : b_abort b = false → b_crashed b = false → batch_move b (b <| b_abort := true |>).

(** Every index handed out is in one place; what was sent is the results in order. *)
Record batch_inv (b : batch) : Prop := {
  bi_in : b_in b ≤ n;
  bi_where : ∀ i, i < b_in b ↔ i ∈ b_busy b ∨ i ∈ b_sending b ∨ i ∈ b_done b ∨ i ∈ b_checked b;
  bi_nodup : NoDup (b_busy b ++ b_sending b ++ b_done b);
  bi_fresh : ∀ i, i ∈ b_busy b ++ b_sending b ++ b_done b → i ∉ b_checked b;
  bi_errs : ∀ i, i ∈ b_sending b ∨ i ∈ b_done b ∨ i ∈ b_checked b →
    is_Some (b_errs b !! i) ∧ b_errs b !! i = result i;
  bi_out : Some <$> b_errorsOut b = result <$> seq 0 (b_out b);
  bi_next : b_out b ∉ b_checked b;
  bi_below : ∀ i, i < b_out b → i ∈ b_checked b;
  bi_last : b_out b ≤ n;
  bi_workers : length (b_busy b) + length (b_sending b) ≤ workers;
  bi_returned : b_returned b = true → b_abort b = true ∨ b_out b = n;
  bi_finished : 0 < n → b_out b = n → b_returned b = true;
  bi_crashed : b_crashed b = true → ∃ i, i < n ∧ result i = None
}.

Lemma flush_spec fuel errs checked out sent :
  (∀ i, i ∈ checked → i < n ∧ is_Some (errs !! i) ∧ errs !! i = result i) →
  n ≤ out + fuel → Some <$> sent = result <$> seq 0 out → (∀ i, i < out → i ∈ checked) → out < n →
  let '(out', sent', returned) := flush fuel errs checked out sent in
  Some <$> sent' = result <$> seq 0 out' ∧ (∀ i, i < out' → i ∈ checked) ∧ (out' ∉ checked) ∧ out' ≤ n ∧
  (returned = true ↔ out' = n).
Proof.
  intros Hc. revert out sent. induction fuel as [|fuel IH]; intros out sent Hf Hs Hb Hn; cbn [flush]; [lia|].
  destruct (decide (out ∈ checked)) as [Hin|Hn']; [|split_and!; (done || lia)].
  destruct (Hc _ Hin) as (_ & [e He] & Hr).
  assert (Some <$> sent ++ [default None (errs !! out)] = result <$> seq 0 (S out)) as Hs'.
  { rewrite seq_S, !fmap_app, Hs. cbn. rewrite <- Hr, He. done. }
  assert (∀ i, i < S out → i ∈ checked) as Hb'.
  { intros i Hi. destruct (decide (i = out)) as [->|]; [done|]. apply Hb. lia. }
  destruct (Nat.eqb_spec out (n - 1)) as [->|Hne]; [|apply IH; (done || lia)].
  split_and!; try done; try lia. intros [Hlt _]%Hc. lia.
Qed.

Lemma batch_inv_start : batch_inv batch_start.
Proof.
  split; cbn; [lia| |constructor|by intros i ?%elem_of_nil| |done|set_solver|lia|lia|lia|done|lia|done].
  - intros i. split; [lia|]. set_solver.
  - intros i. set_solver.
Qed.

Lemma batch_inv_hand b : batch_inv b → b_returned b = false → b_in b < n →
  length (b_busy b) + length (b_sending b) < workers →
  batch_inv (b <| b_in := S (b_in b) |> <| b_busy := b_busy b ++ [b_in b] |>).
Proof.
  intros [H1 H2 H3 H4 H5 H6 H7 H8 H9 H10 H11 H12 H13] Hret Hlt Hw.
  assert ((b_in b ∉ b_busy b ++ b_sending b ++ b_done b) ∧ (b_in b ∉ b_checked b)) as [Hn1 Hn2].
  { rewrite !elem_of_app. pose proof (proj2 (H2 (b_in b))). split; intros Hin;
      assert (b_in b < b_in b) by tauto; lia. }
  split; upd; [lia| | | |done..| |done|done|done].
  - intros i. rewrite elem_of_app, list_elem_of_singleton. pose proof (H2 i).
    destruct (decide (i = b_in b)) as [->|]; split; intros; try lia; try tauto.
    + assert (i < b_in b) by lia. tauto.
    + assert (i < b_in b) by tauto. lia.
  - rewrite <- app_assoc. apply NoDup_Permutation_proper with (b_in b :: b_busy b ++ b_sending b ++ b_done b);
      [symmetry; apply Permutation_middle|by constructor].
  - intros i. rewrite !elem_of_app, list_elem_of_singleton. setoid_rewrite elem_of_app in H4.
    setoid_rewrite elem_of_app in H4. intros [[?| ->]|?]; [|done|]; apply H4; tauto.
  - rewrite length_app. cbn. lia.
Qed.

Lemma batch_inv_work b l i r e : batch_inv b → b_busy b = l ++ i :: r → result i = Some e →
  batch_inv (b <| b_busy := l ++ r |> <| b_errs := <[i := e]> (b_errs b) |> <| b_sending := b_sending b ++ [i] |>).
Proof.
  intros [H1 H2 H3 H4 H5 H6 H7 H8 H9 H10 H11 H12 H13] Hb Hr. rewrite Hb in *.
  assert (∀ j, j ∈ l ++ i :: r ↔ j ∈ l ++ r ∨ j = i) as Hsplit.
  { intros j. rewrite !elem_of_app, elem_of_cons. tauto. }
  assert ((l ++ r) ++ (b_sending b ++ [i]) ++ b_done b ≡ₚ (l ++ i :: r) ++ b_sending b ++ b_done b) as Hperm.
  { rewrite <- (Permutation_middle l r i), <- (app_assoc (b_sending b)). cbn.
    rewrite <- Permutation_middle. symmetry. apply Permutation_middle. }
  split; upd; [done| | | | |done..| |done|done|done].
  - intros j. rewrite (H2 j), Hsplit, !elem_of_app, list_elem_of_singleton. tauto.
  - by rewrite Hperm.
  - intros j. rewrite Hperm. apply H4.
  - intros j Hj. rewrite lookup_insert. case_decide as Hd; [subst j; rewrite Hr; split; [by eexists|done]|].
    apply H5. rewrite elem_of_app, list_elem_of_singleton in Hj. destruct Hj as [[?|?]|?]; [tauto|congruence|tauto].
  - rewrite !length_app in *. cbn in *. lia.
Qed.

Lemma batch_inv_send b l i r : batch_inv b → b_sending b = l ++ i :: r →
  batch_inv (b <| b_sending := l ++ r |> <| b_done := b_done b ++ [i] |>).
Proof.
  intros [H1 H2 H3 H4 H5 H6 H7 H8 H9 H10 H11 H12 H13] Hb. rewrite Hb in *.
  assert (∀ j, j ∈ l ++ i :: r ↔ j ∈ l ++ r ∨ j = i) as Hsplit.
  { intros j. rewrite !elem_of_app, elem_of_cons. tauto. }
  assert (b_busy b ++ (l ++ r) ++ b_done b ++ [i] ≡ₚ b_busy b ++ (l ++ i :: r) ++ b_done b) as Hperm.
  { apply Permutation_app_head. rewrite <- (Permutation_middle l r i), app_assoc. symmetry.
    apply Permutation_cons_append. }
  split; upd; [done| | | | |done..| |done|done|done].
  - intros j. rewrite (H2 j), Hsplit, !elem_of_app, list_elem_of_singleton. tauto.
  - by rewrite Hperm.
  - intros j. rewrite Hperm. apply H4.
  - intros j Hj. apply H5. rewrite Hsplit. rewrite (elem_of_app (b_done b)), list_elem_of_singleton in Hj. tauto.
  - rewrite !length_app in *. cbn in *. lia.
Qed.

Lemma batch_inv_collect b i r : batch_inv b → b_returned b = false → b_done b = i :: r →
  batch_inv (collect b i r).
Proof.
  intros [H1 H2 H3 H4 H5 H6 H7 H8 H9 H10 H11 H12 H13] Hret Hd. rewrite Hd in *. unfold collect.
  set (checked := {[i]} ∪ b_checked b).
  assert (∀ j, j ∈ checked ↔ j = i ∨ j ∈ b_checked b) as Hck.
  { intros j. unfold checked. by rewrite elem_of_union, elem_of_singleton. }
  assert (i < b_in b) as Hi by (apply H2; rewrite elem_of_cons; tauto).
  assert (b_out b < n) as Hout.
  { destruct (decide (b_out b = n)) as [E|]; [|lia]. rewrite H12 in Hret by lia. discriminate. }
  pose proof (flush_spec (n - b_out b) (b_errs b) checked (b_out b) (b_errorsOut b)) as Hfl.
  destruct (flush _ _ _ _ _) as [[out sent] returned].
  destruct Hfl as (F1 & F2 & F3 & F4 & F5); [|lia|done| |lia|].
  { intros j Hj%Hck. split.
    - assert (j < b_in b); [|lia]. destruct Hj as [->|Hj]; [done|]. apply H2. tauto.
    - apply H5. rewrite elem_of_cons. tauto. }
  { intros j Hj. apply Hck. right. by apply H8. }
  apply NoDup_app in H3 as (N1 & N2 & N3). apply NoDup_app in N3 as (N3 & N4 & N5).
  apply NoDup_cons in N5 as [N5 N6]. setoid_rewrite elem_of_app in N2. setoid_rewrite elem_of_cons in N2.
  setoid_rewrite elem_of_cons in N4.
  split; upd; [done| | | | |done|done|done|done|done|right; by apply F5|intros _; apply F5|done].
  - intros j. rewrite H2, Hck, elem_of_cons. tauto.
  - apply NoDup_app. split; [done|]. split; [setoid_rewrite elem_of_app; firstorder|].
    apply NoDup_app. split; [done|]. split; [firstorder|done].
  - intros j Hj. rewrite Hck. rewrite !elem_of_app in Hj. intros [->|Hc].
    + destruct Hj as [?|[?|?]]; [|eapply N4; [done|by left]|done]. eapply N2; [done|right; by left].
    + apply (H4 j); [|done]. rewrite !elem_of_app, elem_of_cons. tauto.
  - intros j Hj. rewrite Hck in Hj. apply H5. rewrite elem_of_cons. tauto.
Qed.

Definition batch_measure (b : batch) : nat :=
  4 * (n - b_in b) + 3 * length (b_busy b) + 2 * length (b_sending b) + length (b_done b)
  + (if b_abort b then 0 else 1) + (if b_returned b then 0 else 1) + (if b_crashed b then 0 else 1).

Lemma batch_step_inv b b' : batch_inv b → batch_step b b' →
  batch_inv b' ∧ batch_measure b' < batch_measure b ∧ b_abort b' = b_abort b.
Proof.
  intros Hinv Hstep. unfold batch_measure.
  destruct Hstep as [Hc Hr Hin Hw|l i r e Hc Hb He|l i r Hc Hb He|l i r Hc Hb Hd|i r Hc Hr Hd|Hc Hr Ha].
  - split; [by apply batch_inv_hand|]. upd. rewrite length_app. cbn [length]. split; [lia|done].
  - split; [by apply batch_inv_work|]. upd. rewrite Hb, !length_app. cbn [length]. split; [lia|done].
  - split; [|upd; rewrite Hc; split; [lia|done]].
    destruct Hinv as [H1 H2 H3 H4 H5 H6 H7 H8 H9 H10 H11 H12 H13]. split; upd; try done.
    intros _. exists i. split; [|done]. assert (i < b_in b); [|lia]. apply H2. left. rewrite Hb. set_solver.
  - split; [by apply batch_inv_send|]. upd. rewrite Hb, !length_app. cbn [length]. split; [lia|done].
  - split; [by apply batch_inv_collect|]. unfold collect.
    destruct (flush _ _ _ _ _) as [[out sent] returned]. upd. rewrite Hd, Hr. cbn [length].
    split; [destruct returned; lia|done].
  - split; [|upd; rewrite Hr; split; [lia|done]].
    destruct Hinv as [H1 H2 H3 H4 H5 H6 H7 H8 H9 H10 H11 H12 H13]. split; upd; try done. auto.
Qed.

Lemma batch_move_inv b b' : batch_inv b → batch_move b b' →
  batch_inv b' ∧ batch_measure b' < batch_measure b.
Proof.
  intros Hinv [b1 H|Ha Hc]; [by destruct (batch_step_inv b b1 Hinv H) as (? & ? & _)|].
  split; [|unfold batch_measure; upd; rewrite Ha; lia].
  destruct Hinv as [H1 H2 H3 H4 H5 H6 H7 H8 H9 H10 H11 H12 H13]. split; upd; try done. auto.
Qed.

Lemma batch_nsteps k b b' : batch_inv b → nsteps batch_move k b b' →
  batch_inv b' ∧ k + batch_measure b' ≤ batch_measure b.
Proof.
  intros Hinv Hs. induction Hs as [b|k b1 b2 b3 H12 H23 IH]; [done|].
  destruct (batch_move_inv b1 b2 Hinv H12) as (I2 & M2).
  destruct (IH I2) as (I3 & M3). split; [done|]. lia.
Qed.

(** A batch that cannot go on, was not aborted and did not crash, sent everything,
    and none of its goroutines is left behind. *)
Lemma batch_stuck b : (0 < n → 0 < workers) → batch_inv b → b_crashed b = false → b_abort b = false →
  (∀ b', ¬ batch_step b b') → b_out b = n ∧ b_busy b = [] ∧ b_sending b = [] ∧ (0 < n → b_returned b = true).
Proof.
  intros Hw Hinv Hc Ha Hstuck.
  assert (b_busy b = []) as Eb.
  { destruct (b_busy b) as [|i r] eqn:Eb; [done|]. destruct (result i) as [e|] eqn:Ei; exfalso; eapply Hstuck;
      [by apply (batch_work b [] i r e)|by apply (batch_panic b [] i r)]. }
  assert (b_out b = n) as Hout.
  { destruct (b_returned b) eqn:Er; [by destruct (bi_returned _ Hinv Er); [congruence|]|].
    assert (b_done b = []) as Ed.
    { destruct (b_done b) as [|i r] eqn:Ed; [done|]. exfalso. eapply Hstuck. by eapply (batch_collect b i r). }
    pose proof (bi_workers _ Hinv) as Hcap. rewrite Eb in Hcap. cbn in Hcap.
    assert (b_sending b = []) as Es.
    { destruct (b_sending b) as [|i r] eqn:Es; [done|]. exfalso. eapply Hstuck.
      apply (batch_send b [] i r); [done|done|]. rewrite Ed. cbn in *. lia. }
    pose proof (bi_in _ Hinv) as Hin. pose proof (bi_last _ Hinv) as Hlast.
    destruct (decide (b_in b < n)) as [Hlt|].
    { exfalso. eapply Hstuck. apply batch_hand; [done|done|done|]. rewrite Eb, Es. cbn. lia. }
    destruct (decide (b_out b < n)) as [Hlt|]; [|lia]. destruct (bi_next _ Hinv).
    pose proof (proj1 (bi_where _ Hinv (b_out b)) ltac:(lia)) as Hwh. rewrite Eb, Es, Ed in Hwh. set_solver. }
  split; [done|]. split; [done|]. split; [|intros H0; by apply (bi_finished _ Hinv)].
  destruct (b_sending b) as [|i r] eqn:Es; [done|]. exfalso.
  assert (i < b_in b) as Hi by (apply (bi_where _ Hinv); rewrite Es; set_solver).
  pose proof (bi_in _ Hinv). apply (bi_fresh _ Hinv i); [rewrite Es; set_solver|].
  apply (bi_below _ Hinv). lia.
Qed.
End batch.

(** C40. [VerifyHeaders] on any batch of headers, for every
    interleaving of its goroutines and of the caller that may close [abort]: at every
    moment the results sent out are those of the first headers, in the order of the
    input, each what a worker computes for its header.  A run has at most four steps
    per header and three more.  One in which no goroutine can go on was aborted by
    the caller, crashed because the verification of one of its headers panics, or
    has sent a result for every header and left no worker behind. *)
Theorem verify_headers_in_order `{CR : Crypto} `{BO : Boost} {StateDB : Type}
    `{SR : !StateReader StateDB} `{CH : !ChainReader StateDB} config now headers seals procs k b :
  0 < procs →
  let n := length headers in
  let workers := procs `min` n in
  let result := verifyIndex config now headers seals in
  nsteps (batch_move n workers result) k batch_start b →
  Some <$> b_errorsOut b = result <$> seq 0 (b_out b) ∧ k ≤ 4 * n + 3 ∧
  ((∀ b', ¬ batch_step n workers result b b') →
     b_abort b = true ∨
     (∃ i, i < n ∧ result i = None) ∨
     (Some <$> b_errorsOut b = result <$> seq 0 n ∧ b_busy b = [] ∧ b_sending b = [] ∧
        (0 < n → b_returned b = true))).
Proof.
  intros Hp n workers result Hrun.
  destruct (batch_nsteps n workers result k batch_start b (batch_inv_start n workers result) Hrun) as (Hinv & Hm).
  split; [apply (bi_out _ _ _ _ Hinv)|]. split; [unfold batch_measure in Hm; cbn in Hm; lia|]. intros Hstuck.
  destruct (b_abort b) eqn:Ea; [by left|right].
  destruct (b_crashed b) eqn:Ec; [left; by apply (bi_crashed _ _ _ _ Hinv)|right].
  destruct (batch_stuck n workers result b) as (Ho & Hrest); [unfold workers; lia|done..|].
  split; [|done]. rewrite <- Ho. apply (bi_out _ _ _ _ Hinv).
Qed.

(** The condition of a step of a concrete batch. *)
Ltac checked := first [reflexivity | apply Nat.ltb_lt; reflexivity].

(** After an abort nobody reads [done]: with one worker, a result in the channel
    and another one finished, the worker waits for ever. *)
Theorem aborted_worker_waits : ∃ b,
  rtc (batch_move 2 1 (λ _, Some None)) batch_start b ∧ b_returned b = true ∧ b_sending b = [1] ∧
  ∀ b', ¬ batch_step 2 1 (λ _, Some None) b b'.
Proof.
  exists (mkBatch 2 [] [1] (<[1 := None]> (<[0 := None]> ∅)) [0] ∅ 0 [] true true false).
  split; [|split; [|split]].
  - eapply rtc_l; [apply move_step, batch_hand; checked|].
    eapply rtc_l; [apply move_step; by apply (batch_work _ _ _ _ [] 0 [] None)|].
    eapply rtc_l; [apply move_step; apply (batch_send _ _ _ _ [] 0 []); checked|].
    eapply rtc_l; [apply move_step, batch_hand; checked|].
    eapply rtc_l; [apply move_step; by apply (batch_work _ _ _ _ [] 1 [] None)|].
    eapply rtc_l; [by apply move_close|].
    eapply rtc_l; [apply move_step; by apply batch_abort|]. apply rtc_refl.
  - reflexivity.
  - reflexivity.
  - intros b' H. inversion H as [? E|l i r e ? E|l i r ? E|l i r ? E Hl|i r ? E|? E]; cbn in *; try done.
    + by destruct l.
    + lia.
Qed.

Import Toy Registry Uniform Sealed.

Lemma verify_headers_in_order_witness : ∃ b,
  Some <$> b_errorsOut b = [verifyIndex Registry.config 1000 [Sealed.header] [true] 0] ∧
  b_errorsOut b = [Some ErrUnknownAncestor].
Proof.
  pose proof (verify_headers_in_order Registry.config 1000 [Sealed.header] [true] 2 4) as H.
  assert (verifyIndex Registry.config 1000 [Sealed.header] [true] 0 = Some (Some ErrUnknownAncestor)) as E
    by (vm_compute; reflexivity).
  set (result := verifyIndex Registry.config 1000 [Sealed.header] [true]) in *.
  assert (∃ b, nsteps (batch_move 1 1 result) 4 batch_start b ∧ b_out b = 1 ∧
    b_errorsOut b = [Some ErrUnknownAncestor]) as (b & Hrun & Hout & Hsent).
  { eexists. split.
    - eapply nsteps_l; [apply move_step, batch_hand; checked|].
      eapply nsteps_l; [apply move_step; by apply (batch_work _ _ _ _ [] 0 [] (Some ErrUnknownAncestor))|].
      eapply nsteps_l; [apply move_step; apply (batch_send _ _ _ _ [] 0 []); checked|].
      eapply nsteps_l; [apply move_step; by eapply (batch_collect _ _ _ _ 0 [])|]. apply nsteps_O.
    - split; reflexivity. }
  exists b. split; [|exact Hsent]. destruct (H b ltac:(lia) Hrun) as (Ho & _). rewrite Ho, Hout. reflexivity.
Defined.
