(* ===== verification/Ticker.v ===== *)
(** * Ticker: the timeouts of src/consensus/algorand/core/ticker.go

    [timeoutRoutine] keeps one timer for the latest height, round and step it
    was asked for; a timeout that fires is handed to the state machine by a
    goroutine of its own. *)

From S2P Require Import Prelude.

Local Open Scope Z_scope.

Record TimeoutInfo := mkTimeoutInfo { ti_Duration : Z; ti_Height : Z; ti_Round : Z; ti_Step : Z }.

Definition tickTockBufferSize : nat := 10.

(** The timer: stopped or drained, running, or fired with its value still in
    [timer.C]. *)
Inductive timer := TIdle | TRunning | TFired.

Record timeoutTicker := mkTicker {
  tk_ti : TimeoutInfo;               (* the variable [ti] of the routine *)
  tk_timer : timer;
  tk_tickChan : list TimeoutInfo;
  tk_tocks : list TimeoutInfo        (* handed over on [tockChan], oldest first *)
}.

Definition NewTimeoutTicker : timeoutTicker := mkTicker (mkTimeoutInfo 0 0 0 0) TIdle [] [].

(** The three nested comparisons under which a tick is ignored. *)
Definition staleTick (ti newti : TimeoutInfo) : bool :=
  if ti_Height newti <? ti_Height ti then true
  else if ti_Height newti =? ti_Height ti then
    if ti_Round newti <? ti_Round ti then true
    else if ti_Round newti =? ti_Round ti then (0 <? ti_Step ti) && (ti_Step newti <=? ti_Step ti)
    else false
  else false.

(** [case newti := <-t.tickChan]; stopping the timer also drains it. *)
Definition onTick (t : timeoutTicker) (newti : TimeoutInfo) : timeoutTicker :=
  if staleTick (tk_ti t) newti then t
  else mkTicker newti TRunning (tk_tickChan t) (tk_tocks t).

(** A turn of [timeoutRoutine], or the duration of the timer is over. *)
Inductive ticker_turn : timeoutTicker → timeoutTicker → Prop :=
| turn_receive t newti rest :
    tk_tickChan t = newti :: rest →
    ticker_turn t (onTick (mkTicker (tk_ti t) (tk_timer t) rest (tk_tocks t)) newti)
| turn_fire t :
    tk_timer t = TRunning →
    ticker_turn t (mkTicker (tk_ti t) TFired (tk_tickChan t) (tk_tocks t))
| turn_tock t :             (* case <-t.timer.C *)
    tk_timer t = TFired →
    ticker_turn t (mkTicker (tk_ti t) TIdle (tk_tickChan t) (tk_tocks t ++ [tk_ti t])).

Definition ScheduleTimeout (t : timeoutTicker) (ti : TimeoutInfo) : timeoutTicker :=
  mkTicker (tk_ti t) (tk_timer t) (tk_tickChan t ++ [ti]) (tk_tocks t).

Inductive ticker_step : timeoutTicker → timeoutTicker → Prop :=
| tick_schedule t ti :      (* the send waits on a full buffer *)
    (length (tk_tickChan t) < tickTockBufferSize)%nat → 0 < ti_Step ti →
    ticker_step t (ScheduleTimeout t ti)
| tick_turn t t' : ticker_turn t t' → ticker_step t t'.

(** ** Timeouts only move forward *)

Definition hrs_lt (a b : TimeoutInfo) : Prop :=
  ti_Height a < ti_Height b ∨
  (ti_Height a = ti_Height b ∧
     (ti_Round a < ti_Round b ∨ (ti_Round a = ti_Round b ∧ ti_Step a < ti_Step b))).

Lemma staleTick_fresh ti newti :
  0 < ti_Step newti → staleTick ti newti = false → hrs_lt ti newti.
Proof.
  intros Hs. unfold staleTick, hrs_lt.
  repeat case_cmp; cbn [andb]; intros; try done; lia.
Qed.

Lemma hrs_lt_stale ti newti : 0 < ti_Step ti → hrs_lt newti ti → staleTick ti newti = true.
Proof.
  intros Hs. unfold staleTick, hrs_lt. repeat case_cmp; cbn [andb]; intros; (done || lia).
Qed.

Lemma hrs_lt_trans a b c : hrs_lt a b → hrs_lt b c → hrs_lt a c.
Proof. unfold hrs_lt. lia. Qed.

(** [tk_ti] is beyond every fired timeout, or is the last one when the timer is
    idle. *)
Record ticker_inv (t : timeoutTicker) : Prop := {
  tki_queue : Forall (λ ti, 0 < ti_Step ti) (tk_tickChan t);
  tki_sorted : StronglySorted hrs_lt (tk_tocks t);
  tki_past : ∀ x, x ∈ tk_tocks t → hrs_lt x (tk_ti t) ∨ (x = tk_ti t ∧ tk_timer t = TIdle)
}.

Lemma StronglySorted_snoc {A : Type} (R : A → A → Prop) l x :
  StronglySorted R l → (∀ y, y ∈ l → R y x) → StronglySorted R (l ++ [x]).
Proof.
  intros Hl Hx. induction Hl as [|y l Hs IH HF]; cbn.
  - repeat constructor.
  - constructor; [apply IH; intros z Hz; apply Hx; by apply list_elem_of_further|].
    apply Forall_app. split; [done|]. constructor; [|constructor]. apply Hx, list_elem_of_here.
Qed.

Lemma ticker_inv_step t t' : ticker_inv t → ticker_step t t' → ticker_inv t'.
Proof.
  intros Hi Hstep. destruct Hstep as [t ti Hl Hti|t t' Ht]; [|destruct Ht as [t newti rest E|t E|t E]];
    destruct Hi as [Hq Hs Hp].
  - split; cbn; [|done|done]. apply Forall_app. split; [done|]. by constructor.
  - rewrite E in Hq. apply Forall_cons in Hq as [Hn Hq]. unfold onTick. cbn [tk_ti].
    destruct (staleTick (tk_ti t) newti) eqn:Est; [by split|].
    split; cbn; [done|done|]. intros x Hx. left.
    pose proof (staleTick_fresh _ _ Hn Est) as Hlt.
    destruct (Hp x Hx) as [Hx'|[-> _]]; [by eapply hrs_lt_trans|done].
  - split; cbn; [done|done|]. intros x Hx. destruct (Hp x Hx) as [?|[_ ?]]; [by left|congruence].
  - assert (∀ x, x ∈ tk_tocks t → hrs_lt x (tk_ti t)) as Hlt.
    { intros x Hx. destruct (Hp x Hx) as [?|[_ ?]]; [done|congruence]. }
    split; cbn; [done|by apply StronglySorted_snoc|].
    intros x [Hx| ->%list_elem_of_singleton]%elem_of_app; [left; by apply Hlt|by right].
Qed.

(** In every run of the ticker the timeouts handed to the state machine
    strictly increase in height, round and step: none comes twice or late, and a
    pending timer is always for a later step than every timeout handed over. *)
Theorem timeouts_increase t :
  rtc ticker_step NewTimeoutTicker t →
  StronglySorted hrs_lt (tk_tocks t) ∧
  (tk_timer t ≠ TIdle → ∀ x, x ∈ tk_tocks t → hrs_lt x (tk_ti t)).
Proof.
  intros Hrun. assert (ticker_inv t) as [_ Hs Hp].
  { assert (ticker_inv NewTimeoutTicker) as Hi.
    { split; cbn; [constructor|constructor|]. by intros x ?%elem_of_nil. }
    revert Hi. induction Hrun as [|x y z Hxy Hyz IH]; [done|].
    intros Hi. apply IH. by eapply ticker_inv_step. }
  split; [done|]. intros Ht x Hx. destruct (Hp x Hx) as [?|[_ ?]]; [done|congruence].
Qed.

(** ** The latest request *)

(** A run of a new ticker, with the requests it was sent. *)
Inductive ticker_run : list TimeoutInfo → timeoutTicker → Prop :=
| trun_new : ticker_run [] NewTimeoutTicker
| trun_schedule reqs t ti :
    ticker_run reqs t → (length (tk_tickChan t) < tickTockBufferSize)%nat →
    ticker_run (reqs ++ [ti]) (ScheduleTimeout t ti)
| trun_turn reqs t t' : ticker_run reqs t → ticker_turn t t' → ticker_run reqs t'.

(** The timeout [ti] is still to come, or was handed to the state machine. *)
Definition delivered (t : timeoutTicker) : Prop := tk_timer t ≠ TIdle ∨ tk_ti t ∈ tk_tocks t.

Lemma ticker_run_latest reqs t :
  ticker_run reqs t → (∀ rq, rq ∈ reqs → 0 < ti_Step rq) →
  ∃ taken, reqs = taken ++ tk_tickChan t ∧ (∀ rq, rq ∈ taken → ¬ hrs_lt (tk_ti t) rq) ∧
    ((tk_ti t ∈ taken ∧ delivered t) ∨ tk_ti t = mkTimeoutInfo 0 0 0 0).
Proof.
  induction 1 as [|reqs t ti _ IH Hl|reqs t t' _ IH Ht]; intros Hpos.
  - exists []. split; [done|]. split; [|by right]. by intros rq ?%elem_of_nil.
  - destruct IH as (taken & -> & H). { intros rq Hrq. apply Hpos. set_solver. }
    exists taken. split; [by rewrite <- app_assoc|exact H].
  - destruct (IH Hpos) as (taken & -> & Hmax & Hin).
    destruct Ht as [t newti rest E|t E|t E]; cbn [tk_ti tk_timer tk_tickChan tk_tocks].
    + rewrite E in Hpos |- *. exists (taken ++ [newti]).
      assert (0 < ti_Step newti) as Hn by (apply Hpos; set_solver).
      unfold onTick. cbn [tk_ti]. destruct (staleTick (tk_ti t) newti) eqn:Es; cbn [tk_ti tk_tickChan].
      * split; [by rewrite <- app_assoc|]. split.
        -- intros rq [Hrq| ->%list_elem_of_singleton]%elem_of_app; [by apply Hmax|].
           intros Hlt. revert Es. unfold staleTick, hrs_lt in *. repeat case_cmp; cbn [andb]; (done || lia).
        -- destruct Hin as [[? ?]|?]; [left|by right]. split; [set_solver|done].
      * pose proof (staleTick_fresh _ _ Hn Es) as Hlt. split; [by rewrite <- app_assoc|]. split.
        -- intros rq [Hrq| ->%list_elem_of_singleton]%elem_of_app; [|unfold hrs_lt; lia].
           intros Hlt'. apply (Hmax rq Hrq). by eapply hrs_lt_trans.
        -- left. split; [set_solver|]. by left.
    + exists taken. split; [done|]. split; [done|]. destruct Hin as [[? _]|?]; [left; split; [done|by left]|by right].
    + exists taken. split; [done|]. split; [done|]. destruct Hin as [[? _]|?]; [left; split; [done|]|by right].
      right. cbn. set_solver.
Qed.

Definition same_hrs (a b : TimeoutInfo) : Prop :=
  ti_Height a = ti_Height b ∧ ti_Round a = ti_Round b ∧ ti_Step a = ti_Step b.

(** Once the ticker has read its requests, the timer is set for the latest height,
    round and step that was asked for, or that timeout was handed over. *)
Lemma latest_request_pending reqs t rq :
  ticker_run reqs t → tk_tickChan t = [] → (∀ x, x ∈ reqs → 0 < ti_Step x) →
  rq ∈ reqs → 0 < ti_Height rq → (∀ x, x ∈ reqs → ¬ hrs_lt rq x) →
  same_hrs (tk_ti t) rq ∧ delivered t.
Proof.
  intros Hrun Hq Hpos Hrq Hh Hmax. destruct (ticker_run_latest _ _ Hrun Hpos) as (taken & E & Hge & Hin).
  rewrite Hq, app_nil_r in E. subst taken. specialize (Hge rq Hrq).
  destruct Hin as [[Hin Hd]|Hz].
  - split; [|done]. specialize (Hmax _ Hin). unfold hrs_lt, same_hrs in *. lia.
  - rewrite Hz in Hge. destruct Hge. left. exact Hh.
Qed.

(** A ticker can read any sequence of requests. *)
Lemma ticker_run_all reqs : ∃ t, ticker_run reqs t ∧ tk_tickChan t = [].
Proof.
  induction reqs as [|ti reqs (t & Hrun & Hq)] using rev_ind; [by exists NewTimeoutTicker; split; [constructor|]|].
  exists (onTick (mkTicker (tk_ti t) (tk_timer t) [] (tk_tocks t)) ti). split.
  - eapply trun_turn; [apply (trun_schedule _ _ ti Hrun); rewrite Hq; unfold tickTockBufferSize; cbn; lia|].
    apply (turn_receive (ScheduleTimeout t ti)). cbn. by rewrite Hq.
  - unfold onTick. by destruct (staleTick _ _).
Qed.

(** A timeout for a lower round of the same height is never scheduled: a state
    machine that enters the height again, after the head moved to another block
    of the same number, gets no timer for its first round. *)
Theorem reentered_height_has_no_timer t d h r s :
  ti_Height (tk_ti t) = h → ti_Round (tk_ti t) = r → 1 < r → 0 < s →
  onTick t (mkTimeoutInfo d h 1 s) = t.
Proof.
  intros <- Hr Hr1 Hs. unfold onTick, staleTick. cbn. rewrite Z.ltb_irrefl, Z.eqb_refl.
  by rewrite (proj2 (Z.ltb_lt _ _)) by lia.
Qed.

Lemma timeouts_increase_witness :
  ∃ t, rtc ticker_step NewTimeoutTicker t ∧ length (tk_tocks t) = 2%nat ∧
       StronglySorted hrs_lt (tk_tocks t).
Proof.
  assert (∃ t, rtc ticker_step NewTimeoutTicker t ∧ length (tk_tocks t) = 2%nat) as (t & Hrun & Hl).
  { eexists. split.
    - eapply rtc_l; [apply (tick_schedule _ (mkTimeoutInfo 5 1 1 1)); cbn; [unfold tickTockBufferSize; lia|lia]|].
      eapply rtc_l; [apply tick_turn, turn_receive; reflexivity|].
      eapply rtc_l; [apply tick_turn, turn_fire; reflexivity|].
      eapply rtc_l; [apply tick_turn, turn_tock; reflexivity|].
      eapply rtc_l; [apply (tick_schedule _ (mkTimeoutInfo 5 1 1 3)); cbn; [unfold tickTockBufferSize; lia|lia]|].
      eapply rtc_l; [apply tick_turn, turn_receive; reflexivity|].
      eapply rtc_l; [apply tick_turn, turn_fire; reflexivity|].
      eapply rtc_l; [apply tick_turn, turn_tock; reflexivity|].
      apply rtc_refl.
    - reflexivity. }
  exists t. split; [exact Hrun|]. split; [exact Hl|]. apply (timeouts_increase t Hrun).
Defined.
