(* ===== verification/Shutdown.v ===== *)
(** * Shutdown: [stopRunning] and the routines it waits for

    src/consensus/algorand/core/context.go, [stopRunning], [broadcastLoop] and
    [receiveRoutine], and the places of state.go and context.go where the receive
    routine locks [hsMutex].  The three goroutines are programs over the mutex, the
    closed flag of [quit] and the wait group; the model keeps the order of their lock,
    unlock, close and wait operations and nothing else. *)

From S2P Require Import Prelude.

(** [stopRunning] from its lock to its unlock. *)
Inductive stopper :=
| SLock          (* ctx.hsMutex.Lock() *)
| SClose         (* close(ctx.quit), the mutex held *)
| SWait          (* ctx.wg.Wait(), the mutex held *)
| SReset         (* the fields are reset, the mutex held *)
| SReturned.

(** [receiveRoutine]: in its [select], in the handler of an event, at a lock of
    [hsMutex] in that handler ([OnEnter] of StateNewHeight and StateProposal,
    [NewBlock], [insertIntoBlockChain]), and inside that lock. *)
Inductive receiver := RSelect | RHandle | RLock | RHold | RReturned.

Inductive broadcaster := BSelect | BSend | BReturned.

Record shutdown := mkShutdown {
  sh_quit : bool;               (* ctx.quit is closed *)
  sh_stop : stopper;
  sh_recv : receiver;
  sh_bcast : broadcaster
}.

(** Who holds [hsMutex]. *)
Definition stopper_holds (s : stopper) : bool :=
  match s with SClose | SWait | SReset => true | _ => false end.
Definition receiver_holds (r : receiver) : bool :=
  match r with RHold => true | _ => false end.

Inductive shutdown_step : shutdown → shutdown → Prop :=
(* stopRunning *)
| stop_lock q r b : receiver_holds r = false →
    shutdown_step (mkShutdown q SLock r b) (mkShutdown q SClose r b)
| stop_close q r b : shutdown_step (mkShutdown q SClose r b) (mkShutdown true SWait r b)
| stop_wait q : shutdown_step (mkShutdown q SWait RReturned BReturned) (mkShutdown q SReset RReturned BReturned)
| stop_reset q r b : shutdown_step (mkShutdown q SReset r b) (mkShutdown q SReturned r b)
(* receiveRoutine *)
| recv_quit s b : shutdown_step (mkShutdown true s RSelect b) (mkShutdown true s RReturned b)
| recv_event q s b : shutdown_step (mkShutdown q s RSelect b) (mkShutdown q s RHandle b)
| recv_lock q s b : shutdown_step (mkShutdown q s RHandle b) (mkShutdown q s RLock b)
| recv_locked q s b : stopper_holds s = false →
    shutdown_step (mkShutdown q s RLock b) (mkShutdown q s RHold b)
| recv_unlock q s b : shutdown_step (mkShutdown q s RHold b) (mkShutdown q s RHandle b)
| recv_done q s b : shutdown_step (mkShutdown q s RHandle b) (mkShutdown q s RSelect b)
| recv_snap_quit s b :          (* the inner select of the chain head *)
    shutdown_step (mkShutdown true s RHandle b) (mkShutdown true s RReturned b)
(* broadcastLoop *)
| bcast_quit s r : shutdown_step (mkShutdown true s r BSelect) (mkShutdown true s r BReturned)
| bcast_msg q s r : shutdown_step (mkShutdown q s r BSelect) (mkShutdown q s r BSend)
| bcast_sent q s r : shutdown_step (mkShutdown q s r BSend) (mkShutdown q s r BSelect).

(** [stopRunning] is called while both routines run. *)
Definition shutdown_start : shutdown := mkShutdown false SLock RSelect BSelect.

(** The stopper waits for a routine that waits for the mutex the stopper holds. *)
Definition deadlocked (s : shutdown) : Prop := (sh_stop s = SClose ∨ sh_stop s = SWait) ∧ sh_recv s = RLock.

Lemma deadlocked_step s s' : deadlocked s → shutdown_step s s' → deadlocked s'.
Proof. intros [Hs Hr] H. destruct H; cbn in *; unfold deadlocked; cbn; destruct Hs; subst; naive_solver. Qed.

Lemma deadlocked_stays s s' : deadlocked s → rtc shutdown_step s s' → deadlocked s'.
Proof. intros Hd H. induction H; eauto using deadlocked_step. Qed.

(** [stopRunning] can wait for ever: it holds [hsMutex] while it waits for the
    receive routine, which may be about to lock it; from then on no run of the three
    goroutines lets it return. *)
Theorem stop_deadlocks :
  ∃ s, rtc shutdown_step shutdown_start s ∧ ∀ s', rtc shutdown_step s s' → sh_stop s' ≠ SReturned.
Proof.
  exists (mkShutdown true SWait RLock BReturned). split.
  - eapply rtc_l; [apply recv_event|]. eapply rtc_l; [apply recv_lock|].
    eapply rtc_l; [apply stop_lock; reflexivity|]. eapply rtc_l; [apply stop_close|].
    eapply rtc_l; [apply bcast_quit|]. apply rtc_refl.
  - intros s' H E. assert (deadlocked (mkShutdown true SWait RLock BReturned)) as Hd by (split; [by right|done]).
    destruct (deadlocked_stays _ _ Hd H) as [[|] _]; congruence.
Qed.

(** What every run of the three goroutines keeps. *)
Definition shutdown_inv (s : shutdown) : Prop :=
  (sh_recv s = RHold → stopper_holds (sh_stop s) = false) ∧
  (sh_quit s = match sh_stop s with SLock | SClose => false | _ => true end) ∧
  (match sh_stop s with SReset | SReturned => sh_recv s = RReturned | _ => True end).

Lemma shutdown_inv_step s s' : shutdown_inv s → shutdown_step s s' → shutdown_inv s'.
Proof.
  unfold shutdown_inv. intros (H1 & H2 & H3) H. destruct H; cbn in *; split_and!; try done; try congruence.
  all: try (by destruct s); try (by destruct r); try (destruct s; cbn in *; congruence).
Qed.

Lemma shutdown_inv_start s : rtc shutdown_step shutdown_start s → shutdown_inv s.
Proof.
  intros H. assert (shutdown_inv shutdown_start) as Hi by done. revert Hi.
  induction H as [|x y z Hxy _ IH]; [done|]. intros Hi. apply IH. by eapply shutdown_inv_step.
Qed.

(** The receive routine can leave its handler, and the broadcaster its loop. *)
Lemma receiver_returns s : shutdown_inv s → sh_stop s = SWait → sh_recv s ≠ RLock →
  ∃ b, rtc shutdown_step s (mkShutdown true SWait RReturned b).
Proof.
  destruct s as [q st r b]. unfold shutdown_inv. cbn. intros (H1 & H2 & _) -> Hr. rewrite H2. exists b.
  destruct r; [|eapply rtc_l; [apply recv_done|]|done|by specialize (H1 eq_refl)|apply rtc_refl].
  all: apply rtc_once, recv_quit.
Qed.

Lemma broadcaster_returns s r b :
  rtc shutdown_step (mkShutdown true s r b) (mkShutdown true s r BReturned).
Proof.
  assert (shutdown_step (mkShutdown true s r BSelect) (mkShutdown true s r BReturned)) as Hq by apply bcast_quit.
  destruct b; [by apply rtc_once| |apply rtc_refl]. eapply rtc_l; [apply bcast_sent|by apply rtc_once].
Qed.

(** That is the only way to get stuck: once [stopRunning] waits, it can return
    exactly if the receive routine is not at a lock of [hsMutex]. *)
Theorem stop_returns_unless_deadlocked s :
  rtc shutdown_step shutdown_start s → sh_stop s = SWait →
  ((∃ s', rtc shutdown_step s s' ∧ sh_stop s' = SReturned) ↔ sh_recv s ≠ RLock).
Proof.
  intros H%shutdown_inv_start Hw. split.
  - intros (s' & Hs' & E) Hr. assert (deadlocked s) as Hd by (split; [by right|done]).
    destruct (deadlocked_stays _ _ Hd Hs') as [[|] _]; congruence.
  - intros Hr. destruct (receiver_returns s H Hw Hr) as [b Hb]. eexists. split; [|shelve].
    etrans; [exact Hb|]. etrans; [apply broadcaster_returns|].
    eapply rtc_l; [apply stop_wait|]. apply rtc_once, stop_reset.
    Unshelve. done.
Qed.

Lemma stop_returns_unless_deadlocked_witness :
  (∃ s', rtc shutdown_step (mkShutdown true SWait RHandle BSelect) s' ∧ sh_stop s' = SReturned) ↔ RHandle ≠ RLock.
Proof.
  refine (stop_returns_unless_deadlocked (mkShutdown true SWait RHandle BSelect) _ eq_refl).
  eapply rtc_l; [apply recv_event|]. eapply rtc_l; [apply stop_lock; reflexivity|].
  apply rtc_once, stop_close.
Defined.
