(* ===== verification/StateMachine.v ===== *)
(** * StateMachine: the consensus state machine of a node

    src/consensus/algorand/core/context.go, state.go and verifier.go.  One
    goroutine owns the machine and runs one event (a message, a timeout, a new
    chain head) to its end; an event is a function on the [Context], with the
    effects on other goroutines recorded in order.  A Go panic and a channel
    operation that waits are outcomes of their own. *)

From S2P Require Import Prelude Bytes Params Crypto ForwardSecure Types VoteSet MinerContract.
From S2P Require Import Sortition MinerKeys Engine Ticker.

Local Open Scope Z_scope.

(** ** The world around the machine *)

Inductive chain_error := ErrKnownBlock | ChainErr (code : Z).

#[export] Instance chain_error_eq : EqDecision chain_error.
Proof. solve_decision. Defined.

(** The account state, the receipts of a block and the counters of its mortgage
    contracts belong to the chain. *)
Class World := {
  StateDB : Type;
  Receipts : Type;
  MortgageContractCounter : Type;
  #[global] world_reader :: StateReader StateDB;
  #[global] world_writer :: StateWriter StateDB;
  #[global] world_body :: BodyHash Receipts
}.

(** The case the inner [select] of [receiveRoutine] takes after a new chain head:
    the snapshot loop takes the head, one of the two quit channels is closed, or
    none of the three is ready. *)
Inductive head_select := HeadTaken | SnappingQuit | RunningQuit | NoneReady.

#[export] Instance head_select_eq : EqDecision head_select.
Proof. solve_decision. Defined.

(** What the machine asks of the chain, the transaction pool and the clock, as
    they answer during one event. *)
Record Env `{W : World} := mkEnv {
  env_now : Z;                                      (* time.Now().Unix() *)
  env_reader : ChainReader StateDB;                 (* consensus.ChainReader *)
  env_StateAt : Hash → option StateDB;
  env_GetHeaderByNumber : Z → option Header;
  env_GetBlock : Hash → Z → option Block;
  env_EnableMinerTracker : StateDB → Z → Z → StateDB;
  env_ValidateBody : Block → option chain_error;
  env_Process : Block → StateDB → (StateDB * Receipts * Z * MortgageContractCounter) + chain_error;
  env_ValidateState : Block → Block → StateDB → Receipts → Z → option chain_error;
  env_BuildProof : StateDB → Hash → Z → Address → list CertVoteStorage → option NodeList;
  env_InsertChain : Block → option chain_error;
  env_WriteBlock : Block → option Receipts → StateDB → bool + chain_error;  (* true: CanonStatTy *)
  env_Pending : bool;                               (* TxPool().Pending() succeeds *)
  env_commitTransactions : StateDB → Header →
    StateDB * Header * list Transaction * Receipts * MortgageContractCounter;
  env_stillMining : bool;                           (* IsMining after the transactions *)
  env_BlockYear : Z;
  env_IsEIP158 : Z → bool;
  env_select : head_select
}.

(** ** Messages and effects *)

Definition msgChanSize : nat := 4096.
Definition fromMe : string := "me"%string.

Inductive payload :=
| DLeader (d : ProposalLeaderData)
| DBlock (d : ProposalBlockData)
| DVote (d : VoteData)
| DStatus (d : StatusData)
| DHasVote (d : HasVoteData)
| DHasProposal (d : HasProposalData).

Record message := mkMessage { msg_code : MsgCode; msg_data : payload; msg_from : string }.

(** What the event does outside of the context. *)
Inductive effect `{W : World} :=
| XSend (m : message)                          (* to the machine's own queue *)
| XBroadcast (m : message)
| XSub (chanId : bytes) (timeout : Z)
| XUnSub (chanId : bytes)
| XRequest (chanId : bytes) (value : Hash)
| XPublish (chanId : bytes) (data : ProposalBlockData)
| XSchedule (ti : TimeoutInfo)
| XInsertChain (b : Block)                     (* accepted by InsertChain *)
| XWriteBlock (b : Block) (st : StateDB)       (* accepted by WriteBlockWithStateIfNotExists *)
| XMined (b : Block)                           (* NewMinedBlockEvent *)
| XChainHead (b : Block) (counter : option MortgageContractCounter)
                                               (* ChainHeadEvent and UpdateMortgage *)
| XSnapHead (b : Block).                       (* to the snapshot loop *)

(** ** The state *)

Inductive state_kind :=
| StateNewHeight (chainHeadBlock : Block)
| StateProposal (stateRound : Z) (stateStartingValue : Hash)
| StateFiltering
| StateCertifying (certWaiting : Hash)
| StateFirstFinishing
| StateSecondFinishing (waitingBlockOfValueForNextVote : Hash).

(** [StateBase] and the state that embeds it. *)
Record State := mkState {
  st_kind : state_kind;
  sortitionWeight : Z;
  sortitionHash : Z;
  sortitionProof : Z
}.
#[export] Instance State_fields : Fields State := λ s,
  mkState (st_kind s) (sortitionWeight s) (sortitionHash s) (sortitionProof s).

Inductive StateEvent := Unchanged | NewRound | HeightEnd.

Definition IsChanged (e : StateEvent) : bool :=
  match e with Unchanged => false | _ => true end.

Section context.
Context `{W : World}.

Record blockState := mkBlockState {
  bs_err : option chain_error;
  bs_statedb : option StateDB;
  bs_receipts : option Receipts;
  bs_counter : option MortgageContractCounter
}.

(** A result channel of a verification worker: the worker runs, its result is in
    the buffer, or the result was taken. *)
Inductive result_chan := ChanRunning (b : Block) | ChanReady (r : blockState) | ChanDrained.

Record Ctx := mkCtx {
  cx_config : AlgorandConfig;
  cx_gasFloor : Z;
  cx_gasCeil : Z;
  cx_extra : bytes;
  cx_mining : bool;
  cx_recover : bool;
  cx_mkm : MinerKeyManager;
  cx_currentMiner : Address;
  cx_nextMiner : Address;
  cx_state : option State;
  (* HeightState *)
  cx_parent : Block;
  cx_parentStatedb : option StateDB;
  cx_parentRoundVoteSet : option RoundVoteSet;
  cx_parentCertVoteRound : Z;
  cx_parentProposalBlockData : option ProposalBlockData;
  cx_header : Header;
  cx_Height : Z;
  cx_Round : Z;
  cx_Step : Z;
  cx_EmptyValue : Hash;
  cx_StartingValue : Hash;
  cx_counter : HeightVoteSet;
  cx_ProposalLeader : option (gmap Z ProposalLeaderData);      (* None: the nil map *)
  cx_ReceivedProposalBlock : gmap Hash ProposalBlockData;
  cx_verifingBlockState : gmap Hash result_chan;
  cx_verifiedBlockState : gmap Hash blockState;
  cx_WaitingBlockForValue : Hash;
  cx_WaitingBlockForRound : Z;
  cx_statedb : option StateDB;
  cx_receipts : option Receipts;
  cx_mortgageContractCounter : option MortgageContractCounter;
  cx_newBlock : option Block;
  (* channels and effects *)
  cx_msgChan : list message;
  cx_broadcastMsgCh : list message;
  cx_returned : bool;                            (* receiveRoutine has returned *)
  cx_trace : list effect
}.
#[global] Instance Ctx_fields : Fields Ctx := λ c,
  mkCtx (cx_config c) (cx_gasFloor c) (cx_gasCeil c) (cx_extra c) (cx_mining c) (cx_recover c)
    (cx_mkm c) (cx_currentMiner c) (cx_nextMiner c) (cx_state c) (cx_parent c) (cx_parentStatedb c)
    (cx_parentRoundVoteSet c) (cx_parentCertVoteRound c) (cx_parentProposalBlockData c) (cx_header c)
    (cx_Height c) (cx_Round c) (cx_Step c) (cx_EmptyValue c) (cx_StartingValue c) (cx_counter c)
    (cx_ProposalLeader c) (cx_ReceivedProposalBlock c) (cx_verifingBlockState c)
    (cx_verifiedBlockState c) (cx_WaitingBlockForValue c) (cx_WaitingBlockForRound c) (cx_statedb c)
    (cx_receipts c) (cx_mortgageContractCounter c) (cx_newBlock c) (cx_msgChan c)
    (cx_broadcastMsgCh c) (cx_returned c) (cx_trace c).

(** ** Outcomes *)

(** Why an event panics. *)
Inductive panic_reason :=
| PStateNotStarted      (* gotoState without a machine *)
| PStateStarted         (* startStateMachine on a running machine *)
| PVoteStep             (* the type of a vote does not match the step *)
| PEmptyCvs             (* no cert votes for a certified value *)
| PBuildProof           (* the trie proof of a certificate cannot be built *)
| PInsert               (* the chain rejects a certified block *)
| PNewBlock             (* a new block cannot be made *)
| PStateAt              (* no state for the chain head *)
| PNilBlockState        (* the cached state of a certified block is nil *)
| PNilParent            (* a verification worker finds no parent block *)
| PNilLeaders           (* write to the nil map of leaders *)
| PNilParentState       (* the parent's state is used before it is set *)
| PEmptyCertificate     (* the head's certificate has no votes *)
| PNilHeader            (* the parent header of the head is missing, or its weights abort *)
| PCredential           (* a division by zero or a failed assertion in a credential check *)
| PLeaderProof          (* the proof of a compared credential has no hash *)
| PSign                 (* a division by zero or an index out of range when signing *)
| PUpdateKeys.          (* the same when keys are erased *)

Inductive outcome (A : Type) :=
| Done (a : A) (c : Ctx)
| Panic (p : panic_reason)
| Blocked.
#[global] Arguments Done {_} _ _.
#[global] Arguments Panic {_} _.
#[global] Arguments Blocked {_}.

Definition M (A : Type) : Type := Ctx → outcome A.

#[global] Instance M_ret : MRet M := λ A a c, Done a c.
#[global] Instance M_bind : MBind M := λ A B k m c,
  match m c with
  | Done a c => k a c
  | Panic p => Panic p
  | Blocked => Blocked
  end.

Definition get : M Ctx := λ c, Done c c.
Definition gets {A : Type} (f : Ctx → A) : M A := λ c, Done (f c) c.
Definition modify (f : Ctx → Ctx) : M unit := λ c, Done tt (f c).
Definition panic {A : Type} (p : panic_reason) : M A := λ _, Panic p.
Definition block {A : Type} : M A := λ _, Blocked.

(** A nil pointer or a failed operation that panics. *)
Definition unwrap {A : Type} (p : panic_reason) (o : option A) : M A :=
  match o with Some a => mret a | None => panic p end.

Definition emit (x : effect) : M unit := modify (λ c, c <| cx_trace ::= λ t, t ++ [x] |>).
End context.

#[export] Hint Unfold get gets modify panic block : kal.

Section machine.
Context `{CR : Crypto} `{BO : Boost} `{W : World} (env : Env).

(** ** Sending (context.go) *)

Definition sendToMessageChan (msg : message) (ch : list message) : list message :=
  if (length ch <? msgChanSize)%nat then ch ++ [msg] else ch.

Definition sendToSelf (code : MsgCode) (data : payload) : M unit :=
  emit (XSend (mkMessage code data fromMe)) ;;
  modify (λ c, c <| cx_msgChan ::= sendToMessageChan (mkMessage code data fromMe) |>).

Definition broadcastMsg (code : MsgCode) (data : payload) : M unit :=
  recover ← gets cx_recover;
  if (recover : bool) then mret tt
  else
    emit (XBroadcast (mkMessage code data fromMe)) ;;
    modify (λ c, c <| cx_broadcastMsgCh ::= sendToMessageChan (mkMessage code data fromMe) |>).

Definition increaseFromRound : Z := 3.
Definition increaseFromStep : Z := 8.

(** [math.Pow(2, n)] is exact for small [n] and exceeds 30 from [n = 5] on. *)
Definition timerFactor (round step : Z) : Z :=
  let factor := 1 in
  let factor :=
    if increaseFromRound <=? round then
      let n := add32 (sub32 round increaseFromRound) 1 in
      let r := if 5 <=? n then 30 else 2 ^ n in
      mul64 factor r
    else factor in
  if increaseFromStep <=? step then
    let s := add32 (sub32 step increaseFromStep `div` 2) 1 in
    let s := if 10 <? s then 10 else s in
    mul64 factor s
  else factor.

Definition makeChanId (height round : Z) : bytes := be_bytes 8 height ++ be_bytes 4 round.

Definition startTimer : M unit :=
  c ← get;
  let ti := mkTimeoutInfo
    (mul64 (u64 (TimeoutTwoLambdaDuration (cx_config c))) (timerFactor (cx_Round c) (cx_Step c)))
    (cx_Height c) (cx_Round c) (cx_Step c) in
  match st_kind <$> cx_state c with
  | Some (StateProposal _ _) =>
      emit (XSub (makeChanId (cx_Height c) (cx_Round c)) (s64 (mul64 (ti_Duration ti) 2)))
  | _ => mret tt
  end ;;
  emit (XSchedule ti).

Definition clearTimer : M unit :=
  c ← get;
  match st_kind <$> cx_state c with
  | Some (StateCertifying _) => emit (XUnSub (makeChanId (cx_Height c) (cx_Round c)))
  | _ => mret tt
  end.

(** [OnExit] of the current state. *)
Definition OnExit (s : State) : M unit :=
  match st_kind s with
  | StateProposal _ _ | StateCertifying _ | StateSecondFinishing _ => clearTimer
  | _ => mret tt
  end.

(** [gotoState]: [OnEnter] of the new state is the continuation. *)
Definition gotoState (k : state_kind) (OnEnter : M unit) : M unit :=
  s ← gets cx_state;
  s ← unwrap PStateNotStarted s;
  OnExit s ;;
  modify (λ c, c <| cx_state := Some (mkState k 0 0 0) |>) ;;
  OnEnter.

(** Writing a field of the state object. *)
Definition modifyState (f : State → State) : M unit :=
  modify (λ c, c <| cx_state ::= λ s, f <$> s |>).

(** ** Leaders and proposal blocks (context.go) *)

Definition getProposalLeader (c : Ctx) (round : Z) : option ProposalLeaderData :=
  match cx_ProposalLeader c with
  | None => None
  | Some leaders => if round =? BadRound then None else leaders !! round
  end.

Definition GetProposalLeader (c : Ctx) (height round : Z) : option ProposalLeaderData :=
  if negb (cx_Height c =? height) then None else getProposalLeader c round.

Definition UpdateProposalLeader (value : ProposalLeaderData) : M unit :=
  leaders ← gets cx_ProposalLeader;
  leaders ← unwrap PNilLeaders leaders;
  modify (λ c, c <| cx_ProposalLeader := Some (<[cr_Round (pl_Credential value) := value]> leaders) |>).

Definition getProposalBlock (c : Ctx) (value : Hash) : option ProposalBlockData :=
  cx_ReceivedProposalBlock c !! value.

Definition GetProposalBlock (c : Ctx) (height : Z) (value : Hash) : option ProposalBlockData :=
  if negb (cx_Height c =? height) then None else cx_ReceivedProposalBlock c !! value.

Definition SaveProposalBlock (data : ProposalBlockData) : M unit :=
  modify (λ c, c <| cx_ReceivedProposalBlock ::= <[Block_Hash (pb_Block data) := data]> |>).

Definition dropProposalBlock (b : Block) : M unit :=
  modify (λ c, c <| cx_ReceivedProposalBlock ::= delete (Block_Hash b) |>).

Definition saveVerifiedBlockState (value : Hash) (cache : blockState) : M unit :=
  modify (λ c, c <| cx_verifiedBlockState ::= <[value := cache]> |>).

Definition getVerifiedBlockState (c : Ctx) (value : Hash) : option blockState :=
  cx_verifiedBlockState c !! value.

Definition isNextVoteEnoughForEmpty (c : Ctx) (round : Z) : bool :=
  HeightVoteSet_IsNextVoteEnoughForEmptyAtAnyStep (cx_counter c) round (cx_EmptyValue c).

(** ** Verification of blocks (verifier.go) *)

Definition failedState (err : chain_error) : blockState := mkBlockState (Some err) None None None.

(** [None]: [parent.Root()] of a nil parent. *)
Definition verifyBlockWorker (b : Block) : option blockState :=
  match env_ValidateBody env b with
  | Some (ChainErr code) => Some (failedState (ChainErr code))
  | Some ErrKnownBlock | None =>
      parent ← env_GetBlock env (Block_ParentHash b) (sub64 (Block_NumberU64 b) 1);
      match env_StateAt env (Block_Root parent) with
      | None => Some (failedState (ChainErr 0))
      | Some statedb =>
          let statedb := env_EnableMinerTracker env statedb (Block_NumberU64 b)
                           (Block_TotalBalanceOfMiners parent) in
          match env_Process env b statedb with
          | inr err => Some (failedState err)
          | inl (statedb, receipts, usedGas, counter) =>
              match env_ValidateState env b parent statedb receipts usedGas with
              | Some err => Some (failedState err)
              | None => Some (mkBlockState None (Some statedb) (Some receipts) (Some counter))
              end
          end
      end
  end.

(** The channel [verifyBlockAsync] returns: a fresh one that holds a known
    result, or the one registered for the block. *)
Inductive chan_ref := FreshChan (r : blockState) | BlockChan (key : Hash).

Definition verifyBlockAsync (b : Block) : M chan_ref :=
  let key := Block_Hash b in
  c ← get;
  match cx_verifiedBlockState c !! key, cx_verifingBlockState c !! key with
  | Some result, _ => mret (FreshChan result)
  | None, Some _ => mret (BlockChan key)
  | None, None =>
      modify (λ c, c <| cx_verifingBlockState ::= <[key := ChanRunning b]> |>) ;;
      mret (BlockChan key)
  end.

(** [<-resultCh]: waits for a running worker, and for ever on a channel whose
    result was taken. *)
Definition receiveResult (r : chan_ref) : M blockState :=
  match r with
  | FreshChan result => mret result
  | BlockChan key =>
      c ← get;
      match cx_verifingBlockState c !! key with
      | Some (ChanRunning b) =>
          result ← unwrap PNilParent (verifyBlockWorker b);
          modify (λ c, c <| cx_verifingBlockState ::= <[key := ChanDrained]> |>) ;;
          mret result
      | Some (ChanReady result) =>
          modify (λ c, c <| cx_verifingBlockState ::= <[key := ChanDrained]> |>) ;;
          mret result
      | _ => block
      end
  end.

Definition verifyBlockSync (b : Block) : M (option chain_error) :=
  let key := Block_Hash b in
  c ← get;
  match cx_verifiedBlockState c !! key with
  | Some result => mret (bs_err result)
  | None =>
      resultCh ← verifyBlockAsync b;
      result ← receiveResult resultCh;
      saveVerifiedBlockState (Block_Hash b) result ;;
      match bs_err result with
      | Some _ => dropProposalBlock b
      | None => mret tt
      end ;;
      mret (bs_err result)
  end.

Definition isSoftVoteEnoughForNonEmptyValueWhoseBlockIsReceivedAndValid (round : Z) : M (bool * Hash) :=
  c ← get;
  let '(exists_, nonEmptyValue) := IsSoftVoteEnoughForNonEmpty (cx_counter c) (cx_EmptyValue c) round in
  if (exists_ : bool) then
    match getProposalBlock c nonEmptyValue with
    | Some data =>
        err ← verifyBlockSync (pb_Block data);
        match err with
        | None => mret (true, nonEmptyValue)
        | Some _ => mret (false, 0)
        end
    | None => mret (false, 0)
    end
  else mret (false, 0).

(** ** Sortition, proposals and votes (context.go) *)

Definition getMinerKey (miner : Address) (height : Z) : M (MinerKey + miner_error) :=
  c ← get;
  let '(mkm, r) := GetMinerKey (cx_mkm c) miner height in
  modify (λ c, c <| cx_mkm := mkm |>) ;;
  mret r.

(** The hash, the proof and the weight.  With an error the weight is 0, and the
    hash and the proof are not used. *)
Definition sortition : M (Z * Z * Z) :=
  c ← get;
  if negb (cx_mining c) then mret (0, 0, 0)
  else
    mk ← getMinerKey (cx_currentMiner c) (cx_Height c);
    match mk with
    | inr _ => mret (0, 0, 0)
    | inl mk =>
        statedb ← unwrap PNilParentState (cx_parentStatedb c);
        r ← unwrap PCredential
          (MinerKey_Sortition mk (cx_Height c) (cx_Round c) (cx_Step c) (Block_Seed (cx_parent c))
             statedb (Block_TotalBalanceOfMiners (cx_parent c)));
        match r with
        | inl r => mret r
        | inr _ => mret (0, 0, 0)
        end
    end.

(** [s.sortitionHash, s.sortitionProof, s.sortitionWeight = s.sortition()] *)
Definition drawSortition : M Z :=
  '(hash, proof, weight) ← sortition;
  modifyState (λ s, mkState (st_kind s) weight hash proof) ;;
  mret weight.

Definition sendProposal (value : Hash) (proof j : Z) : M unit :=
  c ← get;
  if cx_recover c then mret tt
  else
    let proposer := cx_currentMiner c in
    mk ← getMinerKey proposer (cx_Height c);
    match mk with
    | inr _ => mret tt
    | inl mk =>
        let credential := mkCredential proposer (cx_Height c) (cx_Round c) RoundStep1Proposal proof j in
        let proposalLeader := mkProposalLeaderData value zeroSignature credential in
        sig ← unwrap PSign (MinerKey_Sign mk (cx_Height c) (ProposalLeaderData_SignBytes proposalLeader));
        match sig with
        | inr _ => mret tt
        | inl sig =>
            let proposalLeader := proposalLeader <| pl_ESignValue := sig |> in
            sendToSelf ProposalLeaderMsg (DLeader proposalLeader) ;;
            broadcastMsg ProposalLeaderMsg (DLeader proposalLeader) ;;
            match cx_newBlock c with
            | Some newBlock =>
                if value =? Block_Hash newBlock then
                  let proposalBlock := mkProposalBlockData newBlock sig credential in
                  sendToSelf ProposalBlockMsg (DBlock proposalBlock) ;;
                  emit (XPublish (makeChanId (cx_Height c) (cx_Round c)) proposalBlock)
                else mret tt
            | None => mret tt
            end
        end
    end.

Definition sendVote (voteType : Z) (value : Hash) (proof j : Z) : M unit :=
  c ← get;
  if cx_recover c then mret tt
  else if negb (voteType =? VoteTypeOfStep (cx_Step c)) then panic PVoteStep
  else
    mk ← getMinerKey (cx_currentMiner c) (cx_Height c);
    match mk with
    | inr _ => mret tt
    | inl mk =>
        let credential := mkCredential (cx_currentMiner c) (cx_Height c) (cx_Round c) (cx_Step c)
                            proof j in
        let vote := mkVoteData value zeroSignature credential in
        sig ← unwrap PSign (MinerKey_Sign mk (cx_Height c) (VoteData_SignBytes vote));
        match sig with
        | inr _ => mret tt
        | inl sig =>
            let vote := vote <| vt_ESignValue := sig |> in
            sendToSelf VoteMsg (DVote vote) ;;
            broadcastMsg VoteMsg (DVote vote)
        end
    end.

(** [sendVote] with the fields of the state object. *)
Definition sendVoteOf (voteType : Z) (value : Hash) : M unit :=
  s ← gets cx_state;
  s ← unwrap PStateNotStarted s;
  sendVote voteType value (sortitionProof s) (sortitionWeight s).

(** ** Making and inserting blocks (context.go) *)

Inductive new_block_error := ErrStopped | NewBlockErr.

(** [NewBlock]: [None] is success. *)
Definition newBlock : M (option new_block_error) :=
  modify (λ c, c <| cx_statedb := None |> <| cx_receipts := None |>
                 <| cx_mortgageContractCounter := None |> <| cx_newBlock := None |>) ;;
  c ← get;
  let parent := cx_parent c in
  let now := env_now env in
  let timestamp := if u64 now <=? Block_Time parent then s64 (add64 (Block_Time parent) 1) else now in
  match env_StateAt env (Block_Root parent) with
  | None => mret (Some NewBlockErr)
  | Some statedb =>
      let height := Block_Number parent + 1 in
      parentStatedb ← unwrap PNilParentState (cx_parentStatedb c);
      let mv := GetMinerVerifier (cx_config c) parentStatedb (cx_currentMiner c) (u64 height) in
      let header := Header_SetVersion ConsensusVersion
        (mkHeader (Block_Hash parent) 0 (mv_coinbase mv) 0 0 0 0 0 height
           (CalcGasLimit parent (cx_gasFloor c) (cx_gasCeil c)) 0 (u64 timestamp) (cx_extra c)
           0 0 0 emptyCertificate) in
      modify (λ c, c <| cx_header := header |>) ;;
      mk ← getMinerKey (cx_currentMiner c) (u64 height);
      match mk with
      | inr _ => mret (Some NewBlockErr)
      | inl mk =>
          match MinerKey_Seed mk (u64 height) (Block_Seed parent) (Block_Hash parent) with
          | inr _ => mret (Some NewBlockErr)
          | inl (seed, proof) =>
              let header := Header_SetSeed seed header in
              let header := header <| hd_Certificate ::= Certificate_SetSeedProof proof |> in
              let header := header <| hd_Certificate ::= Certificate_SetProposer (cx_currentMiner c) |> in
              modify (λ c, c <| cx_header := header |>) ;;
              match Prepare (CH := env_reader env) header with
              | inr _ => mret (Some NewBlockErr)
              | inl header =>
                  let statedb := env_EnableMinerTracker env statedb (u64 (hd_Number header))
                                   (Block_TotalBalanceOfMiners parent) in
                  modify (λ c, c <| cx_header := header |> <| cx_statedb := Some statedb |>) ;;
                  if negb (env_Pending env) then mret (Some NewBlockErr)
                  else
                    let '(statedb, header, validatedTxs, validatedReceipts, counter) :=
                      env_commitTransactions env statedb header in
                    modify (λ c, c <| cx_header := header |> <| cx_statedb := Some statedb |>) ;;
                    if negb (env_stillMining env) then mret (Some ErrStopped)
                    else
                      let '(block, header, statedb) :=
                        Finalize (env_BlockYear env) (env_IsEIP158 env) header statedb
                          validatedTxs validatedReceipts in
                      modify (λ c, c <| cx_header := header |> <| cx_statedb := Some statedb |>
                                     <| cx_newBlock := Some block |>
                                     <| cx_receipts := Some validatedReceipts |>
                                     <| cx_mortgageContractCounter := Some counter |>) ;;
                      mret None
              end
          end
      end
  end.

Definition insertIntoBlockChain (b : Block) : M (option chain_error) :=
  c ← get;
  match getVerifiedBlockState c (Block_Hash b) with
  | None =>
      match env_InsertChain env b with
      | None => emit (XInsertChain b) ;; emit (XMined b) ;; mret None
      | Some err => mret (Some err)
      end
  | Some cache =>
      match bs_err cache with
      | Some err => mret (Some err)
      | None =>
          statedb ← unwrap PNilBlockState (bs_statedb cache);
          match env_WriteBlock env b (bs_receipts cache) statedb with
          | inr err => mret (Some err)
          | inl stat =>
              emit (XWriteBlock b statedb) ;;
              emit (XMined b) ;;
              (if (stat : bool) then emit (XChainHead b (bs_counter cache)) else mret tt) ;;
              mret None
          end
      end
  end.

(** ** StateBase (state.go) *)

Definition theState : M State :=
  s ← gets cx_state; unwrap PStateNotStarted s.

Definition OnPotentialVoteEnough (value : Hash) : M unit :=
  c ← get;
  match getProposalBlock c value with
  | Some blockData => verifyBlockAsync (pb_Block blockData) ;; mret tt
  | None => mret tt
  end.

Definition vote_le (a b : CertVoteStorage) : Prop := CertVoteStorage_Less b a = false.

#[global] Instance vote_le_dec a b : Decision (vote_le a b).
Proof. unfold vote_le. apply _. Defined.

(** [sort.Sort(types.CertVoteStorageSlice(cvs))] *)
Definition sortVotes (cvs : list CertVoteStorage) : list CertVoteStorage := merge_sort vote_le cvs.

(** The block with the certificate of the votes for it. *)
Definition sealBlock (blockData : ProposalBlockData) (round : Z) (value : Hash)
    (cvs : list CertVoteStorage) (nodes : NodeList) : Block :=
  let header := bl_header (pb_Block blockData) in
  Block_WithSeal (pb_Block blockData)
    (header <| hd_Certificate := mkCertificate (u64 (hd_Number header)) round value
                 (ToProposalStorage blockData) cvs nodes |>).

Definition OnCertVoteEnough (value : Hash) (round : Z) : M StateEvent :=
  c ← get;
  match getProposalBlock c value with
  | None =>
      modify (λ c, c <| cx_WaitingBlockForValue := value |> <| cx_WaitingBlockForRound := round |>) ;;
      mret Unchanged
  | Some blockData =>
      let height := u64 (hd_Number (bl_header (pb_Block blockData))) in
      let cvs := sortVotes (GetCertVoteStorage (cx_counter c) round value) in
      if (length cvs =? 0)%nat then panic PEmptyCvs
      else
        statedb ← unwrap PNilParentState (cx_parentStatedb c);
        nodes ← unwrap PBuildProof
          (env_BuildProof env statedb (Block_Root (cx_parent c)) height
             (cr_Address (pb_Credential blockData)) cvs);
        err ← insertIntoBlockChain (sealBlock blockData round value cvs nodes);
        match err with
        | None | Some ErrKnownBlock => mret HeightEnd
        | Some (ChainErr _) => panic PInsert
        end
  end.

Definition OnProposalLeaderReceived (value : ProposalLeaderData) : M unit :=
  c ← get;
  let round := cr_Round (pl_Credential value) in
  if (round <? cx_Round c) || ((round =? cx_Round c) && negb (cx_Step c =? RoundStep1Proposal))
  then mret tt
  else
    better ← match getProposalLeader c round with
             | None => mret true
             | Some leader => unwrap PLeaderProof (ProposalLeaderData_LessThan value leader)
             end;
    if (better : bool) then UpdateProposalLeader value else mret tt.

Definition StateBase_OnProposalDataComplete (data : ProposalBlockData) : M StateEvent :=
  c ← get;
  if cx_WaitingBlockForValue c =? Block_Hash (pb_Block data) then
    err ← verifyBlockSync (pb_Block data);
    match err with
    | None =>
        c ← get;
        OnCertVoteEnough (cx_WaitingBlockForValue c) (cx_WaitingBlockForRound c)
    | Some _ => mret Unchanged
    end
  else mret Unchanged.

(** ** Entering states (state.go) *)

Definition enterProposal (stateRound : Z) (stateStartingValue : Hash) : M unit :=
  modify (λ c, c <| cx_Round := stateRound |> <| cx_StartingValue := stateStartingValue |>
                 <| cx_Step := RoundStep1Proposal |>) ;;
  c ← get;
  broadcastMsg StatusMsg (DStatus (mkStatusData (cx_Height c) (cx_Round c))) ;;
  startTimer ;;
  weight ← drawSortition;
  if weight =? 0 then mret tt
  else
    c ← get;
    if (cx_Round c =? 1) || isNextVoteEnoughForEmpty c (sub32 (cx_Round c) 1) then
      err ← newBlock;
      match err with
      | Some ErrStopped => mret tt
      | Some NewBlockErr => panic PNewBlock
      | None =>
          b ← gets cx_newBlock;
          b ← unwrap PNewBlock b;
          s ← theState;
          sendProposal (Block_Hash b) (sortitionProof s) (sortitionWeight s)
      end
    else
      s ← theState;
      sendProposal (cx_StartingValue c) (sortitionProof s) (sortitionWeight s).

Definition gotoProposal (round : Z) (value : Hash) : M unit :=
  gotoState (StateProposal round value) (enterProposal round value).

Definition resetParentRoundVoteSet : M unit :=
  c ← get;
  let parent := cx_parent c in
  if Block_NumberU64 parent =? 0 then mret tt
  else
    let certificate := Block_Certificate parent in
    let votes := (λ certVote, NewVoteDataFromCertVoteStorage certVote (Block_NumberU64 parent)
                    (ct_Round certificate) (ct_Value certificate)) <$> ct_CertVoteSet certificate in
    let threshold := (GetCommitteeNumber (Block_NumberU64 parent) RoundStep3Certifying).1 in
    rvs ← unwrap PEmptyCertificate (NewRoundVoteSetFromCertificates votes threshold);
    modify (λ c, c <| cx_parentRoundVoteSet := Some rvs |>
                   <| cx_parentCertVoteRound := ct_Round certificate |>).

Definition GetParentRoundVoteSet (c : Ctx) (height : Z) : option RoundVoteSet * Z :=
  if negb (sub64 (cx_Height c) 1 =? height) then (None, BadRound)
  else (cx_parentRoundVoteSet c, cx_parentCertVoteRound c).

Definition resetParentProposalBlockData : M unit :=
  c ← get;
  let parent := cx_parent c in
  if Block_NumberU64 parent =? 0 then mret tt
  else
    weight ← unwrap PNilHeader
      (GetSortitionWeight (cx_config c) (env_GetHeaderByNumber env) (env_StateAt env)
         (Block_NumberU64 parent) (Block_Proof parent) (Block_Proposer parent));
    let certificate := Block_Certificate parent in
    modify (λ c, c <| cx_parentProposalBlockData :=
      Some (NewProposalBlockDataFromProposalStorage (ct_Proposal certificate) parent weight) |>).

Definition GetParentProposalBlockData (c : Ctx) (height : Z) : option ProposalBlockData :=
  if negb (sub64 (cx_Height c) 1 =? height) then None else cx_parentProposalBlockData c.

Definition emptyHeaderOf (parent : Block) : Header :=
  mkHeader (Block_Hash parent) 0 0 0 0 0 0 0 (Block_Number parent + 1) 0 0 0 [] 0 0 0 emptyCertificate.

(** The assignments of [OnEnter] from [s.header] to [s.newBlock]. *)
Definition initHeightState (emptyHeader : Header) (c : Ctx) : Ctx :=
  let emptyValue := AlgorandEmptyValue emptyHeader in
  mkCtx (cx_config c) (cx_gasFloor c) (cx_gasCeil c) (cx_extra c) (cx_mining c) (cx_recover c)
    (cx_mkm c) (cx_currentMiner c) (cx_nextMiner c) (cx_state c) (cx_parent c) (cx_parentStatedb c)
    (cx_parentRoundVoteSet c) (cx_parentCertVoteRound c) (cx_parentProposalBlockData c)
    emptyHeader                         (* header *)
    (u64 (hd_Number emptyHeader))       (* Height *)
    BadRound                            (* Round *)
    BadStep                             (* Step *)
    emptyValue                          (* EmptyValue *)
    emptyValue                          (* StartingValue *)
    NewHeightVoteSet                    (* counter *)
    (Some ∅)                            (* ProposalLeader *)
    ∅                                   (* ReceivedProposalBlock *)
    ∅                                   (* verifingBlockState *)
    ∅                                   (* verifiedBlockState *)
    emptyValue                          (* WaitingBlockForValue *)
    BadRound                            (* WaitingBlockForRound *)
    None                                (* statedb *)
    None                                (* receipts *)
    None                                (* mortgageContractCounter *)
    None                                (* newBlock *)
    (cx_msgChan c) (cx_broadcastMsgCh c) (cx_returned c) (cx_trace c).

Definition enterNewHeight (chainHeadBlock : Block) : M unit :=
  let parent := chainHeadBlock in
  parentStatedb ← unwrap PStateAt (env_StateAt env (Block_Root parent));
  let emptyHeader := emptyHeaderOf parent in
  modify (λ c, c <| cx_currentMiner := cx_nextMiner c |> <| cx_parent := parent |>
                 <| cx_parentStatedb := Some parentStatedb |>) ;;
  resetParentRoundVoteSet ;;
  resetParentProposalBlockData ;;
  modify (initHeightState emptyHeader) ;;
  value ← gets cx_EmptyValue;
  gotoProposal 1 value.

(** [tryCertValue] of [StateCertifying]. *)
Definition tryCertValue (value : Hash) : M unit :=
  c ← get;
  match getProposalBlock c value with
  | Some data =>
      err ← verifyBlockSync (pb_Block data);
      match err with
      | Some _ => mret tt
      | None => sendVoteOf VoteTypeCert value
      end
  | None =>
      modifyState (λ s, s <| st_kind := StateCertifying value |>) ;;
      emit (XRequest (makeChanId (cx_Height c) (cx_Round c)) value)
  end.

Definition enterCertifying : M unit :=
  modify (λ c, c <| cx_Step := RoundStep3Certifying |>) ;;
  modifyState (λ s, s <| st_kind := StateCertifying 0 |>) ;;
  startTimer ;;
  weight ← drawSortition;
  if weight =? 0 then mret tt
  else
    c ← get;
    let '(exists_, nonEmptyValue) := IsSoftVoteEnoughForNonEmpty (cx_counter c) (cx_EmptyValue c) (cx_Round c) in
    if (exists_ : bool) then tryCertValue nonEmptyValue else mret tt.

Definition enterFiltering : M unit :=
  modify (λ c, c <| cx_Step := RoundStep2Filtering |>) ;;
  weight ← drawSortition;
  if weight =? 0 then gotoState (StateCertifying 0) enterCertifying
  else
    c ← get;
    (if (cx_Round c =? 1) || isNextVoteEnoughForEmpty c (sub32 (cx_Round c) 1) then
       match getProposalLeader c (cx_Round c) with
       | Some value => sendVoteOf VoteTypeSoft (pl_Value value)
       | None => mret tt
       end
     else sendVoteOf VoteTypeSoft (cx_StartingValue c)) ;;
    gotoState (StateCertifying 0) enterCertifying.

Definition enterSecondFinishing : M unit :=
  modify (λ c, c <| cx_Step ::= λ step, add32 step 1 |>) ;;
  startTimer ;;
  drawSortition ;;
  mret tt.

Definition enterFirstFinishing : M unit :=
  modify (λ c, c <| cx_Step ::= λ step, add32 step 1 |>) ;;
  weight ← drawSortition;
  if weight =? 0 then gotoState (StateSecondFinishing 0) enterSecondFinishing
  else
    round ← gets cx_Round;
    '(exists_, value) ← isSoftVoteEnoughForNonEmptyValueWhoseBlockIsReceivedAndValid round;
    (c ← get;
     if (exists_ : bool) then sendVoteOf VoteTypeNext value
     else if (2 <=? cx_Round c) && isNextVoteEnoughForEmpty c (sub32 (cx_Round c) 1)
     then sendVoteOf VoteTypeNext (cx_EmptyValue c)
     else sendVoteOf VoteTypeNext (cx_StartingValue c)) ;;
    gotoState (StateSecondFinishing 0) enterSecondFinishing.

(** ** The events of a state (state.go) *)

Definition OnTimeout : M unit :=
  s ← theState;
  match st_kind s with
  | StateProposal _ _ => gotoState StateFiltering enterFiltering
  | StateCertifying _ | StateSecondFinishing _ => gotoState StateFirstFinishing enterFirstFinishing
  | _ => mret tt
  end.

Definition OnSoftVoteEnough (value : Hash) (round : Z) : M unit :=
  s ← theState;
  c ← get;
  let mine := (0 <? sortitionWeight s) && (round =? cx_Round c) && negb (value =? cx_EmptyValue c) in
  match st_kind s with
  | StateCertifying _ => if mine then tryCertValue value else mret tt
  | StateSecondFinishing _ =>
      if mine then
        match getProposalBlock c value with
        | None => modifyState (λ s, s <| st_kind := StateSecondFinishing value |>)
        | Some data =>
            err ← verifyBlockSync (pb_Block data);
            match err with
            | Some _ => mret tt
            | None => sendVoteOf VoteTypeNext value
            end
        end
      else mret tt
  | _ => mret tt
  end.

Definition StateBase_OnNextVoteEnough (value : Hash) (round : Z) : M StateEvent :=
  c ← get;
  if cx_Round c <=? round then
    gotoProposal (add32 round 1) value ;;
    mret NewRound
  else mret Unchanged.

Definition OnNextVoteEnough (value : Hash) (round : Z) : M StateEvent :=
  s ← theState;
  event ← StateBase_OnNextVoteEnough value round;
  match st_kind s with
  | StateSecondFinishing _ =>
      if IsChanged event then mret event
      else
        c ← get;
        (if (0 <? sortitionWeight s) && (2 <=? cx_Round c) && (sub32 (cx_Round c) 1 =? round)
            && (value =? cx_EmptyValue c) then
           '(exists_, _) ← isSoftVoteEnoughForNonEmptyValueWhoseBlockIsReceivedAndValid (cx_Round c);
           if (exists_ : bool) then mret tt
           else c ← get; sendVoteOf VoteTypeNext (cx_EmptyValue c)
         else mret tt) ;;
        mret Unchanged
  | _ => mret event
  end.

Definition OnProposalDataComplete (data : ProposalBlockData) : M StateEvent :=
  s ← theState;
  event ← StateBase_OnProposalDataComplete data;
  let vote (voteType : Z) (value : Hash) : M StateEvent :=
    err ← verifyBlockSync (pb_Block data);
    match err with
    | Some _ => mret Unchanged
    | None => sendVoteOf voteType value ;; mret Unchanged
    end in
  match st_kind s with
  | StateCertifying certWaiting =>
      if IsChanged event then mret event
      else if negb (certWaiting =? 0) && (certWaiting =? Block_Hash (pb_Block data))
      then vote VoteTypeCert certWaiting
      else mret Unchanged
  | StateSecondFinishing waiting =>
      if IsChanged event then mret event
      else if Block_Hash (pb_Block data) =? waiting
      then vote VoteTypeNext (Block_Hash (pb_Block data))
      else mret Unchanged
  | _ => mret event
  end.

(** ** Messages (context.go) *)

Inductive handle_error :=
| LeaderIsBigger | BlockExists | MinerErr (e : miner_error) | BadCoinbase
| HeaderErr (e : header_error) | CountErr (e : vote_error).

(** [VerifySignatureAndCredential] against the state of the parent: the error
    or the credential with its weight. *)
Definition checkCredential (signBytes : bytes) (sig : ForwardSecureSignature) (credential : Credential) :
    M (Credential + miner_error) :=
  c ← get;
  statedb ← unwrap PNilParentState (cx_parentStatedb c);
  let mv := GetMinerVerifier (cx_config c) statedb (cr_Address credential) (cr_Height credential) in
  '(err, credential) ← unwrap PCredential
    (VerifySignatureAndCredential mv signBytes sig credential statedb (Block_Seed (cx_parent c))
       (Block_TotalBalanceOfMiners (cx_parent c)));
  match err with
  | Some err => mret (inr err)
  | None => mret (inl credential)
  end.

Definition handleProposalLeader (data : ProposalLeaderData) : M (option handle_error) :=
  c ← get;
  bigger ← match getProposalLeader c (cr_Round (pl_Credential data)) with
           | None => mret false
           | Some leader => unwrap PLeaderProof (ProposalLeaderData_LessThan leader data)
           end;
  if (bigger : bool) then mret (Some LeaderIsBigger)
  else
    r ← checkCredential (ProposalLeaderData_SignBytes data) (pl_ESignValue data) (pl_Credential data);
    match r with
    | inr err => mret (Some (MinerErr err))
    | inl credential =>
        let data := data <| pl_Credential := credential |> in
        broadcastMsg HasProposalLeaderMsg (DHasProposal (ProposalLeaderData_ToHasProposalData data)) ;;
        OnProposalLeaderReceived data ;;
        mret None
    end.

Definition handleProposalBlock (data : ProposalBlockData) (from : string) : M (option handle_error) :=
  c ← get;
  let hash := Block_Hash (pb_Block data) in
  match getProposalBlock c hash with
  | Some _ => mret (Some BlockExists)
  | None =>
      r ← checkCredential (ProposalBlockData_SignBytes data) (pb_ESignValue data) (pb_Credential data);
      match r with
      | inr err => mret (Some (MinerErr err))
      | inl credential =>
          let data := data <| pb_Credential := credential |> in
          statedb ← unwrap PNilParentState (cx_parentStatedb c);
          let mv := GetMinerVerifier (cx_config c) statedb (cr_Address credential) (cr_Height credential) in
          match VerifySeed mv (cr_Height credential) (Block_Seed (cx_parent c)) (Block_Hash (cx_parent c))
                  (Block_Seed (pb_Block data)) (Block_SeedProof (pb_Block data)) with
          | Some err => mret (Some (MinerErr err))
          | None =>
              if negb (Block_Coinbase (pb_Block data) =? mv_coinbase mv) then mret (Some BadCoinbase)
              else
                broadcastMsg HasProposalBlockMsg (DHasProposal (ProposalBlockData_ToHasProposalData data)) ;;
                OnProposalLeaderReceived (NewProposalLeaderData data) ;;
                err ← unwrap PCredential
                  (VerifyHeader (CH := env_reader env) (cx_config c) (env_now env)
                     (bl_header (pb_Block data)) false);
                match err with
                | Some err => mret (Some (HeaderErr err))
                | None =>
                    (if String.eqb from fromMe then
                       c ← get;
                       saveVerifiedBlockState hash
                         (mkBlockState None (cx_statedb c) (cx_receipts c) (cx_mortgageContractCounter c))
                     else mret tt) ;;
                    SaveProposalBlock data ;;
                    c ← get;
                    (if (cx_StartingValue c =? hash)
                        || IsPotentialValue (cx_counter c) (cr_Round credential) hash
                     then verifyBlockAsync (pb_Block data) ;; mret tt
                     else mret tt) ;;
                    OnProposalDataComplete data ;;
                    mret None
                end
          end
      end
  end.

Definition handleVote (vote : VoteData) : M (option handle_error) :=
  c ← get;
  if HeightVoteSet_HasVote (cx_counter c) (vt_Round vote) (vt_Step vote) (vt_Address vote)
  then mret (Some (CountErr DuplicateVote))
  else
    r ← checkCredential (VoteData_SignBytes vote) (vt_ESignValue vote) (vt_Credential vote);
    match r with
    | inr err => mret (Some (MinerErr err))
    | inl credential =>
        let vote := vote <| vt_Credential := credential |> in
        broadcastMsg HasVoteMsg (DHasVote (ToHasVote vote)) ;;
        c ← get;
        let threshold := (GetCommitteeNumber (vt_Height vote) (vt_Step vote)).1 in
        let '(counter, r) := HeightVoteSet_AddVoteAndCount (cx_counter c) vote threshold in
        modify (λ c, c <| cx_counter := counter |>) ;;
        match vr_err r with
        | Some err => mret (Some (CountErr err))
        | None =>
            (if newPotential r then OnPotentialVoteEnough (vt_Value vote) else mret tt) ;;
            (if added r && enough r then
               let t := VoteTypeOfStep (vt_Step vote) in
               if t =? VoteTypeSoft then OnSoftVoteEnough (vt_Value vote) (vt_Round vote)
               else if t =? VoteTypeCert then
                 OnCertVoteEnough (vt_Value vote) (vt_Round vote) ;; mret tt
               else if t =? VoteTypeNext then
                 OnNextVoteEnough (vt_Value vote) (vt_Round vote) ;; mret tt
               else mret tt
             else mret tt) ;;
            mret None
        end
    end.

(** A payload of another type than the code's is logged and dropped. *)
Definition handleMsg (msg : message) : M unit :=
  c ← get;
  match cx_state c with
  | None => mret tt
  | Some _ =>
      match msg_code msg, msg_data msg with
      | ProposalLeaderMsg, DLeader data =>
          if negb (ProposalLeaderData_Valid data (cx_Height c)) then mret tt
          else handleProposalLeader data ;; mret tt
      | ProposalBlockMsg, DBlock data =>
          if negb (ProposalBlockData_Valid data (cx_Height c)) then mret tt
          else handleProposalBlock data (msg_from msg) ;; mret tt
      | VoteMsg, DVote vote =>
          if negb (VoteData_Valid vote (cx_Height c) (cx_EmptyValue c)) then mret tt
          else handleVote vote ;; mret tt
      | _, _ => mret tt
      end
  end.

Definition handleTimeout (ti : TimeoutInfo) : M unit :=
  c ← get;
  match cx_state c with
  | None => mret tt
  | Some _ =>
      if negb (ti_Height ti =? cx_Height c) || negb (ti_Round ti =? cx_Round c)
         || negb (ti_Step ti =? cx_Step c)
      then mret tt
      else OnTimeout
  end.

(** ** The life of the machine (context.go) *)

(** [startStateMachine]: [canonicalBlock] is the head of the chain. *)
Definition startStateMachine (canonicalBlock : Block) : M unit :=
  s ← gets cx_state;
  match s with
  | Some _ => panic PStateStarted
  | None =>
      modify (λ c, c <| cx_state := Some (mkState (StateNewHeight canonicalBlock) 0 0 0) |>) ;;
      enterNewHeight canonicalBlock
  end.

(** [OnReceive], called by the peers' goroutines. *)
Definition OnReceive (code : MsgCode) (data : payload) (from : string) : M unit :=
  modify (λ c, c <| cx_msgChan ::= sendToMessageChan (mkMessage code data from) |>).

(** The weight the handler gives to a proposal before it passes it on. *)
Definition receivedWeight (c : Ctx) (cr : Credential) : option Z :=
  GetSortitionWeight (cx_config c) (env_GetHeaderByNumber env) (env_StateAt env)
    (cr_Height cr) (cr_Proof cr) (cr_Address cr).

(** The messages [ProtocolManager.handleMsg] (src/consensus/algorand/handler.go)
    passes on; the weight of a credential is not encoded. *)
Definition peerMsg (data : payload) (from : string) : M unit :=
  c ← get;
  match data with
  | DLeader d =>
      w ← unwrap PNilHeader (receivedWeight c (pl_Credential d));
      OnReceive ProposalLeaderMsg (DLeader (d <| pl_Credential ::= λ cr, cr <| cr_Weight := w |> |>)) from
  | DBlock d =>
      w ← unwrap PNilHeader (receivedWeight c (pb_Credential d));
      OnReceive ProposalBlockMsg (DBlock (d <| pb_Credential ::= λ cr, cr <| cr_Weight := w |> |>)) from
  | DVote d => OnReceive VoteMsg (DVote (d <| vt_Credential ::= λ cr, cr <| cr_Weight := 0 |> |>)) from
  | _ => mret tt
  end.

(** The cases of the [select] of [receiveRoutine].  [currentHeight] is the number
    of the chain's head.  A changed head is first sent to the snapshot loop, over a
    channel without a buffer; the routine returns when a quit channel is closed. *)
Definition receiveChainHead (currentBlock : Block) : M unit :=
  c ← get;
  if Block_Hash (cx_parent c) =? Block_Hash currentBlock then mret tt
  else
    match env_select env with
    | HeadTaken =>
        emit (XSnapHead currentBlock) ;;
        gotoState (StateNewHeight currentBlock) (enterNewHeight currentBlock)
    | SnappingQuit | RunningQuit => modify (λ c, c <| cx_returned := true |>)
    | NoneReady => block
    end.

Definition receiveMsg (currentHeight : Z) : M unit :=
  c ← get;
  match cx_msgChan c with
  | [] => mret tt
  | msg :: rest =>
      modify (λ c, c <| cx_msgChan := rest |>) ;;
      if currentHeight <? cx_Height c then handleMsg msg else mret tt
  end.

Definition receiveTimeout (currentHeight : Z) (ti : TimeoutInfo) : M unit :=
  c ← get;
  if currentHeight <? cx_Height c then handleTimeout ti else mret tt.

(** One entry of the journal that [loadRecoverEntry] replays: it decodes to
    weight 0. *)
Definition replayMsg (data : payload) (from : string) : M unit :=
  let from := String.append "recover-" from in
  match data with
  | DLeader d =>
      handleMsg (mkMessage ProposalLeaderMsg
        (DLeader (d <| pl_Credential ::= λ cr, cr <| cr_Weight := 0 |> |>)) from)
  | DBlock d =>
      handleMsg (mkMessage ProposalBlockMsg
        (DBlock (d <| pb_Credential ::= λ cr, cr <| cr_Weight := 0 |> |>)) from)
  | DVote d =>
      handleMsg (mkMessage VoteMsg
        (DVote (d <| vt_Credential ::= λ cr, cr <| cr_Weight := 0 |> |>)) from)
  | _ => mret tt
  end.

(** A verification worker puts its result into its channel. *)
Definition workerDone (key : Hash) : M unit :=
  c ← get;
  match cx_verifingBlockState c !! key with
  | Some (ChanRunning b) =>
      result ← unwrap PNilParent (verifyBlockWorker b);
      modify (λ c, c <| cx_verifingBlockState ::= <[key := ChanReady result]> |>)
  | _ => mret tt
  end.

Definition StartMining : M unit := modify (λ c, c <| cx_mining := true |>).
Definition StopMining : M unit := modify (λ c, c <| cx_mining := false |>).
Definition SetExtra (extra : bytes) : M unit := modify (λ c, c <| cx_extra := extra |>).

Definition SetMiner (address : Address) : M unit :=
  modify (λ c, c <| cx_nextMiner := address |>) ;;
  c ← get;
  if negb (cx_mining c) then modify (λ c, c <| cx_currentMiner := address |>) else mret tt.

(** [startRunning]: a new [receiveRoutine]. *)
Definition startRunning : M unit := modify (λ c, c <| cx_returned := false |>).

(** What [stopRunning] does once its wait for the routines is over; peers get no
    more votes of the height.  The wait itself, under [hsMutex], is modelled in
    Shutdown.v. *)
Definition stopRunning : M unit :=
  modify (λ c, c <| cx_returned := true |> <| cx_Height := 0 |> <| cx_Round := BadRound |>
                 <| cx_state := None |>).

Inductive event :=
| EStart (canonicalBlock : Block)
| EChainHead (currentBlock : Block)
| EMsg (currentHeight : Z)
| ETimeout (currentHeight : Z) (ti : TimeoutInfo)
| EReplayMsg (data : payload) (from : string)
| EReplayTimeout (ti : TimeoutInfo)
| ERecovered
| EReceive (data : payload) (from : string)
| EWorkerDone (key : Hash)
| EUpdateKeys (current : Z)
| EBroadcast
| EStartMining | EStopMining | ESetExtra (extra : bytes) | ESetMiner (address : Address)
| EStop
| ERun                            (* startRunning *)
| EReturn.                        (* receiveRoutine returns: quit, or its subscription ends *)

Definition handleEvent (ev : event) : M unit :=
  match ev with
  | EStart b => startStateMachine b
  | EChainHead b => receiveChainHead b
  | EMsg currentHeight => receiveMsg currentHeight
  | ETimeout currentHeight ti => receiveTimeout currentHeight ti
  | EReplayMsg data from => replayMsg data from
  | EReplayTimeout ti => handleTimeout ti
  | ERecovered => modify (λ c, c <| cx_recover := false |>)
  | EReceive data from => peerMsg data from
  | EWorkerDone key => workerDone key
  | EUpdateKeys current =>
      mkm ← gets cx_mkm;
      mkm ← unwrap PUpdateKeys (updateRoutine_step mkm current);
      modify (λ c, c <| cx_mkm := mkm |>)
  | EBroadcast => modify (λ c, c <| cx_broadcastMsgCh ::= tail |>)
  | EStartMining => StartMining
  | EStopMining => StopMining
  | ESetExtra extra => SetExtra extra
  | ESetMiner address => SetMiner address
  | EStop => stopRunning
  | ERun => startRunning
  | EReturn => modify (λ c, c <| cx_returned := true |>)
  end.
End machine.
