(* ===== verification/MachineLogic.v ===== *)
(** * MachineLogic: reasoning about the events of the state machine

    A weakest-precondition calculus for the outcome monad of StateMachine.v and
    the invariant the machine keeps while it works on one height. *)

From S2P Require Import Prelude Bytes Params Crypto ForwardSecure Types VoteSet VoteSetFacts.
From S2P Require Import MinerContract Sortition MinerKeys Engine Ticker StateMachine.

Local Open Scope Z_scope.

(** ** Weakest preconditions *)

(** The panics the code leaves open.  Some need a failing surrounding: a chain
    that has no state or no parent block, that cannot prove or refuses a certified
    block, or that gives a head without cert votes.  Others are unguarded in the
    code of the machine: the nil state of a certified block, a failing draw, signature
    or key update, the check of a credential, and the missing header that a peer's
    message can ask for.  The other seven are those that guard the machine's own
    invariants. *)
Definition open_panic (p : panic_reason) : Prop :=
  match p with
  | PStateAt | PNilParent | PBuildProof | PInsert | PEmptyCertificate => True
  | PNewBlock | PNilBlockState | PNilHeader | PCredential | PSign | PUpdateKeys => True
  | PStateNotStarted | PStateStarted | PVoteStep | PEmptyCvs | PNilLeaders | PNilParentState
  | PLeaderProof => False
  end.

Section wp.
Context `{W : World}.

(** [m] does not wait on a channel, has no panic but the open ones, and otherwise
    ends as [Q] says. *)
Definition wp {A : Type} (m : M A) (Q : A → Ctx → Prop) (c : Ctx) : Prop :=
  match m c with
  | Done a c' => Q a c'
  | Panic p => open_panic p
  | Blocked => False
  end.

Lemma wp_bind {A B : Type} (m : M A) (k : A → M B) Q c :
  wp m (λ a c', wp (k a) Q c') c → wp (m ≫= k) Q c.
Proof. unfold wp, mbind, M_bind. by destruct (m c). Qed.

Lemma wp_ret {A : Type} (a : A) (Q : A → Ctx → Prop) c : Q a c → wp (mret a) Q c.
Proof. done. Qed.

Lemma wp_get (Q : Ctx → Ctx → Prop) c : Q c c → wp get Q c.
Proof. done. Qed.

Lemma wp_gets {A : Type} (f : Ctx → A) (Q : A → Ctx → Prop) c : Q (f c) c → wp (gets f) Q c.
Proof. done. Qed.

Lemma wp_modify f (Q : unit → Ctx → Prop) c : Q tt (f c) → wp (modify f) Q c.
Proof. done. Qed.

Lemma wp_panic {A : Type} p (Q : A → Ctx → Prop) c : open_panic p → wp (panic p) Q c.
Proof. done. Qed.

Lemma wp_unwrap {A : Type} p (o : option A) (Q : A → Ctx → Prop) c :
  (o = None → open_panic p) → (∀ a, o = Some a → Q a c) → wp (unwrap p o) Q c.
Proof. intros Hn Hs. destruct o; [by apply Hs|by apply Hn]. Qed.

Lemma wp_emit x (Q : unit → Ctx → Prop) c :
  Q tt (c <| cx_trace ::= λ t, t ++ [x] |>) → wp (emit x) Q c.
Proof. done. Qed.

Lemma wp_mono {A : Type} (m : M A) (Q Q' : A → Ctx → Prop) c :
  wp m Q c → (∀ a c', Q a c' → Q' a c') → wp m Q' c.
Proof. unfold wp. destruct (m c); auto. Qed.

Lemma wp_done {A : Type} (m : M A) Q c a c' : wp m Q c → m c = Done a c' → Q a c'.
Proof. unfold wp. intros H E. by rewrite E in H. Qed.
End wp.

(** [wps] takes the next primitive step of a program. *)
Ltac wps :=
  lazymatch goal with
  | |- wp (mbind _ _) _ _ => apply wp_bind; wps
  | |- wp (mret _) _ _ => apply wp_ret
  | |- wp get _ _ => apply wp_get
  | |- wp (gets _) _ _ => apply wp_gets
  | |- wp (modify _) _ _ => apply wp_modify
  | |- wp (emit _) _ _ => apply wp_emit
  | |- _ => idtac
  end.

(** ** The height a machine works on *)

Section height.
Context `{CR : Crypto} `{BO : Boost} `{W : World}.

(** What stays fixed during a height. *)
Record Base := mkBase {
  g_config : AlgorandConfig;
  g_st : StateDB;
  g_parent : Block;
  g_height : Z;
  g_empty : Hash
}.

Definition g_seed (g : Base) : Z := Block_Seed (g_parent g).
Definition g_total (g : Base) : Z := Block_TotalBalanceOfMiners (g_parent g).
Definition g_threshold (g : Base) (step : Z) : Z := (GetCommitteeNumber (g_height g) step).1.

(** Somebody speaks at this height. *)
Definition g_speaks (g : Base) (miner : Address) (round step proof : Z) (value : Hash)
    (sig : ForwardSecureSignature) (w : Z) : Prop :=
  speaks (g_config g) (g_st g) (g_seed g) (g_total g) miner (g_height g) round step proof
    (be_bytes 32 value) sig w.

(** A vote counted in round [r] at step [s]. *)
Record g_vote (g : Base) (r s : Z) (vt : VoteData) : Prop := {
  gv_round : vt_Round vt = r;
  gv_step : vt_Step vt = s;
  gv_height : vt_Height vt = g_height g;
  gv_width : is_u32 r;
  gv_speaks : g_speaks g (vt_Address vt) r s (cr_Proof (vt_Credential vt)) (vt_Value vt)
    (vt_ESignValue vt) (vt_Weight vt)
}.

(** A received proposal: its proposer speaks for the block and proved its seed. *)
Record g_proposal (g : Base) (d : ProposalBlockData) : Prop := {
  gp_height : cr_Height (pb_Credential d) = g_height g;
  gp_speaks : g_speaks g (cr_Address (pb_Credential d)) (cr_Round (pb_Credential d))
    RoundStep1Proposal (cr_Proof (pb_Credential d)) (Block_Hash (pb_Block d)) (pb_ESignValue d)
    (cr_Weight (pb_Credential d));
  gp_seed : VerifySeed (GetMinerVerifier (g_config g) (g_st g) (cr_Address (pb_Credential d)) (g_height g))
    (g_height g) (g_seed g) (Block_Hash (g_parent g)) (Block_Seed (pb_Block d))
    (Block_SeedProof (pb_Block d)) = None;
  gp_coinbase : Block_Coinbase (pb_Block d)
    = mv_coinbase (GetMinerVerifier (g_config g) (g_st g) (cr_Address (pb_Credential d)) (g_height g))
}.

(** A quorum of the counter of [c]. *)
Definition quorum (g : Base) (c : Ctx) (r s : Z) (v : Hash) : Prop :=
  hquorum (g_threshold g) (cx_counter c) r s v.

Definition verified_ok (c : Ctx) (h : Hash) : Prop :=
  ∃ r, cx_verifiedBlockState c !! h = Some r ∧ bs_err r = None.

(** ** The rules of the protocol *)

(** Round [r] carries [v] over: the empty value in round 1, later a value a
    next-vote quorum of the previous round brings. *)
Definition carried (g : Base) (c : Ctx) (r : Z) (v : Hash) : Prop :=
  (r = 1 ∧ v = g_empty g) ∨ ∃ s, RoundStep4FirstFinishing ≤ s ∧ quorum g c (sub32 r 1) s v.

(** A proposer of round [r] may propose its own block. *)
Definition open_round (g : Base) (c : Ctx) (r : Z) : Prop := carried g c r (g_empty g).

(** A soft quorum of round [r] for a block that passed verification. *)
Definition certifiable (g : Base) (c : Ctx) (r : Z) (v : Hash) : Prop :=
  quorum g c r RoundStep2Filtering v ∧ verified_ok c v.

Definition vote_rule (g : Base) (c : Ctx) (vt : VoteData) : Prop :=
  let r := vt_Round vt in let v := vt_Value vt in
  vt_Height vt = g_height g ∧
  ((vt_Step vt = RoundStep2Filtering ∧ (open_round g c r ∨ carried g c r v)) ∨
   (vt_Step vt = RoundStep3Certifying ∧ certifiable g c r v) ∨
   (RoundStep4FirstFinishing ≤ vt_Step vt ∧ (certifiable g c r v ∨ carried g c r v))).

Definition leader_rule (g : Base) (c : Ctx) (d : ProposalLeaderData) : Prop :=
  cr_Height (pl_Credential d) = g_height g ∧
  (open_round g c (cr_Round (pl_Credential d)) ∨ carried g c (cr_Round (pl_Credential d)) (pl_Value d)).

(** The certificate of a block proves it: its votes come from distinct members of
    the cert committee of one round and reach the threshold, and the proposer
    speaks for the block. *)
Record commit_rule (g : Base) (b : Block) : Prop := {
  cm_height : ct_Height (Block_Certificate b) = Block_NumberU64 b;
  cm_value : ct_Value (Block_Certificate b) = Block_Hash b;
  cm_votes : ∃ ws,
    Forall2 (cert_vote_speaks (g_config g) (g_st g) (bl_header (g_parent g)) (g_height g)
      (Block_Certificate b)) (ct_CertVoteSet (Block_Certificate b)) ws ∧
    g_threshold g RoundStep3Certifying ≤ sumZ id ws < 10000;
  cm_distinct : NoDup ((λ cv, cs_Address (cv_Credential cv)) <$> ct_CertVoteSet (Block_Certificate b));
  cm_proposer : ∃ w, g_speaks g (Block_Proposer b) (ps_Round (ct_Proposal (Block_Certificate b)))
    RoundStep1Proposal (Block_Proof b) (Block_Hash b) (ps_ESignValue (ct_Proposal (Block_Certificate b))) w;
  cm_seed : VerifySeed (GetMinerVerifier (g_config g) (g_st g) (Block_Proposer b) (g_height g))
    (g_height g) (g_seed g) (Block_Hash (g_parent g)) (Block_Seed b) (Block_SeedProof b) = None;
  cm_proof : ∃ env : Env, env_BuildProof env (g_st g) (Block_Root (g_parent g)) (Block_NumberU64 b)
    (Block_Proposer b) (ct_CertVoteSet (Block_Certificate b)) = Some (ct_TrieProof (Block_Certificate b))
}.

Definition payload_rule (g : Base) (c : Ctx) (d : payload) : Prop :=
  match d with
  | DVote vt => vote_rule g c vt
  | DLeader d => leader_rule g c d
  | _ => True
  end.

Definition effect_rule (g : Base) (c : Ctx) (x : effect) : Prop :=
  match x with
  | XSend m | XBroadcast m => payload_rule g c (msg_data m)
  | XInsertChain b | XWriteBlock b _ => commit_rule g b
  | XSchedule ti => 0 < ti_Step ti
  | _ => True
  end.

(** ** The invariant *)

(** A credential that can be compared without a panic. *)
Definition ranked (cr : Credential) : Prop :=
  cr_Weight cr ≠ 0 → is_Some (VrfProofToHash256 (cr_Proof cr)).

(** A message that may wait in the queue. *)
Definition queued (m : message) : Prop :=
  match msg_data m with
  | DLeader d => ranked (pl_Credential d)
  | DVote vt => is_u32 (vt_Round vt)
  | _ => True
  end.

Record core (g : Base) (c : Ctx) : Prop := {
  co_nonzero : g_empty g ≠ 0;
  co_config : cx_config c = g_config g;
  co_st : cx_parentStatedb c = Some (g_st g);
  co_parent : cx_parent c = g_parent g;
  co_height : cx_Height c = g_height g;
  co_empty : cx_EmptyValue c = g_empty g;
  co_counter : counted (g_threshold g) 5000 (g_vote g) (cx_counter c);
  co_leaders : ∃ m, cx_ProposalLeader c = Some m ∧
    ∀ r l, m !! r = Some l → ranked (pl_Credential l);
  co_received : ∀ h d, cx_ReceivedProposalBlock c !! h = Some d →
    Block_Hash (pb_Block d) = h ∧ g_proposal g d;
  co_drained : ∀ h, cx_verifingBlockState c !! h = Some ChanDrained →
    is_Some (cx_verifiedBlockState c !! h);
  co_waiting : cx_WaitingBlockForValue c = g_empty g ∨
    quorum g c (cx_WaitingBlockForRound c) RoundStep3Certifying (cx_WaitingBlockForValue c);
  co_queue : Forall queued (cx_msgChan c);
  co_round : is_u32 (cx_Round c);
  co_start : carried g c (cx_Round c) (cx_StartingValue c)
}.

(** [c'] is a later state of the same height: quorums and verified blocks stay,
    and everything done in between followed the rules. *)
Record ext (g : Base) (c c' : Ctx) : Prop := {
  ex_quorum : ∀ r s v, quorum g c r s v → quorum g c' r s v;
  ex_verified : ∀ h, verified_ok c h → verified_ok c' h;
  ex_trace : ∃ xs, cx_trace c' = cx_trace c ++ xs ∧ Forall (effect_rule g c') xs
}.

Lemma carried_ext g c c' r v : ext g c c' → carried g c r v → carried g c' r v.
Proof. intros [Hq _ _] [?|(s & Hs & Hv)]; [by left|right]. exists s. auto. Qed.

Lemma effect_rule_ext g c c' x : ext g c c' → effect_rule g c x → effect_rule g c' x.
Proof.
  intros Hx. pose proof (ex_quorum _ _ _ Hx) as Hq. pose proof (ex_verified _ _ _ Hx) as Hv.
  assert (∀ r v, certifiable g c r v → certifiable g c' r v) as Hc.
  { intros r v [??]. split; auto. }
  pose proof (carried_ext g c c') as Hj.
  assert (∀ d, payload_rule g c d → payload_rule g c' d) as Hp.
  { intros [d|d|d|d|d|d]; cbn; try done.
    - intros [? [?|?]]; (split; [done|]); [left|right]; by apply Hj.
    - intros [? [[? [?|?]]|[[??]|[? [?|?]]]]]; (split; [done|]).
      all: first [ left; split; [done|]; left; by apply Hj | left; split; [done|]; right; by apply Hj
                 | right; left; split; [done|]; by apply Hc
                 | right; right; split; [done|]; left; by apply Hc
                 | right; right; split; [done|]; right; by apply Hj ]. }
  destruct x; cbn; auto.
Qed.

Lemma ext_refl g c : ext g c c.
Proof. split; [done|done|]. exists []. by rewrite app_nil_r. Qed.

Lemma ext_trans g c1 c2 c3 : ext g c1 c2 → ext g c2 c3 → ext g c1 c3.
Proof.
  intros [Hq1 Hv1 (xs & E1 & H1)] Hx2. pose proof Hx2 as [Hq2 Hv2 (ys & E2 & H2)].
  split; [auto|auto|]. exists (xs ++ ys). split; [by rewrite E2, E1, app_assoc|].
  apply Forall_app. split; [|done]. eapply Forall_impl; [done|]. intros x. by apply effect_rule_ext.
Qed.

(** The fields the invariant speaks about, besides the queue. *)
Definition frame (c : Ctx) :=
  (cx_config c, cx_parentStatedb c, cx_parent c, cx_Height c, cx_EmptyValue c, cx_counter c,
   cx_ProposalLeader c, cx_ReceivedProposalBlock c, cx_verifingBlockState c, cx_verifiedBlockState c,
   (cx_WaitingBlockForValue c, cx_WaitingBlockForRound c), (cx_Round c, cx_Step c, cx_StartingValue c),
   st_kind <$> cx_state c).

(** A state whose frame did not change. *)
Record quiet (g : Base) (c c' : Ctx) : Prop := {
  qt_frame : frame c' = frame c;
  qt_core : core g c';
  qt_ext : ext g c c'
}.

Lemma core_frame g c c' :
  core g c → frame c' = frame c → Forall queued (cx_msgChan c') → core g c'.
Proof.
  intros Hc E Hq. unfold frame in E.
  injection E as E1 E2 E3 E4 E5 E6 E7 E8 E9 E10 E11 E12 E13 E14 E15 E16.
  destruct Hc as [H0 H1 H2 H3 H4 H5 H6 H7 H8 H9 H10 H11 H12 H13].
  unfold quorum, carried in *.
  split; rewrite ?E1, ?E2, ?E3, ?E4, ?E5, ?E6, ?E7, ?E8, ?E9, ?E10, ?E11, ?E12, ?E13, ?E15; try done.
  - unfold quorum. by rewrite E6.
  - unfold carried, quorum. by rewrite E6.
Qed.

Lemma ext_frame g c c' xs :
  frame c' = frame c → cx_trace c' = cx_trace c ++ xs → Forall (effect_rule g c) xs → ext g c c'.
Proof.
  intros E Ht Hxs. unfold frame in E. injection E as _ _ _ _ _ E6 _ _ _ E10 _ _ _ _ _ _.
  assert (∀ r s v, quorum g c r s v → quorum g c' r s v) as Hq.
  { intros r s v. unfold quorum. by rewrite E6. }
  assert (∀ h, verified_ok c h → verified_ok c' h) as Hv.
  { intros h. unfold verified_ok. by rewrite E10. }
  assert (ext g c (c' <| cx_trace := cx_trace c |>)) as He.
  { split; [done|done|]. exists []. by rewrite app_nil_r. }
  split; [done|done|]. exists xs. split; [done|]. eapply Forall_impl; [exact Hxs|]. intros x Hx.
  by apply (effect_rule_ext g c _ x He) in Hx.
Qed.

Lemma quiet_refl g c : core g c → quiet g c c.
Proof. intros Hc. split; [done|done|apply ext_refl]. Qed.

Lemma quiet_trans g c1 c2 c3 : quiet g c1 c2 → quiet g c2 c3 → quiet g c1 c3.
Proof. intros [E1 _ X1] [E2 H2 X2]. split; [congruence|done|by eapply ext_trans]. Qed.

(** A write to fields outside of the frame. *)
Lemma quiet_modify g c c' :
  core g c → frame c' = frame c → cx_msgChan c' = cx_msgChan c → cx_trace c' = cx_trace c →
  quiet g c c'.
Proof.
  intros Hc E Eq Et. split; [done| |].
  - eapply core_frame; [done|done|]. rewrite Eq. apply Hc.
  - eapply (ext_frame g c c' []); [done|by rewrite app_nil_r|constructor].
Qed.
End height.
