(* ===== verification/MachineInvariant.v ===== *)
(** * MachineInvariant: every event keeps the invariant

    Specifications of the operations of StateMachine.v in the calculus of
    MachineLogic.v, from the primitive sends to the handlers and the events. *)

From S2P Require Import Prelude Bytes Params Crypto ForwardSecure Types VoteSet VoteSetFacts.
From S2P Require Import MinerContract Sortition MinerKeys Engine Ticker StateMachine.
From S2P Require Import MachineLogic.

Local Open Scope Z_scope.

Section specs.
Context `{CR : Crypto} `{VC : !VrfCorrect} `{BO : Boost} `{W : World} (env : Env).

(** ** Sending *)

Lemma quiet_emit g c x :
  core g c → effect_rule g c x → quiet g c (c <| cx_trace ::= λ t, t ++ [x] |>).
Proof.
  intros Hc Hx. split; [done| |].
  - eapply core_frame; [done|done|apply Hc].
  - eapply (ext_frame _ _ _ [x]); [done|done|]. by constructor.
Qed.

Lemma quiet_enqueue g c m :
  core g c → queued m → quiet g c (c <| cx_msgChan ::= sendToMessageChan m |>).
Proof.
  intros Hc Hm. split; [done| |].
  - eapply core_frame; [done|done|]. upd. unfold sendToMessageChan.
    destruct (_ <? _)%nat; [|apply Hc]. apply Forall_app. split; [apply Hc|by constructor].
  - eapply (ext_frame _ _ _ []); [done|by rewrite app_nil_r|constructor].
Qed.

Lemma sendToSelf_wp g c code d Q :
  core g c → payload_rule g c d → queued (mkMessage code d fromMe) →
  (∀ c', quiet g c c' → Q tt c') → wp (sendToSelf code d) Q c.
Proof.
  intros Hc Hd Hq HQ. unfold sendToSelf. wps. wps. apply HQ.
  assert (quiet g c (c <| cx_trace ::= λ t, t ++ [XSend (mkMessage code d fromMe)] |>)) as H1
    by by apply quiet_emit.
  eapply quiet_trans; [exact H1|]. apply quiet_enqueue; [apply H1|done].
Qed.

Lemma broadcastMsg_wp g c code d Q :
  core g c → payload_rule g c d → (∀ c', quiet g c c' → Q tt c') → wp (broadcastMsg code d) Q c.
Proof.
  intros Hc Hd HQ. unfold broadcastMsg. wps. destruct (cx_recover c); wps.
  { apply HQ. by apply quiet_refl. }
  wps. apply HQ.
  assert (quiet g c (c <| cx_trace ::= λ t, t ++ [XBroadcast (mkMessage code d fromMe)] |>)) as H1
    by by apply quiet_emit.
  eapply quiet_trans; [exact H1|]. by apply quiet_modify; [apply H1|..].
Qed.

(** An effect no rule speaks about. *)
Lemma emit_wp g c x Q :
  core g c → effect_rule g c x → (∀ c', quiet g c c' → Q tt c') → wp (emit x) Q c.
Proof. intros Hc Hx HQ. wps. apply HQ. by apply quiet_emit. Qed.

(** A timeout for the current height, round and step was scheduled. *)
Definition armed (c : Ctx) : Prop :=
  ∃ d, XSchedule (mkTimeoutInfo d (cx_Height c) (cx_Round c) (cx_Step c)) ∈ cx_trace c.

Lemma armed_later c c' xs :
  cx_Height c' = cx_Height c → cx_Round c' = cx_Round c → cx_Step c' = cx_Step c →
  cx_trace c' = cx_trace c ++ xs → armed c → armed c'.
Proof. intros Eh Er Es Et [d Hd]. exists d. rewrite Eh, Er, Es, Et. set_solver. Qed.

Lemma startTimer_wp g c Q :
  core g c → 0 < cx_Step c → (∀ c', quiet g c c' → armed c' → Q tt c') → wp startTimer Q c.
Proof.
  intros Hc Hpos HQ. unfold startTimer. wps. apply wp_bind.
  assert (∀ c1, quiet g c c1 → wp (emit (XSchedule (mkTimeoutInfo
     (mul64 (u64 (TimeoutTwoLambdaDuration (cx_config c))) (timerFactor (cx_Round c) (cx_Step c)))
     (cx_Height c) (cx_Round c) (cx_Step c)))) Q c1) as Hs.
  { intros c1 H1. wps. set (c2 := c1 <| cx_trace ::= _ |>).
    assert (quiet g c c2) as H2 by (eapply quiet_trans; [exact H1|]; apply quiet_emit; [apply H1|done]).
    apply HQ; [exact H2|]. pose proof (qt_frame _ _ _ H1) as E. unfold frame in E.
    injection E as _ _ _ Eh _ _ _ _ _ _ _ _ Er Es _ _. eexists. unfold c2. upd. rewrite Eh, Er, Es.
    apply elem_of_app. right. by apply list_elem_of_singleton. }
  destruct (st_kind <$> cx_state c) as [[]|]; try (wps; by apply Hs, quiet_refl).
  by apply (emit_wp g).
Qed.

Lemma clearTimer_wp g c Q : core g c → (∀ c', quiet g c c' → Q tt c') → wp clearTimer Q c.
Proof.
  intros Hc HQ. unfold clearTimer. wps.
  destruct (st_kind <$> cx_state c) as [[]|]; try (wps; by apply HQ, quiet_refl).
  by apply (emit_wp g).
Qed.

Lemma OnExit_wp g c s Q : core g c → (∀ c', quiet g c c' → Q tt c') → wp (OnExit s) Q c.
Proof.
  intros Hc HQ. unfold OnExit. destruct (st_kind s); try (wps; by apply HQ, quiet_refl).
  all: by apply (clearTimer_wp g).
Qed.

(** The frame without the state. *)
Lemma frame_state c s :
  st_kind <$> s = st_kind <$> cx_state c → frame (c <| cx_state := s |>) = frame c.
Proof. intros E. unfold frame. upd. by rewrite E. Qed.

(** A new state object: everything but the state's kind stays. *)
Lemma core_state g c s : core g c → core g (c <| cx_state := s |>).
Proof. intros [? ? ? ? ? ? ? ? ? ? ? ? ? ?]. by split. Qed.

Lemma ext_state g c s : ext g c (c <| cx_state := s |>).
Proof. split; [done|done|]. exists []. by rewrite app_nil_r. Qed.

Lemma quiet_state g c c' : quiet g c c' → is_Some (cx_state c) → is_Some (cx_state c').
Proof.
  intros [E _ _]. unfold frame in E. injection E as _ _ _ _ _ _ _ _ _ _ _ _ _ _ _ E.
  destruct (cx_state c), (cx_state c'); cbn in E; try done; eauto.
Qed.

Lemma gotoState_wp g c k m Q :
  core g c → is_Some (cx_state c) →
  (∀ c', quiet g c c' → wp m Q (c' <| cx_state := Some (mkState k 0 0 0) |>)) →
  wp (gotoState k m) Q c.
Proof.
  intros Hc [s Hs] HQ. unfold gotoState. wps. apply wp_bind. apply wp_unwrap; [congruence|].
  intros s' _. apply wp_bind. apply (OnExit_wp g); [done|]. intros c1 H1. wps. by apply HQ.
Qed.

(** ** Keys and sortition *)

Lemma getMinerKey_wp g c miner h Q :
  core g c → (∀ r c', quiet g c c' → cx_state c' = cx_state c → Q r c') →
  wp (getMinerKey miner h) Q c.
Proof.
  intros Hc HQ. unfold getMinerKey. wps. destruct (GetMinerKey _ _ _) as [mkm r]. wps. wps.
  apply HQ; [by apply quiet_modify|done].
Qed.

(** A positive weight comes with a proof that has a hash. *)
Definition drawn (weight proof : Z) : Prop := weight ≠ 0 → is_Some (VrfProofToHash256 proof).

Lemma drawn_0 proof : drawn 0 proof.
Proof. by intros []. Qed.

Lemma MinerKey_Sortition_drawn {SDB : Type} `{SR : !StateReader SDB}
    mk h r s seed (st : SDB) total hash proof w :
  MinerKey_Sortition mk h r s seed st total = Some (inl (hash, proof, w)) → drawn w proof.
Proof.
  unfold MinerKey_Sortition. destruct (negb _); [done|].
  destruct (VrfProve _ _) as [p|]; [|done]. destruct (VrfProofToHash256 p) as [h'|] eqn:E; [|done].
  destruct (GetWeight _ _ _ _ _) as [[ow tw]|]; [|done]. cbn [mbind option_bind].
  destruct (GetCommitteeNumber _ _) as [th sz].
  destruct (Choose _ _ _ _ _); [|done]. cbn. intros [= <- <- <-] _. rewrite E. eauto.
Qed.

Lemma sortition_wp g c Q :
  core g c → (∀ hash proof w c', quiet g c c' → drawn w proof → Q (hash, proof, w) c') →
  wp sortition Q c.
Proof.
  intros Hc HQ. unfold sortition. wps. destruct (negb (cx_mining c)).
  { wps. apply HQ; [by apply quiet_refl|apply drawn_0]. }
  apply wp_bind. apply (getMinerKey_wp g); [done|]. intros [mk|e] c1 H1 _.
  2: { wps. by apply HQ, drawn_0. }
  apply wp_bind. apply wp_unwrap; [by rewrite (co_st _ _ Hc)|]. intros st _.
  apply wp_bind. apply wp_unwrap; [done|]. intros [[[hash proof] w]|e] E; wps; apply HQ; try done.
  - by eapply MinerKey_Sortition_drawn.
  - apply drawn_0.
Qed.

(** [drawSortition] writes its result into the state object. *)
Lemma drawSortition_wp g c Q :
  core g c →
  (∀ w c', quiet g c c' →
     (∀ s, cx_state c' = Some s → sortitionWeight s = w ∧ drawn w (sortitionProof s)) → Q w c') →
  wp drawSortition Q c.
Proof.
  intros Hc HQ. unfold drawSortition. apply wp_bind. apply (sortition_wp g); [done|].
  intros hash proof w c1 H1 Hd. unfold modifyState. wps. wps. apply HQ.
  - eapply quiet_trans; [exact H1|]. apply quiet_modify; [apply H1| |done|done].
    apply (frame_state c1). by destruct (cx_state c1).
  - intros s. upd. destruct (cx_state c1) as [s1|]; [|done]. cbn. by intros [= <-].
Qed.

(** ** Votes and proposals *)

Lemma payload_rule_ext g c c' d : ext g c c' → payload_rule g c d → payload_rule g c' d.
Proof. intros Hx. apply (effect_rule_ext g c c' (XSend (mkMessage VoteMsg d fromMe)) Hx). Qed.

(** The machine may send a vote for [v] in its present round and step. *)
Definition may_vote (g : Base) (c : Ctx) (v : Hash) : Prop :=
  (cx_Step c = RoundStep2Filtering ∧ (open_round g c (cx_Round c) ∨ carried g c (cx_Round c) v)) ∨
  (cx_Step c = RoundStep3Certifying ∧ certifiable g c (cx_Round c) v) ∨
  (RoundStep4FirstFinishing ≤ cx_Step c ∧
     (certifiable g c (cx_Round c) v ∨ carried g c (cx_Round c) v)).

(** A message sent to the machine itself and to the peers. *)
Lemma send_both_wp g c code d Q :
  core g c → payload_rule g c d → queued (mkMessage code d fromMe) →
  (∀ c', quiet g c c' → Q tt c') → wp (sendToSelf code d ;; broadcastMsg code d) Q c.
Proof.
  intros Hc Hd Hq HQ. apply wp_bind. apply (sendToSelf_wp g); [done..|]. intros c1 H1.
  apply (broadcastMsg_wp g); [apply H1|eapply payload_rule_ext; [apply H1|done]|].
  intros c2 H2. apply HQ. by eapply quiet_trans.
Qed.

Lemma sendVote_wp g c ty v proof j Q :
  core g c → ty = VoteTypeOfStep (cx_Step c) → may_vote g c v →
  (∀ c', quiet g c c' → Q tt c') → wp (sendVote ty v proof j) Q c.
Proof.
  intros Hc Hty Hv HQ. unfold sendVote. wps. destruct (cx_recover c).
  { wps. by apply HQ, quiet_refl. }
  rewrite (proj2 (Z.eqb_eq _ _) Hty). cbn [negb].
  apply wp_bind. apply (getMinerKey_wp g); [done|]. intros [mk|e] c1 H1 _.
  2: { wps. by apply HQ. }
  apply wp_bind. apply wp_unwrap; [done|]. intros [sig|e] _.
  2: { wps. by apply HQ. }
  apply (send_both_wp g); [apply H1| |apply Hc|].
  - eapply payload_rule_ext; [apply H1|]. split; [apply Hc|exact Hv].
  - intros c2 H2. apply HQ. by eapply quiet_trans.
Qed.

Lemma sendVoteOf_wp g c ty v Q :
  core g c → is_Some (cx_state c) → ty = VoteTypeOfStep (cx_Step c) → may_vote g c v →
  (∀ c', quiet g c c' → Q tt c') → wp (sendVoteOf ty v) Q c.
Proof.
  intros Hc [s Hs] Hty Hv HQ. unfold sendVoteOf. wps. apply wp_bind. apply wp_unwrap; [congruence|].
  intros s' _. by apply (sendVote_wp g).
Qed.

Lemma sendProposal_wp g c v proof j Q :
  core g c → open_round g c (cx_Round c) ∨ carried g c (cx_Round c) v → drawn j proof →
  (∀ c', quiet g c c' → Q tt c') → wp (sendProposal v proof j) Q c.
Proof.
  intros Hc Hv Hd HQ. unfold sendProposal. wps. destruct (cx_recover c).
  { wps. by apply HQ, quiet_refl. }
  apply wp_bind. apply (getMinerKey_wp g); [done|]. intros [mk|e] c1 H1 _.
  2: { wps. by apply HQ. }
  apply wp_bind. apply wp_unwrap; [done|]. intros [sig|e] _.
  2: { wps. by apply HQ. }
  set (d := (mkProposalLeaderData _ _ _) <| pl_ESignValue := sig |>).
  assert (payload_rule g c (DLeader d)) as Hp by (split; [apply Hc|exact Hv]).
  apply wp_bind. apply (sendToSelf_wp g); [apply H1|eapply payload_rule_ext; [apply H1|done]|exact Hd|].
  intros c2 H2. pose proof (quiet_trans _ _ _ _ H1 H2) as H12.
  apply wp_bind. apply (broadcastMsg_wp g); [apply H2|eapply payload_rule_ext; [apply H12|done]|].
  intros c3 H3. pose proof (quiet_trans _ _ _ _ H12 H3) as H13.
  destruct (cx_newBlock c) as [b|]; [|wps; by apply HQ].
  destruct (v =? Block_Hash b); [|wps; by apply HQ].
  apply wp_bind. apply (sendToSelf_wp g); [apply H3|done|done|].
  intros c4 H4. pose proof (quiet_trans _ _ _ _ H13 H4) as H14.
  apply (emit_wp g); [apply H4|done|]. intros c5 H5. apply HQ. by eapply quiet_trans.
Qed.

(** ** Verification of blocks *)

(** What a verification may change: the caches and the received blocks. *)
Record verifies (g : Base) (c c' : Ctx) : Prop := {
  vf_core : core g c';
  vf_ext : ext g c c';
  vf_round : cx_Round c' = cx_Round c;
  vf_step : cx_Step c' = cx_Step c;
  vf_state : cx_state c' = cx_state c;
  vf_counter : cx_counter c' = cx_counter c;
  vf_waiting : cx_WaitingBlockForValue c' = cx_WaitingBlockForValue c ∧
    cx_WaitingBlockForRound c' = cx_WaitingBlockForRound c
}.

Lemma verifies_refl g c : core g c → verifies g c c.
Proof. intros Hc. by split; [|apply ext_refl|..]. Qed.

(** A result channel is registered or drained once its result is known. *)
Lemma verifies_chan g c h x :
  core g c → (x = ChanDrained → is_Some (cx_verifiedBlockState c !! h)) →
  verifies g c (c <| cx_verifingBlockState ::= <[h := x]> |>).
Proof.
  intros [? ? ? ? ? ? ? ? ? Hd ? ? ? ?] Hx. split; [|split|done..]; [|done|done|].
  - split; try done. upd. intros h'. rewrite lookup_insert. case_decide; [subst h'|apply Hd].
    intros [= ->]. by apply Hx.
  - exists []. by rewrite app_nil_r.
Qed.

Lemma verifies_trans g c1 c2 c3 : verifies g c1 c2 → verifies g c2 c3 → verifies g c1 c3.
Proof.
  intros [_ X1 ? ? ? ? [? ?]] [? X2 ? ? ? ? [? ?]].
  split; [done|by eapply ext_trans|congruence..|split; congruence].
Qed.

Lemma verifyBlockAsync_wp g c b Q :
  core g c → (∀ r c', verifies g c c' → Q r c') → wp (verifyBlockAsync b) Q c.
Proof.
  intros Hc HQ. unfold verifyBlockAsync. wps.
  destruct (cx_verifiedBlockState c !! Block_Hash b).
  { wps. by apply HQ, verifies_refl. }
  destruct (cx_verifingBlockState c !! Block_Hash b).
  { wps. by apply HQ, verifies_refl. }
  wps. wps. by apply HQ, verifies_chan.
Qed.

(** The result of a worker is taken from its channel. *)
Lemma receiveResult_wp c h x Q :
  cx_verifingBlockState c !! h = Some x → x ≠ ChanDrained →
  (∀ r, Q r (c <| cx_verifingBlockState ::= <[h := ChanDrained]> |>)) →
  wp (receiveResult env (BlockChan h)) Q c.
Proof.
  intros Hx Hn HQ. unfold receiveResult. wps. rewrite Hx. destruct x as [b|r|]; [| |done].
  - apply wp_bind. apply wp_unwrap; [done|]. intros r _. wps. wps. apply HQ.
  - wps. wps. apply HQ.
Qed.

Lemma verifies_result g c h r :
  core g c → cx_verifiedBlockState c !! h = None →
  verifies g c (c <| cx_verifingBlockState ::= <[h := ChanDrained]> |>
                  <| cx_verifiedBlockState ::= <[h := r]> |>).
Proof.
  intros [? ? ? ? ? ? ? ? ? Hd ? ? ? ?] Hn. split; [|split|done..]; [|done| |].
  - split; try done. upd. intros h' Hh'. destruct (decide (h = h')) as [<-|Hne].
    + rewrite lookup_insert_eq. eauto.
    + rewrite lookup_insert_ne in Hh' by done. rewrite lookup_insert_ne by done. by apply Hd.
  - intros h' (r' & Hr' & He). exists r'. upd. rewrite lookup_insert_ne by congruence. done.
  - exists []. by rewrite app_nil_r.
Qed.

Lemma verifies_drop g c b : core g c →
  verifies g c (c <| cx_ReceivedProposalBlock ::= delete (Block_Hash b) |>).
Proof.
  intros [? ? ? ? ? ? ? ? Hr ? ? ? ? ?]. split; [|split|done..]; [|done|done|].
  - split; try done. upd. intros h d [_ Hd]%lookup_delete_Some. by apply Hr.
  - exists []. by rewrite app_nil_r.
Qed.

Lemma verifyBlockSync_wp g c b Q :
  core g c →
  (∀ err c', verifies g c c' → (err = None → verified_ok c' (Block_Hash b)) → Q err c') →
  wp (verifyBlockSync env b) Q c.
Proof.
  intros Hc HQ. unfold verifyBlockSync. wps.
  destruct (cx_verifiedBlockState c !! Block_Hash b) as [r|] eqn:Ev.
  { wps. apply HQ; [by apply verifies_refl|]. intros He. by exists r. }
  assert (∀ c1 x, verifies g c c1 → cx_verifiedBlockState c1 !! Block_Hash b = None →
    cx_verifingBlockState c1 !! Block_Hash b = Some x → x ≠ ChanDrained →
    wp (result ← receiveResult env (BlockChan (Block_Hash b));
        saveVerifiedBlockState (Block_Hash b) result ;;
        match bs_err result with Some _ => dropProposalBlock b | None => mret tt end ;;
        mret (bs_err result)) Q c1) as Hrest.
  { intros c1 x H1 Hn Hx Hd. apply wp_bind. eapply receiveResult_wp; [done|done|]. intros r.
    unfold saveVerifiedBlockState. wps. apply wp_bind.
    pose proof (verifies_result g c1 _ r (vf_core _ _ _ H1) Hn) as H2.
    pose proof (verifies_trans _ _ _ _ H1 H2) as H12.
    destruct (bs_err r) as [e|] eqn:Ee; unfold dropProposalBlock; wps; wps; apply HQ; try done.
    - eapply verifies_trans; [exact H12|]. apply verifies_drop, H2.
    - intros _. exists r. upd. by rewrite lookup_insert_eq. }
  apply wp_bind. unfold verifyBlockAsync. wps. rewrite Ev.
  destruct (cx_verifingBlockState c !! Block_Hash b) as [x|] eqn:Ex; wps.
  - eapply Hrest; [by apply verifies_refl|done|done|]. intros ->.
    apply (co_drained _ _ Hc) in Ex. rewrite Ev in Ex. by destruct Ex.
  - wps. eapply Hrest; [by apply verifies_chan|done|upd; apply lookup_insert_eq|done].
Qed.

Lemma soft_block_wp g c r Q :
  core g c →
  (∀ ok v c', verifies g c c' → (ok = true → certifiable g c' r v) → Q (ok, v) c') →
  wp (isSoftVoteEnoughForNonEmptyValueWhoseBlockIsReceivedAndValid env r) Q c.
Proof.
  intros Hc HQ. unfold isSoftVoteEnoughForNonEmptyValueWhoseBlockIsReceivedAndValid. wps.
  destruct (IsSoftVoteEnoughForNonEmpty _ _ _) as [ok v] eqn:Es.
  destruct ok; [|wps; by apply HQ; [apply verifies_refl|]].
  destruct (getProposalBlock c v) as [d|] eqn:Ed; [|wps; by apply HQ; [apply verifies_refl|]].
  destruct (co_received _ _ Hc _ _ Ed) as [Eh _].
  apply wp_bind. apply (verifyBlockSync_wp g); [done|]. intros [e|] c1 H1 Hok; wps; apply HQ; try done.
  intros _. rewrite Eh in Hok. split; [|by apply Hok]. apply (ex_quorum _ _ _ (vf_ext _ _ _ H1)).
  eapply soft_enough_quorum; [|done]. by eapply counted_hvs_inv, co_counter.
Qed.

(** ** Making and inserting blocks *)

(** A write of [newBlock] to the fields of the block under construction. *)
Definition builds (g : Base) (c c' : Ctx) : Prop := quiet g c c' ∧ cx_state c' = cx_state c.

Lemma builds_modify g c c1 c2 :
  builds g c c1 → frame c2 = frame c1 → cx_msgChan c2 = cx_msgChan c1 → cx_trace c2 = cx_trace c1 →
  cx_state c2 = cx_state c1 → builds g c c2.
Proof.
  intros [H1 E1] Ef Em Et Es. split; [|congruence]. eapply quiet_trans; [exact H1|].
  apply quiet_modify; [apply H1|done..].
Qed.

Lemma newBlock_wp g c Q :
  core g c → (∀ r c', builds g c c' → (r = None → is_Some (cx_newBlock c')) → Q r c') →
  wp (newBlock env) Q c.
Proof.
  intros Hc HQ. unfold newBlock. wps. wps.
  set (c0 := c <| cx_statedb := None |> <| _ := _ |> <| _ := _ |> <| _ := _ |>).
  assert (builds g c c0) as H0 by (split; [by apply quiet_modify|done]). clearbody c0.
  destruct (env_StateAt env _) as [st|]; [|wps; by apply HQ].
  apply wp_bind. apply wp_unwrap; [by rewrite (co_st _ _ (qt_core _ _ _ (proj1 H0)))|]. intros pst _. wps.
  set (c1 := c0 <| cx_header := _ |>).
  assert (builds g c c1) as H1 by (by eapply builds_modify). clearbody c1.
  apply wp_bind. apply (getMinerKey_wp g); [apply H1|]. intros [mk|e] c2 Hq Es.
  all: assert (builds g c c2) as H2
    by (destruct H1; split; [by eapply quiet_trans|congruence]).
  2: { wps. by apply HQ. }
  destruct (MinerKey_Seed _ _ _ _) as [[seed proof]|e]; [|wps; by apply HQ].
  wps. set (c3 := c2 <| cx_header := _ |>).
  assert (builds g c c3) as H3 by (by eapply builds_modify). clearbody c3.
  destruct (Prepare _) as [hdr|e]; [|wps; by apply HQ].
  wps. set (c4 := c3 <| cx_header := _ |> <| _ := _ |>).
  assert (builds g c c4) as H4 by (by eapply builds_modify). clearbody c4.
  destruct (env_Pending env); cbn [negb]; [|wps; by apply HQ].
  destruct (env_commitTransactions _ _ _) as [[[[st' hdr'] txs] rcs] cnt]. wps.
  set (c5 := c4 <| cx_header := _ |> <| _ := _ |>).
  assert (builds g c c5) as H5 by (by eapply builds_modify). clearbody c5.
  destruct (env_stillMining env); cbn [negb]; [|wps; by apply HQ].
  destruct (Finalize _ _ _ _ _ _) as [[b hdr''] st'']. wps. wps. apply HQ.
  - by eapply builds_modify.
  - intros _. upd. eauto.
Qed.

Lemma insertIntoBlockChain_wp g c b Q :
  core g c → commit_rule g b → (∀ r c', quiet g c c' → Q r c') → wp (insertIntoBlockChain env b) Q c.
Proof.
  intros Hc Hb HQ. unfold insertIntoBlockChain. wps.
  destruct (getVerifiedBlockState c _) as [cache|]; last first.
  { destruct (env_InsertChain env b); [wps; by apply HQ, quiet_refl|].
    apply wp_bind. apply (emit_wp g); [done|done|]. intros c1 H1.
    apply wp_bind. apply (emit_wp g); [apply H1|done|]. intros c2 H2. wps. apply HQ.
    by eapply quiet_trans. }
  destruct (bs_err cache); [wps; by apply HQ, quiet_refl|].
  apply wp_bind. apply wp_unwrap; [done|]. intros st _.
  destruct (env_WriteBlock _ _ _ _) as [stat|e]; [|wps; by apply HQ, quiet_refl].
  apply wp_bind. apply (emit_wp g); [done|done|]. intros c1 H1.
  apply wp_bind. apply (emit_wp g); [apply H1|done|]. intros c2 H2.
  pose proof (quiet_trans _ _ _ _ H1 H2) as H12. apply wp_bind. destruct stat.
  - apply (emit_wp g); [apply H12|done|]. intros c3 H3. wps. apply HQ. by eapply quiet_trans.
  - wps. wps. by apply HQ.
Qed.

(** ** Committing *)

Lemma sortVotes_perm l : sortVotes l ≡ₚ l.
Proof. apply merge_sort_Permutation. Qed.

(** The sealed block of a value with a cert quorum. *)
Lemma sealBlock_rule g c d r v nodes :
  core g c → quorum g c r RoundStep3Certifying v → getProposalBlock c v = Some d →
  let cvs := sortVotes (GetCertVoteStorage (cx_counter c) r v) in
  env_BuildProof env (g_st g) (Block_Root (g_parent g)) (u64 (hd_Number (bl_header (pb_Block d))))
    (cr_Address (pb_Credential d)) cvs = Some nodes →
  cvs ≠ [] ∧ commit_rule g (sealBlock d r v cvs nodes).
Proof.
  intros Hc Hq Hd cvs Hn. destruct (co_received _ _ Hc _ _ Hd) as [Hh [Hp1 Hp2 Hp3 _]].
  pose proof (counted_hvs_inv _ _ _ _ (co_counter _ _ Hc)) as Hinv.
  destruct (cert_quorum_votes _ _ _ _ _ _ Hinv Hq) as (Hne & Hnd & Hsum & Hall).
  set (l := HeightVoteSet_GetCertVotesOfValue (cx_counter c) r v) in *.
  assert (cvs ≡ₚ map CertVoteStorage_of_vote l) as Hperm by apply sortVotes_perm.
  destruct (Permutation_map_inv _ _ Hperm) as (l' & E & Hl).
  assert (cvs ≠ []) as Hcne.
  { rewrite E. intros El. apply map_eq_nil in El. subst l'. by apply Permutation_nil_r in Hl. }
  split; [done|]. split; cbn -[RoundStep3Certifying].
  - done.
  - unfold Block_Hash. cbn. by rewrite <- Hh.
  - exists ((λ vt, vt_Weight vt) <$> l'). split.
    + rewrite E. change (map CertVoteStorage_of_vote l') with (CertVoteStorage_of_vote <$> l').
      apply Forall2_fmap_l, Forall2_fmap_r, Forall_Forall2_diag.
      rewrite Hl in Hall. eapply Forall_impl; [exact Hall|]. intros vt (Hv & _ & [Hr Hs Hht _ Hsp]).
      unfold cert_vote_speaks. cbn. by rewrite <- Hv.
    + rewrite sumZ_fmap. change (id ∘ _) with (λ vt : VoteData, vt_Weight vt).
      rewrite <- (sumZ_perm _ _ _ Hl).
      pose proof (GetCommitteeNumber_threshold_pos (g_height g) RoundStep3Certifying).
      unfold g_threshold in *. lia.
  - change (NoDup ((λ cv, cs_Address (cv_Credential cv)) <$> cvs)). rewrite Hperm. change (map CertVoteStorage_of_vote l) with (CertVoteStorage_of_vote <$> l).
    rewrite <- list_fmap_compose. exact Hnd.
  - exists (cr_Weight (pb_Credential d)). exact Hp2.
  - exact Hp3.
  - exists env. exact Hn.
Qed.

(** The machine stays in its state, round and step. *)
Record steady (g : Base) (c c' : Ctx) : Prop := {
  sd_core : core g c';
  sd_ext : ext g c c';
  sd_round : cx_Round c' = cx_Round c;
  sd_step : cx_Step c' = cx_Step c;
  sd_kind : st_kind <$> cx_state c' = st_kind <$> cx_state c;
  sd_counter : cx_counter c' = cx_counter c
}.

Lemma steady_trans g c1 c2 c3 : steady g c1 c2 → steady g c2 c3 → steady g c1 c3.
Proof.
  intros [_ X1 ? ? ? ?] [? X2 ? ? ? ?]. split; [done|by eapply ext_trans|congruence..].
Qed.

Lemma quiet_steady g c c' : quiet g c c' → steady g c c'.
Proof.
  intros [E Hc Hx]. unfold frame in E.
  injection E as E1 E2 E3 E4 E5 E6 E7 E8 E9 E10 E11 E12 E13 E14 E15 E16. by split.
Qed.

Lemma verifies_steady g c c' : verifies g c c' → steady g c c'.
Proof. intros [Hc Hx ? ? Es ? _]. split; [done..| |done]. by rewrite Es. Qed.

Lemma steady_refl g c : core g c → steady g c c.
Proof. intros Hc. by apply quiet_steady, quiet_refl. Qed.

Lemma steady_state g c c' : steady g c c' → is_Some (cx_state c) → is_Some (cx_state c').
Proof.
  intros [_ _ _ _ E _]. destruct (cx_state c), (cx_state c'); cbn in E; try done; eauto.
Qed.

Lemma OnPotentialVoteEnough_wp g c v Q :
  core g c → (∀ c', steady g c c' → Q tt c') → wp (OnPotentialVoteEnough v) Q c.
Proof.
  intros Hc HQ. unfold OnPotentialVoteEnough. wps.
  destruct (getProposalBlock c v); [|wps; by apply HQ, steady_refl].
  apply wp_bind. apply (verifyBlockAsync_wp g); [done|]. intros r c1 H1. wps.
  by apply HQ, verifies_steady.
Qed.

Lemma OnCertVoteEnough_wp g c v r Q :
  core g c → quorum g c r RoundStep3Certifying v →
  (∀ e c', steady g c c' → Q e c') → wp (OnCertVoteEnough env v r) Q c.
Proof.
  intros Hc Hq HQ. unfold OnCertVoteEnough. wps.
  destruct (getProposalBlock c v) as [d|] eqn:Ed.
  - pose proof (sealBlock_rule g c d r v) as Hs.
    set (cvs := sortVotes _) in *. cbn zeta in Hs.
    destruct (length cvs =? 0)%nat eqn:El.
    { apply Nat.eqb_eq, length_zero_iff_nil in El. exfalso.
      pose proof (counted_hvs_inv _ _ _ _ (co_counter _ _ Hc)) as Hinv.
      destruct (cert_quorum_votes _ _ _ _ _ _ Hinv Hq) as (Hne & _).
      apply Hne. unfold cvs in El.
      pose proof (sortVotes_perm (GetCertVoteStorage (cx_counter c) r v)) as Hp. rewrite El in Hp.
      apply Permutation_nil_l, eq_sym in Hp. by apply fmap_nil_inv in Hp. }
    apply wp_bind. apply wp_unwrap; [by rewrite (co_st _ _ Hc)|]. intros st Est.
    rewrite (co_st _ _ Hc) in Est. injection Est as <-.
    apply wp_bind. apply wp_unwrap; [done|]. intros nodes En. rewrite (co_parent _ _ Hc) in En.
    destruct (Hs nodes Hc Hq Ed En) as [_ Hcm].
    apply wp_bind. apply (insertIntoBlockChain_wp g); [done|done|]. intros [[|code]|] c1 H1.
    + wps. by apply HQ, quiet_steady.
    + by apply wp_panic.
    + wps. by apply HQ, quiet_steady.
  - wps. wps. apply HQ. destruct Hc. split; [|apply ext_state || split|done..].
    + split; try done. by right.
    + done.
    + done.
    + exists []. by rewrite app_nil_r.
Qed.

Lemma ranked_LessThan a b :
  ranked (pl_Credential a) → ranked (pl_Credential b) → is_Some (ProposalLeaderData_LessThan a b).
Proof.
  intros Ha Hb. unfold ProposalLeaderData_LessThan, Credential_LessThan, LessThanByProof, LessThanByProofInt.
  destruct (Z.eqb_spec (cr_Weight (pl_Credential a)) 0) as [|Hwa]; [eauto|].
  destruct (Z.eqb_spec (cr_Weight (pl_Credential b)) 0) as [|Hwb]; [eauto|].
  destruct (Ha Hwa) as [x ->], (Hb Hwb) as [y ->]. cbn. eauto.
Qed.

Lemma g_speaks_ranked g miner r s cr v sig :
  g_speaks g miner r s (cr_Proof cr) v sig (cr_Weight cr) → ranked cr.
Proof. intros [_ _ _ (h & _ & _ & Hv & _) _] _. exists h. by eapply vrf_output. Qed.

Lemma OnProposalLeaderReceived_wp g c d Q :
  core g c → ranked (pl_Credential d) → (∀ c', steady g c c' → Q tt c') →
  wp (OnProposalLeaderReceived d) Q c.
Proof.
  intros Hc Hd HQ. unfold OnProposalLeaderReceived. wps.
  destruct (_ || _); [wps; by apply HQ, steady_refl|].
  destruct (co_leaders _ _ Hc) as (m & Hm & Hl). unfold getProposalLeader. rewrite Hm.
  apply wp_bind.
  assert (∀ b : bool, wp (if b then UpdateProposalLeader d else mret tt) Q c) as Hb.
  { intros []; [|wps; by apply HQ, steady_refl]. unfold UpdateProposalLeader. wps.
    apply wp_bind. apply wp_unwrap; [congruence|]. intros m' [= <-]%(eq_trans (eq_sym Hm)). wps.
    apply HQ. destruct Hc. split; [|split|done..]; [|done|done|].
    - split; try done. upd. exists (<[cr_Round (pl_Credential d):=d]> m). split; [done|].
      intros r l. rewrite lookup_insert. case_decide; [by intros [= <-]|apply Hl].
    - exists []. by rewrite app_nil_r. }
  destruct (_ =? BadRound); [wps; apply (Hb true)|].
  destruct (m !! _) as [l|] eqn:El; [|wps; apply (Hb true)].
  apply wp_unwrap; [|intros b _; apply Hb]. intros E.
  destruct (ranked_LessThan d l Hd (Hl _ _ El)) as [b Eb]. congruence.
Qed.

Lemma StateBase_OnProposalDataComplete_wp g c d Q :
  core g c → Block_Hash (pb_Block d) ≠ g_empty g →
  (∀ e c', steady g c c' → Q e c') → wp (StateBase_OnProposalDataComplete env d) Q c.
Proof.
  intros Hc Hn HQ. unfold StateBase_OnProposalDataComplete. wps.
  destruct (Z.eqb_spec (cx_WaitingBlockForValue c) (Block_Hash (pb_Block d))) as [E|];
    [|wps; by apply HQ, steady_refl].
  apply wp_bind. apply (verifyBlockSync_wp g); [done|]. intros [e|] c1 H1 _.
  { wps. by apply HQ, verifies_steady. }
  wps. apply (OnCertVoteEnough_wp g); [apply H1| |].
  - destruct (co_waiting _ _ (vf_core _ _ _ H1)) as [Hw|Hw]; [|done].
    destruct (vf_waiting _ _ _ H1). congruence.
  - intros ev c2 H2. apply HQ. eapply steady_trans; [by apply verifies_steady|done].
Qed.

(** ** Entering states *)

(** The states in which the machine waits, with their steps and the values whose
    blocks they wait for. *)
Definition kind_ok (g : Base) (c : Ctx) (k : state_kind) : Prop :=
  match k with
  | StateProposal _ _ => cx_Step c = RoundStep1Proposal
  | StateCertifying v =>
      cx_Step c = RoundStep3Certifying ∧ (v = 0 ∨ quorum g c (cx_Round c) RoundStep2Filtering v)
  | StateSecondFinishing v =>
      RoundStep4FirstFinishing ≤ cx_Step c < 2 ^ 32 ∧
      (v = 0 ∨ quorum g c (cx_Round c) RoundStep2Filtering v)
  | _ => False
  end.

Definition settled (g : Base) (c : Ctx) : Prop :=
  ∃ s, cx_state c = Some s ∧ kind_ok g c (st_kind s).

(** A running machine between two events. *)
Record good (g : Base) (c : Ctx) : Prop := {
  gd_core : core g c;
  gd_state : settled g c;
  gd_armed : armed c
}.

Lemma good_running g c : good g c → is_Some (cx_state c).
Proof. intros [_ (s & Hs & _) _]. eauto. Qed.

Lemma settled_steady g c c' : settled g c → steady g c c' → settled g c'.
Proof.
  intros (s & Hs & Hk) [Hc' _ Er Es Ek Ec]. rewrite Hs in Ek. unfold settled.
  destruct (cx_state c') as [s'|]; [|done]. exists s'. split; [done|]. injection Ek as ->.
  unfold kind_ok, quorum in *. by rewrite Er, Es, Ec.
Qed.

Lemma good_steady g c c' : good g c → steady g c c' → good g c'.
Proof.
  intros [Hc Hs Ha] St. split; [apply St|by eapply settled_steady|].
  destruct (ex_trace _ _ _ (sd_ext _ _ _ St)) as (xs & Ht & _).
  eapply armed_later; [|apply St|apply St|exact Ht|exact Ha].
  by rewrite (co_height _ _ Hc), (co_height _ _ (sd_core _ _ _ St)).
Qed.

Lemma next_empty_carried g c r :
  core g c → isNextVoteEnoughForEmpty c (sub32 r 1) = true → open_round g c r.
Proof.
  intros Hc. unfold isNextVoteEnoughForEmpty, HeightVoteSet_IsNextVoteEnoughForEmptyAtAnyStep,
    HeightVoteSet_RoundVoteSet. rewrite (co_empty _ _ Hc).
  destruct (roundVoteSet _ !! _) as [rvs|] eqn:Er; [|done].
  unfold RoundVoteSet_IsNextVoteEnoughForEmptyAtAnyStep. rewrite existsb_elem.
  intros ([s svs] & Hin%elem_of_map_to_list & Hm%Z.eqb_eq). cbn in Hm.
  pose proof (counted_hvs_inv _ _ _ _ (co_counter _ _ Hc) (sub32 r 1)) as Hinv.
  unfold round_at in Hinv. rewrite Er in Hinv. cbn in Hinv.
  pose proof (rinv_next _ _ _ _ Hinv _ _ Hin) as Hs. right. exists s. split; [done|].
  assert (getStepVoteSet rvs s = Some svs) as Hg.
  { rewrite getStepVoteSet_cases. unfold RoundStep2Filtering, RoundStep3Certifying, RoundStep4FirstFinishing in *.
    by repeat case_cmp; try lia. }
  exists svs. unfold round_at. rewrite Er. split; [done|]. rewrite <- Hm.
  apply (inv_major _ _ _ _ (rinv_step _ _ _ _ Hinv _ _ Hg)). rewrite Hm. apply Hc.
Qed.

(** The test of [StateProposal] and [StateFiltering]: round 1, or an empty
    next-vote quorum before it. *)
Lemma open_test g c :
  core g c → (cx_Round c =? 1) || isNextVoteEnoughForEmpty c (sub32 (cx_Round c) 1) = true →
  open_round g c (cx_Round c).
Proof.
  intros Hc [Hr%Z.eqb_eq|Hn]%orb_true_iff; [left; by rewrite Hr|by apply next_empty_carried].
Qed.

(** The context of a new round. *)
Definition at_round (r : Z) (v : Hash) (c : Ctx) : Ctx :=
  c <| cx_Round := r |> <| cx_StartingValue := v |> <| cx_Step := RoundStep1Proposal |>.

Lemma core_at_round g c r v : core g c → is_u32 r → carried g c r v → core g (at_round r v c).
Proof. intros [? ? ? ? ? ? ? ? ? ? ? ? ? ?] Hr Hv. by split. Qed.

Lemma enterProposal_wp g c r v Q :
  core g (at_round r v c) → (∃ s, cx_state c = Some s ∧ st_kind s = StateProposal r v) →
  (∀ c', good g c' → ext g c c' → cx_Round c' = r → Q tt c') → wp (enterProposal env r v) Q c.
Proof.
  intros Hc (s & Hs & Hk) HQ. unfold enterProposal. wps. fold (at_round r v c).
  set (c0 := at_round r v c) in *.
  assert (settled g c0) as G0.
  { exists s. split; [done|]. by rewrite Hk. }
  assert (ext g c c0) as X0.
  { split; [done|done|]. exists []. by rewrite app_nil_r. }
  assert (cx_Round c0 = r) as R0 by done. assert (cx_Step c0 = RoundStep1Proposal) as S0 by done. clearbody c0.
  wps. apply wp_bind. apply (broadcastMsg_wp g); [done|done|]. intros c1 H1.
  apply wp_bind. apply (startTimer_wp g); [apply H1|by rewrite (sd_step _ _ _ (quiet_steady _ _ _ H1)), S0|].
  intros c2 H2 A2.
  pose proof (quiet_steady _ _ _ (quiet_trans _ _ _ _ H1 H2)) as St2.
  assert (good g c2) as G2 by (split; [apply H2|by eapply settled_steady|done]).
  assert (∀ c', steady g c2 c' → Q tt c') as HQ'.
  { intros c' Hst. apply HQ; [by eapply good_steady| |].
    - eapply ext_trans; [exact X0|]. eapply ext_trans; [apply St2|apply Hst].
    - by rewrite (sd_round _ _ _ Hst), (sd_round _ _ _ St2). }
  apply wp_bind. apply (drawSortition_wp g); [apply H2|]. intros w c3 H03 Hw.
  pose proof (qt_core _ _ _ H03) as C3.
  destruct (w =? 0); [wps; by apply HQ', quiet_steady|]. wps.
  assert (is_Some (cx_state c3)) as [s3 S3] by (eapply quiet_state, good_running; done).
  destruct (Hw _ S3) as [Ew Hd].
  destruct (_ || _) eqn:Eo.
  - apply wp_bind. apply (newBlock_wp g); [done|]. intros [[]|] c4 [H4 E4] Hb.
    { wps. apply HQ', quiet_steady. by eapply quiet_trans. }
    { by apply wp_panic. }
    wps. apply wp_bind. apply wp_unwrap; [done|]. intros b Eb. unfold theState. wps.
    apply wp_unwrap; [congruence|]. intros s4 S4. apply (sendProposal_wp g); [apply H4| | |].
    + left. pose proof (quiet_steady _ _ _ H4) as St. rewrite (sd_round _ _ _ St).
      eapply carried_ext; [apply H4|]. by apply open_test.
    + rewrite E4, S3 in S4. injection S4 as <-. by rewrite Ew.
    + intros c5 H5. apply HQ', quiet_steady. eapply quiet_trans; [exact H03|by eapply quiet_trans].
  - unfold theState. wps. apply wp_unwrap; [congruence|]. intros s4 S4.
    apply (sendProposal_wp g); [done| | |].
    + right. apply C3.
    + rewrite S3 in S4. injection S4 as <-. by rewrite Ew.
    + intros c5 H5. apply HQ', quiet_steady. by eapply quiet_trans.
Qed.
End specs.
