(* ===== verification/MachineEvents.v ===== *)
(** * MachineEvents: the states, the handlers and the events keep the invariant

    The second half of the specifications: entering the states of a round, the
    reactions to timeouts, votes and proposals, and the events of
    [receiveRoutine]. *)

From S2P Require Import Prelude Bytes Params Crypto ForwardSecure Types VoteSet VoteSetFacts.
From S2P Require Import MinerContract Sortition MinerKeys Engine Ticker StateMachine.
From S2P Require Import MachineLogic MachineInvariant.

Local Open Scope Z_scope.

Section events.
Context `{CR : Crypto} `{VC : !VrfCorrect} `{BO : Boost} `{W : World} (env : Env).

(** ** The states of a round *)

Lemma gotoProposal_wp g c r v Q :
  core g c → is_Some (cx_state c) → is_u32 r → carried g c r v →
  (∀ c', good g c' → ext g c c' → cx_Round c' = r → Q tt c') → wp (gotoProposal env r v) Q c.
Proof.
  intros Hc Hs Hr Hv HQ. unfold gotoProposal. apply (gotoState_wp g); [done|done|]. intros c1 H1.
  assert (ext g c (c1 <| cx_state := Some (mkState (StateProposal r v) 0 0 0) |>)) as X1.
  { eapply ext_trans; [apply H1|apply ext_state]. }
  apply (enterProposal_wp _ g).
  { apply core_at_round; [apply core_state, H1|done|by eapply carried_ext]. }
  { eexists. by split. }
  intros c2 G2 X2 R2. apply HQ; [done|by eapply ext_trans|done].
Qed.

Lemma tryCertValue_wp g c v Q :
  good g c → cx_Step c = RoundStep3Certifying → (∃ w, st_kind <$> cx_state c = Some (StateCertifying w)) →
  quorum g c (cx_Round c) RoundStep2Filtering v →
  (∀ c', good g c' → ext g c c' → cx_Round c' = cx_Round c → cx_Step c' = cx_Step c → Q tt c') →
  wp (tryCertValue env v) Q c.
Proof.
  intros G Hst [w Hk] Hq HQ. pose proof (gd_core _ _ G) as Hc. unfold tryCertValue. wps.
  assert (∀ c', steady g c c' → Q tt c') as HQ'.
  { intros c' St. apply HQ; [by eapply good_steady|apply St|apply St|apply St]. }
  destruct (getProposalBlock c v) as [d|] eqn:Ed.
  - apply wp_bind. apply (verifyBlockSync_wp _ g); [done|]. intros [e|] c1 H1 Hok.
    { wps. by apply HQ', verifies_steady. }
    destruct (co_received _ _ Hc _ _ Ed) as [Eh _]. rewrite Eh in Hok.
    apply (sendVoteOf_wp g); [apply H1| | | |].
    + rewrite (vf_state _ _ _ H1). by eapply good_running.
    + by rewrite (vf_step _ _ _ H1), Hst.
    + right. left. rewrite (vf_step _ _ _ H1), (vf_round _ _ _ H1). split; [done|].
      split; [by apply H1|by apply Hok].
    + intros c2 H2. apply HQ'. eapply steady_trans; [by apply verifies_steady|by apply quiet_steady].
  - unfold modifyState. wps.
    destruct (cx_state c) as [s|] eqn:Es; [|done]. cbn in Hk. injection Hk as Hk.
    set (c1 := c <| cx_state ::= _ |>).
    assert (good g c1) as G1.
    { split; [by apply core_state|exists (s <| st_kind := StateCertifying v |>)|].
      - split; [unfold c1; upd; by rewrite Es|]. split; [done|by right].
      - apply G. }
    apply (emit_wp g); [apply G1|done|]. intros c2 H2%quiet_steady. apply HQ.
    + by eapply good_steady.
    + eapply ext_trans; [|apply H2]. apply ext_state.
    + by rewrite (sd_round _ _ _ H2).
    + by rewrite (sd_step _ _ _ H2).
Qed.

(** The state a machine enters, with the step it sets. *)
Lemma core_step g c step : core g c → core g (c <| cx_Step := step |>).
Proof. intros [? ? ? ? ? ? ? ? ? ? ? ? ? ?]. by split. Qed.

Lemma ext_step g c step : ext g c (c <| cx_Step := step |>).
Proof. split; [done|done|]. exists []. by rewrite app_nil_r. Qed.

Lemma enterCertifying_wp g c Q :
  core g c → (∃ s, cx_state c = Some s) →
  (∀ c', good g c' → ext g c c' → cx_Round c' = cx_Round c → cx_Step c' = RoundStep3Certifying → Q tt c') →
  wp (enterCertifying env) Q c.
Proof.
  intros Hc [s Hs] HQ. unfold enterCertifying. wps. unfold modifyState. wps.
  set (c0 := c <| cx_Step := _ |> <| _ ::= _ |>).
  assert (core g c0 ∧ settled g c0 ∧ ext g c c0 ∧ cx_Round c0 = cx_Round c ∧
    cx_Step c0 = RoundStep3Certifying ∧ ∃ w, st_kind <$> cx_state c0 = Some (StateCertifying w))
    as (C0 & G0 & X0 & R0 & S0 & w0 & K0).
  { unfold c0. split_and!; [by apply core_state, core_step| |eapply ext_trans; [apply ext_step|apply ext_state]|done|done|].
    - eexists. split; [upd; by rewrite Hs|]. split; [done|by left].
    - exists 0. upd. by rewrite Hs. }
  clearbody c0. apply wp_bind. apply (startTimer_wp g); [apply C0|by rewrite S0|]. intros c1 H1 A1.
  apply wp_bind. apply (drawSortition_wp g); [apply H1|]. intros weight c2 H2 _.
  pose proof (quiet_steady _ _ _ (quiet_trans _ _ _ _ H1 H2)) as St.
  assert (good g c1) as G1.
  { split; [apply H1|eapply settled_steady; [done|by apply quiet_steady]|done]. }
  pose proof (good_steady _ _ _ G1 (quiet_steady _ _ _ H2)) as G2.
  assert (Q tt c2) as HQ2.
  { apply HQ; [done|eapply ext_trans; [done|apply St]| |].
    - by rewrite (sd_round _ _ _ St).
    - by rewrite (sd_step _ _ _ St). }
  destruct (weight =? 0); [by wps|]. wps.
  destruct (IsSoftVoteEnoughForNonEmpty _ _ _) as [[] v] eqn:Es; [|by wps].
  apply (tryCertValue_wp g); [done| | | |].
  - by rewrite (sd_step _ _ _ St).
  - exists w0. by rewrite (sd_kind _ _ _ St).
  - eapply soft_enough_quorum; [|done]. by eapply counted_hvs_inv, co_counter, gd_core.
  - intros c3 G3 X3 R3 S3. apply HQ; [done|eapply ext_trans; [done|eapply ext_trans; [apply St|done]]| |].
    + by rewrite R3, (sd_round _ _ _ St).
    + by rewrite S3, (sd_step _ _ _ St).
Qed.

(** Leaving a state for one that ends in [m]. *)
Lemma goto_wp g c k m Q :
  core g c → is_Some (cx_state c) →
  (∀ c', core g c' → ext g c c' → cx_Round c' = cx_Round c → cx_Step c' = cx_Step c →
     cx_state c' = Some (mkState k 0 0 0) → wp m Q c') →
  wp (gotoState k m) Q c.
Proof.
  intros Hc Hs HQ. apply (gotoState_wp g); [done|done|]. intros c1 H1.
  pose proof (quiet_steady _ _ _ H1) as St. apply HQ; [apply core_state, H1| |apply St|apply St|done].
  eapply ext_trans; [apply H1|apply ext_state].
Qed.

Lemma enterFiltering_wp g c Q :
  core g c → is_Some (cx_state c) →
  (∀ c', good g c' → ext g c c' → cx_Round c' = cx_Round c → cx_Step c' = RoundStep3Certifying → Q tt c') →
  wp (enterFiltering env) Q c.
Proof.
  intros Hc Hs HQ. unfold enterFiltering. wps.
  set (c0 := c <| cx_Step := _ |>).
  assert (core g c0 ∧ ext g c c0 ∧ cx_Round c0 = cx_Round c ∧ cx_Step c0 = RoundStep2Filtering ∧
    is_Some (cx_state c0)) as (C0 & X0 & R0 & S0 & K0).
  { split_and!; [by apply core_step|apply ext_step|done|done|done]. }
  clearbody c0. apply wp_bind. apply (drawSortition_wp g); [done|]. intros weight c1 H1 _.
  pose proof (quiet_steady _ _ _ H1) as St1.
  assert (∀ c2, steady g c0 c2 → wp (gotoState (StateCertifying 0) (enterCertifying env)) Q c2) as Hgo.
  { intros c2 St. apply (goto_wp g); [apply St|by eapply steady_state|].
    intros c3 C3 X3 R3 _ S3. apply (enterCertifying_wp g); [done|by eexists|].
    intros c4 G4 X4 R4 S4. apply HQ; [done| | |done].
    - eapply ext_trans; [done|]. eapply ext_trans; [apply St|]. by eapply ext_trans.
    - by rewrite R4, R3, (sd_round _ _ _ St). }
  destruct (weight =? 0); [by apply Hgo|]. wps.
  assert (∀ v, open_round g c1 (cx_Round c1) ∨ carried g c1 (cx_Round c1) v →
    wp (sendVoteOf VoteTypeSoft v) (λ _ c', wp (gotoState (StateCertifying 0) (enterCertifying env)) Q c') c1)
    as Hvote.
  { intros v Hv. apply (sendVoteOf_wp g); [apply H1|by eapply steady_state| | |].
    - by rewrite (sd_step _ _ _ St1), S0.
    - left. by rewrite (sd_step _ _ _ St1).
    - intros c2 H2. apply Hgo. eapply steady_trans; [done|by apply quiet_steady]. }
  apply wp_bind. destruct (_ || _) eqn:Eo.
  - destruct (getProposalLeader c1 (cx_Round c1)) as [l|]; [|wps; by apply Hgo].
    apply Hvote. left. apply open_test; [apply H1|done].
  - apply Hvote. right. apply H1.
Qed.

Lemma enterSecondFinishing_wp g c Q :
  core g c → (∃ s, cx_state c = Some s ∧ st_kind s = StateSecondFinishing 0) →
  3 ≤ cx_Step c < 2 ^ 32 - 1 →
  (∀ c', good g c' → ext g c c' → cx_Round c' = cx_Round c → cx_Step c' = cx_Step c + 1 → Q tt c') →
  wp enterSecondFinishing Q c.
Proof.
  intros Hc (s & Hs & Hk) Hb HQ. unfold enterSecondFinishing. wps.
  change (field_update cx_Step _ c) with (c <| cx_Step := add32 (cx_Step c) 1 |>).
  set (c0 := c <| cx_Step := _ |>).
  assert (core g c0 ∧ settled g c0 ∧ ext g c c0 ∧ cx_Round c0 = cx_Round c ∧ cx_Step c0 = cx_Step c + 1)
    as (C0 & G0 & X0 & R0 & S0).
  { assert (add32 (cx_Step c) 1 = cx_Step c + 1) as Ea by (apply add32_id; unfold is_u32; lia).
    split_and!; [by apply core_step| |apply ext_step|done|exact Ea]. exists s. split; [done|].
    rewrite Hk. unfold c0. cbn -[add32 Z.pow]. upd. rewrite Ea.
    unfold RoundStep4FirstFinishing. split; [lia|by left]. }
  clearbody c0. apply wp_bind. apply (startTimer_wp g); [apply C0|rewrite S0; lia|]. intros c1 H1 A1.
  apply wp_bind. apply (drawSortition_wp g); [apply H1|]. intros w c2 H2 _. wps.
  pose proof (quiet_steady _ _ _ (quiet_trans _ _ _ _ H1 H2)) as St.
  assert (good g c1) as G1.
  { split; [apply H1|eapply settled_steady; [done|by apply quiet_steady]|done]. }
  apply HQ; [exact (good_steady _ _ _ G1 (quiet_steady _ _ _ H2))|eapply ext_trans; [done|apply St]| |].
  - by rewrite (sd_round _ _ _ St).
  - by rewrite (sd_step _ _ _ St).
Qed.

Lemma enterFirstFinishing_wp g c Q :
  core g c → is_Some (cx_state c) → 3 ≤ cx_Step c < 2 ^ 32 - 2 →
  (∀ c', good g c' → ext g c c' → cx_Round c' = cx_Round c → cx_Step c' = cx_Step c + 2 → Q tt c') →
  wp (enterFirstFinishing env) Q c.
Proof.
  intros Hc Hs Hb HQ. unfold enterFirstFinishing. wps.
  change (field_update cx_Step _ c) with (c <| cx_Step := add32 (cx_Step c) 1 |>).
  set (c0 := c <| cx_Step := _ |>).
  assert (core g c0 ∧ ext g c c0 ∧ cx_Round c0 = cx_Round c ∧ cx_Step c0 = cx_Step c + 1 ∧
    is_Some (cx_state c0)) as (C0 & X0 & R0 & S0 & K0).
  { split_and!; [by apply core_step|apply ext_step|done| |done]; unfold c0; upd;
      rewrite add32_id by (unfold is_u32; lia); lia. }
  clearbody c0. apply wp_bind. apply (drawSortition_wp g); [done|]. intros weight c1 H1 _.
  pose proof (quiet_steady _ _ _ H1) as St1.
  assert (∀ c2, steady g c0 c2 → wp (gotoState (StateSecondFinishing 0) enterSecondFinishing) Q c2) as Hgo.
  { intros c2 St. apply (goto_wp g); [apply St|by eapply steady_state|].
    intros c3 C3 X3 R3 S3 K3. apply (enterSecondFinishing_wp g); [done|by eexists| |].
    { rewrite S3, (sd_step _ _ _ St). lia. }
    intros c4 G4 X4 R4 S4. apply HQ; [done| | |].
    - eapply ext_trans; [done|]. eapply ext_trans; [apply St|]. by eapply ext_trans.
    - by rewrite R4, R3, (sd_round _ _ _ St).
    - rewrite S4, S3, (sd_step _ _ _ St). lia. }
  destruct (weight =? 0); [by apply Hgo|]. wps.
  apply wp_bind. apply (soft_block_wp _ g); [apply H1|]. intros ok v c2 H2 Hok.
  assert (steady g c0 c2) as St2 by (eapply steady_trans; [done|by apply verifies_steady]).
  assert (∀ v, certifiable g c2 (cx_Round c2) v ∨ carried g c2 (cx_Round c2) v →
    wp (sendVoteOf VoteTypeNext v) (λ _ c', wp (gotoState (StateSecondFinishing 0) enterSecondFinishing) Q c') c2)
    as Hvote.
  { intros v' Hv'. assert (RoundStep4FirstFinishing ≤ cx_Step c2) as H4.
    { rewrite (sd_step _ _ _ St2). unfold RoundStep4FirstFinishing. lia. }
    apply (sendVoteOf_wp g); [apply H2|by eapply steady_state| | |].
    - symmetry. by apply VoteTypeOfStep_next.
    - right. right. done.
    - intros c3 H3. apply Hgo. eapply steady_trans; [done|by apply quiet_steady]. }
  wps. destruct ok.
  - apply Hvote. left. rewrite (vf_round _ _ _ H2). by apply Hok.
  - destruct (_ && _) eqn:Ee.
    + apply andb_true_iff in Ee as [_ Ee]. apply Hvote. right.
      rewrite (co_empty _ _ (sd_core _ _ _ St2)). apply next_empty_carried; [apply H2|done].
    + apply Hvote. right. apply H2.
Qed.

(** ** Reactions *)

Lemma OnTimeout_wp g c Q :
  good g c → cx_Step c < 2 ^ 32 - 2 →
  (∀ c', good g c' → ext g c c' → cx_Round c' = cx_Round c → cx_Step c' = cx_Step c + 2 → Q tt c') →
  wp (OnTimeout env) Q c.
Proof.
  intros G Hb HQ. pose proof (gd_core _ _ G) as Hc. destruct (gd_state _ _ G) as (s & Hs & Hk).
  unfold OnTimeout, theState. wps. apply wp_unwrap; [congruence|]. intros s' Es.
  rewrite Hs in Es. injection Es as <-.
  assert (3 ≤ cx_Step c → wp (gotoState StateFirstFinishing (enterFirstFinishing env)) Q c) as Hfirst.
  { intros H3. apply (goto_wp g); [done|by eapply good_running|]. intros c1 C1 X1 R1 S1 K1.
    apply (enterFirstFinishing_wp g); [done|by eexists|lia|]. intros c2 G2 X2 R2 S2.
    apply HQ; [done|by eapply ext_trans|congruence|congruence]. }
  destruct (st_kind s) as [| | |v| |v]; cbn in Hk; try done.
  - apply (goto_wp g); [done|by eapply good_running|]. intros c1 C1 X1 R1 S1 K1.
    apply (enterFiltering_wp g); [done|by eexists|]. intros c2 G2 X2 R2 S2.
    apply HQ; [done|by eapply ext_trans|congruence|by rewrite S2, Hk].
  - apply Hfirst. destruct Hk as [-> _]. done.
  - apply Hfirst. destruct Hk as [[? ?] _]. unfold RoundStep4FirstFinishing in *. lia.
Qed.

(** A next vote for a certifiable value in the second finishing state. *)
Lemma nextVote_wp g c v Q :
  good g c → RoundStep4FirstFinishing ≤ cx_Step c →
  certifiable g c (cx_Round c) v ∨ carried g c (cx_Round c) v →
  (∀ c', steady g c c' → Q tt c') → wp (sendVoteOf VoteTypeNext v) Q c.
Proof.
  intros G H4 Hv HQ. apply (sendVoteOf_wp g); [apply G|by eapply good_running| | |].
  - symmetry. by apply VoteTypeOfStep_next.
  - right. by right.
  - intros c1 H1. by apply HQ, quiet_steady.
Qed.

(** The step of a state, seen through [kind_ok]. *)
Lemma OnSoftVoteEnough_wp g c v r Q :
  good g c → quorum g c r RoundStep2Filtering v →
  (∀ c', good g c' → ext g c c' → cx_Round c' = cx_Round c → Q tt c') →
  wp (OnSoftVoteEnough env v r) Q c.
Proof.
  intros G Hq HQ. pose proof (gd_core _ _ G) as Hc. destruct (gd_state _ _ G) as (s & Hs & Hk).
  unfold OnSoftVoteEnough, theState. wps. apply wp_unwrap; [congruence|]. intros s' Es.
  rewrite Hs in Es. injection Es as <-. wps.
  assert (Q tt c) as HQ0 by (apply HQ; [done|apply ext_refl|done]).
  destruct (st_kind s) as [| | |w| |w] eqn:Ek; cbn in Hk; try (by wps).
  all: destruct (_ && _) eqn:Em; [|by wps].
  all: apply andb_true_iff in Em as [[_ Er%Z.eqb_eq]%andb_true_iff _]; subst r.
  - apply (tryCertValue_wp g); [done|apply Hk| |done|].
    + exists w. rewrite Hs. cbn. congruence.
    + intros c' G' X' R' _. by apply HQ.
  - destruct (getProposalBlock c v) as [d|] eqn:Ed.
    + destruct (co_received _ _ Hc _ _ Ed) as [Eh _].
      apply wp_bind. apply (verifyBlockSync_wp _ g); [done|]. intros [e|] c1 H1 Hok.
      all: pose proof (verifies_steady _ _ _ H1) as St1.
      { wps. apply HQ; [by eapply good_steady|apply St1|apply St1]. }
      apply (nextVote_wp g); [by eapply good_steady|by rewrite (sd_step _ _ _ St1); apply Hk| |].
      * left. rewrite (sd_round _ _ _ St1), <- Eh. split; [|by apply Hok]. rewrite Eh. by apply St1.
      * intros c2 St2. pose proof (steady_trans _ _ _ _ St1 St2) as St.
        apply HQ; [by eapply good_steady|apply St|apply St].
    + unfold modifyState. wps. apply HQ; [|apply ext_state|done]. split; [by apply core_state| |apply G].
      exists (s <| st_kind := StateSecondFinishing v |>). split; [upd; by rewrite Hs|].
      split; [apply Hk|by right].
Qed.

Lemma sub32_add32 r : is_u32 r → sub32 (add32 r 1) 1 = r.
Proof.
  intros Hr. unfold sub32, add32, u32. rewrite Zminus_mod_idemp_l.
  replace (r + 1 - 1) with r by lia. apply Z.mod_small, Hr.
Qed.

Lemma OnNextVoteEnough_wp g c v r s Q :
  good g c → is_u32 r → RoundStep4FirstFinishing ≤ s → quorum g c r s v →
  (∀ e c', good g c' → ext g c c' →
     cx_Round c' = cx_Round c ∨ (cx_Round c ≤ r ∧ cx_Round c' = add32 r 1) → Q e c') →
  wp (OnNextVoteEnough env v r) Q c.
Proof.
  intros G Hr Hs4 Hq HQ. pose proof (gd_core _ _ G) as Hc. destruct (gd_state _ _ G) as (s' & Hs & Hk).
  unfold OnNextVoteEnough, theState. wps. apply wp_unwrap; [congruence|]. intros s0 Es.
  rewrite Hs in Es. injection Es as <-. apply wp_bind. unfold StateBase_OnNextVoteEnough. wps.
  destruct (Z.leb_spec (cx_Round c) r) as [Hle|Hlt].
  - apply wp_bind. apply (gotoProposal_wp g); [done|by eapply good_running|apply u32_range| |].
    { right. exists s. rewrite sub32_add32 by done. done. }
    intros c1 G1 X1 R1. wps. destruct (st_kind s'); wps; apply HQ; auto.
  - wps. assert (∀ e c', steady g c c' → Q e c') as HQ'.
    { intros e c' St. apply HQ; [by eapply good_steady|apply St|left; apply St]. }
    destruct (st_kind s') as [| | |w| |w] eqn:Ek; cbn in Hk; try (wps; by apply HQ', steady_refl).
    cbn [IsChanged]. wps. destruct (_ && _) eqn:Em.
    2: { wps. wps. by apply HQ', steady_refl. }
    apply andb_true_iff in Em as [[_ Er%Z.eqb_eq]%andb_true_iff Ev%Z.eqb_eq].
    apply wp_bind, wp_bind. apply (soft_block_wp _ g); [done|]. intros ok v' c1 H1 _. pose proof (verifies_steady _ _ _ H1) as St1.
    destruct ok; wps; [wps; by apply HQ'|].
    apply (nextVote_wp g); [by eapply good_steady|by rewrite (sd_step _ _ _ St1); apply Hk| |].
    + right. rewrite (sd_round _ _ _ St1). right. exists s. split; [done|].
      rewrite (co_empty _ _ (sd_core _ _ _ St1)), <- (co_empty _ _ Hc), <- Ev, Er. by apply St1.
    + intros c2 St2. wps. apply HQ'. by eapply steady_trans.
Qed.

Lemma OnProposalDataComplete_wp g c d Q :
  good g c → Block_Hash (pb_Block d) ≠ g_empty g → Block_Hash (pb_Block d) ≠ 0 →
  (∀ e c', steady g c c' → Q e c') → wp (OnProposalDataComplete env d) Q c.
Proof.
  intros G Hn Hz HQ. destruct (gd_state _ _ G) as (s & Hs & Hk).
  unfold OnProposalDataComplete, theState. wps. apply wp_unwrap; [congruence|]. intros s' Es.
  rewrite Hs in Es. injection Es as <-.
  apply wp_bind. apply (StateBase_OnProposalDataComplete_wp _ g); [apply G|done|]. intros ev c1 St1.
  pose proof (good_steady _ _ _ G St1) as G1.
  assert (∀ ty v, ty = VoteTypeOfStep (cx_Step c1) → v = Block_Hash (pb_Block d) →
    (∀ c2, steady g c1 c2 → certifiable g c2 (cx_Round c2) v → may_vote g c2 v) →
    quorum g c1 (cx_Round c1) RoundStep2Filtering v →
    wp (err ← verifyBlockSync env (pb_Block d);
        match err with Some _ => mret Unchanged | None => sendVoteOf ty v ;; mret Unchanged end) Q c1) as Hvote.
  { intros ty v Ety -> Hmay Hq. apply wp_bind. apply (verifyBlockSync_wp _ g); [apply G1|].
    intros [e|] c2 H2 Hok; pose proof (verifies_steady _ _ _ H2) as St2.
    { wps. apply HQ. by eapply steady_trans. }
    apply wp_bind. apply (sendVoteOf_wp g); [apply H2|by eapply good_running, good_steady| | |].
    - by rewrite (sd_step _ _ _ St2).
    - apply Hmay; [done|]. rewrite (sd_round _ _ _ St2). split; [by apply St2|by apply Hok].
    - intros c3 H3%quiet_steady. wps. apply HQ. eapply steady_trans; [done|by eapply steady_trans]. }
  assert (cx_Round c1 = cx_Round c ∧ cx_Step c1 = cx_Step c) as [R1 S1] by (split; apply St1).
  destruct (st_kind s) as [| | |w| |w] eqn:Ek; cbn in Hk; try (wps; by apply HQ).
  all: destruct (IsChanged ev); [wps; by apply HQ|].
  - destruct (negb (w =? 0) && _) eqn:Ew; [|wps; by apply HQ].
    apply andb_true_iff in Ew as [Hw0%negb_true_iff%Z.eqb_neq Ew%Z.eqb_eq]. destruct Hk as [Hst [?|Hq]]; [done|].
    apply Hvote; [by rewrite S1, Hst|done| |rewrite R1; by apply St1].
    intros c2 St2 Hcert. right. left. by rewrite (sd_step _ _ _ St2), S1.
  - destruct (Z.eqb_spec (Block_Hash (pb_Block d)) w) as [Ew|]; [|wps; by apply HQ].
    destruct Hk as [[Hst _] [?|Hq]]; [congruence|].
    apply Hvote; [rewrite S1; symmetry; by apply VoteTypeOfStep_next|done| |rewrite R1, Ew; by apply St1].
    intros c2 St2 Hcert. right. right. rewrite (sd_step _ _ _ St2), S1. auto.
Qed.

(** ** Handlers *)

Lemma checkCredential_wp g c data sig cr Q :
  core g c → cr_Height cr = g_height g →
  (∀ e, Q (inr e) c) →
  (∀ w, speaks (g_config g) (g_st g) (g_seed g) (g_total g) (cr_Address cr) (g_height g) (cr_Round cr)
          (cr_Step cr) (cr_Proof cr) data sig w → Q (inl (cr <| cr_Weight := w |>)) c) →
  wp (checkCredential data sig cr) Q c.
Proof.
  intros Hc Hh He Hw. unfold checkCredential. wps. apply wp_bind.
  apply wp_unwrap; [by rewrite (co_st _ _ Hc)|]. intros st Est.
  rewrite (co_st _ _ Hc) in Est. injection Est as <-.
  apply wp_bind. apply wp_unwrap; [done|]. intros [[e|] cr'] Ev; wps; [apply He|].
  rewrite (co_config _ _ Hc), (co_parent _ _ Hc) in Ev.
  apply VerifySignatureAndCredential_ok in Ev as (w & -> & Hsp). rewrite Hh in Hsp. by apply Hw.
Qed.

Lemma handleProposalLeader_wp g c d Q :
  good g c → ProposalLeaderData_Valid d (g_height g) = true → ranked (pl_Credential d) →
  (∀ e c', steady g c c' → Q e c') → wp (handleProposalLeader d) Q c.
Proof.
  intros G Hval Hd HQ. pose proof (gd_core _ _ G) as Hc.
  unfold ProposalLeaderData_Valid, Proposal_Valid in Hval.
  apply andb_true_iff in Hval as [[Hh%Z.eqb_eq _]%andb_true_iff Hst%Z.eqb_eq].
  unfold handleProposalLeader. wps.
  assert (∀ b : bool, wp (if b then mret (Some LeaderIsBigger) else
    (r ← checkCredential (ProposalLeaderData_SignBytes d) (pl_ESignValue d) (pl_Credential d);
     match r with
     | inr err => mret (Some (MinerErr err))
     | inl credential =>
         broadcastMsg HasProposalLeaderMsg (DHasProposal (ProposalLeaderData_ToHasProposalData
           (d <| pl_Credential := credential |>))) ;;
         OnProposalLeaderReceived (d <| pl_Credential := credential |>) ;;
         mret None
     end)) Q c) as Hb.
  { intros []; [wps; by apply HQ, steady_refl|].
    apply wp_bind. apply (checkCredential_wp g); [done|done| |].
    - intros e. wps. by apply HQ, steady_refl.
    - intros w Hsp. apply wp_bind. apply (broadcastMsg_wp g); [done|done|]. intros c1 H1.
      apply wp_bind. apply (OnProposalLeaderReceived_wp g); [apply H1| |].
      + intros _. destruct Hsp as [_ _ _ (h & _ & _ & Hv & _) _]. exists h. by eapply vrf_output.
      + intros c2 H2. wps. apply HQ. eapply steady_trans; [by apply quiet_steady|done]. }
  apply wp_bind. destruct (getProposalLeader c _) as [l|] eqn:El; [|wps; apply (Hb false)].
  apply wp_unwrap; [|intros b _; apply Hb]. intros E.
  destruct (co_leaders _ _ Hc) as (m & Hm & Hl). unfold getProposalLeader in El. rewrite Hm in El.
  destruct (_ =? BadRound); [done|].
  destruct (ranked_LessThan l d (Hl _ _ El) Hd) as [b Eb]. congruence.
Qed.

(** Caching the state of an own block. *)
Lemma steady_cache g c h st rc cnt :
  core g c → steady g c (c <| cx_verifiedBlockState ::= <[h := mkBlockState None st rc cnt]> |>).
Proof.
  intros [? ? ? ? ? ? ? ? ? Hd ? ? ? ?]. split; [|split|done..]; [|done| |].
  - split; try done. upd. intros h' Hh'%Hd. destruct (decide (h = h')) as [<-|].
    + rewrite lookup_insert_eq. eauto.
    + by rewrite lookup_insert_ne.
  - intros h' (r & Hr & He). unfold verified_ok. upd. destruct (decide (h = h')) as [<-|].
    + rewrite lookup_insert_eq. eauto.
    + rewrite lookup_insert_ne by done. eauto.
  - exists []. by rewrite app_nil_r.
Qed.

Lemma steady_save g c d :
  core g c → g_proposal g d →
  steady g c (c <| cx_ReceivedProposalBlock ::= <[Block_Hash (pb_Block d) := d]> |>).
Proof.
  intros [? ? ? ? ? ? ? ? Hr ? ? ? ? ?] Hd. split; [|split|done..]; [|done|done|].
  - split; try done. upd. intros h d'. rewrite lookup_insert. case_decide; [|apply Hr].
    intros [= <-]. done.
  - exists []. by rewrite app_nil_r.
Qed.

Lemma handleProposalBlock_wp g c d from Q :
  good g c → ProposalBlockData_Valid d (g_height g) = true →
  Block_Hash (pb_Block d) ≠ g_empty g → Block_Hash (pb_Block d) ≠ 0 →
  (∀ e c', steady g c c' → Q e c') → wp (handleProposalBlock env d from) Q c.
Proof.
  intros G Hval Hn Hz HQ. pose proof (gd_core _ _ G) as Hc.
  unfold ProposalBlockData_Valid, Proposal_Valid in Hval.
  apply andb_true_iff in Hval as [[Hh%Z.eqb_eq _]%andb_true_iff Hst%Z.eqb_eq].
  unfold handleProposalBlock. wps.
  destruct (getProposalBlock c _); [wps; by apply HQ, steady_refl|].
  apply wp_bind. apply (checkCredential_wp g); [done|done| |].
  { intros e. wps. by apply HQ, steady_refl. }
  intros w Hsp. apply wp_bind. apply wp_unwrap; [by rewrite (co_st _ _ Hc)|]. intros st Est.
  rewrite (co_st _ _ Hc) in Est. injection Est as <-.
  set (d' := d <| pb_Credential := _ |>). upd.
  rewrite (co_config _ _ Hc), (co_parent _ _ Hc), Hh.
  destruct (VerifySeed _ _ _ _ _ _) as [e|] eqn:Eseed; [wps; by apply HQ, steady_refl|].
  destruct (Z.eqb_spec (Block_Coinbase (pb_Block d'))
    (mv_coinbase (GetMinerVerifier (g_config g) (g_st g) (cr_Address (pb_Credential d)) (g_height g))))
    as [Ecb|]; cbn [negb]; [|wps; by apply HQ, steady_refl].
  assert (g_proposal g d') as Hp.
  { split; [done| |done|done]. unfold d', g_speaks. upd. by rewrite <- Hst. }
  apply wp_bind. apply (broadcastMsg_wp g); [done|done|]. intros c1 H1%quiet_steady.
  apply wp_bind. apply (OnProposalLeaderReceived_wp g); [apply H1| |].
  { eapply (g_speaks_ranked g), Hp. }
  intros c2 H2. pose proof (steady_trans _ _ _ _ H1 H2) as H12.
  apply wp_bind. apply wp_unwrap; [done|]. intros [e|] _; [wps; by apply HQ|].
  apply wp_bind. set (hash := Block_Hash (pb_Block d)).
  assert (∀ c3, steady g c c3 → wp (SaveProposalBlock d' ;; (c ← get;
     (if (cx_StartingValue c =? hash) || IsPotentialValue (cx_counter c) (cr_Round (pb_Credential d)) hash
      then verifyBlockAsync (pb_Block d') ;; mret tt else mret tt) ;;
     OnProposalDataComplete env d' ;; mret None)) Q c3) as Hrest.
  { intros c3 H3. unfold SaveProposalBlock. wps.
    pose proof (steady_trans _ _ _ _ H3 (steady_save g c3 d' (sd_core _ _ _ H3) Hp)) as H4.
    set (c4 := c3 <| cx_ReceivedProposalBlock ::= _ |>) in *. clearbody c4. wps.
    assert (∀ c5, steady g c c5 → wp (OnProposalDataComplete env d' ;; mret None) Q c5) as Hlast.
    { intros c5 H5. apply wp_bind. apply (OnProposalDataComplete_wp g); [by eapply good_steady|done|done|].
      intros ev c6 H6. wps. apply HQ. by eapply steady_trans. }
    apply wp_bind. destruct (_ || _).
    - apply wp_bind. apply (verifyBlockAsync_wp g); [apply H4|]. intros r c5 H5. wps.
      apply Hlast. eapply steady_trans; [done|by apply verifies_steady].
    - wps. by apply Hlast. }
  destruct (String.eqb from fromMe); wps; [|by apply Hrest].
  apply Hrest. eapply steady_trans; [exact H12|]. apply steady_cache, H12.
Qed.

(** ** Votes *)

(** A counter with at least the quorums of the old one. *)
Lemma good_counter g c cnt :
  good g c → counted (g_threshold g) 5000 (g_vote g) cnt →
  (∀ r s v, quorum g c r s v → hquorum (g_threshold g) cnt r s v) →
  good g (c <| cx_counter := cnt |>) ∧ ext g c (c <| cx_counter := cnt |>).
Proof.
  intros [[? ? ? ? ? ? ? ? ? ? Hw ? ? Hs] (s & Es & Hk) Ha] Hcnt Hq.
  assert (ext g c (c <| cx_counter := cnt |>)) as Hx.
  { split; [done|done|]. exists []. by rewrite app_nil_r. }
  split; [|done]. split; [| |done].
  - split; try done.
    + destruct Hw as [?|Hw]; [by left|right]. by apply Hx.
    + by eapply carried_ext.
  - exists s. split; [done|]. destruct (st_kind s) as [| | |v| |v]; try done; cbn in *.
    + destruct Hk as [? [?|Hv]]; split; [done|by left|done|right]. by apply Hx.
    + destruct Hk as [? [?|Hv]]; split; [done|by left|done|right]. by apply Hx.
Qed.

(** The rounds a vote may lead to. *)
Definition round_after (c c' : Ctx) (r : Z) : Prop :=
  cx_Round c' = cx_Round c ∨ (cx_Round c ≤ r ∧ cx_Round c' = add32 r 1).

(** What [handleVote] does once the vote is counted. *)
Lemma voteReaction_wp g c vt res Q :
  good g c → is_u32 (vt_Round vt) →
  (enough res = true → quorum g c (vt_Round vt) (vt_Step vt) (vt_Value vt)) →
  (∀ c', good g c' → ext g c c' → round_after c c' (vt_Round vt) → Q tt c') →
  wp (if added res && enough res then
        let t := VoteTypeOfStep (vt_Step vt) in
        if t =? VoteTypeSoft then OnSoftVoteEnough env (vt_Value vt) (vt_Round vt)
        else if t =? VoteTypeCert then OnCertVoteEnough env (vt_Value vt) (vt_Round vt) ;; mret tt
        else if t =? VoteTypeNext then OnNextVoteEnough env (vt_Value vt) (vt_Round vt) ;; mret tt
        else mret tt
      else mret tt) Q c.
Proof.
  intros G Hr Hq HQ. assert (Q tt c) as HQ0 by (apply HQ; [done|apply ext_refl|by left]).
  destruct (added res && enough res) eqn:Eae; [|by wps].
  apply andb_true_iff in Eae as [_ Een]. specialize (Hq Een). cbn zeta.
  destruct (Z.eqb_spec (VoteTypeOfStep (vt_Step vt)) VoteTypeSoft) as [Et|_].
  { apply VoteTypeOfStep_soft in Et. rewrite Et in Hq.
    apply (OnSoftVoteEnough_wp g); [done|done|]. intros c1 G1 X1 R1. apply HQ; [done|done|by left]. }
  destruct (Z.eqb_spec (VoteTypeOfStep (vt_Step vt)) VoteTypeCert) as [Et|_].
  { apply VoteTypeOfStep_cert in Et. rewrite Et in Hq. apply wp_bind.
    apply (OnCertVoteEnough_wp _ g); [apply G|done|]. intros e c1 H1. wps.
    apply HQ; [by eapply good_steady|apply H1|left; apply H1]. }
  destruct (Z.eqb_spec (VoteTypeOfStep (vt_Step vt)) VoteTypeNext) as [Et|_]; [|by wps].
  apply VoteTypeOfStep_next in Et. apply wp_bind.
  apply (OnNextVoteEnough_wp g _ _ _ _ _ G Hr Et Hq). intros e c1 G1 X1 R1. wps. by apply HQ.
Qed.

(** A vote whose credential was checked may be counted. *)
Lemma checked_vote_ok g vt w :
  is_u32 (vt_Round vt) → vt_Height vt = g_height g →
  speaks (g_config g) (g_st g) (g_seed g) (g_total g) (vt_Address vt) (g_height g) (vt_Round vt)
    (vt_Step vt) (cr_Proof (vt_Credential vt)) (VoteData_SignBytes vt) (vt_ESignValue vt) w →
  let vt' := vt <| vt_Credential := (vt_Credential vt) <| cr_Weight := w |> |> in
  vote_ok (g_threshold g) 5000 (g_vote g (vt_Round vt')) vt'.
Proof.
  intros Hr Hh Hsp vt'. pose proof (GetCommitteeNumber_threshold_pos (g_height g) (vt_Step vt)).
  pose proof (speaks_le _ _ _ _ _ _ _ _ _ _ _ _ Hsp). pose proof (sp_weight _ _ _ _ _ _ _ _ _ _ _ _ Hsp).
  unfold g_threshold. split; unfold vt'; upd; upd; [lia|lia|lia|]. by split.
Qed.

Lemma handleVote_wp g c vt Q :
  good g c → VoteData_Valid vt (g_height g) (g_empty g) = true → is_u32 (vt_Round vt) →
  (∀ e c', good g c' → ext g c c' → round_after c c' (vt_Round vt) → Q e c') →
  wp (handleVote env vt) Q c.
Proof.
  intros G Hval Hr HQ. pose proof (gd_core _ _ G) as Hc. unfold VoteData_Valid in Hval.
  destruct (Z.eqb_spec (vt_Height vt) (g_height g)) as [Hh|]; [|done].
  assert (∀ e, Q e c) as HQ0 by (intros e; apply HQ; [done|apply ext_refl|by left]).
  unfold handleVote. wps. destruct (HeightVoteSet_HasVote _ _ _ _); [by wps|].
  apply wp_bind. apply (checkCredential_wp g); [done|done|intros e; by wps|].
  intros w Hsp. pose proof (checked_vote_ok g vt w Hr Hh Hsp) as Hok. cbn zeta in Hok.
  set (vt' := vt <| vt_Credential := _ |>) in *.
  apply wp_bind. apply (broadcastMsg_wp g); [done|done|]. intros c1 H1%quiet_steady. wps.
  pose proof (good_steady _ _ _ G H1) as G1. pose proof (co_counter _ _ (gd_core _ _ G1)) as Hcnt.
  pose proof (counted_hvs_inv _ _ _ _ Hcnt) as Hinv.
  assert ((GetCommitteeNumber (vt_Height vt') (vt_Step vt')).1 = g_threshold g (vt_Step vt')) as ->.
  { unfold g_threshold. by rewrite <- Hh. }
  pose proof (hquorum_enough _ _ _ _ _ Hinv Hok) as Henough. cbn zeta in Henough.
  pose proof (counted_add _ _ _ _ _ Hcnt Hok) as Hadd.
  pose proof (λ r s v, hquorum_add _ _ _ _ _ r s v Hinv Hok) as Hmono.
  destruct (HeightVoteSet_AddVoteAndCount (cx_counter c1) vt' _) as [cnt res]. cbn [fst snd] in *. wps.
  destruct (good_counter g c1 cnt G1 Hadd Hmono) as [G2 X2].
  set (c2 := c1 <| cx_counter := cnt |>) in *. assert (cx_counter c2 = cnt) as Ecnt by done.
  assert (cx_Round c2 = cx_Round c) as R2 by apply H1. clearbody c2.
  pose proof (ext_trans _ _ _ _ (sd_ext _ _ _ H1) X2) as X02.
  destruct (vr_err res) as [e|] eqn:Ee; [wps; apply HQ; [done|done|by left]|].
  assert (∀ c3, steady g c2 c3 → ∀ c4, good g c4 → ext g c3 c4 → round_after c3 c4 (vt_Round vt') →
    Q None c4) as HQ3.
  { intros c3 H3 c4 G4 X4 R4. apply HQ; [done| |].
    - eapply ext_trans; [done|]. eapply ext_trans; [apply H3|done].
    - unfold round_after in R4. rewrite (sd_round _ _ _ H3), R2 in R4. exact R4. }
  assert (∀ c3, steady g c2 c3 → enough res = true →
    quorum g c3 (vt_Round vt') (vt_Step vt') (vt_Value vt')) as Hq.
  { intros c3 H3 Hen. apply (ex_quorum _ _ _ (sd_ext _ _ _ H3)). unfold quorum. rewrite Ecnt.
    by apply Henough. }
  apply wp_bind. destruct (newPotential res).
  - apply (OnPotentialVoteEnough_wp g); [apply G2|]. intros c3 H3. apply wp_bind.
    apply (voteReaction_wp g); [by eapply good_steady|done|by apply Hq|].
    intros c4 G4 X4 R4. wps. by eapply HQ3.
  - pose proof (steady_refl g c2 (gd_core _ _ G2)) as H2. wps. apply wp_bind.
    apply (voteReaction_wp g); [done|done|by apply Hq|]. intros c4 G4 X4 R4. wps. by eapply HQ3.
Qed.

(** ** Messages and timeouts *)

(** The block of a message is neither the zero hash nor the empty value of the
    height: the hash function has no such collision. *)
Definition msg_ok (g : Base) (d : payload) : Prop :=
  match d with
  | DBlock d => Block_Hash (pb_Block d) ≠ g_empty g ∧ Block_Hash (pb_Block d) ≠ 0
  | _ => True
  end.

(** The round stays or becomes the one after a later or equal round. *)
Definition advances (c c' : Ctx) : Prop := ∃ r, round_after c c' r ∧ is_u32 r.

Lemma advances_steady g c c' : steady g c c' → advances c c'.
Proof. intros H. exists 0. split; [left; apply H|done]. Qed.

Lemma handleMsg_wp g c m Q :
  good g c → queued m → msg_ok g (msg_data m) →
  (∀ c', good g c' → ext g c c' → advances c c' → Q tt c') → wp (handleMsg env m) Q c.
Proof.
  intros G Hm Hok HQ. pose proof (gd_core _ _ G) as Hc. destruct (good_running _ _ G) as [s Hs].
  assert (∀ c', steady g c c' → Q tt c') as HQ'.
  { intros c' H. apply HQ; [by eapply good_steady|apply H|by eapply advances_steady]. }
  pose proof (HQ' c (steady_refl g c Hc)) as HQ0.
  unfold handleMsg, queued, msg_ok in *. wps. rewrite Hs, (co_height _ _ Hc), (co_empty _ _ Hc).
  destruct (msg_code m), (msg_data m) as [d|d|d|d|d|d]; try (by wps).
  - destruct (ProposalLeaderData_Valid d (g_height g)) eqn:Ev; cbn [negb]; [|by wps].
    apply wp_bind. apply (handleProposalLeader_wp g); [done..|]. intros e c1 H1. wps. by apply HQ'.
  - destruct (ProposalBlockData_Valid d (g_height g)) eqn:Ev; cbn [negb]; [|by wps]. destruct Hok.
    apply wp_bind. apply (handleProposalBlock_wp g); [done..|]. intros e c1 H1. wps. by apply HQ'.
  - destruct (VoteData_Valid d (g_height g) (g_empty g)) eqn:Ev; cbn [negb]; [|by wps].
    apply wp_bind. apply (handleVote_wp g); [done..|]. intros e c1 G1 X1 R1. wps.
    apply HQ; [done|done|by eexists].
Qed.

Lemma handleTimeout_wp g c ti Q :
  good g c → cx_Step c < 2 ^ 32 - 2 →
  (∀ c', good g c' → ext g c c' → advances c c' → Q tt c') → wp (handleTimeout env ti) Q c.
Proof.
  intros G Hb HQ. destruct (good_running _ _ G) as [s Hs]. unfold handleTimeout. wps. rewrite Hs.
  destruct (_ || _).
  { wps. apply HQ; [done|apply ext_refl|exists 0; split; [by left|done]]. }
  apply (OnTimeout_wp g); [done|done|]. intros c1 G1 X1 R1 _. apply HQ; [done|done|].
  exists 0. split; [by left|done].
Qed.

(** ** Starting a height *)

(** The base of the height after [b]. *)
Definition base_after (config : AlgorandConfig) (st : StateDB) (b : Block) : Base :=
  mkBase config st b (u64 (Block_Number b + 1)) (AlgorandEmptyValue (emptyHeaderOf b)).

Definition obeys (g : Base) (c c' : Ctx) : Prop :=
  ∃ xs, cx_trace c' = cx_trace c ++ xs ∧ Forall (effect_rule g c') xs.

(** The height state [OnEnter] of [StateNewHeight] sets up. *)
Record fresh_height (g : Base) (c : Ctx) : Prop := {
  fh_config : cx_config c = g_config g;
  fh_st : cx_parentStatedb c = Some (g_st g);
  fh_parent : cx_parent c = g_parent g;
  fh_height : cx_Height c = g_height g;
  fh_empty : cx_EmptyValue c = g_empty g;
  fh_counter : cx_counter c = NewHeightVoteSet;
  fh_leaders : cx_ProposalLeader c = Some ∅;
  fh_received : cx_ReceivedProposalBlock c = ∅;
  fh_verifing : cx_verifingBlockState c = ∅;
  fh_waiting : cx_WaitingBlockForValue c = g_empty g;
  fh_queue : Forall queued (cx_msgChan c)
}.

Lemma fresh_core g c s :
  g_empty g ≠ 0 → fresh_height g c → core g (at_round 1 (g_empty g) (c <| cx_state := s |>)).
Proof.
  intros Hz [H1 H2 H3 H4 H5 H6 H7 H8 H9 H10 H11]. unfold at_round. split; upd; try done.
  - rewrite H6. apply counted_new.
  - exists ∅. split; [done|]. intros r l Hl. by rewrite lookup_empty in Hl.
  - intros h d. by rewrite H8, lookup_empty.
  - intros h. by rewrite H9, lookup_empty.
  - by left.
  - by left.
Qed.

Lemma enterNewHeight_wp c b Q :
  (∃ s, cx_state c = Some s ∧ st_kind s = StateNewHeight b) →
  Forall queued (cx_msgChan c) → AlgorandEmptyValue (emptyHeaderOf b) ≠ 0 →
  (∀ st c', let g := base_after (cx_config c) st b in
     env_StateAt env (Block_Root b) = Some st → good g c' → obeys g c c' → cx_Round c' = 1 → Q tt c') →
  wp (enterNewHeight env b) Q c.
Proof.
  intros (s & Hs & Hk) Hq Hz HQ. unfold enterNewHeight. apply wp_bind. apply wp_unwrap; [done|]. intros st Est.
  wps. set (c1 := c <| cx_currentMiner := _ |> <| _ := _ |> <| _ := _ |>).
  set (same := λ c' : Ctx, cx_config c' = cx_config c ∧ cx_msgChan c' = cx_msgChan c ∧
    cx_trace c' = cx_trace c ∧ cx_state c' = cx_state c ∧ cx_parent c' = b ∧ cx_parentStatedb c' = Some st).
  assert (same c1) as S1 by done. clearbody c1.
  apply wp_bind. assert (wp resetParentRoundVoteSet (λ _ c', same c') c1) as Hw1.
  { unfold resetParentRoundVoteSet. wps. destruct (_ =? 0); [by wps|].
    apply wp_bind. apply wp_unwrap; [done|]. intros rvs _. by wps. }
  eapply wp_mono; [exact Hw1|]. intros [] c2 S2. cbn beta in S2 |- *.
  apply wp_bind. assert (wp (resetParentProposalBlockData env) (λ _ c', same c') c2) as Hw2.
  { unfold resetParentProposalBlockData. wps. destruct (_ =? 0); [by wps|].
    apply wp_bind. apply wp_unwrap; [done|]. intros w _. by wps. }
  eapply wp_mono; [exact Hw2|]. intros [] c3 (E1 & E2 & E3 & E4 & E5 & E6). cbn beta. wps.
  match goal with |- wp _ _ ?c' => set (c4 := c') end.
  assert (cx_state c4 = Some s) as F1 by (transitivity (cx_state c3); [done|congruence]).
  assert (cx_trace c4 = cx_trace c) as F2 by exact E3.
  assert (fresh_height (base_after (cx_config c) st b) c4) as F3.
  { split; [exact E1|exact E6|exact E5|done..|exact (eq_ind_r (Forall queued) Hq E2)]. }
  clearbody c4. unfold gotoProposal, gotoState. wps. wps. apply wp_bind.
  apply wp_unwrap; [congruence|]. intros s' Es'. assert (s' = s) as -> by congruence.
  unfold OnExit. rewrite Hk. wps. wps.
  apply (enterProposal_wp _ (base_after (cx_config c) st b)).
  - rewrite (fh_empty _ _ F3). by apply fresh_core.
  - eexists. by split.
  - intros c' G X R. apply (HQ st c'); [done|done| |done].
    destruct (ex_trace _ _ _ X) as (xs & Ex & Hxs). exists xs. split; [|done].
    rewrite Ex. upd. by rewrite F2.
Qed.

(** ** Events *)

(** A machine that waits for its next event: not started, or inside a height. *)
Definition alive (c : Ctx) : Prop :=
  Forall queued (cx_msgChan c) ∧ (cx_state c = None ∨ ∃ g, good g c).

(** The block of a message does not hash to zero or to the empty value. *)
Definition no_collision (c : Ctx) (d : payload) : Prop :=
  match d with
  | DBlock d => Block_Hash (pb_Block d) ≠ cx_EmptyValue c ∧ Block_Hash (pb_Block d) ≠ 0
  | _ => True
  end.

(** A decoded round fits [uint32]. *)
Definition narrow (d : payload) : Prop :=
  match d with DVote vt => is_u32 (vt_Round vt) | _ => True end.

(** A machine starts once and sees chain heads only when it runs; no hash collides
    with zero or the empty value; and fewer than [2^31] timeouts have passed in the
    round. *)
Definition ev_fits (c : Ctx) (ev : event) : Prop :=
  match ev with
  | EStart b => cx_state c = None ∧ AlgorandEmptyValue (emptyHeaderOf b) ≠ 0
  | EChainHead b => is_Some (cx_state c) ∧ AlgorandEmptyValue (emptyHeaderOf b) ≠ 0
  | EMsg _ => match cx_msgChan c with m :: _ => no_collision c (msg_data m) | [] => True end
  | ETimeout _ _ | EReplayTimeout _ => cx_Step c < 2 ^ 32 - 2
  | EReplayMsg d _ => no_collision c d ∧ narrow d
  | EReceive d _ => narrow d
  | ERun => cx_state c = None
  | _ => True
  end.

(** The events [receiveRoutine] handles. *)
Definition by_routine (ev : event) : bool :=
  match ev with
  | EStart _ | EChainHead _ | EMsg _ | ETimeout _ _ | EReplayMsg _ _ | EReplayTimeout _ | ERecovered
  | EReturn => true
  | _ => false
  end.

(** When an event may happen: it fits the context, and the routine that handles it
    has not returned. *)
Definition ev_ok (c : Ctx) (ev : event) : Prop :=
  (by_routine ev = true → cx_returned c = false) ∧ ev_fits c ev.

(** The event the machine waits in: a changed head that neither the snapshot loop
    nor a quit channel is ready for. *)
Definition ev_waits (env : Env) (c : Ctx) (ev : event) : Prop :=
  match ev with
  | EChainHead b => Block_Hash (cx_parent c) ≠ Block_Hash b ∧ env_select env = NoneReady
  | _ => False
  end.

(** The events that do not change the height. *)
Definition in_height (ev : event) : Prop :=
  match ev with EStart _ | EChainHead _ | EStop => False | _ => True end.

Lemma quiet_queue g c q :
  core g c → Forall queued q → quiet g c (c <| cx_msgChan := q |>).
Proof.
  intros Hc Hq. split; [done|by eapply core_frame|].
  eapply (ext_frame _ _ _ []); [done|by rewrite app_nil_r|constructor].
Qed.

Lemma receivedWeight_ranked c cr w :
  receivedWeight env c cr = Some w → ranked (cr <| cr_Weight := w |>).
Proof.
  unfold receivedWeight, GetSortitionWeight, getSortitionWeight.
  destruct (env_GetHeaderByNumber env _) as [h|]; [|done]. cbn [mbind option_bind].
  unfold ranked. upd. destruct (env_StateAt env _); [|by intros [= <-] []].
  destruct (VrfProofToHash256 (cr_Proof cr)); [eauto|by intros [= <-] []].
Qed.

Lemma peerMsg_wp g c d from Q :
  core g c → narrow d → (∀ c', quiet g c c' → Q tt c') → wp (peerMsg env d from) Q c.
Proof.
  intros Hc Hn HQ. unfold peerMsg, OnReceive. wps.
  destruct d as [d|d|d|d|d|d]; try (wps; by apply HQ, quiet_refl).
  - apply wp_bind. apply wp_unwrap; [done|]. intros w Ew. wps. apply HQ, quiet_enqueue; [done|].
    by apply (receivedWeight_ranked c).
  - apply wp_bind. apply wp_unwrap; [done|]. intros w Ew. wps. by apply HQ, quiet_enqueue.
  - wps. by apply HQ, quiet_enqueue.
Qed.

Lemma replayMsg_wp g c d from Q :
  good g c → no_collision c d → narrow d →
  (∀ c', good g c' → ext g c c' → advances c c' → Q tt c') → wp (replayMsg env d from) Q c.
Proof.
  intros G Hd Hn HQ. unfold no_collision in Hd. rewrite (co_empty _ _ (gd_core _ _ G)) in Hd.
  assert (Q tt c) as HQ0 by (apply HQ; [done|apply ext_refl|exists 0; split; [by left|done]]).
  unfold replayMsg. destruct d as [d|d|d|d|d|d]; try (by wps).
  - apply (handleMsg_wp g); [done| |done|done]. by intros [].
  - by apply (handleMsg_wp g).
  - by apply (handleMsg_wp g).
Qed.

Lemma receiveMsg_wp g c n Q :
  good g c → match cx_msgChan c with m :: _ => no_collision c (msg_data m) | [] => True end →
  (∀ c', good g c' → ext g c c' → advances c c' → Q tt c') → wp (receiveMsg env n) Q c.
Proof.
  intros G Hm HQ. unfold receiveMsg. wps.
  assert (∀ c', steady g c c' → Q tt c') as HQ'.
  { intros c' H. apply HQ; [by eapply good_steady|apply H|by eapply advances_steady]. }
  pose proof (gd_core _ _ G) as Hc. pose proof (co_queue _ _ Hc) as Hq.
  destruct (cx_msgChan c) as [|m rest] eqn:Eq; [wps; by apply HQ', steady_refl|].
  apply Forall_cons in Hq as [Hqm Hqr]. wps.
  assert (steady g c (c <| cx_msgChan := rest |>)) as H1 by by apply quiet_steady, quiet_queue.
  destruct (_ <? _); [|wps; by apply HQ'].
  apply (handleMsg_wp g); [by eapply good_steady|done| |].
  - unfold no_collision in Hm. by rewrite (co_empty _ _ Hc) in Hm.
  - intros c2 G2 X2 A2. apply HQ; [done|eapply ext_trans; [apply H1|done]|].
    destruct A2 as (r & Hr & Hw). exists r. split; [|done]. exact Hr.
Qed.

Lemma workerDone_wp g c key Q :
  core g c → (∀ c', steady g c c' → Q tt c') → wp (workerDone env key) Q c.
Proof.
  intros Hc HQ. unfold workerDone. wps.
  destruct (cx_verifingBlockState c !! key) as [[b|r|]|]; try (wps; by apply HQ, steady_refl).
  apply wp_bind. apply wp_unwrap; [done|]. intros r _. wps. by apply HQ, verifies_steady, verifies_chan.
Qed.

Lemma handleEvent_wp g c ev Q :
  good g c → ev_fits c ev → in_height ev →
  (∀ c', good g c' → ext g c c' → advances c c' → Q tt c') → wp (handleEvent env ev) Q c.
Proof.
  intros G Hok Hin HQ. pose proof (gd_core _ _ G) as Hc.
  assert (∀ c', steady g c c' → Q tt c') as HQ'.
  { intros c' H. apply HQ; [by eapply good_steady|apply H|by eapply advances_steady]. }
  assert (∀ c', frame c' = frame c → cx_msgChan c' = cx_msgChan c → cx_trace c' = cx_trace c → Q tt c') as HQ''.
  { intros c' E1 E2 E3. by apply HQ', quiet_steady, quiet_modify. }
  destruct ev; try done; cbn [handleEvent ev_fits] in *.
  - by apply (receiveMsg_wp g).
  - unfold receiveTimeout. wps. destruct (_ <? _); [by apply (handleTimeout_wp g)|].
    wps. by apply HQ', steady_refl.
  - destruct Hok. by apply (replayMsg_wp g).
  - by apply (handleTimeout_wp g).
  - wps. by apply HQ''.
  - apply (peerMsg_wp g); [done|done|]. intros c' H. by apply HQ', quiet_steady.
  - by apply (workerDone_wp g).
  - wps. apply wp_bind. apply wp_unwrap; [done|]. intros mkm _. wps. by apply HQ''.
  - wps. by apply HQ''.
  - unfold StartMining. wps. by apply HQ''.
  - unfold StopMining. wps. by apply HQ''.
  - unfold SetExtra. wps. by apply HQ''.
  - unfold SetMiner. wps. wps. destruct (negb _); wps; by apply HQ''.
  - unfold startRunning. wps. by apply HQ''.
  - wps. by apply HQ''.
Qed.

(** ** Events that begin or end a height *)

(** Leaving a state only ends its subscription. *)
Lemma OnExit_unsub s c (Q : unit → Ctx → Prop) :
  Q tt c → (∀ id, Q tt (c <| cx_trace ::= λ t, t ++ [XUnSub id] |>)) → wp (OnExit s) Q c.
Proof.
  intros H0 H1. unfold OnExit, clearTimer.
  destruct (st_kind s); wps; try done; destruct (st_kind <$> cx_state c) as [[]|]; wps; try done; apply H1.
Qed.

(** A height begins. *)
Definition begins (env : Env) (c c' : Ctx) (b : Block) : Prop :=
  ∃ st, let g := base_after (cx_config c) st b in
    env_StateAt env (Block_Root b) = Some st ∧ good g c' ∧ obeys g c c' ∧ cx_Round c' = 1.

Lemma startStateMachine_wp c b Q :
  cx_state c = None → Forall queued (cx_msgChan c) → AlgorandEmptyValue (emptyHeaderOf b) ≠ 0 →
  (∀ c', begins env c c' b → Q tt c') → wp (startStateMachine env b) Q c.
Proof.
  intros Hs Hq Hz HQ. unfold startStateMachine. wps. rewrite Hs. wps.
  apply enterNewHeight_wp; [by eexists|done|done|]. intros st c' g Hst G O R. apply HQ. by exists st.
Qed.

Lemma receiveChainHead_wp c b Q :
  is_Some (cx_state c) → Forall queued (cx_msgChan c) → AlgorandEmptyValue (emptyHeaderOf b) ≠ 0 →
  ¬ ev_waits env c (EChainHead b) → Q tt c → Q tt (c <| cx_returned := true |>) →
  (∀ c', begins env c c' b → Q tt c') → wp (receiveChainHead env b) Q c.
Proof.
  intros [s Hs] Hq Hz Hw HQ0 HQ1 HQ. unfold receiveChainHead. wps.
  destruct (_ =? _) eqn:Eh; [by wps|]. apply Z.eqb_neq in Eh.
  destruct (env_select env) eqn:Es; [|by wps|by wps|by destruct Hw].
  wps. unfold gotoState. wps. apply wp_bind. apply wp_unwrap; [upd; congruence|]. intros s' _. apply wp_bind.
  apply OnExit_unsub; [|intros id]; wps.
  - apply enterNewHeight_wp; [by eexists|done|done|]. intros st c' g Hst G (xs & Ex & Hxs) R.
    apply HQ. exists st. split_and!; [done|done| |done]. exists (XSnapHead b :: xs).
    split; [|by constructor]. rewrite Ex. upd. by rewrite <- app_assoc.
  - apply enterNewHeight_wp; [by eexists|done|done|]. intros st c' g Hst G (xs & Ex & Hxs) R.
    apply HQ. exists st. split_and!; [done|done| |done]. exists (XSnapHead b :: XUnSub id :: xs).
    split; [|by repeat constructor]. rewrite Ex. upd. by rewrite <- !app_assoc.
Qed.

Lemma waits_blocked c ev : ev_waits env c ev → handleEvent env ev c = Blocked.
Proof.
  destruct ev; try done. intros [Hh Hs]. cbn [handleEvent]. unfold receiveChainHead, mbind, M_bind, get.
  by rewrite (proj2 (Z.eqb_neq _ _) Hh), Hs.
Qed.

(** A machine that is not started ignores what it is told. *)
Record idle (c c' : Ctx) : Prop := {
  id_state : cx_state c' = None;
  id_queue : Forall queued (cx_msgChan c');
  id_trace : cx_trace c' = cx_trace c
}.

Lemma idle_wp c ev Q :
  cx_state c = None → Forall queued (cx_msgChan c) → ev_fits c ev → in_height ev →
  (∀ c', idle c c' → Q tt c') → wp (handleEvent env ev) Q c.
Proof.
  intros Hs Hq Hok Hin HQ. assert (Q tt c) as HQ0 by by apply HQ.
  assert (∀ d m, narrow d → queued m →
    Q tt (c <| cx_msgChan ::= sendToMessageChan m |>)) as Hsend.
  { intros d m _ Hm. apply HQ. split; [done| |done]. upd. unfold sendToMessageChan.
    destruct (_ <? _)%nat; [|done]. apply Forall_app. split; [done|by constructor]. }
  destruct ev; try done; cbn [handleEvent ev_fits] in *.
  - unfold receiveMsg. wps. destruct (cx_msgChan c) as [|m rest] eqn:Eq; [by wps|].
    apply Forall_cons in Hq as [_ Hq]. wps. assert (Q tt (c <| cx_msgChan := rest |>)) by by apply HQ.
    destruct (_ <? _); [|by wps]. unfold handleMsg. wps. upd. rewrite Hs. by wps.
  - unfold receiveTimeout. wps. destruct (_ <? _); [|by wps]. unfold handleTimeout. wps. rewrite Hs. by wps.
  - unfold replayMsg, handleMsg. destruct data; wps; rewrite ?Hs; by wps.
  - unfold handleTimeout. wps. rewrite Hs. by wps.
  - wps. by apply HQ.
  - unfold peerMsg, OnReceive. wps. destruct data as [d|d|d|d|d|d]; try (by wps).
    + apply wp_bind. apply wp_unwrap; [done|]. intros w Ew. wps. eapply Hsend; [done|].
      by apply (receivedWeight_ranked c).
    + apply wp_bind. apply wp_unwrap; [done|]. intros w Ew. wps. by eapply Hsend.
    + wps. by eapply Hsend.
  - unfold workerDone. wps. destruct (cx_verifingBlockState c !! key) as [[b|r|]|]; try (by wps).
    apply wp_bind. apply wp_unwrap; [done|]. intros r _. wps. by apply HQ.
  - wps. apply wp_bind. apply wp_unwrap; [done|]. intros mkm _. wps. by apply HQ.
  - wps. by apply HQ.
  - unfold StartMining. wps. by apply HQ.
  - unfold StopMining. wps. by apply HQ.
  - unfold SetExtra. wps. by apply HQ.
  - unfold SetMiner. wps. wps. destruct (negb _); wps; by apply HQ.
  - unfold startRunning. wps. by apply HQ.
  - wps. by apply HQ.
Qed.

(** What an event leaves behind: a machine that waits for the next event, whose
    new effects follow the rules of the height it is in. *)
Record event_post (c c' : Ctx) : Prop := {
  ep_alive : alive c';
  ep_effects : ∃ xs, cx_trace c' = cx_trace c ++ xs ∧
    ∀ x, x ∈ xs → ∃ g, good g c' ∧ effect_rule g c' x
}.

Lemma event_post_good g c c' : good g c' → obeys g c c' → event_post c c'.
Proof.
  intros G (xs & Ex & Hxs). split.
  - split; [apply (co_queue _ _ (gd_core _ _ G))|eauto].
  - exists xs. split; [done|]. intros x Hx. exists g. split; [done|].
    by apply (proj1 (Forall_forall _ _) Hxs).
Qed.

Lemma event_wp c ev :
  alive c → ev_ok c ev → ¬ ev_waits env c ev → wp (handleEvent env ev) (λ _ c', event_post c c') c.
Proof.
  intros [Hq Hs] [_ Hok] Hw.
  assert (∀ c', Forall queued (cx_msgChan c') → cx_state c' = None → cx_trace c' = cx_trace c →
    event_post c c') as Hidle.
  { intros c' Hq' Hs' Ht. split; [split; auto|]. exists []. rewrite app_nil_r. split; [done|].
    intros x Hx. by apply elem_of_nil in Hx. }
  assert (∀ b c', begins env c c' b → event_post c c') as Hbeg.
  { intros b c' (st & _ & G & O & _). by eapply event_post_good. }
  assert (∀ g c', good g c → steady g c c' → event_post c c') as Hsame.
  { intros g c' G St. eapply event_post_good; [by eapply good_steady|apply St]. }
  destruct ev as [b|b| | | | | | | | | | | | | | | |] eqn:Eev; cbn [ev_fits] in Hok.
  1: { destruct Hok. apply startStateMachine_wp; [done..|]. intros c'. apply Hbeg. }
  1: { destruct Hok as [[s Es] Hz]. destruct Hs as [Hn|[g G]]; [congruence|]. pose proof (gd_core _ _ G) as Hc.
       apply receiveChainHead_wp; [eauto|done..| | |intros c'; apply Hbeg]; apply (Hsame g); try done.
       - by apply steady_refl.
       - by apply quiet_steady, quiet_modify. }
  14: { cbn. unfold stopRunning. wps. by apply Hidle. }
  all: rewrite <- Eev in *; destruct Hs as [Hn|[g G]]; subst ev.
  all: first [ apply idle_wp; [done..|]; intros c' [? ? ?]; by apply Hidle
             | apply (handleEvent_wp g); [done..|]; intros c' G' X' _;
               eapply event_post_good; [done|]; apply X' ].
Qed.

Lemma event_done c c' ev :
  alive c → ev_ok c ev → handleEvent env ev c = Done tt c' → event_post c c'.
Proof.
  intros Ha Hok E. refine (wp_done _ _ _ _ _ (event_wp c ev Ha Hok _) E).
  intros Hw%waits_blocked. by rewrite Hw in E.
Qed.
End events.
