(* ===== verification/MachineRun.v ===== *)
(** * MachineRun: a node at work

    An executable world with one miner that holds half of the stake, and the run
    of the state machine that takes it from a chain head to the next block.  The
    theorems about the machine are instantiated with it. *)

From S2P Require Import Prelude Bytes Params Crypto ForwardSecure Types VoteSet VoteSetFacts.
From S2P Require Import MinerContract Sortition MinerKeys Engine Ticker StateMachine.
From S2P Require Import MachineLogic MachineInvariant MachineEvents.

Local Open Scope Z_scope.

Section run.
Context `{CR : Crypto} `{BO : Boost} `{W : World}.

#[global] Instance ev_ok_dec c ev : Decision (ev_ok c ev).
Proof.
  unfold ev_ok. apply and_dec; [apply _|].
  destruct ev as [| | | |d ?| | |d ?| | | | | | | | | |]; cbn; try apply _.
  - destruct (cx_msgChan c) as [|m ?]; [apply _|]. destruct (msg_data m); cbn; apply _.
  - destruct d; cbn; unfold is_u32; apply _.
  - destruct d; cbn; unfold is_u32; apply _.
Defined.

(** The states of a machine that started from scratch. *)
Inductive reachable : Ctx → Prop :=
| reach_new c : cx_state c = None → cx_msgChan c = [] → reachable c
| reach_event env ev c c' :
    reachable c → ev_ok c ev → handleEvent env ev c = Done tt c' → reachable c'.

(** A sequence of events, each with the world it meets. *)
Fixpoint runEvents (evs : list (Env * event)) (c : Ctx) : outcome unit :=
  match evs with
  | [] => Done tt c
  | (env, ev) :: evs =>
      match handleEvent env ev c with
      | Done _ c => runEvents evs c
      | Panic p => Panic p
      | Blocked => Blocked
      end
  end.

(** The same, and every event may happen when it does. *)
Fixpoint runChecked (evs : list (Env * event)) (c : Ctx) : option Ctx :=
  match evs with
  | [] => Some c
  | (env, ev) :: evs =>
      if bool_decide (ev_ok c ev) then
        match handleEvent env ev c with
        | Done _ c => runChecked evs c
        | _ => None
        end
      else None
  end.

(** The context [NewContext] returns; [parent] is not read before the machine
    starts. *)
Definition NewContext (config : AlgorandConfig) (gasFloor gasCeil : Z) (mkm : MinerKeyManager)
    (parent : Block) : Ctx :=
  mkCtx config gasFloor gasCeil [] false true mkm 0 0 None parent None None 0 None
    (emptyHeaderOf parent) 0 0 0 0 0 NewHeightVoteSet None ∅ ∅ ∅ 0 0 None None None None [] [] false [].

Lemma runChecked_reachable evs c c' : reachable c → runChecked evs c = Some c' → reachable c'.
Proof.
  revert c. induction evs as [|[env ev] evs IH]; intros c Hc; cbn [runChecked]; [by intros [= <-]|].
  case_bool_decide as Hok; [|done]. destruct (handleEvent env ev c) as [[] c1|p|] eqn:E; [|done|done].
  apply IH. by eapply reach_event.
Qed.

Lemma runChecked_run evs c c' : runChecked evs c = Some c' → runEvents evs c = Done tt c'.
Proof.
  revert c. induction evs as [|[env ev] evs IH]; intros c; cbn [runChecked runEvents]; [by intros [= <-]|].
  case_bool_decide; [|done]. destruct (handleEvent env ev c) as [[] c1|p|]; [apply IH|done|done].
Qed.

(** The states a checked run goes through, the first one included. *)
Fixpoint runStates (evs : list (Env * event)) (c : Ctx) : list Ctx :=
  c :: match evs with
       | [] => []
       | (env, ev) :: evs =>
           if bool_decide (ev_ok c ev) then
             match handleEvent env ev c with
             | Done _ c => runStates evs c
             | _ => []
             end
           else []
       end.

Lemma runStates_checked evs c n c' :
  runStates evs c !! n = Some c' → runChecked (take n evs) c = Some c'.
Proof.
  revert c n. induction evs as [|[env ev] evs IH]; intros c [|n]; [by intros [= <-]|done|by intros [= <-]|].
  cbn [runStates lookup list_lookup take runChecked]. case_bool_decide; [|done].
  destruct (handleEvent env ev c) as [[] c1| |]; [apply IH|done|done].
Qed.

Lemma runStates_step evs c n c1 c2 env ev :
  runStates evs c !! n = Some c1 → runStates evs c !! S n = Some c2 → evs !! n = Some (env, ev) →
  ev_ok c1 ev ∧ handleEvent env ev c1 = Done tt c2.
Proof.
  revert c n. induction evs as [|[env' ev'] evs IH]; intros c n; [done|].
  cbn [runStates]. case_bool_decide as Hok; cbn [lookup list_lookup].
  - destruct (handleEvent env' ev' c) as [[] c'| |] eqn:E; [|done|done].
    destruct n as [|n]; [|apply IH]. intros [= <-]. destruct evs as [|[]]; cbn [runStates lookup list_lookup];
      intros [= <-] [= <- <-]; done.
  - done.
Qed.

Lemma lookup_default {A} (l : list A) x n : (n < length l)%nat → l !! n = Some (default x (l !! n)).
Proof. by intros [y ->]%lookup_lt_is_Some. Qed.

(** The effects of the events between two states. *)
Definition newEffects (c c' : Ctx) : list effect := drop (length (cx_trace c)) (cx_trace c').
End run.

Module Node.
Import Toy Registry Uniform.

#[export] Instance map_state_eq_dec : EqDecision MapState.
Proof. solve_decision. Defined.

#[export] Instance writer : StateWriter MapState := {|
  AddBalance s a v := mkMapState (ms_storage s) (<[a := default 0 (ms_balance s !! a) + v]> (ms_balance s));
  IntermediateRoot s _ := (4, s);
  TotalBalanceOfMiners _ := 100
|}.
#[export] Instance body : BodyHash unit := {|
  no_receipts _ := true;
  DeriveSha_Transactions l := Z.of_nat (length l);
  DeriveSha_Receipts _ := 0;
  CreateBloom _ := 0
|}.
#[export] Instance world : World := {|
  StateDB := MapState; Receipts := unit; MortgageContractCounter := unit
|}.

(** The head of the chain: the sealed header of height 24 and its block. *)
Definition head : Block := mkBlock (Sealed.parent <| hd_Certificate := mkCertificate 24 1 7
  (mkProposalStorage zeroSignature 1 (mkCredentialStorage 100 0) 0)
  [mkCertVoteStorage zeroSignature (mkCredentialStorage 100 0)] [] |>) [] [].

#[export] Instance chain : ChainReader MapState := {|
  GetHeader h n := if h =? Block_Hash head then Some (bl_header head) else None;
  StateAtHeader _ := Some Sample.state;
  VerifyProof _ _ _ _ _ := None;
  ProofState _ _ := Sample.state
|}.

Definition env (now : Z) : Env := {|
  env_now := now;
  env_reader := chain;
  env_StateAt _ := Some Sample.state;
  env_GetHeaderByNumber n := if n <=? 24 then Some Sealed.parent else None;
  env_GetBlock h _ := if h =? Block_Hash head then Some head else None;
  env_EnableMinerTracker st _ _ := st;
  env_ValidateBody _ := None;
  env_Process _ st := inl (st, tt, 0, tt);
  env_ValidateState _ _ _ _ _ := None;
  env_BuildProof _ _ _ _ _ := Some [];
  env_InsertChain _ := None;
  env_WriteBlock _ _ _ := inl true;
  env_Pending := true;
  env_commitTransactions st h := (st, h, [], tt, tt);
  env_stillMining := true;
  env_BlockYear := 1000000;
  env_IsEIP158 _ := true;
  env_select := HeadTaken
|}.

Definition fresh : Ctx := NewContext Registry.config 63000000 100000000 Sample.manager head.

(** Start, read the own proposal, time out, read the own soft and cert votes. *)
Definition events : list (Env * event) := [
  (env 1005, ESetMiner 100); (env 1005, EStartMining); (env 1005, ERecovered);
  (env 1005, EStart head);
  (env 1006, EMsg 24); (env 1006, EMsg 24);
  (env 1008, ETimeout 24 (mkTimeoutInfo 0 25 1 1));
  (env 1009, EMsg 24); (env 1010, EMsg 24)].

(** Nobody reads the proposal in time: the round ends with a next vote for the
    empty value. *)
Definition slow_events : list (Env * event) := [
  (env 1005, ESetMiner 100); (env 1005, EStartMining); (env 1005, ERecovered);
  (env 1005, EStart head);
  (env 1008, ETimeout 24 (mkTimeoutInfo 0 25 1 1)); (env 1012, ETimeout 24 (mkTimeoutInfo 0 25 1 3));
  (env 1013, EMsg 24); (env 1014, EMsg 24); (env 1015, EMsg 24)].

Lemma fresh_reachable : reachable fresh.
Proof. by apply reach_new. Qed.

Definition states : list Ctx := runStates events fresh.
Definition slow_states : list Ctx := runStates slow_events fresh.
Definition after (n : nat) : Ctx := default fresh (states !! n).
Definition slow_after (n : nat) : Ctx := default fresh (slow_states !! n).

(** The eighth event makes the node send its cert vote, the ninth makes it write
    the block of height 25. *)
Definition committed (l : list Ctx) : bool :=
  match l !! 7%nat, l !! 8%nat, l !! 9%nat with
  | Some c7, Some c8, Some c9 =>
      match newEffects c7 c8 !! 1%nat, newEffects c8 c9 !! 1%nat with
      | Some (XSend (mkMessage VoteMsg (DVote vt) _)), Some (XWriteBlock b _) =>
          (vt_Step vt =? RoundStep3Certifying) && negb (vt_Value vt =? 0) &&
          (Block_NumberU64 b =? 25) && (Block_Hash b =? vt_Value vt) &&
          match ct_TrieProof (Block_Certificate b) with [] => true | _ => false end &&
          match cx_state c7 with Some _ => true | None => false end &&
          (cx_Height c9 =? 25) && bool_decide (cx_parentStatedb c9 = Some Sample.state)
      | _, _ => false
      end
  | _, _, _ => false
  end.

Lemma committed_spec l : committed l = true →
  (9 < length l)%nat ∧ ∃ vt from b st,
  newEffects (default fresh (l !! 7%nat)) (default fresh (l !! 8%nat)) !! 1%nat
    = Some (XSend (mkMessage VoteMsg (DVote vt) from)) ∧
  vt_Step vt = RoundStep3Certifying ∧ vt_Value vt ≠ 0 ∧
  newEffects (default fresh (l !! 8%nat)) (default fresh (l !! 9%nat)) !! 1%nat
    = Some (XWriteBlock b st) ∧
  Block_NumberU64 b = 25 ∧ Block_Hash b = vt_Value vt ∧ ct_TrieProof (Block_Certificate b) = [] ∧
  is_Some (cx_state (default fresh (l !! 7%nat))) ∧ cx_Height (default fresh (l !! 9%nat)) = 25 ∧
  cx_parentStatedb (default fresh (l !! 9%nat)) = Some Sample.state.
Proof.
  unfold committed.
  destruct (l !! 7%nat) as [c7|], (l !! 8%nat) as [c8|], (l !! 9%nat) as [c9|] eqn:E9; try discriminate.
  cbn [default]. unfold id.
  destruct (newEffects c7 c8 !! 1%nat) as [[[[] [] from]| | | | | | | | | | |]|]; try discriminate.
  destruct (newEffects c8 c9 !! 1%nat) as [[| | | | | | | |b st| | |]|]; try discriminate.
  rewrite !andb_true_iff, negb_true_iff, Z.eqb_neq, !Z.eqb_eq, bool_decide_eq_true.
  intros [[[[[[[? ?] ?] ?] ?] ?] ?] ?]. split; [by apply lookup_lt_Some in E9|].
  eexists _, _, _, _. split_and!; try done; [by destruct (ct_TrieProof _)|by destruct (cx_state c7)].
Qed.

Lemma states_committed : committed states = true.
Proof. vm_compute. reflexivity. Qed.

(** The last slow event takes the node to round 2. *)
Definition next_round (l : list Ctx) : bool :=
  match l !! 8%nat, l !! 9%nat with
  | Some c8, Some c9 =>
      (cx_Round c8 =? 1) && (cx_Round c9 =? 2) && match cx_state c8 with Some _ => true | _ => false end &&
      (cx_Height c8 =? 25) && (cx_Step c8 =? 5)
  | _, _ => false
  end.

Lemma next_round_spec l : next_round l = true →
  (9 < length l)%nat ∧ cx_Round (default fresh (l !! 8%nat)) = 1 ∧
  cx_Round (default fresh (l !! 9%nat)) = 2 ∧ is_Some (cx_state (default fresh (l !! 8%nat))) ∧
  cx_Height (default fresh (l !! 8%nat)) = 25 ∧ cx_Step (default fresh (l !! 8%nat)) = 5.
Proof.
  unfold next_round. destruct (l !! 8%nat) as [c8|], (l !! 9%nat) as [c9|] eqn:E9; try discriminate.
  cbn [default]. unfold id. rewrite !andb_true_iff, !Z.eqb_eq. intros [[[[? ?] ?] ?] ?].
  split; [by apply lookup_lt_Some in E9|]. split_and!; try done. by destruct (cx_state c8).
Qed.

Lemma slow_states_next_round : next_round slow_states = true.
Proof. vm_compute. reflexivity. Qed.

Lemma after_some n : (n ≤ 9)%nat → states !! n = Some (after n).
Proof. destruct (committed_spec _ states_committed) as [Hlen _]. intros Hn. apply lookup_default. lia. Qed.

Lemma slow_after_some n : (n ≤ 9)%nat → slow_states !! n = Some (slow_after n).
Proof. destruct (next_round_spec _ slow_states_next_round) as [Hlen _]. intros Hn. apply lookup_default. lia. Qed.

Lemma after_step n env ev :
  events !! n = Some (env, ev) →
  reachable (after n) ∧ ev_ok (after n) ev ∧ handleEvent env ev (after n) = Done tt (after (S n)).
Proof.
  intros Hn. assert (n < 9)%nat by (apply lookup_lt_Some in Hn; exact Hn).
  pose proof (after_some n ltac:(lia)) as H1. pose proof (after_some (S n) ltac:(lia)) as H2.
  split; [|exact (runStates_step _ _ _ _ _ _ _ H1 H2 Hn)].
  exact (runChecked_reachable _ _ _ fresh_reachable (runStates_checked _ _ _ _ H1)).
Qed.

Lemma slow_after_step n env ev :
  slow_events !! n = Some (env, ev) →
  reachable (slow_after n) ∧ ev_ok (slow_after n) ev ∧
  handleEvent env ev (slow_after n) = Done tt (slow_after (S n)).
Proof.
  intros Hn. assert (n < 9)%nat by (apply lookup_lt_Some in Hn; exact Hn).
  pose proof (slow_after_some n ltac:(lia)) as H1. pose proof (slow_after_some (S n) ltac:(lia)) as H2.
  split; [|exact (runStates_step _ _ _ _ _ _ _ H1 H2 Hn)].
  exact (runChecked_reachable _ _ _ fresh_reachable (runStates_checked _ _ _ _ H1)).
Qed.

Lemma vote_and_block : ∃ vt from b st,
  newEffects (after 7) (after 8) !! 1%nat = Some (XSend (mkMessage VoteMsg (DVote vt) from)) ∧
  vt_Step vt = RoundStep3Certifying ∧ vt_Value vt ≠ 0 ∧
  newEffects (after 8) (after 9) !! 1%nat = Some (XWriteBlock b st) ∧
  Block_NumberU64 b = 25 ∧ Block_Hash b = vt_Value vt ∧ ct_TrieProof (Block_Certificate b) = [] ∧
  is_Some (cx_state (after 7)) ∧ cx_Height (after 9) = 25 ∧
  cx_parentStatedb (after 9) = Some Sample.state.
Proof. exact (proj2 (committed_spec _ states_committed)). Qed.

Lemma second_round : cx_Round (slow_after 8) = 1 ∧ cx_Round (slow_after 9) = 2 ∧
  is_Some (cx_state (slow_after 8)) ∧ cx_Height (slow_after 8) = 25 ∧ cx_Step (slow_after 8) = 5.
Proof. exact (proj2 (next_round_spec _ slow_states_next_round)). Qed.
End Node.
