(* ===== verification/Machine.v ===== *)
(** * Machine: what the consensus state machine guarantees

    The theorems about every reachable state and every event: how an event ends, that
    the machine votes by the rules, that its quorums are quorums of verified votes of
    distinct miners, that a round begins only with a quorum, what the certificates of
    committed blocks prove, and how timeouts drive the machine together with the
    ticker. *)

From S2P Require Import Prelude Bytes Params Crypto ForwardSecure Types VoteSet VoteSetFacts.
From S2P Require Import MinerContract Sortition MinerKeys Engine Ticker StateMachine.
From S2P Require Import MachineLogic MachineInvariant MachineEvents MachineRun.

Local Open Scope Z_scope.

Section facts.
Context `{CR : Crypto} `{VC : !VrfCorrect} `{BO : Boost} `{W : World}.

Lemma reachable_alive c : reachable c → alive c.
Proof.
  induction 1 as [c Hs Hq|env ev c c' _ IH Hok E].
  - split; [by rewrite Hq|by left].
  - apply (event_done env c c' ev IH Hok E).
Qed.

Lemma reachable_good c : reachable c → is_Some (cx_state c) → ∃ g, good g c.
Proof. intros [_ [Hn|Hg]]%reachable_alive [s Hs]; [congruence|done]. Qed.

Lemma reachable_effect env ev c c' xs x :
  reachable c → ev_ok c ev → handleEvent env ev c = Done tt c' → cx_trace c' = cx_trace c ++ xs →
  x ∈ xs → ∃ g, good g c' ∧ effect_rule g c' x.
Proof.
  intros Hc Hok E Ht Hx.
  destruct (event_done env c c' ev (reachable_alive _ Hc) Hok E) as [_ (xs' & Ht' & Hall)].
  assert (xs' = xs) as -> by (apply (app_inv_head (cx_trace c)); congruence). by apply Hall.
Qed.

(** [g] is what the machine's context holds fixed during a height. *)
Definition good_base (g : Base) (c : Ctx) : Prop :=
  cx_config c = g_config g ∧ cx_parentStatedb c = Some (g_st g) ∧ cx_parent c = g_parent g ∧
  cx_Height c = g_height g ∧ cx_EmptyValue c = g_empty g.

Lemma core_good_base g c : core g c → good_base g c.
Proof. by intros []. Qed.

(** A run of events inside one height. *)
Inductive height_run (c0 : Ctx) : Ctx → Prop :=
| hrun_refl : height_run c0 c0
| hrun_event env ev c c' :
    height_run c0 c → ev_ok c ev → in_height ev → handleEvent env ev c = Done tt c' → height_run c0 c'.

Lemma height_run_good g c0 c : good g c0 → height_run c0 c → good g c ∧ ext g c0 c.
Proof.
  intros G. induction 1 as [|env ev c c' _ [G1 X1] Hok Hin E]; [by split; [|apply ext_refl]|].
  pose proof (handleEvent_wp env g c ev (λ _ c', good g c' ∧ ext g c0 c') G1 (proj2 Hok) Hin) as Hw.
  refine (wp_done _ _ _ _ _ (Hw _) E). intros c2 G2 X2 _. split; [done|by eapply ext_trans].
Qed.

(** The votes behind a quorum. *)
Lemma quorum_votes g c r s v :
  good g c → quorum g c r s v →
  ∃ votes, NoDup ((λ vt, vt_Address vt) <$> votes) ∧
    (∀ vt, vt ∈ votes → vt_Value vt = v ∧ g_vote g r s vt) ∧
    g_threshold g s ≤ sumZ (λ vt, vt_Weight vt) votes.
Proof.
  intros G (svs & E & vs & Hvs & HT).
  pose proof (counted_hvs_inv _ _ _ _ (co_counter _ _ (gd_core _ _ G)) r) as Hinv.
  pose proof (rinv_step _ _ _ _ Hinv _ _ E) as Hi. exists (vs_Votes vs).
  split; [by apply (inv_nodup _ _ _ _ Hi v)|]. split.
  - intros vt Hvt. by destruct (inv_vote _ _ _ _ Hi v vs vt Hvs Hvt) as (? & _ & ? & _).
  - by rewrite <- (inv_weight _ _ _ _ Hi v).
Qed.

(** The seal check accepts a block that was committed by the rules. *)
Lemma commit_rule_seals `{CH : !ChainReader StateDB} g b :
  commit_rule g b → Block_NumberU64 b = g_height g →
  sealState (bl_header b) (bl_header (g_parent g)) = inl (g_st g) →
  VerifySeal (g_config g) (bl_header b) (bl_header (g_parent g)) = Some None.
Proof.
  intros [Hh Hv (ws & Hws & Hsum) Hnd (w & Hw) Hseed _] Hn Hst. unfold VerifySeal. rewrite Hst.
  change (u64 (hd_Number (bl_header b))) with (Block_NumberU64 b). rewrite Hn.
  change (hd_Certificate (bl_header b)) with (Block_Certificate b).
  rewrite (verifyVotes_complete _ _ _ _ _ _ ws) by (done || lia). cbn [mbind option_bind].
  rewrite union_empty_r_L, size_list_to_set by done. rewrite length_fmap, Nat.eqb_refl. cbn [negb].
  unfold g_threshold in Hsum.
  destruct (GetCommitteeNumber (g_height g) RoundStep3Certifying) as [th size]. cbn [fst] in Hsum.
  rewrite (proj2 (Z.ltb_ge _ _)) by lia.
  set (pl := NewProposalLeaderDataFromStorage (Header_Hash (bl_header b)) (g_height g) _).
  pose proof (VerifySignatureAndCredential_complete _ _ _ _ (pl_Credential pl)
    (ProposalLeaderData_SignBytes pl) (pl_ESignValue pl) w Hw) as Hp.
  unfold g_seed, g_total, Block_Seed, Block_TotalBalanceOfMiners in Hp.
  change (cr_Address (pl_Credential pl)) with (Certificate_Proposer (Block_Certificate b)) in Hp.
  change (cr_Height (pl_Credential pl)) with (g_height g) in Hp. rewrite Hp. clear Hp.
  cbn [mbind option_bind]. unfold Block_Proposer, Header_Proposer, g_seed, Block_Seed, Block_SeedProof in Hseed.
  change (hd_Certificate (bl_header b)) with (Block_Certificate b) in Hseed.
  unfold Block_Hash in Hseed. by rewrite Hseed.
Qed.
End facts.

(** ** Theorems *)

Section claims.
Context `{CR : Crypto} `{VC : !VrfCorrect} `{BO : Boost} `{W : World}.

(** What an event adds to the trace is what the rules speak about. *)
Lemma new_effect env ev c c' x :
  reachable c → ev_ok c ev → handleEvent env ev c = Done tt c' → x ∈ newEffects c c' →
  ∃ g, good g c' ∧ effect_rule g c' x.
Proof.
  intros Hc Hok E Hx.
  destruct (event_done env c c' ev (reachable_alive _ Hc) Hok E) as [_ (xs & Ht & Hall)].
  apply Hall. unfold newEffects in Hx. by rewrite Ht, drop_app_length in Hx.
Qed.


(** C6. Every vote a reachable machine puts into its queue or broadcasts is for the
    height it works on and follows the protocol: it soft-votes the value its round
    carries over unless the round is open for new proposals, cert-votes only a
    value with a quorum of soft votes whose block passed verification, and
    next-votes only such a value or the one its round carries over. *)
Theorem votes_follow_rules env ev c c' code vt from :
  reachable c → ev_ok c ev → handleEvent env ev c = Done tt c' →
  XSend (mkMessage code (DVote vt) from) ∈ newEffects c c' ∨
  XBroadcast (mkMessage code (DVote vt) from) ∈ newEffects c c' →
  ∃ g, good g c' ∧ vt_Height vt = cx_Height c' ∧
  let r := vt_Round vt in let v := vt_Value vt in
  ((vt_Step vt = RoundStep2Filtering ∧ (open_round g c' r ∨ carried g c' r v)) ∨
   (vt_Step vt = RoundStep3Certifying ∧ quorum g c' r RoundStep2Filtering v ∧ verified_ok c' v) ∨
   (RoundStep4FirstFinishing ≤ vt_Step vt ∧
     ((quorum g c' r RoundStep2Filtering v ∧ verified_ok c' v) ∨ carried g c' r v))).
Proof.
  intros Hc Hok E Hx.
  assert (∃ g, good g c' ∧ vote_rule g c' vt) as (g & G & Hh & Hr).
  { destruct Hx as [Hx|Hx]; exact (new_effect _ _ _ _ _ Hc Hok E Hx). }
  exists g. split; [done|]. split; [by rewrite (co_height _ _ (gd_core _ _ G))|exact Hr].
Qed.


(** The voters of the certificate of a block. *)
Definition cert_voters (b : Block) : list Address :=
  (λ cv, cs_Address (cv_Credential cv)) <$> ct_CertVoteSet (Block_Certificate b).

(** [a] signed [v] as a member of weight [u] of the cert committee of round [r]. *)
Definition cert_signed (g : Base) (r : Z) (v : Hash) (a : Address) (u : Z) : Prop :=
  ∃ proof sig, g_speaks g a r RoundStep3Certifying proof v sig u.

Lemma speaks_unique g a r s p p' v v' sig sig' u u' :
  g_speaks g a r s p v sig u → g_speaks g a r s p' v' sig' u' → u = u'.
Proof.
  intros [_ _ _ (h & ow & tw & Hh & Hw & Hc) _] [_ _ _ (h' & ow' & tw' & Hh' & Hw' & Hc') _].
  assert (h' = h) as -> by (by eapply vrf_unique). congruence.
Qed.

Lemma commit_votes g b :
  commit_rule g b →
  ∃ ws, Forall2 (cert_signed g (ct_Round (Block_Certificate b)) (Block_Hash b)) (cert_voters b) ws ∧
    g_threshold g RoundStep3Certifying ≤ sumZ id ws ∧ NoDup (cert_voters b).
Proof.
  intros [_ Hv (ws & Hws & Hsum & _) Hnd _ _ _]. exists ws. split; [|by split].
  apply Forall2_fmap_l. eapply Forall2_impl; [exact Hws|]. intros cv u Hu.
  exists (cs_Proof (cv_Credential cv)), (cv_ESignValue cv). unfold g_speaks. rewrite <- Hv. exact Hu.
Qed.

Lemma commits_overlap g b1 b2 :
  commit_rule g b1 → commit_rule g b2 →
  ct_Round (Block_Certificate b1) = ct_Round (Block_Certificate b2) →
  let V1 : gset Address := list_to_set (cert_voters b1) in
  let V2 : gset Address := list_to_set (cert_voters b2) in
  ∃ w : Address → Z,
    (∀ a, a ∈ V1 → cert_signed g (ct_Round (Block_Certificate b1)) (Block_Hash b1) a (w a)) ∧
    (∀ a, a ∈ V2 → cert_signed g (ct_Round (Block_Certificate b1)) (Block_Hash b2) a (w a)) ∧
    2 * g_threshold g RoundStep3Certifying - weight_of w (V1 ∪ V2) ≤ weight_of w (V1 ∩ V2).
Proof.
  intros (ws1 & F1 & T1 & N1)%commit_votes (ws2 & F2 & T2 & N2)%commit_votes Er V1 V2.
  rewrite <- Er in F2. set (r := ct_Round _) in *.
  set (P := λ a u, cert_signed g r (Block_Hash b1) a u ∨ cert_signed g r (Block_Hash b2) a u).
  assert (∀ v v' a u u', cert_signed g r v a u → cert_signed g r v' a u' → u = u') as Huniq.
  { intros v v' a u u' (? & ? & H1) (? & ? & H2). by eapply speaks_unique. }
  assert (∀ a u u', P a u → P a u' → u = u') as HP.
  { intros a u u' [H1|H1] [H2|H2]; by eapply Huniq. }
  assert (Forall2 P (cert_voters b1) ws1) as P1 by (eapply Forall2_impl; [exact F1|]; by left).
  assert (Forall2 P (cert_voters b2) ws2) as P2 by (eapply Forall2_impl; [exact F2|]; by right).
  destruct (weights_exist P _ _ (Forall2_app P1 P2) HP) as [w Hw].
  assert (∀ v l ws a, Forall2 (cert_signed g r v) l ws → (∀ a, a ∈ l → P a (w a)) → a ∈ l →
    cert_signed g r v a (w a)) as Hs.
  { intros v l ws a Hl Hl' Ha. apply list_elem_of_lookup in Ha as [i Hi].
    destruct (Forall2_lookup_l _ _ _ _ _ Hl Hi) as (u & _ & Hu).
    assert (w a = u) as -> by (destruct (Hl' a) as [H'|H']; [by apply list_elem_of_lookup; exists i| |]; by eapply Huniq).
    done. }
  exists w. split_and!.
  - intros a Ha%elem_of_list_to_set. eapply Hs; [exact F1| |done]. intros. apply Hw. set_solver.
  - intros a Ha%elem_of_list_to_set. eapply Hs; [exact F2| |done]. intros. apply Hw. set_solver.
  - assert (∀ a, a ∈ V1 ∪ V2 → 0 ≤ w a) as Hpos.
    { intros a Ha. assert (P a (w a)) as [(? & ? & H1)|(? & ? & H1)] by (apply Hw; set_solver);
        pose proof (sp_weight _ _ _ _ _ _ _ _ _ _ _ _ H1); lia. }
    pose proof (weight_of_overlap w V1 V2 (V1 ∪ V2) ltac:(set_solver) ltac:(set_solver) Hpos) as Hov.
    assert (weight_of w V1 = sumZ id ws1) as W1.
    { unfold V1. rewrite weight_of_list by done. apply (sumZ_weights P); [done..|]. intros. apply Hw. set_solver. }
    assert (weight_of w V2 = sumZ id ws2) as W2.
    { unfold V2. rewrite weight_of_list by done. apply (sumZ_weights P); [done..|]. intros. apply Hw. set_solver. }
    lia.
Qed.

Lemma committed_rule env ev c c' b :
  reachable c → ev_ok c ev → handleEvent env ev c = Done tt c' →
  (∃ st, XWriteBlock b st ∈ newEffects c c') ∨ XInsertChain b ∈ newEffects c c' →
  ∃ st, cx_parentStatedb c' = Some st ∧
    commit_rule (mkBase (cx_config c') st (cx_parent c') (cx_Height c') (cx_EmptyValue c')) b.
Proof.
  intros Hc Hok E Hx.
  assert (∃ g, good g c' ∧ commit_rule g b) as (g & G & Hr).
  { destruct Hx as [[st Hx]|Hx]; exact (new_effect _ _ _ _ _ Hc Hok E Hx). }
  pose proof (gd_core _ _ G) as Hcore. exists (g_st g). split; [apply Hcore|].
  rewrite (co_config _ _ Hcore), (co_parent _ _ Hcore), (co_height _ _ Hcore), (co_empty _ _ Hcore).
  by destruct g.
Qed.

(** C12. A block that a reachable machine commits - writes with the state it
    computed, or inserts into the chain - carries a certificate of its hash: cert
    votes of distinct members of the committee of the height, drawn and signed for one
    round, whose weights reach the threshold, and its proposer was drawn, signed it
    and proved its seed.  The seal check of another node accepts the block if that
    node finds the same parent state - which includes its check of the certificate's
    Merkle proof - and the block has the number of the height; the machine itself
    enforces neither condition. *)
Theorem committed_blocks_verify env ev c c' b :
  reachable c → ev_ok c ev → handleEvent env ev c = Done tt c' →
  (∃ st, XWriteBlock b st ∈ newEffects c c') ∨ XInsertChain b ∈ newEffects c c' →
  ∃ st, cx_parentStatedb c' = Some st ∧
  let cert := Block_Certificate b in let parent := bl_header (cx_parent c') in
  let member := λ miner round step proof value sig w,
    speaks (cx_config c') st (Block_Seed (cx_parent c')) (Block_TotalBalanceOfMiners (cx_parent c')) miner
      (cx_Height c') round step proof (be_bytes 32 value) sig w in
  ct_Value cert = Block_Hash b ∧ ct_Height cert = Block_NumberU64 b ∧
  NoDup (cert_voters b) ∧
  (∃ ws, Forall2 (λ cv w, member (cs_Address (cv_Credential cv)) (ct_Round cert) RoundStep3Certifying
      (cs_Proof (cv_Credential cv)) (Block_Hash b) (cv_ESignValue cv) w) (ct_CertVoteSet cert) ws ∧
    (GetCommitteeNumber (cx_Height c') RoundStep3Certifying).1 ≤ sumZ id ws) ∧
  (∃ w, member (Block_Proposer b) (ps_Round (ct_Proposal cert)) RoundStep1Proposal (Block_Proof b) (Block_Hash b)
    (ps_ESignValue (ct_Proposal cert)) w) ∧
  VerifySeed (GetMinerVerifier (cx_config c') st (Block_Proposer b) (cx_Height c')) (cx_Height c')
    (Block_Seed (cx_parent c')) (Block_Hash (cx_parent c')) (Block_Seed b) (Block_SeedProof b) = None ∧
  (∀ CH : ChainReader StateDB, sealState (bl_header b) parent = inl st → Block_NumberU64 b = cx_Height c' →
     VerifySeal (cx_config c') (bl_header b) parent = Some None).
Proof.
  intros Hc Hok E Hx. destruct (committed_rule _ _ _ _ _ Hc Hok E Hx) as (st & Hst & Hr).
  exists st. split; [exact Hst|]. cbn zeta. pose proof Hr as [Hh Hv (ws & Hws & Hsum & _) Hnd (w & Hw) Hseed _].
  split; [exact Hv|]. split; [exact Hh|]. split; [exact Hnd|]. split.
  { exists ws. split; [|exact Hsum]. eapply Forall2_impl; [exact Hws|]. intros cv u Hu. rewrite <- Hv. exact Hu. }
  split; [by exists w|]. split; [exact Hseed|]. intros CH Hseal Hn. exact (commit_rule_seals _ _ Hr Hn Hseal).
Qed.

(** C1. Accountable agreement of two nodes.  If two reachable machines that work on
    the same height (same configuration, parent, parent state) commit [b1] and [b2]
    with certificates of one round, then the members that signed both blocks, each
    with the one weight it drew, weigh at least twice the threshold minus the weight
    of all signers: different blocks convict that many double voters. *)
Theorem commits_accountable env1 ev1 c1 c1' b1 env2 ev2 c2 c2' b2 :
  reachable c1 → ev_ok c1 ev1 → handleEvent env1 ev1 c1 = Done tt c1' →
  (∃ st, XWriteBlock b1 st ∈ newEffects c1 c1') ∨ XInsertChain b1 ∈ newEffects c1 c1' →
  reachable c2 → ev_ok c2 ev2 → handleEvent env2 ev2 c2 = Done tt c2' →
  (∃ st, XWriteBlock b2 st ∈ newEffects c2 c2') ∨ XInsertChain b2 ∈ newEffects c2 c2' →
  cx_config c1' = cx_config c2' → cx_parent c1' = cx_parent c2' → cx_Height c1' = cx_Height c2' →
  cx_parentStatedb c1' = cx_parentStatedb c2' → cx_EmptyValue c1' = cx_EmptyValue c2' →
  ct_Round (Block_Certificate b1) = ct_Round (Block_Certificate b2) →
  let V1 : gset Address := list_to_set (cert_voters b1) in
  let V2 : gset Address := list_to_set (cert_voters b2) in
  ∃ g (w : Address → Z), good_base g c1' ∧
    (∀ a, a ∈ V1 → cert_signed g (ct_Round (Block_Certificate b1)) (Block_Hash b1) a (w a)) ∧
    (∀ a, a ∈ V2 → cert_signed g (ct_Round (Block_Certificate b1)) (Block_Hash b2) a (w a)) ∧
    2 * (GetCommitteeNumber (cx_Height c1') RoundStep3Certifying).1 - weight_of w (V1 ∪ V2)
      ≤ weight_of w (V1 ∩ V2).
Proof.
  intros R1 O1 E1 X1 R2 O2 E2 X2 Ec Ep Eh Est Ee Er.
  destruct (committed_rule _ _ _ _ _ R1 O1 E1 X1) as (st1 & S1 & C1).
  destruct (committed_rule _ _ _ _ _ R2 O2 E2 X2) as (st2 & S2 & C2).
  rewrite <- Ec, <- Ep, <- Eh, <- Ee in C2. assert (st2 = st1) as -> by congruence.
  destruct (commits_overlap _ _ _ C1 C2 Er) as (w & H1 & H2 & H3).
  eexists _, w. split; [|done]. by split_and!.
Qed.

(** A round begins only with a quorum.  When an event moves a reachable machine
    from round [1 <= r] to another round of the same height, there are votes of
    distinct members, each drawn and signed for one next step of the previous
    round, for the value the new round starts with, and their weights reach the
    threshold; rounds only grow until the 32-bit counter wraps. *)
Theorem new_round_needs_quorum env ev c c' :
  reachable c → is_Some (cx_state c) → ev_ok c ev → in_height ev →
  handleEvent env ev c = Done tt c' → 1 ≤ cx_Round c → cx_Round c' ≠ cx_Round c →
  (cx_Round c < cx_Round c' ∨ cx_Round c' = 0) ∧
  ∃ g s votes, good_base g c' ∧ RoundStep4FirstFinishing ≤ s ∧
    NoDup ((λ vt, vt_Address vt) <$> votes) ∧
    (∀ vt, vt ∈ votes → vt_Value vt = cx_StartingValue c' ∧ g_vote g (sub32 (cx_Round c') 1) s vt) ∧
    (GetCommitteeNumber (cx_Height c') s).1 ≤ sumZ (λ vt, vt_Weight vt) votes.
Proof.
  intros Hc Hs Hok Hin E H1 Hne. destruct (reachable_good _ Hc Hs) as [g G].
  assert (good g c' ∧ advances c c') as [G' (r & [?|[Hr Er]] & Hu)]; [|done|].
  { pose proof (handleEvent_wp env g c ev (λ _ c', good g c' ∧ advances c c') G (proj2 Hok) Hin) as Hw.
    refine (wp_done _ _ _ _ _ (Hw _) E). by intros c2 G2 _ A2. }
  pose proof (gd_core _ _ G') as Hcore. unfold add32, u32, is_u32 in *.
  assert (cx_Round c' = r + 1 ∨ cx_Round c' = 0) as Hcase.
  { destruct (Z.eq_dec r (2 ^ 32 - 1)) as [->|]; [by right; rewrite Er|].
    left. rewrite Er. apply Z.mod_small. lia. }
  split; [lia|]. destruct (co_start _ _ Hcore) as [[Hr1 _]|(s & Hs4 & Hq)]; [lia|].
  destruct (quorum_votes _ _ _ _ _ G' Hq) as (votes & N & V & T).
  exists g, s, votes. split; [by apply core_good_base|]. split_and!; try done.
Qed.

(** The timeouts the machine asked the ticker for, in order. *)
Definition requests (trace : list effect) : list TimeoutInfo :=
  omap (λ x, match x with XSchedule ti => Some ti | _ => None end) trace.

Lemma elem_of_requests trace ti : ti ∈ requests trace ↔ XSchedule ti ∈ trace.
Proof.
  unfold requests. rewrite list_elem_of_omap. split; [|by eexists].
  intros (x & Hx & E). destruct x; try done. by injection E as <-.
Qed.

(** A new machine and the events until it is stopped: all its requests go to one
    ticker. *)
Inductive running : Ctx → Prop :=
| run_new c : cx_state c = None → cx_msgChan c = [] → cx_trace c = [] → running c
| run_event env ev c c' :
    running c → ev_ok c ev → ev ≠ EStop → handleEvent env ev c = Done tt c' → running c'.

Lemma running_reachable c : running c → reachable c.
Proof. induction 1; [by apply reach_new|by eapply reach_event]. Qed.

Lemma running_requests c ti : running c → ti ∈ requests (cx_trace c) → 0 < ti_Step ti.
Proof.
  intros Hrun Hti%elem_of_requests.
  induction Hrun as [c _ _ Ht|env ev c c' Hrun IH Hok _ E]; [rewrite Ht in Hti; by apply elem_of_nil in Hti|].
  destruct (event_done env c c' ev (reachable_alive _ (running_reachable _ Hrun)) Hok E) as [_ (xs & Ht & Hall)].
  rewrite Ht in Hti. apply elem_of_app in Hti as [Hti|Hti]; [by apply IH|].
  by destruct (Hall _ Hti) as (g & _ & H).
Qed.

(** The height, round and step the machine is in. *)
Definition HRS (c : Ctx) : TimeoutInfo := mkTimeoutInfo 0 (cx_Height c) (cx_Round c) (cx_Step c).

(** C19. Timeouts drive the machine.  Take a machine that runs and has not been
    stopped, and its ticker once it has read what the machine sent it.  If the machine
    never asked for a timeout of a later height, round or step (it did when it entered
    a height again, and then the ticker ignores it), the timer is set for the height,
    round and step the machine is in, or that timeout was handed over.  When it
    arrives while the chain is below the height, and fewer than [2^31] timeouts passed
    in the round, the machine moves on by two steps of the round (proposal to
    certifying to finishing and on), still runs, and has asked for the timeout of the
    step it moved to - unless it panics in a way the code leaves open. *)
Theorem timeouts_drive_machine env c t n :
  running c → is_Some (cx_state c) → cx_returned c = false → 0 ≤ n < cx_Height c → cx_Step c < 2 ^ 32 - 2 →
  ticker_run (requests (cx_trace c)) t → tk_tickChan t = [] →
  (∀ ti, ti ∈ requests (cx_trace c) → ¬ hrs_lt (HRS c) ti) →
  same_hrs (tk_ti t) (HRS c) ∧ delivered t ∧
  let ev := ETimeout n (tk_ti t) in
  ((∃ p, handleEvent env ev c = Panic p ∧ open_panic p) ∨
   ∃ c' ti, handleEvent env ev c = Done tt c' ∧ running c' ∧ is_Some (cx_state c') ∧
     cx_Height c' = cx_Height c ∧ cx_Round c' = cx_Round c ∧ cx_Step c' = cx_Step c + 2 ∧
     ti ∈ requests (cx_trace c') ∧ same_hrs ti (HRS c')).
Proof.
  intros Hrun Hs Hret Hn Hb Ht Hq Hmax. pose proof (running_reachable _ Hrun) as Hc.
  destruct (reachable_good _ Hc Hs) as [g G]. destruct (gd_armed _ _ G) as [d Hd%elem_of_requests].
  destruct (latest_request_pending _ _ _ Ht Hq (λ x, running_requests c x Hrun) Hd ltac:(cbn; lia) Hmax)
    as [(Eh & Er & Es) Hdel]. cbn [ti_Height ti_Round ti_Step] in Eh, Er, Es.
  split; [done|]. split; [done|]. intros ev.
  assert (wp (handleEvent env ev) (λ _ c', good g c' ∧ cx_Round c' = cx_Round c ∧ cx_Step c' = cx_Step c + 2) c)
    as Hw.
  { cbn [handleEvent ev]. unfold receiveTimeout. wps. rewrite (proj2 (Z.ltb_lt _ _)) by lia.
    unfold handleTimeout. wps. destruct Hs as [s ->]. rewrite Eh, Er, Es, !Z.eqb_refl.
    apply (OnTimeout_wp _ g); [done|done|]. by intros c' G' _ R' S'. }
  unfold wp in Hw. destruct (handleEvent env ev c) as [[] c'|p|] eqn:E; [right|left; eauto|done].
  destruct Hw as (G' & R' & S'). destruct (gd_armed _ _ G') as [d' Hd'%elem_of_requests].
  assert (cx_Height c' = cx_Height c) as H'
    by (by rewrite (co_height _ _ (gd_core _ _ G)), (co_height _ _ (gd_core _ _ G'))).
  exists c'. eexists. split; [done|]. split; [by eapply (run_event env ev)|].
  split; [by eapply good_running|]. split_and!; [done|done|done|exact Hd'|done].
Qed.

(** The leader messages of a round, one after the other. *)
Definition receiveLeaders (ds : list ProposalLeaderData) : M unit :=
  foldr (λ d m, OnProposalLeaderReceived d ;; m) (mret tt) ds.

(** The machine still chooses the leader of round [r]. *)
Definition choosing (c : Ctx) (r : Z) : Prop :=
  r ≠ BadRound ∧ (cx_Round c < r ∨ (cx_Round c = r ∧ cx_Step c = RoundStep1Proposal)) ∧
  is_Some (cx_ProposalLeader c).

Lemma OnProposalLeaderReceived_choose `{DS : !DigestSize} c r d rank :
  choosing c r → cr_Round (pl_Credential d) = r → 0 ≤ cr_Weight (pl_Credential d) →
  cred_rank (pl_Credential d) = Some (rank d) →
  (∀ l, getProposalLeader c r = Some l →
     0 ≤ cr_Weight (pl_Credential l) ∧ cred_rank (pl_Credential l) = Some (rank l)) →
  ∃ c', OnProposalLeaderReceived d c = Done tt c' ∧ choosing c' r ∧
    getProposalLeader c' r = Some (match getProposalLeader c r with
      | Some l => if rank_lt (rank d) (rank l) then d else l
      | None => d
      end).
Proof.
  intros (Hr0 & Hr & [m Hm]) Ed Hw Hd Hl. subst r.
  assert (∃ c', UpdateProposalLeader d c = Done tt c' ∧ choosing c' (cr_Round (pl_Credential d)) ∧
    getProposalLeader c' (cr_Round (pl_Credential d)) = Some d) as Hup.
  { unfold UpdateProposalLeader, mbind, M_bind, gets, unwrap. rewrite Hm.
    eexists. split; [done|]. unfold choosing, getProposalLeader. upd.
    rewrite (proj2 (Z.eqb_neq _ _)) by done. rewrite lookup_insert_eq. split; [|done].
    split_and!; [done|done|by eexists]. }
  unfold OnProposalLeaderReceived, mbind, M_bind, get.
  assert ((cr_Round (pl_Credential d) <? cx_Round c)
    || ((cr_Round (pl_Credential d) =? cx_Round c) && negb (cx_Step c =? RoundStep1Proposal)) = false) as ->.
  { destruct Hr as [Hlt|[<- Hs]]; [|rewrite Hs, Z.ltb_irrefl, !Z.eqb_refl; done].
    rewrite (proj2 (Z.ltb_ge _ _)), (proj2 (Z.eqb_neq _ _)) by lia. done. }
  destruct (getProposalLeader c (cr_Round (pl_Credential d))) as [l|] eqn:El; [|exact Hup].
  destruct (Hl l eq_refl) as [Hwl Hrl]. unfold ProposalLeaderData_LessThan.
  rewrite (LessThan_rank _ _ _ _ Hw Hwl Hd Hrl). cbn [unwrap mret M_ret].
  destruct (rank_lt (rank d) (rank l)); [exact Hup|]. exists c. split; [done|]. by split.
Qed.

Lemma rank_lt_trans a b c : rank_lt a b = false → rank_lt b c = false → rank_lt a c = false.
Proof. destruct a, b, c; cbn; rewrite ?Z.ltb_ge; (done || lia). Qed.

Lemma rank_lt_asym a b : rank_lt a b = true → rank_lt b a = false.
Proof. destruct a, b; cbn; rewrite ?Z.ltb_ge, ?Z.ltb_lt; (done || lia). Qed.

(** A leader message for round [r] whose rank is [rank d]. *)
Definition leader_for (r : Z) (rank : ProposalLeaderData → option Z) (d : ProposalLeaderData) : Prop :=
  cr_Round (pl_Credential d) = r ∧ 0 ≤ cr_Weight (pl_Credential d) ∧
  cred_rank (pl_Credential d) = Some (rank d).

Lemma receiveLeaders_min `{DS : !DigestSize} r rank ds c l :
  choosing c r → Forall (leader_for r rank) (l :: ds) → getProposalLeader c r = Some l →
  ∃ c' l', receiveLeaders ds c = Done tt c' ∧ getProposalLeader c' r = Some l' ∧ l' ∈ l :: ds ∧
    ∀ d, d ∈ l :: ds → rank_lt (rank d) (rank l') = false.
Proof.
  revert c l. induction ds as [|d ds IH]; intros c l Hc Hds Hl.
  { exists c, l. split; [done|]. split; [done|]. split; [set_solver|]. intros d ->%list_elem_of_singleton.
    destruct (rank l); cbn; [apply Z.ltb_irrefl|done]. }
  apply Forall_cons in Hds as [(El & Hw & Hr) [Hd Hds]%Forall_cons].
  pose proof Hd as (Ed & Hwd & Hrd).
  destruct (OnProposalLeaderReceived_choose c r d rank Hc Ed Hwd Hrd) as (c1 & E1 & Hc1 & L1).
  { intros l' Hl'. rewrite Hl in Hl'. injection Hl' as <-. done. }
  rewrite Hl in L1. set (b := if rank_lt (rank d) (rank l) then d else l) in *.
  assert (b = d ∧ rank_lt (rank l) (rank d) = false ∨ b = l ∧ rank_lt (rank d) (rank l) = false) as Hb.
  { unfold b. destruct (rank_lt (rank d) (rank l)) eqn:E; [left|by right]. split; [done|by apply rank_lt_asym]. }
  destruct (IH c1 b Hc1) as (c' & l' & E' & L' & Hin & Hmin); [|done|].
  { constructor; [|done]. destruct Hb as [[-> _]|[-> _]]; done. }
  exists c', l'. split; [cbn [receiveLeaders foldr]; unfold mbind, M_bind; by rewrite E1|]. split; [done|].
  pose proof (Hmin b ltac:(set_solver)) as Hbl.
  split; [destruct Hb as [[-> _]|[-> _]]; set_solver|]. intros x Hx.
  apply elem_of_cons in Hx as [->|[->|Hx]%elem_of_cons]; [| |apply Hmin; by right].
  - destruct Hb as [[Eb Hlt]|[Eb _]]; rewrite Eb in Hbl; [by eapply rank_lt_trans|done].
  - destruct Hb as [[Eb _]|[Eb Hlt]]; rewrite Eb in Hbl; [done|by eapply rank_lt_trans].
Qed.

(** The leader of a round is the best proposal.  While the machine still chooses
    the leader of a round that has none, any sequence of leader messages for it, each
    with a credential that has a rank (the least of its tickets), makes it choose one
    of them that none of the others beats. *)
Theorem leader_is_minimum `{DS : !DigestSize} c r ds rank :
  choosing c r → getProposalLeader c r = None → ds ≠ [] → Forall (leader_for r rank) ds →
  ∃ c' l, receiveLeaders ds c = Done tt c' ∧ getProposalLeader c' r = Some l ∧ l ∈ ds ∧
    ∀ d, d ∈ ds → rank_lt (rank d) (rank l) = false.
Proof.
  intros Hc Hn Hne Hds. destruct ds as [|d ds]; [done|].
  pose proof (Forall_inv Hds) as (Ed & Hwd & Hrd).
  destruct (OnProposalLeaderReceived_choose c r d rank Hc Ed Hwd Hrd) as (c1 & E1 & Hc1 & L1).
  { intros l'. by rewrite Hn. }
  rewrite Hn in L1. destruct (receiveLeaders_min r rank ds c1 d Hc1 Hds L1) as (c' & l' & E' & Hl').
  exists c', l'. split; [|done]. cbn [receiveLeaders foldr]. unfold mbind, M_bind. by rewrite E1.
Qed.

(** ** What the handlers do not check *)

(** A peer's leader message for a height beyond the chain makes the node panic: the
    handler looks the parent's header up by number and dereferences the result. *)
Theorem proposal_beyond_chain_panics env d from c :
  env_GetHeaderByNumber env (sub64 (cr_Height (pl_Credential d)) 1) = None →
  handleEvent env (EReceive (DLeader d) from) c = Panic PNilHeader.
Proof.
  intros Hn. cbn [handleEvent]. unfold peerMsg, receivedWeight, GetSortitionWeight.
  unfold mbind, M_bind, get. by rewrite Hn.
Qed.

(** A leader message of the journal comes back with weight 0; once a leader is
    known, its replay changes nothing. *)
Theorem replayed_leader_ignored env d from c l :
  is_Some (cx_state c) → getProposalLeader c (cr_Round (pl_Credential d)) = Some l →
  cr_Weight (pl_Credential l) ≠ 0 →
  handleEvent env (EReplayMsg (DLeader d) from) c = Done tt c.
Proof.
  intros [s Hs] Hl Hw. cbn [handleEvent]. unfold replayMsg, handleMsg. set (d0 := d <| pl_Credential ::= _ |>).
  unfold mbind, M_bind, get. rewrite Hs. cbn [msg_code msg_data].
  destruct (negb _); [done|]. unfold handleProposalLeader, mbind, M_bind, get.
  change (cr_Round (pl_Credential d0)) with (cr_Round (pl_Credential d)). rewrite Hl.
  unfold ProposalLeaderData_LessThan, Credential_LessThan, LessThanByProof, LessThanByProofInt.
  rewrite (proj2 (Z.eqb_neq _ _) Hw). done.
Qed.
End claims.

(** ** Witnesses: the runs of the example node *)

Import Toy Registry Uniform Node.


Lemma votes_follow_rules_witness : ∃ g vt,
  good g (after 8) ∧ vt_Step vt = RoundStep3Certifying ∧
  quorum g (after 8) (vt_Round vt) RoundStep2Filtering (vt_Value vt) ∧ verified_ok (after 8) (vt_Value vt).
Proof.
  destruct vote_and_block as (vt & from & b & st & Hv & Hs & _).
  destruct (after_step 7 _ _ eq_refl) as (R & O & E).
  destruct (votes_follow_rules _ _ _ _ VoteMsg vt from R O E) as (g & G & _ & H).
  { left. exact (list_elem_of_lookup_2 _ _ _ Hv). }
  exists g, vt. split; [exact G|]. split; [exact Hs|]. rewrite Hs in H.
  destruct H as [[H _]|[[_ H]|[H _]]]; [discriminate H|exact H|destruct (H eq_refl)].
Defined.

Lemma committed_blocks_verify_witness : ∃ b,
  Block_NumberU64 b = 25 ∧ NoDup (cert_voters b) ∧
  VerifySeal (cx_config (after 9)) (bl_header b) (bl_header (cx_parent (after 9))) = Some None.
Proof.
  destruct vote_and_block as (vt & from & b & st & _ & _ & _ & Hb & Hn & _ & Ht & _ & Hh & Hst).
  destruct (after_step 8 _ _ eq_refl) as (R & O & E). exists b. split; [exact Hn|].
  apply list_elem_of_lookup_2 in Hb.
  destruct (committed_blocks_verify _ _ _ _ b R O E (or_introl (ex_intro _ st Hb)))
    as (st' & Hst' & _ & _ & Hnd & _ & _ & _ & Hseal).
  rewrite Hst in Hst'. injection Hst' as <-. split; [exact Hnd|]. apply (Hseal Node.chain).
  - unfold sealState. change (hd_Certificate (bl_header b)) with (Block_Certificate b). rewrite Ht. reflexivity.
  - rewrite Hn, Hh. reflexivity.
Defined.


Lemma commits_accountable_witness : ∃ b g (w : Address → Z), Block_NumberU64 b = 25 ∧
  good_base g (after 9) ∧
  2 * (GetCommitteeNumber (cx_Height (after 9)) RoundStep3Certifying).1
    - weight_of w (list_to_set (cert_voters b) ∪ list_to_set (cert_voters b))
    ≤ weight_of w (list_to_set (cert_voters b) ∩ list_to_set (cert_voters b)).
Proof.
  destruct vote_and_block as (vt & from & b & st & _ & _ & _ & Hb & Hn & _).
  destruct (after_step 8 _ _ eq_refl) as (R & O & E). apply list_elem_of_lookup_2 in Hb.
  assert ((∃ st, XWriteBlock b st ∈ newEffects (after 8) (after 9)) ∨
    XInsertChain b ∈ newEffects (after 8) (after 9)) as X by (left; exists st; exact Hb).
  destruct (commits_accountable _ _ _ _ b _ _ _ _ b R O E X R O E X
    eq_refl eq_refl eq_refl eq_refl eq_refl eq_refl) as (g & w & G & _ & _ & H).
  exists b, g, w. split; [exact Hn|]. split; [exact G|exact H].
Defined.

Lemma new_round_needs_quorum_witness : ∃ g s votes, good_base g (slow_after 9) ∧
  RoundStep4FirstFinishing ≤ s ∧
  (GetCommitteeNumber (cx_Height (slow_after 9)) s).1 ≤ sumZ (λ vt, vt_Weight vt) votes.
Proof.
  destruct second_round as (R8 & R9 & S8 & _). destruct (slow_after_step 8 _ _ eq_refl) as (R & O & E).
  destruct (new_round_needs_quorum _ _ _ _ R S8 O I E) as (_ & g & s & votes & G & Hs & _ & _ & H).
  - rewrite R8. discriminate.
  - rewrite R8, R9. discriminate.
  - exists g, s, votes. split; [exact G|]. split; [exact Hs|exact H].
Defined.

Lemma slow_running n : (n ≤ 9)%nat → running (slow_after n).
Proof.
  induction n as [|n IH]; intros Hn; [by apply run_new|].
  assert (is_Some (slow_events !! n)) as [[e ev] En] by (apply lookup_lt_is_Some; cbn; lia).
  destruct (slow_after_step n _ _ En) as (_ & O & E). refine (run_event e ev _ _ (IH _) O _ E); [lia|].
  assert (Forall (λ x : Env * event, x.2 ≠ EStop) slow_events) as Hall by (repeat constructor; discriminate).
  exact (proj1 (Forall_lookup _ _) Hall n _ En).
Qed.

Lemma slow_requests :
  (λ ti, (ti_Height ti, ti_Round ti, ti_Step ti)) <$> requests (cx_trace (slow_after 8))
    = [(25, 1, 1); (25, 1, 3); (25, 1, 5)] ∧ cx_returned (slow_after 8) = false.
Proof. split; vm_compute; reflexivity. Qed.

Lemma requests_latest c :
  (λ ti, (ti_Height ti, ti_Round ti, ti_Step ti)) <$> requests (cx_trace c) = [(25, 1, 1); (25, 1, 3); (25, 1, 5)] →
  HRS c = mkTimeoutInfo 0 25 1 5 → ∀ ti, ti ∈ requests (cx_trace c) → ¬ hrs_lt (HRS c) ti.
Proof.
  intros Hreq -> ti Hti. apply (list_elem_of_fmap_2 (λ ti, (ti_Height ti, ti_Round ti, ti_Step ti))) in Hti.
  rewrite Hreq in Hti. unfold hrs_lt. cbn. set_solver by lia.
Qed.

Lemma slow_HRS : HRS (slow_after 8) = mkTimeoutInfo 0 25 1 5.
Proof. vm_compute. reflexivity. Qed.

Lemma timeouts_drive_machine_witness : ∃ t,
  ticker_run (requests (cx_trace (slow_after 8))) t ∧ same_hrs (tk_ti t) (HRS (slow_after 8)) ∧ delivered t.
Proof.
  destruct second_round as (_ & _ & S8 & H8 & T8). destruct slow_requests as [Hreq Hret].
  pose proof (requests_latest _ Hreq slow_HRS) as Hmax. pose proof (slow_running 8 ltac:(lia)) as Hrun.
  clear Hreq. revert S8 H8 T8 Hret Hmax Hrun. generalize (slow_after 8). intros c S8 H8 T8 Hret Hmax Hrun.
  destruct (ticker_run_all (requests (cx_trace c))) as (t & Ht & Hq). exists t. split; [exact Ht|].
  destruct (timeouts_drive_machine (env 1016) c t 24 Hrun S8 Hret) as (A & B & _).
  - rewrite H8. lia.
  - rewrite T8. reflexivity.
  - exact Ht.
  - exact Hq.
  - exact Hmax.
  - split; [exact A|exact B].
Defined.

Lemma leader_is_minimum_witness :
  let d1 := mkProposalLeaderData 7 zeroSignature (mkCredential 100 25 1 1 5 1) in
  let d2 := mkProposalLeaderData 8 zeroSignature (mkCredential 101 25 1 1 3 2) in
  let c := fresh <| cx_ProposalLeader := Some ∅ |> <| cx_Round := 1 |> <| cx_Step := 1 |> in
  let rank := λ d, default None (cred_rank (pl_Credential d)) in
  ∃ c' l, receiveLeaders [d1; d2] c = Done tt c' ∧ getProposalLeader c' 1 = Some l ∧ l ∈ [d1; d2] ∧
    ∀ d, d ∈ [d1; d2] → rank_lt (rank d) (rank l) = false.
Proof.
  cbn zeta. apply leader_is_minimum.
  - split; [discriminate|]. split; [by right|by eexists].
  - vm_compute. reflexivity.
  - discriminate.
  - constructor; [|constructor; [|constructor]]; (split; [done|]; split; [discriminate|vm_compute; reflexivity]).
Defined.

(** A registered proposer may offer a block of another height on another parent:
    nothing compares the block's parent or number with those of the height the
    machine works on. *)
Module Foreign.
Definition old : Header := Sealed.parent <| hd_Number := 9 |>.
#[export] Instance reader : ChainReader MapState := {|
  GetHeader h n := if (h =? Header_Hash old) && (n =? 9) then Some old else None;
  StateAtHeader _ := Some Sample.state;
  VerifyProof _ _ _ _ _ := None;
  ProofState _ _ := Sample.state
|}.
Definition world : Env := {|
  env_now := 1006; env_reader := reader;
  env_StateAt := env_StateAt (env 1006); env_GetHeaderByNumber := env_GetHeaderByNumber (env 1006);
  env_GetBlock := env_GetBlock (env 1006); env_EnableMinerTracker := env_EnableMinerTracker (env 1006);
  env_ValidateBody := env_ValidateBody (env 1006); env_Process := env_Process (env 1006);
  env_ValidateState := env_ValidateState (env 1006); env_BuildProof := env_BuildProof (env 1006);
  env_InsertChain := env_InsertChain (env 1006); env_WriteBlock := env_WriteBlock (env 1006);
  env_Pending := true; env_commitTransactions := env_commitTransactions (env 1006);
  env_stillMining := true; env_BlockYear := 1000000; env_IsEIP158 := env_IsEIP158 (env 1006);
  env_select := HeadTaken
|}.

Definition block : Block :=
  let seed_proof := match MinerKey_Seed Sample.mk 25 (Block_Seed head) (Block_Hash head) with
                    | inl r => r | inr _ => (0, 0) end in
  mkBlock (Header_SetSeed seed_proof.1 (Sealed.unsealed <| hd_ParentHash := Header_Hash old |> <| hd_Number := 10 |>
             <| hd_Certificate ::= Certificate_SetSeedProof seed_proof.2 |>)) [] [].

Definition proposal : ProposalBlockData :=
  mkProposalBlockData block (Sealed.sign (be_bytes 32 (Block_Hash block)))
    (mkCredential 100 25 1 1 (Sealed.draw 1) 0).

Definition accepts (c : Ctx) : bool :=
  (cx_Height c =? 25) && negb (Block_ParentHash block =? Block_Hash (cx_parent c)) &&
  match handleProposalBlock world proposal "peer" c with
  | Done None c' => match getProposalBlock c' (Block_Hash block) with Some _ => true | None => false end
  | _ => false
  end.

Lemma accepts_spec c : accepts c = true →
  cx_Height c = 25 ∧ Block_ParentHash block ≠ Block_Hash (cx_parent c) ∧
  ∃ c', handleProposalBlock world proposal "peer" c = Done None c' ∧
    is_Some (getProposalBlock c' (Block_Hash block)).
Proof.
  unfold accepts. generalize (Block_Hash block) (Block_ParentHash block). intros h p.
  rewrite !andb_true_iff, negb_true_iff, Z.eqb_eq, Z.eqb_neq. intros [[H1 H2] H3].
  split; [exact H1|]. split; [exact H2|].
  destruct (handleProposalBlock _ _ _ c) as [[|] c'| |]; try discriminate H3.
  exists c'. split; [reflexivity|]. destruct (getProposalBlock c' _); [eexists; reflexivity|discriminate H3].
Qed.
End Foreign.

Theorem foreign_block_accepted :
  reachable (after 4) ∧ Block_NumberU64 Foreign.block = 10 ∧
  cx_Height (after 4) = 25 ∧ Block_ParentHash Foreign.block ≠ Block_Hash (cx_parent (after 4)) ∧
  ∃ c', handleProposalBlock Foreign.world Foreign.proposal "peer" (after 4) = Done None c' ∧
    is_Some (getProposalBlock c' (Block_Hash Foreign.block)).
Proof.
  destruct (after_step 4 _ _ eq_refl) as (R & _). split; [exact R|]. split; [reflexivity|].
  apply Foreign.accepts_spec. vm_compute. reflexivity.
Qed.
