(* ===== verification/TrieEncoding.v ===== *)
(** * TrieEncoding: the three encodings of trie keys

    src/trie/encoding.go: KEYBYTES is the key itself, HEX has one element for each
    nibble and the terminator 16, COMPACT packs two nibbles into a byte behind a flag
    byte.  [None] is a panic. *)

From S2P Require Import Prelude Bytes.

Local Open Scope Z_scope.

(** [hasTerm] *)
Definition hasTerm (s : bytes) : bool :=
  match last s with Some x => x =? 16 | None => false end.

(** [decodeNibbles]: the bytes two nibbles give; an odd nibble is read beyond the
    slice. *)
Fixpoint decodeNibbles (nibbles : bytes) : option bytes :=
  match nibbles with
  | [] => Some []
  | [_] => None
  | hi :: lo :: nibbles =>
      l ← decodeNibbles nibbles; Some (Z.lor (Z.land (Z.shiftl hi 4) 255) lo :: l)
  end.

Definition keybytesToHex (str : bytes) : bytes :=
  flat_map (λ b, [b `div` 16; b `mod` 16]) str ++ [16].

Definition hexToKeybytes (hex : bytes) : option bytes :=
  let hex := if hasTerm hex then removelast hex else hex in
  if Nat.odd (length hex) then None else decodeNibbles hex.

Definition hexToCompact (hex : bytes) : option bytes :=
  let '(terminator, hex) := if hasTerm hex then (1, removelast hex) else (0, hex) in
  let flag := Z.land (Z.shiftl terminator 5) 255 in
  let '(flag, hex) :=
    if Nat.odd (length hex) then
      match hex with
      | first :: hex => (Z.lor (Z.lor flag 16) first, hex)
      | [] => (flag, hex)
      end
    else (flag, hex) in
  l ← decodeNibbles hex; Some (flag :: l).

Definition compactToHex (compact : bytes) : bytes :=
  match compact with
  | [] => compact
  | _ =>
      let base := keybytesToHex compact in
      let first := match base with x :: _ => x | [] => 0 end in
      let base := if first <? 2 then removelast base else base in
      drop (Z.to_nat (2 - Z.land first 1)) base
  end.

(** [prefixLen] *)
Fixpoint prefixLen (a b : bytes) : nat :=
  match a, b with
  | x :: a, y :: b => if x =? y then S (prefixLen a b) else O
  | _, _ => O
  end.

(** ** Keys *)

Definition nibble (x : Z) : Prop := 0 ≤ x < 16.

(** HEX keys: nibbles, with or without the terminator. *)
Definition nibbles_ok (hex : bytes) : Prop := Forall nibble hex.
Definition hex_ok (hex : bytes) : Prop :=
  nibbles_ok hex ∨ ∃ h, hex = h ++ [16] ∧ nibbles_ok h.

Lemma hasTerm_snoc h x : hasTerm (h ++ [x]) = (x =? 16).
Proof. unfold hasTerm. by rewrite last_snoc. Qed.

Lemma removelast_snoc (h : bytes) x : removelast (h ++ [x]) = h.
Proof. apply removelast_last. Qed.

Lemma hasTerm_nibbles h : nibbles_ok h → hasTerm h = false.
Proof.
  intros H. unfold hasTerm. destruct (last h) as [x|] eqn:E; [|done].
  apply last_Some_elem_of in E. unfold nibbles_ok in H. rewrite Forall_forall in H.
  destruct (H x E). apply Z.eqb_neq. lia.
Qed.

(** Pairs of nibbles and bytes. *)
Lemma pack_nibbles hi lo : nibble hi → nibble lo → Z.lor (Z.land (Z.shiftl hi 4) 255) lo = hi * 16 + lo.
Proof.
  intros Hhi Hlo.
  assert (forallb (λ hi, forallb (λ lo, Z.lor (Z.land (Z.shiftl hi 4) 255) lo =? hi * 16 + lo) (seqZ 0 16)) (seqZ 0 16) = true) as H by reflexivity.
  rewrite forallb_forall in H. specialize (H hi). rewrite forallb_forall in H.
  apply Z.eqb_eq, H; apply list_elem_of_In, elem_of_seqZ; unfold nibble in *; lia.
Qed.

Lemma flag_odd hi x : nibble x → hi = 0 ∨ hi = 32 → Z.lor (Z.lor hi 16) x = hi + 16 + x.
Proof.
  intros Hx Hhi.
  assert (forallb (λ x, (Z.lor (Z.lor 0 16) x =? 0 + 16 + x) && (Z.lor (Z.lor 32 16) x =? 32 + 16 + x)) (seqZ 0 16) = true) as H by reflexivity.
  rewrite forallb_forall in H. specialize (H x).
  rewrite andb_true_iff, !Z.eqb_eq in H. destruct H; [apply list_elem_of_In, elem_of_seqZ; unfold nibble in *; lia|].
  by destruct Hhi as [->| ->].
Qed.

Lemma two_ind {A : Type} (P : list A → Prop) :
  P [] → (∀ x y l, P l → P (x :: y :: l)) → ∀ l, Nat.even (length l) = true → P l.
Proof.
  intros H0 H2. fix IH 1. intros [|x [|y l]]; [done|done|]. cbn. intros H. apply H2. by apply IH.
Qed.

(** Nibbles packed and unpacked. *)
Lemma decodeNibbles_keybytes h :
  nibbles_ok h → Nat.even (length h) = true →
  ∃ l, decodeNibbles h = Some l ∧ flat_map (λ b, [b `div` 16; b `mod` 16]) l = h ∧ Forall byte_ok l.
Proof.
  intros H He. revert h He H. apply (two_ind (λ h, nibbles_ok h → _)); [by exists []|].
  intros x y h IH (Hx & Hy & H)%Forall_cons_1%(λ H, conj (proj1 H) (Forall_cons_1 _ _ _ (proj2 H))).
  destruct (IH H) as (l & E & F & Ok). cbn [decodeNibbles]. rewrite E, pack_nibbles by done. eexists.
  split; [done|]. unfold nibble in *. cbn [flat_map]. rewrite F. cbn [app]. split.
  - rewrite Z.div_add_l, Z.div_small, Z.add_0_r by lia. by rewrite Z.add_comm, Z.mod_add, Z.mod_small by lia.
  - constructor; [|done]. unfold byte_ok. lia.
Qed.

Lemma byte_nibbles b : byte_ok b → nibble (b `div` 16) ∧ nibble (b `mod` 16) ∧ b `div` 16 * 16 + b `mod` 16 = b.
Proof. unfold byte_ok, nibble. intros H. Z.to_euclidean_division_equations. lia. Qed.

Lemma decodeNibbles_unpacked l :
  Forall byte_ok l → decodeNibbles (flat_map (λ b, [b `div` 16; b `mod` 16]) l) = Some l.
Proof.
  induction 1 as [|b l Hb _ IH]; [done|]. cbn [flat_map app decodeNibbles]. rewrite IH.
  destruct (byte_nibbles b Hb) as (? & ? & E). rewrite pack_nibbles by done. cbn. by rewrite E.
Qed.

Lemma unpacked_nibbles l : Forall byte_ok l → nibbles_ok (flat_map (λ b, [b `div` 16; b `mod` 16]) l).
Proof.
  induction 1 as [|b l Hb _ IH]; [constructor|]. destruct (byte_nibbles b Hb) as (? & ? & _).
  cbn [flat_map app]. unfold nibbles_ok. by rewrite !Forall_cons.
Qed.

Lemma unpacked_even (l : bytes) : Nat.odd (length (flat_map (λ b, [b `div` 16; b `mod` 16]) l)) = false.
Proof. induction l; [done|]. by cbn. Qed.

(** The KEYBYTES and HEX encodings: every key comes back, and the HEX form of a
    key is nibbles with the terminator at the end and nowhere else. *)
Theorem keybytes_roundtrip key :
  Forall byte_ok key →
  hexToKeybytes (keybytesToHex key) = Some key ∧
  ∃ h, keybytesToHex key = h ++ [16] ∧ nibbles_ok h ∧ length h = (2 * length key)%nat.
Proof.
  intros Hk. unfold hexToKeybytes, keybytesToHex. rewrite hasTerm_snoc, Z.eqb_refl, removelast_snoc, unpacked_even. split.
  - by apply decodeNibbles_unpacked.
  - eexists. split; [done|]. split; [by apply unpacked_nibbles|]. clear. induction key; cbn; lia.
Qed.

(** Packing an even number of nibbles behind a flag byte whose high nibble is [hi]. *)
Lemma unpack_flag hi lo l h :
  nibble hi → nibble lo → flat_map (λ b, [b `div` 16; b `mod` 16]) l = h →
  keybytesToHex (hi * 16 + lo :: l) = hi :: lo :: h ++ [16].
Proof.
  intros [? ?] [? ?] <-. unfold keybytesToHex. cbn [flat_map app].
  rewrite Z.div_add_l, Z.div_small, Z.add_0_r by lia. by rewrite Z.add_comm, Z.mod_add, Z.mod_small by lia.
Qed.

Lemma even_odd (h : bytes) : Nat.odd (length h) = false → Nat.even (length h) = true.
Proof. rewrite <- Nat.negb_even. by destruct (Nat.even (length h)). Qed.

Lemma compact_flagged term h :
  nibbles_ok h → term = 0 ∨ term = 1 →
  ∃ c, (let flag := Z.land (Z.shiftl term 5) 255 in
        let '(flag, hex) :=
          if Nat.odd (length h) then
            match h with first :: hex => (Z.lor (Z.lor flag 16) first, hex) | [] => (flag, h) end
          else (flag, h) in
        l ← decodeNibbles hex; Some (flag :: l)) = Some c ∧
    c ≠ [] ∧ compactToHex c = h ++ (if term =? 1 then [16] else []).
Proof.
  intros H Ht. assert (Z.land (Z.shiftl term 5) 255 = term * 32) as -> by (by destruct Ht as [-> | ->]).
  destruct (Nat.odd (length h)) eqn:Eo; cbn zeta.
  - destruct h as [|x h]; [done|]. apply Forall_cons in H as [Hx H]. rewrite flag_odd by (done || lia).
    destruct (decodeNibbles_keybytes h H) as (l & -> & F & _); [by rewrite <- Nat.odd_succ|].
    eexists. split; [done|]. split; [done|]. unfold compactToHex.
    replace (term * 32 + 16 + x) with ((2 * term + 1) * 16 + x) by lia.
    rewrite (unpack_flag (2 * term + 1) x l h) by (done || unfold nibble in *; lia).
    destruct Ht as [-> | ->]; [|done].
    change (drop 1 (removelast ((1 :: x :: h) ++ [16])) = x :: h ++ []). by rewrite removelast_snoc, app_nil_r.
  - destruct (decodeNibbles_keybytes h H) as (l & -> & F & _); [by apply even_odd|].
    eexists. split; [done|]. split; [done|]. unfold compactToHex.
    replace (term * 32) with ((2 * term) * 16 + 0) by lia.
    rewrite (unpack_flag (2 * term) 0 l h) by (done || unfold nibble in *; lia).
    destruct Ht as [-> | ->]; [|done].
    change (drop 2 (removelast ((0 :: 0 :: h) ++ [16])) = h ++ []). by rewrite removelast_snoc, app_nil_r.
Qed.

(** The COMPACT encoding of a HEX key, with or without the terminator, does not
    panic and gives the key back. *)
Theorem compact_roundtrip hex :
  hex_ok hex → ∃ c, hexToCompact hex = Some c ∧ c ≠ [] ∧ compactToHex c = hex.
Proof.
  intros [H|(h & -> & H)]; unfold hexToCompact.
  - rewrite hasTerm_nibbles by done. destruct (compact_flagged 0 hex H) as (c & E & Hc & Ec); [by left|].
    exists c. split; [exact E|]. split; [done|]. by rewrite Ec, app_nil_r.
  - rewrite hasTerm_snoc, Z.eqb_refl, removelast_snoc. destruct (compact_flagged 1 h H) as (c & E & Hc & Ec); [by right|].
    by exists c.
Qed.

Lemma keybytes_roundtrip_witness :
  hexToKeybytes (keybytesToHex [0; 18; 255]) = Some [0; 18; 255] ∧
  ∃ h, keybytesToHex [0; 18; 255] = h ++ [16] ∧ nibbles_ok h ∧ length h = (2 * length [0; 18; 255])%nat.
Proof. apply (keybytes_roundtrip [0; 18; 255]). repeat constructor; unfold byte_ok; lia. Defined.

Lemma compact_roundtrip_witness :
  ∃ c, hexToCompact [1; 2; 3; 16] = Some c ∧ c ≠ [] ∧ compactToHex c = [1; 2; 3; 16].
Proof.
  apply (compact_roundtrip [1; 2; 3; 16]). right. exists [1; 2; 3]. split; [reflexivity|].
  repeat constructor; unfold nibble; lia.
Defined.
