(* ===== verification/Trie.v ===== *)
(** * Trie: the Merkle Patricia trie in memory

    The nodes of src/trie/node.go and the operations of src/trie/trie.go on them.  A
    node that is not loaded is a [hashNode]; the database resolves it.  The walks are
    recursive on nodes that the database may supply, so they have fuel; without it, as
    on a panic, the outcome is [Crash]. *)

From S2P Require Import Prelude Bytes TrieEncoding.

Local Open Scope Z_scope.

(** [nodeFlag] *)
Record nodeFlag := mkFlag {
  nf_hash : option bytes;     (* cached hash, or nil *)
  nf_gen : Z;                 (* uint16 *)
  nf_dirty : bool
}.

(** [node]; nil is [None]. *)
Inductive node :=
| fullNode (Children : list (option node)) (flags : nodeFlag)
| shortNode (Key : bytes) (Val : option node) (flags : nodeFlag)
| hashNode (h : bytes)
| valueNode (v : bytes).

(** The result of a walk: a value, a [MissingNodeError], a panic. *)
Inductive outcome (A : Type) :=
| Ret (a : A)
| MissingNode (hash : Hash) (path : bytes)
| Crash.
#[global] Arguments Ret {A} a.
#[global] Arguments MissingNode {A} hash path.
#[global] Arguments Crash {A}.

#[global] Instance outcome_bind : MBind outcome := λ A B f m,
  match m with Ret a => f a | MissingNode h p => MissingNode h p | Crash => Crash end.

(** An index out of range is a panic. *)
Definition at_index {A : Type} (l : list A) (i : Z) : outcome A :=
  if i <? 0 then Crash else match l !! Z.to_nat i with Some x => Ret x | None => Crash end.
Definition put_index {A : Type} (l : list A) (i : Z) (x : A) : outcome (list A) :=
  if (0 <=? i) && (i <? Z.of_nat (length l)) then Ret (<[Z.to_nat i := x]> l) else Crash.

Section trie.
(** [Database.node]: the node of a hash, with the generation it is tagged with. *)
Context (db_node : Hash → Z → option node) (cachegen : Z).

Definition newFlag : nodeFlag := mkFlag None cachegen true.

Definition resolveHash (n : bytes) (prefix : bytes) : outcome node :=
  let hash := BytesToHash n in
  match db_node hash cachegen with
  | Some n => Ret n
  | None => MissingNode hash prefix
  end.

Definition resolve (n : option node) (prefix : bytes) : outcome (option node) :=
  match n with
  | Some (hashNode h) => n ← resolveHash h prefix; Ret (Some n)
  | _ => Ret n
  end.

(** [tryGet]: the value, the node with what was loaded, and whether any was. *)
Fixpoint tryGet (fuel : nat) (origNode : option node) (key : bytes) (pos : nat) :
    outcome (bytes * option node * bool) :=
  match fuel with
  | O => Crash
  | S fuel =>
      match origNode with
      | None => Ret ([], None, false)
      | Some (valueNode v) => Ret (v, origNode, false)
      | Some (shortNode nKey nVal flags) =>
          if (length key - pos <? length nKey)%nat ||
             negb (bool_decide (nKey = take (length nKey) (drop pos key)))
          then Ret ([], origNode, false)
          else
            '(value, newnode, didResolve) ← tryGet fuel nVal key (pos + length nKey);
            if (didResolve : bool) then
              Ret (value, Some (shortNode nKey newnode (mkFlag (nf_hash flags) cachegen (nf_dirty flags))), true)
            else Ret (value, origNode, false)
      | Some (fullNode children flags) =>
          match key !! pos with
          | None => Crash
          | Some i =>
              child ← at_index children i;
              '(value, newnode, didResolve) ← tryGet fuel child key (S pos);
              if (didResolve : bool) then
                children ← put_index children i newnode;
                Ret (value, Some (fullNode children (mkFlag (nf_hash flags) cachegen (nf_dirty flags))), true)
              else Ret (value, origNode, false)
          end
      | Some (hashNode h) =>
          child ← resolveHash h (take pos key);
          '(value, newnode, _) ← tryGet fuel (Some child) key pos;
          Ret (value, newnode, true)
      end
  end.

(** [insert]: whether the node changed, and the new node. *)
Fixpoint insert (fuel : nat) (n : option node) (prefix key : bytes) (value : option node) :
    outcome (bool * option node) :=
  match fuel with
  | O => Crash
  | S fuel =>
      match key with
      | [] =>
          match n with
          | Some (valueNode v) =>
              match value with
              | Some (valueNode v') => Ret (negb (bool_decide (v = v')), value)
              | _ => Crash
              end
          | _ => Ret (true, value)
          end
      | k0 :: krest =>
          match n with
          | Some (shortNode nKey nVal flags) =>
              let matchlen := prefixLen key nKey in
              if (matchlen =? length nKey)%nat then
                '(dirty, nn) ← insert fuel nVal (prefix ++ take matchlen key) (drop matchlen key) value;
                if negb dirty then Ret (false, n)
                else Ret (true, Some (shortNode nKey nn newFlag))
              else
                match nKey !! matchlen, key !! matchlen with
                | Some i, Some j =>
                    '(_, c) ← insert fuel None (prefix ++ take (S matchlen) nKey) (drop (S matchlen) nKey) nVal;
                    children ← put_index (replicate 17 None) i c;
                    '(_, c) ← insert fuel None (prefix ++ take (S matchlen) key) (drop (S matchlen) key) value;
                    children ← put_index children j c;
                    let branch := fullNode children newFlag in
                    if (matchlen =? 0)%nat then Ret (true, Some branch)
                    else Ret (true, Some (shortNode (take matchlen key) (Some branch) newFlag))
                | _, _ => Crash
                end
          | Some (fullNode children flags) =>
              child ← at_index children k0;
              '(dirty, nn) ← insert fuel child (prefix ++ [k0]) krest value;
              if negb dirty then Ret (false, n)
              else
                children ← put_index children k0 nn;
                Ret (true, Some (fullNode children newFlag))
          | None => Ret (true, Some (shortNode key value newFlag))
          | Some (hashNode h) =>
              rn ← resolveHash h prefix;
              '(dirty, nn) ← insert fuel (Some rn) prefix key value;
              if negb dirty then Ret (false, Some rn) else Ret (true, nn)
          | Some (valueNode _) => Crash
          end
      end
  end.

(** The loop of [delete] over the children that are left: the index of the only one,
    [-1] for none and [-2] for more. *)
Fixpoint onlyChild (i pos : Z) (children : list (option node)) : Z :=
  match children with
  | [] => pos
  | None :: children => onlyChild (i + 1) pos children
  | Some _ :: children => if pos =? -1 then onlyChild (i + 1) i children else -2
  end.

(** [delete]: it reduces the trie to minimal form on the way up. *)
Fixpoint delete (fuel : nat) (n : option node) (prefix key : bytes) : outcome (bool * option node) :=
  match fuel with
  | O => Crash
  | S fuel =>
      match n with
      | Some (shortNode nKey nVal flags) =>
          let matchlen := prefixLen key nKey in
          if (matchlen <? length nKey)%nat then Ret (false, n)
          else if (matchlen =? length key)%nat then Ret (true, None)
          else
            '(dirty, child) ← delete fuel nVal (prefix ++ take (length nKey) key) (drop (length nKey) key);
            if negb dirty then Ret (false, n)
            else
              match child with
              | Some (shortNode cKey cVal _) => Ret (true, Some (shortNode (nKey ++ cKey) cVal newFlag))
              | _ => Ret (true, Some (shortNode nKey child newFlag))
              end
      | Some (fullNode children flags) =>
          match key with
          | [] => Crash
          | k0 :: krest =>
              child ← at_index children k0;
              '(dirty, nn) ← delete fuel child (prefix ++ [k0]) krest;
              if negb dirty then Ret (false, n)
              else
                children ← put_index children k0 nn;
                let pos := onlyChild 0 (-1) children in
                if 0 <=? pos then
                  c ← at_index children pos;
                  if negb (pos =? 16) then
                    cnode ← resolve c prefix;
                    match cnode with
                    | Some (shortNode cKey cVal _) => Ret (true, Some (shortNode (pos :: cKey) cVal newFlag))
                    | _ => Ret (true, Some (shortNode [pos] c newFlag))
                    end
                  else Ret (true, Some (shortNode [pos] c newFlag))
                else Ret (true, Some (fullNode children newFlag))
          end
      | Some (valueNode _) => Ret (true, None)
      | None => Ret (false, None)
      | Some (hashNode h) =>
          rn ← resolveHash h prefix;
          '(dirty, nn) ← delete fuel (Some rn) prefix key;
          if negb dirty then Ret (false, Some rn) else Ret (true, nn)
      end
  end.

(** The methods of [Trie] on its root; the new root is part of the result. *)
Definition TryGet (fuel : nat) (root : option node) (key : bytes) : outcome (bytes * option node) :=
  '(value, newroot, didResolve) ← tryGet fuel root (keybytesToHex key) 0;
  Ret (value, if (didResolve : bool) then newroot else root).

Definition TryDelete (fuel : nat) (root : option node) (key : bytes) : outcome (option node) :=
  '(_, n) ← delete fuel root [] (keybytesToHex key); Ret n.

Definition TryUpdate (fuel : nat) (root : option node) (key value : bytes) : outcome (option node) :=
  let k := keybytesToHex key in
  '(_, n) ← (match value with
             | [] => delete fuel root [] k
             | _ => insert fuel root [] k (Some (valueNode value))
             end);
  Ret n.
End trie.
