(* ===== verification/TrieTree.v ===== *)
(** * TrieTree: what a trie stores

    The trees behind the nodes: everything loaded, no flags.  Reading, inserting and
    deleting as the walks of src/trie/trie.go do them, by recursion on the tree; that
    they are the operations of a map; and that a tree in minimal form is determined by
    the map it stores. *)

From S2P Require Import Prelude Bytes TrieEncoding.

Local Open Scope Z_scope.

Inductive tree :=
| TNil
| TVal (v : bytes)
| TShort (k : bytes) (t : tree)
| TFull (ch : list tree).

(** Induction over a tree and its children. *)
Section tree_ind.
Context (P : tree → Prop).
Hypothesis HNil : P TNil.
Hypothesis HVal : ∀ v, P (TVal v).
Hypothesis HShort : ∀ k t, P t → P (TShort k t).
Hypothesis HFull : ∀ ch, Forall P ch → P (TFull ch).

Fixpoint tree_rec' (t : tree) : P t :=
  match t with
  | TNil => HNil
  | TVal v => HVal v
  | TShort k t => HShort k t (tree_rec' t)
  | TFull ch => HFull ch ((fix go l : Forall P l :=
      match l with [] => Forall_nil_2 P | x :: l => Forall_cons_2 P x l (tree_rec' x) (go l) end) ch)
  end.
End tree_ind.

Definition is_nil (t : tree) : bool := match t with TNil => true | _ => false end.
#[global] Instance is_nil_dec t : Decision (t = TNil).
Proof. by destruct t; (left; reflexivity) || (right; discriminate). Defined.
Definition child (ch : list tree) (i : Z) : tree := default TNil (ch !! Z.to_nat i).
Definition leaf (k : bytes) (t : tree) : tree := match k with [] => t | _ => TShort k t end.

(** ** The operations *)

(** Does [k] start with [p], and what is left? *)
Fixpoint strip (p k : bytes) : option bytes :=
  match p, k with
  | [], _ => Some k
  | x :: p, y :: k => if x =? y then strip p k else None
  | _, _ => None
  end.

Fixpoint tget (t : tree) (k : bytes) : bytes :=
  match t with
  | TNil => []
  | TVal v => v
  | TShort p t => match strip p k with Some k => tget t k | None => [] end
  | TFull ch => match k with
                | i :: k => (fix go l n := match l, n with
                                           | t :: _, O => tget t k
                                           | _ :: l, S n => go l n
                                           | [], _ => []
                                           end) ch (Z.to_nat i)
                | [] => []
                end
  end.

(** Two keys that part after [m] elements. *)
Definition branch (k : bytes) (t : tree) (k' : bytes) (t' : tree) : tree :=
  let put i t ch := <[Z.to_nat i := t]> ch in
  match k, k' with
  | i :: k, j :: k' => TFull (put j (leaf k' t') (put i (leaf k t) (replicate 17 TNil)))
  | _, _ => TNil
  end.

Fixpoint tinsert (t : tree) (k : bytes) (v : bytes) : tree :=
  match k with
  | [] => TVal v
  | _ =>
      match t with
      | TNil => TShort k (TVal v)
      | TVal _ => t
      | TShort p t' =>
          let m := prefixLen k p in
          if (m =? length p)%nat then TShort p (tinsert t' (drop m k) v)
          else leaf (take m k) (branch (drop m p) t' (drop m k) (TVal v))
      | TFull ch =>
          match k with
          | i :: k => TFull ((fix go l n := match l, n with
                                            | t :: l, O => tinsert t k v :: l
                                            | t :: l, S n => t :: go l n
                                            | [], _ => []
                                            end) ch (Z.to_nat i))
          | [] => t
          end
      end
  end.

(** A short node above a subtree that may have become short itself. *)
Definition join (p : bytes) (t : tree) : tree :=
  match t with TShort q t => TShort (p ++ q) t | _ => TShort p t end.

(** The children that are left: the index of the only one. *)
Fixpoint only (i : Z) (ch : list tree) : option Z :=
  match ch with
  | [] => None
  | t :: ch => if is_nil t then only (i + 1) ch else if forallb is_nil ch then Some i else None
  end.

Definition shrink (ch : list tree) : tree :=
  match only 0 ch with
  | Some i => if i =? 16 then TShort [i] (child ch i) else join [i] (child ch i)
  | None => TFull ch
  end.

Fixpoint tdelete (t : tree) (k : bytes) : tree :=
  match t with
  | TNil => TNil
  | TVal _ => TNil
  | TShort p t' =>
      match strip p k with
      | None => t
      | Some [] => TNil
      | Some k' => if bool_decide (tget t' k' = []) then t else join p (tdelete t' k')
      end
  | TFull ch =>
      match k with
      | i :: k =>
          if bool_decide (tget (child ch i) k = []) then t
          else shrink ((fix go l n := match l, n with
                                      | t :: l, O => tdelete t k :: l
                                      | t :: l, S n => t :: go l n
                                      | [], _ => []
                                      end) ch (Z.to_nat i))
      | [] => t
      end
  end.

(** ** Equations *)

Lemma tget_full ch i k : tget (TFull ch) (i :: k) = tget (child ch i) k.
Proof.
  cbn [tget]. unfold child. generalize (Z.to_nat i). intros n. revert n.
  induction ch as [|t ch IH]; intros [|n]; done || apply IH.
Qed.

Lemma tget_short p t k : tget (TShort p t) k = match strip p k with Some k => tget t k | None => [] end.
Proof. done. Qed.

Lemma tinsert_full ch i k v :
  tinsert (TFull ch) (i :: k) v = TFull (alter (λ t, tinsert t k v) (Z.to_nat i) ch).
Proof.
  cbn [tinsert]. f_equal. generalize (Z.to_nat i). intros n. revert n.
  induction ch as [|t ch IH]; intros [|n]; [done..|]. change (alter ?f (S n) (t :: ch)) with (t :: alter f n ch).
  f_equal. apply IH.
Qed.

Lemma tdelete_full ch i k :
  tdelete (TFull ch) (i :: k) =
    if bool_decide (tget (child ch i) k = []) then TFull ch
    else shrink (alter (λ t, tdelete t k) (Z.to_nat i) ch).
Proof.
  cbn [tdelete]. case_bool_decide as E; [done|]. clear E. f_equal. generalize (Z.to_nat i). intros n. revert n.
  induction ch as [|t ch IH]; intros [|n]; [done..|]. change (alter ?f (S n) (t :: ch)) with (t :: alter f n ch).
  f_equal. apply IH.
Qed.

(** ** Keys *)

(** A whole HEX key: nibbles and the terminator. *)
Inductive key_ok : bytes → Prop :=
| key_end : key_ok [16]
| key_nibble x k : nibble x → key_ok k → key_ok (x :: k).

Lemma key_ok_hex h : nibbles_ok h → key_ok (h ++ [16]).
Proof. induction 1; [constructor|]. by constructor. Qed.

Lemma key_ok_cons x k : key_ok (x :: k) → (x = 16 ∧ k = []) ∨ (nibble x ∧ key_ok k).
Proof. inversion 1; subst; auto. Qed.

Lemma key_ok_app p k : key_ok (p ++ k) → k ≠ [] → key_ok k ∧ nibbles_ok p.
Proof.
  induction p as [|x p IH]; cbn; intros H Hk; [split; [done|constructor]|].
  apply key_ok_cons in H as [[_ E]|[Hx H]].
  - apply app_eq_nil in E as [_ E]. done.
  - destruct (IH H Hk). split; [done|]. by constructor.
Qed.

Lemma key_ok_app_2 p k : nibbles_ok p → key_ok k → key_ok (p ++ k).
Proof. induction 1; [done|]. intros. cbn. constructor; auto. Qed.

Lemma key_ok_not_nibbles p : key_ok p → nibbles_ok p → False.
Proof.
  induction 1 as [|x k Hx _ IH]; intros H; apply Forall_cons in H as [H1 H2]; [unfold nibble in H1; lia|auto].
Qed.

(** No key is a proper prefix of another. *)
Lemma key_ok_prefix p r : key_ok p → key_ok (p ++ r) → r = [].
Proof.
  intros Hp H. destruct r as [|x r]; [done|]. destruct (key_ok_app p (x :: r) H) as [_ Hn]; [done|].
  by destruct (key_ok_not_nibbles p Hp Hn).
Qed.

Lemma key_ok_head x k : key_ok (x :: k) → 0 <= x <= 16.
Proof. intros [[-> _]|[[? ?] _]]%key_ok_cons; lia. Qed.

(** ** Prefixes *)

Lemma strip_Some p k r : strip p k = Some r ↔ k = p ++ r.
Proof.
  revert k. induction p as [|x p IH]; intros k; cbn; [split; congruence|].
  destruct k as [|y k]; [done|]. destruct (Z.eqb_spec x y) as [->|Hn]; [rewrite IH; split; congruence|].
  split; [done|congruence].
Qed.

Lemma strip_app p r : strip p (p ++ r) = Some r.
Proof. by apply strip_Some. Qed.

Lemma strip_None p k : strip p k = None ↔ ∀ r, k ≠ p ++ r.
Proof.
  destruct (strip p k) as [r|] eqn:E.
  - apply strip_Some in E. split; [done|]. intros H. by destruct (H r).
  - split; [|done]. intros _ r Hr. apply strip_Some in Hr. congruence.
Qed.

Lemma strip_app_l p q k : strip (p ++ q) k = match strip p k with Some k => strip q k | None => None end.
Proof.
  revert k. induction p as [|x p IH]; intros k; [done|]. destruct k as [|y k]; [done|]. cbn.
  destruct (x =? y); [apply IH|done].
Qed.

(** Two keys, the second one parting from the first. *)
Lemma prefixLen_split k p :
  ∃ c k' p', k = c ++ k' ∧ p = c ++ p' ∧ prefixLen k p = length c ∧
    match k', p' with x :: _, y :: _ => x ≠ y | _, _ => True end.
Proof.
  revert p. induction k as [|x k IH]; intros p; [by exists [], [], p|].
  destruct p as [|y p]; [by exists [], (x :: k), []|]. cbn. destruct (Z.eqb_spec x y) as [->|Hn].
  - destruct (IH p) as (c & k' & p' & -> & -> & -> & H). by exists (y :: c), k', p'.
  - by exists [], (x :: k), (y :: p).
Qed.

(** ** Minimal form *)

(** A subtree that stores something, above the terminator of its keys. *)
Inductive wft : tree → Prop :=
| wft_leaf k v : key_ok k → v ≠ [] → wft (TShort k (TVal v))
| wft_ext k ch : k ≠ [] → nibbles_ok k → wft (TFull ch) → wft (TShort k (TFull ch))
| wft_full ch :
    length ch = 17%nat →
    (∀ i, nibble i → child ch i ≠ TNil → wft (child ch i)) →
    (child ch 16 ≠ TNil → ∃ v, v ≠ [] ∧ child ch 16 = TVal v) →
    (∃ i j, 0 <= i <= 16 ∧ 0 <= j <= 16 ∧ i ≠ j ∧ child ch i ≠ TNil ∧ child ch j ≠ TNil) →
    wft (TFull ch).

Definition wfo (t : tree) : Prop := t = TNil ∨ wft t.

Lemma wft_not_nil t : wft t → t ≠ TNil.
Proof. by destruct 1. Qed.

(** Every child that is not nil stores something under a key that starts with it. *)
Lemma child_stores ch i :
  (∀ t, t ≠ TNil → wft t → t ∈ ch → ∃ k, key_ok k ∧ tget t k ≠ []) →
  wft (TFull ch) → 0 <= i <= 16 → child ch i ≠ TNil → ∃ k, key_ok (i :: k) ∧ tget (child ch i) k ≠ [].
Proof.
  intros IH Hw Hi Hc. inversion Hw as [| |? Hl Hch H16 _]; subst. destruct (decide (i = 16)) as [->|].
  - destruct (H16 Hc) as (v & Hv & E). exists []. split; [constructor|]. by rewrite E.
  - assert (nibble i) as Hn by (unfold nibble; lia). destruct (IH (child ch i) Hc) as (k & Hk & Hg).
    + by apply Hch.
    + unfold child in *. destruct (ch !! Z.to_nat i) eqn:E; [|done]. by eapply list_elem_of_lookup_2.
    + exists k. split; [by constructor|done].
Qed.

Lemma wft_stores t : wft t → ∃ k, key_ok k ∧ tget t k ≠ [].
Proof.
  induction t as [|v|p t IH|ch IH] using tree_rec'; intros Hw; [inversion Hw|inversion Hw|..].
  - inversion Hw as [? v Hk Hv|? ch Hne Hn Hf|]; subst.
    + exists p. split; [done|]. cbn. rewrite <- (app_nil_r p) at 2. by rewrite strip_app.
    + destruct (IH Hf) as (k & Hk & Hg). exists (p ++ k). split; [by apply key_ok_app_2|].
      cbn [tget]. by rewrite strip_app.
  - inversion Hw as [| |? _ _ _ (i & j & Hi & _ & _ & Hc & _)]; subst.
    destruct (child_stores ch i) as (k & Hk & Hg); try done.
    + intros t _ Ht Hin. rewrite Forall_forall in IH. by apply IH.
    + exists (i :: k). by rewrite tget_full.
Qed.

(** A full node stores something under two keys that start differently. *)
Lemma full_stores ch : wft (TFull ch) →
  ∃ i j k k', i ≠ j ∧ key_ok (i :: k) ∧ key_ok (j :: k') ∧ tget (TFull ch) (i :: k) ≠ [] ∧ tget (TFull ch) (j :: k') ≠ [].
Proof.
  intros Hw. inversion Hw as [| |? _ _ _ (i & j & Hi & Hj & Hn & Hci & Hcj)]; subst.
  destruct (child_stores ch i) as (k & Hk & Hg); try done; [intros; by apply wft_stores|].
  destruct (child_stores ch j) as (k' & Hk' & Hg'); try done; [intros; by apply wft_stores|].
  exists i, j, k, k'. by rewrite !tget_full.
Qed.

(** ** Children *)

Lemma child_insert ch i j t :
  (Z.to_nat i < length ch)%nat → 0 <= i → 0 <= j →
  child (<[Z.to_nat i := t]> ch) j = if decide (j = i) then t else child ch j.
Proof.
  intros Hl Hi Hj. unfold child. destruct (decide (j = i)) as [->|Hn].
  - by rewrite list_lookup_insert_eq.
  - by rewrite list_lookup_insert_ne by lia.
Qed.

Lemma child_alter ch i j f :
  (Z.to_nat i < length ch)%nat → 0 <= i → 0 <= j →
  child (alter f (Z.to_nat i) ch) j = if decide (j = i) then f (child ch i) else child ch j.
Proof.
  intros Hl Hi Hj. unfold child. destruct (decide (j = i)) as [->|Hn].
  - rewrite list_lookup_alter_eq. destruct (lookup_lt_is_Some_2 ch (Z.to_nat i) Hl) as [x ->]. done.
  - by rewrite list_lookup_alter_ne by lia.
Qed.

Lemma child_empty i : child (replicate 17 TNil) i = TNil.
Proof.
  unfold child. destruct (replicate 17 TNil !! Z.to_nat i) as [t|] eqn:E; [|done].
  by apply lookup_replicate in E as [-> _].
Qed.

Lemma child_ext ch ch' :
  length ch = 17%nat → length ch' = 17%nat → (∀ i, 0 <= i <= 16 → child ch i = child ch' i) → ch = ch'.
Proof.
  intros H1 H2 H. apply list_eq_same_length with (n := 17%nat); [done|done|]. intros n x y Hn Hx Hy.
  specialize (H (Z.of_nat n)). unfold child in H. rewrite Nat2Z.id, Hx, Hy in H. apply H. lia.
Qed.

(** ** A leaf and a branch *)

Lemma tget_leaf k t k' :
  tget (leaf k t) k' = match strip k k' with Some r => tget t r | None => [] end.
Proof. by destruct k. Qed.

(** What a subtree may hang under: a value below the terminator, or a full node. *)
Definition below (k : bytes) (t : tree) : Prop :=
  (key_ok k ∧ ∃ v, v ≠ [] ∧ t = TVal v) ∨ (nibbles_ok k ∧ wft t ∧ ∃ ch, t = TFull ch).

Lemma wft_below k t : wft (TShort k t) → below k t.
Proof. inversion 1; subst; [left|right]; eauto. Qed.

Lemma below_tail i k t : below (i :: k) t →
  0 <= i <= 16 ∧ (if decide (i = 16) then ∃ v, v ≠ [] ∧ leaf k t = TVal v else wft (leaf k t)).
Proof.
  intros [(Hk & v & Hv & ->)|(Hk & Hw & ch & ->)].
  - split; [by eapply key_ok_head|]. apply key_ok_cons in Hk as [[-> ->]|[Hi Hk]]; [by exists v|].
    rewrite decide_False by (unfold nibble in Hi; lia). destruct k; [inversion Hk|]. by constructor.
  - apply Forall_cons in Hk as [Hi Hk]. unfold nibble in Hi. split; [lia|]. rewrite decide_False by lia.
    destruct k; [done|]. by constructor.
Qed.

Lemma branch_wft i k t j k' t' :
  i ≠ j → below (i :: k) t → below (j :: k') t' → wft (branch (i :: k) t (j :: k') t').
Proof.
  intros Hn Hb Hb'. destruct (below_tail _ _ _ Hb) as [Hi Hl]. destruct (below_tail _ _ _ Hb') as [Hj Hl'].
  assert (∀ x, 0 <= x → child (<[Z.to_nat j := leaf k' t']> (<[Z.to_nat i := leaf k t]> (replicate 17 TNil))) x
    = if decide (x = j) then leaf k' t' else if decide (x = i) then leaf k t else TNil) as Hc.
  { intros x Hx. rewrite !child_insert, child_empty by (rewrite ?length_insert, ?length_replicate; lia). done. }
  constructor.
  - by rewrite !length_insert, length_replicate.
  - intros x [? ?]. rewrite Hc by lia. repeat case_decide; subst; try done; try lia; by intros _.
  - rewrite Hc by lia. repeat case_decide; subst; try done; by intros _.
  - exists i, j. rewrite !Hc by lia. rewrite (decide_False (P := i = j)), (decide_True (P := i = i)), (decide_True (P := j = j)) by done.
    assert (∀ x k t, (if decide (x = 16) then ∃ v, v ≠ [] ∧ leaf k t = TVal v else wft (leaf k t)) → leaf k t ≠ TNil) as Hnn.
    { intros x k0 t0 H. destruct (decide (x = 16)); [destruct H as (v & _ & E); by rewrite E|by apply wft_not_nil]. }
    split_and!; try lia; by eapply Hnn.
Qed.

Lemma tget_branch i k t j k' t' x r :
  i ≠ j → 0 <= i <= 16 → 0 <= j <= 16 → 0 <= x →
  tget (branch (i :: k) t (j :: k') t') (x :: r) =
    if decide (x = j) then tget (leaf k' t') r else if decide (x = i) then tget (leaf k t) r else [].
Proof.
  intros Hn Hi Hj Hx. unfold branch. rewrite tget_full.
  rewrite !child_insert, child_empty by (rewrite ?length_insert, ?length_replicate; lia). by repeat case_decide.
Qed.

(** ** Insertion *)

(** [t'] is [t] with the value [v] under the key [k]. *)
Definition updated (t t' : tree) (k v : bytes) : Prop :=
  ∀ k', key_ok k' → tget t' k' = if decide (k' = k) then v else tget t k'.

Lemma strip_key p k : key_ok p → key_ok k → strip p k = if decide (k = p) then Some [] else None.
Proof.
  intros Hp Hk. destruct (decide (k = p)) as [->|Hn]; [rewrite <- (app_nil_r p) at 2; apply strip_app|].
  apply strip_None. intros r ->. apply Hn. by rewrite (key_ok_prefix p r Hp Hk), app_nil_r.
Qed.

Lemma leaf_updated k v : key_ok k → updated TNil (TShort k (TVal v)) k v.
Proof. intros Hk k' Hk'. cbn [tget]. rewrite strip_key by done. by destruct (decide (k' = k)). Qed.

(** The keys part within the key of a short node. *)
Lemma split_ok c p t b k v a :
  a ≠ b → below (c ++ a :: p) t → key_ok (c ++ b :: k) → v ≠ [] →
  wft (leaf c (branch (a :: p) t (b :: k) (TVal v))) ∧
  updated (TShort (c ++ a :: p) t) (leaf c (branch (a :: p) t (b :: k) (TVal v))) (c ++ b :: k) v.
Proof.
  intros Hn Hb Hk Hv. destruct (key_ok_app c (b :: k) Hk) as [Hbk Hc]; [done|].
  assert (below (a :: p) t) as Hap.
  { destruct Hb as [(H & ?)|(H & ?)]; [left|right]; (split; [|done]).
    - by apply (key_ok_app c (a :: p)).
    - by apply Forall_app in H as [_ H]. }
  destruct (below_tail _ _ _ Hap) as [Ha _]. pose proof (key_ok_head _ _ Hbk) as Hb16. split.
  - assert (wft (branch (a :: p) t (b :: k) (TVal v))) as Hbr.
    { apply branch_wft; [done|done|]. left. eauto. }
    destruct c; [done|]. cbn [leaf]. constructor; done.
  - intros k' Hk'. rewrite tget_leaf. cbn [tget]. rewrite strip_app_l.
    destruct (strip c k') as [r|] eqn:Er; cycle 1.
    { rewrite decide_False; [done|]. intros ->. by rewrite strip_app in Er. }
    apply strip_Some in Er as ->. destruct r as [|x r].
    { rewrite app_nil_r in Hk'. by destruct (key_ok_not_nibbles c). }
    destruct (key_ok_app c (x :: r) Hk') as [Hxr _]; [done|]. pose proof (key_ok_head _ _ Hxr) as Hx.
    rewrite tget_branch by (done || lia). cbn [strip]. destruct (decide (x = b)) as [->|Hxb].
    + destruct (Z.eqb_spec a b); [done|]. rewrite tget_leaf.
      apply key_ok_cons in Hbk as [[-> ->]|[Hbn Hbk]].
      * apply key_ok_cons in Hxr as [[_ ->]|[Hxn _]]; [by rewrite decide_True|unfold nibble in Hxn; lia].
      * apply key_ok_cons in Hxr as [[-> _]|[_ Hr]]; [unfold nibble in Hbn; lia|].
        rewrite strip_key by done. destruct (decide (r = k)) as [->|Hrk]; [by rewrite decide_True|].
        rewrite decide_False; [done|]. intros [= E]%app_inv_head. done.
    + rewrite (decide_False (P := c ++ x :: r = _)) by (intros [= E _]%app_inv_head; done).
      destruct (decide (x = a)) as [->|Hxa]; [by rewrite Z.eqb_refl, tget_leaf|].
      destruct (Z.eqb_spec a x); [congruence|done].
Qed.

(** A child of a full node is replaced. *)
Lemma full_child ch i f :
  length ch = 17%nat → 0 <= i <= 16 → ∀ x, 0 <= x →
  child (alter f (Z.to_nat i) ch) x = if decide (x = i) then f (child ch i) else child ch x.
Proof. intros Hl Hi x Hx. apply child_alter; lia. Qed.

Lemma child_elem ch i : length ch = 17%nat → 0 <= i <= 16 → child ch i ∈ ch.
Proof.
  intros Hl Hi. unfold child. destruct (lookup_lt_is_Some_2 ch (Z.to_nat i)) as [x E]; [lia|].
  rewrite E. by eapply list_elem_of_lookup_2.
Qed.

Lemma full_updated ch f i k v :
  length ch = 17%nat → key_ok (i :: k) →
  (if decide (i = 16) then tget (f (child ch i)) [] = v else updated (child ch i) (f (child ch i)) k v) →
  updated (TFull ch) (TFull (alter f (Z.to_nat i) ch)) (i :: k) v.
Proof.
  intros Hl Hk Hf [|x r] Hk'; [inversion Hk'|]. pose proof (key_ok_head _ _ Hk). pose proof (key_ok_head _ _ Hk').
  rewrite !tget_full, full_child by (done || lia). destruct (decide (x = i)) as [->|Hn]; cycle 1.
  { rewrite decide_False by congruence. done. }
  destruct (decide (i = 16)) as [->|Hi].
  - apply key_ok_cons in Hk as [[_ ->]|[Hb _]]; [|unfold nibble in Hb; lia].
    apply key_ok_cons in Hk' as [[_ ->]|[Hb _]]; [|unfold nibble in Hb; lia]. by rewrite Hf, decide_True.
  - apply key_ok_cons in Hk' as [[? _]|[_ Hr]]; [done|]. rewrite Hf by done.
    destruct (decide (r = k)) as [->|]; [by rewrite decide_True|]. by rewrite decide_False by congruence.
Qed.

Lemma short_insert_inv p t k v :
  below p t → key_ok k →
  (∃ r, k = p ++ r ∧ tinsert (TShort p t) k v = TShort p (tinsert t r v)) ∨
  (∃ c a p' b k', a ≠ b ∧ p = c ++ a :: p' ∧ k = c ++ b :: k' ∧
     tinsert (TShort p t) k v = leaf c (branch (a :: p') t (b :: k') (TVal v))).
Proof.
  intros Hb Hk. destruct (prefixLen_split k p) as (c & k1 & p1 & -> & -> & Em & Hn).
  assert (tinsert (TShort (c ++ p1) t) (c ++ k1) v =
    if (length c =? length (c ++ p1))%nat then TShort (c ++ p1) (tinsert t k1 v)
    else leaf c (branch p1 t k1 (TVal v))) as E.
  { destruct (c ++ k1) as [|x r] eqn:Ek; [inversion Hk|]. cbn [tinsert]. cbn zeta. rewrite Em, <- Ek.
    by rewrite !drop_app_length, take_app_length. }
  destruct p1 as [|a p1].
  - left. exists k1. rewrite app_nil_r in *. by rewrite Nat.eqb_refl in E.
  - right. rewrite length_app in E. cbn [length] in E. destruct (Nat.eqb_spec (length c) (length c + S (length p1))); [lia|].
    destruct k1 as [|b k1]; [|by exists c, a, p1, b, k1]. exfalso. rewrite app_nil_r in Hk.
    destruct Hb as [(H & _)|(H & _)].
    + by apply key_ok_prefix in H.
    + apply Forall_app in H as [H _]. by eapply key_ok_not_nibbles.
Qed.

Lemma short_updated p t t' r v :
  nibbles_ok p → updated t t' r v → updated (TShort p t) (TShort p t') (p ++ r) v.
Proof.
  intros Hp Hu k' Hk'. rewrite !tget_short. destruct (strip p k') as [r'|] eqn:E; cycle 1.
  { rewrite decide_False; [done|]. intros ->. by rewrite strip_app in E. }
  apply strip_Some in E as ->. assert (r' ≠ []) as Hr'.
  { intros ->. rewrite app_nil_r in Hk'. by eapply key_ok_not_nibbles. }
  rewrite Hu by (by apply (key_ok_app p r')). destruct (decide (r' = r)) as [->|]; [by rewrite decide_True|].
  rewrite decide_False; [done|]. by intros ?%app_inv_head.
Qed.

Lemma tinsert_ok t : ∀ k v, wfo t → key_ok k → v ≠ [] → wft (tinsert t k v) ∧ updated t (tinsert t k v) k v.
Proof.
  induction t as [|v0|p t IH|ch IH] using tree_rec'; intros k v Hw Hk Hv.
  - assert (tinsert TNil k v = TShort k (TVal v)) as -> by (by destruct Hk).
    split; [by constructor|by apply leaf_updated].
  - destruct Hw as [?|Hw]; [done|inversion Hw].
  - destruct Hw as [?|Hw]; [done|]. pose proof (wft_below _ _ Hw) as Hb.
    destruct (short_insert_inv p t k v Hb Hk) as [(r & -> & ->)|(c & a & p' & b & k' & Hn & -> & -> & ->)]; [|by apply split_ok].
    destruct Hb as [(Hp & v0 & Hv0 & ->)|(Hp & Hf & ch & ->)].
    + rewrite (key_ok_prefix p r) by done. rewrite app_nil_r. cbn [tinsert]. split; [by constructor|].
      intros k' Hk'. cbn [tget]. rewrite strip_key by done. by destruct (decide (k' = p)).
    + assert (r ≠ []) as Hr by (intros ->; rewrite app_nil_r in Hk; by eapply key_ok_not_nibbles).
      destruct (key_ok_app p r Hk Hr) as [Hkr _]. destruct (IH r v) as [Hw' Hu]; [by right|done|done|].
      destruct r as [|i r]; [done|]. rewrite tinsert_full in *. inversion Hw as [|? ? Hne|]; subst.
      split; [by constructor|by apply short_updated].
  - destruct Hw as [?|Hw]; [done|]. inversion Hw as [| |? Hl Hch H16 (x & y & Hx & Hy & Hxy & Hcx & Hcy)]; subst.
    destruct k as [|i k]; [inversion Hk|]. pose proof (key_ok_head _ _ Hk) as Hi. rewrite tinsert_full.
    rewrite Forall_forall in IH.
    assert (if decide (i = 16) then tinsert (child ch i) k v = TVal v
      else wft (tinsert (child ch i) k v) ∧ updated (child ch i) (tinsert (child ch i) k v) k v) as Hc.
    { apply key_ok_cons in Hk as [[-> ->]|[Hn Hk]]; [by destruct (child ch 16)|].
      rewrite decide_False by (unfold nibble in Hn; lia). apply IH; try done; [by apply child_elem|].
      destruct (decide (child ch i = TNil)) as [|Hnn]; [by left|right]. by apply Hch. }
    split; [|apply (full_updated ch (λ t, tinsert t k v)); [done|done|by destruct (decide (i = 16)); [rewrite Hc|destruct Hc]]].
    assert (tinsert (child ch i) k v ≠ TNil) as Hnn.
    { destruct (decide (i = 16)); [by rewrite Hc|apply wft_not_nil, Hc]. }
    pose proof (full_child ch i (λ t, tinsert t k v) Hl Hi) as Hfc. constructor.
    + by rewrite length_alter.
    + intros j [? ?]. rewrite Hfc by lia. destruct (decide (j = i)) as [->|]; [|by apply Hch].
      rewrite decide_False in Hc by lia. by destruct Hc.
    + rewrite Hfc by lia. destruct (decide (16 = i)) as [<-|]; [|exact H16].
      rewrite decide_True in Hc by done. intros _. by exists v.
    + exists x, y. rewrite !Hfc by lia. split_and!; try done; try lia.
      * by destruct (decide (x = i)).
      * by destruct (decide (y = i)).
Qed.

(** ** Deletion *)

Lemma only_Some i ch j :
  only i ch = Some j →
  i <= j ∧ ∃ t, ch !! Z.to_nat (j - i) = Some t ∧ t ≠ TNil ∧
    ∀ n t', ch !! n = Some t' → n ≠ Z.to_nat (j - i) → t' = TNil.
Proof.
  revert i. induction ch as [|t ch IH]; intros i; cbn; [done|]. destruct (is_nil t) eqn:Et.
  - intros H. destruct (IH (i + 1) H) as (Hle & u & Hu & Hn & Ho). split; [lia|].
    replace (Z.to_nat (j - i)) with (S (Z.to_nat (j - (i + 1)))) by lia. exists u. split_and!; [done|done|].
    intros [|n] t' Hl Hne; cbn in Hl; [by injection Hl as <-; destruct t|]. apply (Ho n); [done|lia].
  - destruct (forallb is_nil ch) eqn:Ef; [|done]. intros [= <-]. split; [lia|]. rewrite Z.sub_diag. exists t.
    split_and!; [done|by intros ->|]. intros [|n] t' Hl Hne; [done|]. cbn in Hl.
    rewrite forallb_forall in Ef. specialize (Ef t'). destruct t'; try done; (discriminate Ef || idtac);
      by (destruct Ef; apply list_elem_of_In; eapply list_elem_of_lookup_2).
Qed.

Lemma only_None i ch n t :
  only i ch = None → ch !! n = Some t → t ≠ TNil → ∃ m u, m ≠ n ∧ ch !! m = Some u ∧ u ≠ TNil.
Proof.
  revert i n. induction ch as [|x ch IH]; intros i n; cbn; [done|]. destruct (is_nil x) eqn:Ex.
  - intros Ho Hl Hn. destruct n as [|n]; cbn in Hl; [injection Hl as ->; by destruct t|].
    destruct (IH (i + 1) n Ho Hl Hn) as (m & u & Hm & Hu & Hun). exists (S m), u. split_and!; [lia|done|done].
  - destruct (forallb is_nil ch) eqn:Ef; [done|]. intros _ Hl Hn. destruct n as [|n].
    + assert (∃ u, u ∈ ch ∧ is_nil u = false) as (u & Hu & Hun).
      { clear -Ef. induction ch as [|y ch IH]; [done|]. cbn in Ef. destruct (is_nil y) eqn:Ey.
        - destruct (IH Ef) as (u & Hu & ?). exists u. split; [by right|done].
        - exists y. split; [by left|done]. }
      apply list_elem_of_lookup_1 in Hu as [m Hm]. exists (S m), u. split_and!; [lia|done|]. by intros ->.
    + exists O, x. split_and!; [lia|done|]. by intros ->.
Qed.

Lemma tget_join p t k : tget (join p t) k = tget (TShort p t) k.
Proof.
  destruct t as [|v|q t|ch]; try done. cbn [join]. rewrite !tget_short, strip_app_l.
  destruct (strip p k); [by rewrite tget_short|done].
Qed.

Lemma join_wft p t : p ≠ [] → nibbles_ok p → wft t → wft (join p t).
Proof.
  intros Hne Hp Hw. inversion Hw as [k v Hk Hv|k ch Hk Hn Hf|ch]; subst; cbn [join].
  - constructor; [by apply key_ok_app_2|done].
  - constructor; [by destruct p|by apply Forall_app|done].
  - by constructor.
Qed.

(** The children after one of them lost a key. *)
Record thinned (ch : list tree) : Prop := {
  th_length : length ch = 17%nat;
  th_child : ∀ i, nibble i → child ch i ≠ TNil → wft (child ch i);
  th_value : child ch 16 ≠ TNil → ∃ v, v ≠ [] ∧ child ch 16 = TVal v;
  th_some : ∃ i, 0 <= i <= 16 ∧ child ch i ≠ TNil
}.

Lemma child_lookup ch n t : ch !! n = Some t → child ch (Z.of_nat n) = t.
Proof. intros E. unfold child. by rewrite Nat2Z.id, E. Qed.

Lemma shrink_ok ch : thinned ch → wft (shrink ch) ∧ ∀ k, key_ok k → tget (shrink ch) k = tget (TFull ch) k.
Proof.
  intros [Hl Hch H16 (i & Hi & Hc)]. unfold shrink. destruct (only 0 ch) as [j|] eqn:Eo.
  - destruct (only_Some _ _ _ Eo) as (Hj & t & Ht & Hn & Ho). rewrite Z.sub_0_r in *.
    assert (0 <= j <= 16) as Hj16 by (apply lookup_lt_Some in Ht; lia).
    assert (child ch j = t) as Ec by (unfold child; by rewrite Ht).
    assert (∀ x, 0 <= x <= 16 → x ≠ j → child ch x = TNil) as Hx.
    { intros x Hx Hne. unfold child. destruct (ch !! Z.to_nat x) as [u|] eqn:Eu; [|done]. apply (Ho _ _ Eu). lia. }
    assert (∀ k, key_ok k → tget (TShort [j] (child ch j)) k = tget (TFull ch) k) as Hg.
    { intros [|x k] Hk; [inversion Hk|]. pose proof (key_ok_head _ _ Hk). rewrite tget_full, tget_short. cbn [strip].
      destruct (Z.eqb_spec j x) as [->|Hne]; [done|]. rewrite Hx by (lia || congruence). done. }
    destruct (Z.eqb_spec j 16) as [->|Hne].
    + split; [|done]. destruct H16 as (v & Hv & ->); [congruence|]. constructor; [constructor|done].
    + split; [|intros k Hk; by rewrite tget_join, Hg]. apply join_wft; [done| |apply Hch; [|congruence]].
      * repeat constructor; lia.
      * unfold nibble. lia.
  - split; [|done]. constructor; try done. unfold child in Hc at 1.
    destruct (ch !! Z.to_nat i) as [t|] eqn:Et; [|done]. destruct (only_None _ _ _ _ Eo Et Hc) as (m & u & Hm & Hu & Hun).
    exists i, (Z.of_nat m). pose proof (lookup_lt_Some _ _ _ Hu). rewrite (child_lookup _ _ _ Hu). split_and!; try lia; try done.
    unfold child. by rewrite Et.
Qed.

Lemma updated_absent t k : tget t k = [] → updated t t k [].
Proof. intros E k' _. by destruct (decide (k' = k)) as [->|]. Qed.

Lemma tdelete_short p t k :
  tdelete (TShort p t) k =
    match strip p k with
    | None => TShort p t
    | Some [] => TNil
    | Some k' => if bool_decide (tget t k' = []) then TShort p t else join p (tdelete t k')
    end.
Proof. done. Qed.

Lemma full_thinned ch i d :
  wft (TFull ch) → 0 <= i <= 16 → (if decide (i = 16) then d = TNil else wfo d) →
  thinned (alter (λ _, d) (Z.to_nat i) ch).
Proof.
  intros Hw Hi Hd. inversion Hw as [| |? Hl Hch H16 (x & y & Hx & Hy & Hxy & Hcx & Hcy)]; subst.
  pose proof (full_child ch i (λ _, d) Hl Hi) as Hfc. split.
  - by rewrite length_alter.
  - intros j [? ?]. rewrite Hfc by lia. destruct (decide (j = i)) as [->|]; [|by apply Hch].
    rewrite decide_False in Hd by lia. by destruct Hd as [->|?].
  - rewrite Hfc by lia. destruct (decide (16 = i)) as [<-|]; [|exact H16]. rewrite decide_True in Hd by done. by rewrite Hd.
  - exists (if decide (x = i) then y else x). destruct (decide (x = i)) as [->|]; rewrite Hfc by lia.
    + by rewrite decide_False.
    + by rewrite decide_False.
Qed.

Lemma tdelete_ok t : ∀ k, wfo t → key_ok k →
  wfo (tdelete t k) ∧ updated t (tdelete t k) k [] ∧ (∀ ch, t = TFull ch → wft (tdelete t k)).
Proof.
  induction t as [|v0|p t IH|ch IH] using tree_rec'; intros k Hw Hk.
  - split_and!; [by left|by apply updated_absent|done].
  - destruct Hw as [?|Hw]; [done|inversion Hw].
  - destruct Hw as [?|Hw]; [done|]. rewrite tdelete_short.
    destruct (strip p k) as [r|] eqn:Es; cycle 1.
    { split_and!; [by right| |done]. apply updated_absent. by rewrite tget_short, Es. }
    apply strip_Some in Es as ->. destruct (wft_below _ _ Hw) as [(Hp & v0 & Hv0 & ->)|(Hp & Hf & ch & ->)].
    + rewrite (key_ok_prefix p r) by done. rewrite app_nil_r. split_and!; [by left| |done].
      intros k' Hk'. rewrite tget_short, strip_key by done. by destruct (decide (k' = p)).
    + assert (r ≠ []) as Hr by (intros ->; rewrite app_nil_r in Hk; by eapply key_ok_not_nibbles).
      destruct r as [|i r]; [done|]. destruct (key_ok_app p (i :: r) Hk Hr) as [Hkr _]. case_bool_decide as Hg.
      { split_and!; [by right| |done]. apply updated_absent. by rewrite tget_short, strip_app. }
      destruct (IH (i :: r)) as (_ & Hu & Hw'); [by right|done|]. inversion Hw as [|? ? Hne|]; subst.
      split_and!; [right; apply join_wft; [done|done|by eapply Hw']| |done].
      intros k' Hk'. rewrite tget_join. by apply short_updated.
  - destruct Hw as [?|Hw]; [done|]. inversion Hw as [| |? Hl Hch H16 _]; subst.
    destruct k as [|i k]; [inversion Hk|]. pose proof (key_ok_head _ _ Hk) as Hi. rewrite tdelete_full.
    case_bool_decide as Hg; [split_and!; [by right|apply updated_absent; by rewrite tget_full|done]|].
    rewrite Forall_forall in IH.
    assert (child ch i ≠ TNil) as Hnn by (intros E; by rewrite E in Hg).
    assert (if decide (i = 16) then tdelete (child ch i) k = TNil
      else wfo (tdelete (child ch i) k) ∧ updated (child ch i) (tdelete (child ch i) k) k []) as Hc.
    { apply key_ok_cons in Hk as [[-> ->]|[Hn Hk]]; [by destruct (H16 Hnn) as (v & _ & ->)|].
      rewrite decide_False by (unfold nibble in Hn; lia).
      destruct (IH (child ch i) (child_elem ch i Hl Hi) k) as (? & ? & _); [right; by apply Hch|done|done]. }
    assert (alter (λ t, tdelete t k) (Z.to_nat i) ch = alter (λ _, tdelete (child ch i) k) (Z.to_nat i) ch) as ->.
    { apply list_alter_ext; [|done]. intros t Et. unfold child. by rewrite Et. }
    destruct (shrink_ok (alter (λ _, tdelete (child ch i) k) (Z.to_nat i) ch)) as [Hws Hgs].
    { apply full_thinned; [done|done|]. by destruct (decide (i = 16)); [|destruct Hc]. }
    split_and!; [by right| |done]. intros k' Hk'. rewrite Hgs by done. revert k' Hk'.
    apply (full_updated ch (λ _, tdelete (child ch i) k)); [done|done|].
    destruct (decide (i = 16)); [by rewrite Hc|by destruct Hc].
Qed.

(** ** A tree in minimal form is determined by what it stores *)

Definition agree (t t' : tree) : Prop := ∀ k, key_ok k → tget t k = tget t' k.

Lemma short_keys p t k : tget (TShort p t) k ≠ [] → ∃ r, k = p ++ r.
Proof. rewrite tget_short. destruct (strip p k) as [r|] eqn:E; [|done]. apply strip_Some in E. eauto. Qed.

Lemma wft_short_key p t : wft (TShort p t) → p ≠ [].
Proof. inversion 1 as [? ? Hk|? ? Hne|]; subst; [|done]. intros ->. inversion Hk. Qed.

Lemma short_full_differ p t ch : p ≠ [] → wft (TFull ch) → agree (TShort p t) (TFull ch) → False.
Proof.
  intros Hp Hw Ha. destruct (full_stores ch Hw) as (i & j & k & k' & Hn & Hk & Hk' & Hg & Hg').
  rewrite <- Ha in Hg, Hg' by done. apply short_keys in Hg as [r Er]. apply short_keys in Hg' as [r' Er'].
  destruct p; [done|]. cbn in *. congruence.
Qed.

(** The keys of an extension part right behind it. *)
Lemma ext_prefix p q ch ch' :
  nibbles_ok p → wft (TFull ch) → agree (TShort p (TFull ch)) (TShort q (TFull ch')) → ∃ r, p = q ++ r.
Proof.
  intros Hp Hw Ha. destruct (full_stores ch Hw) as (i & j & k & k' & Hn & Hk & Hk' & Hg & Hg').
  assert (∀ x r, key_ok (x :: r) → tget (TFull ch) (x :: r) ≠ [] → ∃ r', p ++ x :: r = q ++ r') as H.
  { intros x r Hx Hgx. apply (short_keys q (TFull ch')). rewrite <- Ha by (by apply key_ok_app_2).
    by rewrite tget_short, strip_app. }
  destruct (H i k Hk Hg) as [r Er]. destruct (H j k' Hk' Hg') as [r' Er'].
  destruct (app_eq_inv _ _ _ _ Er) as [(m & -> & _)|(m & -> & Em)]; [by exists m|].
  destruct m as [|x m]; [exists []; by rewrite !app_nil_r|].
  injection Em as -> _. rewrite <- app_assoc in Er'. apply app_inv_head in Er'. cbn in Er'. congruence.
Qed.

Lemma agree_leaves p v q t :
  key_ok p → v ≠ [] → wft (TShort q t) → agree (TShort p (TVal v)) (TShort q t) → TShort p (TVal v) = TShort q t.
Proof.
  intros Hp Hv Hw Ha. assert (tget (TShort p (TVal v)) p = v) as Ev.
  { rewrite tget_short, strip_key by done. by rewrite decide_True. }
  inversion Hw as [? v' Hq Hv'|? ch Hne Hq Hf|]; subst.
  - pose proof (Ha p Hp) as E. rewrite Ev, tget_short, strip_key in E by done.
    destruct (decide (p = q)) as [->|]; [|done]. cbn in E. by rewrite E.
  - exfalso. destruct (full_stores ch Hf) as (i & j & k & k' & Hn & Hk & Hk' & Hg & Hg').
    assert (∀ x r, key_ok (x :: r) → tget (TFull ch) (x :: r) ≠ [] → q ++ x :: r = p) as H.
    { intros x r Hx Hgx. assert (key_ok (q ++ x :: r)) as Hqx by (by apply key_ok_app_2).
      pose proof (Ha _ Hqx) as E. rewrite (tget_short q), strip_app, tget_short, strip_key in E by done.
      destruct (decide (q ++ x :: r = p)); [done|]. congruence. }
    pose proof (H i k Hk Hg) as E1. pose proof (H j k' Hk' Hg') as E2. rewrite <- E2 in E1.
    apply app_inv_head in E1. congruence.
Qed.

Lemma agree_sym t t' : agree t t' → agree t' t.
Proof. intros H k Hk. by rewrite H. Qed.

Lemma agree_children ch ch' i :
  wft (TFull ch) → wft (TFull ch') → agree (TFull ch) (TFull ch') → nibble i → agree (child ch i) (child ch' i).
Proof.
  intros Hw Hw' Ha Hi k Hk. pose proof (Ha (i :: k)) as H. rewrite !tget_full in H. apply H. by constructor.
Qed.

Lemma agree_eq t : ∀ t', wfo t → wfo t' → agree t t' → t = t'.
Proof.
  assert (∀ u, wft u → agree TNil u → False) as Hnil.
  { intros u Hw Ha. destruct (wft_stores u Hw) as (k & Hk & Hg). by rewrite <- Ha in Hg by done. }
  induction t as [|v0|p t IH|ch IH] using tree_rec'; intros t' Hw Hw' Ha.
  - destruct Hw' as [->|Hw']; [done|]. by destruct (Hnil t').
  - destruct Hw as [?|Hw]; [done|inversion Hw].
  - destruct Hw as [?|Hw]; [done|]. destruct Hw' as [->|Hw']; [by destruct (Hnil _ Hw (agree_sym _ _ Ha))|].
    inversion Hw' as [q v Hq Hv|q ch' Hne Hq Hf|ch' Hl Hch H16 H2]; subst.
    + symmetry. apply agree_leaves; try done. by apply agree_sym.
    + inversion Hw as [? v Hp Hv|? ch Hnp Hp Hfp|]; subst; [by apply agree_leaves|].
      destruct (ext_prefix p q ch ch') as [r Er]; [done..|]. destruct (ext_prefix q p ch' ch) as [r' Er']; [done|done|by apply agree_sym|].
      assert (r = []) as -> by (apply (f_equal length) in Er, Er'; rewrite length_app in Er, Er'; destruct r; [done|cbn in *; lia]).
      rewrite app_nil_r in Er. subst q. f_equal. apply IH; [by right|by right|].
      intros k Hk. pose proof (Ha (p ++ k)) as H. rewrite !tget_short, !strip_app in H. apply H. by apply key_ok_app_2.
    + destruct (short_full_differ p t ch'); [by eapply wft_short_key|done|done].
  - destruct Hw as [?|Hw]; [done|]. destruct Hw' as [->|Hw']; [by destruct (Hnil _ Hw (agree_sym _ _ Ha))|].
    destruct t' as [|v|p t|ch']; [inversion Hw'|inversion Hw'| |].
    { destruct (short_full_differ p t ch); [by eapply wft_short_key|done|by apply agree_sym]. }
    inversion Hw as [| |? Hl Hch H16 _]; subst. inversion Hw' as [| |? Hl' Hch' H16' _]; subst. f_equal.
    apply child_ext; [done|done|]. intros i Hi. rewrite Forall_forall in IH. destruct (decide (i = 16)) as [->|Hn].
    + pose proof (Ha [16] key_end) as E. rewrite !tget_full in E.
      destruct (decide (child ch 16 = TNil)) as [E1|N1], (decide (child ch' 16 = TNil)) as [E2|N2].
      * congruence.
      * destruct (H16' N2) as (v & Hv & Ev). rewrite E1, Ev in E. by destruct Hv.
      * destruct (H16 N1) as (v & Hv & Ev). rewrite E2, Ev in E. by destruct Hv.
      * destruct (H16 N1) as (v & Hv & Ev), (H16' N2) as (v' & Hv' & Ev'). rewrite Ev, Ev' in *. cbn in E. congruence.
    + assert (nibble i) as Hni by (unfold nibble; lia). apply IH; [by apply child_elem|..|by apply agree_children].
      * destruct (decide (child ch i = TNil)); [by left|right; by apply Hch].
      * destruct (decide (child ch' i = TNil)); [by left|right; by apply Hch'].
Qed.
