(* ===== verification/TrieFacts.v ===== *)
(** * TrieFacts: the walks over nodes do what the operations on trees do

    A node stands for a tree when everything below it is in memory or in the
    database.  On such nodes, with keys that end in the terminator, reading, inserting
    and deleting succeed and give the results of src/trie/trie.go's operations on the
    trees. *)

From S2P Require Import Prelude Bytes TrieEncoding Trie TrieTree.

Local Open Scope Z_scope.

Section refinement.
Context (db_node : Hash → Z → option node) (cachegen : Z).

(** What the flags of a node say about its tree, and a hash about the tree it stands
    for; the flags of new nodes say nothing, and generations do not matter. *)
Context (valid : nodeFlag → tree → Prop) (meant : bytes → tree → Prop).
Hypothesis valid_new : ∀ t, valid (newFlag cachegen) t.
Hypothesis valid_gen : ∀ fl t, valid fl t → valid (mkFlag (nf_hash fl) cachegen (nf_dirty fl)) t.

Abbreviation tryGet := (Trie.tryGet db_node cachegen).
Abbreviation insert := (Trie.insert db_node cachegen).
Abbreviation delete := (Trie.delete db_node cachegen).

(** The node is in memory. *)
Definition loaded (n : option node) : Prop := match n with Some (hashNode _) => False | _ => True end.

(** The nodes a database has. *)
Definition stored (n : node) : Prop := match n with shortNode _ _ _ | fullNode _ _ => True | _ => False end.

(** The tree of a node. *)
Inductive expands : option node → tree → Prop :=
| expands_nil : expands None TNil
| expands_value v : expands (Some (valueNode v)) (TVal v)
| expands_short k n t fl : valid fl (TShort k t) → expands n t → expands (Some (shortNode k n fl)) (TShort k t)
| expands_full ch tch fl :
    valid fl (TFull tch) → length ch = length tch →
    (∀ i n t, ch !! i = Some n → tch !! i = Some t → expands n t) →
    expands (Some (fullNode ch fl)) (TFull tch)
| expands_hash h (f : Z → node) t :
    meant h t →
    (∀ g, db_node (BytesToHash h) g = Some (f g)) → (∀ g, stored (f g)) →
    (∀ g, expands (Some (f g)) t) → expands (Some (hashNode h)) t.

Lemma stored_loaded n : stored n → loaded (Some n).
Proof. by destruct n. Qed.

Lemma expands_None t : expands None t → t = TNil.
Proof. by inversion 1. Qed.

Lemma expands_TNil n : expands n TNil → n = None.
Proof.
  intros H. remember TNil as t eqn:Et. induction H as [| | | |h f t _ _ _ _ IH]; try done.
  by specialize (IH 0 Et).
Qed.

(** A hash node, or one in memory. *)
Lemma expands_cases n t :
  expands n t → loaded n ∨
  ∃ h n', n = Some (hashNode h) ∧ (∀ prefix, resolveHash db_node cachegen h prefix = Ret n') ∧
    stored n' ∧ expands (Some n') t.
Proof.
  intros H. destruct n as [[ch fl|k n fl|h|v]|]; [by left..| |by left|by left]. right.
  inversion H as [| | | |? f ? _ Hf Hl He]; subst. exists h, (f cachegen). split_and!; [done| |done|done].
  intros prefix. unfold resolveHash. by rewrite Hf.
Qed.

(** The children of a full node and their trees. *)
Definition kids (ch : list (option node)) (tch : list tree) : Prop :=
  length ch = length tch ∧ ∀ i n t, ch !! i = Some n → tch !! i = Some t → expands n t.

Lemma expands_kids ch tch fl : valid fl (TFull tch) → kids ch tch → expands (Some (fullNode ch fl)) (TFull tch).
Proof. intros ? [? ?]. by constructor. Qed.

Lemma kids_at ch tch i :
  kids ch tch → 0 <= i → (Z.to_nat i < length tch)%nat →
  ∃ n, at_index ch i = Ret n ∧ expands n (child tch i) ∧ ch !! Z.to_nat i = Some n.
Proof.
  intros [Hl H] Hi Hlt. unfold at_index, child. destruct (Z.ltb_spec i 0); [lia|].
  destruct (lookup_lt_is_Some_2 ch (Z.to_nat i)) as [n En]; [lia|].
  destruct (lookup_lt_is_Some_2 tch (Z.to_nat i)) as [t Et]; [lia|].
  rewrite En, Et. exists n. split_and!; [done|by eapply H|done].
Qed.

Lemma kids_put ch tch i n t :
  kids ch tch → 0 <= i → (Z.to_nat i < length tch)%nat → expands n t →
  put_index ch i n = Ret (<[Z.to_nat i := n]> ch) ∧ kids (<[Z.to_nat i := n]> ch) (<[Z.to_nat i := t]> tch).
Proof.
  intros [Hl H] Hi Hlt Hn. unfold put_index.
  destruct (Z.leb_spec 0 i); [|lia]. destruct (Z.ltb_spec i (Z.of_nat (length ch))); [|lia]. cbn [andb].
  split; [done|]. split; [by rewrite !length_insert|].
  intros j m u Hm Hu. destruct (decide (j = Z.to_nat i)) as [->|Hne].
  - rewrite list_lookup_insert_eq in Hm by lia. rewrite list_lookup_insert_eq in Hu by lia. by simplify_eq.
  - rewrite list_lookup_insert_ne in Hm by done. rewrite list_lookup_insert_ne in Hu by done. by eapply H.
Qed.

Lemma child_lookup_lt tch i : (Z.to_nat i < length tch)%nat → tch !! Z.to_nat i = Some (child tch i).
Proof. intros H. unfold child. destruct (lookup_lt_is_Some_2 tch (Z.to_nat i) H) as [u Hu]. by rewrite Hu. Qed.

Lemma alter_child tch i f :
  (Z.to_nat i < length tch)%nat → alter f (Z.to_nat i) tch = <[Z.to_nat i := f (child tch i)]> tch.
Proof.
  intros H. pose proof (child_lookup_lt tch i H) as E. revert E. generalize (child tch i), (Z.to_nat i). clear.
  intros t n. revert n. induction tch as [|u tch IH]; intros [|n]; cbn; [done|done|by intros [= ->]|].
  intros E. change (u :: alter f n tch = u :: <[n := f t]> tch). f_equal. by apply IH.
Qed.

(** ** Where a walk is *)

(** The rest of the key fits the subtree. *)
Definition fits (t : tree) (k : bytes) : Prop :=
  match k with
  | [] => t = TNil ∨ ∃ v, v ≠ [] ∧ t = TVal v
  | _ => key_ok k ∧ wfo t
  end.

Lemma fits_key t k : key_ok k → wfo t → fits t k.
Proof. intros Hk Hw. destruct k; [inversion Hk|done]. Qed.

Lemma fits_full ch i k : wft (TFull ch) → key_ok (i :: k) →
  0 <= i ∧ (Z.to_nat i < length ch)%nat ∧ fits (child ch i) k.
Proof.
  intros Hw Hk. inversion Hw as [| |? Hl Hch H16 _]; subst. pose proof (key_ok_head _ _ Hk).
  split_and!; [lia|lia|]. apply key_ok_cons in Hk as [[-> ->]|[Hi Hk]].
  - destruct (decide (child ch 16 = TNil)) as [|Hn]; [by left|right]. by apply H16.
  - apply fits_key; [done|]. destruct (decide (child ch i = TNil)); [by left|right; by apply Hch].
Qed.

Lemma fits_short p t k : wft (TShort p t) → key_ok (p ++ k) → p ≠ [] ∧ fits t k.
Proof.
  intros Hw Hk. split; [by eapply wft_short_key|]. destruct (wft_below _ _ Hw) as [(Hp & v & Hv & ->)|(Hp & Hf & _)].
  - rewrite (key_ok_prefix p k) by done. right. eauto.
  - destruct k as [|x k]; [rewrite app_nil_r in Hk; by destruct (key_ok_not_nibbles p)|].
    apply fits_key; [by apply (key_ok_app p)|by right].
Qed.

Lemma fits_wft t k : fits t k → wft t → key_ok k.
Proof. destruct k; [by intros [->|(v & _ & ->)] Hw; inversion Hw|]. by intros [? _]. Qed.

(** ** Reading *)

Definition get_ok (t : tree) : Prop := ∀ fuel n pre k,
  expands n t → fits t k → loaded n → (2 * length k < fuel)%nat →
  ∃ n' b, tryGet fuel n (pre ++ k) (length pre) = Ret (tget t k, n', b) ∧ expands n' t.

(** One more step for a node that is not loaded. *)
Lemma get_any t fuel n pre k :
  get_ok t → expands n t → fits t k → (2 * length k + 1 < fuel)%nat →
  ∃ n' b, tryGet fuel n (pre ++ k) (length pre) = Ret (tget t k, n', b) ∧ expands n' t.
Proof.
  intros IH He Hf Hlt. destruct (expands_cases n t He) as [Hl|(h & m & -> & Hr & Hl & Hm)]; [apply IH; (done || lia)|].
  destruct fuel as [|fuel]; [lia|]. cbn [Trie.tryGet]. rewrite Hr. cbn [mbind outcome_bind].
  destruct (IH fuel (Some m) pre k Hm Hf (stored_loaded _ Hl)) as (n' & b & E & He'); [lia|]. rewrite E. cbn. eauto.
Qed.

Lemma strip_take p k : strip p k = if bool_decide (p = take (length p) k) then Some (drop (length p) k) else None.
Proof.
  case_bool_decide as H.
  - apply strip_Some. rewrite H at 1. by rewrite take_drop.
  - apply strip_None. intros r ->. apply H. by rewrite take_app_length.
Qed.

Lemma tget_ok t : get_ok t.
Proof.
  induction t as [|v|p t IH|tch IH] using tree_rec'; intros fuel n pre k He Hf Hl Hlt;
    (destruct fuel as [|fuel]; [lia|]); cbn [Trie.tryGet]; inversion He; subst; try done.
  - by exists None, false.
  - by eexists _, false.
  - destruct k as [|x k0]; [by destruct Hf as [?|(v & _ & ?)]|]. set (k := x :: k0) in *. destruct Hf as [Hk [?|Hw]]; [done|].
    rewrite length_app, drop_app_length. replace (length pre + length k - length pre)%nat with (length k) by lia.
    assert ((length k <? length p)%nat || negb (bool_decide (p = take (length p) k)) = negb (bool_decide (p = take (length p) k))) as ->.
    { case_bool_decide as Hp; [|apply orb_true_r]. rewrite orb_false_r. apply (f_equal length) in Hp.
      rewrite length_take in Hp. apply Nat.ltb_ge. lia. }
    rewrite tget_short, strip_take. case_bool_decide as Hp; cbn [negb]; [|by eexists _, false].
    assert (k = p ++ drop (length p) k) as Ek by (rewrite Hp at 1; by rewrite take_drop).
    set (r := drop (length p) k) in *. clearbody r k. subst k. destruct (fits_short p t r Hw Hk) as [Hne Hr].
    destruct (get_any t fuel n0 (pre ++ p) r IH) as (n' & b & E & He'); [done|done| |].
    { rewrite length_app in Hlt. destruct p; [done|cbn in Hlt; lia]. }
    rewrite length_app, <- app_assoc in E. rewrite E. cbn [mbind outcome_bind].
    destruct b; eexists _, _; (split; [done|]); [by apply expands_short; [apply valid_gen|]|done].
  - destruct k as [|i k]; [by destruct Hf as [?|(v & _ & ?)]|]. destruct Hf as [Hk [?|Hw]]; [done|].
    destruct (fits_full tch i k Hw Hk) as (Hi & Hlti & Hfc).
    rewrite lookup_app_r, Nat.sub_diag by done. cbn [lookup list_lookup].
    assert (kids ch tch) as Hkids by done.
    destruct (kids_at ch tch i Hkids Hi Hlti) as (c & Ec & Hc & Hlc). rewrite Ec. cbn [mbind outcome_bind].
    rewrite Forall_forall in IH. pose proof (child_lookup_lt tch i Hlti) as Ei.
    destruct (get_any (child tch i) fuel c (pre ++ [i]) k) as (n' & b & E & He');
      [exact (IH _ (list_elem_of_lookup_2 _ _ _ Ei))|done|done|cbn in Hlt; lia|].
    rewrite length_app, <- app_assoc in E. cbn [app length] in E. rewrite Nat.add_1_r in E. rewrite E. cbn [mbind outcome_bind].
    rewrite tget_full. destruct b; [|by eexists _, false].
    destruct (kids_put ch tch i n' (child tch i) Hkids Hi Hlti He') as [-> Hx].
    cbn. eexists _, true. split; [done|]. apply expands_kids; [by apply valid_gen|]. by rewrite (list_insert_id tch) in Hx.
Qed.

(** ** Inserting *)

Lemma insert_nil fuel prefix k value tv :
  expands value tv →
  ∃ n', insert (S fuel) None prefix k value = Ret (true, n') ∧ expands n' (leaf k tv).
Proof. intros H. destruct k; cbn; eexists; (split; [done|]); [done|by apply expands_short]. Qed.

Definition ins_ok (t : tree) : Prop := ∀ fuel n prefix k v,
  expands n t → fits t k → v ≠ [] → loaded n → (2 * length k < fuel)%nat →
  ∃ d n', insert fuel n prefix k (Some (valueNode v)) = Ret (d, n') ∧ expands n' (tinsert t k v) ∧
    (d = false → tinsert t k v = t).

Lemma ins_any t fuel n prefix k v :
  ins_ok t → expands n t → fits t k → v ≠ [] → (2 * length k + 1 < fuel)%nat →
  ∃ d n', insert fuel n prefix k (Some (valueNode v)) = Ret (d, n') ∧ expands n' (tinsert t k v) ∧
    (d = false → tinsert t k v = t).
Proof.
  intros IH He Hf Hv Hlt. destruct (expands_cases n t He) as [Hl|(h & m & -> & Hr & Hl & Hm)]; [apply IH; (done || lia)|].
  destruct fuel as [|fuel]; [lia|]. cbn [Trie.insert].
  destruct k as [|x k].
  - exfalso. destruct Hf as [->|(w & _ & ->)].
    + by apply expands_TNil in Hm.
    + by inversion Hm; subst.
  - rewrite Hr. cbn [mbind outcome_bind].
    destruct (IH fuel (Some m) prefix (x :: k) v Hm Hf Hv (stored_loaded _ Hl)) as (d & n' & E & He' & Hd); [lia|]. rewrite E. cbn.
    destruct d; cbn; eexists _, _; (split; [done|]); [done|]. split; [by rewrite Hd|done].
Qed.

Lemma prefixLen_app p r : prefixLen (p ++ r) p = length p.
Proof. induction p as [|x p IH]; [by destruct r|]. cbn. by rewrite Z.eqb_refl, IH. Qed.

Lemma prefixLen_parts c a p b k : a ≠ b → prefixLen (c ++ b :: k) (c ++ a :: p) = length c.
Proof.
  intros Hn. induction c as [|x c IH]; cbn; [by destruct (Z.eqb_spec b a)|]. by rewrite Z.eqb_refl, IH.
Qed.

Lemma kids_empty : kids (replicate 17 None) (replicate 17 TNil).
Proof.
  split; [done|]. intros i n t [-> _]%lookup_replicate [-> _]%lookup_replicate. constructor.
Qed.

(** The branch where two keys part. *)
Lemma insert_branch fuel prefix c a p b k n t v :
  a ≠ b → 0 <= a <= 16 → 0 <= b <= 16 → expands n t →
  ∃ n', ('(_, c1) ← insert (S fuel) None (prefix ++ take (S (length c)) (c ++ a :: p)) (drop (S (length c)) (c ++ a :: p)) n;
         children ← put_index (replicate 17 None) a c1;
         '(_, c2) ← insert (S fuel) None (prefix ++ take (S (length c)) (c ++ b :: k)) (drop (S (length c)) (c ++ b :: k)) (Some (valueNode v));
         children ← put_index children b c2;
         let branch := fullNode children (newFlag cachegen) in
         if (length c =? 0)%nat then Ret (true, Some branch)
         else Ret (true, Some (shortNode (take (length c) (c ++ b :: k)) (Some branch) (newFlag cachegen)))) = Ret (true, n') ∧
    expands n' (leaf c (branch (a :: p) t (b :: k) (TVal v))).
Proof.
  intros Hn Ha Hb He.
  assert (∀ x r, drop (S (length c)) (c ++ x :: r) = r) as Hd.
  { intros x r. rewrite <- Nat.add_1_r. by rewrite drop_app_add. }
  rewrite !Hd, take_app_length.
  destruct (insert_nil fuel (prefix ++ take (S (length c)) (c ++ a :: p)) p n t He) as (n1 & E1 & H1). rewrite E1. cbn [mbind outcome_bind].
  destruct (kids_put (replicate 17 None) (replicate 17 TNil) a n1 (leaf p t)) as [P1 K1]; [apply kids_empty|lia|rewrite length_replicate; lia|done|].
  rewrite P1. cbn [mbind outcome_bind].
  destruct (insert_nil fuel (prefix ++ take (S (length c)) (c ++ b :: k)) k (Some (valueNode v)) (TVal v)) as (n2 & E2 & H2); [constructor|]. rewrite E2. cbn [mbind outcome_bind].
  destruct (kids_put _ _ b n2 (leaf k (TVal v)) K1) as [P2 K2]; [lia|rewrite length_insert, length_replicate; lia|done|].
  rewrite P2. cbn [mbind outcome_bind]. apply (expands_kids _ _ (newFlag cachegen)) in K2; [|done].
  destruct c as [|x c]; cbn; eexists; (split; [done|]); [done|by apply expands_short].
Qed.

Lemma insert_short fuel p n fl prefix k value :
  k ≠ [] →
  insert (S fuel) (Some (shortNode p n fl)) prefix k value =
    let matchlen := prefixLen k p in
    if (matchlen =? length p)%nat then
      '(dirty, nn) ← insert fuel n (prefix ++ take matchlen k) (drop matchlen k) value;
      if negb dirty then Ret (false, Some (shortNode p n fl)) else Ret (true, Some (shortNode p nn (newFlag cachegen)))
    else
      match p !! matchlen, k !! matchlen with
      | Some i, Some j =>
          '(_, c) ← insert fuel None (prefix ++ take (S matchlen) p) (drop (S matchlen) p) n;
          children ← put_index (replicate 17 None) i c;
          '(_, c) ← insert fuel None (prefix ++ take (S matchlen) k) (drop (S matchlen) k) value;
          children ← put_index children j c;
          let branch := fullNode children (newFlag cachegen) in
          if (matchlen =? 0)%nat then Ret (true, Some branch)
          else Ret (true, Some (shortNode (take matchlen k) (Some branch) (newFlag cachegen)))
      | _, _ => Crash
      end.
Proof. by destruct k. Qed.

Lemma below_suffix c p t : below (c ++ p) t → p ≠ [] → below p t.
Proof.
  intros [(H & ?)|(H & ?)] Hp; [left|right]; (split; [|done]).
  - by apply (key_ok_app c p).
  - by apply Forall_app in H as [_ H].
Qed.

Lemma ins_short p t : ins_ok t → ins_ok (TShort p t).
Proof.
  intros IH fuel n prefix k v He Hf Hv Hl Hlt. destruct fuel as [|fuel]; [lia|].
  assert (k ≠ []) as Hk0 by (intros ->; by destruct Hf as [?|(w & _ & ?)]).
  assert (key_ok k ∧ wft (TShort p t)) as [Hk Hw] by (by destruct k; [|destruct Hf as [? [?|?]]]).
  inversion He as [| |? n0 ? fl Hval He0| |]; subst; [|done]. rewrite insert_short by done. cbn zeta.
  pose proof (wft_below _ _ Hw) as Hb.
  destruct (short_insert_inv p t k v Hb Hk) as [(r & -> & ->)|(c & a & p' & b & k' & Hn & -> & -> & ->)].
  - rewrite prefixLen_app, Nat.eqb_refl, drop_app_length. destruct (fits_short p t r Hw Hk) as [Hne Hr].
    destruct (ins_any t fuel n0 (prefix ++ take (length p) (p ++ r)) r v IH) as (d & n' & E & He' & Hd); [done|done|done| |].
    { rewrite length_app in Hlt. destruct p; [done|cbn in Hlt; lia]. }
    rewrite E. cbn. destruct d; cbn; eexists _, _; (split; [done|]); [by split; [apply expands_short|]|].
    rewrite Hd by done. done.
  - rewrite prefixLen_parts by done. rewrite length_app. cbn [length].
    destruct (Nat.eqb_spec (length c) (length c + S (length p'))); [lia|].
    rewrite !list_lookup_middle by done. destruct fuel as [|fuel]; [rewrite length_app in Hlt; cbn in Hlt; lia|].
    destruct (insert_branch fuel prefix c a p' b k' n0 t v) as (n' & E & He'); [done| | |done|].
    + by destruct (below_tail _ _ _ (below_suffix c (a :: p') t Hb ltac:(done))).
    + eapply key_ok_head. by apply (key_ok_app c (b :: k')).
    + exists true, n'. split; [exact E|done].
Qed.

Lemma ins_full tch : Forall ins_ok tch → ins_ok (TFull tch).
Proof.
  intros IH fuel n prefix k v He Hf Hv Hl Hlt. destruct fuel as [|fuel]; [lia|].
  destruct k as [|i k]; [by destruct Hf as [?|(w & _ & ?)]|]. destruct Hf as [Hk [?|Hw]]; [done|].
  destruct (fits_full tch i k Hw Hk) as (Hi & Hlti & Hfc). cbn [Trie.insert].
  inversion He as [| | |ch ? fl Hval Hlc Hch|]; subst; [|done]. assert (kids ch tch) as Hkids by done.
  destruct (kids_at ch tch i Hkids Hi Hlti) as (c & Ec & Hc & Hlk). rewrite Ec. cbn [mbind outcome_bind].
  rewrite Forall_forall in IH. pose proof (child_lookup_lt tch i Hlti) as Ei.
  destruct (ins_any (child tch i) fuel c (prefix ++ [i]) k v) as (d & n' & E & He' & Hd);
    [exact (IH _ (list_elem_of_lookup_2 _ _ _ Ei))|done|done|done|cbn in Hlt; lia|].
  rewrite E. cbn [mbind outcome_bind]. rewrite tinsert_full, alter_child by done. destruct d; cbn [negb]; cycle 1.
  { exists false, (Some (fullNode ch fl)). rewrite Hd, list_insert_id by done. done. }
  destruct (kids_put ch tch i n' (tinsert (child tch i) k v) Hkids Hi Hlti He') as [-> Hx].
  cbn. eexists true, _. split; [done|]. split; [by apply expands_kids|done].
Qed.

Lemma tins_ok t : ins_ok t.
Proof.
  induction t as [|w|p t IH|tch IH] using tree_rec'; [|intros fuel n prefix k v He Hf Hv Hl Hlt|by apply ins_short|by apply ins_full].
  - intros [|fuel] n prefix k v He Hf Hv Hl Hlt; [lia|]. apply expands_TNil in He as ->.
    destruct (insert_nil fuel prefix k (Some (valueNode v)) (TVal v)) as (n' & E & He'); [constructor|].
    exists true, n'. split; [done|]. split; [by destruct k|done].
  - destruct fuel as [|fuel]; [lia|].
    destruct k as [|x k]; [|destruct Hf as [_ [?|Hw]]; [done|inversion Hw]]. inversion He; subst; [|done]. cbn.
    eexists _, _. split; [done|]. split; [constructor|]. case_bool_decide; [by subst|done].
Qed.

(** ** Deleting *)

Lemma tdelete_absent t k : fits t k → tget t k = [] → tdelete t k = t.
Proof.
  intros Hf Hg. destruct t as [|w|p t|tch]; [done| | |].
  - destruct k as [|x k]; [|destruct Hf as [_ [?|Hw]]; [done|inversion Hw]].
    destruct Hf as [?|(v & Hv & [= ->])]; [done|]. by destruct Hv.
  - rewrite tdelete_short. rewrite tget_short in Hg. destruct (strip p k) as [[|x r]|] eqn:Es; [|by rewrite bool_decide_true|done].
    apply strip_Some in Es. rewrite app_nil_r in Es. subst k.
    destruct p as [|y p]; [by destruct Hf as [?|(v & _ & ?)]|]. destruct Hf as [Hk [?|Hw]]; [done|].
    destruct (wft_below _ _ Hw) as [(_ & v & Hv & ->)|(Hn & _)]; [by destruct Hv|by destruct (key_ok_not_nibbles (y :: p))].
  - destruct k as [|i k]; [done|]. rewrite tdelete_full. by rewrite tget_full in Hg; rewrite bool_decide_true.
Qed.

Definition del_ok (t : tree) : Prop := ∀ fuel n prefix k,
  expands n t → fits t k → loaded n → (2 * length k < fuel)%nat →
  ∃ d n', delete fuel n prefix k = Ret (d, n') ∧ expands n' (tdelete t k) ∧
    (d = false ↔ tget t k = []) ∧ (d = true → loaded n').

Lemma del_any t fuel n prefix k :
  del_ok t → expands n t → fits t k → (2 * length k + 1 < fuel)%nat →
  ∃ d n', delete fuel n prefix k = Ret (d, n') ∧ expands n' (tdelete t k) ∧
    (d = false ↔ tget t k = []) ∧ (d = true → loaded n').
Proof.
  intros IH He Hf Hlt. destruct (expands_cases n t He) as [Hl|(h & m & -> & Hr & Hl & Hm)]; [apply IH; (done || lia)|].
  destruct fuel as [|fuel]; [lia|]. cbn [Trie.delete]. rewrite Hr. cbn [mbind outcome_bind].
  destruct (IH fuel (Some m) prefix k Hm Hf (stored_loaded _ Hl)) as (d & n' & E & He' & Hd & Hld); [lia|]. rewrite E. cbn.
  destruct d; cbn; eexists _, _; (split; [done|]); [done|]. split; [|done].
  rewrite tdelete_absent; [done|done|by apply Hd].
Qed.

Lemma prefixLen_le k p : (prefixLen k p <= length p)%nat.
Proof. revert p. induction k as [|x k IH]; intros [|y p]; cbn; try lia. destruct (x =? y); [specialize (IH p)|]; lia. Qed.

Lemma strip_None_len p k : strip p k = None → (prefixLen k p < length p)%nat.
Proof.
  intros Hs. pose proof (prefixLen_le k p). destruct (decide (prefixLen k p = length p)) as [E|]; [|lia].
  destruct (prefixLen_split k p) as (c & k' & p' & -> & Ep & Em & _). rewrite Em in E.
  assert (p' = []) as -> by (subst p; rewrite length_app in E; destruct p'; [done|cbn in E; lia]).
  rewrite app_nil_r in Ep. subst c. by rewrite strip_app in Hs.
Qed.

(** A short node above what is left of its subtree. *)
Lemma expands_join p n t :
  loaded n → expands n t →
  expands (match n with
           | Some (shortNode cKey cVal _) => Some (shortNode (p ++ cKey) cVal (newFlag cachegen))
           | _ => Some (shortNode p n (newFlag cachegen))
           end) (join p t).
Proof.
  intros Hl He. destruct n as [[ch fl|q c fl|h|w]|]; [| |done| |]; inversion He; subst; cbn [join]; by apply expands_short.
Qed.

Lemma del_short p t : del_ok t → del_ok (TShort p t).
Proof.
  intros IH fuel n prefix k He Hf Hl Hlt. destruct fuel as [|fuel]; [lia|].
  assert (k ≠ []) as Hk0 by (intros ->; by destruct Hf as [?|(w & _ & ?)]).
  assert (key_ok k ∧ wft (TShort p t)) as [Hk Hw] by (by destruct k; [|destruct Hf as [? [?|?]]]).
  inversion He as [| |? n0 ? fl Hval He0| |]; subst; [|done]. cbn [Trie.delete].
  rewrite tdelete_short, tget_short. destruct (strip p k) as [r|] eqn:Es; cycle 1.
  { pose proof (strip_None_len p k Es) as Hlen. destruct (Nat.ltb_spec (prefixLen k p) (length p)); [|lia].
    by eexists false, _. }
  apply strip_Some in Es as ->. rewrite prefixLen_app, Nat.ltb_irrefl, length_app.
  destruct (fits_short p t r Hw Hk) as [Hne Hr]. destruct r as [|x r].
  - cbn [length]. rewrite Nat.add_0_r, Nat.eqb_refl. exists true, None. split; [done|]. split; [constructor|]. split; [|done].
    split; [done|]. intros Hg. rewrite app_nil_r in Hk. destruct (wft_below _ _ Hw) as [(_ & v & Hv & ->)|(Hn & _)]; [done|].
    by destruct (key_ok_not_nibbles p).
  - cbn [length]. destruct (Nat.eqb_spec (length p) (length p + S (length r))); [lia|]. rewrite drop_app_length.
    destruct (del_any t fuel n0 (prefix ++ take (length p) (p ++ x :: r)) (x :: r) IH) as (d & n' & E & He' & Hd & Hld); [done|done| |].
    { rewrite length_app in Hlt. destruct p; [done|cbn in Hlt |- *; lia]. }
    rewrite E. cbn [mbind outcome_bind]. destruct d; cbn [negb].
    + rewrite bool_decide_false by (intros Hg; by apply Hd in Hg). pose proof (expands_join p n' _ (Hld eq_refl) He') as Hj.
      destruct n' as [[ch' fl'|q c fl'|h|w]|]; eexists true, _; (split; [done|]); (split; [exact Hj|]); done.
    + rewrite bool_decide_true by (by apply Hd). by eexists false, _.
Qed.

Lemma kids_cons n ch t tch : kids (n :: ch) (t :: tch) → expands n t ∧ kids ch tch.
Proof.
  intros [Hl H]. split; [by apply (H O)|]. split; [by injection Hl|]. intros i m u Hm Hu. by apply (H (S i)).
Qed.

Lemma kids_all_nil ch tch : kids ch tch → forallb is_nil tch = true ↔ Forall (λ n, n = None) ch.
Proof.
  revert tch. induction ch as [|n ch IH]; intros [|t tch] Hk; [done|by destruct Hk|by destruct Hk|].
  destruct (kids_cons _ _ _ _ Hk) as [He Hk']. cbn. rewrite andb_true_iff, (IH _ Hk'), Forall_cons.
  assert (is_nil t = true ↔ n = None) as ->; [|done]. split.
  - destruct t; try done. intros _. by apply expands_TNil.
  - intros ->. by apply expands_None in He as ->.
Qed.

Lemma onlyChild_rest i pos ch : 0 <= pos → onlyChild i pos ch = if decide (Forall (λ n, n = None) ch) then pos else -2.
Proof.
  intros Hp. revert i. induction ch as [|[n|] ch IH]; intros i; cbn.
  - by rewrite decide_True.
  - destruct (Z.eqb_spec pos (-1)); [lia|]. rewrite decide_False; [done|]. by intros [? _]%Forall_cons.
  - rewrite IH. apply decide_ext. rewrite Forall_cons. naive_solver.
Qed.

(** The loop over the children finds the only one that is left. *)
Lemma onlyChild_only i ch tch :
  0 <= i → kids ch tch → match only i tch with Some j => onlyChild i (-1) ch = j ∧ 0 <= j | None => onlyChild i (-1) ch < 0 end.
Proof.
  revert i ch. induction tch as [|t tch IH]; intros i [|n ch] Hi Hk; [done|by destruct Hk|by destruct Hk|].
  destruct (kids_cons _ _ _ _ Hk) as [He Hk']. cbn [only]. destruct (is_nil t) eqn:Et.
  - destruct t; try done. apply expands_TNil in He as ->. cbn [onlyChild]. apply IH; [lia|done].
  - destruct n as [n|]; [|by apply expands_None in He as ->]. cbn [onlyChild]. rewrite Z.eqb_refl, onlyChild_rest by done.
    pose proof (kids_all_nil ch tch Hk') as Hn. destruct (forallb is_nil tch).
    + rewrite decide_True by (by apply Hn). done.
    + rewrite decide_False; [done|]. intros H. by apply Hn in H.
Qed.

(** The node of the children that are left. *)
Lemma expands_shrink prefix ch tch :
  length tch = 17%nat → kids ch tch →
  ∃ n', (let pos := onlyChild 0 (-1) ch in
         if 0 <=? pos then
           c ← at_index ch pos;
           if negb (pos =? 16) then
             cnode ← resolve db_node cachegen c prefix;
             match cnode with
             | Some (shortNode cKey cVal _) => Ret (true, Some (shortNode (pos :: cKey) cVal (newFlag cachegen)))
             | _ => Ret (true, Some (shortNode [pos] c (newFlag cachegen)))
             end
           else Ret (true, Some (shortNode [pos] c (newFlag cachegen)))
         else Ret (true, Some (fullNode ch (newFlag cachegen)))) = Ret (true, n') ∧
    expands n' (shrink tch) ∧ loaded n'.
Proof.
  intros Hl Hk. pose proof (onlyChild_only 0 ch tch ltac:(lia) Hk) as Ho. unfold shrink. cbn zeta.
  destruct (only 0 tch) as [j|] eqn:Ej; cycle 1.
  { destruct (Z.leb_spec 0 (onlyChild 0 (-1) ch)); [lia|]. eexists. split; [done|]. split; [by apply expands_kids|done]. }
  destruct Ho as [-> Hj]. destruct (Z.leb_spec 0 j); [|lia].
  destruct (only_Some _ _ _ Ej) as (_ & u & Hu & _). rewrite Z.sub_0_r in Hu.
  destruct (kids_at ch tch j Hk Hj) as (c & -> & Hc & _); [by apply lookup_lt_Some in Hu|]. cbn [mbind outcome_bind].
  destruct (Z.eqb_spec j 16) as [->|Hne]; cbn [negb]; [eexists; split; [done|]; by split; [apply expands_short|]|].
  destruct (expands_cases c _ Hc) as [Hcl|(h & m & -> & Hr & Hs & Hm)].
  - assert (resolve db_node cachegen c prefix = Ret c) as -> by (by destruct c as [[]|]). cbn [mbind outcome_bind].
    pose proof (expands_join [j] c _ Hcl Hc) as Hjn.
    destruct c as [[ch' fl'|q c fl'|h|w]|]; eexists; (split; [done|]); (split; [exact Hjn|done]).
  - cbn [resolve]. rewrite Hr. cbn [mbind outcome_bind]. pose proof (expands_join [j] (Some m) _ (stored_loaded _ Hs) Hm) as Hjn.
    destruct m as [ch' fl'|q c fl'|h'|w]; try done; eexists; (split; [done|]); (split; [|done]).
    + clear Hjn. revert Hm Hc. generalize (child tch j). intros t Hm Hc. inversion Hm; subst. by apply expands_short.
    + exact Hjn.
Qed.

Lemma del_full tch : Forall del_ok tch → del_ok (TFull tch).
Proof.
  intros IH fuel n prefix k He Hf Hl Hlt. destruct fuel as [|fuel]; [lia|].
  destruct k as [|i k]; [by destruct Hf as [?|(w & _ & ?)]|]. destruct Hf as [Hk [?|Hw]]; [done|].
  destruct (fits_full tch i k Hw Hk) as (Hi & Hlti & Hfc). cbn [Trie.delete].
  inversion He as [| | |ch ? fl Hval Hlc Hch|]; subst; [|done]. assert (kids ch tch) as Hkids by done.
  destruct (kids_at ch tch i Hkids Hi Hlti) as (c & Ec & Hc & Hlk). rewrite Ec. cbn [mbind outcome_bind].
  rewrite Forall_forall in IH. pose proof (child_lookup_lt tch i Hlti) as Ei.
  destruct (del_any (child tch i) fuel c (prefix ++ [i]) k) as (d & n' & E & He' & Hd & Hld);
    [exact (IH _ (list_elem_of_lookup_2 _ _ _ Ei))|done|done|cbn in Hlt; lia|].
  rewrite E. cbn [mbind outcome_bind]. rewrite tdelete_full, tget_full, alter_child by done. destruct d; cbn [negb]; cycle 1.
  { rewrite bool_decide_true by (by apply Hd). by eexists false, _. }
  rewrite bool_decide_false by (intros Hg; by apply Hd in Hg).
  destruct (kids_put ch tch i n' (tdelete (child tch i) k) Hkids Hi Hlti He') as [-> Hx]. cbn [mbind outcome_bind].
  inversion Hw as [| |? Hl17]; subst.
  destruct (expands_shrink prefix _ _ ltac:(by rewrite length_insert) Hx) as (m & Em & Hm & Hlm).
  exists true, m. split; [exact Em|]. split; [done|]. split; [|done]. split; [done|]. intros Hg. by apply Hd in Hg.
Qed.

Lemma tdel_ok t : del_ok t.
Proof.
  induction t as [|w|p t IH|tch IH] using tree_rec'; [| |by apply del_short|by apply del_full].
  - intros [|fuel] n prefix k He Hf Hl Hlt; [lia|]. apply expands_TNil in He as ->.
    exists false, None. split; [done|]. split; [constructor|done].
  - intros [|fuel] n prefix k He Hf Hl Hlt; [lia|]. inversion He; subst; [|done]. cbn. exists true, None.
    split; [done|]. split; [constructor|]. split; [|done]. split; [done|]. cbn. intros ->.
    destruct k as [|x k]; [|destruct Hf as [_ [?|Hw]]; [done|inversion Hw]]. by destruct Hf as [?|(v & Hv & [= <-])].
Qed.

(** ** Tries *)

Lemma hex_key key : Forall byte_ok key → key_ok (keybytesToHex key).
Proof. intros H. by apply key_ok_hex, unpacked_nibbles. Qed.

Lemma hex_length key : length (keybytesToHex key) = (2 * length key + 1)%nat.
Proof. unfold keybytesToHex. rewrite length_app. cbn [length]. induction key; cbn in *; lia. Qed.

Lemma hex_inj key key' :
  Forall byte_ok key → Forall byte_ok key' → keybytesToHex key = keybytesToHex key' → key = key'.
Proof.
  intros H H' E. apply app_inj_tail in E as [E _].
  apply (f_equal decodeNibbles) in E. rewrite !decodeNibbles_unpacked in E by done. congruence.
Qed.

(** A root whose nodes are all there, in minimal form, with keys of whole bytes. *)
Definition sound_as (root : option node) (t : tree) : Prop :=
  expands root t ∧ wfo t ∧
  ∀ k, key_ok k → tget t k ≠ [] → ∃ key, Forall byte_ok key ∧ k = keybytesToHex key.

Definition sound (root : option node) : Prop := ∃ t, sound_as root t.

(** Fuel for keys of [n] bytes. *)
Definition enough (n fuel : nat) : Prop := (4 * n + 3 < fuel)%nat.

Lemma sound_get root t key fuel :
  sound_as root t → Forall byte_ok key → enough (length key) fuel →
  ∃ root', TryGet db_node cachegen fuel root key = Ret (tget t (keybytesToHex key), root') ∧ sound_as root' t.
Proof.
  intros (He & Hw & Hb) Hk Hfu. unfold TryGet, enough in *.
  destruct (get_any t fuel root [] (keybytesToHex key) (tget_ok t)) as (n' & b & E & He');
    [done|by apply fits_key; [apply hex_key|]|rewrite hex_length; lia|].
  cbn [app length] in E. rewrite E. cbn. destruct b; eexists; done.
Qed.

Lemma sound_update root t key value fuel :
  sound_as root t → Forall byte_ok key → enough (length key) fuel →
  ∃ root' t', TryUpdate db_node cachegen fuel root key value = Ret root' ∧ sound_as root' t' ∧
    updated t t' (keybytesToHex key) value.
Proof.
  intros (He & Hw & Hb) Hk Hfu. pose proof (hex_key key Hk) as Hhk. unfold TryUpdate, enough in *.
  assert (∀ t', updated t t' (keybytesToHex key) value →
    ∀ k, key_ok k → tget t' k ≠ [] → ∃ key, Forall byte_ok key ∧ k = keybytesToHex key) as Hbytes.
  { intros t' Hu k Hkk. rewrite Hu by done. destruct (decide _) as [->|]; [by exists key|by apply Hb]. }
  destruct value as [|x value].
  - destruct (tdelete_ok t (keybytesToHex key) Hw Hhk) as (Hw' & Hu & _).
    destruct (del_any t fuel root [] (keybytesToHex key) (tdel_ok t)) as (d & n' & E & He' & _);
      [done|by apply fits_key|rewrite hex_length; lia|].
    rewrite E. cbn. exists n', (tdelete t (keybytesToHex key)). split_and!; [done|split; [done|split; [done|by apply Hbytes]]|done].
  - destruct (tinsert_ok t (keybytesToHex key) (x :: value) Hw Hhk) as (Hw' & Hu); [done|].
    destruct (ins_any t fuel root [] (keybytesToHex key) (x :: value) (tins_ok t)) as (d & n' & E & He' & _);
      [done|by apply fits_key|done|rewrite hex_length; lia|].
    rewrite E. cbn. eexists n', _. split_and!; [done|split; [done|split; [by right|by apply Hbytes]]|done].
Qed.

End refinement.

(** ** Tries without regard to their caches *)

Definition any_flag : nodeFlag → tree → Prop := λ _ _, True.
Definition any_hash : bytes → tree → Prop := λ _ _, True.

Section maps.
Context (db_node : Hash → Z → option node) (cachegen : Z).

(** Every node is in memory or in the database. *)
Definition complete (root : option node) : Prop := sound db_node any_flag any_hash root.

Lemma complete_get root t key fuel :
  sound_as db_node any_flag any_hash root t → Forall byte_ok key → enough (length key) fuel →
  ∃ root', TryGet db_node cachegen fuel root key = Ret (tget t (keybytesToHex key), root') ∧
    sound_as db_node any_flag any_hash root' t.
Proof. by apply sound_get. Qed.

Lemma complete_update root t key value fuel :
  sound_as db_node any_flag any_hash root t → Forall byte_ok key → enough (length key) fuel →
  ∃ root' t', TryUpdate db_node cachegen fuel root key value = Ret root' ∧
    sound_as db_node any_flag any_hash root' t' ∧ updated t t' (keybytesToHex key) value.
Proof. by apply sound_update. Qed.

(** C7. The trie is a map.  On a root whose nodes are all in memory or in the
    database, writing a value under a key (the empty value removes it) and reading do
    not fail: no missing node, no panic.  Afterwards the key has the value, every other
    key has what it had, and the trie is again in minimal form. *)
Theorem trie_is_a_map root key value fuel :
  complete root → Forall byte_ok key → enough (length key) fuel →
  ∃ root', TryUpdate db_node cachegen fuel root key value = Ret root' ∧ complete root' ∧
    ∀ key' fuel', Forall byte_ok key' → enough (length key') fuel' →
      ∃ old root1 root2,
        TryGet db_node cachegen fuel' root key' = Ret (old, root1) ∧ complete root1 ∧
        TryGet db_node cachegen fuel' root' key' = Ret (if decide (key' = key) then value else old, root2) ∧ complete root2.
Proof.
  intros [t Ht] Hk Hfu. destruct (complete_update root t key value fuel Ht Hk Hfu) as (root' & t' & E & Ht' & Hu).
  exists root'. split_and!; [done|by exists t'|]. intros key' fuel' Hk' Hfu'.
  destruct (complete_get root t key' fuel' Ht Hk' Hfu') as (r1 & E1 & H1).
  destruct (complete_get root' t' key' fuel' Ht' Hk' Hfu') as (r2 & E2 & H2).
  exists (tget t (keybytesToHex key')), r1, r2. split_and!; [done|by exists t| |by exists t'].
  rewrite E2, Hu by (by apply hex_key). do 2 f_equal. apply decide_ext. split; [by intros ?%hex_inj|congruence].
Qed.

(** The shape of a trie depends only on what it stores.  Two roots, however they
    came about (in which order keys were written or removed, which nodes are loaded),
    under which every key reads the same stand for the same tree. *)
Theorem trie_determined root root' :
  complete root → complete root' →
  (∀ key fuel, Forall byte_ok key → enough (length key) fuel →
    fst <$> (match TryGet db_node cachegen fuel root key with Ret r => Some r | _ => None end) =
    fst <$> (match TryGet db_node cachegen fuel root' key with Ret r => Some r | _ => None end)) →
  ∃ t, expands db_node any_flag any_hash root t ∧ expands db_node any_flag any_hash root' t.
Proof.
  intros [t Ht] [t' Ht'] Hg. exists t. split; [apply Ht|]. replace t with t'; [apply Ht'|].
  apply agree_eq; [apply Ht'|apply Ht|]. intros k Hk.
  assert (∀ key, Forall byte_ok key → tget t' (keybytesToHex key) = tget t (keybytesToHex key)) as Hag.
  { intros key Hkey. assert (enough (length key) (4 * length key + 4)) as Hfu by (unfold enough; lia).
    destruct (complete_get root t key _ Ht Hkey Hfu) as (r1 & E1 & _).
    destruct (complete_get root' t' key _ Ht' Hkey Hfu) as (r2 & E2 & _).
    specialize (Hg key _ Hkey Hfu). rewrite E1, E2 in Hg. cbn in Hg. congruence. }
  destruct (decide (tget t' k = [])) as [E|Hn].
  - destruct (decide (tget t k = [])) as [E'|Hn]; [congruence|].
    destruct (proj2 (proj2 Ht) k Hk Hn) as (key & Hkey & ->). symmetry. by rewrite Hag.
  - destruct (proj2 (proj2 Ht') k Hk Hn) as (key & Hkey & ->). by apply Hag.
Qed.
End maps.

(** ** Concrete tries *)

Definition no_nodes : Hash → Z → option node := λ _ _, None.

Lemma sound_empty db : sound_as db any_flag any_hash None TNil.
Proof. split; [constructor|]. split; [by left|]. done. Qed.

Lemma complete_empty db : complete db None.
Proof. exists TNil. exact (sound_empty db). Qed.

Lemma trie_is_a_map_witness :
  ∃ root', TryUpdate no_nodes 0 20 None [18; 52] [7] = Ret root' ∧ complete no_nodes root' ∧
    ∀ key' fuel', Forall byte_ok key' → enough (length key') fuel' →
      ∃ old root1 root2,
        TryGet no_nodes 0 fuel' None key' = Ret (old, root1) ∧ complete no_nodes root1 ∧
        TryGet no_nodes 0 fuel' root' key' = Ret (if decide (key' = [18; 52]) then [7] else old, root2) ∧
        complete no_nodes root2.
Proof.
  apply (trie_is_a_map no_nodes 0 None [18; 52] [7] 20); [exact (complete_empty _)| |unfold enough; cbn; lia].
  repeat constructor; unfold byte_ok; lia.
Defined.

(** Two writes in either order. *)
Lemma orders db g root t k1 v1 k2 v2 fuel r1 r2 r12 r21 :
  sound_as db any_flag any_hash root t → Forall byte_ok k1 → Forall byte_ok k2 → k1 ≠ k2 →
  enough (length k1) fuel → enough (length k2) fuel →
  TryUpdate db g fuel root k1 v1 = Ret r1 → TryUpdate db g fuel r1 k2 v2 = Ret r12 →
  TryUpdate db g fuel root k2 v2 = Ret r2 → TryUpdate db g fuel r2 k1 v1 = Ret r21 →
  ∃ t12 t21, sound_as db any_flag any_hash r12 t12 ∧ sound_as db any_flag any_hash r21 t21 ∧ agree t12 t21.
Proof.
  intros Ht Hk1 Hk2 Hn F1 F2 E1 E12 E2 E21.
  destruct (complete_update db g root t k1 v1 fuel Ht Hk1 F1) as (? & t1 & E & H1 & U1). rewrite E1 in E. injection E as <-.
  destruct (complete_update db g r1 t1 k2 v2 fuel H1 Hk2 F2) as (? & t12 & E & H12 & U12). rewrite E12 in E. injection E as <-.
  destruct (complete_update db g root t k2 v2 fuel Ht Hk2 F2) as (? & t2 & E & H2 & U2). rewrite E2 in E. injection E as <-.
  destruct (complete_update db g r2 t2 k1 v1 fuel H2 Hk1 F1) as (? & t21 & E & H21 & U21). rewrite E21 in E. injection E as <-.
  exists t12, t21. split_and!; [done|done|]. intros k Hk. rewrite U12, U1, U21, U2 by done.
  destruct (decide (k = keybytesToHex k2)) as [F|], (decide (k = keybytesToHex k1)) as [G|]; try done.
  destruct Hn. apply hex_inj; [done|done|congruence].
Qed.

Lemma agree_reads db g r r' t t' :
  sound_as db any_flag any_hash r t → sound_as db any_flag any_hash r' t' → agree t t' →
  ∀ key fuel, Forall byte_ok key → enough (length key) fuel →
    fst <$> (match TryGet db g fuel r key with Ret r => Some r | _ => None end) =
    fst <$> (match TryGet db g fuel r' key with Ret r => Some r | _ => None end).
Proof.
  intros H H' Ha key fuel Hk Hfu. destruct (complete_get db g r t key fuel H Hk Hfu) as (? & -> & _).
  destruct (complete_get db g r' t' key fuel H' Hk Hfu) as (? & -> & _). cbn. by rewrite Ha by (by apply hex_key).
Qed.

Module TwoOrders.
Definition put (root : option node) (key value : bytes) : option node :=
  match TryUpdate no_nodes 0 20 root key value with Ret r => r | _ => None end.
Definition one : option node := put (put None [18; 52] [7]) [18; 99] [8].
Definition other : option node := put (put None [18; 99] [8]) [18; 52] [7].

Lemma both : ∃ t12 t21, sound_as no_nodes any_flag any_hash one t12 ∧ sound_as no_nodes any_flag any_hash other t21 ∧ agree t12 t21.
Proof.
  eapply (orders no_nodes 0 None TNil [18; 52] [7] [18; 99] [8] 20); try reflexivity; try exact (sound_empty _);
    try (unfold enough; cbn; lia); [..|discriminate]; repeat constructor; unfold byte_ok; lia.
Qed.
End TwoOrders.

Lemma trie_determined_witness : ∃ t, expands no_nodes any_flag any_hash TwoOrders.one t ∧ expands no_nodes any_flag any_hash TwoOrders.other t.
Proof.
  destruct TwoOrders.both as (t12 & t21 & H12 & H21 & Ha).
  apply (trie_determined no_nodes 0); [by exists t12|by exists t21|]. by apply (agree_reads _ _ _ _ t12 t21).
Defined.
