(* ===== verification/Hasher.v ===== *)
(** * Hasher: root hashes and commits

    src/trie/hasher.go collapses a trie to its root hash, caches hashes in the nodes
    and, for a commit, writes every node of 32 bytes or more to the node database of
    src/trie/database.go, whose entries are simplified nodes: no flags, compact keys.
    The database is the map from hashes to nodes that its memory, its read cache and
    the disk make up together; reference counts and flushing are left out.  The RLP
    encoding of a node is a parameter.  [None] is a panic. *)

From S2P Require Import Prelude Bytes Crypto TrieEncoding Trie TrieTree TrieFacts.

Local Open Scope Z_scope.

(** The simplified nodes [rawFullNode], [rawShortNode], [hashNode], [valueNode]. *)
Inductive rawNode :=
| rawFullNode (children : list (option rawNode))
| rawShortNode (Key : bytes) (Val : option rawNode)
| rawHash (h : bytes)
| rawValue (v : bytes).

(** [simplifyNode] *)
Fixpoint simplifyNode (n : node) : rawNode :=
  match n with
  | fullNode children _ =>
      rawFullNode ((fix go l := match l with
                                | [] => []
                                | Some c :: l => Some (simplifyNode c) :: go l
                                | None :: l => None :: go l
                                end) children)
  | shortNode key val _ =>
      rawShortNode key (match val with Some c => Some (simplifyNode c) | None => None end)
  | hashNode h => rawHash h
  | valueNode v => rawValue v
  end.

(** [expandNode] *)
Fixpoint expandNode (hash : option bytes) (n : rawNode) (cachegen : Z) : node :=
  match n with
  | rawShortNode key val =>
      shortNode (compactToHex key)
        (match val with Some c => Some (expandNode None c cachegen) | None => None end)
        (mkFlag hash cachegen false)
  | rawFullNode children =>
      fullNode ((fix go l := match l with
                             | [] => []
                             | Some c :: l => Some (expandNode None c cachegen) :: go l
                             | None :: l => None :: go l
                             end) children)
        (mkFlag hash cachegen false)
  | rawHash h => hashNode h
  | rawValue v => valueNode v
  end.

Abbreviation NodeDatabase := (gmap Hash rawNode) (only parsing).

(** [Database.insert] of a node and [Database.node]. *)
Definition db_insert (hash : Hash) (n : rawNode) (db : NodeDatabase) : NodeDatabase :=
  match db !! hash with Some _ => db | None => <[hash := n]> db end.
Definition db_node (db : NodeDatabase) (hash : Hash) (cachegen : Z) : option node :=
  match db !! hash with
  | Some n => Some (expandNode (Some (Hash_Bytes hash)) n cachegen)
  | None => None
  end.

Section hasher.
Context `{CR : Crypto} (encode : rawNode → bytes) (cachegen cachelimit : Z).

Definition makeHashNode (data : bytes) : bytes := Hash_Bytes (keccak256 data).

(** [nodeFlag.canUnload], on uint16. *)
Definition canUnload (fl : nodeFlag) : bool :=
  negb (nf_dirty fl) && (cachelimit <=? (cachegen - nf_gen fl) `mod` 2 ^ 16).

(** [store]: the collapsed node, or its hash; [None] for the database is hashing
    only. *)
Definition store (cached : option bytes) (n : rawNode) (db : option NodeDatabase) (force : bool) :
    rawNode * option NodeDatabase :=
  match n with
  | rawHash _ => (n, db)
  | _ =>
      let tmp := encode n in
      if (length tmp <? 32)%nat && negb force then (n, db)
      else
        let hash := match cached with Some h => h | None => makeHashNode tmp end in
        (rawHash hash, db_insert (BytesToHash hash) n <$> db)
  end.

(** The flags of the node that replaces the original one. *)
Definition cacheFlag (fl : nodeFlag) (hashed : rawNode) (db : option NodeDatabase) : nodeFlag :=
  mkFlag (match hashed with rawHash h => Some h | _ => None end) (nf_gen fl)
    (match db with Some _ => false | None => nf_dirty fl end).

(** Cached data that makes the work unnecessary. *)
Definition shortcut (n : node) (fl : nodeFlag) (db : option NodeDatabase) : option (rawNode * node) :=
  match nf_hash fl with
  | None => None
  | Some h =>
      match db with
      | None => Some (rawHash h, n)
      | Some _ =>
          if canUnload fl then Some (rawHash h, hashNode h)
          else if negb (nf_dirty fl) then Some (rawHash h, n) else None
      end
  end.

(** The loop of [hashChildren] over the children of a full node; the value at the end
    is kept. *)
Definition hashKids (hash : node → option NodeDatabase → option (rawNode * node * option NodeDatabase)) :
    nat → list (option node) → option NodeDatabase →
    option (list (option rawNode) * list (option node) * option NodeDatabase) :=
  fix go i l db :=
    match l with
    | [] => Some ([], [], db)
    | None :: l => '(cs, ns, db) ← go (S i) l db; Some (None :: cs, None :: ns, db)
    | Some c :: l =>
        '(cc, nc, db) ← (if (i <? 16)%nat then hash c db else Some (simplifyNode c, c, db));
        '(cs, ns, db) ← go (S i) l db;
        Some (Some cc :: cs, Some nc :: ns, db)
    end.

(** [hash] with [hashChildren]: the node collapsed, the node with the hashes cached,
    and the database. *)
Fixpoint hash (n : node) (db : option NodeDatabase) (force : bool) : option (rawNode * node * option NodeDatabase) :=
  match n with
  | hashNode h => Some (rawHash h, n, db)
  | valueNode v => let '(hashed, db) := store None (rawValue v) db force in Some (hashed, n, db)
  | shortNode key val fl =>
      match shortcut n fl db with
      | Some (h, n) => Some (h, n, db)
      | None =>
          ckey ← hexToCompact key;
          '(cval, nval, db) ← (match val with
                               | None => None
                               | Some (valueNode v) => Some (rawValue v, valueNode v, db)
                               | Some c => hash c db false
                               end);
          let '(hashed, db) := store (nf_hash fl) (rawShortNode ckey (Some cval)) db force in
          Some (hashed, shortNode key (Some nval) (cacheFlag fl hashed db), db)
      end
  | fullNode children fl =>
      match shortcut n fl db with
      | Some (h, n) => Some (h, n, db)
      | None =>
          '(cs, ns, db) ← hashKids (λ c db, hash c db false) O children db;
          let '(hashed, db) := store (nf_hash fl) (rawFullNode cs) db force in
          Some (hashed, fullNode ns (cacheFlag fl hashed db), db)
      end
  end.

Definition emptyRoot : Hash := 0x56e81f171bcc55a6ff8345e692c0f86e5b48e01b996cadc001622fb5e363b421.

(** [hashRoot], [Hash] and [Commit]: the root hash, the new root and the database. *)
Definition hashRoot (root : option node) (db : option NodeDatabase) : option (Hash * option node * option NodeDatabase) :=
  match root with
  | None => Some (emptyRoot, None, db)
  | Some n =>
      '(hashed, cached, db) ← hash n db true;
      match hashed with
      | rawHash h => Some (BytesToHash h, Some cached, db)
      | _ => None
      end
  end.
End hasher.

(** [New]: [None] is a missing root. *)
Definition New (root : Hash) (db : NodeDatabase) : option (option node) :=
  if (root =? 0) || (root =? emptyRoot) then Some None
  else match db_node db root 0 with Some n => Some (Some n) | None => None end.
