(* ===== verification/HasherFacts.v ===== *)
(** * HasherFacts: the root hash is that of the stored map

    The hash of a tree computed without caches; that the hasher computes it from nodes
    whatever is cached in them; and that a committed trie can be opened again from the
    database. *)

From S2P Require Import Prelude Bytes Crypto TrieEncoding Trie TrieTree TrieFacts Hasher.

Local Open Scope Z_scope.

Section reference.
Context `{CR : Crypto} (encode : rawNode → bytes).

(** A node in its parent: itself when it is small, otherwise its hash. *)
Definition seal (c : rawNode) : rawNode :=
  if (length (encode c) <? 32)%nat then c else rawHash (makeHashNode (encode c)).

Definition compact (k : bytes) : bytes := default [] (hexToCompact k).

Fixpoint body (t : tree) : rawNode :=
  let ref t := match t with TNil => None | TVal v => Some (rawValue v) | _ => Some (seal (body t)) end in
  match t with
  | TNil => rawValue []
  | TVal v => rawValue v
  | TShort k t => rawShortNode (compact k) (ref t)
  | TFull ch => rawFullNode ((fix go l := match l with [] => [] | t :: l => ref t :: go l end) ch)
  end.

Definition refnode (t : tree) : option rawNode :=
  match t with TNil => None | TVal v => Some (rawValue v) | _ => Some (seal (body t)) end.

Lemma body_short k t : body (TShort k t) = rawShortNode (compact k) (refnode t).
Proof. done. Qed.

Lemma body_full ch : body (TFull ch) = rawFullNode (refnode <$> ch).
Proof. reflexivity. Qed.

(** The root hash of a tree. *)
Definition rootHash (t : tree) : Hash :=
  match t with TNil => emptyRoot | _ => keccak256 (encode (body t)) end.

(** The subtrees. *)
Inductive subtree (s : tree) : tree → Prop :=
| sub_refl : subtree s s
| sub_short k t : subtree s t → subtree s (TShort k t)
| sub_full ch t : t ∈ ch → subtree s t → subtree s (TFull ch).

(** Every subtree that is referred to by its hash is in the database. *)
Definition present (db : NodeDatabase) (t : tree) : Prop :=
  ∀ s h, subtree s t → refnode s = Some (rawHash h) → db !! BytesToHash h = Some (body s).

Lemma present_short db k t : present db (TShort k t) → present db t.
Proof. intros H s h Hs. apply H. by constructor. Qed.

Lemma present_child db ch t : present db (TFull ch) → t ∈ ch → present db t.
Proof. intros H Ht s h Hs. apply H. by eapply sub_full. Qed.

(** What flags and hashes say. *)
Definition valid (db : NodeDatabase) (fl : nodeFlag) (t : tree) : Prop :=
  (∀ h, nf_hash fl = Some h → refnode t = Some (rawHash h)) ∧ (nf_dirty fl = false → present db t).
Definition meant (db : NodeDatabase) (h : bytes) (t : tree) : Prop :=
  refnode t = Some (rawHash h) ∧ present db t.

Lemma valid_new db g t : valid db (newFlag g) t.
Proof. by split. Qed.

Lemma valid_gen db fl g t : valid db fl t → valid db (mkFlag (nf_hash fl) g (nf_dirty fl)) t.
Proof. intros [? ?]. by split. Qed.

Abbreviation nodes db := (expands (db_node db) (valid db) (meant db)).

(** ** More nodes in the database *)

Definition grows (db db' : NodeDatabase) : Prop := ∀ h c, db !! h = Some c → db' !! h = Some c.

Lemma grows_refl db : grows db db.
Proof. by intros h c. Qed.
Lemma grows_trans db1 db2 db3 : grows db1 db2 → grows db2 db3 → grows db1 db3.
Proof. unfold grows. auto. Qed.

Lemma present_grows db db' t : grows db db' → present db t → present db' t.
Proof. intros Hg H s h Hs Hr. by apply Hg, H. Qed.

Lemma valid_grows db db' fl t : grows db db' → valid db fl t → valid db' fl t.
Proof. intros Hg [H1 H2]. split; [done|]. intros Hd. by eapply present_grows, H2. Qed.

Lemma nodes_grow db db' n t : grows db db' → nodes db n t → nodes db' n t.
Proof.
  intros Hg H. induction H as [| |k n t fl Hv _ IH|ch tch fl Hv Hl _ IH|h f t [Hm Hp] Hf Hs _ IH].
  - constructor.
  - constructor.
  - apply expands_short; [by eapply valid_grows|done].
  - apply expands_full; [by eapply valid_grows|done|done].
  - apply (expands_hash _ _ _ h f); [|intros g|done|done].
    + split; [done|]. by eapply present_grows.
    + specialize (Hf g). unfold db_node in *. destruct (db !! BytesToHash h) eqn:E; [|done]. by rewrite (Hg _ _ E).
Qed.

(** ** Nodes read from the database *)

Context `{DS : !DigestSize}.

Lemma makeHashNode_hash x : BytesToHash (makeHashNode x) = keccak256 x.
Proof.
  unfold makeHashNode, Hash_Bytes. rewrite BytesToHash_int by apply be_bytes_ok.
  pose proof (keccak256_ok x) as Hk. rewrite be_int_be_bytes_id by exact Hk. by apply Z.mod_small.
Qed.

Lemma refnode_hash t h : refnode t = Some (rawHash h) →
  t ≠ TNil → h = makeHashNode (encode (body t)) ∧ BytesToHash h = keccak256 (encode (body t)) ∧ Hash_Bytes (BytesToHash h) = h.
Proof.
  intros H Hn. assert (h = makeHashNode (encode (body t))) as ->.
  { destruct t as [|v|k t|ch]; [done|done|..]; cbn [refnode] in H; unfold seal in H;
      destruct (_ <? 32)%nat; try (rewrite ?body_full in H; done); congruence. }
  rewrite makeHashNode_hash. done.
Qed.

(** A tree at its place: nothing, a value, or a subtree in minimal form. *)
Definition placed (t : tree) : Prop := t = TNil ∨ (∃ v, t = TVal v) ∨ wft t.

Lemma placed_short k t : wft (TShort k t) → placed t ∧ t ≠ TNil ∧ hex_ok k.
Proof.
  intros Hw. destruct (wft_below _ _ Hw) as [(Hk & v & _ & ->)|(Hk & Hf & ch & ->)].
  - split; [right; left; eauto|]. split; [done|]. right. clear -Hk. induction Hk as [|x k Hx _ (h & -> & Hh)].
    + exists []. split; [done|constructor].
    + exists (x :: h). split; [done|]. by constructor.
  - split; [by right; right|]. split; [done|by left].
Qed.

Lemma placed_child ch t : wft (TFull ch) → t ∈ ch → placed t.
Proof.
  intros Hw [n Hn]%list_elem_of_lookup_1. inversion Hw as [| |? Hl Hch H16 _]; subst.
  pose proof (lookup_lt_Some _ _ _ Hn) as Hlt. rewrite <- (child_lookup _ _ _ Hn).
  destruct (decide (child ch (Z.of_nat n) = TNil)) as [|Hnn]; [by left|]. right.
  destruct (decide (n = 16%nat)) as [->|].
  - left. destruct (H16 Hnn) as (v & _ & E). eauto.
  - right. apply Hch; [unfold nibble; lia|done].
Qed.

Lemma compact_hex k : hex_ok k → hexToCompact k = Some (compact k) ∧ compactToHex (compact k) = k.
Proof.
  intros [H|(h & -> & H)]; unfold compact, hexToCompact.
  - rewrite hasTerm_nibbles by done. destruct (compact_flagged 0 k H) as (c & E & _ & Ec); [by left|].
    cbn zeta in *. cbn [Z.shiftl Z.land] in *. rewrite E. split; [done|]. cbn. by rewrite Ec, app_nil_r.
  - rewrite hasTerm_snoc, Z.eqb_refl, removelast_snoc. destruct (compact_flagged 1 h H) as (c & E & _ & Ec); [by right|].
    cbn zeta in *. rewrite E. split; [done|]. exact Ec.
Qed.

(** The node a reference expands to. *)
Definition expanded (db : NodeDatabase) (t : tree) : Prop := ∀ g,
  match refnode t with None => t = TNil | Some c => nodes db (Some (expandNode None c g)) t end.

(** It is enough to expand the body. *)
Lemma expanded_body db t :
  t ≠ TNil → (∀ v, t ≠ TVal v) → present db t →
  (∀ hsh g, (∀ h, hsh = Some h → refnode t = Some (rawHash h)) →
    nodes db (Some (expandNode hsh (body t) g)) t ∧ stored (expandNode hsh (body t) g)) →
  expanded db t.
Proof.
  intros Hn Hv Hp Hb g. assert (refnode t = Some (seal (body t))) as Er by (destruct t; try done; by destruct (Hv v)).
  rewrite Er. unfold seal in *. destruct (_ <? 32)%nat eqn:Es.
  - by apply Hb.
  - destruct (refnode_hash t _ Er Hn) as (_ & E1 & E2). cbn [expandNode].
    apply (expands_hash _ _ _ _ (λ g, expandNode (Some (makeHashNode (encode (body t)))) (body t) g)).
    + by split.
    + intros g'. unfold db_node. rewrite (Hp t _ (sub_refl t) Er). by rewrite E2.
    + intros g'. apply Hb. congruence.
    + intros g'. apply Hb. congruence.
Qed.

Lemma present_expanded db t : placed t → present db t → expanded db t.
Proof.
  induction t as [|v|k t IH|ch IH] using tree_rec'; intros Hpl Hp.
  - by intros g.
  - intros g. cbn. constructor.
  - destruct Hpl as [?|[[v ?]|Hw]]; [done|done|]. destruct (placed_short k t Hw) as (Hpt & Hnt & Hk).
    apply expanded_body; [done|done|done|]. intros hsh g Hh. rewrite body_short. split; [|done]. cbn [expandNode].
    destruct (compact_hex k Hk) as [_ ->]. specialize (IH Hpt (present_short db k t Hp) g).
    destruct (refnode t) as [c|] eqn:Er; [|done]. apply expands_short; [by split|done].
  - destruct Hpl as [?|[[v ?]|Hw]]; [done|done|]. apply expanded_body; [done|done|done|]. intros hsh g Hh.
    rewrite body_full. split; [|done]. cbn [expandNode].
    assert (∀ l, (∀ t, t ∈ l → expanded db t) →
      let l' := (fix go l := match l with
                             | [] => []
                             | Some c :: l => Some (expandNode None c g) :: go l
                             | None :: l => None :: go l
                             end) (refnode <$> l) in
      length l' = length l ∧ ∀ i n t, l' !! i = Some n → l !! i = Some t → nodes db n t) as Hgo.
    { induction l as [|t l IHl]; intros Hl; [done|]. destruct IHl as [H1 H2]; [intros u Hu; apply Hl; by right|].
      pose proof (Hl t ltac:(by left) g) as Ht. cbn [fmap list_fmap]. cbn zeta in *.
      destruct (refnode t) as [c|]; (split; [cbn; by f_equal|]); intros [|i] n u Hn Hu; cbn in Hn, Hu; simplify_eq; try (by eapply H2).
      - done.
      - constructor. }
    destruct (Hgo ch) as [H1 H2].
    { intros t Ht. rewrite Forall_forall in IH. apply IH; [done|by eapply placed_child|by eapply present_child]. }
    apply expands_full; [by split|done|done].
Qed.

(** ** The hasher *)

(** Among the nodes there are, different ones have different hashes. *)
Context (known : rawNode → Prop).
Hypothesis no_collision : ∀ c c', known c → known c' → keccak256 (encode c) = keccak256 (encode c') → c = c'.

(** The nodes of a tree are among them. *)
Definition covered (t : tree) : Prop := ∀ s, subtree s t → known (body s).

Lemma covered_short k t : covered (TShort k t) → covered t.
Proof. intros H s Hs. apply H. by constructor. Qed.

Lemma covered_child ch t : covered (TFull ch) → t ∈ ch → covered t.
Proof. intros H Ht s Hs. apply H. by eapply sub_full. Qed.

Context (cachegen cachelimit : Z).
Abbreviation hash := (Hasher.hash encode cachegen cachelimit).

(** The entries of the database are under their hashes. *)
Definition addressed (db : NodeDatabase) : Prop :=
  ∀ h c, db !! h = Some c → h = keccak256 (encode c) ∧ known c.

(** The database a run works on, in [D]. *)
Definition on (D : NodeDatabase) (db : option NodeDatabase) : Prop := db = None ∨ db = Some D.

(** The result of hashing something that stands for [t]: [R] says what the new node
    is. *)
Record hashes (D : NodeDatabase) (db db' : option NodeDatabase) (D' : NodeDatabase) : Prop := {
  hs_db : db' = match db with None => None | Some _ => Some D' end;
  hs_grows : grows D D';
  hs_addressed : addressed D';
  hs_same : db = None → D' = D
}.

Lemma hashes_refl D db : on D db → addressed D → hashes D db db D.
Proof. intros Ho Ha. split; [by destruct Ho as [->| ->]|apply grows_refl|done|done]. Qed.

Lemma hashes_on D db db' D' : hashes D db db' D' → on D' db'.
Proof. intros [-> _ _ _]. destruct db; [by right|by left]. Qed.

Lemma hashes_trans D db D1 db1 D2 db2 : hashes D db db1 D1 → hashes D1 db1 db2 D2 → hashes D db db2 D2.
Proof.
  intros [E1 G1 A1 S1] [E2 G2 A2 S2]. split; [subst; by destruct db|by eapply grows_trans|done|].
  intros ->. subst db1. rewrite S2, S1; done.
Qed.

(** A tree that is referred to by its hash. *)
Definition hashed_root (t : tree) : Prop := ∃ h, refnode t = Some (rawHash h).

Lemma store_spec t cached D db force :
  t ≠ TNil → (∀ v, t ≠ TVal v) → known (body t) → on D db → addressed D → (force = true → hashed_root t) →
  (∀ h, cached = Some h → refnode t = Some (rawHash h)) →
  ∃ c db' D', store encode cached (body t) db force = (c, db') ∧ refnode t = Some c ∧ hashes D db db' D' ∧
    (db' = Some D' → ∀ h, refnode t = Some (rawHash h) → D' !! BytesToHash h = Some (body t)).
Proof.
  intros Hn Hv Hkn Ho Ha Hf Hc. assert (refnode t = Some (seal (body t))) as Er by (destruct t; try done; by destruct (Hv v)).
  assert (store encode cached (body t) db force =
    if (length (encode (body t)) <? 32)%nat && negb force then (body t, db)
    else let hash := match cached with Some h => h | None => makeHashNode (encode (body t)) end in
         (rawHash hash, db_insert (BytesToHash hash) (body t) <$> db)) as ->.
  { destruct t as [|v|k t|ch]; [done|by destruct (Hv v)|done|by rewrite body_full]. }
  destruct ((length (encode (body t)) <? 32)%nat) eqn:Es.
  - destruct force; cbn [andb negb].
    { destruct (Hf eq_refl) as [h Eh]. exfalso. rewrite Er in Eh. unfold seal in Eh. rewrite Es in Eh.
      destruct t as [|v|k t|ch]; [done|by destruct (Hv v)|done|]. by rewrite body_full in Eh. }
    exists (body t), db, D. rewrite Er. unfold seal. rewrite Es. split_and!; [done|done|by apply hashes_refl|].
    intros _ h [= Eh]. destruct t as [|v|k t|ch]; [done|by destruct (Hv v)|done|]. by rewrite body_full in Eh.
  - cbn [andb]. set (h := makeHashNode (encode (body t))).
    assert (refnode t = Some (rawHash h)) as Eh by (rewrite Er; unfold seal; by rewrite Es).
    replace (match cached with Some h => h | None => h end) with h by (destruct cached as [h'|]; [specialize (Hc h' eq_refl); congruence|done]).
    cbn zeta. rewrite Eh. destruct (refnode_hash t h Eh Hn) as (_ & Ek & _).
    assert (∀ D, addressed D → grows D (db_insert (BytesToHash h) (body t) D) ∧ addressed (db_insert (BytesToHash h) (body t) D) ∧
      db_insert (BytesToHash h) (body t) D !! BytesToHash h = Some (body t)) as Hins.
    { intros D0 Ha0. unfold db_insert. destruct (D0 !! BytesToHash h) as [c|] eqn:Ec.
      - split; [apply grows_refl|]. split; [done|]. rewrite Ec. f_equal. destruct (Ha0 _ _ Ec) as [Eh' Hkc].
        apply no_collision; [done|done|]. rewrite <- Eh'. exact Ek.
      - split_and!.
        + intros h' c' Hc'. rewrite lookup_insert_ne; [done|]. intros <-. congruence.
        + intros h' c' [[<- <-]|[_ ?]]%lookup_insert_Some; [by split|by apply Ha0].
        + by rewrite lookup_insert_eq. }
    destruct Ho as [->| ->].
    + exists (rawHash h), None, D. split_and!; [done|done|by apply hashes_refl; [left|]|done].
    + destruct (Hins D Ha) as (G & A & L). eexists (rawHash h), _, _. split_and!; [done|done|by split|].
      intros _ h' [= <-]. done.
Qed.

(** The subtree itself, and those below it. *)
Definition here (db : NodeDatabase) (t : tree) : Prop :=
  ∀ h, refnode t = Some (rawHash h) → db !! BytesToHash h = Some (body t).

Lemma present_short_intro db k t : here db (TShort k t) → present db t → present db (TShort k t).
Proof. intros H1 H2 s h Hs. inversion Hs; subst; [apply H1|by apply H2]. Qed.

Lemma present_full_intro db ch : here db (TFull ch) → (∀ t, t ∈ ch → present db t) → present db (TFull ch).
Proof. intros H1 H2 s h Hs. inversion Hs as [|?|? t Ht Hst]; subst; [apply H1|by apply (H2 t)]. Qed.

(** The flags of a node that was hashed. *)
Lemma cacheFlag_valid D D' db' fl t c :
  valid D fl t → grows D D' → refnode t = Some c → (db' = None ∨ present D' t) → valid D' (cacheFlag fl c db') t.
Proof.
  intros [H1 H2] Hg Er Hp. split; cbn.
  - intros h. by destruct c; [..|intros [= ->]|].
  - destruct db'; [intros _; by destruct Hp|]. intros Hd. by eapply present_grows, H2.
Qed.

(** The result of hashing a node. *)
Definition hash_ok_for (t : tree) : Prop := ∀ D db n force, covered t →
  nodes D (Some n) t → on D db → addressed D → (force = true → hashed_root t) →
  ∃ c n' db' D', hash n db force = Some (c, n', db') ∧ refnode t = Some c ∧ hashes D db db' D' ∧
    nodes D' (Some n') t ∧ (db' = Some D' → present D' t).

Lemma shortcut_spec D db n fl t c n' :
  nodes D (Some n) t → valid D fl t → wft t → on D db → shortcut cachegen cachelimit n fl db = Some (c, n') →
  refnode t = Some c ∧ nodes D (Some n') t ∧ (db = Some D → present D t).
Proof.
  intros Hn [Hv Hd] Hw Ho. unfold shortcut. destruct (nf_hash fl) as [h|]; [|done]. specialize (Hv h eq_refl).
  destruct db as [db|]; [|by intros [= <- <-]]. unfold canUnload. destruct (nf_dirty fl); cbn [negb andb]; [done|].
  specialize (Hd eq_refl). destruct (_ <=? _); intros [= <- <-]; [|done]. split; [done|]. split; [|done].
  pose proof (present_expanded D t ltac:(by right; right) Hd 0) as He. by rewrite Hv in He.
Qed.

(** A node in memory, once its children are done. *)
Lemma finish_spec t D db D1 db1 fl force (mk : nodeFlag → node) :
  wft t → known (body t) → valid D fl t → hashes D db db1 D1 → (force = true → hashed_root t) →
  (∀ fl' D', grows D1 D' → valid D' fl' t → nodes D' (Some (mk fl')) t) →
  (∀ D', grows D1 D' → db1 = Some D1 → here D' t → present D' t) →
  ∃ c n' db' D', (let '(hashed, db) := store encode (nf_hash fl) (body t) db1 force in
                  Some (hashed, mk (cacheFlag fl hashed db), db)) = Some (c, n', db') ∧
    refnode t = Some c ∧ hashes D db db' D' ∧ nodes D' (Some n') t ∧ (db' = Some D' → present D' t).
Proof.
  intros Hw Hkn Hv Hh Hf Hn Hp.
  destruct (store_spec t (nf_hash fl) D1 db1 force) as (c & db' & D' & E & Er & Hh' & Hin);
    [by apply wft_not_nil|intros v ->; inversion Hw|done|by eapply hashes_on|apply Hh|done|apply Hv|].
  rewrite E. eexists c, _, db', D'. split; [done|]. split; [done|].
  assert (db' = Some D' → present D' t) as Hpr.
  { intros Ed. apply Hp; [apply Hh'| |].
    - destruct Hh' as [-> _ _ _]. destruct (hashes_on _ _ _ _ Hh) as [->| ->]; [done|done].
    - intros h. by apply Hin. }
  split; [by eapply hashes_trans|]. split; [|done]. apply Hn; [apply Hh'|].
  eapply cacheFlag_valid; [exact Hv|eapply grows_trans; [apply Hh|apply Hh']|done|].
  destruct (hashes_on _ _ _ _ Hh') as [->|Ed]; [by left|right; auto].
Qed.

(** The child of a short node. *)
Lemma hash_val k t D db n0 :
  (wft t → hash_ok_for t) → wft (TShort k t) → covered (TShort k t) → nodes D n0 t → on D db → addressed D →
  ∃ cval nval db1 D1, (match n0 with
      | None => None
      | Some (valueNode v) => Some (rawValue v, valueNode v, db)
      | Some c => hash c db false
      end) = Some (cval, nval, db1) ∧ refnode t = Some cval ∧ hashes D db db1 D1 ∧ nodes D1 (Some nval) t ∧ (db1 = Some D1 → present D1 t).
Proof.
  intros IH Hw Hcov He0 Ho Ha. destruct (placed_short k t Hw) as (Hpt & Hnt & _).
  destruct n0 as [n0|]; [|by inversion He0; subst]. destruct Hpt as [?|[[v ->]|Hwt]]; [done|..].
  - inversion He0 as [| | | |? f ? _ _ Hs Hx]; subst.
    + exists (rawValue v), (valueNode v), db, D. split_and!; [done|done|by apply hashes_refl|constructor|].
      intros _ s h Hs. inversion Hs; subst. done.
    + specialize (Hs 0). specialize (Hx 0). destruct (f 0); try done; inversion Hx.
  - destruct (IH Hwt D db n0 false (covered_short _ _ Hcov) He0 Ho Ha) as (c & n' & db' & D' & E & R & H & N & P); [done|].
    exists c, n', db', D'. split_and!; try done. destruct n0; try done. inversion He0; subst. inversion Hwt.
Qed.

Lemma hash_short k t : (wft t → hash_ok_for t) → wft (TShort k t) → hash_ok_for (TShort k t).
Proof.
  intros IH Hw D db n force Hcov He Ho Ha Hf. destruct (placed_short k t Hw) as (Hpt & Hnt & Hk).
  inversion He as [| |? n0 ? fl Hv He0| |h f ? [Hm Hp]]; subst; cycle 1.
  { exists (rawHash h), (hashNode h), db, D. split_and!; [done|done|by apply hashes_refl|done|done]. }
  cbn [Hasher.hash]. destruct (shortcut _ _ _ fl db) as [[c n']|] eqn:Es.
  { destruct (shortcut_spec _ _ _ _ _ _ _ He Hv Hw Ho Es) as (? & ? & ?).
    exists c, n', db, D. split_and!; [done|done|by apply hashes_refl|done|done]. }
  destruct (compact_hex k Hk) as [Ek _]. rewrite Ek. cbn [mbind option_bind].
  destruct (hash_val k t D db n0 IH Hw Hcov He0 Ho Ha) as (cval & nval & db1 & D1 & E1 & R1 & H1 & N1 & P1).
  rewrite E1. cbn [mbind option_bind].
  pose proof (finish_spec (TShort k t) D db D1 db1 fl force (shortNode k (Some nval)) Hw (Hcov _ (sub_refl _)) Hv H1 Hf) as HF.
  rewrite body_short, R1 in HF. apply HF.
  - intros fl' D' Hg Hv'. apply expands_short; [done|]. by eapply nodes_grow.
  - intros D' Hg Ed Hh. apply present_short_intro; [done|]. eapply present_grows; [done|by apply P1].
Qed.

Abbreviation kidsOf D := (kids (db_node D) (valid D) (meant D)).

(** What may hang at index [i] of a full node. *)
Definition at_place (i : nat) (t : tree) : Prop :=
  t = TNil ∨ (if (i <? 16)%nat then wft t else ∃ v, t = TVal v).

Lemma kids_grow D D' ch tch : grows D D' → kidsOf D ch tch → kidsOf D' ch tch.
Proof. intros Hg [H1 H2]. split; [done|]. intros i n t Hn Ht. by eapply nodes_grow, H2. Qed.

Lemma kids_cons_intro D n ch t tch : nodes D n t → kidsOf D ch tch → kidsOf D (n :: ch) (t :: tch).
Proof. intros Hn [H1 H2]. split; [cbn; congruence|]. intros [|i] m u Hm Hu; [cbn in *; congruence|by eapply H2]. Qed.

Lemma hashKids_spec tl : (∀ t, t ∈ tl → wft t → hash_ok_for t) → (∀ t, t ∈ tl → covered t) →
  ∀ i l D db, (∀ j t, tl !! j = Some t → at_place (i + j) t) → kidsOf D l tl → on D db → addressed D →
  ∃ ns db' D', hashKids (λ c db, hash c db false) i l db = Some (refnode <$> tl, ns, db') ∧
    hashes D db db' D' ∧ kidsOf D' ns tl ∧ (db' = Some D' → ∀ t, t ∈ tl → present D' t).
Proof.
  induction tl as [|t tl IH]; intros Hok Hcov i l D db Hpl Hk Ho Ha.
  { destruct l; [|by destruct Hk]. exists [], db, D. split_and!; [done|by apply hashes_refl|done|]. by intros _ t ?%elem_of_nil. }
  destruct l as [|n l]; [by destruct Hk|]. destruct (kids_cons _ _ _ _ _ _ _ Hk) as [Hn Hk'].
  pose proof (Hpl O t eq_refl) as Ht. rewrite Nat.add_0_r in Ht.
  assert (∀ j u, tl !! j = Some u → at_place (S i + j) u) as Hpl'.
  { intros j u Hu. replace (S i + j)%nat with (i + S j)%nat by lia. by apply Hpl. }
  assert (∀ u, u ∈ tl → wft u → hash_ok_for u) as Hok' by (intros u Hu; apply Hok; by right).
  assert (∀ u, u ∈ tl → covered u) as Hcov' by (intros u Hu; apply Hcov; by right).
  destruct n as [c|]; cycle 1.
  { apply expands_None in Hn as ->. destruct (IH Hok' Hcov' (S i) l D db Hpl' Hk' Ho Ha) as (ns & db' & D' & E & H & K & P).
    exists (None :: ns), db', D'. cbn [hashKids]. rewrite E. split_and!; [done|done|apply kids_cons_intro; [constructor|done]|].
    intros Ed u [->|Hu]%elem_of_cons; [|by apply P]. intros s h Hs. inversion Hs; subst. done. }
  assert (∃ cc nc db1 D1, (if (i <? 16)%nat then hash c db false else Some (simplifyNode c, c, db)) = Some (cc, nc, db1) ∧
    refnode t = Some cc ∧ hashes D db db1 D1 ∧ nodes D1 (Some nc) t ∧ (db1 = Some D1 → present D1 t))
    as (cc & nc & db1 & D1 & E1 & R1 & H1 & N1 & P1).
  { destruct Ht as [->|Ht]; [by apply expands_TNil in Hn|]. destruct (i <? 16)%nat.
    - destruct (Hok t ltac:(by left) Ht D db c false (Hcov t ltac:(by left)) Hn Ho Ha) as (c' & n' & db' & D' & ? & ? & ? & ? & ?); [done|].
      by exists c', n', db', D'.
    - destruct Ht as [v ->]. inversion Hn as [| | | |? f ? _ _ Hs Hx]; subst.
      + exists (rawValue v), (valueNode v), db, D. split_and!; [done|done|by apply hashes_refl|done|].
        intros _ s h Hs. inversion Hs; subst. done.
      + specialize (Hs 0). specialize (Hx 0). destruct (f 0); try done; inversion Hx. }
  destruct (IH Hok' Hcov' (S i) l D1 db1 Hpl') as (ns & db' & D' & E & H & K & P);
    [eapply kids_grow; [apply H1|done]|by eapply hashes_on|apply H1|].
  exists (Some nc :: ns), db', D'. cbn [hashKids]. rewrite E1. cbn [mbind option_bind]. rewrite E. cbn [mbind option_bind fmap list_fmap].
  rewrite R1. split_and!; [done|by eapply hashes_trans|apply kids_cons_intro; [eapply nodes_grow; [apply H|done]|done]|].
  intros Ed u [->|Hu]%elem_of_cons; [|by apply P]. eapply present_grows; [apply H|]. apply P1.
  destruct (hashes_on _ _ _ _ H1) as [->|Ed1]; [|done]. destruct H as [-> _ _ _]. done.
Qed.

Lemma full_places ch j t : wft (TFull ch) → ch !! j = Some t → at_place j t.
Proof.
  intros Hw Hj. inversion Hw as [| |? Hl17 Hwch H16 _]; subst.
  pose proof (lookup_lt_Some _ _ _ Hj) as Hlt. rewrite <- (child_lookup _ _ _ Hj).
  destruct (decide (child ch (Z.of_nat j) = TNil)) as [|Hnn]; [by left|right].
  destruct (Nat.ltb_spec j 16); [apply Hwch; [unfold nibble; lia|done]|].
  assert (j = 16%nat) as -> by lia. destruct (H16 Hnn) as (v & _ & E). by exists v.
Qed.

Lemma hash_full ch : (∀ t, t ∈ ch → wft t → hash_ok_for t) → wft (TFull ch) → hash_ok_for (TFull ch).
Proof.
  intros IH Hw D db n force Hcov He Ho Ha Hf.
  inversion He as [| | |nch ? fl Hv Hl Hch|h f ? [Hm Hp]]; subst; cycle 1.
  { exists (rawHash h), (hashNode h), db, D. split_and!; [done|done|by apply hashes_refl|done|done]. }
  cbn [Hasher.hash]. destruct (shortcut _ _ _ fl db) as [[c n']|] eqn:Es.
  { destruct (shortcut_spec _ _ _ _ _ _ _ He Hv Hw Ho Es) as (? & ? & ?).
    exists c, n', db, D. split_and!; [done|done|by apply hashes_refl|done|done]. }
  destruct (hashKids_spec ch IH (λ t, covered_child ch t Hcov) O nch D db) as (ns & db1 & D1 & E1 & H1 & K1 & P1);
    [intros j t; by apply full_places|done|done|done|].
  rewrite E1. cbn [mbind option_bind].
  pose proof (finish_spec (TFull ch) D db D1 db1 fl force (fullNode ns) Hw (Hcov _ (sub_refl _)) Hv H1 Hf) as HF.
  rewrite body_full in HF. apply HF.
  - intros fl' D' Hg Hv'. destruct (kids_grow _ D' _ _ Hg K1). by apply expands_full.
  - intros D' Hg Ed Hh. apply present_full_intro; [done|]. intros t Ht. eapply present_grows; [done|by apply P1].
Qed.

Lemma hash_wft t : wft t → hash_ok_for t.
Proof.
  induction t as [|v|k t IH|ch IH] using tree_rec'; intros Hw; [inversion Hw|inversion Hw|by apply hash_short|].
  apply hash_full; [|done]. rewrite Forall_forall in IH. done.
Qed.

(** ** Roots *)

(** The trie of [root] above the database [D] is complete, its cached hashes are right,
    and what it does not mark as dirty is in the database. *)
Definition cached (D : NodeDatabase) (root : option node) (t : tree) : Prop :=
  sound_as (db_node D) (valid D) (meant D) root t.

(** The trees the hasher is used on: known nodes, and a root of at least 32 bytes, as
    every trie with hashed keys has. *)
Definition rooted (t : tree) : Prop := covered t ∧ (t = TNil ∨ hashed_root t).

Lemma cached_get D root t key fuel :
  cached D root t → Forall byte_ok key → enough (length key) fuel →
  ∃ root', TryGet (db_node D) cachegen fuel root key = Ret (tget t (keybytesToHex key), root') ∧ cached D root' t.
Proof. apply sound_get. intros fl u. apply valid_gen. Qed.

Lemma cached_update D root t key value fuel :
  cached D root t → Forall byte_ok key → enough (length key) fuel →
  ∃ root' t', TryUpdate (db_node D) cachegen fuel root key value = Ret root' ∧ cached D root' t' ∧
    updated t t' (keybytesToHex key) value.
Proof. apply sound_update. intros u. apply valid_new. Qed.

Lemma hashRoot_spec D db root t :
  cached D root t → rooted t → addressed D → on D db →
  ∃ root' db' D', hashRoot encode cachegen cachelimit root db = Some (rootHash t, root', db') ∧
    hashes D db db' D' ∧ cached D' root' t ∧ (db' = Some D' → present D' t).
Proof.
  intros (He & Hw & Hb) [Hcov Hbig] Ha Ho. destruct Hw as [->|Hw].
  { apply expands_TNil in He as ->. exists None, db, D. split_and!; [done|by apply hashes_refl|by split; [constructor|split; [left|]]|].
    intros _ s h Hs. inversion Hs; subst. done. }
  destruct Hbig as [->|[h Hh]]; [inversion Hw|]. destruct root as [n|]; [|apply expands_None in He as ->; inversion Hw].
  destruct (hash_wft t Hw D db n true Hcov He Ho Ha) as (c & n' & db' & D' & E & R & H & N & P); [by exists h|].
  cbn [hashRoot]. rewrite E. cbn [mbind option_bind]. assert (c = rawHash h) as -> by congruence.
  destruct (refnode_hash t h Hh (wft_not_nil t Hw)) as (_ & Ek & _).
  exists (Some n'), db', D'. split_and!; [|done|by split; [|split; [right|]]|done].
  rewrite Ek. unfold rootHash. destruct t; [inversion Hw|done..].
Qed.

Lemma cached_grows D D' root t : grows D D' → cached D root t → cached D' root t.
Proof. intros Hg (He & H). split; [by eapply nodes_grow|done]. Qed.

(** C16. The root hash is a function of what the trie stores.  Two tries above possibly
    different databases, under which every key reads the same, have the same root hash,
    whatever was inserted or deleted in which order, whichever nodes are loaded and
    whichever hashes are cached; it is the hash of the tree computed without caches. *)
Theorem root_hash_determined D D' root root' t t' :
  cached D root t → cached D' root' t' → rooted t → rooted t' → addressed D → addressed D' →
  (∀ key fuel, Forall byte_ok key → enough (length key) fuel →
    fst <$> (match TryGet (db_node D) cachegen fuel root key with Ret r => Some r | _ => None end) =
    fst <$> (match TryGet (db_node D') cachegen fuel root' key with Ret r => Some r | _ => None end)) →
  ∃ r r', hashRoot encode cachegen cachelimit root None = Some (rootHash t, r, None) ∧ cached D r t ∧
    hashRoot encode cachegen cachelimit root' None = Some (rootHash t, r', None) ∧ cached D' r' t.
Proof.
  intros Hc Hc' Hr Hr' Ha Ha' Hg. assert (t' = t) as ->.
  { apply agree_eq; [apply Hc'|apply Hc|]. intros k Hk.
    assert (∀ key, Forall byte_ok key → tget t' (keybytesToHex key) = tget t (keybytesToHex key)) as Hag.
    { intros key Hkey. assert (enough (length key) (4 * length key + 4)) as Hfu by (unfold enough; lia).
      destruct (cached_get D root t key _ Hc Hkey Hfu) as (r1 & E1 & _).
      destruct (cached_get D' root' t' key _ Hc' Hkey Hfu) as (r2 & E2 & _).
      specialize (Hg key _ Hkey Hfu). rewrite E1, E2 in Hg. cbn in Hg. congruence. }
    destruct (decide (tget t' k = [])) as [E|Hn].
    - destruct (decide (tget t k = [])) as [E'|Hn]; [congruence|].
      destruct (proj2 (proj2 Hc) k Hk Hn) as (key & Hkey & ->). symmetry. by rewrite Hag.
    - destruct (proj2 (proj2 Hc') k Hk Hn) as (key & Hkey & ->). by apply Hag. }
  destruct (hashRoot_spec D None root t Hc Hr Ha) as (r & db1 & D1 & E1 & [-> _ _ S1] & C1 & _); [by left|].
  destruct (hashRoot_spec D' None root' t Hc' Hr' Ha') as (r' & db2 & D2 & E2 & [-> _ _ S2] & C2 & _); [by left|].
  rewrite S1 in C1 by done. rewrite S2 in C2 by done. by exists r, r'.
Qed.

(** C33. A committed trie can be opened again.  [Commit] gives the root hash, keeps
    every node the database had, and leaves a database from which [New] at that root
    hash gives a trie with the same content, as complete and as correctly cached as the
    one that was committed. *)
Theorem commit_reopens D root t :
  cached D root t → rooted t → addressed D →
  (∀ c, known c → keccak256 (encode c) ≠ 0 ∧ keccak256 (encode c) ≠ emptyRoot) →
  ∃ root' D' reopened,
    hashRoot encode cachegen cachelimit root (Some D) = Some (rootHash t, root', Some D') ∧
    grows D D' ∧ addressed D' ∧ cached D' root' t ∧
    New (rootHash t) D' = Some reopened ∧ cached D' reopened t.
Proof.
  intros Hc Hr Ha Hz.
  destruct (hashRoot_spec D (Some D) root t Hc Hr Ha) as (r & db1 & D1 & E1 & [-> G1 A1 _] & C1 & P1); [by right|].
  specialize (P1 eq_refl). destruct Hc as (_ & Hw & Hb). destruct Hw as [->|Hw].
  { exists r, D1, None. split_and!; try done. split; [constructor|]. split; [by left|done]. }
  destruct Hr as [Hcov [->|[h Hh]]]; [inversion Hw|].
  destruct (refnode_hash t h Hh (wft_not_nil t Hw)) as (_ & Ek & Eb).
  assert (rootHash t = keccak256 (encode (body t))) as Er by (unfold rootHash; destruct t; [inversion Hw|done..]).
  assert (db_node D1 (BytesToHash h) 0 = Some (expandNode (Some h) (body t) 0)) as En.
  { unfold db_node. rewrite (P1 t h (sub_refl t) Hh). by rewrite Eb. }
  exists r, D1, (Some (expandNode (Some h) (body t) 0)). destruct (Hz _ (Hcov _ (sub_refl _))) as [Hz1 Hz2].
  split_and!; try done.
  - unfold New. rewrite Er. destruct (Z.eqb_spec (keccak256 (encode (body t))) 0); [done|].
    destruct (Z.eqb_spec (keccak256 (encode (body t))) emptyRoot); [done|]. cbn [orb]. by rewrite <- Ek, En.
  - split; [|split; [by right|done]]. pose proof (present_expanded D1 t ltac:(by right; right) P1 0) as He.
    rewrite Hh in He. cbn [expandNode] in He. inversion He as [| | | |? f ? _ Hf _ Hx]; subst.
    specialize (Hf 0). specialize (Hx 0). rewrite En in Hf. injection Hf as Hf. by rewrite Hf.
Qed.
End reference.

(** ** A concrete trie *)

Import Toy.

Module OneLeaf.
Fixpoint encode (n : rawNode) : bytes :=
  match n with
  | rawFullNode children => 2 :: (fix go l := match l with
                                              | [] => []
                                              | Some c :: l => encode c ++ go l
                                              | None :: l => 128 :: go l
                                              end) children
  | rawShortNode key val => 1 :: key ++ match val with Some c => encode c | None => [] end
  | rawHash h => 160 :: h
  | rawValue v => v
  end.

Definition key : bytes := [18; 52].
Definition value : bytes := replicate 40 7.
Definition t : tree := TShort (keybytesToHex key) (TVal value).
Definition leaf (fl : nodeFlag) : option node := Some (shortNode (keybytesToHex key) (Some (valueNode value)) fl).
Definition fresh : option node := leaf (newFlag 0).
Definition hashed : option node := leaf (mkFlag (Some (makeHashNode (encode (body encode t)))) 0 true).
Definition known (c : rawNode) : Prop := c = body encode t ∨ c = rawValue value.

Lemma key_bytes : Forall byte_ok key.
Proof. repeat constructor; unfold byte_ok; lia. Qed.

Lemma distinct : keccak256 (encode (body encode t)) ≠ keccak256 (encode (rawValue value)).
Proof. vm_compute. discriminate. Qed.

Lemma no_collision c c' : known c → known c' → keccak256 (encode c) = keccak256 (encode c') → c = c'.
Proof.
  intros [-> | ->] [-> | ->] E; [done| | |done]; exfalso; [apply distinct; exact E|apply distinct; symmetry; exact E].
Qed.

Lemma nonzero c : known c → keccak256 (encode c) ≠ 0 ∧ keccak256 (encode c) ≠ emptyRoot.
Proof. intros [-> | ->]; (split; [vm_compute; discriminate|vm_compute; discriminate]). Qed.

Lemma refnode_t : refnode encode t = Some (rawHash (makeHashNode (encode (body encode t)))).
Proof. vm_compute. reflexivity. Qed.

Lemma leaf_cached D fl : valid encode D fl t → cached encode D (leaf fl) t.
Proof.
  intros Hv. pose proof (hex_key key key_bytes) as Hk. split_and!.
  - apply expands_short; [done|]. constructor.
  - right. by constructor.
  - intros k Hk' Hg. exists key. split; [apply key_bytes|]. unfold t in Hg. rewrite tget_short, strip_key in Hg by done.
    by destruct (decide (k = keybytesToHex key)).
Qed.

Lemma fresh_cached D : cached encode D fresh t.
Proof. apply leaf_cached, valid_new. Qed.

Lemma hashed_cached D : cached encode D hashed t.
Proof. apply leaf_cached. split; [|done]. intros h [= <-]. apply refnode_t. Qed.

Lemma t_rooted : rooted encode known t.
Proof.
  split; [|right; eexists; apply refnode_t]. intros s Hs. inversion Hs as [|? ? Hs'|]; subst; [by left|].
  inversion Hs'; subst. by right.
Qed.

Lemma empty_addressed : addressed encode known ∅.
Proof. by intros h c ?%lookup_empty_Some. Qed.

Lemma same_reads k fuel : Forall byte_ok k → enough (length k) fuel →
  fst <$> (match TryGet (db_node ∅) 0 fuel fresh k with Ret r => Some r | _ => None end) =
  fst <$> (match TryGet (db_node ∅) 0 fuel hashed k with Ret r => Some r | _ => None end).
Proof.
  intros Hk Hf. destruct (cached_get encode 0 ∅ fresh t k fuel (fresh_cached ∅) Hk Hf) as (r & -> & _).
  by destruct (cached_get encode 0 ∅ hashed t k fuel (hashed_cached ∅) Hk Hf) as (r' & -> & _).
Qed.
End OneLeaf.

Lemma root_hash_determined_witness :
  ∃ r r', hashRoot OneLeaf.encode 0 120 OneLeaf.fresh None = Some (rootHash OneLeaf.encode OneLeaf.t, r, None) ∧
    cached OneLeaf.encode ∅ r OneLeaf.t ∧
    hashRoot OneLeaf.encode 0 120 OneLeaf.hashed None = Some (rootHash OneLeaf.encode OneLeaf.t, r', None) ∧
    cached OneLeaf.encode ∅ r' OneLeaf.t.
Proof.
  apply (root_hash_determined OneLeaf.encode OneLeaf.known OneLeaf.no_collision 0 120 ∅ ∅
    OneLeaf.fresh OneLeaf.hashed OneLeaf.t OneLeaf.t).
  - apply OneLeaf.fresh_cached.
  - apply OneLeaf.hashed_cached.
  - apply OneLeaf.t_rooted.
  - apply OneLeaf.t_rooted.
  - apply OneLeaf.empty_addressed.
  - apply OneLeaf.empty_addressed.
  - apply OneLeaf.same_reads.
Defined.

Lemma commit_reopens_witness :
  ∃ root' D' reopened,
    hashRoot OneLeaf.encode 0 120 OneLeaf.fresh (Some ∅) = Some (rootHash OneLeaf.encode OneLeaf.t, root', Some D') ∧
    grows ∅ D' ∧ addressed OneLeaf.encode OneLeaf.known D' ∧ cached OneLeaf.encode D' root' OneLeaf.t ∧
    New (rootHash OneLeaf.encode OneLeaf.t) D' = Some reopened ∧ cached OneLeaf.encode D' reopened OneLeaf.t.
Proof.
  apply (commit_reopens OneLeaf.encode OneLeaf.known OneLeaf.no_collision 0 120 ∅ OneLeaf.fresh OneLeaf.t).
  - apply OneLeaf.fresh_cached.
  - apply OneLeaf.t_rooted.
  - apply OneLeaf.empty_addressed.
  - apply OneLeaf.nonzero.
Defined.
