(* ===== verification/StateDB.v ===== *)
(** * StateDB: the journalled account state of src/core/state

    [StateDB] (src/core/state/statedb.go) keeps live copies of accounts above a
    Merkle trie, writes every change to a journal (journal.go) and undoes changes
    with it; an account's own operations are those of [stateObject]
    (state_object.go).  A method that goes through a pointer to a live object
    writes the object back under its address.  [None] is a panic. *)

From S2P Require Import Prelude Bytes Params Crypto MinerContract.

Local Open Scope Z_scope.

(** An error of the database below, of which only its presence matters. *)
Definition db_error : Type := Z.

(** [Account] of state_object.go; balances are never changed in place. *)
Record Account := mkAccount {
  ac_Nonce : Z;       (* uint64 *)
  ac_Balance : Z;     (* *big.Int *)
  ac_Root : Hash;
  ac_CodeHash : Hash
}.
#[global] Instance Account_fields : Fields Account := λ a,
  mkAccount (ac_Nonce a) (ac_Balance a) (ac_Root a) (ac_CodeHash a).

(** The interfaces [Database] and [Trie] of database.go and the RLP codec of what
    is stored in the tries. *)
Class StateDatabase := {
  Database : Type;
  Trie : Type;
  EmptyTrie : Trie;                       (* opened at the zero root *)
  CopyTrie : Trie → Trie;
  OpenTrie : Database → Hash → Trie + db_error;
  OpenStorageTrie : Database → Hash → Hash → Trie + db_error;
  ContractCode : Database → Hash → Hash → option bytes * option db_error;
  ContractCodeSize : Database → Hash → Hash → Z * option db_error;
  TryGet : Trie → bytes → bytes * option db_error;
  TryUpdate : Trie → bytes → bytes → Trie * option db_error;
  TryDelete : Trie → bytes → Trie * option db_error;
  Trie_Hash : Trie → Hash;
  (* the callback gives the hashes a leaf refers to *)
  Trie_Commit : Database → option (bytes → list Hash) → Trie → Database * Trie * (Hash + db_error);
  InsertBlob : Database → Hash → bytes → Database;
  encode_account : Account → option bytes;
  decode_account : bytes → option Account;
  encode_value : bytes → bytes;
  rlp_Split : bytes → bytes * option db_error
}.

Record Log := mkLog {
  lg_Address : Address; lg_Topics : list Hash; lg_Data : bytes; lg_BlockNumber : Z;
  lg_TxHash : Hash; lg_BlockHash : Hash; lg_TxIndex : Z; lg_Index : Z
}.
#[global] Instance Log_fields : Fields Log := λ l,
  mkLog (lg_Address l) (lg_Topics l) (lg_Data l) (lg_BlockNumber l)
    (lg_TxHash l) (lg_BlockHash l) (lg_TxIndex l) (lg_Index l).

Definition ripemd : Address := 3.

(** ** Accounts being modified (state_object.go) *)

Section objects.
Context `{CR : Crypto} `{SD : StateDatabase}.

Definition emptyCodeHash : Hash := keccak256 [].

Record stateObject := mkStateObject {
  so_address : Address;
  so_data : Account;
  so_dbErr : option db_error;
  so_trie : option Trie;
  so_code : option bytes;                 (* nil or loaded *)
  so_originStorage : gmap Hash Hash;
  so_dirtyStorage : gmap Hash Hash;
  so_dirtyCode : bool;
  so_suicided : bool;
  so_deleted : bool
}.
#[global] Instance stateObject_fields : Fields stateObject := λ o,
  mkStateObject (so_address o) (so_data o) (so_dbErr o) (so_trie o) (so_code o)
    (so_originStorage o) (so_dirtyStorage o) (so_dirtyCode o) (so_suicided o) (so_deleted o).

Definition so_addrHash (o : stateObject) : Hash := keccak256 (Address_Bytes (so_address o)).

(** [empty] *)
Definition stateObject_empty (s : stateObject) : bool :=
  (ac_Nonce (so_data s) =? 0) && (ac_Balance (so_data s) =? 0)
  && (ac_CodeHash (so_data s) =? emptyCodeHash).

(** [Account{}] with the defaults [newObject] fills in. *)
Definition zeroAccount : Account := mkAccount 0 0 0 emptyCodeHash.

Definition newObject (address : Address) (data : Account) : stateObject :=
  mkStateObject address data None None None ∅ ∅ false false false.

Definition stateObject_setError (err : option db_error) (o : stateObject) : stateObject :=
  match so_dbErr o with None => o <| so_dbErr := err |> | Some _ => o end.

Definition getTrie (db : Database) (c : stateObject) : Trie * stateObject :=
  match so_trie c with
  | Some t => (t, c)
  | None =>
      match OpenStorageTrie db (so_addrHash c) (ac_Root (so_data c)) with
      | inl t => (t, c <| so_trie := Some t |>)
      | inr err => (EmptyTrie, stateObject_setError (Some err) (c <| so_trie := Some EmptyTrie |>))
      end
  end.

Definition stateObject_GetCommittedState (db : Database) (self : stateObject) (key : Hash) :
    Hash * stateObject :=
  match so_originStorage self !! key with
  | Some value => (value, self)
  | None =>
      let '(t, self) := getTrie db self in
      match TryGet t (Hash_Bytes key) with
      | (_, Some err) => (0, stateObject_setError (Some err) self)
      | (enc, None) =>
          let '(value, self) :=
            match enc with
            | [] => (0, self)
            | _ => let '(content, err) := rlp_Split enc in
                   (BytesToHash content, stateObject_setError err self)
            end in
          (value, self <| so_originStorage ::= <[key := value]> |>)
      end
  end.

Definition stateObject_GetState (db : Database) (self : stateObject) (key : Hash) : Hash * stateObject :=
  match so_dirtyStorage self !! key with
  | Some value => (value, self)
  | None => stateObject_GetCommittedState db self key
  end.

Definition setState (key value : Hash) (self : stateObject) : stateObject :=
  self <| so_dirtyStorage ::= <[key := value]> |>.

(** One turn of the loop of [updateTrie]; the keys of the range loop are distinct,
    so their order does not matter. *)
Definition updateSlot (kv : Hash * Hash) (st : Trie * stateObject) : Trie * stateObject :=
  let '(tr, self) := st in
  let '(key, value) := kv in
  let self := self <| so_dirtyStorage ::= delete key |> in
  if value =? default 0 (so_originStorage self !! key) then (tr, self)
  else
    let self := self <| so_originStorage ::= <[key := value]> |> in
    let '(tr, err) :=
      if value =? 0 then TryDelete tr (Hash_Bytes key)
      else TryUpdate tr (Hash_Bytes key) (encode_value (big_bytes value)) in
    (tr, stateObject_setError err self).

Definition updateTrie (db : Database) (self : stateObject) : Trie * stateObject :=
  let '(tr, self) := getTrie db self in
  let '(tr, self) := foldr updateSlot (tr, self) (map_to_list (so_dirtyStorage self)) in
  (tr, self <| so_trie := Some tr |>).

Definition updateRoot (db : Database) (self : stateObject) : stateObject :=
  let '(tr, self) := updateTrie db self in
  self <| so_data ::= λ d, d <| ac_Root := Trie_Hash tr |> |>.

(** The new database and the error. *)
Definition CommitTrie (db : Database) (self : stateObject) : Database * stateObject * option db_error :=
  let '(tr, self) := updateTrie db self in
  match so_dbErr self with
  | Some err => (db, self, Some err)
  | None =>
      let '(db, tr, r) := Trie_Commit db None tr in
      let self := self <| so_trie := Some tr |> in
      match r with
      | inl root => (db, self <| so_data ::= λ d, d <| ac_Root := root |> |>, None)
      | inr err => (db, self, Some err)
      end
  end.

Definition setBalance (amount : Z) (self : stateObject) : stateObject :=
  self <| so_data ::= λ d, d <| ac_Balance := amount |> |>.
Definition setNonce (nonce : Z) (self : stateObject) : stateObject :=
  self <| so_data ::= λ d, d <| ac_Nonce := nonce |> |>.
Definition setCode (codeHash : Hash) (code : option bytes) (self : stateObject) : stateObject :=
  self <| so_code := code |> <| so_data ::= λ d, d <| ac_CodeHash := codeHash |> |>
       <| so_dirtyCode := true |>.

(** [Code]: the code, or nil. *)
Definition stateObject_Code (db : Database) (self : stateObject) : option bytes * stateObject :=
  match so_code self with
  | Some code => (Some code, self)
  | None =>
      if ac_CodeHash (so_data self) =? emptyCodeHash then (None, self)
      else
        let '(code, err) := ContractCode db (so_addrHash self) (ac_CodeHash (so_data self)) in
        let self := match err with Some _ => stateObject_setError err self | None => self end in
        (code, self <| so_code := code |>)
  end.

Definition deepCopy (self : stateObject) : stateObject :=
  mkStateObject (so_address self) (so_data self) None (CopyTrie <$> so_trie self) (so_code self)
    (so_originStorage self) (so_dirtyStorage self) (so_dirtyCode self) (so_suicided self)
    (so_deleted self).

(** ** The journal (journal.go) *)

Inductive journalEntry :=
| createObjectChange (account : Address)
| resetObjectChange (prev : stateObject)
| suicideChange (account : Address) (prev : bool) (prevbalance : Z)
| balanceChange (account : Address) (prev : Z)
| nonceChange (account : Address) (prev : Z)
| storageChange (account : Address) (key prevalue : Hash)
| codeChange (account : Address) (prevcode : option bytes) (prevhash : Hash)
| refundChange (prev : Z)
| addLogChange (txhash : Hash)
| addPreimageChange (hash : Hash)
| touchChange (account : Address).

Definition dirtied (e : journalEntry) : option Address :=
  match e with
  | createObjectChange a | suicideChange a _ _ | balanceChange a _ | nonceChange a _
  | storageChange a _ _ | codeChange a _ _ | touchChange a => Some a
  | resetObjectChange _ | refundChange _ | addLogChange _ | addPreimageChange _ => None
  end.

(** ** The state (statedb.go) *)

Inductive StateDB := mkStateDB {
  sd_trie : Trie;
  sd_stateObjects : gmap Address stateObject;
  sd_stateObjectsDirty : gset Address;
  sd_dbErr : option db_error;
  sd_refund : Z;
  sd_thash : Hash;
  sd_bhash : Hash;
  sd_txIndex : Z;
  sd_logs : gmap Hash (list Log);
  sd_logSize : Z;
  sd_preimages : gmap Hash bytes;
  sd_entries : list journalEntry;         (* journal.entries *)
  sd_dirties : gmap Address Z;            (* journal.dirties *)
  sd_validRevisions : list (Z * nat);     (* id, journalIndex *)
  sd_nextRevisionId : Z;
  sd_minerTracker : option (MinerTracker StateDB)
}.
#[global] Instance StateDB_fields : Fields StateDB := λ s,
  mkStateDB (sd_trie s) (sd_stateObjects s) (sd_stateObjectsDirty s) (sd_dbErr s) (sd_refund s)
    (sd_thash s) (sd_bhash s) (sd_txIndex s) (sd_logs s) (sd_logSize s) (sd_preimages s)
    (sd_entries s) (sd_dirties s) (sd_validRevisions s) (sd_nextRevisionId s) (sd_minerTracker s).
End objects.

(** ** Operations of the state (statedb.go) *)

Section ops.
Context `{CR : Crypto} `{SD : StateDatabase} (db : Database).

(** [journal.append] *)
Definition journal_append (e : journalEntry) (s : StateDB) : StateDB :=
  let s := s <| sd_entries ::= λ es, es ++ [e] |> in
  match dirtied e with
  | Some addr => s <| sd_dirties ::= λ d, <[addr := default 0 (d !! addr) + 1]> d |>
  | None => s
  end.

(** [journal.dirty] *)
Definition journal_dirty (addr : Address) (s : StateDB) : StateDB :=
  s <| sd_dirties ::= λ d, <[addr := default 0 (d !! addr) + 1]> d |>.

Definition StateDB_New (tr : Trie) : StateDB :=
  mkStateDB tr ∅ ∅ None 0 0 0 0 ∅ 0 ∅ [] ∅ [] 0 None.

Definition New (root : Hash) : StateDB + db_error :=
  match OpenTrie db root with inl tr => inl (StateDB_New tr) | inr err => inr err end.

Definition setError (err : option db_error) (s : StateDB) : StateDB :=
  match sd_dbErr s with None => s <| sd_dbErr := err |> | Some _ => s end.

Definition setStateObject (o : stateObject) (s : StateDB) : StateDB :=
  s <| sd_stateObjects ::= <[so_address o := o]> |>.

Definition getStateObject (addr : Address) (s : StateDB) : option stateObject * StateDB :=
  match sd_stateObjects s !! addr with
  | Some obj => (if so_deleted obj then None else Some obj, s)
  | None =>
      let '(enc, err) := TryGet (sd_trie s) (Address_Bytes addr) in
      match enc with
      | [] => (None, setError err s)
      | _ =>
          match decode_account enc with
          | None => (None, s)
          | Some data =>
              let obj := newObject addr data in
              (Some obj, setStateObject obj s)
          end
      end
  end.

(** The new object and the one it replaces. *)
Definition createObject (addr : Address) (s : StateDB) : stateObject * option stateObject * StateDB :=
  let '(prev, s) := getStateObject addr s in
  let newobj := setNonce 0 (newObject addr zeroAccount) in
  let s := journal_append (match prev with
                           | None => createObjectChange addr
                           | Some prev => resetObjectChange prev
                           end) s in
  (newobj, prev, setStateObject newobj s).

Definition GetOrNewStateObject (addr : Address) (s : StateDB) : stateObject * StateDB :=
  let '(o, s) := getStateObject addr s in
  match o with
  | Some o =>
      if so_deleted o then let '(o, _, s) := createObject addr s in (o, s) else (o, s)
  | None => let '(o, _, s) := createObject addr s in (o, s)
  end.

Definition CreateAccount (addr : Address) (s : StateDB) : StateDB :=
  let '(newObj, prev, s) := createObject addr s in
  match prev with
  | Some prev => setStateObject (setBalance (ac_Balance (so_data prev)) newObj) s
  | None => s
  end.

(** The methods of a live object that write the journal; the object is written
    back. *)
Definition touch (c : stateObject) (s : StateDB) : StateDB :=
  let s := journal_append (touchChange (so_address c)) s in
  if so_address c =? ripemd then journal_dirty (so_address c) s else s.

Definition stateObject_SetBalance (amount : Z) (self : stateObject) (s : StateDB) : StateDB :=
  setStateObject (setBalance amount self)
    (journal_append (balanceChange (so_address self) (ac_Balance (so_data self))) s).

Definition stateObject_AddBalance (amount : Z) (c : stateObject) (s : StateDB) : StateDB :=
  if amount =? 0 then
    if stateObject_empty c then touch c s else s
  else stateObject_SetBalance (ac_Balance (so_data c) + amount) c s.

Definition stateObject_SubBalance (amount : Z) (c : stateObject) (s : StateDB) : StateDB :=
  if amount =? 0 then s
  else stateObject_SetBalance (ac_Balance (so_data c) - amount) c s.

Definition stateObject_SetNonce (nonce : Z) (self : stateObject) (s : StateDB) : StateDB :=
  setStateObject (setNonce nonce self)
    (journal_append (nonceChange (so_address self) (ac_Nonce (so_data self))) s).

Definition stateObject_SetCode (codeHash : Hash) (code : bytes) (self : stateObject) (s : StateDB) : StateDB :=
  let '(prevcode, self) := stateObject_Code db self in
  setStateObject (setCode codeHash (Some code) self)
    (journal_append (codeChange (so_address self) prevcode (ac_CodeHash (so_data self))) s).

Definition stateObject_SetState (key value : Hash) (self : stateObject) (s : StateDB) : StateDB :=
  let '(prev, self) := stateObject_GetState db self key in
  if prev =? value then setStateObject self s
  else
    setStateObject (setState key value self)
      (journal_append (storageChange (so_address self) key prev) s).

Definition AddBalance (addr : Address) (amount : Z) (s : StateDB) : StateDB :=
  let '(o, s) := GetOrNewStateObject addr s in stateObject_AddBalance amount o s.
Definition SubBalance (addr : Address) (amount : Z) (s : StateDB) : StateDB :=
  let '(o, s) := GetOrNewStateObject addr s in stateObject_SubBalance amount o s.
Definition SetBalance (addr : Address) (amount : Z) (s : StateDB) : StateDB :=
  let '(o, s) := GetOrNewStateObject addr s in stateObject_SetBalance amount o s.
Definition SetNonce (addr : Address) (nonce : Z) (s : StateDB) : StateDB :=
  let '(o, s) := GetOrNewStateObject addr s in stateObject_SetNonce nonce o s.
Definition SetCode (addr : Address) (code : bytes) (s : StateDB) : StateDB :=
  let '(o, s) := GetOrNewStateObject addr s in stateObject_SetCode (keccak256 code) code o s.
Definition SetState (addr : Address) (key value : Hash) (s : StateDB) : StateDB :=
  let '(o, s) := GetOrNewStateObject addr s in stateObject_SetState key value o s.

Definition Suicide (addr : Address) (s : StateDB) : bool * StateDB :=
  let '(o, s) := getStateObject addr s in
  match o with
  | None => (false, s)
  | Some o =>
      let s := journal_append (suicideChange addr (so_suicided o) (ac_Balance (so_data o))) s in
      (true, setStateObject (setBalance 0 (o <| so_suicided := true |>)) s)
  end.

Definition AddLog (log : Log) (s : StateDB) : StateDB :=
  let s := journal_append (addLogChange (sd_thash s)) s in
  let log := log <| lg_TxHash := sd_thash s |> <| lg_BlockHash := sd_bhash s |>
    <| lg_TxIndex := u64 (sd_txIndex s) |> <| lg_Index := sd_logSize s |> in
  s <| sd_logs ::= λ l, <[sd_thash s := default [] (l !! sd_thash s) ++ [log]]> l |>
    <| sd_logSize ::= λ n, add64 n 1 |>.

Definition AddPreimage (hash : Hash) (preimage : bytes) (s : StateDB) : StateDB :=
  match sd_preimages s !! hash with
  | Some _ => s
  | None => (journal_append (addPreimageChange hash) s) <| sd_preimages ::= <[hash := preimage]> |>
  end.

Definition AddRefund (gas : Z) (s : StateDB) : StateDB :=
  (journal_append (refundChange (sd_refund s)) s) <| sd_refund ::= λ r, add64 r gas |>.

Definition SubRefund (gas : Z) (s : StateDB) : option StateDB :=
  let s := journal_append (refundChange (sd_refund s)) s in
  if sd_refund s <? gas then None else Some (s <| sd_refund ::= λ r, sub64 r gas |>).

Definition Prepare (thash bhash : Hash) (ti : Z) (s : StateDB) : StateDB :=
  s <| sd_thash := thash |> <| sd_bhash := bhash |> <| sd_txIndex := ti |>.

(** ** Reading; a read may load an object or a slot *)

Definition with_object {A : Type} (none : A) (f : stateObject → A * stateObject) (addr : Address)
    (s : StateDB) : A * StateDB :=
  let '(o, s) := getStateObject addr s in
  match o with
  | None => (none, s)
  | Some o => let '(a, o) := f o in (a, setStateObject o s)
  end.

Definition Exist (addr : Address) (s : StateDB) : bool * StateDB :=
  let '(o, s) := getStateObject addr s in (match o with Some _ => true | None => false end, s).
Definition Empty (addr : Address) (s : StateDB) : bool * StateDB :=
  let '(o, s) := getStateObject addr s in
  (match o with Some o => stateObject_empty o | None => true end, s).
Definition GetBalance (addr : Address) (s : StateDB) : Z * StateDB :=
  with_object 0 (λ o, (ac_Balance (so_data o), o)) addr s.
Definition GetNonce (addr : Address) (s : StateDB) : Z * StateDB :=
  with_object 0 (λ o, (ac_Nonce (so_data o), o)) addr s.
Definition GetCode (addr : Address) (s : StateDB) : option bytes * StateDB :=
  with_object None (stateObject_Code db) addr s.
Definition GetCodeHash (addr : Address) (s : StateDB) : Hash * StateDB :=
  with_object 0 (λ o, (ac_CodeHash (so_data o), o)) addr s.
Definition HasCode (addr : Address) (s : StateDB) : bool * StateDB :=
  with_object false (λ o, (negb (ac_CodeHash (so_data o) =? emptyCodeHash), o)) addr s.
Definition GetState (addr : Address) (key : Hash) (s : StateDB) : Hash * StateDB :=
  with_object 0 (λ o, stateObject_GetState db o key) addr s.
Definition GetCommittedState (addr : Address) (key : Hash) (s : StateDB) : Hash * StateDB :=
  with_object 0 (λ o, stateObject_GetCommittedState db o key) addr s.
Definition HasSuicided (addr : Address) (s : StateDB) : bool * StateDB :=
  with_object false (λ o, (so_suicided o, o)) addr s.
Definition GetStateObjectRoot (addr : Address) (s : StateDB) : Hash * StateDB :=
  with_object 0 (λ o, (ac_Root (so_data o), o)) addr s.
Definition GetLogs (hash : Hash) (s : StateDB) : list Log := default [] (sd_logs s !! hash).

Definition GetCodeSize (addr : Address) (s : StateDB) : Z * StateDB :=
  let '(o, s) := getStateObject addr s in
  match o with
  | None => (0, s)
  | Some o =>
      match so_code o with
      | Some code => (Z.of_nat (length code), s)
      | None =>
          let '(size, err) := ContractCodeSize db (so_addrHash o) (ac_CodeHash (so_data o)) in
          (size, match err with Some _ => setError err s | None => s end)
      end
  end.

(** ** Snapshots *)

(** [revert] of a journal entry.  A change of an account that is not there is a
    nil dereference. *)
Definition on_object (addr : Address) (f : stateObject → stateObject) (s : StateDB) : option StateDB :=
  let '(o, s) := getStateObject addr s in
  match o with Some o => Some (setStateObject (f o) s) | None => None end.

Definition entry_revert (e : journalEntry) (s : StateDB) : option StateDB :=
  match e with
  | createObjectChange account =>
      Some (s <| sd_stateObjects ::= delete account |> <| sd_stateObjectsDirty ::= λ d, d ∖ {[account]} |>)
  | resetObjectChange prev => Some (setStateObject prev s)
  | suicideChange account prev prevbalance =>
      let '(o, s) := getStateObject account s in
      match o with
      | Some o => Some (setStateObject (setBalance prevbalance (o <| so_suicided := prev |>)) s)
      | None => Some s
      end
  | balanceChange account prev => on_object account (setBalance prev) s
  | nonceChange account prev => on_object account (setNonce prev) s
  | storageChange account key prevalue => on_object account (setState key prevalue) s
  | codeChange account prevcode prevhash => on_object account (setCode prevhash prevcode) s
  | refundChange prev => Some (s <| sd_refund := prev |>)
  | addLogChange txhash =>
      let logs := default [] (sd_logs s !! txhash) in
      let s := if (length logs =? 1)%nat then s <| sd_logs ::= delete txhash |>
               else s <| sd_logs ::= <[txhash := take (length logs - 1) logs]> |> in
      Some (s <| sd_logSize ::= λ n, sub64 n 1 |>)
  | addPreimageChange hash => Some (s <| sd_preimages ::= delete hash |>)
  | touchChange _ => Some s
  end.

(** The dirty count of an undone entry. *)
Definition undirty (e : journalEntry) (s : StateDB) : StateDB :=
  match dirtied e with
  | Some addr =>
      s <| sd_dirties ::= λ d,
        let n := default 0 (d !! addr) - 1 in
        if n =? 0 then delete addr d else <[addr := n]> d |>
  | None => s
  end.

(** [journal.revert]: the entries from the last one down to [snapshot]. *)
Definition journal_revert (snapshot : nat) (s : StateDB) : option StateDB :=
  s ← foldr (λ e s, s ← s; s ← entry_revert e s; Some (undirty e s)) (Some s) (drop snapshot (sd_entries s));
  Some (s <| sd_entries ::= take snapshot |>).

Definition Snapshot (s : StateDB) : Z * StateDB :=
  let id := sd_nextRevisionId s in
  (id, s <| sd_nextRevisionId ::= λ n, n + 1 |>
         <| sd_validRevisions ::= λ l, l ++ [(id, length (sd_entries s))] |>).

(** [sort.Search] over the revisions: the first one with an id of at least
    [revid]; the ids increase. *)
Fixpoint searchRevision (revid : Z) (l : list (Z * nat)) : nat :=
  match l with
  | [] => O
  | (id, _) :: l => if revid <=? id then O else S (searchRevision revid l)
  end.

Definition RevertToSnapshot (revid : Z) (s : StateDB) : option StateDB :=
  let idx := searchRevision revid (sd_validRevisions s) in
  match sd_validRevisions s !! idx with
  | None => None
  | Some (id, snapshot) =>
      if negb (id =? revid) then None
      else
        s ← journal_revert snapshot s;
        Some (s <| sd_validRevisions ::= take idx |>)
  end.

(** ** Finishing a transaction and a block *)

Definition clearJournalAndRefund (s : StateDB) : StateDB :=
  s <| sd_entries := [] |> <| sd_dirties := ∅ |> <| sd_validRevisions := [] |> <| sd_refund := 0 |>.

(** [updateStateObject] panics when an account cannot be encoded. *)
Definition updateStateObject (o : stateObject) (s : StateDB) : option StateDB :=
  data ← encode_account (so_data o);
  let '(tr, err) := TryUpdate (sd_trie s) (Address_Bytes (so_address o)) data in
  Some (setError err (s <| sd_trie := tr |>)).

Definition deleteStateObject (o : stateObject) (s : StateDB) : StateDB :=
  let s := setStateObject (o <| so_deleted := true |>) s in
  let '(tr, err) := TryDelete (sd_trie s) (Address_Bytes (so_address o)) in
  setError err (s <| sd_trie := tr |>).

(** One turn of the first loop of [Finalise]. *)
Definition finaliseOne (deleteEmptyObjects : bool) (addr : Address) (s : StateDB) : option StateDB :=
  match sd_stateObjects s !! addr with
  | None => Some s
  | Some o =>
      s ← (if so_suicided o || (deleteEmptyObjects && stateObject_empty o) then Some (deleteStateObject o s)
           else let o := updateRoot db o in updateStateObject o (setStateObject o s));
      Some (s <| sd_stateObjectsDirty ::= λ d, {[addr]} ∪ d |>)
  end.

Fixpoint finaliseAll (deleteEmptyObjects : bool) (l : list Address) (s : StateDB) : option StateDB :=
  match l with
  | [] => Some s
  | addr :: l => s ← finaliseOne deleteEmptyObjects addr s; finaliseAll deleteEmptyObjects l s
  end.

(** One turn of the second loop: which accounts the miner tracker looks at. *)
Definition trackOne (e : journalEntry) (s : StateDB) : StateDB :=
  match sd_minerTracker s with
  | None => s
  | Some tracker =>
      match e with
      | balanceChange addr _ | suicideChange addr _ _ =>
          match sd_stateObjects s !! addr with
          | Some _ => s <| sd_minerTracker := Some (SetDirty tracker addr) |>
          | None => s
          end
      | _ => s
      end
  end.

(** The addresses of the range loop are distinct; their order does not matter. *)
Definition Finalise (deleteEmptyObjects : bool) (s : StateDB) : option StateDB :=
  s ← finaliseAll deleteEmptyObjects (elements (dom (sd_dirties s))) s;
  Some (clearJournalAndRefund (foldl (λ s e, trackOne e s) s (sd_entries s))).

Definition IntermediateRoot (deleteEmptyObjects : bool) (s : StateDB) : option (Hash * StateDB) :=
  s ← Finalise deleteEmptyObjects s;
  Some (Trie_Hash (sd_trie s), s).

(** [Reset]; [None] is an error, with the state unchanged. *)
Definition Reset (root : Hash) (s : StateDB) : StateDB + db_error :=
  match OpenTrie db root with
  | inr err => inr err
  | inl tr =>
      inl (clearJournalAndRefund
        (s <| sd_trie := tr |> <| sd_stateObjects := ∅ |> <| sd_stateObjectsDirty := ∅ |>
           <| sd_thash := 0 |> <| sd_bhash := 0 |> <| sd_txIndex := 0 |> <| sd_logs := ∅ |>
           <| sd_logSize := 0 |> <| sd_preimages := ∅ |>))
  end.

(** The leaf callback of [Commit]: what the node above an account refers to. *)
Definition commitLeaf (leaf : bytes) : list Hash :=
  match decode_account leaf with
  | None => []
  | Some account =>
      (if ac_Root account =? emptyCodeHash then [] else [ac_Root account]) ++
      (if ac_CodeHash account =? emptyCodeHash then [] else [ac_CodeHash account])
  end.

(** One turn of the loop of [Commit], on the database and the state; [None] is a
    panic. *)
Definition commitOne (deleteEmptyObjects : bool) (addr : Address) (o : stateObject)
    (st : Database * StateDB) : option (Database * StateDB * option db_error) :=
  let '(db, s) := st in
  let isDirty := bool_decide (addr ∈ sd_stateObjectsDirty s) in
  let done (st : Database * StateDB) := Some (st.1, st.2 <| sd_stateObjectsDirty ::= λ d, d ∖ {[addr]} |>, None) in
  if so_suicided o || (isDirty && deleteEmptyObjects && stateObject_empty o) then done (db, deleteStateObject o s)
  else if isDirty then
    let '(db, o) :=
      match so_code o with
      | Some code =>
          if so_dirtyCode o then (InsertBlob db (ac_CodeHash (so_data o)) code, o <| so_dirtyCode := false |>)
          else (db, o)
      | None => (db, o)
      end in
    let '(db, o, err) := CommitTrie db o in
    let s := setStateObject o s in
    match err with
    | Some err => Some (db, s, Some err)
    | None => s ← updateStateObject o s; done (db, s)
    end
  else done (db, s).

Fixpoint commitObjects (deleteEmptyObjects : bool) (l : list (Address * stateObject))
    (st : Database * StateDB) : option (Database * StateDB * option db_error) :=
  match l with
  | [] => Some (st, None)
  | (addr, o) :: l =>
      '(st, err) ← commitOne deleteEmptyObjects addr o st;
      match err with
      | Some err => Some (st, Some err)
      | None => commitObjects deleteEmptyObjects l st
      end
  end.

(** [Commit]: the database, the state and the root or the error. *)
Definition Commit (deleteEmptyObjects : bool) (s : StateDB) : option (Database * StateDB * (Hash + db_error)) :=
  let s := s <| sd_stateObjectsDirty ::= λ d, dom (sd_dirties s) ∪ d |> in
  '(db, s, err) ← commitObjects deleteEmptyObjects (map_to_list (sd_stateObjects s)) (db, s);
  Some (match err with
        | Some err => (db, clearJournalAndRefund s, inr err)
        | None =>
            let '(db, tr, r) := Trie_Commit db (Some commitLeaf) (sd_trie s) in
            (db, clearJournalAndRefund (s <| sd_trie := tr |>), r)
        end).

(** [Copy]: the copy of a dirty object that is not there is a nil dereference. *)
Definition Copy (s : StateDB) : option StateDB :=
  if decide (sd_stateObjectsDirty s ⊆ dom (sd_stateObjects s)) then
    let copied := filter (λ kv, is_Some (sd_dirties s !! kv.1) ∨ kv.1 ∈ sd_stateObjectsDirty s) (sd_stateObjects s) in
    Some (mkStateDB (CopyTrie (sd_trie s)) (deepCopy <$> copied) (dom copied) None (sd_refund s) 0 0 0 (sd_logs s)
      (sd_logSize s) (sd_preimages s) [] ∅ [] 0 (sd_minerTracker s))
  else None.

Definition EnableMinerTracker (config : AlgorandConfig) (height totalBalanceOfMiners : Z) (s : StateDB) :
    option StateDB :=
  initial ← Copy s;
  Some (s <| sd_minerTracker := Some (NewMinerTracker config initial height totalBalanceOfMiners) |>).
End ops.

(** ** The laws of the interfaces *)

(** The values an account has in Go, with a balance that is not negative. *)
Record account_ok (a : Account) : Prop := {
  ao_nonce : is_u64 (ac_Nonce a);
  ao_balance : 0 <= ac_Balance a;
  ao_root : hash_ok (ac_Root a);
  ao_code : hash_ok (ac_CodeHash a)
}.

(** A key for the trie another key is for; keys are addresses and slots. *)
Definition like (k k' : bytes) : Prop :=
  Forall byte_ok k' ∧ length k' = length k ∧ (length k ≤ 32)%nat.

(** What the state relies on of its tries: those whose nodes are all there are maps
    from keys of one length to non-empty values.  And of the codec: it can be undone. *)
Class TrieLaws `{SD : StateDatabase} := {
  healthy : Trie → Prop;
  healthy_get t k : healthy t → Forall byte_ok k → (TryGet t k).2 = None;
  healthy_update t k v : healthy t → Forall byte_ok k → v ≠ [] →
    ∃ t', TryUpdate t k v = (t', None) ∧ healthy t' ∧
      ∀ k', like k k' → (TryGet t' k').1 = if decide (k' = k) then v else (TryGet t k').1;
  healthy_delete t k : healthy t → Forall byte_ok k →
    ∃ t', TryDelete t k = (t', None) ∧ healthy t' ∧
      ∀ k', like k k' → (TryGet t' k').1 = if decide (k' = k) then [] else (TryGet t k').1;
  copy_get t k : TryGet (CopyTrie t) k = TryGet t k;
  copy_healthy t : healthy t → healthy (CopyTrie t);
  Trie_Hash_ok t : hash_ok (Trie_Hash t);
  encode_decode a : account_ok a →
    ∃ enc, encode_account a = Some enc ∧ enc ≠ [] ∧ decode_account enc = Some a;
  split_encode b : rlp_Split (encode_value b) = (b, None) ∧ encode_value b ≠ []
}.
