(* ===== verification/SecureTrie.v ===== *)
(** * SecureTrie: the tries under the state

    src/trie/secure_trie.go hashes the keys of a trie; src/core/state/database.go opens
    such tries and keeps the last ones committed.  Together they are an implementation
    of the interfaces the state uses, and the laws of those interfaces are the theorems
    about the trie.  The RLP codecs are parameters. *)

From S2P Require Import Prelude Bytes Crypto TrieEncoding Trie TrieTree TrieFacts Hasher StateDB.

Local Open Scope Z_scope.

Record SecureTrie := mkSecureTrie {
  st_nodes : NodeDatabase;                  (* the database below *)
  st_root : option node;
  st_cachegen : Z;                          (* uint16 *)
  st_cachelimit : Z;
  st_secKeyCache : gmap bytes bytes
}.
#[global] Instance SecureTrie_fields : Fields SecureTrie := λ t,
  mkSecureTrie (st_nodes t) (st_root t) (st_cachegen t) (st_cachelimit t) (st_secKeyCache t).

(** The encodings of vendored go-ethereum/rlp. *)
Class Codec := {
  encode_node : rawNode → bytes;
  rlp_account : Account → option bytes;
  rlp_read_account : bytes → option Account;
  rlp_value : bytes → bytes;
  rlp_content : bytes → bytes * option db_error
}.

(** What is encoded can be read; a negative balance cannot be encoded. *)
Class CodecLaws `{Codec} : Prop := {
  rlp_account_read a : account_ok a →
    ∃ enc, rlp_account a = Some enc ∧ enc ≠ [] ∧ rlp_read_account enc = Some a;
  rlp_value_content b : rlp_content (rlp_value b) = (b, None) ∧ rlp_value b ≠ []
}.

(** Keys of one length, at most that of a hash, have different hashes. *)
Class KeysDistinct `{Crypto} : Prop :=
  keccak_keys k k' : Forall byte_ok k → like k k' → keccak256 k = keccak256 k' → k = k'.

Section secure.
Context `{CR : Crypto} `{CO : Codec}.

Definition hashKey (key : bytes) : bytes := Hash_Bytes (keccak256 key).

(** Enough for the 32 bytes of a hashed key. *)
Definition key_fuel : nat := 132.
#[global] Opaque key_fuel.

Definition secure_TryGet (t : SecureTrie) (key : bytes) : outcome (bytes * SecureTrie) :=
  '(v, root) ← Trie.TryGet (db_node (st_nodes t)) (st_cachegen t) key_fuel (st_root t) (hashKey key);
  Ret (v, t <| st_root := root |>).

Definition secure_TryUpdate (t : SecureTrie) (key value : bytes) : outcome SecureTrie :=
  let hk := hashKey key in
  root ← Trie.TryUpdate (db_node (st_nodes t)) (st_cachegen t) key_fuel (st_root t) hk value;
  Ret (t <| st_root := root |> <| st_secKeyCache ::= <[hk := key]> |>).

Definition secure_TryDelete (t : SecureTrie) (key : bytes) : outcome SecureTrie :=
  let hk := hashKey key in
  let t := t <| st_secKeyCache ::= base.delete hk |> in
  root ← Trie.TryDelete (db_node (st_nodes t)) (st_cachegen t) key_fuel (st_root t) hk;
  Ret (t <| st_root := root |>).

(** [None] is a panic. *)
Definition secure_Hash (t : SecureTrie) : option (Hash * SecureTrie) :=
  '(h, root, _) ← hashRoot encode_node (st_cachegen t) (st_cachelimit t) (st_root t) None;
  Some (h, t <| st_root := root |>).

(** [GetKey] also looks in the database, for the preimages of keys written. *)
Definition secure_GetKey (preimages : gmap Hash bytes) (t : SecureTrie) (shaKey : bytes) : bytes :=
  match st_secKeyCache t !! shaKey with
  | Some key => key
  | None => default [] (preimages !! BytesToHash shaKey)
  end.

Definition insertPreimage (preimages : gmap Hash bytes) (hash : Hash) (preimage : bytes) : gmap Hash bytes :=
  match preimages !! hash with Some _ => preimages | None => <[hash := preimage]> preimages end.

(** [Commit]: the preimages and the nodes go to the database; [None] is a panic. *)
Definition secure_Commit (t : SecureTrie) (db : NodeDatabase) (preimages : gmap Hash bytes) :
    option (Hash * SecureTrie * NodeDatabase * gmap Hash bytes) :=
  let preimages := map_fold (λ hk key p, insertPreimage p (BytesToHash hk) key) preimages (st_secKeyCache t) in
  '(h, root, db) ← hashRoot encode_node (st_cachegen t) (st_cachelimit t) (st_root t) (Some db);
  db ← db;
  Some (h, mkSecureTrie db root ((st_cachegen t + 1) `mod` 2 ^ 16) (st_cachelimit t) ∅, db, preimages).

(** [Copy]: the cache of keys stays with its owner. *)
Definition secure_Copy (t : SecureTrie) : SecureTrie := t <| st_secKeyCache := ∅ |>.

Definition NewSecure (root : Hash) (db : NodeDatabase) (cachelimit : Z) : option SecureTrie :=
  r ← Hasher.New root db; Some (mkSecureTrie db r 0 cachelimit ∅).

(** ** The database of the state *)

(** The cache of code sizes is left out: it repeats what the database answers. *)
Record cachingDB := mkCachingDB {
  cd_db : NodeDatabase;
  cd_code : gmap Hash bytes;            (* blobs of the trie database *)
  cd_preimages : gmap Hash bytes;
  cd_pastTries : list SecureTrie
}.
#[global] Instance cachingDB_fields : Fields cachingDB := λ d,
  mkCachingDB (cd_db d) (cd_code d) (cd_preimages d) (cd_pastTries d).

(** A trie of the state: a [cachedTrie] or a plain one. *)
Record stateTrie := mkStateTrie { tr_trie : SecureTrie; tr_cached : bool }.

Definition MaxTrieCacheGen : Z := 120.
Definition maxPastTries : nat := 12.

Definition missing_node : db_error := 1.
Definition panicked : db_error := 2.

(** The loop of [OpenTrie], from the last of the past tries to the first. *)
Fixpoint findPast (root : Hash) (l : list SecureTrie) : option SecureTrie :=
  match l with
  | [] => None
  | t :: l =>
      match secure_Hash t with
      | Some (h, t) => if h =? root then Some (secure_Copy t) else findPast root l
      | None => None
      end
  end.

Definition cachingDB_OpenTrie (db : cachingDB) (root : Hash) : stateTrie + db_error :=
  match findPast root (reverse (cd_pastTries db)) with
  | Some t => inl (mkStateTrie t true)
  | None =>
      match NewSecure root (cd_db db) MaxTrieCacheGen with
      | Some t => inl (mkStateTrie t true)
      | None => inr missing_node
      end
  end.

Definition cachingDB_OpenStorageTrie (db : cachingDB) (addrHash root : Hash) : stateTrie + db_error :=
  match NewSecure root (cd_db db) 0 with
  | Some t => inl (mkStateTrie t false)
  | None => inr missing_node
  end.

Definition pushTrie (t : SecureTrie) (l : list SecureTrie) : list SecureTrie :=
  if (maxPastTries <=? length l)%nat then drop 1 l ++ [t] else l ++ [t].

(** [Node] of the trie database: the blob, or the encoding of a node. *)
Definition Database_Node (db : cachingDB) (h : Hash) : option bytes * option db_error :=
  if h =? 0 then (None, Some missing_node)
  else match cd_code db !! h with
       | Some code => (Some code, None)
       | None =>
           match cd_db db !! h with
           | Some n => (Some (encode_node n), None)
           | None => (None, Some missing_node)
           end
       end.

Definition cachingDB_ContractCode (db : cachingDB) (addrHash codeHash : Hash) : option bytes * option db_error :=
  Database_Node db codeHash.

Definition Database_InsertBlob (db : cachingDB) (h : Hash) (blob : bytes) : cachingDB :=
  match cd_code db !! h with Some _ => db | None => db <| cd_code ::= <[h := blob]> |> end.

(** [Commit] of a [cachedTrie] keeps the trie. *)
Definition stateTrie_Commit (db : cachingDB) (t : stateTrie) : cachingDB * stateTrie * (Hash + db_error) :=
  match secure_Commit (tr_trie t) (cd_db db) (cd_preimages db) with
  | None => (db, t, inr panicked)
  | Some (h, t', nodes, preimages) =>
      let db := db <| cd_db := nodes |> <| cd_preimages := preimages |> in
      (if tr_cached t then db <| cd_pastTries ::= pushTrie t' |> else db, mkStateTrie t' (tr_cached t), inl h)
  end.

(** A walk that panics is kept apart from a missing node. *)
Definition trie_error {A : Type} (r : outcome A) : option db_error :=
  match r with Ret _ => None | MissingNode _ _ => Some missing_node | Crash => Some panicked end.

Definition answer (r : outcome (bytes * SecureTrie)) : bytes :=
  match r with Ret (v, _) => v | _ => [] end.

(** The interfaces of src/core/state/database.go, implemented.  A trie reads the
    database as it was when the trie was opened or last committed: the nodes it refers
    to are never removed below it. *)
#[global] Instance state_database : StateDatabase := {|
  Database := cachingDB;
  StateDB.Trie := stateTrie;
  EmptyTrie := mkStateTrie (mkSecureTrie ∅ None 0 0 ∅) false;
  CopyTrie t := mkStateTrie (secure_Copy (tr_trie t)) (tr_cached t);
  OpenTrie := cachingDB_OpenTrie;
  OpenStorageTrie := cachingDB_OpenStorageTrie;
  ContractCode := cachingDB_ContractCode;
  ContractCodeSize db a c :=
    let '(code, err) := cachingDB_ContractCode db a c in (Z.of_nat (length (default [] code)), err);
  StateDB.TryGet t k :=
    let r := secure_TryGet (tr_trie t) k in (answer r, trie_error r);
  StateDB.TryUpdate t k v :=
    let r := secure_TryUpdate (tr_trie t) k v in
    (match r with Ret t' => mkStateTrie t' (tr_cached t) | _ => t end, trie_error r);
  StateDB.TryDelete t k :=
    let r := secure_TryDelete (tr_trie t) k in
    (match r with Ret t' => mkStateTrie t' (tr_cached t) | _ => t end, trie_error r);
  Trie_Hash t := match secure_Hash (tr_trie t) with Some (h, _) => h `mod` 2 ^ 256 | None => 0 end;  (* 32 bytes *)
  Trie_Commit db _ t := stateTrie_Commit db t;
  InsertBlob := Database_InsertBlob;
  encode_account := rlp_account;
  decode_account := rlp_read_account;
  encode_value := rlp_value;
  rlp_Split := rlp_content
|}.

(** ** The laws *)

Context `{DS : !DigestSize} `{CL : !CodecLaws} `{KD : !KeysDistinct}.

Definition intact (t : SecureTrie) : Prop := complete (db_node (st_nodes t)) (st_root t).

Lemma hashKey_ok key : Forall byte_ok (hashKey key) ∧ length (hashKey key) = 32%nat.
Proof. split; [apply be_bytes_ok|apply length_be_bytes]. Qed.

Lemma hashKey_fuel key : enough (length (hashKey key)) key_fuel.
Proof. destruct (hashKey_ok key) as [_ ->]. unfold enough. by apply Nat.ltb_lt. Qed.

Lemma hashKey_inj k k' : Forall byte_ok k → like k k' → hashKey k' = hashKey k → k' = k.
Proof.
  intros Hk Hl E. symmetry. apply keccak_keys; [done|done|]. unfold hashKey, Hash_Bytes in E.
  apply (f_equal be_int) in E. pose proof (keccak256_ok k). pose proof (keccak256_ok k').
  rewrite !be_int_be_bytes_id in E by done. done.
Qed.

(** What a complete trie answers. *)
Lemma secure_get t u key :
  sound_as (db_node (st_nodes t)) any_flag any_hash (st_root t) u →
  ∃ t', secure_TryGet t key = Ret (tget u (keybytesToHex (hashKey key)), t').
Proof.
  intros Hu. unfold secure_TryGet. destruct (hashKey_ok key) as [Hk _].
  destruct (complete_get _ (st_cachegen t) (st_root t) u (hashKey key) key_fuel Hu Hk (hashKey_fuel key)) as (root' & -> & _).
  by eexists.
Qed.

(** Writing a value, or removing it. *)
Lemma secure_write t key value :
  intact t → Forall byte_ok key → ∃ root',
    Trie.TryUpdate (db_node (st_nodes t)) (st_cachegen t) key_fuel (st_root t) (hashKey key) value = Ret root' ∧
    ∀ sec, let t' := mkSecureTrie (st_nodes t) root' (st_cachegen t) (st_cachelimit t) sec in
      intact t' ∧
      ∀ k', like key k' → ∃ old t1 t2, secure_TryGet t k' = Ret (old, t1) ∧
        secure_TryGet t' k' = Ret (if decide (k' = key) then value else old, t2).
Proof.
  intros [u Hu] Hkey. destruct (hashKey_ok key) as [Hk _].
  destruct (complete_update _ (st_cachegen t) (st_root t) u (hashKey key) value key_fuel Hu Hk (hashKey_fuel key))
    as (root' & u' & E & Hu' & Hup).
  exists root'. split; [done|]. intros sec. split; [by exists u'|]. intros k' Hl.
  destruct (secure_get t u k' Hu) as [t1 E1].
  destruct (secure_get (mkSecureTrie (st_nodes t) root' (st_cachegen t) (st_cachelimit t) sec) u' k' Hu') as [t2 E2].
  destruct (hashKey_ok k') as [Hk' _]. eexists _, t1, t2. split; [exact E1|]. rewrite E2. do 2 f_equal.
  rewrite Hup by (by apply hex_key). apply decide_ext. split; [|by intros ->].
  intros Eh. apply hashKey_inj; [done|done|]. by apply hex_inj.
Qed.

Lemma secure_delete t key root' :
  Trie.TryUpdate (db_node (st_nodes t)) (st_cachegen t) key_fuel (st_root t) (hashKey key) [] = Ret root' →
  secure_TryDelete t key =
    Ret (mkSecureTrie (st_nodes t) root' (st_cachegen t) (st_cachelimit t) (base.delete (hashKey key) (st_secKeyCache t))).
Proof. intros E. exact (f_equal (λ r, root ← r; Ret (t <| st_secKeyCache ::= base.delete (hashKey key) |> <| st_root := root |>)) E). Qed.

(** The Patricia tries keep the promises the state relies on. *)
#[global] Instance trie_laws : TrieLaws.
Proof.
  refine {| healthy := λ t : StateDB.Trie, intact (tr_trie t) |}.
  - intros t k [u Hu] _. cbn -[secure_TryGet]. by destruct (secure_get _ u k Hu) as [t' ->].
  - intros t k v Ht Hk _. destruct (secure_write (tr_trie t) k v Ht Hk) as (root' & E & Hw).
    cbn -[secure_TryGet]. unfold secure_TryUpdate. rewrite E. eexists. split; [done|].
    destruct (Hw (<[hashKey k := k]> (st_secKeyCache (tr_trie t)))) as [Hi Hg]. split; [exact Hi|].
    intros k' Hl. destruct (Hg k' Hl) as (old & t1 & t2 & -> & E2). exact (f_equal answer E2).
  - intros t k Ht Hk. destruct (secure_write (tr_trie t) k [] Ht Hk) as (root' & E & Hw).
    cbn -[secure_TryGet]. rewrite (secure_delete _ _ _ E). eexists. split; [done|].
    destruct (Hw (base.delete (hashKey k) (st_secKeyCache (tr_trie t)))) as [Hi Hg]. split; [exact Hi|].
    intros k' Hl. destruct (Hg k' Hl) as (old & t1 & t2 & -> & E2). exact (f_equal answer E2).
  - intros t k. cbn -[secure_TryGet]. unfold secure_TryGet, secure_Copy. upd. by destruct (Trie.TryGet _ _ _ _ _) as [[]| |].
  - intros t Ht. exact Ht.
  - intros t. cbn -[secure_Hash]. destruct (secure_Hash (tr_trie t)) as [[h t']|]; [by apply Z.mod_pos_bound|by vm_compute].
  - apply rlp_account_read.
  - apply rlp_value_content.
Defined.
End secure.

(** ** An executable instance

    Accounts and values written as lists of numbers, above the toy hash. *)
Module ToyState.
Import Toy.

Fixpoint node_bytes (n : rawNode) : bytes :=
  match n with
  | rawFullNode children => 2 :: (fix go l := match l with
                                              | [] => []
                                              | Some c :: l => node_bytes c ++ go l
                                              | None :: l => 128 :: go l
                                              end) children
  | rawShortNode key val => 1 :: key ++ match val with Some c => node_bytes c | None => [] end
  | rawHash h => 160 :: h
  | rawValue v => v
  end.

#[export] Instance codec : Codec := {|
  encode_node := node_bytes;
  rlp_account a :=
    if ac_Balance a <? 0 then None else Some [ac_Nonce a; ac_Balance a; ac_Root a; ac_CodeHash a];
  rlp_read_account b := match b with [n; v; r; c] => Some (mkAccount n v r c) | _ => None end;
  rlp_value b := 0 :: b;
  rlp_content b := match b with x :: b => (b, None) | [] => ([], Some missing_node) end
|}.

#[export] Instance codec_laws : CodecLaws.
Proof.
  split; [|done]. intros [n v r c] [_ Hv _ _]. cbn in *. rewrite (proj2 (Z.ltb_ge v 0)) by done.
  eexists. split_and!; [reflexivity|discriminate|reflexivity].
Qed.

#[export] Instance keys_distinct : KeysDistinct.
Proof.
  intros k k' Hk (Hk' & El & Hl) E. cbn in E. unfold digest in E.
  rewrite !take_ge, !drop_ge in E by lia. cbn [tail_sum foldl] in E. rewrite !Z.mul_0_r, !Z.add_0_r in E.
  assert (∀ b : bytes, Forall byte_ok b → (length b ≤ 32)%nat → be_int b `mod` 2 ^ 256 = be_int b) as Hm.
  { intros b Hb Hlen. pose proof (be_int_bound b Hb). apply Z.mod_small. split; [lia|].
    apply Z.lt_le_trans with (256 ^ Z.of_nat (length b)); [lia|].
    change (2 ^ 256) with (256 ^ 32). apply Z.pow_le_mono_r; lia. }
  rewrite !Hm in E by (done || lia). by apply be_int_inj.
Qed.

(** An empty database, and the state above it. *)
Definition db : Database := mkCachingDB ∅ ∅ ∅ [].

Definition blank : StateDB :=
  match StateDB.New db 0 with inl s => s | inr _ => StateDB_New EmptyTrie end.
End ToyState.
