(* ===== verification/StateDBFacts.v ===== *)
(** * StateDBFacts: the journal undoes what the operations do

    What a caller can see of a state, the equivalence of states that look the same
    (caches apart), and the proof that undoing the journal leads back to an
    equivalent state. *)

From S2P Require Import Prelude Bytes Params Crypto MinerContract StateDB.

Local Open Scope Z_scope.

Section views.
Context `{CR : Crypto} `{SD : StateDatabase} (db : Database).

(** ** What an object shows *)

Definition object_trie (o : stateObject) : Trie :=
  match so_trie o with
  | Some t => t
  | None => match OpenStorageTrie db (so_addrHash o) (ac_Root (so_data o)) with
            | inl t => t
            | inr _ => EmptyTrie
            end
  end.

Definition trie_slot (t : Trie) (key : Hash) : Hash :=
  let '(enc, err) := TryGet t (Hash_Bytes key) in
  match err with
  | Some _ => 0
  | None => match enc with [] => 0 | _ => BytesToHash (rlp_Split enc).1 end
  end.

Definition committed_slot (o : stateObject) (key : Hash) : Hash :=
  match so_originStorage o !! key with
  | Some v => v
  | None => trie_slot (object_trie o) key
  end.

Definition slot (o : stateObject) (key : Hash) : Hash :=
  match so_dirtyStorage o !! key with
  | Some v => v
  | None => committed_slot o key
  end.

Definition code_of (o : stateObject) : option bytes :=
  match so_code o with
  | Some c => Some c
  | None =>
      if ac_CodeHash (so_data o) =? emptyCodeHash then None
      else (ContractCode db (so_addrHash o) (ac_CodeHash (so_data o))).1
  end.

(** Objects that show the same. *)
Record oeq (o o' : stateObject) : Prop := {
  oe_address : so_address o = so_address o';
  oe_data : so_data o = so_data o';
  oe_suicided : so_suicided o = so_suicided o';
  oe_deleted : so_deleted o = so_deleted o';
  oe_code : code_of o = code_of o';
  oe_committed : ∀ k, committed_slot o k = committed_slot o' k;
  oe_slot : ∀ k, slot o k = slot o' k
}.

#[global] Instance oeq_equivalence : Equivalence oeq.
Proof.
  split.
  - by split.
  - intros o o' []. split; try done; intros k; symmetry; auto.
  - intros o1 o2 o3 [] []. split; try congruence; intros k; etrans; eauto.
Qed.

(** ** What a state shows *)

Definition load (t : Trie) (addr : Address) : option stateObject :=
  match (TryGet t (Address_Bytes addr)).1 with
  | [] => None
  | enc => newObject addr <$> decode_account enc
  end.

Definition live (s : StateDB) (addr : Address) : option stateObject :=
  match sd_stateObjects s !! addr with
  | Some o => if so_deleted o then None else Some o
  | None => load (sd_trie s) addr
  end.

(** States that show the same above the same trie. *)
Record sim (s s' : StateDB) : Prop := {
  si_trie : sd_trie s = sd_trie s';
  si_live : ∀ a, option_relation oeq (λ _, False) (λ _, False) (live s a) (live s' a);
  si_refund : sd_refund s = sd_refund s';
  si_logs : ∀ h, GetLogs h s = GetLogs h s';
  si_logSize : sd_logSize s = sd_logSize s';
  si_preimages : sd_preimages s = sd_preimages s'
}.

Definition olive (s s' : StateDB) (a : Address) : Prop :=
  option_relation oeq (λ _, False) (λ _, False) (live s a) (live s' a).

Lemma oeq_option_refl (x : option stateObject) : option_relation oeq (λ _, False) (λ _, False) x x.
Proof. destruct x; cbn; [reflexivity|done]. Qed.

Lemma olive_refl s a : olive s s a.
Proof. apply oeq_option_refl. Qed.

#[global] Instance sim_equivalence : Equivalence sim.
Proof.
  split.
  - intros s. split; try done; apply olive_refl.
  - intros s s' [? Hl ? ? ? ?]. split; try done. intros a. specialize (Hl a).
    destruct (live s a), (live s' a); cbn in *; done.
  - intros s1 s2 s3 [? H1 ? ? ? ?] [? H2 ? ? ? ?]. split; try congruence. intros a.
    specialize (H1 a). specialize (H2 a). destruct (live s1 a), (live s2 a), (live s3 a); cbn in *; try done.
    by etrans.
Qed.

(** What [Finalise] may have removed. *)
Definition gone (o : stateObject) : bool := so_suicided o || stateObject_empty o.

(** Objects sit under their addresses, and what was deleted is not in the trie. *)
Record wf (s : StateDB) : Prop := {
  wf_address : ∀ a o, sd_stateObjects s !! a = Some o → so_address o = a;
  wf_deleted : ∀ a o, sd_stateObjects s !! a = Some o → so_deleted o = true →
    load (sd_trie s) a = None ∧ gone o = true;
  wf_journal : ∀ o, resetObjectChange o ∈ sd_entries s → so_deleted o = false;
  wf_logSize : is_u64 (sd_logSize s)
}.

(** ** Loading *)

Lemma load_address t a o : load t a = Some o → so_address o = a ∧ so_deleted o = false.
Proof.
  unfold load. destruct (TryGet t (Address_Bytes a)).1; [done|].
  destruct (decode_account _); cbn; [|done]. by intros [= <-].
Qed.

Lemma live_address s a o : wf s → live s a = Some o → so_address o = a ∧ so_deleted o = false.
Proof.
  intros Hw. unfold live. destruct (sd_stateObjects s !! a) as [o'|] eqn:E; [|apply load_address].
  destruct (so_deleted o') eqn:Ed; [done|]. intros [= <-]. split; [by eapply wf_address|done].
Qed.

(** The parts of a state that reading never changes. *)
Definition rest (s : StateDB) :=
  (sd_trie s, sd_stateObjectsDirty s, sd_refund s, (sd_thash s, sd_bhash s, sd_txIndex s), sd_logs s,
   sd_logSize s, sd_preimages s, (sd_entries s, sd_dirties s), (sd_validRevisions s, sd_nextRevisionId s),
   sd_minerTracker s).

(** [s'] is [s] with more of it loaded. *)
Record loads (s s' : StateDB) : Prop := {
  ld_rest : rest s' = rest s;
  ld_sim : sim s s';
  ld_dom : ∀ a o, sd_stateObjects s !! a = Some o →
    ∃ o', sd_stateObjects s' !! a = Some o' ∧ so_deleted o' = so_deleted o;
  ld_wf : wf s'
}.

Lemma loads_refl s : wf s → loads s s.
Proof. intros Hw. split; [done|reflexivity|eauto|done]. Qed.

Lemma loads_trans s1 s2 s3 : loads s1 s2 → loads s2 s3 → loads s1 s3.
Proof.
  intros [E1 S1 D1 _] [E2 S2 D2 W]. split; [congruence|by etrans| |done].
  intros a o Ho. destruct (D1 a o Ho) as (o1 & Ho1 & E). destruct (D2 a o1 Ho1) as (o2 & Ho2 & E').
  exists o2. split; [done|congruence].
Qed.

(** Writing back an object that shows the same as the live one. *)
Lemma loads_set s a o o' :
  wf s → live s a = Some o → oeq o o' → loads s (setStateObject o' s).
Proof.
  intros Hw Hl Ho. destruct (live_address s a o Hw Hl) as [Ea Ed]. pose proof (oe_address _ _ Ho) as Ea'.
  assert (so_deleted o' = false) as Ed' by (by rewrite <- (oe_deleted _ _ Ho)).
  assert (so_address o' = a) as Eo' by congruence.
  assert (∀ b, live (setStateObject o' s) b = if decide (b = a) then Some o' else live s b) as Hlive.
  { intros b. unfold live, setStateObject. upd. rewrite Eo'. destruct (decide (b = a)) as [->|Hn].
    - rewrite lookup_insert_eq. by rewrite Ed'.
    - by rewrite lookup_insert_ne. }
  split.
  - done.
  - split; try done. intros b. rewrite Hlive. destruct (decide (b = a)) as [->|]; [|apply olive_refl].
    by rewrite Hl.
  - intros b ob Hb. unfold setStateObject. upd. rewrite Eo'. destruct (decide (b = a)) as [->|Hn].
    + rewrite lookup_insert_eq. exists o'. split; [done|]. rewrite Ed'. unfold live in Hl. rewrite Hb in Hl.
      by destruct (so_deleted ob).
    + rewrite lookup_insert_ne by done. eauto.
  - destruct Hw as [W1 W2 W3 W4]. split; unfold setStateObject; upd; [| |done|done].
    + intros b ob. rewrite Eo'. intros [[<- <-]|[_ Hb]]%lookup_insert_Some; [done|by apply W1].
    + intros b ob. rewrite Eo'. intros [[<- <-]|[_ Hb]]%lookup_insert_Some; [congruence|by apply W2].
Qed.

Lemma setError_loads err s : wf s → loads s (setError err s).
Proof.
  intros Hw. unfold setError. destruct (sd_dbErr s); [by apply loads_refl|].
  split; [done| |intros a o Ho; by exists o|by destruct Hw].
  split; try done. intros a. exact (olive_refl s a).
Qed.

Lemma getStateObject_loads addr s :
  wf s → loads s (getStateObject addr s).2 ∧ (getStateObject addr s).1 = live s addr ∧
    live (getStateObject addr s).2 addr = live s addr ∧
    (is_Some (live s addr) → is_Some (sd_stateObjects (getStateObject addr s).2 !! addr)).
Proof.
  intros Hw. unfold getStateObject. destruct (sd_stateObjects s !! addr) as [o|] eqn:Eo.
  { assert (live s addr = if so_deleted o then None else Some o) as Hl by (unfold live; by rewrite Eo).
    cbn [fst snd]. rewrite <- Hl. split; [by apply loads_refl|]. split; [done|]. split; [done|eauto]. }
  assert (live s addr = load (sd_trie s) addr) as Hl by (unfold live; by rewrite Eo).
  rewrite Hl. unfold load in *. destruct (TryGet (sd_trie s) (Address_Bytes addr)) as [enc err] eqn:Et.
  cbn [fst] in *. destruct enc as [|b enc].
  { cbn [fst snd]. split; [by apply setError_loads|]. split; [done|]. split; [|by intros []].
    rewrite <- Hl. unfold setError. by destruct (sd_dbErr s). }
  destruct (decode_account (b :: enc)) as [data|]; cbn [fmap option_fmap option_map fst snd] in *.
  - split; [by eapply loads_set; [done|exact Hl|reflexivity]|]. split; [done|].
    unfold live, setStateObject. upd. cbn [so_address newObject]. rewrite lookup_insert_eq.
    split; [done|eauto].
  - split; [by apply loads_refl|]. split; [done|]. split; [done|by intros []].
Qed.

(** ** Reading an object *)

Lemma setError_oeq err o : oeq o (stateObject_setError err o).
Proof. unfold stateObject_setError. by destruct (so_dbErr o). Qed.

Lemma getTrie_oeq o : (getTrie db o).1 = object_trie o ∧ oeq o (getTrie db o).2.
Proof.
  unfold getTrie, object_trie. destruct (so_trie o) as [t|] eqn:Et; [done|].
  assert (∀ t, match OpenStorageTrie db (so_addrHash o) (ac_Root (so_data o)) with
               | inl t => t | inr _ => EmptyTrie end = t → oeq o (o <| so_trie := Some t |>)) as H.
  { intros t Ht. assert (∀ k, committed_slot o k = committed_slot (o <| so_trie := Some t |>) k) as Hc.
    { intros k. unfold committed_slot, object_trie. upd. by rewrite Et, Ht. }
    split; try done. intros k. unfold slot. upd. by rewrite Hc. }
  destruct (OpenStorageTrie _ _ _) as [t|err]; cbn [fst snd].
  - split; [done|]. by apply H.
  - split; [done|]. etrans; [|apply setError_oeq]. by apply H.
Qed.

Lemma GetCommittedState_oeq o k :
  (stateObject_GetCommittedState db o k).1 = committed_slot o k ∧
  oeq o (stateObject_GetCommittedState db o k).2.
Proof.
  unfold stateObject_GetCommittedState, committed_slot.
  destruct (so_originStorage o !! k) as [v|] eqn:Eo; [done|].
  destruct (getTrie_oeq o) as [Ht Ho]. destruct (getTrie db o) as [t o1]. cbn [fst snd] in *. subst t.
  assert (∀ o2 v, oeq o o2 → v = trie_slot (object_trie o) k → oeq o (o2 <| so_originStorage ::= <[k := v]> |>))
    as Hins.
  { intros o2 v H2 Hv. etrans; [exact H2|].
    assert (∀ j, committed_slot o2 j = committed_slot (o2 <| so_originStorage ::= <[k := v]> |>) j) as Hc.
    { intros j. unfold committed_slot at 2. upd. destruct (decide (j = k)) as [->|Hn].
      - rewrite lookup_insert_eq. rewrite <- (oe_committed _ _ H2). unfold committed_slot. by rewrite Eo.
      - by rewrite lookup_insert_ne. }
    split; try done. intros j. unfold slot. upd. by rewrite Hc. }
  unfold trie_slot in *. destruct (TryGet (object_trie o) (Hash_Bytes k)) as [enc [err|]].
  { cbn. split; [done|]. etrans; [exact Ho|apply setError_oeq]. }
  destruct enc as [|b enc]; [cbn; split; [done|by apply Hins]|].
  destruct (rlp_Split (b :: enc)) as [content err]. cbn [fst snd] in *. split; [done|].
  apply Hins; [|done]. etrans; [exact Ho|apply setError_oeq].
Qed.

Lemma GetState_oeq o k :
  (stateObject_GetState db o k).1 = slot o k ∧ oeq o (stateObject_GetState db o k).2.
Proof.
  unfold stateObject_GetState, slot. destruct (so_dirtyStorage o !! k); [done|apply GetCommittedState_oeq].
Qed.

Lemma Code_oeq o : (stateObject_Code db o).1 = code_of o ∧ oeq o (stateObject_Code db o).2.
Proof.
  unfold stateObject_Code, code_of. destruct (so_code o) as [c|] eqn:Ec; [done|].
  destruct (Z.eqb_spec (ac_CodeHash (so_data o)) emptyCodeHash) as [|Hn]; [done|].
  destruct (ContractCode _ _ _) as [code err] eqn:Eq. cbn [fst snd]. split; [done|].
  set (o1 := match err with Some _ => _ | None => _ end).
  assert (oeq o o1) as H1 by (unfold o1; destruct err; [apply setError_oeq|done]).
  etrans; [exact H1|]. split; try done. unfold code_of at 2. upd.
  rewrite <- (oe_code _ _ H1). unfold code_of. rewrite Ec. rewrite (proj2 (Z.eqb_neq _ _) Hn), Eq. cbn.
  rewrite <- (oe_data _ _ H1), (proj2 (Z.eqb_neq _ _) Hn).
  destruct code; [done|]. unfold so_addrHash. rewrite <- (oe_address _ _ H1).
  unfold so_addrHash in Eq. by rewrite Eq.
Qed.

(** Reading through the state. *)
Lemma with_object_loads {A : Type} (none : A) f (v : stateObject → A) addr s :
  wf s → (∀ o, (f o).1 = v o ∧ oeq o (f o).2) →
  loads s (with_object none f addr s).2 ∧
  (with_object none f addr s).1 = match live s addr with Some o => v o | None => none end.
Proof.
  intros Hw Hf. unfold with_object. destruct (getStateObject_loads addr s Hw) as (H1 & H2 & H3 & _).
  destruct (getStateObject addr s) as [o s1]. cbn [fst snd] in *. subst o.
  destruct (live s addr) as [o|] eqn:El; [|done].
  destruct (Hf o) as [Hv Ho]. destruct (f o) as [a o']. cbn [fst snd] in *. split; [|done].
  eapply loads_trans; [exact H1|]. eapply loads_set; [apply H1|exact H3|exact Ho].
Qed.

(** ** Undoing an entry *)

Definition inmap (s : StateDB) (a : Address) : Prop :=
  ∃ o, sd_stateObjects s !! a = Some o ∧ so_deleted o = false.

Definition bal (s : StateDB) (a : Address) : Z :=
  match live s a with Some o => ac_Balance (so_data o) | None => 0 end.

Lemma live_set o s a :
  live (setStateObject o s) a =
  if decide (a = so_address o) then (if so_deleted o then None else Some o) else live s a.
Proof.
  unfold live, setStateObject. upd. destruct (decide (a = so_address o)) as [->|].
  - by rewrite lookup_insert_eq.
  - by rewrite lookup_insert_ne.
Qed.

Lemma inmap_set o s a : so_deleted o = false → inmap s a → inmap (setStateObject o s) a.
Proof.
  intros Hd (o' & Ho' & Hd'). unfold inmap, setStateObject. upd.
  destruct (decide (a = so_address o)) as [->|].
  - rewrite lookup_insert_eq. eauto.
  - rewrite lookup_insert_ne by done. eauto.
Qed.

Lemma loads_inmap s s' a : loads s s' → inmap s a → inmap s' a.
Proof. intros H (o & Ho & Hd). destruct (ld_dom _ _ H _ _ Ho) as (o' & Ho' & Hd'). exists o'. split; [done|congruence]. Qed.

Lemma wf_set o s : wf s → so_deleted o = false → wf (setStateObject o s).
Proof.
  intros [W1 W2 W3 W4] Hd. split; unfold setStateObject; upd; [| |done|done].
  - intros b ob [[<- <-]|[_ Hb]]%lookup_insert_Some; [done|by apply W1].
  - intros b ob [[<- <-]|[_ Hb]]%lookup_insert_Some; [congruence|by apply W2].
Qed.

Lemma sim_set s s' o o' : sim s s' → oeq o o' → sim (setStateObject o s) (setStateObject o' s').
Proof.
  intros [E Hl ? ? ? ?] Ho. split; try done. intros a. rewrite !live_set, <- (oe_address _ _ Ho), <- (oe_deleted _ _ Ho).
  destruct (decide _); [|apply Hl]. by destruct (so_deleted o).
Qed.

Lemma setBalance_oeq v o o' : oeq o o' → oeq (setBalance v o) (setBalance v o').
Proof. intros [? Hd ? ? Hc Hk Hs]. split; try done. unfold setBalance. upd. by rewrite Hd. Qed.

Lemma setNonce_oeq v o o' : oeq o o' → oeq (setNonce v o) (setNonce v o').
Proof. intros [? Hd ? ? Hc Hk Hs]. split; try done. unfold setNonce. upd. by rewrite Hd. Qed.

Lemma suicided_oeq b o o' : oeq o o' → oeq (o <| so_suicided := b |>) (o' <| so_suicided := b |>).
Proof. intros [? Hd ? ? Hc Hk Hs]. by split. Qed.

Lemma setState_oeq k v o o' : oeq o o' → oeq (setState k v o) (setState k v o').
Proof.
  intros [? Hd ? ? Hc Hk Hs]. split; try done. intros j. unfold slot, setState. upd.
  destruct (decide (j = k)) as [->|]; [by rewrite !lookup_insert_eq|]. rewrite !lookup_insert_ne by done. exact (Hs j).
Qed.

Lemma setCode_oeq h c o o' : oeq o o' → oeq (setCode h c o) (setCode h c o').
Proof.
  intros [Ha Hd ? ? Hc Hk Hs]. split; try done; unfold setCode; upd; [by rewrite Hd|].
  unfold code_of, so_addrHash. upd. destruct c; [done|]. by rewrite Ha.
Qed.

Lemma on_object_sim addr f s s' s0 :
  wf s → wf s' → sim s s' → (∀ o o', oeq o o' → oeq (f o) (f o')) →
  on_object addr f s = Some s0 → ∃ s0', on_object addr f s' = Some s0' ∧ sim s0 s0'.
Proof.
  intros Hw Hw' Hs Hf. unfold on_object.
  destruct (getStateObject_loads addr s Hw) as (H1 & H2 & _).
  destruct (getStateObject_loads addr s' Hw') as (H1' & H2' & _).
  destruct (getStateObject addr s) as [o s1], (getStateObject addr s') as [o' s1']. cbn [fst snd] in *. subst o o'.
  pose proof (si_live _ _ Hs addr) as Hl. destruct (live s addr) as [o|], (live s' addr) as [o'|]; cbn in Hl; try done.
  intros [= <-]. eexists. split; [done|]. apply sim_set; [|by apply Hf].
  etrans; [symmetry; apply H1|]. etrans; [exact Hs|apply H1'].
Qed.

Lemma entry_revert_sim e s s' s0 :
  wf s → wf s' → sim s s' → entry_revert e s = Some s0 →
  ∃ s0', entry_revert e s' = Some s0' ∧ sim s0 s0'.
Proof.
  intros Hw Hw' Hs. pose proof Hs as [E Hl ? Hlog ? Hp]. destruct e; cbn [entry_revert].
  - intros [= <-]. eexists. split; [done|]. split; try done. intros a. specialize (Hl a). unfold live in *. upd.
    destruct (decide (a = account)) as [->|]; [|by rewrite !lookup_delete_ne].
    rewrite !lookup_delete_eq, E. apply oeq_option_refl.
  - intros [= <-]. eexists. split; [done|]. by apply sim_set.
  - destruct (getStateObject_loads account s Hw) as (H1 & H2 & _).
    destruct (getStateObject_loads account s' Hw') as (H1' & H2' & _).
    destruct (getStateObject account s) as [o s1], (getStateObject account s') as [o' s1'].
    cbn [fst snd] in *. subst o o'. specialize (Hl account).
    assert (sim s1 s1') as H11 by (etrans; [symmetry; apply H1|]; etrans; [exact Hs|apply H1']).
    destruct (live s account) as [o|], (live s' account) as [o'|]; cbn in Hl; try done.
    + intros [= <-]. eexists. split; [done|]. apply sim_set; [done|]. by apply setBalance_oeq, suicided_oeq.
    + intros [= <-]. by eexists.
  - apply on_object_sim; try done. apply setBalance_oeq.
  - apply on_object_sim; try done. apply setNonce_oeq.
  - apply on_object_sim; try done. intros. by apply setState_oeq.
  - apply on_object_sim; try done. intros. by apply setCode_oeq.
  - intros [= <-]. eexists. split; [done|]. by split.
  - intros [= <-]. eexists. split; [done|]. pose proof (Hlog txhash) as Ht. unfold GetLogs in Ht. rewrite <- Ht.
    destruct (length _ =? 1)%nat; split; try done; upd; try congruence; intros h; unfold GetLogs; upd.
    + destruct (decide (h = txhash)) as [->|]; [by rewrite !lookup_delete_eq|]. rewrite !lookup_delete_ne by done. apply Hlog.
    + destruct (decide (h = txhash)) as [->|]; [by rewrite !lookup_insert_eq|]. rewrite !lookup_insert_ne by done. apply Hlog.
  - intros [= <-]. eexists. split; [done|]. split; try done. upd. by rewrite Hp.
  - intros [= <-]. by eexists.
Qed.

(** What neither an operation on accounts nor its undoing changes. *)
Definition book (s : StateDB) :=
  (sd_trie s, (sd_thash s, sd_bhash s, sd_txIndex s), (sd_validRevisions s, sd_nextRevisionId s), sd_minerTracker s).

(** The journal. *)
Definition pages (s : StateDB) := (sd_entries s, sd_dirties s).

Lemma loads_book s s' : loads s s' → book s' = book s ∧ pages s' = pages s.
Proof. intros [E _ _ _]. unfold rest in E. unfold book, pages. by split; congruence. Qed.

Lemma on_object_keeps addr f s s0 :
  wf s → (∀ o, so_address (f o) = so_address o ∧ so_deleted (f o) = so_deleted o) →
  on_object addr f s = Some s0 →
  wf s0 ∧ book s0 = book s ∧ pages s0 = pages s ∧ (∀ a, inmap s a → inmap s0 a).
Proof.
  intros Hw Hf. unfold on_object. destruct (getStateObject_loads addr s Hw) as (H1 & H2 & _).
  destruct (getStateObject addr s) as [o s1]. cbn [fst snd] in *. subst o.
  destruct (live s addr) as [o|] eqn:El; [|done]. intros [= <-].
  destruct (live_address _ _ _ Hw El) as [Ea Ed]. destruct (Hf o) as [Fa Fd]. destruct (loads_book _ _ H1) as [Eb Ee].
  split_and!; [apply wf_set; [apply H1|congruence]|done|done|].
  intros a Ha. apply inmap_set; [congruence|by eapply loads_inmap].
Qed.

(** Undoing keeps the state well formed and the objects that are there, but for the
    one whose creation is undone. *)
Lemma entry_revert_keeps e s s0 :
  wf s → (∀ o, e = resetObjectChange o → so_deleted o = false) → entry_revert e s = Some s0 →
  wf s0 ∧ book s0 = book s ∧ pages s0 = pages s ∧
  (∀ a, inmap s a → e ≠ createObjectChange a → inmap s0 a).
Proof.
  intros Hw Hr. destruct e; cbn [entry_revert].
  - intros [= <-]. destruct Hw as [W1 W2 W3 W4]. split_and!; [|done|done|].
    + split; upd; try done; intros b o [_ Hb]%lookup_delete_Some; eauto.
    + intros a (o & Ho & Hd) Hne. exists o. upd. by rewrite lookup_delete_ne by congruence.
  - intros [= <-]. specialize (Hr _ eq_refl). split_and!; [by apply wf_set|done|done|].
    intros a Ha _. by apply inmap_set.
  - destruct (getStateObject_loads account s Hw) as (H1 & H2 & _).
    destruct (getStateObject account s) as [o s1]. cbn [fst snd] in *. subst o.
    destruct (loads_book _ _ H1) as [Eb Ee].
    destruct (live s account) as [o|] eqn:El; intros [= <-].
    + destruct (live_address _ _ _ Hw El) as [Ea Ed]. split_and!; [by apply wf_set; [apply H1|]|done|done|].
      intros a Ha _. apply inmap_set; [done|by eapply loads_inmap].
    + split_and!; [apply H1|done|done|]. intros a Ha _. by eapply loads_inmap.
  - intros H. apply on_object_keeps in H as (? & ? & ? & ?); [|done|by intros o]. split_and!; auto.
  - intros H. apply on_object_keeps in H as (? & ? & ? & ?); [|done|by intros o]. split_and!; auto.
  - intros H. apply on_object_keeps in H as (? & ? & ? & ?); [|done|by intros o]. split_and!; auto.
  - intros H. apply on_object_keeps in H as (? & ? & ? & ?); [|done|by intros o]. split_and!; auto.
  - intros [= <-]. split_and!; try done. by destruct Hw.
  - intros [= <-]. destruct Hw as [W1 W2 W3 W4].
    destruct (length _ =? 1)%nat; (split_and!; try done); split; try done; apply u64_range.
  - intros [= <-]. split_and!; try done. by destruct Hw.
  - intros [= <-]. by split_and!.
Qed.

(** ** Histories *)

(** The account has been destroyed in this transaction. *)
Definition dying (s : StateDB) (a : Address) : bool :=
  match live s a with Some o => so_suicided o | None => false end.

(** The accounts whose balance an entry is about. *)
Definition money (e : journalEntry) : option Address :=
  match e with balanceChange a _ | suicideChange a _ _ => Some a | _ => None end.

(** The account an entry is about. *)
Definition concerns (e : journalEntry) (a : Address) : Prop :=
  dirtied e = Some a ∨ ∃ o, e = resetObjectChange o ∧ so_address o = a.

(** One journalled change: [s'] is [s] changed as [e] records. *)
Record change (e : journalEntry) (s s' : StateDB) : Prop := {
  ch_undo : ∃ s0, entry_revert e s' = Some s0 ∧ sim s0 s;
  ch_keep : ∀ a, inmap s a → inmap s' a;
  ch_create : ∀ a, e = createObjectChange a → ¬ inmap s a;
  ch_reset : ∀ o, e = resetObjectChange o → so_deleted o = false;
  ch_dirtied : ∀ a, dirtied e = Some a → inmap s' a;
  ch_balance : ∀ a, bal s' a ≠ bal s a → money e = Some a;
  ch_dying : ∀ a, dying s' a = true → dying s a = true ∨ money e = Some a;
  ch_others : ∀ a, ¬ concerns e a → olive s s' a;
  ch_wf : wf s'
}.

(** [s'] shows the same as [s] and has its objects. *)
Definition same (s s' : StateDB) : Prop := sim s s' ∧ ∀ a, inmap s a → inmap s' a.

Lemma same_refl s : same s s.
Proof. split; [reflexivity|done]. Qed.

Lemma same_trans s1 s2 s3 : same s1 s2 → same s2 s3 → same s1 s3.
Proof. intros [? ?] [? ?]. split; [by etrans|auto]. Qed.

Lemma loads_same s s' : loads s s' → same s s'.
Proof. intros H. split; [apply H|]. intros a. by apply loads_inmap. Qed.

Lemma sim_bal s s' a : sim s s' → bal s a = bal s' a.
Proof.
  intros H. pose proof (si_live _ _ H a) as Hl. unfold bal.
  destruct (live s a), (live s' a); cbn in Hl; try done. by rewrite (oe_data _ _ Hl).
Qed.

Lemma sim_dying s s' a : sim s s' → dying s a = dying s' a.
Proof.
  intros H. pose proof (si_live _ _ H a) as Hl. unfold dying.
  destruct (live s a), (live s' a); cbn in Hl; try done. by rewrite (oe_suicided _ _ Hl).
Qed.

(** [s] is [base] with the changes [es], one after the other. *)
Inductive hist (base : StateDB) : list journalEntry → StateDB → Prop :=
| hist_nil s : same base s → hist base [] s
| hist_snoc es s1 e s2 s3 :
    hist base es s1 → change e s1 s2 → same s2 s3 → hist base (es ++ [e]) s3.

Lemma hist_same base es s s' : hist base es s → same s s' → hist base es s'.
Proof.
  intros [s1 H|es1 s1 e s2 s3 H Hc Hs] Hs'.
  - constructor. by eapply same_trans.
  - econstructor; [done|done|by eapply same_trans].
Qed.

Lemma hist_trans base es1 s1 es2 s2 : hist base es1 s1 → hist s1 es2 s2 → hist base (es1 ++ es2) s2.
Proof.
  intros H1 H2. induction H2 as [s2 Hs|es2 s2 e s3 s4 H2 IH Hc Hs].
  - rewrite app_nil_r. by eapply hist_same.
  - rewrite app_assoc. by econstructor.
Qed.

(** Undoing the last entry of a history gives a shorter history. *)
Lemma hist_undo base es e s :
  wf s → hist base (es ++ [e]) s →
  ∃ s0, entry_revert e s = Some s0 ∧ hist base es s0 ∧ (∀ o, e = resetObjectChange o → so_deleted o = false).
Proof.
  intros Hw H. inversion H as [s1 Hs Enil|es1 s1 e1 s2 s3 H1 Hc [Hs Hm] Esnoc]; subst.
  { by destruct es. }
  apply app_inj_tail in Esnoc as [-> ->]. destruct (ch_undo _ _ _ Hc) as (s0 & E0 & S0).
  destruct (entry_revert_sim e s2 s s0 (ch_wf _ _ _ Hc) Hw Hs E0) as (s0' & E0' & S0').
  exists s0'. split; [done|]. split; [|apply Hc].
  eapply hist_same; [exact H1|]. split; [etrans; [symmetry; exact S0|exact S0']|].
  intros a Ha. destruct (entry_revert_keeps e s s0' Hw (ch_reset _ _ _ Hc) E0') as (_ & _ & _ & Hk).
  apply Hk; [by apply Hm, (ch_keep _ _ _ Hc)|]. intros ->. by eapply (ch_create _ _ _ Hc).
Qed.

Lemma hist_balance base es s a :
  hist base es s → bal s a ≠ bal base a → ∃ e, e ∈ es ∧ money e = Some a.
Proof.
  induction 1 as [s [Hs _]|es s1 e s2 s3 H IH Hc [Hs _]].
  - by rewrite (sim_bal _ _ a Hs).
  - rewrite <- (sim_bal _ _ a Hs). intros Hn. destruct (decide (bal s2 a = bal s1 a)) as [E|Hn'].
    + rewrite E in Hn. destruct (IH Hn) as (e' & He' & Hm). exists e'. split; [set_solver|done].
    + exists e. split; [set_solver|]. by apply (ch_balance _ _ _ Hc).
Qed.

Lemma olive_trans s1 s2 s3 a : olive s1 s2 a → olive s2 s3 a → olive s1 s3 a.
Proof.
  unfold olive. intros H1 H2. destruct (live s1 a), (live s2 a), (live s3 a); cbn in *; try done. by etrans.
Qed.

Lemma hist_others base es s a :
  hist base es s → (∀ e, e ∈ es → ¬ concerns e a) → olive base s a.
Proof.
  induction 1 as [s [Hs _]|es s1 e s2 s3 H IH Hc [Hs _]]; intros He; [apply Hs|].
  eapply olive_trans; [apply IH; intros e' He'; apply He; set_solver|].
  eapply olive_trans; [apply (ch_others _ _ _ Hc), He; set_solver|apply Hs].
Qed.

Lemma hist_dying base es s a :
  hist base es s → dying s a = true → dying base a = true ∨ ∃ e, e ∈ es ∧ money e = Some a.
Proof.
  induction 1 as [s [Hs _]|es s1 e s2 s3 H IH Hc [Hs _]].
  - rewrite (sim_dying _ _ a Hs). by left.
  - rewrite <- (sim_dying _ _ a Hs). intros [Hd|Hm]%(ch_dying _ _ _ Hc).
    + destruct (IH Hd) as [?|(e' & He' & Hm)]; [by left|]. right. exists e'. split; [set_solver|done].
    + right. exists e. split; [set_solver|done].
Qed.

Lemma hist_inmap base es s e a : hist base es s → e ∈ es → dirtied e = Some a → inmap s a.
Proof.
  induction 1 as [s _|es s1 e' s2 s3 H IH Hc [_ Hm]]; [by intros ?%elem_of_nil|].
  intros [He| ->%list_elem_of_singleton]%elem_of_app Hd; apply Hm.
  - apply (ch_keep _ _ _ Hc). by apply IH.
  - by apply (ch_dirtied _ _ _ Hc).
Qed.

(** ** The dirty counts *)

Definition count (a : Address) (es : list journalEntry) : Z :=
  Z.of_nat (length (filter (λ e, dirtied e = Some a) es)).

(** The journal counts its entries by address; only [ripemd] is counted more. *)
Definition counted (es : list journalEntry) (d : gmap Address Z) : Prop :=
  ∀ a, ∃ extra, 0 <= extra ∧ (a ≠ ripemd → extra = 0) ∧
    default 0 (d !! a) = count a es + extra ∧ d !! a ≠ Some 0.

Lemma count_snoc a es e :
  count a (es ++ [e]) = count a es + (if decide (dirtied e = Some a) then 1 else 0).
Proof.
  unfold count. rewrite filter_app, length_app. cbn [filter list_filter].
  destruct (decide (dirtied e = Some a)); cbn; lia.
Qed.

Lemma counted_append e es s s' :
  counted es (sd_dirties s) → sd_dirties s' = sd_dirties (journal_append e s) → counted (es ++ [e]) (sd_dirties s').
Proof.
  intros H -> a. destruct (H a) as (x & Hx & Hr & E & Hz). exists x. rewrite count_snoc. unfold journal_append.
  assert (0 <= count a es) by (unfold count; lia).
  destruct (dirtied e) as [b|]; upd.
  - destruct (decide (Some b = Some a)) as [[= ->]|Hn].
    + rewrite lookup_insert_eq. cbn. split_and!; try done; [lia|]. intros [= E']. lia.
    + rewrite lookup_insert_ne by congruence. split_and!; try done. lia.
  - rewrite decide_False by done. split_and!; try done. lia.
Qed.

Lemma counted_dirty es s :
  counted es (sd_dirties s) → counted es (sd_dirties (journal_dirty ripemd s)).
Proof.
  intros H a. destruct (H a) as (x & Hx & Hr & E & Hz). unfold journal_dirty. upd.
  assert (0 <= count a es) by (unfold count; lia).
  destruct (decide (a = ripemd)) as [->|].
  - exists (x + 1). rewrite lookup_insert_eq. cbn. split_and!; try done; try lia. intros [= E']. lia.
  - exists x. by rewrite lookup_insert_ne.
Qed.

Lemma counted_undo e es s :
  counted (es ++ [e]) (sd_dirties s) → counted es (sd_dirties (undirty e s)).
Proof.
  intros H a. destruct (H a) as (x & Hx & Hr & E & Hz). exists x. rewrite count_snoc in E. unfold undirty.
  assert (0 <= count a es) by (unfold count; lia).
  destruct (dirtied e) as [b|]; upd; cbn zeta.
  - destruct (decide (Some b = Some a)) as [[= ->]|Hn].
    + destruct (Z.eqb_spec (default 0 (sd_dirties s !! a) - 1) 0) as [Ez|Ez].
      * rewrite lookup_delete_eq. cbn. split_and!; try done. lia.
      * rewrite lookup_insert_eq. cbn. split_and!; try done; [lia|congruence].
    + assert (b ≠ a) by congruence.
      destruct (_ =? 0); [rewrite lookup_delete_ne by done|rewrite lookup_insert_ne by done];
        (split_and!; try done; lia).
  - rewrite decide_False in E by done. split_and!; try done. lia.
Qed.

(** Every account an entry is about is counted. *)
Lemma counted_dom es d e a : counted es d → e ∈ es → dirtied e = Some a → is_Some (d !! a).
Proof.
  intros H He Ha. destruct (H a) as (x & Hx & _ & E & _).
  assert (0 < count a es).
  { unfold count. assert (e ∈ filter (λ e, dirtied e = Some a) es) as Hf by (by apply list_elem_of_filter).
    destruct (filter _ es); [by apply elem_of_nil in Hf|cbn; lia]. }
  destruct (d !! a); [by eexists|]. cbn in E. lia.
Qed.

Lemma counted_inv es d a :
  counted es d → is_Some (d !! a) → a = ripemd ∨ ∃ e, e ∈ es ∧ dirtied e = Some a.
Proof.
  intros H [n En]. destruct (decide (a = ripemd)) as [|Hr]; [by left|]. right.
  destruct (H a) as (x & Hx & Hr' & E & Hz). rewrite En in E, Hz. cbn in E. rewrite (Hr' Hr) in E.
  destruct (filter (λ e, dirtied e = Some a) es) as [|e l] eqn:Ef.
  - unfold count in E. rewrite Ef in E. destruct Hz. f_equal. cbn in E. lia.
  - exists e. assert (e ∈ filter (λ e, dirtied e = Some a) es) as He by (rewrite Ef; by left).
    apply list_elem_of_filter in He. by destruct He.
Qed.

(** ** The operations as histories *)

(** [s'] is [s] after changes that are all in the journal. *)
Definition does (s s' : StateDB) : Prop :=
  wf s' ∧ book s' = book s ∧
  (counted (sd_entries s) (sd_dirties s) → counted (sd_entries s') (sd_dirties s')) ∧
  ∃ es, sd_entries s' = sd_entries s ++ es ∧ hist s es s'.

Lemma does_trans s1 s2 s3 : does s1 s2 → does s2 s3 → does s1 s3.
Proof.
  intros (_ & B1 & C1 & es1 & E1 & H1) (W2 & B2 & C2 & es2 & E2 & H2).
  split; [done|]. split; [congruence|]. split; [auto|].
  exists (es1 ++ es2). split; [by rewrite E2, E1, app_assoc|by eapply hist_trans].
Qed.

Lemma does_loads s s' : loads s s' → does s s'.
Proof.
  intros H. destruct (loads_book _ _ H) as [Eb [= Ee Ed]]. split; [apply H|]. split; [done|].
  split; [by rewrite Ee, Ed|].
  exists []. rewrite app_nil_r. split; [done|]. constructor. by apply loads_same.
Qed.

Lemma does_change e s s' :
  change e s s' → book s' = book s → sd_entries s' = sd_entries s ++ [e] →
  sd_dirties s' = sd_dirties (journal_append e s) → does s s'.
Proof.
  intros Hc Hb He Hd. split; [apply Hc|]. split; [done|].
  split; [rewrite He; intros; by eapply counted_append|]. exists [e]. split; [done|].
  apply (hist_snoc s [] s e s' s'); [constructor; apply same_refl|done|apply same_refl].
Qed.

Lemma append_same e s :
  wf s → (∀ o, e = resetObjectChange o → so_deleted o = false) →
  wf (journal_append e s) ∧ same s (journal_append e s) ∧ book (journal_append e s) = book s ∧
  sd_entries (journal_append e s) = sd_entries s ++ [e].
Proof.
  intros [W1 W2 W3 W4] Hr.
  assert (∀ s', sd_stateObjects s' = sd_stateObjects s → sd_trie s' = sd_trie s →
    sd_entries s' = sd_entries s ++ [e] → sd_logSize s' = sd_logSize s → wf s') as Hwf.
  { intros s' E1 E2 E3 E4. split; rewrite ?E1, ?E2, ?E3, ?E4; try done.
    intros o [Ho| Ho%list_elem_of_singleton]%elem_of_app; [by apply W3|by apply Hr]. }
  unfold journal_append. destruct (dirtied e); (split; [by apply Hwf|]; split; [|by split]).
  - split; [|done]. split; try done. intros b. exact (olive_refl s b).
  - split; [|done]. split; try done. intros b. exact (olive_refl s b).
Qed.

Lemma getStateObject_set o s :
  so_deleted o = false → getStateObject (so_address o) (setStateObject o s) = (Some o, setStateObject o s).
Proof. intros Hd. unfold getStateObject, setStateObject at 1. upd. by rewrite lookup_insert_eq, Hd. Qed.

(** A journalled change of the live object [o] to [o']. *)
Lemma does_object e o o' o0 s :
  let a := so_address o in
  wf s → live s a = Some o → inmap s a → so_address o' = a → so_deleted o' = false →
  (∀ b, e ≠ createObjectChange b) → (∀ p, e ≠ resetObjectChange p) → dirtied e = Some a →
  (ac_Balance (so_data o') ≠ ac_Balance (so_data o) → money e = Some a) →
  (so_suicided o' = so_suicided o ∨ money e = Some a) →
  (let s1 := setStateObject o' (journal_append e s) in entry_revert e s1 = Some (setStateObject o0 s1)) →
  oeq o0 o → does s (setStateObject o' (journal_append e s)).
Proof.
  intros a Hw Hl Hm Ea Ed Hnc Hnr Hd Hb Hsu Hrev Ho.
  destruct (live_address _ _ _ Hw Hl) as [_ Edo].
  destruct (append_same e s Hw) as (W1 & [S1 M1] & B1 & E1); [intros p ->; by destruct (Hnr p)|].
  assert (∀ b, live (setStateObject o' (journal_append e s)) b = if decide (b = a) then Some o' else live (journal_append e s) b) as L1.
  { intros b. by rewrite live_set, Ea, Ed. }
  apply (does_change e); [|done|done|done]. split; try done.
  - eexists. split; [exact Hrev|]. destruct S1 as [? HL ? ? ? ?]. split; try done. intros b.
    rewrite live_set, L1, (oe_address _ _ Ho). fold a. destruct (decide (b = a)) as [->|].
    + rewrite (oe_deleted _ _ Ho), Edo, Hl. exact Ho.
    + specialize (HL b). destruct (live s b), (live (journal_append e s) b); cbn in *; done.
  - intros b Hb'. apply inmap_set; [done|by apply M1].
  - intros b Eb. by destruct (Hnc b).
  - intros p Ep. by destruct (Hnr p).
  - intros b Eb. assert (b = a) as -> by congruence. exists o'. unfold setStateObject. upd. rewrite Ea.
    by rewrite lookup_insert_eq.
  - intros b. unfold bal at 1. rewrite L1. destruct (decide (b = a)) as [->|].
    + unfold bal. rewrite Hl. exact Hb.
    + fold (bal (journal_append e s) b). by rewrite <- (sim_bal _ _ b S1).
  - intros b. unfold dying at 1. rewrite L1. destruct (decide (b = a)) as [->|].
    + unfold dying. rewrite Hl. intros Hs. destruct Hsu as [E|?]; [left; congruence|by right].
    + fold (dying (journal_append e s) b). rewrite <- (sim_dying _ _ b S1). by left.
  - intros b Hb'. unfold olive. rewrite L1, decide_False; [apply S1|].
    intros ->. apply Hb'. by left.
  - by apply wf_set.
Qed.

(** A journalled change that leaves the objects alone. *)
Lemma does_rest e s s' s0 :
  wf s → (∀ b, e ≠ createObjectChange b) → (∀ b, dirtied e = Some b → inmap s b) →
  (∀ p, e ≠ resetObjectChange p) →
  sd_stateObjects s' = sd_stateObjects s → book s' = book s → sd_entries s' = sd_entries s ++ [e] →
  sd_dirties s' = sd_dirties (journal_append e s) → is_u64 (sd_logSize s') → entry_revert e s' = Some s0 → sim s0 s → does s s'.
Proof.
  intros Hw Hnc Hd Hnr Eo Eb Ee Edi Hu Hrev Hs.
  assert (sd_trie s' = sd_trie s) as Et by (unfold book in Eb; congruence).
  assert (∀ b, live s' b = live s b) as L by (intros b; unfold live; by rewrite Eo, Et).
  apply (does_change e); [|done|done|done]. split; try done.
  - by eexists.
  - intros b. unfold inmap. by rewrite Eo.
  - intros b Eb'. by destruct (Hnc b).
  - intros p Ep. by destruct (Hnr p).
  - intros b Eb'. unfold inmap. rewrite Eo. by apply Hd.
  - intros b. unfold bal. by rewrite L.
  - intros b. unfold dying. rewrite L. by left.
  - intros b _. unfold olive. rewrite L. exact (olive_refl s b).
  - destruct Hw as [W1 W2 W3 W4]. split; rewrite ?Eo, ?Et, ?Ee; try done.
    intros o [Ho| Ho%list_elem_of_singleton]%elem_of_app; [by apply W3|]. by destruct (Hnr o).
Qed.

Lemma createObject_does addr s :
  wf s → let r := createObject addr s in
  r.1.1 = newObject addr zeroAccount ∧ r.1.2 = live s addr ∧
  ∃ s1, loads s s1 ∧
    r.2 = setStateObject (newObject addr zeroAccount)
            (journal_append (match live s addr with None => createObjectChange addr | Some p => resetObjectChange p end) s1) ∧
    live s1 addr = live s addr.
Proof.
  intros Hw. unfold createObject. destruct (getStateObject_loads addr s Hw) as (H1 & H2 & H3 & _).
  destruct (getStateObject addr s) as [prev s1]. cbn [fst snd] in *. subst prev.
  split; [done|]. split; [done|]. exists s1. done.
Qed.

(** A new object [o] for an address: what it replaces is in the journal. *)
Definition replaces (addr : Address) (s : StateDB) : journalEntry :=
  match live s addr with None => createObjectChange addr | Some p => resetObjectChange p end.

Lemma append_keeps e s :
  sd_stateObjects (journal_append e s) = sd_stateObjects s ∧ sd_trie (journal_append e s) = sd_trie s ∧
  sd_refund (journal_append e s) = sd_refund s ∧ sd_logs (journal_append e s) = sd_logs s ∧
  sd_logSize (journal_append e s) = sd_logSize s ∧ sd_preimages (journal_append e s) = sd_preimages s.
Proof. unfold journal_append. by destruct (dirtied e). Qed.

Lemma create_back addr o s :
  wf s → so_address o = addr →
  ∃ s0, entry_revert (replaces addr s) (setStateObject o (journal_append (replaces addr s) s)) = Some s0 ∧ sim s0 s.
Proof.
  intros Hw Ea. destruct (append_keeps (replaces addr s) s) as (Eo & Et & K1 & K2 & K3 & K4).
  set (s1 := journal_append _ _) in *. clearbody s1.
  assert (∀ s0, (∀ b, olive s0 s b) → sd_trie s0 = sd_trie s1 → sd_refund s0 = sd_refund s1 →
    sd_logs s0 = sd_logs s1 → sd_logSize s0 = sd_logSize s1 → sd_preimages s0 = sd_preimages s1 → sim s0 s) as Hsim.
  { intros s0 ? ? ? E ? ?. split; try congruence; [done|]. intros h. unfold GetLogs. by rewrite E, K2. }
  assert (∀ b, live s1 b = live s b) as HL by (intros b; unfold live; by rewrite Eo, Et).
  unfold replaces. destruct (live s addr) as [p|] eqn:El; cbn [entry_revert]; eexists; (split; [done|]); apply Hsim; try done; intros b; unfold olive.
  - destruct (live_address _ _ _ Hw El) as [Eap Edp]. rewrite !live_set, Eap, Edp, Ea.
    destruct (decide (b = addr)) as [->|]; [by rewrite El|]. rewrite HL. exact (olive_refl s b).
  - unfold live at 1, setStateObject. upd. rewrite Ea, Eo, Et. destruct (decide (b = addr)) as [->|].
    + rewrite lookup_delete_eq, El. unfold live in El.
      destruct (sd_stateObjects s !! addr) as [q|] eqn:Eq; [|by rewrite El].
      destruct (so_deleted q) eqn:Edq; [|done]. by rewrite (proj1 (wf_deleted _ Hw _ _ Eq Edq)).
    + rewrite lookup_delete_ne, lookup_insert_ne by done. exact (olive_refl s b).
Qed.

Lemma does_create addr o s :
  wf s → so_address o = addr → so_deleted o = false → so_suicided o = false →
  ac_Balance (so_data o) = bal s addr →
  does s (setStateObject o (journal_append (replaces addr s) s)).
Proof.
  intros Hw Ea Ed Esu Hb. pose proof (create_back addr o s Hw Ea) as Hback. set (e := replaces addr s) in *.
  assert (∀ p, e = resetObjectChange p → so_deleted p = false) as Hr.
  { unfold e, replaces. destruct (live s addr) as [q|] eqn:E; intros p [= ->]. by eapply live_address. }
  destruct (append_same e s Hw Hr) as (W1 & [S1 M1] & B1 & E1).
  assert (∀ b, live (setStateObject o (journal_append e s)) b = if decide (b = addr) then Some o else live (journal_append e s) b) as L1.
  { intros b. by rewrite live_set, Ea, Ed. }
  assert (inmap (setStateObject o (journal_append e s)) addr) as Hin.
  { exists o. unfold setStateObject. upd. by rewrite Ea, lookup_insert_eq. }
  apply (does_change e); [|done|done|done]. split; try done.
  - intros b Hb'. apply inmap_set; [done|by apply M1].
  - intros b Eb. unfold e, replaces in Eb. destruct (live s addr) eqn:El; [done|]. injection Eb as <-.
    intros (q & Eq & Edq). unfold live in El. by rewrite Eq, Edq in El.
  - intros b Eb. assert (b = addr) as ->; [|done]. unfold e, replaces in Eb.
    destruct (live s addr); cbn in Eb; congruence.
  - intros b. unfold bal at 1. rewrite L1. destruct (decide (b = addr)) as [->|]; [done|].
    fold (bal (journal_append e s) b). by rewrite <- (sim_bal _ _ b S1).
  - intros b. unfold dying at 1. rewrite L1. destruct (decide (b = addr)) as [->|]; [by rewrite Esu|].
    fold (dying (journal_append e s) b). rewrite <- (sim_dying _ _ b S1). by left.
  - intros b Hb'. unfold olive. rewrite L1, decide_False; [apply S1|]. intros ->. apply Hb'.
    unfold e, replaces. destruct (live s addr) as [p|] eqn:E; [right|by left].
    exists p. split; [done|]. by destruct (live_address _ _ _ Hw E).
  - by apply wf_set.
Qed.

Lemma GetOrNewStateObject_does addr s :
  wf s → let r := GetOrNewStateObject addr s in
  does s r.2 ∧ live r.2 addr = Some r.1 ∧ inmap r.2 addr ∧ so_address r.1 = addr ∧
  ac_Balance (so_data r.1) = bal s addr.
Proof.
  intros Hw. unfold GetOrNewStateObject. destruct (getStateObject_loads addr s Hw) as (H1 & H2 & H3 & H4).
  destruct (getStateObject addr s) as [prev s1]. cbn [fst snd] in *. subst prev.
  destruct (live s addr) as [o|] eqn:El.
  { destruct (live_address _ _ _ Hw El) as [Ea Ed]. rewrite Ed. cbn [fst snd].
    split; [by apply does_loads|]. split; [done|]. split.
    - destruct (H4 (ex_intro _ o eq_refl)) as [o' Ho']. exists o'. split; [done|].
      unfold live in H3. rewrite Ho' in H3. by destruct (so_deleted o').
    - split; [done|]. unfold bal. by rewrite El. }
  destruct (createObject_does addr s1 (ld_wf _ _ H1)) as (E1 & E2 & s2 & H5 & E5 & L5). cbn zeta in *.
  destruct (createObject addr s1) as [[new prev] s3]. cbn [fst snd] in *. subst new prev s3.
  rewrite H3 in *.
  assert (bal s2 addr = 0) as Hb0 by (unfold bal; by rewrite L5).
  pose proof (does_create addr (newObject addr zeroAccount) s2 (ld_wf _ _ H5) eq_refl eq_refl eq_refl (eq_sym Hb0)) as Hd.
  unfold replaces in Hd. rewrite L5 in Hd. split.
  - eapply does_trans; [by apply does_loads|]. eapply does_trans; [by apply does_loads|exact Hd].
  - split; [by rewrite live_set, decide_True|]. split; [|split; [done|unfold bal; by rewrite El]].
    eexists. unfold setStateObject. upd. cbn [so_address newObject]. by rewrite lookup_insert_eq.
Qed.

Lemma setStateObject_twice o o' s :
  so_address o' = so_address o → setStateObject o' (setStateObject o s) = setStateObject o' s.
Proof.
  intros E. unfold setStateObject. destruct s. unfold field_update. cbn. f_equal. rewrite E.
  apply insert_insert_eq.
Qed.

Lemma CreateAccount_does addr s : wf s → does s (CreateAccount addr s).
Proof.
  intros Hw. unfold CreateAccount.
  destruct (createObject_does addr s Hw) as (E1 & E2 & s2 & H5 & E5 & L5). cbn zeta in *.
  destruct (createObject addr s) as [[new prev] s3]. cbn [fst snd] in *. subst new prev s3.
  eapply does_trans; [apply does_loads; exact H5|]. rewrite <- L5.
  destruct (live s2 addr) as [p|] eqn:El.
  - assert (∀ o s', setStateObject (setBalance (ac_Balance (so_data p)) o) (setStateObject o s')
      = setStateObject (setBalance (ac_Balance (so_data p)) o) s') as Hset.
    { intros o s'. apply setStateObject_twice. done. }
    rewrite Hset. set (o := setBalance _ _).
    assert (ac_Balance (so_data o) = bal s2 addr) as Hb by (unfold bal; by rewrite El).
    pose proof (does_create addr o s2 (ld_wf _ _ H5) eq_refl eq_refl eq_refl Hb) as Hd. unfold replaces in Hd. by rewrite El in Hd.
  - assert (bal s2 addr = 0) as Hb by (unfold bal; by rewrite El).
    pose proof (does_create addr (newObject addr zeroAccount) s2 (ld_wf _ _ H5) eq_refl eq_refl eq_refl (eq_sym Hb)) as Hd.
    unfold replaces in Hd. by rewrite El in Hd.
Qed.

Lemma on_object_set o f s :
  so_deleted o = false →
  on_object (so_address o) f (setStateObject o s) = Some (setStateObject (f o) (setStateObject o s)).
Proof. intros Hd. unfold on_object. by rewrite getStateObject_set. Qed.

(** Setting a field and setting it back. *)
Lemma setBalance_back v o : oeq (setBalance (ac_Balance (so_data o)) (setBalance v o)) o.
Proof. split; try done. by destruct o as [? [? ? ? ?] ? ? ? ? ? ? ? ?]. Qed.

Lemma setNonce_back v o : oeq (setNonce (ac_Nonce (so_data o)) (setNonce v o)) o.
Proof. split; try done. by destruct o as [? [? ? ? ?] ? ? ? ? ? ? ? ?]. Qed.

Lemma suicide_back o :
  oeq (setBalance (ac_Balance (so_data o))
    ((setBalance 0 (o <| so_suicided := true |>)) <| so_suicided := so_suicided o |>)) o.
Proof. split; try done. by destruct o as [? [? ? ? ?] ? ? ? ? ? ? ? ?]. Qed.

Lemma setState_back k v o : oeq (setState k (slot o k) (setState k v o)) o.
Proof.
  split; try done. intros j. unfold slot at 1, setState. upd. destruct (decide (j = k)) as [->|].
  - by rewrite lookup_insert_eq.
  - rewrite !lookup_insert_ne by done. done.
Qed.

Lemma setCode_back h c o : oeq (setCode (ac_CodeHash (so_data o)) (code_of o) (setCode h (Some c) o)) o.
Proof.
  split; try done; [by destruct o as [? [? ? ? ?] ? ? ? ? ? ? ? ?]|].
  unfold code_of, setCode, so_addrHash. upd. upd. destruct (so_code o); [done|].
  destruct (ac_CodeHash (so_data o) =? emptyCodeHash); [done|].
  by destruct (ContractCode db _ _) as [[code|] err].
Qed.

(** The writers of a live object. *)
Section writers.
Context (o : stateObject) (s : StateDB).
Hypothesis Hw : wf s.
Hypothesis Hl : live s (so_address o) = Some o.
Hypothesis Hm : inmap s (so_address o).

Lemma live_alive : so_deleted o = false.
Proof. by eapply live_address. Qed.

Lemma SetBalance_does v : does s (stateObject_SetBalance v o s).
Proof.
  apply (does_object _ o _ (setBalance (ac_Balance (so_data o)) (setBalance v o))); try done.
  - apply live_alive.
  - by left.
  - cbn zeta. apply (on_object_set (setBalance v o)), live_alive.
  - apply setBalance_back.
Qed.

Lemma touch_does : does s (touch o s).
Proof.
  assert (does s (journal_append (touchChange (so_address o)) s)) as H.
  { destruct (append_same (touchChange (so_address o)) s Hw) as (W1 & [S1 M1] & B1 & E1); [done|].
    apply (does_change (touchChange (so_address o))); [|done|done|done]. split; try done.
    - eexists. split; [done|]. by symmetry.
    - intros b [= <-]. by apply M1.
    - intros b. rewrite <- (sim_dying _ _ b S1). by left.
    - intros b _. apply S1. }
  unfold touch. destruct (Z.eqb_spec (so_address o) ripemd) as [Er|]; [|done].
  destruct H as (Hw' & Hb & Hc & es & E & H). split; [by destruct Hw'|]. split; [done|].
  split; [rewrite Er in *; intros HH; by apply (counted_dirty _ (journal_append _ s)), Hc|].
  exists es. split; [done|]. eapply hist_same; [exact H|]. split; [|done]. split; try done.
  intros b. exact (olive_refl _ b).
Qed.

Lemma AddBalance_object_does v : does s (stateObject_AddBalance v o s).
Proof.
  unfold stateObject_AddBalance. repeat case_match; [apply touch_does|by apply does_loads, loads_refl|apply SetBalance_does].
Qed.

Lemma SubBalance_object_does v : does s (stateObject_SubBalance v o s).
Proof. unfold stateObject_SubBalance. case_match; [by apply does_loads, loads_refl|apply SetBalance_does]. Qed.

Lemma SetNonce_does v : does s (stateObject_SetNonce v o s).
Proof.
  apply (does_object _ o _ (setNonce (ac_Nonce (so_data o)) (setNonce v o))); try done.
  - apply live_alive.
  - by left.
  - cbn zeta. apply (on_object_set (setNonce v o)), live_alive.
  - apply setNonce_back.
Qed.

Lemma Suicide_object_does :
  does s (setStateObject (setBalance 0 (o <| so_suicided := true |>))
    (journal_append (suicideChange (so_address o) (so_suicided o) (ac_Balance (so_data o))) s)).
Proof.
  set (o' := setBalance 0 (o <| so_suicided := true |>)).
  apply (does_object _ o _ (setBalance (ac_Balance (so_data o)) (o' <| so_suicided := so_suicided o |>))); try done.
  - apply live_alive.
  - by right.
  - cbn zeta. cbn [entry_revert]. change (so_address o) with (so_address o').
    by rewrite getStateObject_set by apply live_alive.
  - apply suicide_back.
Qed.

Lemma SetState_does k v : does s (stateObject_SetState db k v o s).
Proof.
  unfold stateObject_SetState. destruct (GetState_oeq o k) as [Ek Ho].
  destruct (stateObject_GetState db o k) as [prev o1]. cbn [fst snd] in *. subst prev.
  pose proof (oe_address _ _ Ho) as Ea. pose proof (oe_deleted _ _ Ho) as Ed. rewrite live_alive in Ed.
  case_match; [by apply does_loads, (loads_set s (so_address o) o)|].
  rewrite (oe_slot _ _ Ho).
  apply (does_object _ o _ (setState k (slot o1 k) (setState k v o1))); try done.
  - by rewrite Ea.
  - by rewrite (oe_data _ _ Ho).
  - left. by rewrite (oe_suicided _ _ Ho).
  - cbn zeta. by apply (on_object_set (setState k v o1)).
  - etrans; [apply setState_back|by symmetry].
Qed.

Lemma SetCode_does h c : does s (stateObject_SetCode db h c o s).
Proof.
  unfold stateObject_SetCode. destruct (Code_oeq o) as [Ek Ho].
  destruct (stateObject_Code db o) as [prev o1]. cbn [fst snd] in *. subst prev.
  pose proof (oe_address _ _ Ho) as Ea. pose proof (oe_deleted _ _ Ho) as Ed. rewrite live_alive in Ed.
  rewrite (oe_code _ _ Ho).
  apply (does_object _ o _ (setCode (ac_CodeHash (so_data o1)) (code_of o1) (setCode h (Some c) o1))); try done.
  - by rewrite Ea.
  - by rewrite (oe_data _ _ Ho).
  - left. by rewrite (oe_suicided _ _ Ho).
  - cbn zeta. by apply (on_object_set (setCode h (Some c) o1)).
  - etrans; [apply setCode_back|by symmetry].
Qed.
End writers.
End views.
