(* ===== verification/StateDBRevert.v ===== *)
(** * StateDBRevert: snapshots of the state

    The operations the virtual machine has on a state, as data; every one of them is
    a history of journalled changes; and reverting to a snapshot, after any sequence
    of them, leads back to a state that shows what was there when it was taken. *)

From S2P Require Import Prelude Bytes Params Crypto MinerContract StateDB SecureTrie StateDBFacts.

Local Open Scope Z_scope.

(** The methods of [vm.StateDB] ([ForEachStorage] apart). *)
Inductive op :=
| opCreateAccount (addr : Address)
| opSubBalance (addr : Address) (amount : Z)
| opAddBalance (addr : Address) (amount : Z)
| opGetBalance (addr : Address)
| opGetNonce (addr : Address)
| opSetNonce (addr : Address) (nonce : Z)
| opHasCode (addr : Address)
| opGetCodeHash (addr : Address)
| opGetCode (addr : Address)
| opSetCode (addr : Address) (code : bytes)
| opGetCodeSize (addr : Address)
| opAddRefund (gas : Z)
| opSubRefund (gas : Z)
| opGetRefund
| opGetCommittedState (addr : Address) (key : Hash)
| opGetState (addr : Address) (key : Hash)
| opSetState (addr : Address) (key value : Hash)
| opSuicide (addr : Address)
| opHasSuicided (addr : Address)
| opExist (addr : Address)
| opEmpty (addr : Address)
| opRevertToSnapshot (revid : Z)
| opSnapshot
| opAddLog (log : Log)
| opAddPreimage (hash : Hash) (preimage : bytes).

Section revert.
Context `{CR : Crypto} `{SD : StateDatabase} (db : Database).

(** The state after an operation; [None] is a panic. *)
Definition runOp (o : op) (s : StateDB) : option StateDB :=
  match o with
  | opCreateAccount addr => Some (CreateAccount addr s)
  | opSubBalance addr amount => Some (SubBalance addr amount s)
  | opAddBalance addr amount => Some (AddBalance addr amount s)
  | opGetBalance addr => Some (GetBalance addr s).2
  | opGetNonce addr => Some (GetNonce addr s).2
  | opSetNonce addr nonce => Some (SetNonce addr nonce s)
  | opHasCode addr => Some (HasCode addr s).2
  | opGetCodeHash addr => Some (GetCodeHash addr s).2
  | opGetCode addr => Some (GetCode db addr s).2
  | opSetCode addr code => Some (SetCode db addr code s)
  | opGetCodeSize addr => Some (GetCodeSize db addr s).2
  | opAddRefund gas => Some (AddRefund gas s)
  | opSubRefund gas => SubRefund gas s
  | opGetRefund => Some s
  | opGetCommittedState addr key => Some (GetCommittedState db addr key s).2
  | opGetState addr key => Some (GetState db addr key s).2
  | opSetState addr key value => Some (SetState db addr key value s)
  | opSuicide addr => Some (Suicide addr s).2
  | opHasSuicided addr => Some (HasSuicided addr s).2
  | opExist addr => Some (Exist addr s).2
  | opEmpty addr => Some (Empty addr s).2
  | opRevertToSnapshot revid => RevertToSnapshot revid s
  | opSnapshot => Some (Snapshot s).2
  | opAddLog log => Some (AddLog log s)
  | opAddPreimage hash preimage => Some (AddPreimage hash preimage s)
  end.

Fixpoint runOps (ops : list op) (s : StateDB) : option StateDB :=
  match ops with
  | [] => Some s
  | o :: ops => s ← runOp o s; runOps ops s
  end.

(** ** Every operation is a history *)

Lemma on_account_does addr s (f : stateObject → StateDB → StateDB) :
  wf s →
  (∀ o s, wf s → live s (so_address o) = Some o → inmap s (so_address o) → does db s (f o s)) →
  does db s (let '(o, s) := GetOrNewStateObject addr s in f o s).
Proof.
  intros Hw Hf. destruct (GetOrNewStateObject_does db addr s Hw) as (Hd & Hl & Hm & Ea & _).
  destruct (GetOrNewStateObject addr s) as [o s1]. cbn [fst snd] in *. subst addr.
  eapply does_trans; [exact Hd|]. apply Hf; [apply Hd|done|done].
Qed.

Lemma reads_does {A : Type} (none : A) f (v : stateObject → A) addr s :
  wf s → (∀ o, (f o).1 = v o ∧ oeq db o (f o).2) → does db s (with_object none f addr s).2.
Proof. intros Hw Hf. apply does_loads. by apply (with_object_loads db none f v). Qed.

Lemma looks_does addr s : wf s → does db s (getStateObject addr s).2.
Proof. intros Hw. apply does_loads. by apply getStateObject_loads. Qed.

Lemma GetCodeSize_does addr s : wf s → does db s (GetCodeSize db addr s).2.
Proof.
  intros Hw. unfold GetCodeSize. destruct (getStateObject_loads db addr s Hw) as (H1 & H2 & _).
  destruct (getStateObject addr s) as [o s1]. cbn [fst snd] in *.
  assert (does db s s1) as Hd by (by apply does_loads). destruct o as [o|]; [|done].
  destruct (so_code o); [done|]. destruct (ContractCodeSize _ _ _) as [size [err|]]; [|done].
  eapply does_trans; [exact Hd|]. apply does_loads, setError_loads, H1.
Qed.

Lemma Suicide_does addr s : wf s → does db s (Suicide addr s).2.
Proof.
  intros Hw. unfold Suicide. destruct (getStateObject_loads db addr s Hw) as (H1 & H2 & H3 & H4).
  destruct (getStateObject addr s) as [prev s1]. cbn [fst snd] in *. subst prev.
  eapply does_trans; [apply does_loads, H1|]. rewrite <- H3.
  destruct (live s1 addr) as [o|] eqn:El; cbn [snd]; [|apply does_loads, loads_refl, H1].
  destruct (live_address _ _ _ (ld_wf _ _ _ H1) El) as [Ea Ed]. subst addr.
  apply Suicide_object_does; [apply H1|done|].
  destruct H4 as [o' Ho']; [rewrite <- H3; by eexists|]. exists o'. split; [done|].
  unfold live in El. rewrite Ho' in El. by destruct (so_deleted o').
Qed.

(** Changes of the parts of a state that are not its accounts. *)
Lemma sim_parts s s' :
  sd_trie s' = sd_trie s → sd_stateObjects s' = sd_stateObjects s → sd_refund s' = sd_refund s →
  (∀ h, GetLogs h s' = GetLogs h s) → sd_logSize s' = sd_logSize s → sd_preimages s' = sd_preimages s →
  sim db s' s.
Proof.
  intros Et Eo ? ? ? ?. split; try done. intros a. unfold live. rewrite Et, Eo. exact (olive_refl db s a).
Qed.

Lemma AddLog_does log s : wf s → does db s (AddLog log s).
Proof.
  intros Hw. pose proof (wf_logSize _ Hw) as Hu.
  eapply (does_rest db (addLogChange (sd_thash s))); try done; [apply u64_range|].
  unfold AddLog, journal_append. cbn [dirtied]. apply sim_parts; upd.
  - by destruct (_ =? 1)%nat.
  - by destruct (_ =? 1)%nat.
  - by destruct (_ =? 1)%nat.
  - intros h. rewrite lookup_insert_eq. cbn [default from_option id]. rewrite length_app. cbn [length].
    set (l := default [] (sd_logs s !! sd_thash s)).
    assert (GetLogs (sd_thash s) s = l) as El by done. clearbody l.
    destruct (Nat.eqb_spec (length l + 1) 1) as [E|E]; unfold GetLogs; upd.
    + destruct (decide (h = sd_thash s)) as [->|].
      * rewrite lookup_delete_eq. unfold GetLogs in El. rewrite El. destruct l; [done|cbn in E; lia].
      * by rewrite lookup_delete_ne, lookup_insert_ne.
    + destruct (decide (h = sd_thash s)) as [->|].
      * rewrite lookup_insert_eq. unfold GetLogs in El. rewrite El. cbn [default from_option id].
        replace (length l + 1 - 1)%nat with (length l) by lia. by rewrite take_app_length.
      * by rewrite !lookup_insert_ne.
  - assert (sub64 (add64 (sd_logSize s) 1) 1 = sd_logSize s) as E64 by (by apply sub64_add64).
    by destruct (_ =? 1)%nat.
  - by destruct (_ =? 1)%nat.
Qed.

Lemma AddPreimage_does hash preimage s : wf s → does db s (AddPreimage hash preimage s).
Proof.
  intros Hw. unfold AddPreimage. destruct (sd_preimages s !! hash) eqn:E; [by apply does_loads, loads_refl|].
  eapply (does_rest db (addPreimageChange hash)); try done; [apply Hw|].
  apply sim_parts; try done. unfold journal_append. cbn [dirtied]. upd. by apply delete_insert_id.
Qed.

Lemma AddRefund_does gas s : wf s → does db s (AddRefund gas s).
Proof.
  intros Hw. eapply (does_rest db (refundChange (sd_refund s))); try done; [apply Hw|by apply sim_parts].
Qed.

Lemma SubRefund_does gas s s' : wf s → SubRefund gas s = Some s' → does db s s'.
Proof.
  intros Hw. unfold SubRefund. cbn zeta. destruct (_ <? gas); [done|]. intros [= <-].
  eapply (does_rest db (refundChange (sd_refund s))); try done; [apply Hw|by apply sim_parts].
Qed.

(** ** Undoing several entries *)

Lemma undirty_keeps e s :
  wf s → wf (undirty e s) ∧ book (undirty e s) = book s ∧ sd_entries (undirty e s) = sd_entries s ∧
  same db s (undirty e s).
Proof.
  intros [W1 W2 W3 W4]. unfold undirty. destruct (dirtied e); [|by split_and!; [|done|done|apply same_refl]].
  split_and!; try done. split; [|done]. split; try done. intros b. exact (olive_refl db s b).
Qed.

Lemma undo_entries base es s l pre :
  wf s → hist db base (es ++ l) s → counted (pre ++ es ++ l) (sd_dirties s) →
  ∃ s', foldr (λ e s, s ← s; s ← entry_revert e s; Some (undirty e s)) (Some s) l = Some s' ∧
    wf s' ∧ book s' = book s ∧ sd_entries s' = sd_entries s ∧
    hist db base es s' ∧ counted (pre ++ es) (sd_dirties s').
Proof.
  revert s. induction l as [|e l IH] using rev_ind; intros s Hw H Hc.
  { rewrite app_nil_r in *. by eexists. }
  rewrite foldr_app. rewrite app_assoc in H. cbn [foldr].
  destruct (hist_undo db base (es ++ l) e s Hw H) as (s0 & E0 & H0 & Hr). cbn [mbind option_bind]. rewrite E0.
  destruct (entry_revert_keeps db e s s0 Hw Hr E0) as (W0 & B0 & [= P0 D0] & _).
  destruct (undirty_keeps e s0 W0) as (W1 & B1 & P1 & S1).
  destruct (IH (undirty e s0)) as (s' & E' & W' & B' & P' & H' & C'); [done|by eapply hist_same| |].
  - apply counted_undo. rewrite D0, <- !app_assoc. done.
  - exists s'. split; [exact E'|]. split_and!; try done; congruence.
Qed.

(** Back to the entry number [length pre + m]. *)
Lemma journal_revert_hist base s pre es m :
  wf s → sd_entries s = pre ++ es → hist db base es s → counted (sd_entries s) (sd_dirties s) →
  ∃ s', journal_revert (length pre + m) s = Some s' ∧ wf s' ∧ book s' = book s ∧
    sd_entries s' = pre ++ take m es ∧ hist db base (take m es) s' ∧
    counted (sd_entries s') (sd_dirties s').
Proof.
  intros Hw He H Hc. unfold journal_revert. rewrite He, drop_app_add. rewrite He in Hc.
  destruct (undo_entries base (take m es) s (drop m es) pre) as (s' & E' & W' & B' & P' & H' & C'); [done|by rewrite take_drop..|].
  rewrite E'. cbn [mbind option_bind].
  assert (take (length pre + m) (sd_entries s') = pre ++ take m es) as Et by (by rewrite P', He, take_app_add).
  eexists. split; [done|]. upd. rewrite Et. split_and!; try done.
  - destruct W' as [W1 W2 W3 W4]. split; try done. upd. rewrite Et. intros o [Ho|Ho]%elem_of_app; apply W3; rewrite P', He.
    + by apply elem_of_app; left.
    + apply elem_of_app; right. apply elem_of_take in Ho as (i & Hi & _). by eapply list_elem_of_lookup_2.
  - eapply hist_same; [exact H'|]. split; [|done]. split; try done. intros b. exact (olive_refl db s' b).
Qed.

(** ** The revisions *)

Definition earlier (r r' : Z * nat) : Prop := r.1 < r'.1 ∧ (r.2 <= r'.2)%nat.

Lemma search_at revid n l1 l2 :
  Forall (λ r, r.1 < revid) l1 → searchRevision revid (l1 ++ (revid, n) :: l2) = length l1.
Proof.
  induction 1 as [|[i m] l1 Hi _ IH]; cbn [app searchRevision].
  - by rewrite Z.leb_refl.
  - cbn in Hi. destruct (Z.leb_spec revid i); [lia|]. cbn. by rewrite IH.
Qed.

Lemma search_split revid l i n :
  l !! searchRevision revid l = Some (i, n) →
  ∃ l1 l2, l = l1 ++ (i, n) :: l2 ∧ Forall (λ r, r.1 < revid) l1.
Proof.
  induction l as [|[j m] l IH]; [done|]. cbn [searchRevision]. destruct (Z.leb_spec revid j).
  - intros [= -> ->]. by exists [], l.
  - intros (l1 & l2 & -> & Hl)%IH. exists ((j, m) :: l1), l2. split; [done|]. by constructor.
Qed.

Lemma RevertToSnapshot_at revid n l1 l2 s :
  sd_validRevisions s = l1 ++ (revid, n) :: l2 → Forall (λ r, r.1 < revid) l1 →
  RevertToSnapshot revid s =
    (s' ← journal_revert n s; Some (s' <| sd_validRevisions ::= take (length l1) |>)).
Proof.
  intros E Hl. unfold RevertToSnapshot. rewrite E, search_at by done. cbn zeta.
  rewrite lookup_app_r, Nat.sub_diag by done. cbn. by rewrite Z.eqb_refl.
Qed.

Lemma RevertToSnapshot_split revid s s' :
  RevertToSnapshot revid s = Some s' →
  ∃ l1 n l2, sd_validRevisions s = l1 ++ (revid, n) :: l2 ∧ Forall (λ r, r.1 < revid) l1.
Proof.
  unfold RevertToSnapshot. cbn zeta. destruct (_ !! _) as [[i n]|] eqn:E; [|done].
  destruct (Z.eqb_spec i revid) as [->|]; [|done]. intros _.
  destruct (search_split _ _ _ _ E) as (l1 & l2 & -> & Hl). by exists l1, n, l2.
Qed.

(** ** The invariant of a transaction *)

(** The journal is the history since [base], the state then; the revisions are in
    order, each within the journal. *)
Record tracked (base s : StateDB) : Prop := {
  tr_wf : wf s;
  tr_book : sd_trie s = sd_trie base ∧ sd_minerTracker s = sd_minerTracker base;
  tr_hist : hist db base (sd_entries s) s;
  tr_counted : counted (sd_entries s) (sd_dirties s);
  tr_sorted : StronglySorted earlier (sd_validRevisions s);
  tr_bound : Forall (λ r, r.1 < sd_nextRevisionId s ∧ (r.2 <= length (sd_entries s))%nat) (sd_validRevisions s)
}.

Lemma does_tracked base s s' : does db s s' → tracked base s → tracked base s'.
Proof.
  intros (W & B & C & es & E & H) [_ B0 H0 C0 S0 F0]. injection B as Et _ _ _ Ev En Em.
  rewrite <- Et, <- Em in B0.
  split; [done|done| |auto|by rewrite Ev|].
  - rewrite E. by eapply hist_trans.
  - rewrite Ev, En, E. eapply Forall_impl; [exact F0|]. cbn. intros r ?. rewrite length_app. lia.
Qed.

(** The state does not depend on its revisions. *)
Lemma revisions_same s l n :
  wf s → let s' := s <| sd_validRevisions := l |> <| sd_nextRevisionId := n |> in wf s' ∧ same db s s'.
Proof.
  intros [W1 W2 W3 W4]. split; [done|]. split; [|done]. split; try done. intros b. exact (olive_refl db s b).
Qed.

Lemma Snapshot_tracked base s : tracked base s → tracked base (Snapshot s).2.
Proof.
  intros [W B H C S F]. unfold Snapshot. cbn [snd].
  destruct (revisions_same s (sd_validRevisions s ++ [(sd_nextRevisionId s, length (sd_entries s))])
    (sd_nextRevisionId s + 1) W) as [W' S'].
  split; upd; [exact W'|done|eapply hist_same; [exact H|exact S']|done| |].
  - apply StronglySorted_app_2; [|done|by repeat constructor]. intros r r' Hr ->%list_elem_of_singleton.
    rewrite Forall_forall in F. destruct (F r Hr). by split; cbn.
  - apply Forall_app. split; [|repeat constructor; cbn; lia].
    eapply Forall_impl; [exact F|]. cbn. intros r ?. lia.
Qed.

Lemma RevertToSnapshot_does base s l1 revid n l2 :
  tracked base s → sd_validRevisions s = l1 ++ (revid, n) :: l2 → Forall (λ r, r.1 < revid) l1 →
  ∃ s', RevertToSnapshot revid s = Some s' ∧ tracked base s' ∧ sd_validRevisions s' = l1 ∧
    sd_nextRevisionId s' = sd_nextRevisionId s ∧
    (∀ s0 pre es m, sd_entries s = pre ++ es → n = (length pre + m)%nat → hist db s0 es s →
      sd_entries s' = pre ++ take m es ∧ hist db s0 (take m es) s').
Proof.
  intros [W B H C S F] Ev Hl.
  assert (∀ s'', journal_revert n s = Some s'' → sd_validRevisions s'' = sd_validRevisions s →
    wf s'' → take (length l1) (sd_validRevisions s'') = l1 ∧
    wf (s'' <| sd_validRevisions ::= take (length l1) |>) ∧ same db s'' (s'' <| sd_validRevisions ::= take (length l1) |>)) as Hs.
  { intros s'' _ E W''. rewrite E, Ev, take_app_length. split; [done|].
    exact (revisions_same s'' (take (length l1) (sd_validRevisions s'')) (sd_nextRevisionId s'') W''). }
  destruct (journal_revert_hist base s [] (sd_entries s) n) as (s' & E & W' & B' & E' & H' & C'); [done..|].
  cbn [length Nat.add app] in *. injection B' as Etr _ _ _ Ev' En' Em. rewrite <- Etr, <- Em in B. destruct (Hs s' E Ev' W') as (Et & W2 & S2).
  exists (s' <| sd_validRevisions ::= take (length l1) |>).
  split; [rewrite (RevertToSnapshot_at revid n l1 l2) by done; by rewrite E|]. upd. split_and!; try done.
  - split; upd; try done; [rewrite E'; by eapply hist_same|..]; rewrite Et.
    + rewrite Ev in S. by apply StronglySorted_app_1_l in S.
    + rewrite En', E', length_take. rewrite Ev in F, S. apply Forall_app in F as [F1 F2].
      apply Forall_forall. intros r Hr. rewrite Forall_forall in F1. destruct (F1 r Hr). split; [done|].
      assert (earlier r (revid, n)) as [_ Hrn] by (eapply StronglySorted_app_1_elem_of; [exact S|done|by left]).
      cbn in Hrn. lia.
  - intros s0 pre es m He -> H0.
    destruct (journal_revert_hist s0 s pre es m) as (s2 & E2 & _ & _ & P2 & H2 & _); [done..|].
    assert (s2 = s') as -> by congruence. split; [done|]. by eapply hist_same.
Qed.

(** An operation that is neither a snapshot nor a revert. *)
Lemma runOp_does o s s' :
  wf s → runOp o s = Some s' →
  match o with opSnapshot | opRevertToSnapshot _ => True | _ => does db s s' end.
Proof.
  intros Hw. destruct o; cbn [runOp]; try done; try (intros [= <-]).
  - by apply CreateAccount_does.
  - apply on_account_does; [done|]. intros. by apply SubBalance_object_does.
  - apply on_account_does; [done|]. intros. by apply AddBalance_object_does.
  - by apply (reads_does _ _ (λ o, ac_Balance (so_data o))).
  - by apply (reads_does _ _ (λ o, ac_Nonce (so_data o))).
  - apply on_account_does; [done|]. intros. by apply SetNonce_does.
  - by apply (reads_does _ _ (λ o, negb (ac_CodeHash (so_data o) =? emptyCodeHash))).
  - by apply (reads_does _ _ (λ o, ac_CodeHash (so_data o))).
  - apply (reads_does _ _ (code_of db)); [done|]. apply Code_oeq.
  - apply on_account_does; [done|]. intros. by apply SetCode_does.
  - by apply GetCodeSize_does.
  - by apply AddRefund_does.
  - by apply SubRefund_does.
  - by apply does_loads, loads_refl.
  - apply (reads_does _ _ (λ o, committed_slot db o key)); [done|]. intros o. apply GetCommittedState_oeq.
  - apply (reads_does _ _ (λ o, slot db o key)); [done|]. intros o. apply GetState_oeq.
  - apply on_account_does; [done|]. intros. by apply SetState_does.
  - by apply Suicide_does.
  - by apply (reads_does _ _ so_suicided).
  - unfold Exist. pose proof (looks_does addr s Hw). by destruct (getStateObject addr s).
  - unfold Empty. pose proof (looks_does addr s Hw). by destruct (getStateObject addr s).
  - by apply AddLog_does.
  - by apply AddPreimage_does.
Qed.

Lemma runOp_tracked base o s s' : tracked base s → runOp o s = Some s' → tracked base s'.
Proof.
  intros Ht Hr. pose proof (runOp_does o s s' (tr_wf _ _ Ht) Hr) as Hd.
  destruct o; try (by eapply does_tracked); [|injection Hr as <-; by apply Snapshot_tracked].
  cbn in Hr. destruct (RevertToSnapshot_split _ _ _ Hr) as (l1 & n & l2 & Ev & Hl).
  destruct (RevertToSnapshot_does base s l1 revid n l2 Ht Ev Hl) as (s1 & E1 & T1 & _). congruence.
Qed.

Lemma runOps_ind (P : StateDB → Prop) ops s s' :
  (∀ o s s', P s → runOp o s = Some s' → P s') → P s → runOps ops s = Some s' → P s'.
Proof.
  intros Hstep. revert s. induction ops as [|o ops IH]; intros s Hs; cbn; [by intros [= <-]|].
  destruct (runOp o s) as [s1|] eqn:E; [|done]. cbn. apply IH. by eapply Hstep.
Qed.

Lemma runOps_tracked base ops s s' : tracked base s → runOps ops s = Some s' → tracked base s'.
Proof. apply (runOps_ind (tracked base)). intros o s1 s2. apply runOp_tracked. Qed.

(** A state between two transactions. *)
Record fresh (s : StateDB) : Prop := {
  fr_wf : wf s;
  fr_entries : sd_entries s = [];
  fr_dirties : sd_dirties s = ∅;
  fr_revisions : sd_validRevisions s = []
}.

Lemma fresh_tracked s : fresh s → tracked s s.
Proof.
  intros [W E D R]. split; rewrite ?E, ?D, ?R; try done; [apply hist_nil, same_refl| |constructor].
  intros a. exists 0. rewrite lookup_empty. by split_and!.
Qed.

(** ** A snapshot stays what it was *)

(** The state [t] later than the snapshot [id] of [s]: either the snapshot is gone,
    or the journal has a history since. *)
Definition since (id : Z) (s t : StateDB) : Prop :=
  id < sd_nextRevisionId t ∧
  (id ∉ (sd_validRevisions t).*1 ∨
   ∃ l es, sd_validRevisions t = sd_validRevisions s ++ (id, length (sd_entries s)) :: l ∧
     sd_entries t = sd_entries s ++ es ∧ hist db s es t).

Lemma since_snapshot s : wf s → since (Snapshot s).1 s (Snapshot s).2.
Proof.
  intros Hw. split; [cbn; upd; lia|]. right. exists [], []. unfold Snapshot. cbn [snd fst]. upd.
  rewrite app_nil_r. split_and!; try done. constructor.
  exact (proj2 (revisions_same s (sd_validRevisions s ++ [(sd_nextRevisionId s, length (sd_entries s))])
    (sd_nextRevisionId s + 1) Hw)).
Qed.

Lemma since_does id s t t' : does db t t' → since id s t → since id s t'.
Proof.
  intros (W & B & C & es' & E & H) [Hn Hs]. injection B as _ _ _ _ Ev En _.
  split; [by rewrite En|]. rewrite Ev, E. destruct Hs as [Hs|(l & es & El & Ee & Hh)]; [by left|].
  right. exists l, (es ++ es'). split_and!; [done|by rewrite Ee, app_assoc|by eapply hist_trans].
Qed.

Lemma since_next id s t : wf t → since id s t → since id s (Snapshot t).2.
Proof.
  intros Hw [Hn Hs]. unfold Snapshot. cbn [snd]. split; upd; [lia|].
  destruct Hs as [Hs|(l & es & El & Ee & Hh)].
  - left. rewrite fmap_app. cbn. intros [?|Hin%list_elem_of_singleton]%elem_of_app; [done|lia].
  - right. exists (l ++ [(sd_nextRevisionId t, length (sd_entries t))]), es.
    rewrite El, <- app_assoc. split_and!; try done. eapply hist_same; [exact Hh|].
    exact (proj2 (revisions_same t (sd_validRevisions t ++ [(sd_nextRevisionId t, length (sd_entries t))])
      (sd_nextRevisionId t + 1) Hw)).
Qed.

(** Two revisions of a sorted list, the second one later. *)
Lemma split_later (l1 l2 k1 k2 : list (Z * nat)) revid n id k :
  StronglySorted earlier (l1 ++ (revid, n) :: l2) → l1 ++ (revid, n) :: l2 = k1 ++ (id, k) :: k2 →
  id < revid → ∃ l, l1 = k1 ++ (id, k) :: l ∧ (k <= n)%nat.
Proof.
  intros S E Hlt. destruct (app_eq_inv _ _ _ _ E) as [(m & El1 & Ek2)|(m & Ek1 & El2)].
  - destruct m as [|r m]; [cbn in Ek2; injection Ek2; lia|]. injection Ek2 as <- _. exists m. split; [done|].
    assert (earlier (id, k) (revid, n)) as [_ ?]; [|done].
    eapply StronglySorted_app_1_elem_of; [exact S| |by left]. subst l1. set_solver.
  - exfalso. destruct m as [|r m]; [cbn in El2; injection El2; lia|]. injection El2 as <- _.
    rewrite E in S. assert (earlier (revid, n) (id, k)) as [? _]; [|cbn in *; lia].
    eapply StronglySorted_app_1_elem_of; [exact S| |by left]. subst k1. set_solver.
Qed.

Lemma since_revert base id s t revid t' :
  tracked base t → since id s t → RevertToSnapshot revid t = Some t' → since id s t'.
Proof.
  intros Ht [Hn Hs] Hr. destruct (RevertToSnapshot_split _ _ _ Hr) as (l1 & n & l2 & Ev & Hl).
  destruct (RevertToSnapshot_does base t l1 revid n l2 Ht Ev Hl) as (s1 & E1 & T1 & Ev1 & En1 & Hh).
  assert (s1 = t') as -> by congruence. split; [by rewrite En1|]. rewrite Ev1.
  destruct Hs as [Hs|(l & es & El & Ee & Hes)].
  { left. rewrite Ev, fmap_app in Hs. set_solver. }
  destruct (Z.le_gt_cases revid id) as [Hle|Hgt].
  { left. intros (r & Er & Hr')%list_elem_of_fmap. rewrite Forall_forall in Hl. specialize (Hl r Hr'). lia. }
  pose proof (tr_sorted _ _ Ht) as HS. rewrite Ev in HS, El.
  destruct (split_later _ _ _ _ _ _ _ _ HS El Hgt) as (l' & -> & Hkn). right.
  destruct (Hh s (sd_entries s) es (n - length (sd_entries s))%nat Ee) as [He' Hh']; [lia|done|].
  by exists l', (take (n - length (sd_entries s)) es).
Qed.

Lemma since_step base id s o t t' :
  tracked base t → since id s t → runOp o t = Some t' → since id s t'.
Proof.
  intros Ht Hs Hr. pose proof (tr_wf _ _ Ht) as Hw. pose proof (runOp_does o t t' Hw Hr) as Hd.
  destruct o; try (by eapply since_does); [by eapply since_revert|].
  injection Hr as <-. by apply since_next.
Qed.

(** C3. Snapshots and reverts.  Take a snapshot in a state [s] that some operations
    of a transaction led to, run any further operations (nested snapshots and reverts
    among them), and revert to it.  As long as the snapshot is still valid, the revert
    succeeds and gives a state that shows what [s] showed: the same accounts, code and
    storage slots, refund, logs and preimages above the same trie; the journal and the
    older snapshots are those of [s] again.  A snapshot that an earlier revert has
    dropped is refused. *)
Theorem revert_restores s0 ops s ops' s' :
  fresh s0 → runOps ops s0 = Some s → runOps ops' (Snapshot s).2 = Some s' →
  let id := (Snapshot s).1 in
  if decide (id ∈ (sd_validRevisions s').*1) then
    ∃ s'', RevertToSnapshot id s' = Some s'' ∧ sim db s s'' ∧ sd_entries s'' = sd_entries s ∧
      sd_validRevisions s'' = sd_validRevisions s
  else RevertToSnapshot id s' = None.
Proof.
  intros Hf H1 H2 id. pose proof (runOps_tracked s0 ops s0 s (fresh_tracked _ Hf) H1) as Ht.
  assert (tracked s0 s' ∧ since id s s') as [Ht' [_ Hs']].
  { apply (runOps_ind (λ t, tracked s0 t ∧ since id s t) ops' (Snapshot s).2); [|split|done].
    - intros o t t' [T S] Hr. split; [by eapply runOp_tracked|by eapply since_step].
    - by apply Snapshot_tracked.
    - apply since_snapshot, Ht. }
  destruct (decide _) as [Hin|Hout].
  - destruct Hs' as [?|(l & es & Ev & Ee & Hh)]; [done|].
    destruct (RevertToSnapshot_does s0 s' (sd_validRevisions s) id (length (sd_entries s)) l Ht' Ev) as (s'' & E & T & Ev'' & _ & Hh').
    { apply Forall_impl with (1 := tr_bound _ _ Ht). intros r [? _]. done. }
    destruct (Hh' s (sd_entries s) es O Ee) as [Ee'' Hh'']; [lia|done|].
    rewrite take_0, app_nil_r in *. exists s''. split_and!; try done.
    inversion Hh'' as [? [? _]|]; [done|]. by destruct es0.
  - destruct (RevertToSnapshot id s') eqn:E; [|done]. destruct (RevertToSnapshot_split _ _ _ E) as (l1 & n & l2 & Ev & _).
    destruct Hout. rewrite Ev, fmap_app. set_solver.
Qed.
End revert.

(** ** A transaction on an empty state *)

Import Toy ToyState.

Module Example.

(** An account is funded; after a snapshot its storage is written, an inner call
    destroys it and is reverted, and another account is made. *)
Definition before : list op := [opAddBalance 5 100; opSetNonce 5 1].
Definition after : list op :=
  [opSetState 5 1 2; opSnapshot; opSuicide 5; opRevertToSnapshot 1; opCreateAccount 6; opAddBalance 6 7].

Definition s : StateDB := default blank (runOps db before blank).
Definition s' : StateDB := default blank (runOps db after (Snapshot s).2).

Lemma blank_objects a : sd_stateObjects blank !! a = None.
Proof. exact (lookup_empty a). Qed.

Lemma blank_fresh : fresh blank.
Proof.
  split; [|exact eq_refl..]. split; [| |by intros o ?%elem_of_nil|by vm_compute];
    intros a o Ho; by rewrite blank_objects in Ho.
Qed.

Lemma before_runs : runOps db before blank = Some s.
Proof. apply default_ran. vm_compute. reflexivity. Qed.

Lemma after_runs : runOps db after (Snapshot s).2 = Some s'.
Proof. apply default_ran. vm_compute. reflexivity. Qed.
End Example.

Lemma revert_restores_witness :
  0 ∈ (sd_validRevisions Example.s').*1 ∧
  ∃ s'', RevertToSnapshot 0 Example.s' = Some s'' ∧ sim ToyState.db Example.s s'' ∧
    sd_entries s'' = sd_entries Example.s ∧ sd_validRevisions s'' = sd_validRevisions Example.s.
Proof.
  pose proof (revert_restores ToyState.db ToyState.blank Example.before Example.s Example.after Example.s'
    Example.blank_fresh Example.before_runs Example.after_runs) as H.
  assert ((Snapshot Example.s).1 = 0) as E by (vm_compute; reflexivity). cbv zeta in H. rewrite E in H.
  assert (0 ∈ (sd_validRevisions Example.s').*1) as Hin by (by apply (bool_decide_unpack _); vm_compute).
  rewrite decide_True in H by exact Hin. exact (conj Hin H).
Defined.
