(* ===== verification/StateDBCommit.v ===== *)
(** * StateDBCommit: finishing transactions

    What [Finalise] leaves behind: the trie holds the accounts the state shows, the
    miner tracker has every account whose balance changed.  The trie and the codec
    below are used through their laws. *)

From S2P Require Import Prelude Bytes Params Crypto MinerContract StateDB SecureTrie StateDBFacts StateDBRevert.

Local Open Scope Z_scope.

Lemma Address_Bytes_inj a b : address_ok a → address_ok b → Address_Bytes a = Address_Bytes b → a = b.
Proof.
  intros Ha Hb E. unfold Address_Bytes in E. apply (f_equal be_int) in E.
  by rewrite !be_int_be_bytes_id in E.
Qed.

Section finalise.
Context `{CR : Crypto} `{SD : StateDatabase} `{TL : !TrieLaws} (db : Database) (d : bool).

(** ** One account *)

(** [Finalise] removes the account. *)
Definition doomed (o : stateObject) : bool := so_suicided o || (d && stateObject_empty o).

Definition finalised (o : stateObject) : stateObject :=
  if doomed o then o <| so_deleted := true |> else updateRoot db o.

(** The account the trie should hold. *)
Definition recorded (o : stateObject) : option Account :=
  if doomed o then None else Some (so_data (updateRoot db o)).

Lemma like_addresses a b : like (Address_Bytes a) (Address_Bytes b).
Proof. unfold like, Address_Bytes. rewrite !length_be_bytes. split_and!; [apply be_bytes_ok|done|by apply Nat.leb_le]. Qed.

Lemma load_data t a :
  so_data <$> load t a = match (TryGet t (Address_Bytes a)).1 with [] => None | enc => decode_account enc end.
Proof.
  unfold load. destruct (TryGet t (Address_Bytes a)).1 as [|x l]; [done|].
  by destruct (decode_account (x :: l)).
Qed.

Lemma load_same t t' a :
  (TryGet t' (Address_Bytes a)).1 = (TryGet t (Address_Bytes a)).1 → load t' a = load t a.
Proof. intros E. unfold load. by rewrite E. Qed.

Lemma foldr_updateSlot_fixed l t o :
  let o' := (foldr updateSlot (t, o) l).2 in
  so_address o' = so_address o ∧ so_data o' = so_data o ∧ so_suicided o' = so_suicided o ∧
  so_deleted o' = so_deleted o ∧ so_code o' = so_code o.
Proof.
  induction l as [|[k v] l IH]; [done|]. cbn [foldr]. destruct (foldr updateSlot (t, o) l) as [t1 o1].
  cbn in IH. unfold updateSlot. cbn zeta. case_match; [exact IH|].
  destruct (if v =? 0 then _ else _) as [t2 err]. unfold stateObject_setError. cbn [snd]. by case_match.
Qed.

(** [updateRoot] changes nothing of an object but its storage and its root. *)
Lemma updateRoot_fixed o :
  let o' := updateRoot db o in
  so_address o' = so_address o ∧ so_suicided o' = so_suicided o ∧ so_deleted o' = so_deleted o ∧
  so_code o' = so_code o ∧ (∃ t, so_data o' = (so_data o) <| ac_Root := Trie_Hash t |>).
Proof.
  unfold updateRoot, updateTrie. destruct (getTrie_oeq db o) as [_ Ho].
  assert (so_code (getTrie db o).2 = so_code o) as Hc.
  { unfold getTrie. destruct (so_trie o); [done|]. destruct (OpenStorageTrie _ _ _); [done|].
    unfold stateObject_setError. by case_match. }
  destruct (getTrie db o) as [t o1]. cbn [snd] in *.
  destruct (foldr_updateSlot_fixed (map_to_list (so_dirtyStorage o1)) t o1) as (E1 & E2 & E3 & E4 & E5).
  destruct (foldr updateSlot (t, o1) _) as [t2 o2]. cbn zeta in *. cbn [snd] in *. upd.
  rewrite E1, E2, E3, E4, E5, Hc, <- (oe_address _ _ _ Ho), <- (oe_suicided _ _ _ Ho), <- (oe_deleted _ _ _ Ho), <- (oe_data _ _ _ Ho).
  split_and!; try done. by exists t2.
Qed.

Lemma updateRoot_account_ok o : account_ok (so_data o) → account_ok (so_data (updateRoot db o)).
Proof.
  intros [? ? ? ?]. destruct (updateRoot_fixed o) as (_ & _ & _ & _ & t & ->).
  split; try done. apply Trie_Hash_ok.
Qed.

(** ** The loop over the dirty accounts *)

(** What the loop leaves alone. *)
Definition aside (s : StateDB) :=
  (sd_refund s, (sd_thash s, sd_bhash s, sd_txIndex s), sd_logs s, sd_logSize s, sd_preimages s,
   (sd_entries s, sd_dirties s), (sd_validRevisions s, sd_nextRevisionId s), sd_minerTracker s).

Lemma setError_None s : setError None s = s.
Proof. unfold setError. destruct s; cbn. by case_match; subst. Qed.

(** The account the trie holds after the loop over [l]. *)
Definition trie_after (l : list Address) (s : StateDB) (b : Address) : option Account :=
  match sd_stateObjects s !! b with
  | Some o => if decide (b ∈ l) then recorded o else so_data <$> load (sd_trie s) b
  | None => so_data <$> load (sd_trie s) b
  end.

Definition object_ok (s : StateDB) (a : Address) : Prop :=
  address_ok a ∧ ∀ o, sd_stateObjects s !! a = Some o → so_address o = a ∧ account_ok (so_data o).

Lemma finaliseOne_spec a s :
  object_ok s a → healthy (sd_trie s) →
  ∃ s', finaliseOne db d a s = Some s' ∧ healthy (sd_trie s') ∧ aside s' = aside s ∧
    sd_stateObjects s' = alter finalised a (sd_stateObjects s) ∧
    ∀ b, address_ok b → so_data <$> load (sd_trie s') b = trie_after [a] s b.
Proof.
  intros [Ha Hok] Hh. unfold finaliseOne. destruct (sd_stateObjects s !! a) as [o|] eqn:Eo.
  2: { exists s. split_and!; try done; [by rewrite alter_id by (intros; congruence)|].
       intros b Hb. unfold trie_after. destruct (sd_stateObjects s !! b) eqn:Eb; [|done].
       rewrite decide_False; [done|]. intros ->%list_elem_of_singleton. congruence. }
  destruct (Hok o eq_refl) as [Ea Hacc]. fold (doomed o).
  assert (∀ o' s', so_address o' = a → sd_stateObjects s' = <[a := o']> (sd_stateObjects s) → finalised o = o' →
    sd_stateObjects s' = alter finalised a (sd_stateObjects s)) as Hobj.
  { intros o' s' _ -> <-. apply map_eq. intros i. destruct (decide (i = a)) as [->|].
    - by rewrite lookup_insert_eq, lookup_alter_eq, Eo.
    - by rewrite lookup_insert_ne, lookup_alter_ne. }
  assert (∀ t' r, (∀ k', like (Address_Bytes a) k' → (TryGet t' k').1 = if decide (k' = Address_Bytes a) then r else (TryGet (sd_trie s) k').1) →
    recorded o = match r with [] => None | enc => decode_account enc end →
    ∀ b, address_ok b → so_data <$> load t' b = trie_after [a] s b) as Htrie.
  { intros t' r Hg Hr b Hb. rewrite load_data, Hg by apply like_addresses. unfold trie_after. destruct (decide (b = a)) as [->|Hn].
    - rewrite Eo, !decide_True, Hr by set_solver. by destruct r.
    - rewrite decide_False by (intros E; by apply Hn, Address_Bytes_inj). rewrite load_data.
      destruct (sd_stateObjects s !! b); [|done]. by rewrite decide_False by set_solver. }
  destruct (doomed o) eqn:Ed.
  - unfold deleteStateObject. destruct (healthy_delete (sd_trie s) (Address_Bytes (so_address o)) Hh (be_bytes_ok _ _)) as (t' & Et & Hh' & Hg).
    change (sd_trie (setStateObject _ s)) with (sd_trie s). rewrite Et, setError_None. cbn [mbind option_bind]. eexists. split; [done|].
    split_and!; try done; [|by rewrite Ea in Hg; apply (Htrie t' []); unfold recorded; rewrite ?Ed].
    apply (Hobj (o <| so_deleted := true |>)); try done; [|by unfold finalised; rewrite Ed].
    unfold setStateObject. upd. by rewrite Ea.
  - destruct (updateRoot_fixed o) as (Ea' & _). rewrite Ea in Ea'.
    destruct (encode_decode _ (updateRoot_account_ok o Hacc)) as (enc & Ee & Hne & Hd).
    unfold updateStateObject. rewrite Ee. cbn [mbind option_bind].
    destruct (healthy_update (sd_trie s) (Address_Bytes a) enc Hh (be_bytes_ok _ _) Hne) as (t' & Et & Hh' & Hg).
    change (sd_trie (setStateObject _ s)) with (sd_trie s). rewrite Ea', Et, setError_None. eexists. split; [done|].
    split_and!; try done.
    + apply (Hobj (updateRoot db o)); try done; [|by unfold finalised; rewrite Ed].
      unfold setStateObject. upd. by rewrite Ea'.
    + apply (Htrie t' enc); [done|]. unfold recorded. rewrite Ed. by destruct enc.
Qed.

Lemma finaliseAll_spec l s :
  NoDup l → (∀ a, a ∈ l → object_ok s a) → healthy (sd_trie s) →
  ∃ s', finaliseAll db d l s = Some s' ∧ healthy (sd_trie s') ∧ aside s' = aside s ∧
    (∀ b, sd_stateObjects s' !! b =
      if decide (b ∈ l) then finalised <$> sd_stateObjects s !! b else sd_stateObjects s !! b) ∧
    ∀ b, address_ok b → so_data <$> load (sd_trie s') b = trie_after l s b.
Proof.
  revert s. induction l as [|a l IH]; intros s Hnd Hok Hh.
  { exists s. split_and!; try done. intros b _. unfold trie_after. by destruct (sd_stateObjects s !! b). }
  apply NoDup_cons in Hnd as [Hni Hnd].
  destruct (finaliseOne_spec a s) as (s1 & E1 & Hh1 & A1 & O1 & T1); [apply Hok; by left|done|].
  assert (∀ b, b ≠ a → sd_stateObjects s1 !! b = sd_stateObjects s !! b) as Hb1
    by (intros b Hb; by rewrite O1, lookup_alter_ne).
  destruct (IH s1) as (s' & E & Hh' & A & O & T); [done| |done|].
  { intros b Hb. destruct (Hok b) as [Hbok Hobj]; [by right|]. split; [done|].
    rewrite Hb1 by (intros ->; done). done. }
  exists s'. cbn [finaliseAll]. rewrite E1. split_and!; [done|done|congruence| |].
  - intros b. rewrite O. destruct (decide (b = a)) as [->|Hb].
    + rewrite (decide_False (P := a ∈ l)) by done. rewrite decide_True by (by left).
      by rewrite O1, lookup_alter_eq.
    + rewrite Hb1 by done. apply decide_ext. rewrite elem_of_cons. tauto.
  - intros b Hbok. rewrite T by done. specialize (T1 b Hbok). unfold trie_after in *.
    destruct (decide (b = a)) as [->|Hb].
    + rewrite O1, lookup_alter_eq, T1. destruct (sd_stateObjects s !! a); cbn; [|done].
      rewrite (decide_False (P := a ∈ l)) by done. by rewrite !decide_True by (by left).
    + rewrite Hb1 by done. rewrite T1. destruct (sd_stateObjects s !! b); [|done].
      rewrite (decide_False (P := b ∈ [a])) by (by intros ->%list_elem_of_singleton).
      apply decide_ext. rewrite elem_of_cons. tauto.
Qed.

(** ** The miner tracker *)

(** The fields [trackOne] does not change. *)
Definition untracked (s : StateDB) := s <| sd_minerTracker := None |>.

Lemma trackOne_dirty e s t :
  sd_minerTracker s = Some t →
  ∃ dirty, sd_minerTracker (trackOne e s) = Some (t <| mt_objectsDirty := dirty |>) ∧
    ∀ a, a ∈ dirty ↔ a ∈ mt_objectsDirty t ∨ money e = Some a ∧ is_Some (sd_stateObjects s !! a).
Proof.
  intros Et. unfold trackOne. rewrite Et. destruct (money e) as [b|] eqn:Em.
  - assert (∀ x, (match e with
                  | balanceChange addr _ | suicideChange addr _ _ => x addr
                  | _ => s
                  end) = x b) as -> by (by destruct e; simplify_eq/=).
    destruct (sd_stateObjects s !! b) eqn:Eb.
    + exists ({[b]} ∪ mt_objectsDirty t). split; [by destruct t|]. intros a. rewrite elem_of_union, elem_of_singleton.
      split; [intros [->|?]; [right; by rewrite Eb|by left]|intros [?|[[= ->] _]]; auto].
    + exists (mt_objectsDirty t). rewrite Et. split; [by destruct t|]. intros a.
      split; [by left|]. intros [?|[[= ->] [? ?]]]; [done|congruence].
  - exists (mt_objectsDirty t). split; [destruct e; by destruct t|]. intros a. split; [by left|]. by intros [?|[? _]].
Qed.

Lemma track_spec es s :
  let s' := foldl (λ s e, trackOne e s) s es in
  untracked s' = untracked s ∧
  (sd_minerTracker s = None → sd_minerTracker s' = None) ∧
  ∀ t, sd_minerTracker s = Some t → ∃ dirty, sd_minerTracker s' = Some (t <| mt_objectsDirty := dirty |>) ∧
    ∀ a, a ∈ dirty ↔ a ∈ mt_objectsDirty t ∨
      ∃ e, e ∈ es ∧ money e = Some a ∧ is_Some (sd_stateObjects s !! a).
Proof.
  cbn zeta. revert s. induction es as [|e es IH]; intros s; cbn [foldl].
  { split_and!; try done. intros t Et. exists (mt_objectsDirty t). split; [by destruct t|].
    intros a. split; [by left|]. intros [?|(e & He%elem_of_nil & _)]; done. }
  destruct (IH (trackOne e s)) as (U & N & T). clear IH.
  assert (untracked (trackOne e s) = untracked s) as U1.
  { unfold trackOne. by repeat case_match. }
  assert (sd_stateObjects (trackOne e s) = sd_stateObjects s) as O1.
  { unfold trackOne. by repeat case_match. }
  split_and!; [congruence|intros En; apply N; unfold trackOne; by rewrite En|].
  intros t Et.
  destruct (trackOne_dirty e s t Et) as (d1 & E1 & Hd1).
  destruct (T _ E1) as (d2 & E2 & Hd2). exists d2. split; [done|].
  intros a. rewrite Hd2, O1. upd. rewrite Hd1. setoid_rewrite elem_of_cons. clear. naive_solver.
Qed.
End finalise.

(** ** A transaction *)

Section transactions.
Context `{CR : Crypto} `{SD : StateDatabase} `{TL : !TrieLaws} (db : Database).


(** The objects are within the types of Go, their balances not negative. *)
Definition typed (s : StateDB) : Prop :=
  ∀ a o, sd_stateObjects s !! a = Some o → address_ok a ∧ account_ok (so_data o).

(** A state between two transactions, above a complete trie, with the destroyed
    accounts removed. *)
Record quiet (s : StateDB) : Prop := {
  qu_fresh : fresh s;
  qu_trie : healthy (sd_trie s);
  qu_alive : ∀ a, address_ok a → dying s a = false
}.

(** The trie holds the accounts the state shows. *)
Definition synced (s : StateDB) : Prop :=
  ∀ a, address_ok a → so_data <$> load (sd_trie s) a = so_data <$> live s a.

(** The accounts [Finalise] should leave. *)
Definition finalise_view (s : StateDB) (a : Address) : option stateObject :=
  match sd_stateObjects s !! a with
  | Some o =>
      if decide (a ∈ dom (sd_dirties s)) then
        if so_deleted o || doomed true o then None else Some (updateRoot db o)
      else live s a
  | None => live s a
  end.

Lemma deleted_doomed s a o : wf s → sd_stateObjects s !! a = Some o → so_deleted o = true → doomed true o = true.
Proof. intros Hw Eo Ed. unfold doomed. by destruct (wf_deleted _ Hw _ _ Eo Ed). Qed.

Lemma load_eq t t' a : so_data <$> load t' a = so_data <$> load t a → load t' a = load t a.
Proof.
  unfold load. destruct (TryGet t' _).1 as [|x l], (TryGet t _).1 as [|y k]; cbn; try done.
  - by destruct (decode_account (y :: k)).
  - by destruct (decode_account (x :: l)).
  - destruct (decode_account (x :: l)), (decode_account (y :: k)); cbn; try done. by intros [= ->].
Qed.

(** A state in which the loop has run. *)
Record looped (s s' : StateDB) : Prop := {
  lo_trie : healthy (sd_trie s');
  lo_objects : ∀ b, sd_stateObjects s' !! b =
    if decide (b ∈ dom (sd_dirties s)) then finalised db true <$> sd_stateObjects s !! b else sd_stateObjects s !! b;
  lo_load : ∀ b, address_ok b → so_data <$> load (sd_trie s') b = trie_after db true (elements (dom (sd_dirties s))) s b
}.

Lemma finalised_deleted o : so_deleted (finalised db true o) = so_deleted o || doomed true o.
Proof.
  unfold finalised. destruct (doomed true o); [by rewrite orb_true_r|]. rewrite orb_false_r. by apply updateRoot_fixed.
Qed.

Lemma finalised_address o : so_address (finalised db true o) = so_address o.
Proof. unfold finalised. destruct (doomed true o); [done|]. apply updateRoot_fixed. Qed.

Lemma looped_live s s' a : wf s → looped s s' → address_ok a → live s' a = finalise_view s a.
Proof.
  intros Hw [_ O T] Ha. specialize (T a Ha). unfold trie_after in T. unfold finalise_view, live at 1. rewrite O.
  destruct (sd_stateObjects s !! a) as [o|] eqn:Eo.
  - destruct (decide (a ∈ dom (sd_dirties s))); [|unfold live; by rewrite Eo]. cbn [fmap option_fmap option_map].
    rewrite finalised_deleted. destruct (so_deleted o || doomed true o) eqn:E; [done|].
    apply orb_false_iff in E as [_ E]. unfold finalised. by rewrite E.
  - replace (if decide _ then _ else _) with (@None stateObject) by (by destruct (decide _)).
    unfold live. rewrite Eo. by apply load_eq.
Qed.

Lemma looped_wf s s' :
  wf s → typed s → looped s s' → aside s' = aside s → wf s'.
Proof.
  intros Hw Hty [H O T] [= _ _ _ _ _ El _ Ee _ _ _ _]. split.
  - intros a o. rewrite O. destruct (decide _); [|apply Hw].
    destruct (sd_stateObjects s !! a) as [o1|] eqn:Eo; [|done]. intros [= <-].
    rewrite finalised_address. by apply (wf_address _ Hw).
  - intros a o. rewrite O. destruct (sd_stateObjects s !! a) as [o1|] eqn:Eo; [|by destruct (decide _)].
    destruct (Hty a o1 Eo) as [Ha _]. specialize (T a Ha). unfold trie_after in T. rewrite Eo in T.
    destruct (decide (a ∈ dom _)) as [Hin|Hin]; cbn.
    + intros [= <-]. rewrite finalised_deleted, decide_True in * by (by apply elem_of_elements). intros Hd.
      assert (doomed true o1 = true) as Hdo.
      { apply orb_true_iff in Hd as [Hd|?]; [by eapply deleted_doomed|done]. }
      unfold recorded, finalised in *. rewrite Hdo in *. split; [|done].
      by destruct (load _ a).
    + intros [= <-] Hd. rewrite decide_False in T by (by rewrite elem_of_elements).
      destruct (wf_deleted _ Hw _ _ Eo Hd) as [El' ?]. split; [|done]. rewrite El' in T. by destruct (load _ a).
  - rewrite Ee. apply Hw.
  - rewrite El. apply Hw.
Qed.

(** The accounts with an entry are loaded, dirty and within their types. *)
Lemma entry_dirty base s e a :
  tracked db base s → e ∈ sd_entries s → dirtied e = Some a → a ∈ dom (sd_dirties s) ∧ inmap s a.
Proof.
  intros Ht He Ha. split; [apply elem_of_dom; by eapply counted_dom; [apply Ht|..]|].
  by eapply hist_inmap; [apply Ht|..].
Qed.

Lemma dirty_ok base s a : tracked db base s → typed s → a ∈ dom (sd_dirties s) → object_ok s a.
Proof.
  intros Ht Hty Ha%elem_of_dom. split.
  - destruct (counted_inv _ _ _ (tr_counted _ _ _ Ht) Ha) as [->|(e & He & Hd)]; [by split|].
    destruct (entry_dirty _ _ _ _ Ht He Hd) as [_ (o & Eo & _)]. by destruct (Hty a o Eo).
  - intros o Eo. split; [by apply (wf_address _ (tr_wf _ _ _ Ht))|by destruct (Hty a o Eo)].
Qed.

Lemma money_dirtied e a : money e = Some a → dirtied e = Some a.
Proof. by destruct e. Qed.

(** [Finalise] up to the tracker. *)
Lemma finalise_loop_runs base s :
  tracked db base s → typed s → healthy (sd_trie s) →
  ∃ s1, finaliseAll db true (elements (dom (sd_dirties s))) s = Some s1 ∧ looped s s1 ∧ aside s1 = aside s.
Proof.
  intros Ht Hty Hh. destruct (finaliseAll_spec db true (elements (dom (sd_dirties s))) s) as (s1 & E & H1 & A1 & O1 & T1).
  - apply NoDup_elements.
  - intros a Ha%elem_of_elements. by eapply dirty_ok.
  - done.
  - exists s1. split; [done|]. split; [|done]. split; [done| |done].
    intros b. rewrite O1. apply decide_ext, elem_of_elements.
Qed.

(** What the tracker and the end of the transaction leave alone. *)
Lemma finish_keeps s1 s' :
  wf s1 → untracked s' = untracked (clearJournalAndRefund s1) →
  fresh s' ∧ sd_trie s' = sd_trie s1 ∧ ∀ a, live s' a = live s1 a.
Proof.
  intros [W1 W2 W3 W4] U.
  assert (sd_trie s' = sd_trie s1 ∧ sd_stateObjects s' = sd_stateObjects s1 ∧ sd_entries s' = [] ∧
    sd_dirties s' = ∅ ∧ sd_validRevisions s' = [] ∧ sd_logSize s' = sd_logSize s1) as (E1 & E2 & E3 & E4 & E5 & E6).
  { split_and!; [exact (f_equal sd_trie U)|exact (f_equal sd_stateObjects U)|exact (f_equal sd_entries U)|
      exact (f_equal sd_dirties U)|exact (f_equal sd_validRevisions U)|exact (f_equal sd_logSize U)]. }
  split_and!; [|done|intros a; unfold live; by rewrite E1, E2].
  split; [|done..]. split; rewrite ?E1, ?E2, ?E3, ?E6; try done. by intros o ?%elem_of_nil.
Qed.

Lemma Finalise_runs base s :
  tracked db base s → typed s → healthy (sd_trie s) →
  ∃ s', Finalise db true s = Some s' ∧ fresh s' ∧ healthy (sd_trie s') ∧
    (∀ a, address_ok a → live s' a = finalise_view s a) ∧
    (∀ a, address_ok a → so_data <$> load (sd_trie s') a = trie_after db true (elements (dom (sd_dirties s))) s a) ∧
    (sd_minerTracker s = None → sd_minerTracker s' = None) ∧
    ∀ t, sd_minerTracker s = Some t → ∃ dirty, sd_minerTracker s' = Some (t <| mt_objectsDirty := dirty |>) ∧
      ∀ a, a ∈ dirty ↔ a ∈ mt_objectsDirty t ∨ ∃ e, e ∈ sd_entries s ∧ money e = Some a.
Proof.
  intros Ht Hty Hh. unfold Finalise. destruct (finalise_loop_runs base s Ht Hty Hh) as (s1 & E1 & L1 & A1).
  pose proof (looped_wf s s1 (tr_wf _ _ _ Ht) Hty L1 A1) as W1. rewrite E1. cbn [mbind option_bind].
  injection A1 as _ _ _ _ _ _ _ Ee _ _ _ Em.
  destruct (track_spec (sd_entries s1) s1) as (U & N & T). set (s2 := foldl _ _ _) in *.
  destruct (finish_keeps s1 (clearJournalAndRefund s2)) as (F & Et & El); [done| |].
  { change (clearJournalAndRefund (untracked s2) = clearJournalAndRefund (untracked s1)). by rewrite U. }
  exists (clearJournalAndRefund s2). split_and!; try done.
  - rewrite Et. apply L1.
  - intros a Ha. rewrite El. by apply looped_live; [apply Ht|..].
  - rewrite Et. apply L1.
  - rewrite <- Em. exact N.
  - intros t. rewrite <- Em. intros Htr. destruct (T t Htr) as (dirty & Ed & Hd).
    exists dirty. split; [exact Ed|]. intros a. rewrite Hd, Ee. split; (intros [?|(e & He & Hm)]; [by left|]); right; exists e.
    + by destruct Hm.
    + split; [done|]. split; [done|]. destruct (entry_dirty _ _ _ _ Ht He (money_dirtied _ _ Hm)) as [Hdi (o & Eo & _)].
      rewrite (lo_objects _ _ L1), decide_True, Eo by done. by eexists.
Qed.

(** The accounts nothing in the journal is about show what they showed. *)
Lemma clean_view base s a :
  tracked db base s → (∀ o, resetObjectChange o ∈ sd_entries s → so_address o ∈ dom (sd_dirties s)) →
  a ∉ dom (sd_dirties s) → olive db base s a.
Proof.
  intros Ht Hr Ha. eapply hist_others; [apply Ht|]. intros e He [Hd|(o & -> & <-)]; [|by apply Ha, Hr].
  by destruct (entry_dirty _ _ _ _ Ht He Hd).
Qed.

(** ** The results of a transaction *)

Lemma Finalise_quiet base s s' :
  quiet base → tracked db base s → fresh s' → healthy (sd_trie s') →
  (∀ a, address_ok a → live s' a = finalise_view s a) → quiet s'.
Proof.
  intros Hq Ht F H L. split; [done|done|]. intros a Ha. unfold dying. rewrite L by done.
  assert (∀ o, live s a = Some o → a ∉ dom (sd_dirties s) ∨ sd_stateObjects s !! a = None → so_suicided o = false) as Hs.
  { intros o El Hc. apply not_true_iff_false. intros Hs.
    assert (dying s a = true) as Hd by (unfold dying; by rewrite El).
    destruct (hist_dying db base _ s a (tr_hist _ _ _ Ht) Hd) as [Hb|(e & He & Hm)].
    - by rewrite (qu_alive _ Hq a Ha) in Hb.
    - destruct (entry_dirty _ _ _ _ Ht He (money_dirtied _ _ Hm)) as [? (o' & Eo & _)].
      destruct Hc; [done|congruence]. }
  unfold finalise_view. destruct (sd_stateObjects s !! a) as [o|] eqn:Eo.
  - destruct (decide _); [|by destruct (live s a) eqn:El; [apply Hs; [|left]|]].
    destruct (so_deleted o || doomed true o) eqn:Ed; [done|]. apply orb_false_iff in Ed as [_ Ed].
    apply orb_false_iff in Ed as [Ed _]. destruct (updateRoot_fixed db o) as (_ & -> & _). done.
  - destruct (live s a) eqn:El; [|done]. apply Hs; [done|by right].
Qed.

Lemma Finalise_synced base s s' :
  synced base → tracked db base s →
  (∀ o, resetObjectChange o ∈ sd_entries s → so_address o ∈ dom (sd_dirties s)) →
  (∀ a, address_ok a → live s' a = finalise_view s a) →
  (∀ a, address_ok a → so_data <$> load (sd_trie s') a = trie_after db true (elements (dom (sd_dirties s))) s a) →
  synced s'.
Proof.
  intros Hy Ht Hr L T a Ha. rewrite T, L by done. unfold trie_after, finalise_view.
  destruct (sd_stateObjects s !! a) as [o|] eqn:Eo; [|unfold live; by rewrite Eo].
  destruct (decide (a ∈ dom (sd_dirties s))) as [Hin|Hin].
  - rewrite decide_True by (by apply elem_of_elements). unfold recorded.
    destruct (so_deleted o) eqn:Ed; [by rewrite (deleted_doomed s a o (tr_wf _ _ _ Ht) Eo Ed)|].
    cbn. by destruct (doomed true o).
  - rewrite decide_False by (by rewrite elem_of_elements). pose proof (clean_view base s a Ht Hr Hin) as Ho.
    destruct (tr_book _ _ _ Ht) as [-> _]. rewrite (Hy a Ha). unfold olive in Ho.
    destruct (live base a), (live s a); cbn in *; try done. by rewrite (oe_data _ _ _ Ho).
Qed.

(** Every account whose balance is not what it was has an entry of its own. *)
Lemma Finalise_balance base s s' a :
  quiet base → tracked db base s → live s' a = finalise_view s a → address_ok a →
  bal s' a ≠ bal base a → ∃ e, e ∈ sd_entries s ∧ money e = Some a.
Proof.
  intros Hq Ht L Ha Hn. destruct (decide (bal s a = bal base a)) as [Es|Hs]; [|by eapply hist_balance; [apply Ht|]].
  rewrite <- Es in Hn. unfold bal in Hn. rewrite L in Hn. unfold finalise_view in Hn.
  destruct (sd_stateObjects s !! a) as [o|] eqn:Eo; [|done]. destruct (decide _); [|done].
  assert (live s a = if so_deleted o then None else Some o) as El by (unfold live; by rewrite Eo).
  rewrite El in Hn. destruct (so_deleted o) eqn:Ed; [done|]. cbn [orb] in Hn.
  destruct (doomed true o) eqn:Edo.
  - apply orb_true_iff in Edo as [Hsu|Hem].
    + assert (dying s a = true) as Hd by (unfold dying; by rewrite El).
      destruct (hist_dying db base _ s a (tr_hist _ _ _ Ht) Hd) as [Hb|?]; [|done].
      by rewrite (qu_alive _ Hq a Ha) in Hb.
    + unfold stateObject_empty in Hem. cbn [andb] in Hem. destruct Hn.
      destruct (Z.eqb_spec (ac_Balance (so_data o)) 0); [done|]. by rewrite andb_false_r in Hem.
  - destruct (updateRoot_fixed db o) as (_ & _ & _ & _ & t & E). by rewrite E in Hn.
Qed.

(** ** Blocks *)

(** What happens to the state of a block: the next transaction is announced, or a
    transaction (or the rewards of the block) is executed and finished. *)
Inductive tx_step : StateDB → StateDB → Prop :=
| step_prepare thash bhash ti s : tx_step s (Prepare thash bhash ti s)
| step_execute ops s s1 s2 :
    runOps db ops s = Some s1 → typed s1 → Finalise db true s1 = Some s2 → tx_step s s2.

Lemma Prepare_quiet th bh i s :
  quiet s → quiet (Prepare th bh i s) ∧ ∀ a, live (Prepare th bh i s) a = live s a.
Proof. intros [[[W1 W2 W3 W4] ? ? ?] ? ?]. done. Qed.

(** [t'] is the tracker [t] with more accounts. *)
Definition tracks (t t' : MinerTracker StateDB) : Prop :=
  ∃ dirty, t' = t <| mt_objectsDirty := dirty |> ∧ mt_objectsDirty t ⊆ dirty.

Lemma tx_step_tracks s s' t :
  quiet s → tx_step s s' → sd_minerTracker s = Some t →
  quiet s' ∧ ∃ t', sd_minerTracker s' = Some t' ∧ tracks t t' ∧
    ∀ a, address_ok a → bal s' a ≠ bal s a → a ∈ mt_objectsDirty t'.
Proof.
  intros Hq Hs Et. revert Hq Et. destruct Hs as [th bh i s1|ops s1 s2 s3 Hr Hty HF]; intros Hq Et.
  - destruct (Prepare_quiet th bh i s1 Hq) as [Hq' L]. split; [done|]. exists t. split; [done|].
    split; [by exists (mt_objectsDirty t); destruct t|]. intros a _ Hn. destruct Hn. unfold bal. by rewrite L.
  - pose proof (runOps_tracked db s1 ops s1 s2 (fresh_tracked db _ (qu_fresh _ Hq)) Hr) as Ht.
    destruct (tr_book _ _ _ Ht) as [Etr Em].
    destruct (Finalise_runs s1 s2 Ht Hty) as (s' & E & F & H & L & T & _ & D); [rewrite Etr; apply Hq|].
    assert (s' = s3) as -> by congruence. split; [by eapply Finalise_quiet|].
    destruct (D t) as (dirty & Ed & Hd); [congruence|]. eexists. split; [done|]. split.
    + exists dirty. split; [done|]. intros a Ha. apply Hd. by left.
    + intros a Ha Hn. upd. apply Hd. right. exact (Finalise_balance s1 s2 s3 a Hq Ht (L a Ha) Ha Hn).
Qed.

Lemma block_tracks s s' t :
  rtc tx_step s s' → quiet s → sd_minerTracker s = Some t →
  quiet s' ∧ ∃ t', sd_minerTracker s' = Some t' ∧ tracks t t' ∧
    ∀ a, address_ok a → bal s' a ≠ bal s a → a ∈ mt_objectsDirty t'.
Proof.
  intros H. revert t. induction H as [s|s s1 s' Hs _ IH]; intros t Hq Et.
  - split; [done|]. exists t. split; [done|]. split; [by exists (mt_objectsDirty t); destruct t|]. done.
  - destruct (tx_step_tracks s s1 t Hq Hs Et) as (Hq1 & t1 & E1 & (d1 & -> & Hd1) & B1).
    destruct (IH _ Hq1 E1) as (Hq' & t' & E' & (d' & -> & Hd') & B'). split; [done|].
    eexists. split; [done|]. split; [exists d'; split; [by destruct t|]; by etrans|].
    intros a Ha Hn. destruct (decide (bal s' a = bal s1 a)) as [E|]; [|by apply B'].
    upd. apply Hd'. apply (B1 a Ha). congruence.
Qed.

Lemma copy_load t a : load (CopyTrie t) a = load t a.
Proof. unfold load. by rewrite copy_get. Qed.

Lemma Copy_wf s c : wf s → Copy s = Some c → wf c.
Proof.
  intros [W1 W2 W3 W4]. unfold Copy. destruct (decide _); [|done]. intros [= <-].
  split; cbn [sd_stateObjects sd_trie sd_entries sd_logSize]; [| |by intros o ?%elem_of_nil|done].
  - intros a o. rewrite lookup_fmap. intros (o' & [E _]%map_lookup_filter_Some & ->)%fmap_Some. exact (W1 a o' E).
  - intros a o. rewrite lookup_fmap. intros (o' & [E _]%map_lookup_filter_Some & ->)%fmap_Some Hd.
    rewrite copy_load. exact (W2 a o' E Hd).
Qed.

(** The copy of a state between transactions has the balances of the state. *)
Lemma Copy_balances s c a :
  quiet s → synced s → Copy s = Some c → address_ok a → bal c a = bal s a.
Proof.
  intros Hq Hy. unfold Copy. destruct (decide _) as [Hsub|]; [|done]. intros [= <-] Ha. unfold bal, live.
  cbn [sd_stateObjects sd_trie]. rewrite lookup_fmap, copy_load.
  destruct (filter _ _ !! a) as [o|] eqn:Ef; cbn.
  - apply map_lookup_filter_Some in Ef as [-> _]. by destruct (so_deleted o).
  - pose proof (Hy a Ha) as E. unfold live in E. destruct (load (sd_trie s) a) as [o'|], (sd_stateObjects s !! a) as [o|];
      cbn in *; try destruct (so_deleted o); cbn in *; congruence.
Qed.


(** C34. The miner tracker misses no change of balance.  Switched on at the start of a
    block and carried through its transactions, whatever they do (nested calls that
    revert, contracts that destroy themselves), the tracker has every account whose
    balance is then not the one of its initial state; what else it was started with
    is unchanged. *)
Theorem block_balances_tracked config height total s s0 s' :
  quiet s → synced s → EnableMinerTracker config height total s = Some s0 → rtc tx_step s0 s' →
  ∃ t, sd_minerTracker s' = Some t ∧
    mt_config t = config ∧ mt_height t = height ∧ mt_totalBalanceOfMiners t = total ∧
    ∀ a, address_ok a → a ∉ mt_objectsDirty t → (GetBalance a s').1 = (GetBalance a (mt_initialState t)).1.
Proof.
  intros Hq Hy HE Hst. unfold EnableMinerTracker in HE.
  destruct (Copy s) as [c|] eqn:Ec; [|done]. injection HE as HE.
  assert (quiet s0) as Hq0 by (subst s0; destruct Hq as [[[W1 W2 W3 W4] ? ? ?] ? ?]; done).
  destruct (block_tracks s0 s' (NewMinerTracker config c height total) Hst Hq0) as (Hq' & t & Et & (dirty & -> & _) & Hb); [by subst s0|].
  eexists. split; [done|]. split_and!; [done..|]. upd. intros a Ha Hn. cbn [mt_initialState NewMinerTracker].
  assert (bal s' a = bal c a) as E.
  { rewrite (Copy_balances s c a Hq Hy Ec Ha). assert (bal s0 a = bal s a) as <- by (by subst s0).
    destruct (decide (bal s' a = bal s0 a)); [done|]. by destruct Hn; apply Hb. }
  destruct (with_object_loads db 0 (λ o, (ac_Balance (so_data o), o)) (λ o, ac_Balance (so_data o)) a s') as [_ E1]; [apply Hq'|done|].
  destruct (with_object_loads db 0 (λ o, (ac_Balance (so_data o), o)) (λ o, ac_Balance (so_data o)) a c) as [_ E2]; [by eapply Copy_wf; [apply Hq|]|done|].
  unfold GetBalance. by rewrite E1, E2.
Qed.
End transactions.

(** ** A transaction and a block on an empty state *)

Import Toy ToyState.

Module BlockExample.
Import StateDBRevert.Example.

Definition account_okb (a : Account) : bool :=
  (0 <=? ac_Nonce a) && (ac_Nonce a <? 2 ^ 64) && (0 <=? ac_Balance a) &&
  (0 <=? ac_Root a) && (ac_Root a <? 2 ^ 256) && (0 <=? ac_CodeHash a) && (ac_CodeHash a <? 2 ^ 256).

Definition typedb (s : StateDB) : bool :=
  forallb (λ kv, (0 <=? kv.1) && (kv.1 <? 2 ^ 160) && account_okb (so_data kv.2)) (map_to_list (sd_stateObjects s)).

Definition no_reset (s : StateDB) : bool :=
  forallb (λ e, match e with resetObjectChange _ => false | _ => true end) (sd_entries s).

Lemma typedb_typed s : typedb s = true → typed s.
Proof.
  unfold typedb, typed. rewrite forallb_forall. intros H a o Ho.
  assert (List.In (a, o) (map_to_list (sd_stateObjects s))) as Hin by (by apply list_elem_of_In, elem_of_map_to_list).
  specialize (H _ Hin). unfold account_okb in H. cbn in H. rewrite !andb_true_iff, !Z.leb_le, !Z.ltb_lt in H.
  unfold address_ok. split; [lia|]. unfold is_u64. split; unfold is_u64, hash_ok; lia.
Qed.

Lemma no_reset_dirty s : no_reset s = true →
  ∀ o, resetObjectChange o ∈ sd_entries s → so_address o ∈ dom (sd_dirties s).
Proof. unfold no_reset. rewrite forallb_forall. intros H o Ho%list_elem_of_In. by specialize (H _ Ho). Qed.

Lemma blank_load a : load (sd_trie blank) a = None.
Proof. reflexivity. Qed.

Lemma blank_live a : live blank a = None.
Proof. unfold live. by rewrite blank_objects, blank_load. Qed.

Lemma blank_quiet : quiet blank.
Proof.
  split; [exact blank_fresh| |].
  - exact (TrieFacts.complete_empty _).
  - intros a _. unfold dying. by rewrite blank_live.
Qed.

Lemma blank_synced : synced blank.
Proof. intros a _. by rewrite blank_load, blank_live. Qed.

(** Two accounts are funded; one of the two calls is reverted. *)
Definition tx : list op := before ++ opSnapshot :: after.

Definition config : AlgorandConfig := mkAlgorandConfig 1000 100 10.
Definition tracking : StateDB :=
  default blank (EnableMinerTracker config 1 1000 blank).
Definition ran (s : StateDB) : StateDB := default blank (runOps db tx s).
Definition finished (s : StateDB) : StateDB := default blank (Finalise db true (ran s)).

Lemma blank_runs : runOps db tx blank = Some (ran blank).
Proof. apply default_ran. vm_compute. reflexivity. Qed.

Lemma tracking_on : EnableMinerTracker config 1 1000 blank = Some tracking.
Proof. apply default_ran. vm_compute. reflexivity. Qed.

Lemma tracking_runs : tx_step db tracking (finished tracking).
Proof.
  apply step_execute with tx (ran tracking).
  - apply default_ran. vm_compute. reflexivity.
  - apply typedb_typed. vm_compute. reflexivity.
  - apply default_ran. vm_compute. reflexivity.
Qed.
End BlockExample.


Lemma block_balances_tracked_witness :
  ∃ t, sd_minerTracker (BlockExample.finished BlockExample.tracking) = Some t ∧
    mt_config t = BlockExample.config ∧ mt_height t = 1 ∧ mt_totalBalanceOfMiners t = 1000 ∧
    ∀ a, address_ok a → a ∉ mt_objectsDirty t →
      (GetBalance a (BlockExample.finished BlockExample.tracking)).1 = (GetBalance a (mt_initialState t)).1.
Proof.
  apply (block_balances_tracked db BlockExample.config 1 1000 blank BlockExample.tracking
    (BlockExample.finished BlockExample.tracking)
    BlockExample.blank_quiet BlockExample.blank_synced BlockExample.tracking_on).
  apply rtc_once. exact BlockExample.tracking_runs.
Defined.
