(* ===== verification/StateDBView.v ===== *)
(** * StateDBView: what the operations of a state show

    The account a state shows at an address, an absent one being empty, and how each
    operation of the virtual machine changes it.  Caches do not show: equality of
    accounts is [oeq]. *)

From S2P Require Import Prelude Bytes Params Crypto MinerContract StateDB StateDBFacts StateDBRevert.

Local Open Scope Z_scope.

Section view.
Context `{CR : Crypto} `{SD : StateDatabase} (db : Database).

Definition account (s : StateDB) (a : Address) : stateObject := default (newObject a zeroAccount) (live s a).

Definition code_at (s : StateDB) (a : Address) : bytes := default [] (code_of db (account s a)).
Definition slot_at (s : StateDB) (a : Address) (k : Hash) : Hash := slot db (account s a) k.

Lemma bal_account s a : bal s a = ac_Balance (so_data (account s a)).
Proof. unfold bal, account. by destruct (live s a). Qed.

Lemma account_address s a : wf s → so_address (account s a) = a ∧ so_deleted (account s a) = false.
Proof.
  intros Hw. unfold account. destruct (live s a) as [o|] eqn:E; [|done]. by apply (live_address _ _ _ Hw E).
Qed.

Lemma sim_account s s' a : sim db s s' → oeq db (account s a) (account s' a).
Proof.
  intros H. pose proof (si_live _ _ _ H a) as Hl. unfold account. destruct (live s a), (live s' a); cbn in *; try done.
Qed.

(** What an operation makes of the account at [a]; not for [Suicide], which spares an
    absent account, and for a revert. *)
Definition acts (o : op) (a : Address) (x : stateObject) : stateObject :=
  match o with
  | opCreateAccount b =>
      if decide (a = b) then setBalance (ac_Balance (so_data x)) (newObject b zeroAccount) else x
  | opSubBalance b v => if decide (a = b) then setBalance (ac_Balance (so_data x) - v) x else x
  | opAddBalance b v => if decide (a = b) then setBalance (ac_Balance (so_data x) + v) x else x
  | opSetNonce b n => if decide (a = b) then setNonce n x else x
  | opSetCode b c => if decide (a = b) then setCode (keccak256 c) (Some c) x else x
  | opSetState b k v => if decide (a = b) then setState k v x else x
  | _ => x
  end.

Lemma append_account e s a : account (journal_append e s) a = account s a.
Proof. destruct (append_keeps e s) as (E1 & E2 & _). unfold account, live. by rewrite E1, E2. Qed.

Lemma set_account o s a : so_deleted o = false →
  account (setStateObject o s) a = if decide (a = so_address o) then o else account s a.
Proof. intros Hd. unfold account. rewrite live_set, Hd. by destruct (decide _). Qed.

Lemma GetOrNew_view addr s :
  wf s → let r := GetOrNewStateObject addr s in
  wf r.2 ∧ r.1 = account s addr ∧ (∀ b, oeq db (account r.2 b) (account s b)).
Proof.
  intros Hw. destruct (GetOrNewStateObject_does db addr s Hw) as ((W & _) & _). cbn zeta. split; [done|].
  unfold GetOrNewStateObject. destruct (getStateObject_loads db addr s Hw) as (H1 & H2 & H3 & _).
  destruct (getStateObject addr s) as [prev s1]. cbn [fst snd] in *. subst prev.
  assert (∀ b, oeq db (account s1 b) (account s b)) as H4 by (intros b; symmetry; apply sim_account, H1).
  destruct (live s addr) as [o|] eqn:El.
  { destruct (live_address _ _ _ Hw El) as [_ Ed]. rewrite Ed. unfold account at 1. by rewrite El. }
  destruct (createObject_does db addr s1 (ld_wf _ _ _ H1)) as (E1 & E2 & s2 & H5 & E5 & L5). cbn zeta in *.
  destruct (createObject addr s1) as [[new prev] s3]. cbn [fst snd] in *. subst new prev s3.
  split; [unfold account; by rewrite El|]. intros b. rewrite set_account, append_account by done. cbn [so_address newObject].
  destruct (decide (b = addr)) as [->|]; [|etrans; [symmetry; apply sim_account, H5|apply H4]].
  unfold account. by rewrite El.
Qed.

(** A writer of a live object. *)
Lemma on_account_view addr s (f : stateObject → StateDB → StateDB) (g : stateObject → stateObject) :
  wf s → (∀ o o', oeq db o o' → oeq db (g o) (g o')) →
  (∀ o s, so_deleted o = false → oeq db o (account s (so_address o)) →
     ∀ a, oeq db (account (f o s) a) (if decide (a = so_address o) then g o else account s a)) →
  ∀ a, oeq db (account (let '(o, s) := GetOrNewStateObject addr s in f o s) a)
              (if decide (a = addr) then g (account s a) else account s a).
Proof.
  intros Hw Hg Hf a. destruct (GetOrNew_view addr s Hw) as (W1 & E1 & V1). destruct (account_address s addr Hw) as [Ea Ed].
  destruct (GetOrNewStateObject addr s) as [o s1]. cbn [fst snd] in *. subst o.
  etrans; [apply Hf; [done|rewrite Ea; symmetry; apply V1]|]. rewrite Ea.
  destruct (decide (a = addr)) as [->|]; [reflexivity|apply V1].
Qed.

(** Reading shows the same. *)
Lemma loads_account s s' a : loads db s s' → oeq db (account s' a) (account s a).
Proof. intros H. symmetry. apply sim_account, H. Qed.

Lemma reads_view {A : Type} (none : A) f (v : stateObject → A) addr s a :
  wf s → (∀ o, (f o).1 = v o ∧ oeq db o (f o).2) → oeq db (account (with_object none f addr s).2 a) (account s a).
Proof. intros Hw Hf. apply loads_account. by apply (with_object_loads db none f v). Qed.

Lemma setBalance_same o : oeq db (setBalance (ac_Balance (so_data o)) o) o.
Proof. split; try done. by destruct o as [? [? ? ? ?] ? ? ? ? ? ? ? ?]. Qed.

Lemma setState_same k o : oeq db (setState k (slot db o k) o) o.
Proof.
  split; try done. intros j. unfold slot at 1, setState. upd. destruct (decide (j = k)) as [->|].
  - by rewrite lookup_insert_eq.
  - by rewrite lookup_insert_ne.
Qed.

Lemma CreateAccount_view addr s a : wf s →
  oeq db (account (CreateAccount addr s) a)
    (if decide (a = addr) then setBalance (ac_Balance (so_data (account s a))) (newObject addr zeroAccount) else account s a).
Proof.
  intros Hw. unfold CreateAccount.
  destruct (createObject_does db addr s Hw) as (E1 & E2 & s2 & H5 & E5 & L5). cbn zeta in *.
  destruct (createObject addr s) as [[new prev] s3]. cbn [fst snd] in *. subst new prev s3.
  assert (∀ o, so_address o = addr → so_deleted o = false →
    account (setStateObject o (journal_append (match live s addr with
      | Some p => resetObjectChange p | None => createObjectChange addr end) s2)) a
    = if decide (a = addr) then o else account s2 a) as H.
  { intros o Eo Ed. by rewrite set_account, append_account, Eo. }
  destruct (live s addr) as [p|] eqn:El.
  - rewrite setStateObject_twice by done. rewrite H by done.
    destruct (decide (a = addr)) as [->|]; [|by apply loads_account]. unfold account. by rewrite El.
  - rewrite H by done. destruct (decide (a = addr)) as [->|]; [|by apply loads_account]. unfold account. by rewrite El.
Qed.

Lemma SetBalance_view v o s a :
  so_deleted o = false →
  account (stateObject_SetBalance v o s) a = if decide (a = so_address o) then setBalance v o else account s a.
Proof. intros Hd. unfold stateObject_SetBalance. by rewrite set_account, append_account. Qed.

Lemma touch_view o s a : account (touch o s) a = account s a.
Proof. unfold touch. destruct (_ =? _); unfold journal_dirty, account, live; upd; apply append_account. Qed.

(** Nothing changes. *)
Lemma idle_view o s (g : stateObject → stateObject) :
  oeq db o (account s (so_address o)) → oeq db (g o) o →
  ∀ a, oeq db (account s a) (if decide (a = so_address o) then g o else account s a).
Proof. intros Ho Hg a. destruct (decide _) as [->|]; [|done]. etrans; [symmetry; exact Ho|by symmetry]. Qed.

Lemma AddBalance_view b v s a : wf s →
  oeq db (account (AddBalance b v s) a) (acts (opAddBalance b v) a (account s a)).
Proof.
  intros Hw. apply (on_account_view b s (stateObject_AddBalance v) (λ x, setBalance (ac_Balance (so_data x) + v) x)); [done| |].
  - intros o o' H. rewrite (oe_data _ _ _ H). by apply setBalance_oeq.
  - intros o s1 Hd Ho a'. unfold stateObject_AddBalance. destruct (Z.eqb_spec v 0) as [->|].
    + rewrite Z.add_0_r. assert (account (if stateObject_empty o then touch o s1 else s1) a' = account s1 a') as ->.
      { destruct (stateObject_empty o); [apply touch_view|done]. }
      by apply (idle_view o s1 (setBalance (ac_Balance (so_data o)))); [|apply setBalance_same].
    + by rewrite SetBalance_view.
Qed.

Lemma SubBalance_view b v s a : wf s →
  oeq db (account (SubBalance b v s) a) (acts (opSubBalance b v) a (account s a)).
Proof.
  intros Hw. apply (on_account_view b s (stateObject_SubBalance v) (λ x, setBalance (ac_Balance (so_data x) - v) x)); [done| |].
  - intros o o' H. rewrite (oe_data _ _ _ H). by apply setBalance_oeq.
  - intros o s1 Hd Ho a'. unfold stateObject_SubBalance. destruct (Z.eqb_spec v 0) as [->|].
    + rewrite Z.sub_0_r. by apply (idle_view o s1 (setBalance (ac_Balance (so_data o)))); [|apply setBalance_same].
    + by rewrite SetBalance_view.
Qed.

Lemma SetNonce_view b n s a : wf s →
  oeq db (account (SetNonce b n s) a) (acts (opSetNonce b n) a (account s a)).
Proof.
  intros Hw. apply (on_account_view b s (stateObject_SetNonce n) (setNonce n)); [done|by intros; apply setNonce_oeq|].
  intros o s1 Hd Ho a'. unfold stateObject_SetNonce. by rewrite set_account, append_account.
Qed.

Lemma SetCode_view b c s a : wf s →
  oeq db (account (SetCode db b c s) a) (acts (opSetCode b c) a (account s a)).
Proof.
  intros Hw. apply (on_account_view b s (stateObject_SetCode db (keccak256 c) c) (setCode (keccak256 c) (Some c))); [done|by intros; apply setCode_oeq|].
  intros o s1 Hd Ho a'. unfold stateObject_SetCode. destruct (Code_oeq db o) as [_ H].
  destruct (stateObject_Code db o) as [prev o1]. cbn [fst snd] in *.
  assert (so_deleted o1 = false) as Hd1 by (by rewrite <- (oe_deleted _ _ _ H)).
  rewrite set_account, append_account by done. change (so_address (setCode _ _ o1)) with (so_address o1).
  rewrite <- (oe_address _ _ _ H). destruct (decide _); [|done]. symmetry. by apply setCode_oeq.
Qed.

Lemma SetState_view b k v s a : wf s →
  oeq db (account (SetState db b k v s) a) (acts (opSetState b k v) a (account s a)).
Proof.
  intros Hw. apply (on_account_view b s (stateObject_SetState db k v) (setState k v)); [done|by intros; apply setState_oeq|].
  intros o s1 Hd Ho a'. unfold stateObject_SetState. destruct (GetState_oeq db o k) as [E H].
  destruct (stateObject_GetState db o k) as [prev o1]. cbn [fst snd] in *. subst prev.
  assert (so_deleted o1 = false) as Hd1 by (by rewrite <- (oe_deleted _ _ _ H)).
  destruct (Z.eqb_spec (slot db o k) v) as [<-|].
  - rewrite set_account, <- (oe_address _ _ _ H) by done. destruct (decide _); [|done].
    etrans; [symmetry; exact H|symmetry; apply setState_same].
  - rewrite set_account, append_account by done. change (so_address (setState k v o1)) with (so_address o1).
    rewrite <- (oe_address _ _ _ H). destruct (decide _); [|done]. symmetry. by apply setState_oeq.
Qed.

(** The accounts do not depend on the rest of a state. *)
Lemma rest_view s s' a : sd_stateObjects s' = sd_stateObjects s → sd_trie s' = sd_trie s → account s' a = account s a.
Proof. intros E1 E2. unfold account, live. by rewrite E1, E2. Qed.

Lemma Suicide_view b s a : wf s →
  oeq db (account (Suicide b s).2 a)
    (if decide (a = b ∧ is_Some (live s b)) then setBalance 0 ((account s a) <| so_suicided := true |>) else account s a).
Proof.
  intros Hw. unfold Suicide. destruct (getStateObject_loads db b s Hw) as (H1 & H2 & _).
  destruct (getStateObject b s) as [prev s1]. cbn [fst snd] in *. subst prev.
  destruct (live s b) as [o|] eqn:El; cbn [snd].
  - destruct (live_address _ _ _ Hw El) as [Ea Ed]. rewrite set_account, append_account by done.
    change (so_address (setBalance 0 _)) with (so_address o). rewrite Ea. destruct (decide (a = b)) as [->|].
    + rewrite decide_True by (split; [done|by eexists]). unfold account. by rewrite El.
    + rewrite decide_False by (by intros []). by apply loads_account.
  - rewrite decide_False by (intros [_ []]; done). by apply loads_account.
Qed.

Lemma runOp_view o s s' a :
  wf s → runOp db o s = Some s' →
  match o with
  | StateDBRevert.opSuicide _ | opRevertToSnapshot _ => True
  | _ => oeq db (account s' a) (acts o a (account s a))
  end.
Proof.
  intros Hw. destruct o; cbn [runOp]; try done; try (intros [= <-]).
  - by apply CreateAccount_view.
  - by apply SubBalance_view.
  - by apply AddBalance_view.
  - by apply (reads_view _ _ (λ o, ac_Balance (so_data o))).
  - by apply (reads_view _ _ (λ o, ac_Nonce (so_data o))).
  - by apply SetNonce_view.
  - by apply (reads_view _ _ (λ o, negb (ac_CodeHash (so_data o) =? emptyCodeHash))).
  - by apply (reads_view _ _ (λ o, ac_CodeHash (so_data o))).
  - apply (reads_view _ _ (code_of db)); [done|]. apply Code_oeq.
  - by apply SetCode_view.
  - apply loads_account. unfold GetCodeSize. destruct (getStateObject_loads db addr s Hw) as (H1 & _).
    destruct (getStateObject addr s) as [[o|] s1]; cbn [fst snd] in *; [|done]. destruct (so_code o); [done|].
    destruct (ContractCodeSize _ _ _) as [size [err|]]; [|done]. eapply loads_trans; [exact H1|]. apply setError_loads, H1.
  - by rewrite (rest_view s (AddRefund gas s)).
  - unfold SubRefund. cbn zeta. destruct (_ <? gas); [done|]. intros [= <-]. by rewrite (rest_view s).
  - done.
  - apply (reads_view _ _ (λ o, committed_slot db o key)); [done|]. intros o. apply GetCommittedState_oeq.
  - apply (reads_view _ _ (λ o, slot db o key)); [done|]. intros o. apply GetState_oeq.
  - by apply SetState_view.
  - by apply (reads_view _ _ so_suicided).
  - unfold Exist. destruct (getStateObject_loads db addr s Hw) as (H1 & _). destruct (getStateObject addr s). by apply loads_account.
  - unfold Empty. destruct (getStateObject_loads db addr s Hw) as (H1 & _). destruct (getStateObject addr s). by apply loads_account.
  - by rewrite (rest_view s).
  - by rewrite (rest_view s).
  - unfold AddPreimage. by destruct (_ !! _).
Qed.
End view.
