(* ===== verification/EvmWord.v ===== *)
(** * EvmWord: the arithmetic of the virtual machine

    The arithmetic instructions of src/core/vm/instructions.go and the helpers of
    src/common/math, on arbitrary-precision integers masked to 256 bits.  An instruction
    is the function from the operands it takes off the stack to the word it leaves;
    the pool that recycles the integers is not modelled: integers are values. *)

From S2P Require Import Prelude Bytes.

Local Open Scope Z_scope.

(** ** math/big *)

Definition BitLen (x : Z) : Z := if x =? 0 then 0 else Z.log2 (Z.abs x) + 1.

(** [Uint64] of an integer that is not negative, and [Int64]. *)
Definition Big_Uint64 (x : Z) : Z := u64 x.
Definition Big_Int64 (x : Z) : Z := if u64 x <? 2 ^ 63 then u64 x else u64 x - 2 ^ 64.

Definition wordBits : nat := 64.
Definition wordBytes : nat := 8.

(** [Bits]: the 64-bit words of an integer, the lowest first, without leading zeros. *)
Fixpoint low_words (n : nat) (x : Z) : list Z :=
  match n with
  | O => []
  | S n => x `mod` 2 ^ 64 :: low_words n (Z.shiftr x 64)
  end.
Definition Big_Bits (x : Z) : list Z := low_words (Z.to_nat ((BitLen x + 63) `div` 64)) x.

(** ** src/common/math/big.go *)

Definition tt255 : Z := 2 ^ 255.
Definition tt256 : Z := 2 ^ 256.
Definition tt256m1 : Z := tt256 - 1.

Definition U256 (x : Z) : Z := Z.land x tt256m1.
Definition S256 (x : Z) : Z := if x <? tt255 then x else x - tt256.

(** The inner loop of [Exp], on one word. *)
Fixpoint expWord (n : nat) (word : Z) (rb : Z * Z) : Z * Z :=
  match n with
  | O => rb
  | S n =>
      let '(result, base) := rb in
      let result := if Z.land word 1 =? 1 then U256 (result * base) else result in
      expWord n (Z.shiftr word 1) (result, U256 (base * base))
  end.
Definition Exp (base exponent : Z) : Z :=
  (foldl (λ rb word, expWord wordBits word rb) (1, base) (Big_Bits exponent)).1.

Definition bigEndianByteAt (bigint : Z) (n : nat) : Z :=
  match Big_Bits bigint !! (n `div` wordBytes)%nat with
  | None => 0
  | Some word => Z.land (Z.shiftr word (8 * Z.of_nat (n `mod` wordBytes)%nat)) 255
  end.
Definition Byte (bigint : Z) (padlength n : nat) : Z :=
  if (padlength <=? n)%nat then 0 else bigEndianByteAt bigint (padlength - 1 - n).

(** The loops of [ReadBits]: [i] bytes of the buffer are still to be written, [acc] are. *)
Fixpoint readWord (j : nat) (d : Z) (ia : nat * bytes) : nat * bytes :=
  match j, ia with
  | S j, (S i, acc) => readWord j (Z.shiftr d 8) (i, Z.land d 255 :: acc)
  | _, _ => ia
  end.
Definition ReadBits (bigint : Z) (buf : bytes) : bytes :=
  let '(i, acc) := foldl (λ ia d, readWord wordBytes d ia) (length buf, []) (Big_Bits bigint) in
  take i buf ++ acc.

(** ** src/common/math/integer.go *)

Definition SafeAdd (x y : Z) : Z * bool := (add64 x y, 2 ^ 64 - 1 - x <? y).
Definition SafeMul (x y : Z) : Z * bool :=
  if (x =? 0) || (y =? 0) then (0, false) else (mul64 x y, (2 ^ 64 - 1) `div` x <? y).

(** ** Arithmetic and bitwise instructions *)

Definition opAdd (x y : Z) : Z := U256 (x + y).
Definition opSub (x y : Z) : Z := U256 (x - y).
Definition opMul (x y : Z) : Z := U256 (x * y).
Definition opDiv (x y : Z) : Z := if y =? 0 then 0 else U256 (x `div` y).
Definition opSdiv (x y : Z) : Z :=
  let x := S256 x in
  let y := S256 y in
  if (Z.sgn y =? 0) || (Z.sgn x =? 0) then 0
  else if Z.sgn x =? Z.sgn y then U256 (Z.abs x `div` Z.abs y)
  else U256 (- (Z.abs x `div` Z.abs y)).
Definition opMod (x y : Z) : Z := if y =? 0 then 0 else U256 (x `mod` y).
Definition opSmod (x y : Z) : Z :=
  let x := S256 x in
  let y := S256 y in
  if Z.sgn y =? 0 then 0
  else if Z.sgn x <? 0 then U256 (- (Z.abs x `mod` Z.abs y))
  else U256 (Z.abs x `mod` Z.abs y).
Definition opExp (base exponent : Z) : Z :=
  if exponent <? 1 then 1
  else if base =? 0 then 0
  else if exponent =? 1 then base
  else Exp base exponent.
Definition opSignExtend (back num : Z) : Z :=
  if back <? 31 then
    let bit := Big_Uint64 back * 8 + 7 in
    let mask := Z.shiftl 1 bit - 1 in
    U256 (if Z.testbit num bit then Z.lor num (Z.lnot mask) else Z.land num mask)
  else num.
Definition opNot (x : Z) : Z := U256 (Z.lnot x).
Definition opLt (x y : Z) : Z := if x <? y then 1 else 0.
Definition opGt (x y : Z) : Z := if y <? x then 1 else 0.
Definition opSlt (x y : Z) : Z :=
  if (tt255 <=? x) && (y <? tt255) then 1
  else if (x <? tt255) && (tt255 <=? y) then 0
  else if x <? y then 1 else 0.
Definition opSgt (x y : Z) : Z :=
  if (tt255 <=? x) && (y <? tt255) then 0
  else if (x <? tt255) && (tt255 <=? y) then 1
  else if y <? x then 1 else 0.
Definition opEq (x y : Z) : Z := if x =? y then 1 else 0.
Definition opIszero (x : Z) : Z := if 0 <? x then 0 else 1.
Definition opAnd (x y : Z) : Z := Z.land x y.
Definition opOr (x y : Z) : Z := Z.lor x y.
Definition opXor (x y : Z) : Z := Z.lxor x y.
Definition opByte (th val : Z) : Z :=
  if th <? 32 then Byte val 32 (Z.to_nat (Big_Int64 th)) else 0.
Definition opAddmod (x y z : Z) : Z := if 0 <? z then U256 ((x + y) `mod` z) else 0.
Definition opMulmod (x y z : Z) : Z := if 0 <? z then U256 ((x * y) `mod` z) else 0.
Definition opSHL (shift value : Z) : Z :=
  let shift := U256 shift in
  let value := U256 value in
  if 256 <=? shift then 0 else U256 (Z.shiftl value (Big_Uint64 shift)).
Definition opSHR (shift value : Z) : Z :=
  let shift := U256 shift in
  let value := U256 value in
  if 256 <=? shift then 0 else U256 (Z.shiftr value (Big_Uint64 shift)).
Definition opSAR (shift value : Z) : Z :=
  let shift := U256 shift in
  let value := S256 value in
  if 256 <=? shift then U256 (if 0 <=? Z.sgn value then 0 else -1)
  else U256 (Z.shiftr value (Big_Uint64 shift)).

(** ** Facts *)

Definition word_ok (x : Z) : Prop := 0 ≤ x < 2 ^ 256.

(** The value of a word as a two's complement number. *)
Definition signed (x : Z) : Z := (x + 2 ^ 255) `mod` 2 ^ 256 - 2 ^ 255.
Definition wrap (x : Z) : Z := x `mod` 2 ^ 256.
Definition truth (P : Prop) `{Decision P} : Z := if decide P then 1 else 0.

Lemma U256_wrap x : U256 x = wrap x.
Proof. unfold U256, wrap. change tt256m1 with (Z.ones 256). by rewrite Z.land_ones. Qed.

Lemma wrap_ok x : word_ok (wrap x).
Proof. by apply Z.mod_pos_bound. Qed.

Lemma wrap_id x : word_ok x → wrap x = x.
Proof. intros H. by apply Z.mod_small. Qed.

Lemma S256_signed x : word_ok x → S256 x = signed x.
Proof.
  unfold word_ok, S256, signed. change tt255 with (2 ^ 255). change tt256 with (2 ^ 256). intros H.
  destruct (Z.ltb_spec x (2 ^ 255)).
  - rewrite Z.mod_small by lia. lia.
  - replace (x + 2 ^ 255) with (x - 2 ^ 255 + 1 * 2 ^ 256) by lia. rewrite Z.mod_add, Z.mod_small by lia. lia.
Qed.

Lemma signed_range x : - 2 ^ 255 ≤ signed x < 2 ^ 255.
Proof. unfold signed. pose proof (Z.mod_pos_bound (x + 2 ^ 255) (2 ^ 256)). lia. Qed.

Lemma BitLen_bound x : 0 ≤ x → 0 ≤ BitLen x ∧ x < 2 ^ BitLen x.
Proof.
  intros Hx. unfold BitLen. case_cmp; [by split; [|subst]|]. rewrite Z.abs_eq by lia.
  pose proof (Z.log2_nonneg x). split; [lia|]. apply Z.log2_spec. lia.
Qed.

Lemma BitLen_lt x n : 0 ≤ x → 0 ≤ n → (BitLen x ≤ n ↔ x < 2 ^ n).
Proof.
  intros Hx Hn. unfold BitLen. case_cmp.
  - subst. split; [|done]. intros _. by apply Z.pow_pos_nonneg.
  - rewrite Z.abs_eq by lia. rewrite (Z.log2_lt_pow2 x n) by lia. lia.
Qed.

(** The number of words of [Bits] is enough. *)
Lemma Big_Bits_words x : 0 ≤ x → ∃ k, Big_Bits x = low_words k x ∧ x < 2 ^ (64 * Z.of_nat k).
Proof.
  intros Hx. destruct (BitLen_bound x Hx) as [Hb Hlt]. eexists. split; [reflexivity|].
  rewrite Z2Nat.id by (apply Z.div_pos; lia). eapply Z.lt_le_trans; [exact Hlt|].
  apply Z.pow_le_mono_r; [lia|]. Z.to_euclidean_division_equations; lia.
Qed.

Lemma shiftr_words x k : 0 ≤ x < 2 ^ (64 * Z.of_nat (S k)) → 0 ≤ Z.shiftr x 64 < 2 ^ (64 * Z.of_nat k).
Proof.
  intros H. rewrite Z.shiftr_div_pow2 by lia. split; [apply Z.div_pos; lia|].
  apply Z.div_lt_upper_bound; [lia|]. rewrite <- Z.pow_add_r by lia.
  replace (64 + 64 * Z.of_nat k) with (64 * Z.of_nat (S k)) by lia. lia.
Qed.

Lemma low_words_lookup k x i : 0 ≤ x →
  low_words k x !! i = if (i <? k)%nat then Some ((x `div` 2 ^ (64 * Z.of_nat i)) `mod` 2 ^ 64) else None.
Proof.
  revert x i. induction k as [|k IH]; intros x i Hx; [done|]. destruct i as [|i]; cbn [low_words lookup list_lookup].
  - by rewrite Z.div_1_r.
  - rewrite IH by (rewrite Z.shiftr_div_pow2 by lia; apply Z.div_pos; lia).
    rewrite Z.shiftr_div_pow2, Z.div_div by lia. rewrite <- Z.pow_add_r by lia.
    replace (64 + 64 * Z.of_nat i) with (64 * Z.of_nat (S i)) by lia. done.
Qed.

(** *** Exponentiation *)

Record same_word (x y : Z) : Prop := SameWord { same_wrap : wrap x = wrap y }.

#[global] Instance same_word_equiv : Equivalence same_word.
Proof.
  split; [done|by intros x y [E]; split|]. intros x y z [E] [E']. split. congruence.
Qed.

#[global] Instance mul_same_word : Proper (same_word ==> same_word ==> same_word) Z.mul.
Proof.
  intros x x' [Hx] y y' [Hy]. split. unfold wrap in *.
  by rewrite Z.mul_mod, Hx, Hy, <- Z.mul_mod by done.
Qed.

Lemma same_word_U256 x : same_word (U256 x) x.
Proof. split. rewrite U256_wrap. unfold wrap. by rewrite Z.mod_mod. Qed.

#[global] Instance pow_same_word : Proper (same_word ==> eq ==> same_word) Z.pow.
Proof.
  intros x y H n _ <-. destruct (Z.neg_nonneg_cases n) as [Hn|Hn]; [by rewrite !Z.pow_neg_r|].
  revert n Hn. apply natlike_ind; [done|]. intros n Hn IH. rewrite !Z.pow_succ_r by done. by rewrite IH, H.
Qed.

Lemma expWord_spec n w r b : 0 ≤ w →
  same_word (expWord n w (r, b)).1 (r * b ^ (w `mod` 2 ^ Z.of_nat n)) ∧
  same_word (expWord n w (r, b)).2 (b ^ (2 ^ Z.of_nat n)).
Proof.
  revert w r b. induction n as [|n IH]; intros w r b Hw.
  { change (2 ^ Z.of_nat 0) with 1. rewrite Z.mod_1_r, Z.pow_0_r, Z.mul_1_r, Z.pow_1_r. done. }
  cbn [expWord]. rewrite Z.shiftr_div_pow2 by lia. change (2 ^ 1) with 2.
  edestruct (IH (w `div` 2)) as [E1 E2]; [by apply Z.div_pos|]. rewrite E1, E2.
  assert (w `mod` 2 ^ Z.of_nat (S n) = 2 * ((w `div` 2) `mod` 2 ^ Z.of_nat n) + w `mod` 2) as ->.
  { rewrite Nat2Z.inj_succ, Z.pow_succ_r by lia. rewrite Z.rem_mul_r by lia. lia. }
  assert (0 ≤ (w `div` 2) `mod` 2 ^ Z.of_nat n) as Hm by (apply Z.mod_pos_bound; lia).
  rewrite Nat2Z.inj_succ, !Z.pow_succ_r, !(Z.pow_mul_r _ 2), Z.pow_2_r by lia.
  rewrite !(same_word_U256 (b * b)). split; [|done].
  rewrite Z.pow_add_r, Z.pow_mul_r, Z.pow_2_r by (lia || (apply Z.mod_pos_bound; lia)).
  change 1 with (Z.ones 1) at 1. rewrite Z.land_ones by lia. change (2 ^ 1) with 2.
  destruct (Z.eqb_spec (w `mod` 2) 1) as [->|Hn].
  - rewrite same_word_U256, Z.pow_1_r. by rewrite <- Z.mul_assoc, (Z.mul_comm b).
  - pose proof (Z.mod_pos_bound w 2). replace (w `mod` 2) with 0 by lia. by rewrite Z.pow_0_r, Z.mul_1_r.
Qed.

Lemma expWords_spec k x r b : 0 ≤ x < 2 ^ (64 * Z.of_nat k) →
  same_word (foldl (λ rb word, expWord wordBits word rb) (r, b) (low_words k x)).1 (r * b ^ x).
Proof.
  revert x r b. induction k as [|k IH]; intros x r b Hx.
  { cbn in *. replace x with 0 by lia. by rewrite Z.pow_0_r, Z.mul_1_r. }
  cbn [low_words foldl]. pose proof (shiftr_words x k Hx) as Hs.
  rewrite Z.shiftr_div_pow2 in Hs |- * by lia. pose proof (Z.mod_pos_bound x (2 ^ 64) eq_refl) as Hm.
  destruct (expWord_spec wordBits (x `mod` 2 ^ 64) r b) as [E1 E2]; [lia|].
  destruct (expWord _ _ _) as [r' b']. cbn [fst snd] in E1, E2. rewrite (IH _ _ _ Hs), E1, E2.
  clear E1 E2. change (Z.of_nat wordBits) with 64. rewrite Z.mod_mod by done.
  generalize dependent (2 ^ 64). intros W Hs Hm.
  rewrite <- Z.pow_mul_r by lia. rewrite <- Z.mul_assoc, <- Z.pow_add_r by nia.
  rewrite Z.add_comm, <- Z.div_mod by lia. done.
Qed.

Lemma expWord_ok n w r b : word_ok r → word_ok (expWord n w (r, b)).1.
Proof.
  revert w r b. induction n as [|n IH]; intros w r b Hr; [done|]. cbn [expWord]. apply IH.
  destruct (Z.land w 1 =? 1); [rewrite U256_wrap; apply wrap_ok|done].
Qed.

Lemma expWords_ok l rb : word_ok rb.1 → word_ok (foldl (λ rb word, expWord wordBits word rb) rb l).1.
Proof.
  revert rb. induction l as [|w l IH]; intros [r b] Hr; [done|]. cbn [foldl]. by apply IH, expWord_ok.
Qed.

Lemma Exp_spec b e : 0 ≤ e → Exp b e = wrap (b ^ e).
Proof.
  intros He. destruct (Big_Bits_words e He) as (k & Ek & Hk). unfold Exp. rewrite Ek.
  destruct (expWords_spec k e 1 b) as [E]; [lia|]. rewrite Z.mul_1_l in E. rewrite <- E. symmetry.
  by apply wrap_id, expWords_ok.
Qed.

(** *** Bytes *)

Lemma mod_div_mod x a b c :
  0 ≤ b → 0 ≤ c → b + c ≤ a → ((x `mod` 2 ^ a) `div` 2 ^ b) `mod` 2 ^ c = (x `div` 2 ^ b) `mod` 2 ^ c.
Proof.
  intros. apply Z.bits_inj'. intros n Hn. rewrite !Z.testbit_mod_pow2 by lia.
  destruct (Z.ltb_spec n c); [|done]. cbn. rewrite !Z.div_pow2_bits by lia. rewrite Z.testbit_mod_pow2 by lia.
  rewrite (proj2 (Z.ltb_lt _ _)) by lia. done.
Qed.

Lemma bigEndianByteAt_spec x n : 0 ≤ x → bigEndianByteAt x n = (x `div` 256 ^ Z.of_nat n) `mod` 256.
Proof.
  intros Hx. unfold bigEndianByteAt. destruct (Big_Bits_words x Hx) as (k & -> & Hk).
  rewrite low_words_lookup by done. change 256 with (2 ^ 8). rewrite <- Z.pow_mul_r by lia.
  pose proof (Nat.div_mod_eq n wordBytes) as Hn. pose proof (Nat.mod_upper_bound n wordBytes ltac:(done)) as Hj.
  set (i := (n `div` wordBytes)%nat) in *. set (j := (n `mod` wordBytes)%nat) in *. unfold wordBytes in *.
  destruct (Nat.ltb_spec i k) as [Hi|Hi].
  - change 255 with (Z.ones 8). rewrite Z.land_ones, Z.shiftr_div_pow2 by lia.
    rewrite mod_div_mod, Z.div_div, <- Z.pow_add_r by lia. do 3 f_equal. lia.
  - rewrite Z.div_small; [done|]. split; [done|]. eapply Z.lt_le_trans; [exact Hk|]. apply Z.pow_le_mono_r; lia.
Qed.

Lemma be_bytes_add a b x : be_bytes (a + b) x = be_bytes a (x `div` 256 ^ Z.of_nat b) ++ be_bytes b x.
Proof.
  induction a as [|a IH]; [done|]. cbn [Nat.add]. rewrite !be_bytes_S, IH. cbn. f_equal.
  rewrite Z.div_div, <- Z.pow_add_r by lia. do 3 f_equal. lia.
Qed.

Lemma pow256_bits n : 256 ^ Z.of_nat n = 2 ^ (8 * Z.of_nat n).
Proof. by rewrite Z.pow_mul_r by lia. Qed.

Lemma be_bytes_mod_low n m x : (n ≤ m)%nat → be_bytes n (x `mod` 256 ^ Z.of_nat m) = be_bytes n x.
Proof.
  intros H. induction n as [|n IH]; [done|]. rewrite !be_bytes_S, IH by lia. f_equal.
  rewrite !pow256_bits. by apply (mod_div_mod _ _ _ 8); lia.
Qed.

Lemma readWord_spec j d i acc :
  readWord j d (i, acc) = ((i - j)%nat, be_bytes (min i j) d ++ acc).
Proof.
  revert d i acc. induction j as [|j IH]; intros d i acc; [by rewrite Nat.min_0_r, Nat.sub_0_r|].
  destruct i as [|i]; [done|]. cbn [readWord Nat.min Nat.sub]. rewrite IH, Z.shiftr_div_pow2 by lia. f_equal.
  replace (S (min i j)) with (min i j + 1)%nat by lia. by rewrite be_bytes_add, <- app_assoc.
Qed.

Lemma readWords_spec k x i acc :
  foldl (λ ia d, readWord wordBytes d ia) (i, acc) (low_words k x) =
  ((i - 8 * k)%nat, be_bytes (min i (8 * k)) x ++ acc).
Proof.
  revert x i acc. induction k as [|k IH]; intros x i acc; [by rewrite Nat.mul_0_r, Nat.min_0_r, Nat.sub_0_r|].
  cbn [low_words foldl]. rewrite readWord_spec, IH. unfold wordBytes. f_equal; [lia|].
  rewrite app_assoc. f_equal. rewrite Z.shiftr_div_pow2 by lia.
  change (2 ^ 64) with (256 ^ Z.of_nat 8). rewrite be_bytes_mod_low by lia.
  destruct (decide (i ≤ 8)%nat) as [Hi|Hi].
  - replace (min (i - 8) (8 * k)) with O by lia. by replace (min i (8 * S k)) with (min i 8) by lia.
  - replace (min i 8) with 8%nat by lia. rewrite <- be_bytes_add. f_equal. lia.
Qed.

Lemma be_bytes_zeros a b x : 0 ≤ x < 256 ^ Z.of_nat b → be_bytes (a + b) x = replicate a 0 ++ be_bytes b x.
Proof.
  intros H. rewrite be_bytes_add. f_equal. rewrite Z.div_small by done.
  induction a as [|a IH]; [done|]. rewrite be_bytes_S, IH, Z.div_0_l by (pose proof (pow256_pos a); lia). done.
Qed.

(** [ReadBits] into a zeroed buffer. *)
Lemma ReadBits_spec n x : 0 ≤ x < 256 ^ Z.of_nat n → ReadBits x (replicate n 0) = be_bytes n x.
Proof.
  intros Hx. unfold ReadBits. destruct (Big_Bits_words x) as (k & -> & Hk); [lia|].
  rewrite length_replicate, readWords_spec, app_nil_r, take_replicate.
  destruct (decide (n ≤ 8 * k)%nat) as [Hn|Hn].
  - replace (min n (8 * k)) with n by lia. by replace (min (n - 8 * k) n) with O by lia.
  - replace (min n (8 * k)) with (8 * k)%nat by lia. replace (min (n - 8 * k) n) with (n - 8 * k)%nat by lia.
    rewrite <- be_bytes_zeros; [f_equal; lia|]. split; [lia|]. rewrite pow256_bits. by replace (8 * Z.of_nat (8 * k)) with (64 * Z.of_nat k) by lia.
Qed.

(** *** The instructions *)

Lemma truth_ltb x y : (if x <? y then 1 else 0) = truth (x < y).
Proof. unfold truth. by destruct (Z.ltb_spec x y), (decide (x < y)); try lia. Qed.

Lemma slt_signed x y : word_ok x → word_ok y → opSlt x y = truth (signed x < signed y).
Proof.
  intros Hx Hy. rewrite <- !S256_signed by done. unfold opSlt, S256, truth, word_ok in *. change tt256 with (2 ^ 256).
  change tt255 with (2 ^ 255).
  destruct (Z.leb_spec (2 ^ 255) x), (Z.ltb_spec y (2 ^ 255)), (Z.ltb_spec x (2 ^ 255)), (Z.leb_spec (2 ^ 255) y);
    try lia; cbn; try destruct (Z.ltb_spec x y); destruct (decide _); lia.
Qed.

Lemma sgt_slt x y : opSgt x y = opSlt y x.
Proof.
  unfold opSgt, opSlt. destruct (Z.leb_spec tt255 x), (Z.ltb_spec y tt255), (Z.ltb_spec x tt255), (Z.leb_spec tt255 y); cbn; lia.
Qed.

Lemma sdiv_quot x y : word_ok x → word_ok y →
  opSdiv x y = if decide (signed y = 0) then 0 else wrap (Z.quot (signed x) (signed y)).
Proof.
  intros Hx Hy. unfold opSdiv. rewrite !S256_signed by done. set (a := signed x). set (b := signed y). clearbody a b.
  rewrite !U256_wrap. destruct (decide (b = 0)) as [->|Hb]; [done|].
  destruct (Z.eqb_spec (Z.sgn b) 0) as [E|_]; [destruct b; cbn in E; lia|]. cbn.
  destruct (Z.eqb_spec (Z.sgn a) 0) as [E|Ha]; [destruct a; cbn in E; try lia; by rewrite Z.quot_0_l|].
  assert (Z.abs a `div` Z.abs b = Z.quot (Z.abs a) (Z.abs b)) as -> by (rewrite Z.quot_div_nonneg; lia).
  destruct (Z.eqb_spec (Z.sgn a) (Z.sgn b)) as [E|E]; f_equal; rewrite (Z.quot_div a b) by done.
  - rewrite E, <- Z.quot_div_nonneg by lia. destruct (Z.sgn_spec b) as [[? ->]|[[? ->]|[? ->]]]; lia.
  - rewrite <- Z.quot_div_nonneg by lia. pose proof (Z.sgn_spec a). pose proof (Z.sgn_spec b).
    assert (Z.sgn a * Z.sgn b = -1) by (destruct a, b; cbn in *; try lia). nia.
Qed.

Lemma smod_rem x y : word_ok x → word_ok y →
  opSmod x y = if decide (signed y = 0) then 0 else wrap (Z.rem (signed x) (signed y)).
Proof.
  intros Hx Hy. unfold opSmod. rewrite !S256_signed by done. set (a := signed x). set (b := signed y). clearbody a b.
  rewrite !U256_wrap. destruct (decide (b = 0)) as [->|Hb]; [done|].
  destruct (Z.eqb_spec (Z.sgn b) 0) as [E|_]; [destruct b; cbn in E; lia|].
  rewrite (Z.rem_mod a b) by done. destruct (Z.ltb_spec (Z.sgn a) 0) as [E|E]; f_equal.
  - rewrite (proj2 (Z.sgn_neg_iff a)); [lia|]. destruct a; cbn in E; lia.
  - destruct a as [|a|a]; cbn [Z.sgn Z.abs] in *; [by rewrite Z.mod_0_l by lia|lia|lia].
Qed.

(** The low [b + 1] bits of [x], read as a signed number. *)
Definition low_signed (b x : Z) : Z := (x + 2 ^ b) `mod` 2 ^ (b + 1) - 2 ^ b.

Lemma lor_mask x b : 0 ≤ b → Z.lor x (Z.lnot (Z.ones b)) = x `mod` 2 ^ b - 2 ^ b.
Proof.
  intros Hb. rewrite <- (Z.lnot_involutive x) at 1. rewrite <- Z.lnot_land, Z.land_ones by done.
  unfold Z.lnot at 1 2. assert (0 < 2 ^ b) by lia.
  assert (Z.pred (- x) `mod` 2 ^ b = 2 ^ b - 1 - x `mod` 2 ^ b) as ->.
  { symmetry. apply Z.mod_unique_pos with (- (x `div` 2 ^ b) - 1); pose proof (Z.mod_pos_bound x (2 ^ b)); [lia|].
    pose proof (Z.div_mod x (2 ^ b)). lia. }
  lia.
Qed.

Lemma low_signed_bit b x : 0 ≤ b →
  low_signed b x = if Z.testbit x b then x `mod` 2 ^ b - 2 ^ b else x `mod` 2 ^ b.
Proof.
  intros Hb. unfold low_signed. assert (0 < 2 ^ b) by lia.
  assert (x `mod` 2 ^ (b + 1) = x `mod` 2 ^ b + 2 ^ b * Z.b2z (Z.testbit x b)) as Hx.
  { rewrite Z.pow_add_r, Z.rem_mul_r by lia. by rewrite Z.testbit_spec' by done. }
  rewrite <- Z.add_mod_idemp_l by (rewrite Z.pow_add_r by lia; lia). rewrite Hx, Z.pow_add_r by lia.
  pose proof (Z.mod_pos_bound x (2 ^ b)). destruct (Z.testbit x b); cbn [Z.b2z].
  - replace (x `mod` 2 ^ b + 2 ^ b * 1 + 2 ^ b) with (x `mod` 2 ^ b + 1 * (2 ^ b * 2 ^ 1)) by lia.
    rewrite Z.mod_add, Z.mod_small by lia. lia.
  - rewrite Z.mod_small by lia. lia.
Qed.

Lemma signextend_spec k x : 0 ≤ k →
  opSignExtend k x = if decide (k < 31) then wrap (low_signed (8 * k + 7) x) else x.
Proof.
  intros Hk. unfold opSignExtend. destruct (Z.ltb_spec k 31), (decide (k < 31)); try lia.
  rewrite U256_wrap. f_equal. unfold Big_Uint64. rewrite u64_id by (unfold is_u64; lia).
  replace (k * 8 + 7) with (8 * k + 7) by lia. rewrite Z.shiftl_1_l, Z.sub_1_r, <- Z.ones_equiv, low_signed_bit by lia.
  destruct (Z.testbit x (8 * k + 7)); [apply lor_mask; lia|apply Z.land_ones; lia].
Qed.

Lemma byte_spec i x : 0 ≤ i → 0 ≤ x →
  opByte i x = if decide (i < 32) then (x `div` 256 ^ (31 - i)) `mod` 256 else 0.
Proof.
  intros Hi Hx. unfold opByte. destruct (Z.ltb_spec i 32), (decide (i < 32)); try lia.
  unfold Big_Int64. rewrite u64_id by (unfold is_u64; lia). rewrite (proj2 (Z.ltb_lt i (2 ^ 63))) by lia.
  unfold Byte. destruct (Nat.leb_spec 32 (Z.to_nat i)); [lia|]. rewrite bigEndianByteAt_spec by done.
  do 3 f_equal. lia.
Qed.

Lemma shift_amount n : 0 ≤ n < 256 → Big_Uint64 n = n.
Proof. intros H. apply u64_id. unfold is_u64. lia. Qed.

Lemma sar_spec n x : word_ok n → word_ok x → opSAR n x = wrap (signed x `div` 2 ^ n).
Proof.
  intros Hn Hx. unfold opSAR. rewrite !U256_wrap, (wrap_id n), S256_signed by done. pose proof (signed_range x) as Hs.
  destruct (Z.leb_spec 256 n).
  - f_equal. assert (2 ^ 256 ≤ 2 ^ n) by (apply Z.pow_le_mono_r; lia).
    destruct (Z.leb_spec 0 (Z.sgn (signed x))) as [Hg|Hg].
    + rewrite Z.div_small; [done|]. destruct (signed x); cbn in Hg; lia.
    + apply Z.div_unique_pos with (signed x + 2 ^ n); destruct (signed x); cbn in Hg; lia.
  - unfold word_ok in Hn. by rewrite shift_amount, Z.shiftr_div_pow2 by lia.
Qed.

Lemma exp_spec x y : word_ok x → 0 ≤ y → opExp x y = wrap (x ^ y).
Proof.
  intros Hx Hy. unfold opExp. destruct (Z.ltb_spec y 1); [by replace y with 0 by lia|].
  destruct (Z.eqb_spec x 0) as [->|]; [by rewrite Z.pow_0_l by lia|].
  destruct (Z.eqb_spec y 1) as [->|]; [by rewrite Z.pow_1_r, wrap_id|]. by apply Exp_spec.
Qed.

(** A quotient or remainder of words fits a word. *)
Lemma guarded_spec (y r : Z) : (0 < y → word_ok r) → 0 ≤ y →
  (if y =? 0 then 0 else U256 r) = if decide (y = 0) then 0 else r.
Proof.
  intros Hr Hy. destruct (Z.eqb_spec y 0), (decide (y = 0)); try done. rewrite U256_wrap. apply wrap_id, Hr. lia.
Qed.

Lemma div_word x y : word_ok x → 0 < y → word_ok (x `div` y).
Proof.
  unfold word_ok. intros Hx Hy. split; [apply Z.div_pos; lia|]. apply Z.div_lt_upper_bound; [lia|].
  assert (1 * 2 ^ 256 ≤ y * 2 ^ 256) by (apply Z.mul_le_mono_nonneg_r; lia). lia.
Qed.

Lemma mod_word x y : word_ok y → 0 < y → word_ok (x `mod` y).
Proof. unfold word_ok. intros Hy Hp. pose proof (Z.mod_pos_bound x y). lia. Qed.

Lemma not_spec x : word_ok x → opNot x = 2 ^ 256 - 1 - x.
Proof.
  unfold word_ok. intros Hx. unfold opNot. rewrite U256_wrap. unfold wrap, Z.lnot. symmetry.
  apply Z.mod_unique_pos with (-1); lia.
Qed.

Lemma shl_spec x y : word_ok x → word_ok y → opSHL x y = wrap (y * 2 ^ x).
Proof.
  intros Hx Hy. unfold opSHL. rewrite !U256_wrap, !(wrap_id x), !(wrap_id y) by done. unfold word_ok in *.
  destruct (Z.leb_spec 256 x).
  - unfold wrap. replace x with (x - 256 + 256) by lia. rewrite Z.pow_add_r, Z.mul_assoc by lia. symmetry. by apply Z.mod_mul.
  - by rewrite shift_amount, Z.shiftl_mul_pow2 by lia.
Qed.

Lemma shr_spec x y : word_ok x → word_ok y → opSHR x y = y `div` 2 ^ x.
Proof.
  intros Hx Hy. unfold opSHR. rewrite !U256_wrap, !(wrap_id x), !(wrap_id y) by done. unfold word_ok in *.
  destruct (Z.leb_spec 256 x).
  - assert (2 ^ 256 ≤ 2 ^ x) by (apply Z.pow_le_mono_r; lia). symmetry. apply Z.div_small. lia.
  - rewrite shift_amount, Z.shiftr_div_pow2 by lia. apply wrap_id, div_word; [done|]. apply Z.pow_pos_nonneg; lia.
Qed.

Lemma addmod_spec s z : word_ok z → (if 0 <? z then U256 (s `mod` z) else 0) = if decide (z = 0) then 0 else s `mod` z.
Proof.
  unfold word_ok. intros Hz. rewrite <- guarded_spec; [|by apply mod_word|lia].
  destruct (Z.ltb_spec 0 z), (Z.eqb_spec z 0); try done; lia.
Qed.

(** The arithmetic instructions compute the operations of the machine on words:
    addition, subtraction, multiplication and powers modulo [2 ^ 256]; division and
    remainder, unsigned and rounded towards zero on signed operands, with 0 for a zero
    divisor (and the one overflow wrapping around); comparison, extension of the sign,
    the bytes of a word, and shifts, the arithmetic one filling with the sign. *)
Theorem word_arithmetic x y z :
  word_ok x → word_ok y → word_ok z →
  opAdd x y = wrap (x + y) ∧ opSub x y = wrap (x - y) ∧ opMul x y = wrap (x * y) ∧
  opExp x y = wrap (x ^ y) ∧
  opDiv x y = (if decide (y = 0) then 0 else x `div` y) ∧
  opMod x y = (if decide (y = 0) then 0 else x `mod` y) ∧
  opSdiv x y = (if decide (signed y = 0) then 0 else wrap (Z.quot (signed x) (signed y))) ∧
  opSmod x y = (if decide (signed y = 0) then 0 else wrap (Z.rem (signed x) (signed y))) ∧
  opAddmod x y z = (if decide (z = 0) then 0 else (x + y) `mod` z) ∧
  opMulmod x y z = (if decide (z = 0) then 0 else (x * y) `mod` z) ∧
  opSignExtend x y = (if decide (x < 31) then wrap (low_signed (8 * x + 7) y) else y) ∧
  opByte x y = (if decide (x < 32) then (y `div` 256 ^ (31 - x)) `mod` 256 else 0) ∧
  opLt x y = truth (x < y) ∧ opGt x y = truth (y < x) ∧
  opSlt x y = truth (signed x < signed y) ∧ opSgt x y = truth (signed y < signed x) ∧
  opNot x = 2 ^ 256 - 1 - x ∧
  opSHL x y = wrap (y * 2 ^ x) ∧ opSHR x y = y `div` 2 ^ x ∧ opSAR x y = wrap (signed y `div` 2 ^ x).
Proof.
  intros Hx Hy Hz. unfold opAdd, opSub, opMul, opLt, opGt. rewrite !U256_wrap, !truth_ltb, sgt_slt.
  assert (0 ≤ x ∧ 0 ≤ y) as [Hx0 Hy0] by (unfold word_ok in *; lia).
  split_and!; auto using exp_spec, sdiv_quot, smod_rem, addmod_spec, signextend_spec, byte_spec, slt_signed, not_spec,
    shl_spec, shr_spec, sar_spec.
  - apply guarded_spec; auto using div_word.
  - apply guarded_spec; auto using mod_word.
  - by apply addmod_spec.
  - by apply addmod_spec.
Qed.

Lemma word_arithmetic_witness :
  opSdiv (2 ^ 255) (2 ^ 256 - 1) = wrap (Z.quot (signed (2 ^ 255)) (signed (2 ^ 256 - 1))) ∧
  opSdiv (2 ^ 255) (2 ^ 256 - 1) = 2 ^ 255.
Proof.
  destruct (word_arithmetic (2 ^ 255) (2 ^ 256 - 1) 1) as (_ & _ & _ & _ & _ & _ & E & _);
    [by vm_compute..|]. split; [exact E|]. vm_compute. reflexivity.
Defined.
