(* ===== verification/EvmCode.v ===== *)
(** * EvmCode: code and its jump destinations

    The analysis of src/core/vm/analysis.go, which marks the bytes of code that are the
    data of a push instruction in a bit vector, and the check of jump destinations of
    src/core/vm/contract.go.  The check memoises the analysis by the hash of the code;
    here it is computed anew.  The reference is the set of positions at which an
    instruction starts. *)

From S2P Require Import Prelude Bytes EvmWord.

Local Open Scope Z_scope.

(** ** Opcodes (src/core/vm/opcodes.go) *)

Definition PUSH1 : Z := 0x60.
Definition PUSH32 : Z := 0x7f.
Definition JUMPDEST : Z := 0x5b.

(** ** The bit vector; [None] is an index out of range *)

Abbreviation bitvec := (list Z) (only parsing).

Definition bits_or (bits : bitvec) (i : nat) (mask : Z) : option bitvec :=
  b ← bits !! i; Some (<[i := Z.lor b mask]> bits).

Definition bits_set (bits : bitvec) (pos : nat) : option bitvec :=
  bits_or bits (pos `div` 8) (Z.shiftr 0x80 (Z.of_nat (pos `mod` 8))).

Definition set8 (bits : bitvec) (pos : nat) : option bitvec :=
  let mask := Z.shiftr 0xFF (Z.of_nat (pos `mod` 8)) in
  bits ← bits_or bits (pos `div` 8) mask;
  bits_or bits (pos `div` 8 + 1) (Z.lxor 0xFF mask).

Definition codeSegment (bits : bitvec) (pos : nat) : option bool :=
  b ← bits !! (pos `div` 8)%nat;
  Some (Z.land b (Z.shiftr 0x80 (Z.of_nat (pos `mod` 8))) =? 0).

(** The two loops over the data of a push. *)
Fixpoint markPush (fuel numbits pc : nat) (bits : bitvec) : option bitvec :=
  match fuel with
  | O => Some bits
  | S fuel =>
      if (8 <=? numbits)%nat then bits ← set8 bits pc; markPush fuel (numbits - 8) (pc + 8) bits
      else if (0 <? numbits)%nat then bits ← bits_set bits pc; markPush fuel (numbits - 1) (pc + 1) bits
      else Some bits
  end.

(** The bytes of data after an instruction. *)
Definition pushSize (op : Z) : nat :=
  if (PUSH1 <=? op) && (op <=? PUSH32) then Z.to_nat (op - PUSH1 + 1) else O.

Fixpoint bitmapFrom (fuel : nat) (code : bytes) (pc : nat) (bits : bitvec) : option bitvec :=
  match fuel, code !! pc with
  | S fuel, Some op =>
      let numbits := pushSize op in
      bits ← markPush 33 numbits (pc + 1) bits;
      bitmapFrom fuel code (pc + 1 + numbits) bits
  | _, _ => Some bits
  end.

Definition codeBitmap (code : bytes) : option bitvec :=
  bitmapFrom (length code) code 0 (replicate (length code `div` 8 + 1 + 4)%nat 0).

(** ** src/core/vm/contract.go *)

Definition GetByte (code : bytes) (n : Z) : Z :=
  if n <? Z.of_nat (length code) then default 0 (code !! Z.to_nat n) else 0.
Definition GetOp (code : bytes) (n : Z) : Z := GetByte code n.

Definition validJumpdest (code : bytes) (dest : Z) : option bool :=
  let udest := Big_Uint64 dest in
  if (63 <=? BitLen dest) || (Z.of_nat (length code) <=? udest) then Some false
  else if negb (GetOp code udest =? JUMPDEST) then Some false
  else analysis ← codeBitmap code; codeSegment analysis (Z.to_nat udest).

(** ** The reference: positions at which an instruction starts *)

Inductive starts (code : bytes) : nat → Prop :=
| starts_first : starts code O
| starts_next pc op : starts code pc → code !! pc = Some op → starts code (pc + 1 + pushSize op).

(** The bytes that are data of an instruction before [pc]. *)
Definition data_before (code : bytes) (pc pos : nat) : Prop :=
  ∃ p op, starts code p ∧ (p < pc)%nat ∧ code !! p = Some op ∧ (p < pos ≤ p + pushSize op)%nat.

(** ** Facts about the bit vector *)

Definition marked (bits : bitvec) (pos : nat) : bool :=
  match bits !! (pos `div` 8)%nat with
  | Some b => Z.testbit b (7 - Z.of_nat (pos `mod` 8))
  | None => false
  end.

Lemma nat_div8 pos : pos = (8 * (pos `div` 8) + pos `mod` 8)%nat ∧ (pos `mod` 8 < 8)%nat.
Proof. split; [apply Nat.div_mod_eq|by apply Nat.mod_upper_bound]. Qed.

Lemma bits_or_marked bits i mask bits' pos :
  bits_or bits i mask = Some bits' →
  length bits' = length bits ∧
  marked bits' pos = marked bits pos || (bool_decide (pos `div` 8 = i)%nat && Z.testbit mask (7 - Z.of_nat (pos `mod` 8))).
Proof.
  unfold bits_or. destruct (bits !! i) as [b|] eqn:Eb; [|done]. intros [= <-]. split; [by rewrite length_insert|].
  unfold marked. case_bool_decide as Hi.
  - subst i. rewrite list_lookup_insert_eq by (by eapply lookup_lt_Some). by rewrite Eb, Z.lor_spec.
  - rewrite list_lookup_insert_ne by done. by rewrite andb_false_l, orb_false_r.
Qed.

Lemma bits_or_some bits i mask : (i < length bits)%nat → is_Some (bits_or bits i mask).
Proof. intros Hi. unfold bits_or. destruct (lookup_lt_is_Some_2 bits i Hi) as [b ->]. by eexists. Qed.

(** The bits of the three masks. *)
Lemma mask_bits r k : (r < 8)%nat → (k < 8)%nat →
  Z.testbit (Z.shiftr 0x80 (Z.of_nat r)) (7 - Z.of_nat k) = (k =? r)%nat ∧
  Z.testbit (Z.shiftr 0xFF (Z.of_nat r)) (7 - Z.of_nat k) = (r <=? k)%nat ∧
  Z.testbit (Z.lxor 0xFF (Z.shiftr 0xFF (Z.of_nat r))) (7 - Z.of_nat k) = (k <? r)%nat.
Proof.
  intros Hr Hk. do 8 (destruct r as [|r]; [do 8 (destruct k as [|k]; [by vm_compute|]); lia|]). lia.
Qed.

Lemma set_spec bits pos : (pos `div` 8 < length bits)%nat → ∃ bits',
  bits_set bits pos = Some bits' ∧ length bits' = length bits ∧
  ∀ q, marked bits' q = marked bits q || bool_decide (q = pos).
Proof.
  intros Hp. destruct (bits_or_some bits (pos `div` 8) (Z.shiftr 0x80 (Z.of_nat (pos `mod` 8))) Hp) as [bits' E].
  exists bits'. split; [exact E|]. split; [exact (proj1 (bits_or_marked _ _ _ _ O E))|]. intros q.
  rewrite (proj2 (bits_or_marked _ _ _ _ q E)). f_equal. destruct (nat_div8 pos) as [E1 H1], (nat_div8 q) as [E2 H2].
  rewrite (proj1 (mask_bits _ _ H1 H2)). destruct (Nat.eqb_spec (q `mod` 8) (pos `mod` 8)); repeat case_bool_decide; cbn; lia.
Qed.

Lemma set8_spec bits pos : (pos `div` 8 + 1 < length bits)%nat → ∃ bits',
  set8 bits pos = Some bits' ∧ length bits' = length bits ∧
  ∀ q, marked bits' q = marked bits q || bool_decide (pos ≤ q < pos + 8)%nat.
Proof.
  intros Hp. unfold set8. set (mask := Z.shiftr 0xFF (Z.of_nat (pos `mod` 8))).
  destruct (bits_or_some bits (pos `div` 8) mask) as [bits1 E1]; [lia|]. rewrite E1. cbn.
  destruct (bits_or_marked _ _ _ _ O E1) as [L1 _].
  destruct (bits_or_some bits1 (pos `div` 8 + 1) (Z.lxor 0xFF mask)) as [bits2 E2]; [lia|].
  destruct (bits_or_marked _ _ _ _ O E2) as [L2 _]. exists bits2. split; [exact E2|]. split; [congruence|]. intros q.
  rewrite (proj2 (bits_or_marked _ _ _ _ q E2)), (proj2 (bits_or_marked _ _ _ _ q E1)), <- orb_assoc. f_equal.
  destruct (nat_div8 pos) as [D1 H1], (nat_div8 q) as [D2 H2]. subst mask.
  destruct (mask_bits _ _ H1 H2) as (_ & -> & ->).
  destruct (Nat.leb_spec (pos `mod` 8) (q `mod` 8)), (Nat.ltb_spec (q `mod` 8) (pos `mod` 8)); try lia;
    repeat case_bool_decide; cbn; lia.
Qed.

Lemma markPush_spec fuel n pc bits : (n < fuel)%nat → ((pc + n) `div` 8 < length bits)%nat → ∃ bits',
  markPush fuel n pc bits = Some bits' ∧ length bits' = length bits ∧
  ∀ q, marked bits' q = marked bits q || bool_decide (pc ≤ q < pc + n)%nat.
Proof.
  revert n pc bits. induction fuel as [|fuel IH]; intros n pc bits Hn Hl; [lia|]. cbn [markPush].
  destruct (Nat.leb_spec 8 n); [|destruct (Nat.ltb_spec 0 n)].
  - destruct (set8_spec bits pc) as (b1 & E1 & L1 & M1).
    { apply Nat.le_lt_trans with ((pc + n) `div` 8)%nat; [|done]. replace (pc `div` 8 + 1)%nat with ((pc + 1 * 8) `div` 8)%nat
        by (by rewrite Nat.div_add). apply Nat.Div0.div_le_mono. lia. }
    rewrite E1. cbn [mbind option_bind]. destruct (IH (n - 8)%nat (pc + 8)%nat b1) as (b2 & E2 & L2 & M2); [lia| |].
    { replace (pc + 8 + (n - 8))%nat with (pc + n)%nat by lia. lia. }
    exists b2. split; [done|]. split; [congruence|]. intros q. rewrite M2, M1, <- orb_assoc. f_equal. repeat case_bool_decide; lia.
  - destruct (set_spec bits pc) as (b1 & E1 & L1 & M1).
    { apply Nat.le_lt_trans with ((pc + n) `div` 8)%nat; [|done]. apply Nat.Div0.div_le_mono. lia. }
    rewrite E1. cbn [mbind option_bind]. destruct (IH (n - 1)%nat (pc + 1)%nat b1) as (b2 & E2 & L2 & M2); [lia| |].
    { replace (pc + 1 + (n - 1))%nat with (pc + n)%nat by lia. lia. }
    exists b2. split; [done|]. split; [congruence|]. intros q. rewrite M2, M1, <- orb_assoc. f_equal. repeat case_bool_decide; lia.
  - exists bits. split; [done|]. split; [done|]. intros q. rewrite bool_decide_eq_false_2 by lia. by rewrite orb_false_r.
Qed.

(** ** Instructions do not overlap *)

Lemma starts_apart code p q op :
  starts code p → starts code q → (q < p)%nat → code !! q = Some op → (q + 1 + pushSize op ≤ p)%nat.
Proof.
  remember (p + q)%nat as n eqn:En. revert p q op En. induction (lt_wf n) as [n _ IH]. intros p q op -> Hp Hq Hlt Eq.
  destruct Hp as [|p op' Hp Ep]; [lia|]. destruct (decide (q < p)%nat) as [Hqp|].
  - specialize (IH (p + q)%nat ltac:(lia) p q op eq_refl Hp Hq Hqp Eq). lia.
  - destruct (decide (q = p)) as [->|]; [by replace op with op' by congruence|].
    specialize (IH (q + p)%nat ltac:(lia) q p op' eq_refl Hq Hp ltac:(lia) Ep). lia.
Qed.

Lemma starts_cover code pos : (pos < length code)%nat →
  ∃ p op, starts code p ∧ code !! p = Some op ∧ (p ≤ pos ≤ p + pushSize op)%nat.
Proof.
  intros Hpos. induction pos as [|pos IH].
  - destruct (lookup_lt_is_Some_2 code 0 Hpos) as [op E]. exists O, op. split_and!; [constructor|done|lia|lia].
  - destruct IH as (p & op & Hs & E & Hp); [lia|]. destruct (decide (S pos ≤ p + pushSize op)%nat) as [?|?].
    + exists p, op. split_and!; [done|done|lia|lia].
    + destruct (lookup_lt_is_Some_2 code (S pos) Hpos) as [op' E']. exists (S pos), op'.
      replace (S pos) with (p + 1 + pushSize op)%nat by lia. split_and!; [by constructor|by replace (p + 1 + pushSize op)%nat with (S pos) by lia|lia|lia].
Qed.

Lemma starts_not_data code pos :
  (pos < length code)%nat → (starts code pos ↔ ¬ data_before code (length code) pos).
Proof.
  intros Hpos. split.
  - intros Hs (p & op & Hp & _ & E & Hr). pose proof (starts_apart code pos p op Hs Hp ltac:(lia) E). lia.
  - intros Hn. destruct (starts_cover code pos Hpos) as (p & op & Hs & E & Hr).
    destruct (decide (p = pos)) as [->|Hne]; [done|]. destruct Hn. exists p, op. split_and!; [done| |done|lia|lia]. lia.
Qed.

Lemma data_before_step code pc op q :
  starts code pc → code !! pc = Some op →
  (data_before code (pc + 1 + pushSize op) q ↔ data_before code pc q ∨ (pc + 1 ≤ q < pc + 1 + pushSize op)%nat).
Proof.
  intros Hs E. split.
  - intros (p & op' & Hp & Hlt & E' & Hq). destruct (decide (p < pc)%nat); [left; by exists p, op'|].
    destruct (decide (p = pc)) as [->|Hn]; [right; replace op with op' by congruence; lia|].
    pose proof (starts_apart code p pc op Hp Hs ltac:(lia) E). lia.
  - intros [(p & op' & Hp & Hlt & E' & Hq)|Hq]; [exists p, op'; split_and!; try done; lia|].
    exists pc, op. split_and!; try done; lia.
Qed.

Lemma pushSize_le op : (pushSize op ≤ 32)%nat.
Proof.
  unfold pushSize. destruct (Z.leb_spec PUSH1 op), (Z.leb_spec op PUSH32); cbn; try lia. unfold PUSH1, PUSH32 in *. lia.
Qed.

Lemma bitmapFrom_spec fuel code pc bits :
  (length code ≤ pc + fuel)%nat → length bits = (length code `div` 8 + 5)%nat → starts code pc →
  (∀ q, marked bits q = true ↔ data_before code pc q) → ∃ bits',
  bitmapFrom fuel code pc bits = Some bits' ∧ length bits' = length bits ∧
  ∀ q, marked bits' q = true ↔ data_before code (length code) q.
Proof.
  revert pc bits. induction fuel as [|fuel IH]; intros pc bits Hf Hl Hs Hm.
  { exists bits. split_and!; [done|done|]. intros q. rewrite Hm. unfold data_before. split; intros (p & op & ? & ? & E & ?);
      apply lookup_lt_Some in E as Hp; exists p, op; split_and!; try done; lia. }
  cbn [bitmapFrom]. destruct (code !! pc) as [op|] eqn:E.
  2: { apply lookup_ge_None in E. exists bits. split_and!; [done|done|]. intros q. rewrite Hm. unfold data_before.
       split; intros (p & op & ? & ? & E' & ?); apply lookup_lt_Some in E' as Hp; exists p, op; split_and!; try done; lia. }
  apply lookup_lt_Some in E as Hpc. pose proof (pushSize_le op).
  destruct (markPush_spec 33 (pushSize op) (pc + 1) bits) as (b1 & E1 & L1 & M1); [lia| |].
  { rewrite Hl. apply Nat.le_lt_trans with ((length code + 4 * 8) `div` 8)%nat; [apply Nat.Div0.div_le_mono; lia|].
    rewrite Nat.div_add by done. lia. }
  rewrite E1. cbn [mbind option_bind]. destruct (IH (pc + 1 + pushSize op)%nat b1) as (b2 & E2 & L2 & M2); [lia|congruence|by constructor| |].
  { intros q. rewrite M1, orb_true_iff, Hm, bool_decide_eq_true. by rewrite data_before_step by done. }
  exists b2. split_and!; [done|congruence|done].
Qed.

Lemma replicate_unmarked n q : marked (replicate n 0) q = false.
Proof. unfold marked. destruct (_ !! _) as [b|] eqn:E; [|done]. apply lookup_replicate in E as [-> _]. by rewrite Z.testbit_0_l. Qed.

Lemma codeSegment_marked bits pos : (pos `div` 8 < length bits)%nat → codeSegment bits pos = Some (negb (marked bits pos)).
Proof.
  intros H. unfold codeSegment, marked. destruct (lookup_lt_is_Some_2 bits _ H) as [b ->]. cbn [mbind option_bind]. f_equal.
  destruct (nat_div8 pos) as [_ Hm]. set (k := (pos `mod` 8)%nat) in *. clearbody k.
  assert (Z.shiftr 0x80 (Z.of_nat k) = 2 ^ (7 - Z.of_nat k)) as ->.
  { rewrite Z.shiftr_div_pow2 by lia. change 0x80 with (2 ^ 7). rewrite <- Z.pow_sub_r by lia. done. }
  destruct (Z.testbit b (7 - Z.of_nat k)) eqn:Et; cbn [negb].
  - apply Z.eqb_neq. intros E. apply (f_equal (λ x, Z.testbit x (7 - Z.of_nat k))) in E.
    by rewrite Z.land_spec, Et, Z.pow2_bits_true, Z.testbit_0_l in E by lia.
  - apply Z.eqb_eq. apply Z.bits_inj'. intros i Hi. rewrite Z.land_spec, Z.testbit_0_l.
    destruct (decide (i = 7 - Z.of_nat k)) as [->|Hne]; [by rewrite Et|]. rewrite Z.pow2_bits_false by lia. by rewrite andb_false_r.
Qed.

Lemma codeBitmap_spec code : ∃ bits, codeBitmap code = Some bits ∧
  ∀ pos, (pos < length code)%nat → codeSegment bits pos = Some (negb (marked bits pos)) ∧
    (marked bits pos = false ↔ starts code pos).
Proof.
  destruct (bitmapFrom_spec (length code) code 0 (replicate (length code `div` 8 + 1 + 4) 0)) as (bits & E & L & M).
  { lia. } { rewrite length_replicate. lia. } { constructor. }
  { intros q. rewrite replicate_unmarked. split; [done|]. intros (p & op & ? & ? & _). lia. }
  exists bits. split; [exact E|]. intros pos Hpos. split.
  - apply codeSegment_marked. rewrite L, length_replicate. pose proof (Nat.Div0.div_le_mono pos (length code) 8). lia.
  - rewrite starts_not_data, <- M by done. by destruct (marked bits pos).
Qed.

(** A jump goes only to an instruction.  The analysis of code of any length never
    leaves its bit vector, and a destination is accepted exactly when it is the position
    of a JUMPDEST byte at which an instruction starts when the code is read from the
    beginning: never one inside the data of a push. *)
Theorem jump_destinations code dest :
  0 ≤ dest → Z.of_nat (length code) < 2 ^ 62 → ∃ ok, validJumpdest code dest = Some ok ∧
    (ok = true ↔ code !! Z.to_nat dest = Some JUMPDEST ∧ starts code (Z.to_nat dest)).
Proof.
  intros Hd Hlen. unfold validJumpdest, GetOp, GetByte. destruct (codeBitmap_spec code) as (bits & -> & Hb).
  destruct (Z.leb_spec 63 (BitLen dest)) as [Hbig|Hsmall]; cbn [orb].
  { assert (¬ dest < 2 ^ 62) as Hge by (rewrite <- BitLen_lt by lia; lia). exists false. split; [done|].
    split; [done|]. intros [E%lookup_lt_Some _]. lia. }
  assert (dest < 2 ^ 62) as Hlt by (apply BitLen_lt; lia).
  unfold Big_Uint64. rewrite u64_id by (unfold is_u64; lia).
  destruct (Z.leb_spec (Z.of_nat (length code)) dest) as [Hge|Hin]; cbn [orb].
  { exists false. split; [done|]. split; [done|]. intros [E%lookup_lt_Some _]. lia. }
  rewrite (proj2 (Z.ltb_lt _ _)) by done.
  destruct (lookup_lt_is_Some_2 code (Z.to_nat dest)) as [op E]; [lia|]. rewrite E. change (default 0 (Some op)) with op.
  destruct (Z.eqb_spec op JUMPDEST) as [->|Hn]; cbn [negb].
  - destruct (Hb (Z.to_nat dest)) as [Es Hm]; [lia|]. cbn [mbind option_bind]. rewrite Es. eexists. split; [done|].
    rewrite <- Hm. destruct (marked bits (Z.to_nat dest)); naive_solver.
  - exists false. split; [done|]. split; [done|]. intros [[= ->] _]. by destruct Hn.
Qed.

(** A jump over data that looks like a destination. *)
Lemma jump_destinations_witness :
  validJumpdest [0x60; 0x5b; 0x5b] 1 = Some false ∧
  ∃ ok, validJumpdest [0x60; 0x5b; 0x5b] 2 = Some ok ∧
    (ok = true ↔ [0x60; 0x5b; 0x5b] !! 2%nat = Some JUMPDEST ∧ starts [0x60; 0x5b; 0x5b] 2).
Proof. split; [by vm_compute|]. apply (jump_destinations [0x60; 0x5b; 0x5b] 2); cbn; lia. Defined.
