(* ===== verification/EvmMemory.v ===== *)
(** * EvmMemory: stack, memory and the price of memory

    src/core/vm/stack.go, memory.go, common.go, memory_table.go and the memory part of
    gas_table.go.  A stack is the list of its words, the top first; a memory is its
    bytes and the fee last computed for it.  [None] is a panic: an index or a slice out
    of range, or memory written before it is resized. *)

From S2P Require Import Prelude Bytes EvmWord.

Local Open Scope Z_scope.

(** ** Stack *)

Abbreviation Stack := (list Z) (only parsing).

Definition StackLimit : Z := 1024.

Definition pop (st : Stack) : option (Z * Stack) :=
  match st with x :: st => Some (x, st) | [] => None end.
Definition Back (st : Stack) (n : nat) : option Z := st !! n.

(** [swap n] exchanges the top with the [n]-th word from the top, counting from 1. *)
Definition swap (st : Stack) (n : nat) : option Stack :=
  x ← st !! (n - 1)%nat;
  y ← st !! O;
  Some (<[O := x]> (<[(n - 1)%nat := y]> st)).
Definition dup (st : Stack) (n : nat) : option Stack :=
  x ← st !! (n - 1)%nat; Some (x :: st).

(** ** Memory *)

Record Memory := mkMemory { me_store : bytes; me_lastGasCost : Z }.
#[global] Instance Memory_fields : Fields Memory := λ m, mkMemory (me_store m) (me_lastGasCost m).

Definition NewMemory : Memory := mkMemory [] 0.
Definition Memory_Len (m : Memory) : Z := Z.of_nat (length (me_store m)).

(** [copy(store[offset:end], value)]; the slice must lie within the store. *)
Definition copy_into (store : bytes) (offset end_ : Z) (value : bytes) : option bytes :=
  if (0 <=? offset) && (offset <=? end_) && (end_ <=? Z.of_nat (length store)) then
    let value := take (Z.to_nat (end_ - offset)) value in
    Some (take (Z.to_nat offset) store ++ value ++ drop (Z.to_nat offset + length value) store)
  else None.

Definition Memory_Set (m : Memory) (offset size : Z) (value : bytes) : option Memory :=
  if 0 <? size then
    if Memory_Len m <? add64 offset size then None
    else store ← copy_into (me_store m) offset (add64 offset size) value; Some (m <| me_store := store |>)
  else Some m.

Definition Memory_Set32 (m : Memory) (offset val : Z) : option Memory :=
  if Memory_Len m <? add64 offset 32 then None
  else
    store ← copy_into (me_store m) offset (add64 offset 32) (ReadBits val (replicate 32 0));
    Some (m <| me_store := store |>).

Definition Resize (m : Memory) (size : Z) : Memory :=
  if Memory_Len m <? size then m <| me_store ::= (λ s, s ++ replicate (Z.to_nat (size - Memory_Len m)) 0) |> else m.

(** [Get] and [GetPtr], which does not copy: the slice [store[offset:offset+size]]. *)
Definition Memory_Get (m : Memory) (offset size : Z) : option bytes :=
  if size =? 0 then Some []
  else if offset <? Memory_Len m then
    if (0 <=? offset) && (0 <=? size) && (offset + size <=? Memory_Len m)
    then Some (take (Z.to_nat size) (drop (Z.to_nat offset) (me_store m)))
    else None
  else Some [].

(** [memory.store[off] = b] *)
Definition Memory_SetByte (m : Memory) (off b : Z) : option Memory :=
  if (0 <=? off) && (off <? Memory_Len m) then Some (m <| me_store ::= <[Z.to_nat off := b]> |>) else None.

(** ** src/core/vm/common.go *)

Definition calcMemSize (off l : Z) : Z := if l =? 0 then 0 else off + l.

(** [None] is an overflow. *)
Definition bigUint64 (v : Z) : option Z := if 64 <? BitLen v then None else Some (Big_Uint64 v).

Definition toWordSize (size : Z) : Z :=
  if 2 ^ 64 - 1 - 31 <? size then (2 ^ 64 - 1) `div` 32 + 1 else (add64 size 31) `div` 32.

Definition RightPadBytes (slice : bytes) (l : Z) : bytes :=
  if l <=? Z.of_nat (length slice) then slice else slice ++ replicate (Z.to_nat l - length slice) 0.

Definition getDataBig (data : bytes) (start size : Z) : bytes :=
  let dlen := Z.of_nat (length data) in
  let s := Z.min start dlen in
  let e := Z.min (s + size) dlen in
  RightPadBytes (take (Z.to_nat (e - s)) (drop (Z.to_nat s) data)) (Big_Int64 size).

(** ** src/core/vm/memory_table.go *)

Definition memorySha3 (st : Stack) : option Z := o ← Back st 0; l ← Back st 1; Some (calcMemSize o l).
Definition memoryCallDataCopy (st : Stack) : option Z := o ← Back st 0; l ← Back st 2; Some (calcMemSize o l).
Definition memoryExtCodeCopy (st : Stack) : option Z := o ← Back st 1; l ← Back st 3; Some (calcMemSize o l).
Definition memoryMLoad (st : Stack) : option Z := o ← Back st 0; Some (calcMemSize o 32).
Definition memoryMStore8 (st : Stack) : option Z := o ← Back st 0; Some (calcMemSize o 1).
Definition memoryCreate (st : Stack) : option Z := o ← Back st 1; l ← Back st 2; Some (calcMemSize o l).
Definition memoryCall (st : Stack) : option Z :=
  o ← Back st 5; l ← Back st 6; o' ← Back st 3; l' ← Back st 4;
  Some (Z.max (calcMemSize o l) (calcMemSize o' l')).
Definition memoryDelegateCall (st : Stack) : option Z :=
  o ← Back st 4; l ← Back st 5; o' ← Back st 2; l' ← Back st 3;
  Some (Z.max (calcMemSize o l) (calcMemSize o' l')).

Definition memoryReturnDataCopy : Stack → option Z := memoryCallDataCopy.
Definition memoryCodeCopy : Stack → option Z := memoryCallDataCopy.
Definition memoryMStore : Stack → option Z := memoryMLoad.
Definition memoryCreate2 : Stack → option Z := memoryCreate.
Definition memoryStaticCall : Stack → option Z := memoryDelegateCall.
Definition memoryReturn : Stack → option Z := memorySha3.
Definition memoryRevert : Stack → option Z := memorySha3.
Definition memoryLog : Stack → option Z := memorySha3.

(** ** The price of memory (gas_table.go) *)

Definition MemoryGas : Z := 3.
Definition QuadCoeffDiv : Z := 512.

(** [None] is [errGasUintOverflow]. *)
Definition memoryGasCost (mem : Memory) (newMemSize : Z) : option (Z * Memory) :=
  if newMemSize =? 0 then Some (0, mem)
  else if 0xffffffffe0 <? newMemSize then None
  else
    let newMemSizeWords := toWordSize newMemSize in
    let newMemSize := mul64 newMemSizeWords 32 in
    if Memory_Len mem <? newMemSize then
      let square := mul64 newMemSizeWords newMemSizeWords in
      let linCoef := mul64 newMemSizeWords MemoryGas in
      let quadCoef := square `div` QuadCoeffDiv in
      let newTotalFee := add64 linCoef quadCoef in
      let fee := sub64 newTotalFee (me_lastGasCost mem) in
      Some (fee, mem <| me_lastGasCost := newTotalFee |>)
    else Some (0, mem).

(** ** Memory that is large enough *)

(** The bytes of a memory, of which the fee leaves at most about 2^40. *)
Definition mem_ok (m : Memory) : Prop := Forall byte_ok (me_store m) ∧ Memory_Len m ≤ 2 ^ 41.

(** The range that starts at [off] lies within the memory. *)
Definition fits (m : Memory) (off l : Z) : Prop := 0 ≤ off ∧ 0 ≤ l ∧ (l = 0 ∨ off + l ≤ Memory_Len m).

Lemma small_u64 x : 0 ≤ x ≤ 2 ^ 41 → Big_Uint64 x = x ∧ Big_Int64 x = x.
Proof.
  intros Hx. assert (u64 x = x) as E by (apply u64_id; unfold is_u64; lia). unfold Big_Uint64, Big_Int64. rewrite E.
  split; [done|]. destruct (Z.ltb_spec x (2 ^ 63)); lia.
Qed.

Lemma fits_small m off l : mem_ok m → fits m off l → l ≠ 0 →
  Big_Uint64 off = off ∧ Big_Int64 off = off ∧ Big_Uint64 l = l ∧ Big_Int64 l = l ∧ add64 off l = off + l.
Proof.
  intros [_ Hm] (H1 & H2 & H3) Hl. destruct (small_u64 off) as [-> ->]; [lia|]. destruct (small_u64 l) as [-> ->]; [lia|].
  split_and!; try done. apply add64_id. unfold is_u64. lia.
Qed.

Lemma get_fits m off l : mem_ok m → fits m off l →
  ∃ b, Memory_Get m (Big_Int64 off) (Big_Int64 l) = Some b ∧ Forall byte_ok b ∧ Z.of_nat (length b) ≤ 2 ^ 41.
Proof.
  intros Hm Hf. destruct (decide (l = 0)) as [->|Hl]; [by exists []|].
  destruct (fits_small m off l Hm Hf Hl) as (_ & -> & _ & -> & _). destruct Hf as (H1 & H2 & H3). unfold Memory_Get.
  rewrite (proj2 (Z.eqb_neq l 0)), (proj2 (Z.ltb_lt off _)), (proj2 (Z.leb_le 0 off)), (proj2 (Z.leb_le 0 l)), (proj2 (Z.leb_le (off + l) _)) by lia.
  eexists. split; [done|]. split; [apply Forall_take, Forall_drop, Hm|]. destruct Hm as [_ Hm]. unfold Memory_Len in *.
  rewrite length_take, length_drop. lia.
Qed.

Lemma copy_into_fits store off e value :
  0 ≤ off → off ≤ e → e ≤ Z.of_nat (length store) → Forall byte_ok store → Forall byte_ok value →
  ∃ store', copy_into store off e value = Some store' ∧ Forall byte_ok store' ∧ length store' = length store.
Proof.
  intros H1 H2 H3 Hs Hv. unfold copy_into.
  rewrite (proj2 (Z.leb_le 0 off)), (proj2 (Z.leb_le off e)), (proj2 (Z.leb_le e _)) by lia. eexists. split; [done|]. split.
  - apply Forall_app. split; [by apply Forall_take|]. apply Forall_app. split; [by apply Forall_take|by apply Forall_drop].
  - rewrite !length_app, length_drop, !length_take. lia.
Qed.

Lemma set_fits m off l value : mem_ok m → fits m off l → Forall byte_ok value →
  ∃ m', Memory_Set m (Big_Uint64 off) (Big_Uint64 l) value = Some m' ∧ mem_ok m' ∧ Memory_Len m' = Memory_Len m.
Proof.
  intros Hm Hf Hv. destruct (decide (l = 0)) as [->|Hl]; [by exists m|].
  destruct (fits_small m off l Hm Hf Hl) as (-> & _ & -> & _ & Ea). destruct Hf as (H1 & H2 & H3). unfold Memory_Set.
  rewrite (proj2 (Z.ltb_lt 0 l)), Ea, (proj2 (Z.ltb_ge (Memory_Len m) _)) by lia.
  destruct (copy_into_fits (me_store m) off (off + l) value) as (store' & E & Hs & El); try done; [lia|unfold Memory_Len in *; lia|apply Hm|].
  rewrite E. cbn. eexists. split; [done|]. unfold mem_ok, Memory_Len in *. upd. rewrite El. split; [|done]. split; [done|apply Hm].
Qed.

Lemma ReadBits_ok n x : 0 ≤ x → Forall byte_ok (ReadBits x (replicate n 0)).
Proof.
  intros Hx. unfold ReadBits. destruct (Big_Bits_words x Hx) as (k & -> & _). rewrite readWords_spec.
  apply Forall_app. split; [apply Forall_take, Forall_replicate; by split|]. rewrite app_nil_r. apply be_bytes_ok.
Qed.

Lemma set32_fits m off val : mem_ok m → fits m off 32 → 0 ≤ val →
  ∃ m', Memory_Set32 m (Big_Uint64 off) val = Some m' ∧ mem_ok m' ∧ Memory_Len m' = Memory_Len m.
Proof.
  intros Hm Hf Hv. destruct (fits_small m off 32 Hm Hf) as (-> & _ & _ & _ & Ea); [done|]. destruct Hf as (H1 & H2 & H3).
  unfold Memory_Set32. rewrite Ea, (proj2 (Z.ltb_ge (Memory_Len m) _)) by lia.
  destruct (copy_into_fits (me_store m) off (off + 32) (ReadBits val (replicate 32 0))) as (store' & E & Hs & El);
    [done|lia|unfold Memory_Len in *; lia|apply Hm|by apply ReadBits_ok|].
  rewrite E. cbn. eexists. split; [done|]. unfold mem_ok, Memory_Len in *. upd. rewrite El. split; [|done]. split; [done|apply Hm].
Qed.

Lemma setbyte_fits m off b : mem_ok m → fits m off 1 → byte_ok b →
  ∃ m', Memory_SetByte m (Big_Int64 off) b = Some m' ∧ mem_ok m' ∧ Memory_Len m' = Memory_Len m.
Proof.
  intros Hm Hf Hb. destruct (fits_small m off 1 Hm Hf) as (_ & -> & _); [done|]. destruct Hf as (H1 & _ & H3).
  unfold Memory_SetByte. rewrite (proj2 (Z.leb_le 0 off)), (proj2 (Z.ltb_lt off _)) by lia. cbn. eexists. split; [done|].
  unfold mem_ok, Memory_Len in *. upd. rewrite length_insert. split; [|done]. split; [|apply Hm]. apply Forall_insert; [apply Hm|done].
Qed.

Lemma Resize_ok m size : mem_ok m → size ≤ 2 ^ 41 →
  mem_ok (Resize m size) ∧ Memory_Len (Resize m size) = Z.max (Memory_Len m) size.
Proof.
  intros [H1 H2] Hs. unfold Resize. destruct (Z.ltb_spec (Memory_Len m) size) as [Hl|Hl].
  - unfold mem_ok, Memory_Len in *. upd. rewrite length_app, length_replicate.
    split; [|lia]. split; [|lia]. apply Forall_app. split; [done|]. apply Forall_replicate. by split.
  - split; [done|]. lia.
Qed.

Lemma fits_more m m' off l : fits m off l → Memory_Len m ≤ Memory_Len m' → fits m' off l.
Proof. unfold fits. lia. Qed.

(** ** The fee in total *)

(** The sizes that a run of instructions asks for, one after the other: each is paid for
    and then the memory grows to it. *)
Fixpoint expand (mem : Memory) (sizes : list Z) : option (Z * Memory) :=
  match sizes with
  | [] => Some (0, mem)
  | n :: sizes =>
      '(fee, mem) ← memoryGasCost mem n;
      '(rest, mem) ← expand (Resize mem (toWordSize n * 32)) sizes;
      Some (fee + rest, mem)
  end.

Definition memory_fee (words : Z) : Z := MemoryGas * words + (words * words) `div` QuadCoeffDiv.

Definition paid (mem : Memory) (words : Z) : Prop :=
  mem_ok mem ∧ Memory_Len mem = words * 32 ∧ me_lastGasCost mem = memory_fee words.

Lemma toWordSize_small n : 0 ≤ n ≤ 2 ^ 41 → toWordSize n = (n + 31) `div` 32.
Proof. intros H. unfold toWordSize. case_cmp; [lia|]. by rewrite add64_id by (unfold is_u64; lia). Qed.

Lemma memory_fee_range w : 0 ≤ w < 2 ^ 32 → 0 ≤ memory_fee w < 2 ^ 60.
Proof.
  intros H. unfold memory_fee, MemoryGas, QuadCoeffDiv.
  assert (0 ≤ w * w ≤ 2 ^ 32 * 2 ^ 32) by nia. assert (0 ≤ (w * w) `div` 512 ≤ 2 ^ 55).
  { split; [apply Z.div_pos; lia|]. apply Z.div_le_upper_bound; lia. }
  lia.
Qed.

Lemma memory_fee_mono v w : 0 ≤ v ≤ w → memory_fee v ≤ memory_fee w.
Proof.
  intros H. unfold memory_fee, MemoryGas, QuadCoeffDiv.
  assert ((v * v) `div` 512 ≤ (w * w) `div` 512) by (apply Z.div_le_mono; nia). lia.
Qed.

(** One size: the memory and what has been paid for it are those of the larger. *)
Lemma memoryGasCost_fee mem v n : paid mem v → 0 ≤ v < 2 ^ 32 → 0 ≤ n ≤ 2 ^ 37 - 32 →
  let w := Z.max v (toWordSize n) in
  ∃ mem', memoryGasCost mem n = Some (memory_fee w - memory_fee v, mem') ∧ paid (Resize mem' (toWordSize n * 32)) w.
Proof.
  intros (Hm & Hl & Hf) Hv Hn w. pose proof (toWordSize_small n ltac:(lia)) as Ew.
  assert (Hw : 0 ≤ toWordSize n < 2 ^ 32) by (rewrite Ew; split; [apply Z.div_pos; lia | apply Z.div_lt_upper_bound; lia]).
  unfold memoryGasCost. destruct (Z.eqb_spec n 0) as [->|Hn0].
  { exists mem. change (toWordSize 0) with 0 in *. replace w with v by (unfold w; lia). rewrite Z.sub_diag. split; [done|].
    unfold Resize. case_cmp; [lia|done]. }
  case_cmp; [lia|]. unfold mul64 at 1. rewrite u64_id by (unfold is_u64; lia).
  destruct (Z.ltb_spec (Memory_Len mem) (toWordSize n * 32)) as [Hg|Hg].
  - replace w with (toWordSize n) by (unfold w; lia).
    assert (Hfee : add64 (mul64 (toWordSize n) MemoryGas) (mul64 (toWordSize n) (toWordSize n) `div` QuadCoeffDiv) = memory_fee (toWordSize n)).
    { pose proof (memory_fee_range _ Hw) as Hr. unfold memory_fee in *. rewrite !mul64_id by (unfold is_u64, MemoryGas; nia).
      rewrite add64_id by (unfold is_u64; lia). lia. }
    rewrite Hfee, Hf. set (mem1 := mem <| me_lastGasCost := memory_fee (toWordSize n) |>).
    destruct (Resize_ok mem1 (toWordSize n * 32) Hm ltac:(lia)) as [Hok Hlen].
    exists mem1. split; [|split; [exact Hok|split]].
    + rewrite sub64_id; [reflexivity|]. pose proof (memory_fee_range _ Hw). pose proof (memory_fee_range _ Hv).
      pose proof (memory_fee_mono v (toWordSize n) ltac:(lia)). unfold is_u64. lia.
    + rewrite Hlen. unfold mem1, Memory_Len in *. upd. lia.
    + unfold Resize. destruct (_ <? _); unfold mem1; by upd.
  - replace w with v by (unfold w; lia). exists mem. rewrite Z.sub_diag. split; [done|].
    unfold Resize. rewrite (proj2 (Z.ltb_ge _ _)) by done. done.
Qed.

Definition most_words (sizes : list Z) (v : Z) : Z := foldl (λ w n, Z.max w (toWordSize n)) v sizes.

Lemma expand_fee sizes : ∀ mem v, paid mem v → 0 ≤ v < 2 ^ 32 → Forall (λ n, 0 ≤ n ≤ 2 ^ 37 - 32) sizes →
  ∃ mem', expand mem sizes = Some (memory_fee (most_words sizes v) - memory_fee v, mem') ∧ paid mem' (most_words sizes v).
Proof.
  induction sizes as [|n sizes IH]; intros mem v Hp Hv Hs; cbn [expand most_words foldl].
  - exists mem. by rewrite Z.sub_diag.
  - apply Forall_cons in Hs as [Hn Hs]. destruct (memoryGasCost_fee mem v n Hp Hv Hn) as (mem1 & E1 & P1). cbn zeta in *.
    assert (Hw : 0 ≤ toWordSize n < 2 ^ 32).
    { rewrite toWordSize_small by lia. split; [apply Z.div_pos; lia | apply Z.div_lt_upper_bound; lia]. }
    destruct (IH _ (Z.max v (toWordSize n)) P1 ltac:(lia) Hs) as (mem2 & E2 & P2).
    exists mem2. rewrite E1. cbn [mbind option_bind]. rewrite E2. cbn [mbind option_bind]. split; [|done].
    f_equal. f_equal. unfold most_words. lia.
Qed.

(** The price of memory does not depend on the order or the number of the instructions
    that use it: whatever sizes they ask for, below 128 GiB, their fees add up to
    3 w + w^2 / 512, where w is the size in words that the memory has in the end. *)
Theorem memory_fee_total sizes : Forall (λ n, 0 ≤ n ≤ 2 ^ 37 - 32) sizes →
  ∃ mem, expand NewMemory sizes = Some (memory_fee (most_words sizes 0), mem) ∧
    Memory_Len mem = most_words sizes 0 * 32.
Proof.
  intros Hs. destruct (expand_fee sizes NewMemory 0) as (mem & E & (_ & Hl & _)); [|done..|].
  - split; [|done]. split; [constructor|by vm_compute].
  - exists mem. change (memory_fee 0) with 0 in E. by rewrite Z.sub_0_r in E.
Qed.

Lemma memory_fee_total_witness :
  ∃ mem, expand NewMemory [100; 32; 3200; 64] = Some (319, mem) ∧ Memory_Len mem = 3200.
Proof. apply (memory_fee_total [100; 32; 3200; 64]). repeat constructor; by vm_compute. Defined.

(** The bound is not the one in the code: above it, the square wraps around. *)
Lemma memory_fee_wraps : fst <$> memoryGasCost NewMemory (2 ^ 37) = Some (MemoryGas * 2 ^ 32).
Proof. by vm_compute. Qed.
