(* ===== verification/EvmState.v ===== *)
(** * EvmState: the environment of the virtual machine

    The data the interpreter works on (src/core/vm/evm.go, contract.go, interpreter.go,
    src/params), the monad its code is written in, and its access to the state.  The Go
    errors of the virtual machine are values; a panic of Go and the end of the fuel of
    the model are outcomes of their own. *)

From S2P Require Import Prelude Bytes Crypto StateDB EvmWord EvmCode EvmMemory.

Local Open Scope Z_scope.

(** ** Rules and prices (src/params) *)

Record Rules := mkRules {
  IsHomestead : bool; IsEIP150 : bool; IsEIP158 : bool; IsByzantium : bool;
  IsConstantinople : bool; IsPetersburg : bool
}.

Record GasTable := mkGasTable {
  gt_ExtcodeSize : Z; gt_ExtcodeCopy : Z; gt_ExtcodeHash : Z; gt_Balance : Z; gt_SLoad : Z;
  gt_Calls : Z; gt_Suicide : Z; gt_ExpByte : Z; gt_CreateBySuicide : Z
}.

Definition GasTableHomestead : GasTable := mkGasTable 20 20 0 20 50 40 0 10 0.
Definition GasTableEIP150 : GasTable := mkGasTable 700 700 0 400 200 700 5000 10 25000.
Definition GasTableEIP158 : GasTable := mkGasTable 700 700 0 400 200 700 5000 50 25000.
Definition GasTableConstantinople : GasTable := mkGasTable 700 700 400 400 200 700 5000 50 25000.

Definition GasTableOf (r : Rules) : GasTable :=
  if IsConstantinople r then GasTableConstantinople
  else if IsEIP158 r then GasTableEIP158
  else if IsEIP150 r then GasTableEIP150
  else GasTableHomestead.

Definition CallValueTransferGas : Z := 9000.
Definition CallNewAccountGas : Z := 25000.
Definition CallStipend : Z := 2300.
Definition LogGas : Z := 375.
Definition LogTopicGas : Z := 375.
Definition LogDataGas : Z := 8.
Definition Sha3Gas : Z := 30.
Definition Sha3WordGas : Z := 6.
Definition SstoreSetGas : Z := 20000.
Definition SstoreResetGas : Z := 5000.
Definition SstoreClearGas : Z := 5000.
Definition SstoreRefundGas : Z := 15000.
Definition NetSstoreNoopGas : Z := 200.
Definition NetSstoreInitGas : Z := 20000.
Definition NetSstoreCleanGas : Z := 5000.
Definition NetSstoreDirtyGas : Z := 200.
Definition NetSstoreClearRefund : Z := 15000.
Definition NetSstoreResetRefund : Z := 4800.
Definition NetSstoreResetClearRefund : Z := 19800.
Definition JumpdestGas : Z := 1.
Definition CreateDataGas : Z := 200.
Definition CallCreateDepth : Z := 1024.
Definition CopyGas : Z := 3.
Definition CreateGas : Z := 32000.
Definition Create2Gas : Z := 32000.
Definition SuicideRefundGas : Z := 24000.
Definition MaxCodeSize : Z := 24576.
Definition Sha256BaseGas : Z := 60.
Definition Sha256PerWordGas : Z := 12.

Definition GasQuickStep : Z := 2.
Definition GasFastestStep : Z := 3.
Definition GasFastStep : Z := 5.
Definition GasMidStep : Z := 8.
Definition GasSlowStep : Z := 10.
Definition GasExtStep : Z := 20.

(** ** Errors (errors.go, instructions.go, interpreter.go) *)

Inductive vmerror :=
| ErrOutOfGas
| ErrCodeStoreOutOfGas
| ErrDepth
| ErrInsufficientBalance
| ErrContractAddressCollision
| errWriteProtection
| errReturnDataOutOfBounds
| errExecutionReverted
| errMaxCodeSizeExceeded
| errGasUintOverflow
| errStackUnderflow (len n : Z)
| errStackLimit (len : Z)
| errInvalidOpcode (op : Z)
| errInvalidJump (nop pos : Z)
| errPrecompiled.                     (* of a precompiled contract *)

#[global] Instance vmerror_eq : EqDecision vmerror.
Proof. solve_decision. Defined.

(** ** Contracts (contract.go) *)

(** The caller of a contract; of a contract only what [AsDelegate] reads is kept. *)
Inductive ContractRef :=
| AccountRef (addr : Address)
| ContractCaller (self callerAddress : Address) (value : Z).

Definition ContractRef_Address (r : ContractRef) : Address :=
  match r with AccountRef a | ContractCaller a _ _ => a end.

Record Contract := mkContract {
  ct_CallerAddress : Address;
  ct_caller : ContractRef;
  ct_self : Address;
  ct_Code : bytes;
  ct_CodeHash : Hash;
  ct_CodeAddr : option Address;
  ct_Input : bytes;
  ct_Gas : Z;
  ct_value : Z
}.
#[global] Instance Contract_fields : Fields Contract := λ c,
  mkContract (ct_CallerAddress c) (ct_caller c) (ct_self c) (ct_Code c) (ct_CodeHash c)
    (ct_CodeAddr c) (ct_Input c) (ct_Gas c) (ct_value c).

Definition NewContract (caller : ContractRef) (object : Address) (value gas : Z) : Contract :=
  mkContract (ContractRef_Address caller) caller object [] 0 None [] gas value.

Definition AsDelegate (c : Contract) : option Contract :=
  match ct_caller c with
  | ContractCaller _ callerAddress value => Some (c <| ct_CallerAddress := callerAddress |> <| ct_value := value |>)
  | AccountRef _ => None
  end.

Definition SetCallCode (c : Contract) (addr : Address) (hash : Hash) (code : bytes) : Contract :=
  c <| ct_Code := code |> <| ct_CodeHash := hash |> <| ct_CodeAddr := Some addr |>.

Definition UseGas (c : Contract) (gas : Z) : bool * Contract :=
  if ct_Gas c <? gas then (false, c) else (true, c <| ct_Gas ::= λ g, g - gas |>).

(** The contract as the caller of another one. *)
Definition as_caller (c : Contract) : ContractRef := ContractCaller (ct_self c) (ct_CallerAddress c) (ct_value c).

(** Code and data as Go has them: a slice of bytes. *)
Definition code_ok (c : bytes) : Prop := Forall byte_ok c ∧ Z.of_nat (length c) < 2 ^ 62.

(** ** The surroundings *)

(** [Context]: the block and the transaction; hashes and seeds of earlier blocks. *)
Record VmContext := mkVmContext {
  vc_Origin : Address;
  vc_GasPrice : Z;
  vc_Coinbase : Address;
  vc_GasLimit : Z;
  vc_BlockNumber : Z;
  vc_Time : Z;
  vc_Difficulty : Z;
  vc_TxHash : Hash;
  vc_GetHash : Z → Hash;
  vc_GetSeed : Z → Z
}.

(** What the machine relies on of the precompiled contracts, which are in
    EvmPrecompiled.v.  The first argument says whether the Byzantium set is active; a
    result [None] is a panic. *)
Record Precompiled := mkPrecompiled { pc_RequiredGas : bytes → Z; pc_Run : bytes → option (bytes + unit) }.
Class Precompiles := {
  PrecompiledContracts : bool → Address → option Precompiled;
  PrecompiledGas : ∀ b a p input, PrecompiledContracts b a = Some p → is_u64 (pc_RequiredGas p input);
  PrecompiledRun : ∀ b a p input ret, PrecompiledContracts b a = Some p → code_ok input →
    pc_Run p input = Some (inl ret) → code_ok ret
}.

(** Configuration of the interpreter; tracing is not modelled. *)
Record VmConfig := mkVmConfig { NoRecursion : bool; EnablePreimageRecording : bool }.

(** ** The monad *)

Section state.
Context `{CR : Crypto} `{SD : StateDatabase}.

(** The parts of [EVM] and [EVMInterpreter] that change. *)
Record EVM := mkEVM {
  ev_StateDB : StateDB;
  ev_depth : Z;
  ev_callGasTemp : Z;
  ev_readOnly : bool;
  ev_returnData : bytes;
  ev_seeds : Z                         (* calls of [GetSeed] *)
}.
#[global] Instance EVM_fields : Fields EVM := λ e,
  mkEVM (ev_StateDB e) (ev_depth e) (ev_callGasTemp e) (ev_readOnly e) (ev_returnData e) (ev_seeds e).

(** Panics that a message can cause: a precompiled contract that panics on the input it
    is given, and the counter of refunds that would go below zero. *)
Inductive fault :=
| contractFault (p : Precompiled) (input : bytes)
| refundFault.

Inductive exec (A : Type) :=
| Done (a : A) (e : EVM)
| Panics
| Crashes (w : fault)
| NoFuel.
#[global] Arguments Done {A} _ _.
#[global] Arguments Panics {A}.
#[global] Arguments Crashes {A} _.
#[global] Arguments NoFuel {A}.

Definition X (A : Type) : Type := EVM → exec A.

#[global] Instance X_ret : MRet X := λ A a e, Done a e.
#[global] Instance X_bind : MBind X := λ A B k m e,
  match m e with Done a e => k a e | Panics => Panics | Crashes w => Crashes w | NoFuel => NoFuel end.

Definition gets {A : Type} (f : EVM → A) : X A := λ e, Done (f e) e.
Definition modify (f : EVM → EVM) : X unit := λ e, Done tt (f e).
Definition orPanic {A : Type} (o : option A) : X A := λ e, match o with Some a => Done a e | None => Panics end.

(** Operations of the state. *)
Definition reading {A : Type} (f : StateDB → A * StateDB) : X A := λ e,
  let '(a, d) := f (ev_StateDB e) in Done a (e <| ev_StateDB := d |>).
Definition writing (f : StateDB → StateDB) : X unit := modify (λ e, e <| ev_StateDB ::= f |>).
Definition attempting (f : StateDB → option StateDB) : X unit := λ e,
  match f (ev_StateDB e) with Some d => Done tt (e <| ev_StateDB := d |>) | None => Panics end.

Definition subtracting (gas : Z) : X unit := λ e,
  match SubRefund gas (ev_StateDB e) with Some d => Done tt (e <| ev_StateDB := d |>) | None => Crashes refundFault end.

(** src/core/evm.go *)
Definition CanTransfer (addr : Address) (amount : Z) : X bool :=
  balance ← reading (GetBalance addr); mret (amount <=? balance).
Definition Transfer (sender recipient : Address) (amount : Z) : X unit :=
  writing (SubBalance sender amount);; writing (AddBalance recipient amount).

(** src/crypto/crypto.go *)
Definition CreateAddress (b : Address) (nonce : Z) : Address :=
  BytesToAddress (drop 12 (Hash_Bytes (keccak256 (rlp_list [RArr (Address_Bytes b); RUint nonce])))).
Definition CreateAddress2 (b : Address) (salt : Hash) (inithash : bytes) : Address :=
  BytesToAddress (drop 12 (Hash_Bytes (keccak256 ([0xff] ++ Address_Bytes b ++ Hash_Bytes salt ++ inithash)))).
End state.

Definition Address_Big (a : Address) : Z := be_int (Address_Bytes a).
Definition BigToAddress (x : Z) : Address := BytesToAddress (big_bytes x).
