(* ===== verification/EvmGas.v ===== *)
(** * EvmGas: the prices of the instructions (src/core/vm/gas_table.go, gas.go)

    A price is computed from the contract, the stack, the memory and the size the memory
    is to have; [None] is an error, which the interpreter turns into [ErrOutOfGas].  The
    arithmetic is that of [uint64] with the overflow checks of the source. *)

From S2P Require Import Prelude Bytes Crypto StateDB EvmWord EvmCode EvmMemory EvmState.

Local Open Scope Z_scope.

Definition safeAdd (x y : Z) : option Z := let '(z, overflow) := SafeAdd x y in if overflow then None else Some z.
Definition safeMul (x y : Z) : option Z := let '(z, overflow) := SafeMul x y in if overflow then None else Some z.

(** [callGas]: all but a 64th of what is available, or what is asked for. *)
Definition callGas (gasTable : GasTable) (availableGas base callCost : Z) : option Z :=
  let capped :=
    if 0 <? gt_CreateBySuicide gasTable then
      let availableGas := sub64 availableGas base in
      let gas := sub64 availableGas (availableGas `div` 64) in
      if (64 <? BitLen callCost) || (gas <? Big_Uint64 callCost) then Some gas else None
    else None in
  match capped with
  | Some gas => Some gas
  | None => if 64 <? BitLen callCost then None else Some (Big_Uint64 callCost)
  end.

Section gas.
Context `{CR : Crypto} `{SD : StateDatabase} (db : Database) (rules : Rules).

Abbreviation gt := (GasTableOf rules).

Definition gasFunc : Type := Contract → Stack → Memory → Z → X (option (Z * Memory)).

Definition constGasFunc (gas : Z) : gasFunc := λ _ _ mem _, mret (Some (gas, mem)).

(** Memory, a base price and a price for every word of the [n]-th operand. *)
Definition wordGasFunc (base price : Z) (n : nat) : gasFunc := λ _ st mem memorySize,
  len ← orPanic (Back st n);
  mret ('(gas, mem) ← memoryGasCost mem memorySize;
        gas ← safeAdd gas base;
        words ← bigUint64 len;
        wordGas ← safeMul (toWordSize words) price;
        gas ← safeAdd gas wordGas;
        Some (gas, mem)).
Definition gasCallDataCopy : gasFunc := wordGasFunc GasFastestStep CopyGas 2.
Definition gasReturnDataCopy : gasFunc := wordGasFunc GasFastestStep CopyGas 2.
Definition gasCodeCopy : gasFunc := wordGasFunc GasFastestStep CopyGas 2.
Definition gasExtCodeCopy : gasFunc := wordGasFunc (gt_ExtcodeCopy gt) CopyGas 3.
Definition gasSha3 : gasFunc := wordGasFunc Sha3Gas Sha3WordGas 1.
Definition gasCreate2 : gasFunc := wordGasFunc Create2Gas Sha3WordGas 2.

(** Memory and a base price. *)
Definition memoryGasFunc (base : Z) : gasFunc := λ _ _ mem memorySize,
  mret ('(gas, mem) ← memoryGasCost mem memorySize;
        gas ← safeAdd gas base;
        Some (gas, mem)).
Definition gasMLoad : gasFunc := memoryGasFunc GasFastestStep.
Definition gasMStore8 : gasFunc := memoryGasFunc GasFastestStep.
Definition gasMStore : gasFunc := memoryGasFunc GasFastestStep.
Definition gasCreate : gasFunc := memoryGasFunc CreateGas.

Definition gasReturn : gasFunc := λ _ _ mem memorySize, mret (memoryGasCost mem memorySize).

Definition gasRevert : gasFunc := gasReturn.

Definition makeGasLog (n : Z) : gasFunc := λ _ st mem memorySize,
  size ← orPanic (Back st 1);
  mret (requestedSize ← bigUint64 size;
        '(gas, mem) ← memoryGasCost mem memorySize;
        gas ← safeAdd gas LogGas;
        gas ← safeAdd gas (mul64 n LogTopicGas);
        memorySizeGas ← safeMul requestedSize LogDataGas;
        gas ← safeAdd gas memorySizeGas;
        Some (gas, mem)).

Definition gasExtCodeHash : gasFunc := constGasFunc (gt_ExtcodeHash gt).
Definition gasBalance : gasFunc := constGasFunc (gt_Balance gt).
Definition gasExtCodeSize : gasFunc := constGasFunc (gt_ExtcodeSize gt).
Definition gasSLoad : gasFunc := constGasFunc (gt_SLoad gt).

Definition gasExp : gasFunc := λ _ st mem _,
  e ← orPanic (Back st 1);
  let expByteLen := (BitLen e + 7) `div` 8 in
  mret (gas ← safeAdd (mul64 expByteLen (gt_ExpByte gt)) GasSlowStep; Some (gas, mem)).

(** The net metering of EIP-1283; [SubRefund] panics below zero. *)
Definition netSStore (addr : Address) (key current value : Hash) : X Z :=
  if current =? value then mret NetSstoreNoopGas
  else
    original ← reading (GetCommittedState db addr key);
    if original =? current then
      if original =? 0 then mret NetSstoreInitGas
      else
        (if value =? 0 then writing (AddRefund NetSstoreClearRefund) else mret tt);;
        mret NetSstoreCleanGas
    else
      (if negb (original =? 0) then
         if current =? 0 then subtracting NetSstoreClearRefund
         else if value =? 0 then writing (AddRefund NetSstoreClearRefund)
         else mret tt
       else mret tt);;
      (if original =? value then
         if original =? 0 then writing (AddRefund NetSstoreResetClearRefund)
         else writing (AddRefund NetSstoreResetRefund)
       else mret tt);;
      mret NetSstoreDirtyGas.

Definition gasSStore : gasFunc := λ contract st mem _,
  y ← orPanic (Back st 1);
  x ← orPanic (Back st 0);
  current ← reading (GetState db (ct_self contract) (BigToHash x));
  if IsPetersburg rules || negb (IsConstantinople rules) then
    if (current =? 0) && negb (y =? 0) then mret (Some (SstoreSetGas, mem))
    else if negb (current =? 0) && (y =? 0) then
      writing (AddRefund SstoreRefundGas);; mret (Some (SstoreClearGas, mem))
    else mret (Some (SstoreResetGas, mem))
  else
    gas ← netSStore (ct_self contract) (BigToHash x) current (BigToHash y);
    mret (Some (gas, mem)).

(** The end of the prices of calls: memory and the gas of the callee, which is left in
    [callGasTemp]. *)
Definition withCallGas (gas : Z) (contract : Contract) (st : Stack) (mem : Memory) (memorySize : Z) :
    X (option (Z * Memory)) :=
  asked ← orPanic (Back st 0);
  match ('(memoryGas, mem) ← memoryGasCost mem memorySize;
         gas ← safeAdd gas memoryGas;
         Some (gas, mem)) with
  | None => mret None
  | Some (gas, mem) =>
      let cg := callGas gt (ct_Gas contract) gas asked in
      modify (λ e : EVM, e <| ev_callGasTemp := default 0 cg |>);;
      mret (cg ← cg; gas ← safeAdd gas cg; Some (gas, mem))
  end.

Definition gasCall : gasFunc := λ contract st mem memorySize,
  value ← orPanic (Back st 2);
  addr ← orPanic (Back st 1);
  let transfersValue := negb (value =? 0) in
  let address := BigToAddress addr in
  new ← ((if IsEIP158 rules then
            if transfersValue then reading (StateDB.Empty address) else mret false
          else ex ← reading (Exist address); mret (negb (ex : bool))) : X bool);
  let gas := gt_Calls gt + (if (new : bool) then CallNewAccountGas else 0)
             + (if transfersValue then CallValueTransferGas else 0) in
  withCallGas gas contract st mem memorySize.

Definition gasCallCode : gasFunc := λ contract st mem memorySize,
  value ← orPanic (Back st 2);
  withCallGas (gt_Calls gt + (if value =? 0 then 0 else CallValueTransferGas)) contract st mem memorySize.

Definition gasDelegateCall : gasFunc := λ contract st mem memorySize,
  withCallGas (gt_Calls gt) contract st mem memorySize.
Definition gasStaticCall : gasFunc := gasDelegateCall.

Definition gasSuicide : gasFunc := λ contract st mem _,
  addr ← orPanic (Back st 0);
  let address := BigToAddress addr in
  gas ← ((if IsEIP150 rules then
            new ← ((if IsEIP158 rules then
                      empty ← reading (StateDB.Empty address);
                      if (empty : bool) then balance ← reading (GetBalance (ct_self contract)); mret (negb (balance =? 0))
                      else mret false
                    else ex ← reading (Exist address); mret (negb (ex : bool))) : X bool);
            mret (gt_Suicide gt + (if (new : bool) then gt_CreateBySuicide gt else 0))
          else mret 0) : X Z);
  suicided ← reading (HasSuicided (ct_self contract));
  (if negb suicided then writing (AddRefund SuicideRefundGas) else mret tt);;
  mret (Some (gas, mem)).

Definition gasPush : gasFunc := constGasFunc GasFastestStep.
Definition gasSwap : gasFunc := constGasFunc GasFastestStep.
Definition gasDup : gasFunc := constGasFunc GasFastestStep.
End gas.
