(* ===== verification/EvmCall.v ===== *)
(** * EvmCall: calls and contract creation (src/core/vm/evm.go)

    Every kind of call takes a snapshot, runs the code through the interpreter it is
    given, and reverts on an error.  Also the registry of contract creators
    (contract_creator.go) and the precompiled contracts of Kaleido
    (PreCompileContract.go). *)

From S2P Require Import Prelude Bytes Crypto StateDB EvmWord EvmCode EvmMemory EvmState.

Local Open Scope Z_scope.

Definition CreatorAddress : Address := 0x1000000000000000000000000000000000000001.

Section calls.
Context `{CR : Crypto} `{SD : StateDatabase} `{PC : Precompiles} (db : Database) (cx : VmContext) (rules : Rules) (cfg : VmConfig).

(** ** contract_creator.go *)

Definition CreatorSlotKey (contractAddr : Address) : Hash :=
  keccak256 (Hash_Bytes (Address_Hash contractAddr) ++ Hash_Bytes 0).
Definition GetContractCreator (contractAddr : Address) : X Address :=
  h ← reading (GetState db CreatorAddress (CreatorSlotKey contractAddr));
  mret (BytesToAddress (Hash_Bytes h)).
Definition getCreatorOrSelf (addr : Address) : X Address :=
  creator ← GetContractCreator addr;
  mret (if creator =? 0 then addr else creator).
Definition setContractCreator (contractAddr creator : Address) : X unit :=
  realCreator ← getCreatorOrSelf creator;
  writing (SetState db CreatorAddress (CreatorSlotKey contractAddr) (Address_Hash realCreator)).
Definition deleteFromCreator (contractAddr : Address) : X unit := setContractCreator contractAddr 0.

(** ** Precompiled contracts *)

(** What running a contract gives: the returned bytes, the error and the contract. *)
Definition outcome : Type := bytes * option vmerror * Contract.

Definition RunPrecompiledContract (p : Precompiled) (input : bytes) (contract : Contract) : X outcome :=
  let '(ok, contract) := UseGas contract (pc_RequiredGas p input) in
  if ok then
    match pc_Run p input with
    | Some (inl ret) => mret (ret, None, contract)
    | Some (inr _) => mret ([], Some errPrecompiled, contract)
    | None => λ _, Crashes (contractFault p input)
    end
  else mret ([], Some ErrOutOfGas, contract).

Definition GetSeed (n : Z) : X (Z * Z) :=
  modify (λ e : EVM, e <| ev_seeds ::= λ n, add64 n 1 |>);;
  num ← gets ev_seeds;
  mret (vc_GetSeed cx n, num).

Inductive KalPrecompiled := getSeed | getRand.
Definition KalPrecompiledContracts (addr : Address) : option KalPrecompiled :=
  if addr =? 100 then Some getSeed else if addr =? 101 then Some getRand else None.

Definition Kal_RequiredGas (p : KalPrecompiled) (input : bytes) : Z :=
  match p with
  | getSeed => GasExtStep
  | getRand => (4 + 32 + 32 + Z.of_nat (length input) + 31) `div` 32 * Sha256PerWordGas + Sha256BaseGas
  end.

Definition Kal_Run (p : KalPrecompiled) (input : bytes) : X bytes :=
  match p with
  | getSeed =>
      '(seed, _) ← GetSeed (Big_Uint64 (be_int input));
      mret (Hash_Bytes seed)
  | getRand =>
      '(seed, seq) ← GetSeed (Big_Uint64 (vc_BlockNumber cx));
      mret (Hash_Bytes (sha512_256 (be_bytes 4 (u32 seq) ++ Hash_Bytes (vc_TxHash cx) ++ Hash_Bytes seed ++ input)))
  end.

Definition RunXblonePrecompiledContract (p : KalPrecompiled) (input : bytes) (contract : Contract) : X outcome :=
  let '(ok, contract) := UseGas contract (Kal_RequiredGas p input) in
  if ok then ret ← Kal_Run p input; mret (ret, None, contract)
  else mret ([], Some ErrOutOfGas, contract).

(** ** Calls, above an interpreter *)

Context (interpret : Contract → bytes → bool → X outcome).

Definition run (contract : Contract) (input : bytes) (readOnly : bool) : X outcome :=
  match (addr ← ct_CodeAddr contract; PrecompiledContracts (IsByzantium rules) addr) with
  | Some p => RunPrecompiledContract p input contract
  | None =>
      match (addr ← ct_CodeAddr contract; KalPrecompiledContracts addr) with
      | Some p => RunXblonePrecompiledContract p input contract
      | None => interpret contract input readOnly
      end
  end.

(** The code of an account is put into the contract. *)
Definition withCode (contract : Contract) (addr : Address) : X Contract :=
  hash ← reading (GetCodeHash addr);
  code ← reading (GetCode db addr);
  mret (SetCallCode contract addr hash (default [] code)).

(** The end of every call: an error reverts the state and, unless it is a revert, takes
    the remaining gas. *)
Definition finishCall (snapshot : Z) (r : outcome) : X (bytes * Z * option vmerror) :=
  let '(ret, err, contract) := r in
  match err with
  | None => mret (ret, ct_Gas contract, None)
  | Some e =>
      attempting (RevertToSnapshot snapshot);;
      let contract := if decide (e = errExecutionReverted) then contract
                      else (UseGas contract (ct_Gas contract)).2 in
      mret (ret, ct_Gas contract, Some e)
  end.

(** The guard at the start of every call: [Some] is what it returns at once. *)
Definition callGuard : X (option (option vmerror)) :=
  depth ← gets ev_depth;
  mret (if NoRecursion cfg && (0 <? depth) then Some None
        else if CallCreateDepth <? depth then Some (Some ErrDepth)
        else None).

Definition Call (caller : ContractRef) (addr : Address) (input : bytes) (gas value : Z) :
    X (bytes * Z * option vmerror) :=
  guard ← callGuard;
  match guard with
  | Some err => mret ([], gas, err)
  | None =>
      ok ← CanTransfer (ContractRef_Address caller) value;
      if negb ok then mret ([], gas, Some ErrInsufficientBalance)
      else
        snapshot ← reading Snapshot;
        exist ← reading (Exist addr);
        if negb exist && negb (returns (PrecompiledContracts (IsByzantium rules) addr))
           && IsEIP158 rules && (value =? 0)
        then mret ([], gas, None)
        else
          (if negb exist then writing (CreateAccount addr) else mret tt);;
          Transfer (ContractRef_Address caller) addr value;;
          contract ← withCode (NewContract caller addr value gas) addr;
          r ← run contract input false;
          finishCall snapshot r
  end.

Definition CallCode (caller : ContractRef) (addr : Address) (input : bytes) (gas value : Z) :
    X (bytes * Z * option vmerror) :=
  guard ← callGuard;
  match guard with
  | Some err => mret ([], gas, err)
  | None =>
      ok ← CanTransfer (ContractRef_Address caller) value;
      if negb ok then mret ([], gas, Some ErrInsufficientBalance)
      else
        snapshot ← reading Snapshot;
        contract ← withCode (NewContract caller (ContractRef_Address caller) value gas) addr;
        r ← run contract input false;
        finishCall snapshot r
  end.

Definition DelegateCall (caller : ContractRef) (addr : Address) (input : bytes) (gas : Z) :
    X (bytes * Z * option vmerror) :=
  guard ← callGuard;
  match guard with
  | Some err => mret ([], gas, err)
  | None =>
      snapshot ← reading Snapshot;
      contract ← orPanic (AsDelegate (NewContract caller (ContractRef_Address caller) 0 gas));
      contract ← withCode contract addr;
      r ← run contract input false;
      finishCall snapshot r
  end.

Definition StaticCall (caller : ContractRef) (addr : Address) (input : bytes) (gas : Z) :
    X (bytes * Z * option vmerror) :=
  guard ← callGuard;
  match guard with
  | Some err => mret ([], gas, err)
  | None =>
      snapshot ← reading Snapshot;
      contract ← withCode (NewContract caller addr 0 gas) addr;
      writing (AddBalance addr 0);;
      r ← run contract input true;
      finishCall snapshot r
  end.

(** ** Creation *)

(** After the code of a new contract ran: its result becomes the code if it is not too
    long and the gas suffices. *)
Definition storeCode (address : Address) (r : outcome) : X (outcome * bool) :=
  let '(ret, err, contract) := r in
  let maxCodeSizeExceeded := IsEIP158 rules && (MaxCodeSize <? Z.of_nat (length ret)) in
  match err with
  | None =>
      if maxCodeSizeExceeded then mret (ret, None, contract, true)
      else
        let '(ok, contract) := UseGas contract (mul64 (Z.of_nat (length ret)) CreateDataGas) in
        if ok then writing (SetCode db address ret);; mret (ret, None, contract, false)
        else mret (ret, Some ErrCodeStoreOutOfGas, contract, false)
  | Some e => mret (ret, Some e, contract, maxCodeSizeExceeded)
  end.

Definition finishCreate (snapshot : Z) (address : Address) (r : outcome * bool) : X (bytes * Address * Z * option vmerror) :=
  let '(ret, err, contract, maxCodeSizeExceeded) := r in
  contract ← (if maxCodeSizeExceeded || match err with
                                        | Some e => IsHomestead rules || negb (bool_decide (e = ErrCodeStoreOutOfGas))
                                        | None => false
                                        end
              then
                attempting (RevertToSnapshot snapshot);;
                mret (if decide (err = Some errExecutionReverted) then contract
                      else (UseGas contract (ct_Gas contract)).2)
              else mret contract);
  let err := if maxCodeSizeExceeded then match err with None => Some errMaxCodeSizeExceeded | Some e => Some e end else err in
  mret (ret, address, ct_Gas contract, err).

(** The part of [create] after the check for a collision. *)
Definition createAt (caller : ContractRef) (code : bytes) (codeHash : Hash) (gas value depth : Z) (address : Address) :
    X (bytes * Address * Z * option vmerror) :=
  snapshot ← reading Snapshot;
  writing (CreateAccount address);;
  setContractCreator address (ContractRef_Address caller);;
  (if IsEIP158 rules then writing (SetNonce address 1) else mret tt);;
  Transfer (ContractRef_Address caller) address value;;
  let contract := SetCallCode (NewContract caller address value gas) address codeHash code in
  if NoRecursion cfg && (0 <? depth) then mret ([], address, gas, None)
  else
    r ← run contract [] false;
    r ← storeCode address r;
    finishCreate snapshot address r.

Definition create (caller : ContractRef) (code : bytes) (codeHash : Hash) (gas value : Z) (address : Address) :
    X (bytes * Address * Z * option vmerror) :=
  depth ← gets ev_depth;
  if CallCreateDepth <? depth then mret ([], 0, gas, Some ErrDepth)
  else
    ok ← CanTransfer (ContractRef_Address caller) value;
    if negb ok then mret ([], 0, gas, Some ErrInsufficientBalance)
    else
      nonce ← reading (GetNonce (ContractRef_Address caller));
      writing (SetNonce (ContractRef_Address caller) (add64 nonce 1));;
      contractHash ← reading (GetCodeHash address);
      nonce ← reading (GetNonce address);
      if negb (nonce =? 0) || (negb (contractHash =? 0) && negb (contractHash =? emptyCodeHash))
      then mret ([], 0, 0, Some ErrContractAddressCollision)
      else createAt caller code codeHash gas value depth address.

Definition Create (caller : ContractRef) (code : bytes) (gas value : Z) : X (bytes * Address * Z * option vmerror) :=
  nonce ← reading (GetNonce (ContractRef_Address caller));
  create caller code 0 gas value (CreateAddress (ContractRef_Address caller) nonce).

Definition Create2 (caller : ContractRef) (code : bytes) (gas endowment salt : Z) : X (bytes * Address * Z * option vmerror) :=
  let codeHash := keccak256 code in
  create caller code codeHash gas endowment
    (CreateAddress2 (ContractRef_Address caller) (BigToHash salt) (Hash_Bytes codeHash)).
End calls.
