(* ===== verification/EvmInstr.v ===== *)
(** * EvmInstr: the instructions that touch more than the top of the stack

    src/core/vm/instructions.go beyond the arithmetic of EvmWord.v.  An instruction takes
    the frame of the running contract to the next one, with the bytes it returns and an
    error.  It is given the interpreter that runs the contracts it calls. *)

From S2P Require Import Prelude Bytes Crypto StateDB EvmWord EvmCode EvmMemory EvmState EvmGas EvmCall.

Local Open Scope Z_scope.

Record Frame := mkFrame { fr_pc : Z; fr_stack : Stack; fr_mem : Memory; fr_contract : Contract }.
#[global] Instance Frame_fields : Fields Frame := λ f,
  mkFrame (fr_pc f) (fr_stack f) (fr_mem f) (fr_contract f).

Section instructions.
Context `{CR : Crypto} `{SD : StateDatabase} `{PC : Precompiles} (db : Database) (cx : VmContext) (rules : Rules) (cfg : VmConfig).

Definition interpreter : Type := Contract → bytes → bool → X outcome.
Definition result : Type := Frame * bytes * option vmerror.
Definition executionFunc : Type := interpreter → Frame → X result.

Definition ok (fr : Frame) : X result := mret (fr, [], None).
Definition fails (fr : Frame) (e : vmerror) : X result := mret (fr, [], Some e).

(** Taking words off the stack. *)
Definition pop1 (fr : Frame) : X (Z * Frame) :=
  '(x, st) ← orPanic (pop (fr_stack fr)); mret (x, fr <| fr_stack := st |>).
Definition pop2 (fr : Frame) : X (Z * Z * Frame) :=
  '(x, fr) ← pop1 fr; '(y, fr) ← pop1 fr; mret (x, y, fr).
Definition pop3 (fr : Frame) : X (Z * Z * Z * Frame) :=
  '(x, y, fr) ← pop2 fr; '(z, fr) ← pop1 fr; mret (x, y, z, fr).
Definition push (fr : Frame) (x : Z) : Frame := fr <| fr_stack ::= cons x |>.

(** Instructions that compute a word from those on the stack. *)
Definition unary (f : Z → Z) : executionFunc := λ _ fr, '(x, fr) ← pop1 fr; ok (push fr (f x)).
Definition binary (f : Z → Z → Z) : executionFunc := λ _ fr, '(x, y, fr) ← pop2 fr; ok (push fr (f x y)).
Definition ternary (f : Z → Z → Z → Z) : executionFunc := λ _ fr, '(x, y, z, fr) ← pop3 fr; ok (push fr (f x y z)).

(** Instructions that push a value of the surroundings. *)
Definition pushing (f : Frame → Z) : executionFunc := λ _ fr, ok (push fr (f fr)).

Definition opSha3 : executionFunc := λ _ fr,
  '(offset, size, fr) ← pop2 fr;
  data ← orPanic (Memory_Get (fr_mem fr) (Big_Int64 offset) (Big_Int64 size));
  let h := keccak256 data in
  (if EnablePreimageRecording cfg then writing (AddPreimage h data) else mret tt);;
  ok (push fr (Hash_Big h)).

Definition opAddress : executionFunc := pushing (λ fr, Address_Big (ct_self (fr_contract fr))).
Definition opBalance : executionFunc := λ _ fr,
  '(slot, fr) ← pop1 fr;
  balance ← reading (GetBalance (BigToAddress slot));
  ok (push fr balance).
Definition opOrigin : executionFunc := pushing (λ _, Address_Big (vc_Origin cx)).
Definition opCaller : executionFunc := pushing (λ fr, Address_Big (ct_CallerAddress (fr_contract fr))).
Definition opCallValue : executionFunc := pushing (λ fr, ct_value (fr_contract fr)).
Definition opCallDataLoad : executionFunc := λ _ fr,
  '(x, fr) ← pop1 fr; ok (push fr (be_int (getDataBig (ct_Input (fr_contract fr)) x 32))).
Definition opCallDataSize : executionFunc := pushing (λ fr, Z.of_nat (length (ct_Input (fr_contract fr)))).

(** Copying data into the memory. *)
Definition copying (data : bytes) (memOffset dataOffset length : Z) (fr : Frame) : X result :=
  mem ← orPanic (Memory_Set (fr_mem fr) (Big_Uint64 memOffset) (Big_Uint64 length) (getDataBig data dataOffset length));
  ok (fr <| fr_mem := mem |>).
Definition opCallDataCopy : executionFunc := λ _ fr,
  '(memOffset, dataOffset, length, fr) ← pop3 fr;
  copying (ct_Input (fr_contract fr)) memOffset dataOffset length fr.
Definition opCodeCopy : executionFunc := λ _ fr,
  '(memOffset, codeOffset, length, fr) ← pop3 fr;
  copying (ct_Code (fr_contract fr)) memOffset codeOffset length fr.
Definition opExtCodeCopy : executionFunc := λ _ fr,
  '(addr, fr) ← pop1 fr;
  '(memOffset, codeOffset, length, fr) ← pop3 fr;
  code ← reading (GetCode db (BigToAddress addr));
  copying (default [] code) memOffset codeOffset length fr.

Definition opReturnDataSize : executionFunc := λ _ fr,
  ret ← gets ev_returnData; ok (push fr (Z.of_nat (length ret))).
Definition opReturnDataCopy : executionFunc := λ _ fr,
  '(memOffset, dataOffset, length_, fr) ← pop3 fr;
  ret ← gets ev_returnData;
  let end_ := dataOffset + length_ in
  if (64 <? BitLen end_) || (Z.of_nat (length ret) <? Big_Uint64 end_) then fails fr errReturnDataOutOfBounds
  else
    let start := Big_Uint64 dataOffset in
    data ← orPanic (if start <=? Big_Uint64 end_
                    then Some (take (Z.to_nat (Big_Uint64 end_ - start)) (drop (Z.to_nat start) ret)) else None);
    mem ← orPanic (Memory_Set (fr_mem fr) (Big_Uint64 memOffset) (Big_Uint64 length_) data);
    ok (fr <| fr_mem := mem |>).

Definition opExtCodeSize : executionFunc := λ _ fr,
  '(slot, fr) ← pop1 fr;
  size ← reading (GetCodeSize db (BigToAddress slot));
  ok (push fr (u64 size)).
Definition opCodeSize : executionFunc := pushing (λ fr, Z.of_nat (length (ct_Code (fr_contract fr)))).
Definition opExtCodeHash : executionFunc := λ _ fr,
  '(slot, fr) ← pop1 fr;
  let address := BigToAddress slot in
  empty ← reading (StateDB.Empty address);
  if (empty : bool) then ok (push fr 0)
  else hash ← reading (GetCodeHash address); ok (push fr (Hash_Big hash)).

Definition opGasprice : executionFunc := pushing (λ _, vc_GasPrice cx).
Definition opBlockhash : executionFunc := λ _ fr,
  '(num, fr) ← pop1 fr;
  ok (push fr (if (vc_BlockNumber cx - 2049 <? num) && (num <? vc_BlockNumber cx)
               then Hash_Big (vc_GetHash cx (Big_Uint64 num)) else 0)).
Definition opCoinbase : executionFunc := pushing (λ _, Address_Big (vc_Coinbase cx)).
Definition opTimestamp : executionFunc := pushing (λ _, U256 (vc_Time cx)).
Definition opNumber : executionFunc := pushing (λ _, U256 (vc_BlockNumber cx)).
Definition opDifficulty : executionFunc := pushing (λ _, U256 (vc_Difficulty cx)).
Definition opGasLimit : executionFunc := pushing (λ _, U256 (vc_GasLimit cx)).

Definition opPop : executionFunc := λ _ fr, '(_, fr) ← pop1 fr; ok fr.
Definition opMload : executionFunc := λ _ fr,
  '(offset, fr) ← pop1 fr;
  data ← orPanic (Memory_Get (fr_mem fr) (Big_Int64 offset) 32);
  ok (push fr (be_int data)).
Definition opMstore : executionFunc := λ _ fr,
  '(mStart, val, fr) ← pop2 fr;
  mem ← orPanic (Memory_Set32 (fr_mem fr) (Big_Uint64 mStart) val);
  ok (fr <| fr_mem := mem |>).
Definition opMstore8 : executionFunc := λ _ fr,
  '(off, val, fr) ← pop2 fr;
  mem ← orPanic (Memory_SetByte (fr_mem fr) (Big_Int64 off) (Z.land (Big_Int64 val) 0xff));
  ok (fr <| fr_mem := mem |>).
Definition opSload : executionFunc := λ _ fr,
  '(loc, fr) ← pop1 fr;
  val ← reading (GetState db (ct_self (fr_contract fr)) (BigToHash loc));
  ok (push fr (Hash_Big val)).
Definition opSstore : executionFunc := λ _ fr,
  '(loc, val, fr) ← pop2 fr;
  writing (SetState db (ct_self (fr_contract fr)) (BigToHash loc) (BigToHash val));;
  ok fr.

Definition jumpTo (pos : Z) (fr : Frame) : X result :=
  valid ← orPanic (validJumpdest (ct_Code (fr_contract fr)) pos);
  if (valid : bool) then ok (fr <| fr_pc := Big_Uint64 pos |>)
  else fails fr (errInvalidJump (GetOp (ct_Code (fr_contract fr)) (Big_Uint64 pos)) pos).
Definition opJump : executionFunc := λ _ fr, '(pos, fr) ← pop1 fr; jumpTo pos fr.
Definition opJumpi : executionFunc := λ _ fr,
  '(pos, cond, fr) ← pop2 fr;
  if cond =? 0 then ok (fr <| fr_pc ::= λ pc, add64 pc 1 |>) else jumpTo pos fr.
Definition opJumpdest : executionFunc := λ _ fr, ok fr.
Definition opPc : executionFunc := pushing fr_pc.
Definition opMsize : executionFunc := pushing (λ fr, Memory_Len (fr_mem fr)).
Definition opGas : executionFunc := pushing (λ fr, ct_Gas (fr_contract fr)).

Definition makePush (size : nat) : executionFunc := λ _ fr,
  let code := ct_Code (fr_contract fr) in
  let codeLen := Z.of_nat (length code) in
  let startMin := Z.min codeLen (Big_Int64 (fr_pc fr + 1)) in
  let endMin := Z.min codeLen (startMin + Z.of_nat size) in
  data ← orPanic (if (0 <=? startMin) && (startMin <=? endMin)
                  then Some (take (Z.to_nat (endMin - startMin)) (drop (Z.to_nat startMin) code)) else None);
  ok ((push fr (be_int (RightPadBytes data (Z.of_nat size)))) <| fr_pc ::= λ pc, add64 pc (Z.of_nat size) |>).
Definition makeDup (size : nat) : executionFunc := λ _ fr,
  st ← orPanic (dup (fr_stack fr) size); ok (fr <| fr_stack := st |>).
Definition makeSwap (size : nat) : executionFunc := λ _ fr,
  st ← orPanic (swap (fr_stack fr) (size + 1)); ok (fr <| fr_stack := st |>).

Fixpoint popTopics (n : nat) (fr : Frame) : X (list Hash * Frame) :=
  match n with
  | O => mret ([], fr)
  | S n => '(x, fr) ← pop1 fr; '(l, fr) ← popTopics n fr; mret (BigToHash x :: l, fr)
  end.
Definition makeLog (size : nat) : executionFunc := λ _ fr,
  '(mStart, mSize, fr) ← pop2 fr;
  '(topics, fr) ← popTopics size fr;
  d ← orPanic (Memory_Get (fr_mem fr) (Big_Int64 mStart) (Big_Int64 mSize));
  writing (AddLog (mkLog (ct_self (fr_contract fr)) topics d (Big_Uint64 (vc_BlockNumber cx)) 0 0 0 0));;
  ok fr.

(** ** Creating and calling contracts *)

Definition gainGas (gas : Z) (fr : Frame) : Frame :=
  fr <| fr_contract ::= λ c, c <| ct_Gas ::= λ g, add64 g gas |> |>.

Definition opCreate : executionFunc := λ interp fr,
  '(value, offset, size, fr) ← pop3 fr;
  input ← orPanic (Memory_Get (fr_mem fr) (Big_Int64 offset) (Big_Int64 size));
  let gas := ct_Gas (fr_contract fr) in
  let gas := if IsEIP150 rules then gas - gas `div` 64 else gas in
  let fr := fr <| fr_contract ::= λ c, (UseGas c gas).2 |> in
  '(res, addr, returnGas, suberr) ← Create db cx rules cfg interp (as_caller (fr_contract fr)) input gas value;
  let word :=
    match suberr with
    | None => Address_Big addr
    | Some e => if negb (IsHomestead rules) && bool_decide (e = ErrCodeStoreOutOfGas) then Address_Big addr else 0
    end in
  mret (gainGas returnGas (push fr word),
        if decide (suberr = Some errExecutionReverted) then res else [], None).

Definition opCreate2 : executionFunc := λ interp fr,
  '(endowment, offset, size, fr) ← pop3 fr;
  '(salt, fr) ← pop1 fr;
  input ← orPanic (Memory_Get (fr_mem fr) (Big_Int64 offset) (Big_Int64 size));
  let gas := ct_Gas (fr_contract fr) in
  let gas := gas - gas `div` 64 in
  let fr := fr <| fr_contract ::= λ c, (UseGas c gas).2 |> in
  '(res, addr, returnGas, suberr) ← Create2 db cx rules cfg interp (as_caller (fr_contract fr)) input gas endowment salt;
  mret (gainGas returnGas (push fr (match suberr with None => Address_Big addr | Some _ => 0 end)),
        if decide (suberr = Some errExecutionReverted) then res else [], None).

(** The end of the call instructions: the result goes into the memory. *)
Definition afterCall (retOffset retSize : Z) (fr : Frame) (r : bytes * Z * option vmerror) : X result :=
  let '(ret, returnGas, err) := r in
  let fr := push fr (match err with None => 1 | Some _ => 0 end) in
  mem ← (if decide (err = None ∨ err = Some errExecutionReverted)
         then orPanic (Memory_Set (fr_mem fr) (Big_Uint64 retOffset) (Big_Uint64 retSize) ret)
         else mret (fr_mem fr));
  mret (gainGas returnGas (fr <| fr_mem := mem |>), ret, None).

(** The operands after the gas, which is in [callGasTemp]. *)
Definition callArgs (fr : Frame) : X (bytes * Z * Z * Frame) :=
  '(inOffset, inSize, fr) ← pop2 fr;
  '(retOffset, retSize, fr) ← pop2 fr;
  args ← orPanic (Memory_Get (fr_mem fr) (Big_Int64 inOffset) (Big_Int64 inSize));
  mret (args, retOffset, retSize, fr).

Definition opCall : executionFunc := λ interp fr,
  '(_, fr) ← pop1 fr;
  gas ← gets ev_callGasTemp;
  '(addr, value, fr) ← pop2 fr;
  '(args, retOffset, retSize, fr) ← callArgs fr;
  let value := U256 value in
  let gas := if value =? 0 then gas else add64 gas CallStipend in
  r ← Call db cx rules cfg interp (as_caller (fr_contract fr)) (BigToAddress addr) args gas value;
  afterCall retOffset retSize fr r.

Definition opCallCode : executionFunc := λ interp fr,
  '(_, fr) ← pop1 fr;
  gas ← gets ev_callGasTemp;
  '(addr, value, fr) ← pop2 fr;
  '(args, retOffset, retSize, fr) ← callArgs fr;
  let value := U256 value in
  let gas := if value =? 0 then gas else add64 gas CallStipend in
  r ← CallCode db cx rules cfg interp (as_caller (fr_contract fr)) (BigToAddress addr) args gas value;
  afterCall retOffset retSize fr r.

Definition opDelegateCall : executionFunc := λ interp fr,
  '(_, fr) ← pop1 fr;
  gas ← gets ev_callGasTemp;
  '(addr, fr) ← pop1 fr;
  '(args, retOffset, retSize, fr) ← callArgs fr;
  r ← DelegateCall db cx rules cfg interp (as_caller (fr_contract fr)) (BigToAddress addr) args gas;
  afterCall retOffset retSize fr r.

Definition opStaticCall : executionFunc := λ interp fr,
  '(_, fr) ← pop1 fr;
  gas ← gets ev_callGasTemp;
  '(addr, fr) ← pop1 fr;
  '(args, retOffset, retSize, fr) ← callArgs fr;
  r ← StaticCall db cx rules cfg interp (as_caller (fr_contract fr)) (BigToAddress addr) args gas;
  afterCall retOffset retSize fr r.

(** ** Ending a contract *)

Definition opReturn : executionFunc := λ _ fr,
  '(offset, size, fr) ← pop2 fr;
  ret ← orPanic (Memory_Get (fr_mem fr) (Big_Int64 offset) (Big_Int64 size));
  mret (fr, ret, None).
Definition opRevert : executionFunc := opReturn.
Definition opStop : executionFunc := λ _ fr, ok fr.
Definition opSuicide : executionFunc := λ _ fr,
  balance ← reading (GetBalance (ct_self (fr_contract fr)));
  '(x, fr) ← pop1 fr;
  writing (AddBalance (BigToAddress x) balance);;
  deleteFromCreator db (ct_self (fr_contract fr));;
  reading (Suicide (ct_self (fr_contract fr)));;
  ok fr.
End instructions.
