(* ===== verification/Evm.v ===== *)
(** * Evm: the instruction table and the interpreter

    The opcodes (src/core/vm/opcodes.go), the table of the operations (jump_table.go,
    stack_table.go) and the loop of [EVMInterpreter.Run] (interpreter.go).  The loop has
    fuel, one unit for an instruction; EvmRun.v shows that more fuel than gas is enough.
    Tracing, the flag that cancels a run from another goroutine and the pool of reused
    integers are not modelled. *)

From S2P Require Import Prelude Bytes Crypto StateDB EvmWord EvmCode EvmMemory EvmState EvmGas EvmCall EvmInstr.

Local Open Scope Z_scope.

(** ** Opcodes *)

Definition STOP : Z := 0x00.
Definition ADD : Z := 0x01.
Definition MUL : Z := 0x02.
Definition SUB : Z := 0x03.
Definition DIV : Z := 0x04.
Definition SDIV : Z := 0x05.
Definition MOD : Z := 0x06.
Definition SMOD : Z := 0x07.
Definition ADDMOD : Z := 0x08.
Definition MULMOD : Z := 0x09.
Definition EXP : Z := 0x0a.
Definition SIGNEXTEND : Z := 0x0b.
Definition LT : Z := 0x10.
Definition GT : Z := 0x11.
Definition SLT : Z := 0x12.
Definition SGT : Z := 0x13.
Definition EQ : Z := 0x14.
Definition ISZERO : Z := 0x15.
Definition AND : Z := 0x16.
Definition OR : Z := 0x17.
Definition XOR : Z := 0x18.
Definition NOT : Z := 0x19.
Definition BYTE : Z := 0x1a.
Definition SHL : Z := 0x1b.
Definition SHR : Z := 0x1c.
Definition SAR : Z := 0x1d.
Definition SHA3 : Z := 0x20.
Definition ADDRESS : Z := 0x30.
Definition BALANCE : Z := 0x31.
Definition ORIGIN : Z := 0x32.
Definition CALLER : Z := 0x33.
Definition CALLVALUE : Z := 0x34.
Definition CALLDATALOAD : Z := 0x35.
Definition CALLDATASIZE : Z := 0x36.
Definition CALLDATACOPY : Z := 0x37.
Definition CODESIZE : Z := 0x38.
Definition CODECOPY : Z := 0x39.
Definition GASPRICE : Z := 0x3a.
Definition EXTCODESIZE : Z := 0x3b.
Definition EXTCODECOPY : Z := 0x3c.
Definition RETURNDATASIZE : Z := 0x3d.
Definition RETURNDATACOPY : Z := 0x3e.
Definition EXTCODEHASH : Z := 0x3f.
Definition BLOCKHASH : Z := 0x40.
Definition COINBASE : Z := 0x41.
Definition TIMESTAMP : Z := 0x42.
Definition NUMBER : Z := 0x43.
Definition DIFFICULTY : Z := 0x44.
Definition GASLIMIT : Z := 0x45.
Definition POP : Z := 0x50.
Definition MLOAD : Z := 0x51.
Definition MSTORE : Z := 0x52.
Definition MSTORE8 : Z := 0x53.
Definition SLOAD : Z := 0x54.
Definition SSTORE : Z := 0x55.
Definition JUMP : Z := 0x56.
Definition JUMPI : Z := 0x57.
Definition PC : Z := 0x58.
Definition MSIZE : Z := 0x59.
Definition GAS : Z := 0x5a.
Definition DUP1 : Z := 0x80.
Definition SWAP1 : Z := 0x90.
Definition LOG0 : Z := 0xa0.
Definition CREATE : Z := 0xf0.
Definition CALL : Z := 0xf1.
Definition CALLCODE : Z := 0xf2.
Definition RETURN : Z := 0xf3.
Definition DELEGATECALL : Z := 0xf4.
Definition CREATE2 : Z := 0xf5.
Definition STATICCALL : Z := 0xfa.
Definition REVERT : Z := 0xfd.
Definition SELFDESTRUCT : Z := 0xff.

(** ** Operations *)

(** [stack.require] and the limit of the stack. *)
Definition makeStackFunc (pop push : nat) (st : Stack) : option vmerror :=
  let len := Z.of_nat (length st) in
  if len <? Z.of_nat pop then Some (errStackUnderflow len (Z.of_nat pop))
  else if StackLimit <? len + Z.of_nat push - Z.of_nat pop then Some (errStackLimit len)
  else None.
Definition makeDupStackFunc (n : nat) : Stack → option vmerror := makeStackFunc n (n + 1).
Definition makeSwapStackFunc (n : nat) : Stack → option vmerror := makeStackFunc n n.

Section evm.
Context `{CR : Crypto} `{SD : StateDatabase} `{PrC : Precompiles} (db : Database) (cx : VmContext) (rules : Rules) (cfg : VmConfig).

Record operation := mkOperation {
  execute : executionFunc;
  gasCost : gasFunc;
  validateStack : Stack → option vmerror;
  memorySize : option (Stack → option Z);
  halts : bool; jumps : bool; writes : bool; reverts : bool; op_returns : bool
}.
#[global] Instance operation_fields : Fields operation := λ o,
  mkOperation (execute o) (gasCost o) (validateStack o) (memorySize o) (halts o) (jumps o) (writes o) (reverts o) (op_returns o).

Definition mkOp (ex : executionFunc) (gas : gasFunc) (vs : Stack → option vmerror) : operation :=
  mkOperation ex gas vs None false false false false false.

(** The entries of a table; later ones are put in front. *)
Definition instructionSet : Type := list (Z * operation).

Definition newFrontierInstructionSet : instructionSet :=
  [(STOP, (mkOp opStop (constGasFunc 0) (makeStackFunc 0 0)) <| halts := true |>);
   (ADD, mkOp (binary opAdd) (constGasFunc GasFastestStep) (makeStackFunc 2 1));
   (MUL, mkOp (binary opMul) (constGasFunc GasFastStep) (makeStackFunc 2 1));
   (SUB, mkOp (binary opSub) (constGasFunc GasFastestStep) (makeStackFunc 2 1));
   (DIV, mkOp (binary opDiv) (constGasFunc GasFastStep) (makeStackFunc 2 1));
   (SDIV, mkOp (binary opSdiv) (constGasFunc GasFastStep) (makeStackFunc 2 1));
   (MOD, mkOp (binary opMod) (constGasFunc GasFastStep) (makeStackFunc 2 1));
   (SMOD, mkOp (binary opSmod) (constGasFunc GasFastStep) (makeStackFunc 2 1));
   (ADDMOD, mkOp (ternary opAddmod) (constGasFunc GasMidStep) (makeStackFunc 3 1));
   (MULMOD, mkOp (ternary opMulmod) (constGasFunc GasMidStep) (makeStackFunc 3 1));
   (EXP, mkOp (binary opExp) (gasExp rules) (makeStackFunc 2 1));
   (SIGNEXTEND, mkOp (binary opSignExtend) (constGasFunc GasFastStep) (makeStackFunc 2 1));
   (LT, mkOp (binary opLt) (constGasFunc GasFastestStep) (makeStackFunc 2 1));
   (GT, mkOp (binary opGt) (constGasFunc GasFastestStep) (makeStackFunc 2 1));
   (SLT, mkOp (binary opSlt) (constGasFunc GasFastestStep) (makeStackFunc 2 1));
   (SGT, mkOp (binary opSgt) (constGasFunc GasFastestStep) (makeStackFunc 2 1));
   (EQ, mkOp (binary opEq) (constGasFunc GasFastestStep) (makeStackFunc 2 1));
   (ISZERO, mkOp (unary opIszero) (constGasFunc GasFastestStep) (makeStackFunc 1 1));
   (AND, mkOp (binary opAnd) (constGasFunc GasFastestStep) (makeStackFunc 2 1));
   (XOR, mkOp (binary opXor) (constGasFunc GasFastestStep) (makeStackFunc 2 1));
   (OR, mkOp (binary opOr) (constGasFunc GasFastestStep) (makeStackFunc 2 1));
   (NOT, mkOp (unary opNot) (constGasFunc GasFastestStep) (makeStackFunc 1 1));
   (BYTE, mkOp (binary opByte) (constGasFunc GasFastestStep) (makeStackFunc 2 1));
   (SHA3, (mkOp (opSha3 cfg) gasSha3 (makeStackFunc 2 1)) <| memorySize := Some memorySha3 |>);
   (ADDRESS, mkOp opAddress (constGasFunc GasQuickStep) (makeStackFunc 0 1));
   (BALANCE, mkOp opBalance (gasBalance rules) (makeStackFunc 1 1));
   (ORIGIN, mkOp (opOrigin cx) (constGasFunc GasQuickStep) (makeStackFunc 0 1));
   (CALLER, mkOp opCaller (constGasFunc GasQuickStep) (makeStackFunc 0 1));
   (CALLVALUE, mkOp opCallValue (constGasFunc GasQuickStep) (makeStackFunc 0 1));
   (CALLDATALOAD, mkOp opCallDataLoad (constGasFunc GasFastestStep) (makeStackFunc 1 1));
   (CALLDATASIZE, mkOp opCallDataSize (constGasFunc GasQuickStep) (makeStackFunc 0 1));
   (CALLDATACOPY, (mkOp opCallDataCopy gasCallDataCopy (makeStackFunc 3 0)) <| memorySize := Some memoryCallDataCopy |>);
   (CODESIZE, mkOp opCodeSize (constGasFunc GasQuickStep) (makeStackFunc 0 1));
   (CODECOPY, (mkOp opCodeCopy gasCodeCopy (makeStackFunc 3 0)) <| memorySize := Some memoryCodeCopy |>);
   (GASPRICE, mkOp (opGasprice cx) (constGasFunc GasQuickStep) (makeStackFunc 0 1));
   (EXTCODESIZE, mkOp (opExtCodeSize db) (gasExtCodeSize rules) (makeStackFunc 1 1));
   (EXTCODECOPY, (mkOp (opExtCodeCopy db) (gasExtCodeCopy rules) (makeStackFunc 4 0)) <| memorySize := Some memoryExtCodeCopy |>);
   (BLOCKHASH, mkOp (opBlockhash cx) (constGasFunc GasExtStep) (makeStackFunc 1 1));
   (COINBASE, mkOp (opCoinbase cx) (constGasFunc GasQuickStep) (makeStackFunc 0 1));
   (TIMESTAMP, mkOp (opTimestamp cx) (constGasFunc GasQuickStep) (makeStackFunc 0 1));
   (NUMBER, mkOp (opNumber cx) (constGasFunc GasQuickStep) (makeStackFunc 0 1));
   (DIFFICULTY, mkOp (opDifficulty cx) (constGasFunc GasQuickStep) (makeStackFunc 0 1));
   (GASLIMIT, mkOp (opGasLimit cx) (constGasFunc GasQuickStep) (makeStackFunc 0 1));
   (POP, mkOp opPop (constGasFunc GasQuickStep) (makeStackFunc 1 0));
   (MLOAD, (mkOp opMload gasMLoad (makeStackFunc 1 1)) <| memorySize := Some memoryMLoad |>);
   (MSTORE, (mkOp opMstore gasMStore (makeStackFunc 2 0)) <| memorySize := Some memoryMStore |>);
   (MSTORE8, (mkOp opMstore8 gasMStore8 (makeStackFunc 2 0)) <| memorySize := Some memoryMStore8 |>);
   (SLOAD, mkOp (opSload db) (gasSLoad rules) (makeStackFunc 1 1));
   (SSTORE, (mkOp (opSstore db) (gasSStore db rules) (makeStackFunc 2 0)) <| writes := true |>);
   (JUMP, (mkOp opJump (constGasFunc GasMidStep) (makeStackFunc 1 0)) <| jumps := true |>);
   (JUMPI, (mkOp opJumpi (constGasFunc GasSlowStep) (makeStackFunc 2 0)) <| jumps := true |>);
   (PC, mkOp opPc (constGasFunc GasQuickStep) (makeStackFunc 0 1));
   (MSIZE, mkOp opMsize (constGasFunc GasQuickStep) (makeStackFunc 0 1));
   (GAS, mkOp opGas (constGasFunc GasQuickStep) (makeStackFunc 0 1));
   (JUMPDEST, mkOp opJumpdest (constGasFunc JumpdestGas) (makeStackFunc 0 0))] ++
  ((λ n, (PUSH1 + Z.of_nat n - 1, mkOp (makePush n) gasPush (makeStackFunc 0 1))) <$> seq 1 32) ++
  ((λ n, (DUP1 + Z.of_nat n - 1, mkOp (makeDup n) gasDup (makeDupStackFunc n))) <$> seq 1 16) ++
  ((λ n, (SWAP1 + Z.of_nat n - 1, mkOp (makeSwap n) gasSwap (makeSwapStackFunc (n + 1)))) <$> seq 1 16) ++
  ((λ n, (LOG0 + Z.of_nat n, (mkOp (makeLog cx n) (makeGasLog (Z.of_nat n)) (makeStackFunc (n + 2) 0))
            <| memorySize := Some memoryLog |> <| writes := true |>)) <$> seq 0 5) ++
  [(CREATE, (mkOp (opCreate db cx rules cfg) gasCreate (makeStackFunc 3 1)) <| memorySize := Some memoryCreate |> <| writes := true |> <| op_returns := true |>);
   (CALL, (mkOp (opCall db cx rules cfg) (gasCall rules) (makeStackFunc 7 1)) <| memorySize := Some memoryCall |> <| op_returns := true |>);
   (CALLCODE, (mkOp (opCallCode db cx rules cfg) (gasCallCode rules) (makeStackFunc 7 1)) <| memorySize := Some memoryCall |> <| op_returns := true |>);
   (RETURN, (mkOp opReturn gasReturn (makeStackFunc 2 0)) <| memorySize := Some memoryReturn |> <| halts := true |>);
   (SELFDESTRUCT, (mkOp (opSuicide db) (gasSuicide rules) (makeStackFunc 1 0)) <| halts := true |> <| writes := true |>)].

Definition newHomesteadInstructionSet : instructionSet :=
  [(DELEGATECALL, (mkOp (opDelegateCall db cx rules cfg) (gasDelegateCall rules) (makeStackFunc 6 1)) <| memorySize := Some memoryDelegateCall |> <| op_returns := true |>)] ++
  newFrontierInstructionSet.

Definition newByzantiumInstructionSet : instructionSet :=
  [(STATICCALL, (mkOp (opStaticCall db cx rules cfg) (gasStaticCall rules) (makeStackFunc 6 1)) <| memorySize := Some memoryStaticCall |> <| op_returns := true |>);
   (RETURNDATASIZE, mkOp opReturnDataSize (constGasFunc GasQuickStep) (makeStackFunc 0 1));
   (RETURNDATACOPY, (mkOp opReturnDataCopy gasReturnDataCopy (makeStackFunc 3 0)) <| memorySize := Some memoryReturnDataCopy |>);
   (REVERT, (mkOp opRevert gasRevert (makeStackFunc 2 0)) <| memorySize := Some memoryRevert |> <| reverts := true |> <| op_returns := true |>)] ++
  newHomesteadInstructionSet.

Definition newConstantinopleInstructionSet : instructionSet :=
  [(SHL, mkOp (binary opSHL) (constGasFunc GasFastestStep) (makeStackFunc 2 1));
   (SHR, mkOp (binary opSHR) (constGasFunc GasFastestStep) (makeStackFunc 2 1));
   (SAR, mkOp (binary opSAR) (constGasFunc GasFastestStep) (makeStackFunc 2 1));
   (EXTCODEHASH, mkOp opExtCodeHash (gasExtCodeHash rules) (makeStackFunc 1 1));
   (CREATE2, (mkOp (opCreate2 db cx rules cfg) gasCreate2 (makeStackFunc 4 1)) <| memorySize := Some memoryCreate2 |> <| writes := true |> <| op_returns := true |>)] ++
  newByzantiumInstructionSet.

(** [NewEVMInterpreter] *)
Definition JumpTable : instructionSet :=
  if IsConstantinople rules then newConstantinopleInstructionSet
  else if IsByzantium rules then newByzantiumInstructionSet
  else if IsHomestead rules then newHomesteadInstructionSet
  else newFrontierInstructionSet.

(** The operation of an opcode, if it is valid. *)
Fixpoint findOp (op : Z) (l : instructionSet) : option operation :=
  match l with
  | [] => None
  | (k, o) :: l => if k =? op then Some o else findOp op l
  end.

(** ** The interpreter *)

Definition enforceRestrictions (op : Z) (o : operation) (st : Stack) : X (option vmerror) :=
  readOnly ← gets ev_readOnly;
  if IsByzantium rules && readOnly then
    if writes o then mret (Some errWriteProtection)
    else if op =? CALL then
      value ← orPanic (Back st 2);
      mret (if 0 <? BitLen value then Some errWriteProtection else None)
    else mret None
  else mret None.

(** The size the memory is to have: in words; [None] is an overflow. *)
Definition newMemorySize (o : operation) (st : Stack) : X (option Z) :=
  match memorySize o with
  | None => mret (Some 0)
  | Some f => size ← orPanic (f st); mret (memSize ← bigUint64 size; safeMul (toWordSize memSize) 32)
  end.

(** The gas of an operation is paid and the memory gets its new size. *)
Definition charge (o : operation) (fr : Frame) : X (vmerror + Frame) :=
  size ← newMemorySize o (fr_stack fr);
  match size with
  | None => mret (inl errGasUintOverflow)
  | Some size =>
      cost ← gasCost o (fr_contract fr) (fr_stack fr) (fr_mem fr) size;
      match cost with
      | None => mret (inl ErrOutOfGas)
      | Some (cost, mem) =>
          let '(ok, contract) := UseGas (fr_contract fr) cost in
          mret (if ok : bool
                then inr (fr <| fr_contract := contract |> <| fr_mem := if 0 <? size then Resize mem size else mem |>)
                else inl ErrOutOfGas)
      end
  end.

(** One turn of the loop: the next frame, or what the contract returns. *)
Definition step (interp : interpreter) (fr : Frame) : X (Frame + outcome) :=
  let stop (err : vmerror) : X (Frame + outcome) := mret (inr ([], Some err, fr_contract fr)) in
  let op := GetOp (ct_Code (fr_contract fr)) (fr_pc fr) in
  match findOp op JumpTable with
  | None => stop (errInvalidOpcode op)
  | Some o =>
      match validateStack o (fr_stack fr) with
      | Some err => stop err
      | None =>
          err ← enforceRestrictions op o (fr_stack fr);
          match err with
          | Some err => stop err
          | None =>
              r ← charge o fr;
              match r with
              | inl err => stop err
              | inr fr =>
                  '(fr, res, err) ← execute o interp fr;
                  (if op_returns o then modify (λ e : EVM, e <| ev_returnData := res |>) else mret tt);;
                  mret (match err with
                        | Some err => inr ([], Some err, fr_contract fr)
                        | None =>
                            if reverts o then inr (res, Some errExecutionReverted, fr_contract fr)
                            else if halts o then inr (res, None, fr_contract fr)
                            else if jumps o then inl fr
                            else inl (fr <| fr_pc ::= λ pc, add64 pc 1 |>)
                        end)
              end
          end
      end
  end.

(** [Run] around its loop: the depth and the read-only flag are those of before at the
    end. *)
Definition enter (loop : Frame → X outcome) : interpreter := λ contract input readOnly,
  modify (λ e : EVM, e <| ev_depth ::= λ d, d + 1 |>);;
  was ← gets ev_readOnly;
  modify (λ e : EVM, e <| ev_readOnly := was || readOnly |> <| ev_returnData := [] |>);;
  r ← (if decide (ct_Code contract = []) then mret ([], None, contract)
       else loop (mkFrame 0 [] NewMemory (contract <| ct_Input := input |>)));
  modify (λ e : EVM, e <| ev_readOnly := was |> <| ev_depth ::= λ d, d - 1 |>);;
  mret r.

Fixpoint loop (fuel : nat) (fr : Frame) : X outcome :=
  match fuel with
  | O => λ _, NoFuel
  | S fuel =>
      r ← step (enter (loop fuel)) fr;
      match r with
      | inl fr => loop fuel fr
      | inr out => mret out
      end
  end.

Definition Run (fuel : nat) : interpreter := enter (loop fuel).
End evm.
