(* ===== verification/EvmEffect.v ===== *)
(** * EvmEffect: what the virtual machine may do to the state

    The effects of a run on the state as an inductive relation: operations that move no
    money, transfers that are covered, the destruction of a contract, and calls that are
    undone.  Every effect keeps the journal's invariant and the older snapshots, keeps
    balances and code well-formed, creates no money, and shows nothing when it is the
    effect of a static call. *)

From S2P Require Import Prelude Bytes Params Crypto MinerContract StateDB StateDBFacts StateDBRevert StateDBView EvmMemory EvmState.

Local Open Scope Z_scope.

Section effect.
Context `{CR : Crypto} `{SD : StateDatabase} (db : Database).

(** The operations that may happen in a state, read-only or not, without moving money. *)
Definition allowed (ro : bool) (s : StateDB) (o : op) : Prop :=
  match o with
  | opCreateAccount a => ro = true → live s a = None
  | opSubBalance _ v | opAddBalance _ v => v = 0
  | opSetNonce _ _ | opSetState _ _ _ | opAddRefund _ | opSubRefund _ | opAddLog _ => ro = false
  | opSetCode _ c => ro = false ∧ code_ok c
  | StateDBRevert.opSuicide _ | opRevertToSnapshot _ => False
  | _ => True
  end.

(** The addresses and the nonce of an operation are what they are in Go. *)
Definition op_typed (o : op) : Prop :=
  match o with
  | opSetNonce a n => address_ok a ∧ is_u64 n
  | opCreateAccount a | opSubBalance a _ | opAddBalance a _ | opGetBalance a | opGetNonce a | opHasCode a
  | opGetCodeHash a | opGetCode a | opSetCode a _ | opGetCodeSize a | opGetCommittedState a _ | opGetState a _
  | opSetState a _ _ | StateDBRevert.opSuicide a | opHasSuicided a | opExist a | opEmpty a => address_ok a
  | opAddRefund _ | opSubRefund _ | opGetRefund | opRevertToSnapshot _ | opSnapshot | opAddLog _ | opAddPreimage _ _ => True
  end.

(** Reading and writing storage. *)
Definition storing (o : op) : Prop :=
  match o with opGetState _ _ | opSetState _ _ _ => True | _ => False end.

Inductive effect (ro : bool) : StateDB → StateDB → Prop :=
| eff_done s : effect ro s s
| eff_op o s s1 s2 : allowed ro s o → op_typed o → runOp db o s = Some s1 → effect ro s1 s2 → effect ro s s2
| eff_transfer a b v s s2 :
    ro = false → address_ok a → address_ok b → 0 ≤ v ≤ bal s a → effect ro (AddBalance b v (SubBalance a v s)) s2 → effect ro s s2
| eff_suicide self b ops s s1 s2 :
    ro = false → address_ok self → address_ok b → Forall storing ops → Forall op_typed ops →
    runOps db ops (AddBalance b (bal s self) s) = Some s1 → effect ro (Suicide self s1).2 s2 → effect ro s s2
| eff_undone s s1 s2 s3 :
    effect ro (Snapshot s).2 s1 → RevertToSnapshot (Snapshot s).1 s1 = Some s2 → effect ro s2 s3 → effect ro s s3.

Lemma effect_trans ro s1 s2 s3 : effect ro s1 s2 → effect ro s2 s3 → effect ro s1 s3.
Proof.
  induction 1 as [|o s s1 s2|a b v s s2|self b ops s s1 s2|s s1 s2 s4]; intros He;
    [done|eapply (eff_op _ o s s1)|eapply (eff_transfer _ a b v)|eapply (eff_suicide _ self b ops s s1)|eapply (eff_undone _ s s1 s2)]; auto.
Qed.

Lemma effect_op ro o s s1 : allowed ro s o → op_typed o → runOp db o s = Some s1 → effect ro s s1.
Proof. intros. by eapply eff_op; [| | |constructor]. Qed.

Lemma effect_mono s s' : effect true s s' → ∀ ro, effect ro s s'.
Proof.
  induction 1 as [| o s s1 s2 Ha Ho Hr _ IH | | | s s1 s2 s3 _ IH1 Hr _ IH2]; intros ro; [constructor| |done|done|by eapply eff_undone].
  eapply eff_op; [|exact Ho|exact Hr|apply IH]. destruct o; cbn in *; try done; naive_solver.
Qed.

(** A run of operations with addresses and nonces as Go has them. *)
Definition reaches (s s' : StateDB) : Prop := ∃ ops, Forall op_typed ops ∧ runOps db ops s = Some s'.

Lemma reaches_refl s : reaches s s.
Proof. by exists []. Qed.

Lemma reaches_ops ops s s1 s2 : Forall op_typed ops → runOps db ops s = Some s1 → reaches s1 s2 → reaches s s2.
Proof.
  intros Ho E (ops' & Ho' & E'). exists (ops ++ ops'). split; [by apply Forall_app|]. revert s E. induction Ho as [|o ops _ _ IH]; intros s; cbn [runOps app].
  - by intros [= ->].
  - destruct (runOp db o s); [|done]. cbn. apply IH.
Qed.

Lemma reaches_trans s1 s2 s3 : reaches s1 s2 → reaches s2 s3 → reaches s1 s3.
Proof. intros (ops & Ho & E). by eapply reaches_ops. Qed.

Lemma reaches_op o s s' : op_typed o → runOp db o s = Some s' → reaches s s'.
Proof. intros Ho E. exists [o]. split; [by constructor|]. cbn. by rewrite E. Qed.

Lemma effect_reaches ro s s' : effect ro s s' → reaches s s'.
Proof.
  induction 1 as [s|o s s1 s2 Ha Ho Hr _ IH|a b v s s2 _ Oa Ob _ _ IH|self b ops s s1 s2 _ Os Ob _ Ho Hr _ IH|s s1 s2 s3 _ IH1 Hr _ IH2].
  - apply reaches_refl.
  - eapply reaches_trans; [by eapply reaches_op|done].
  - eapply (reaches_ops [opSubBalance a v; opAddBalance b v]); [|reflexivity|exact IH].
    constructor; [exact Oa|]. constructor; [exact Ob|constructor].
  - eapply reaches_trans; [by eapply (reaches_op (opAddBalance b (bal s self)))|].
    eapply reaches_ops; [exact Ho|exact Hr|]. eapply reaches_trans; [by eapply (reaches_op (StateDBRevert.opSuicide self))|exact IH].
  - eapply reaches_trans; [by eapply (reaches_op opSnapshot)|]. eapply reaches_trans; [exact IH1|].
    eapply reaches_trans; [by eapply (reaches_op (opRevertToSnapshot (Snapshot s).1))|exact IH2].
Qed.

(** ** The journal *)

(** The journal and the snapshots of [s] are still there. *)
Definition extends (s s' : StateDB) : Prop :=
  ∃ l es, sd_validRevisions s' = sd_validRevisions s ++ l ∧ sd_entries s' = sd_entries s ++ es ∧ hist db s es s'.

Lemma extends_refl s : extends s s.
Proof. exists [], []. rewrite !app_nil_r. split_and!; [done..|]. apply hist_nil, same_refl. Qed.

Lemma extends_trans s1 s2 s3 : extends s1 s2 → extends s2 s3 → extends s1 s3.
Proof.
  intros (l & es & E1 & E2 & H) (l' & es' & E3 & E4 & H'). exists (l ++ l'), (es ++ es').
  rewrite E3, E4, E1, E2, !app_assoc. split_and!; [done..|]. by eapply hist_trans.
Qed.

Lemma extends_does s s' : does db s s' → extends s s'.
Proof. intros (_ & B & _ & es & E & H). injection B as _ _ _ _ Ev _ _. exists [], es. by rewrite app_nil_r. Qed.

Lemma extends_snapshot s : wf s → extends s (Snapshot s).2.
Proof.
  intros Hw. exists [(sd_nextRevisionId s, length (sd_entries s))], []. rewrite app_nil_r. split_and!; [done..|].
  apply hist_nil. exact (proj2 (revisions_same db s _ (sd_nextRevisionId s + 1) Hw)).
Qed.

Lemma runOp_extends o s s' :
  wf s → runOp db o s = Some s' → (∀ id, o ≠ opRevertToSnapshot id) → extends s s'.
Proof.
  intros Hw Hr Ho. pose proof (runOp_does db o s s' Hw Hr) as Hd.
  destruct o; try (by apply extends_does); [by destruct (Ho revid)|]. injection Hr as <-. by apply extends_snapshot.
Qed.

(** A run that began with a snapshot can be undone. *)
Lemma undo_extends base s s1 :
  tracked db base s → tracked db base s1 → extends (Snapshot s).2 s1 →
  ∃ s2, RevertToSnapshot (Snapshot s).1 s1 = Some s2 ∧ tracked db base s2 ∧ same db s s2 ∧
    sd_entries s2 = sd_entries s ∧ sd_validRevisions s2 = sd_validRevisions s.
Proof.
  intros Ht Ht1 (l & es & Ev & Ee & Hh). cbn [Snapshot snd fst] in *. upd. rewrite <- app_assoc in Ev. cbn in Ev.
  destruct (RevertToSnapshot_does db base s1 (sd_validRevisions s) (sd_nextRevisionId s) (length (sd_entries s)) l Ht1 Ev)
    as (s2 & E & T & Ev2 & _ & H2).
  { apply Forall_impl with (1 := tr_bound _ _ _ Ht). by intros r []. }
  exists s2. split_and!; try done.
  all: destruct (H2 _ (sd_entries s) es O Ee (eq_sym (Nat.add_0_r _)) Hh) as [Ee2 Hh2]; rewrite take_0, ?app_nil_r in *; try done.
  inversion Hh2 as [? Hs|es0 ? ? ? ? ? ? ? E0]; [|by destruct es0].
  eapply same_trans; [|exact Hs]. exact (proj2 (revisions_same db s _ (sd_nextRevisionId s + 1) (tr_wf _ _ _ Ht))).
Qed.

(** The steps of a destruction are operations. *)
Lemma runOps_extends base ops s s' :
  tracked db base s → runOps db ops s = Some s' → Forall (λ o, ∀ id, o ≠ opRevertToSnapshot id) ops →
  tracked db base s' ∧ extends s s'.
Proof.
  intros Ht Hr Ho. revert s Ht Hr. induction Ho as [|o ops Ho _ IH]; intros s Ht; cbn [runOps].
  - intros [= <-]. split; [done|apply extends_refl].
  - destruct (runOp db o s) as [s1|] eqn:E; [|done]. intros Hr.
    destruct (IH s1) as [T X]; [by eapply runOp_tracked|done|]. split; [done|].
    eapply extends_trans; [|exact X]. eapply runOp_extends; [apply Ht|done|done].
Qed.

Lemma effect_extends base ro s s' : effect ro s s' → tracked db base s → tracked db base s' ∧ extends s s'.
Proof.
  induction 1 as [s|o s s1 s2 Ha _ Hr _ IH|a b v s s2 _ _ _ _ _ IH|self b ops s s1 s2 _ _ _ Ho _ Hr _ IH|s s1 s2 s3 _ IH1 Hr _ IH2]; intros Ht.
  - split; [done|apply extends_refl].
  - destruct IH as [T X]; [by eapply runOp_tracked|]. split; [done|]. eapply extends_trans; [|exact X].
    eapply runOp_extends; [apply Ht|exact Hr|by intros ? ->].
  - destruct (runOps_extends base [opSubBalance a v; opAddBalance b v] s _ Ht eq_refl) as [T X]; [by repeat constructor|].
    destruct (IH T) as [T' X']. split; [done|by eapply extends_trans].
  - destruct (runOps_extends base [opAddBalance b (bal s self)] s _ Ht eq_refl) as [T X]; [by repeat constructor|].
    destruct (runOps_extends base ops _ s1 T Hr) as [T1 X1].
    { eapply Forall_impl; [exact Ho|]. by intros [] ? ?. }
    destruct (runOps_extends base [StateDBRevert.opSuicide self] s1 _ T1 eq_refl) as [T2 X2]; [by repeat constructor|].
    destruct (IH T2) as [T' X']. split; [done|]. by do 3 (eapply extends_trans; [eassumption|]).
  - destruct (IH1 (Snapshot_tracked db base s Ht)) as [T1 X1].
    destruct (undo_extends base s s1 Ht T1 X1) as (s2' & E & T2 & S2 & Ee & Ev). assert (s2' = s2) as -> by congruence.
    destruct (IH2 T2) as [T3 X3]. split; [done|]. eapply extends_trans; [|exact X3].
    exists [], []. rewrite Ee, Ev, !app_nil_r. split_and!; [done..|]. by apply hist_nil.
Qed.

(** The run of a call that fails can be undone, and leaves no trace. *)
Lemma effect_undo base ro s s1 :
  tracked db base s → effect ro (Snapshot s).2 s1 →
  ∃ s2, RevertToSnapshot (Snapshot s).1 s1 = Some s2 ∧ same db s s2 ∧ effect ro s s2.
Proof.
  intros Ht He. destruct (effect_extends base ro _ _ He (Snapshot_tracked db base s Ht)) as [T1 X1].
  destruct (undo_extends base s s1 Ht T1 X1) as (s2 & E & T2 & S2 & _). exists s2. split_and!; [done..|].
  by eapply eff_undone; [| |constructor].
Qed.

(** An induction over the steps of an effect in a tracked state. *)
Lemma effect_steps base ro (P : StateDB → StateDB → Prop) :
  (∀ s, P s s) → (∀ s1 s2 s3, P s1 s2 → P s2 s3 → P s1 s3) →
  (∀ o s s1, tracked db base s → allowed ro s o → op_typed o → runOp db o s = Some s1 → P s s1) →
  (∀ a b v s, tracked db base s → ro = false → address_ok a → address_ok b → 0 ≤ v ≤ bal s a → P s (AddBalance b v (SubBalance a v s))) →
  (∀ self b ops s s1, tracked db base s → tracked db base s1 → ro = false → address_ok self → address_ok b →
     Forall storing ops → Forall op_typed ops → runOps db ops (AddBalance b (bal s self) s) = Some s1 → P s (Suicide self s1).2) →
  (∀ s s2, same db s s2 → P s s2) →
  ∀ s s', effect ro s s' → tracked db base s → P s s'.
Proof.
  intros Prefl Ptrans Pop Ptransfer Psuicide Psame s s'.
  induction 1 as [s|o s s1 s2 Ha Hok Hr _ IH|a b v s s2 Er Oa Ob Hv _ IH|self b ops s s1 s2 Er Oself Ob Ho Hok Hr _ IH|s s1 s2 s3 He IH1 Hr _ IH2]; intros Ht.
  - done.
  - eapply Ptrans; [by eapply Pop|]. apply IH. by eapply runOp_tracked.
  - eapply Ptrans; [by apply (Ptransfer a b v s)|]. apply IH.
    by apply (runOps_tracked db base [opSubBalance a v; opAddBalance b v] s).
  - assert (tracked db base s1) as T1.
    { eapply (runOps_tracked db base (opAddBalance b (bal s self) :: ops) s); [done|]. exact Hr. }
    eapply Ptrans; [by apply (Psuicide self b ops s s1)|]. apply IH. by apply (runOps_tracked db base [StateDBRevert.opSuicide self] s1).
  - destruct (effect_extends base ro _ _ He (Snapshot_tracked db base s Ht)) as [T1 X1].
    destruct (undo_extends base s s1 Ht T1 X1) as (s2' & E & T2 & S2 & _). assert (s2' = s2) as -> by congruence.
    eapply Ptrans; [by apply Psame|]. by apply IH2.
Qed.

(** ** Balances and code *)

Definition sane (s : StateDB) : Prop := ∀ a, address_ok a → 0 ≤ bal s a ∧ code_ok (code_at db s a).

Lemma oeq_shows o o' : oeq db o o' → ac_Balance (so_data o) = ac_Balance (so_data o') ∧ code_of db o = code_of db o'.
Proof. intros H. by rewrite (oe_data _ _ _ H), (oe_code _ _ _ H). Qed.

Lemma same_shows s s' a : same db s s' → bal s' a = bal s a ∧ code_at db s' a = code_at db s a.
Proof.
  intros [H _]. rewrite !bal_account. unfold code_at. destruct (oeq_shows _ _ (sim_account db s s' a H)). split; congruence.
Qed.

Lemma allowed_view ro o s s' a :
  wf s → allowed ro s o → runOp db o s = Some s' → oeq db (account s' a) (acts o a (account s a)).
Proof. intros Hw Ha Hr. pose proof (runOp_view db o s s' a Hw Hr). by destruct o. Qed.

Lemma allowed_bal ro o s s' a : wf s → allowed ro s o → runOp db o s = Some s' → bal s' a = bal s a.
Proof.
  intros Hw Ha Hr. rewrite !bal_account, (oe_data _ _ _ (allowed_view ro o s s' a Hw Ha Hr)).
  destruct o; cbn [acts allowed] in *; try done; destruct (decide _); subst; try done;
    unfold setBalance; upd; upd; lia.
Qed.

Lemma code_ok_nil : code_ok [].
Proof. split; [done|]. by vm_compute. Qed.

Lemma allowed_code ro o s s' a :
  wf s → allowed ro s o → runOp db o s = Some s' → code_ok (code_at db s a) → code_ok (code_at db s' a).
Proof.
  intros Hw Ha Hr. unfold code_at. rewrite (oe_code _ _ _ (allowed_view ro o s s' a Hw Ha Hr)).
  destruct o; cbn [acts]; try done; destruct (decide _); try done; intros _.
  - unfold code_of. cbn. rewrite Z.eqb_refl. apply code_ok_nil.
  - apply Ha.
Qed.

Lemma storing_allowed o s : storing o → allowed false s o.
Proof. by destruct o. Qed.

Lemma storing_bal ops s s' a : wf s → Forall storing ops → runOps db ops s = Some s' →
  bal s' a = bal s a ∧ (code_ok (code_at db s a) → code_ok (code_at db s' a)).
Proof.
  intros Hw Ho. revert s Hw. induction Ho as [|o ops Ho _ IH]; intros s Hw; cbn [runOps]; [by intros [= <-]|].
  destruct (runOp db o s) as [s1|] eqn:E; [|done]. intros Hr. cbn in Hr. pose proof (storing_allowed o s Ho) as Ha.
  assert (wf s1) as W1 by (pose proof (runOp_does db o s s1 Hw E) as Hd; by destruct o; try destruct Ho; destruct Hd).
  destruct (IH s1 W1 Hr) as [Hb Hc]. rewrite Hb. split; [by eapply allowed_bal|].
  intros Hk. apply Hc. by eapply (allowed_code false o s).
Qed.

Lemma AddBalance_bal b v s a : wf s →
  bal (AddBalance b v s) a = (if decide (a = b) then bal s a + v else bal s a) ∧
  code_at db (AddBalance b v s) a = code_at db s a ∧ wf (AddBalance b v s).
Proof.
  intros Hw. rewrite !bal_account. unfold code_at. destruct (oeq_shows _ _ (AddBalance_view db b v s a Hw)) as [-> ->].
  split; [|split]; [cbn; by destruct (decide _)..|]. by eapply (runOp_does db (opAddBalance b v)).
Qed.

Lemma SubBalance_bal b v s a : wf s →
  bal (SubBalance b v s) a = (if decide (a = b) then bal s a - v else bal s a) ∧
  code_at db (SubBalance b v s) a = code_at db s a ∧ wf (SubBalance b v s).
Proof.
  intros Hw. rewrite !bal_account. unfold code_at. destruct (oeq_shows _ _ (SubBalance_view db b v s a Hw)) as [-> ->].
  split; [|split]; [cbn; by destruct (decide _)..|]. by eapply (runOp_does db (opSubBalance b v)).
Qed.

Lemma transfer_bal a b v s x : wf s →
  bal (AddBalance b v (SubBalance a v s)) x =
    bal s x + (if decide (x = b) then v else 0) - (if decide (x = a) then v else 0) ∧
  code_at db (AddBalance b v (SubBalance a v s)) x = code_at db s x.
Proof.
  intros Hw. destruct (SubBalance_bal a v s x Hw) as (E1 & E2 & W). destruct (AddBalance_bal b v _ x W) as (-> & -> & _).
  rewrite E1, E2. split; [|done]. destruct (decide (x = b)), (decide (x = a)); lia.
Qed.

Lemma Suicide_bal b s a : wf s →
  bal (Suicide b s).2 a = (if decide (a = b) then 0 else bal s a) ∧
  code_at db (Suicide b s).2 a = code_at db s a.
Proof.
  intros Hw. rewrite !bal_account. unfold code_at. destruct (oeq_shows _ _ (Suicide_view db b s a Hw)) as [-> ->].
  destruct (decide (a = b ∧ _)) as [[-> _]|Hn]; [by rewrite decide_True|]. split; [|done].
  destruct (decide (a = b)) as [->|]; [|done]. unfold account. destruct (live s b) eqn:E; [|done]. destruct Hn. eauto.
Qed.

Lemma destroy_bal self b ops s s1 a :
  wf s → wf s1 → Forall storing ops → runOps db ops (AddBalance b (bal s self) s) = Some s1 →
  bal (Suicide self s1).2 a =
    (if decide (a = self) then 0 else if decide (a = b) then bal s a + bal s self else bal s a) ∧
  (code_ok (code_at db s a) → code_ok (code_at db (Suicide self s1).2 a)).
Proof.
  intros Hw W1 Ho Hr. destruct (AddBalance_bal b (bal s self) s a Hw) as (E1 & E2 & W).
  destruct (storing_bal ops _ s1 a W Ho Hr) as [E3 E4]. destruct (Suicide_bal self s1 a W1) as [-> ->].
  by rewrite E3, E1, <- E2.
Qed.

Lemma effect_sane base ro s s' : effect ro s s' → tracked db base s → sane s → sane s'.
Proof.
  intros He Ht. apply (effect_steps base ro (λ s s', sane s → sane s')); try done; clear s s' He Ht.
  - auto.
  - intros o s s1 Ht Ha Hok Hr Hs a Oa. pose proof (tr_wf _ _ _ Ht). rewrite (allowed_bal ro o s s1 a) by done.
    split; [by apply Hs|]. eapply allowed_code; try done. by apply Hs.
  - intros a b v s Ht _ _ _ Hv Hs x Ox. destruct (transfer_bal a b v s x (tr_wf _ _ _ Ht)) as [-> ->].
    split; [|by apply Hs]. destruct (Hs x Ox). destruct (decide (x = b)), (decide (x = a)); subst; lia.
  - intros self b ops s s1 Ht Ht1 _ Os _ Ho _ Hr Hs x Ox.
    destruct (destroy_bal self b ops s s1 x (tr_wf _ _ _ Ht) (tr_wf _ _ _ Ht1) Ho Hr) as [-> Hc].
    split; [|by apply Hc, Hs]. destruct (Hs x Ox), (Hs self Os). destruct (decide (x = self)), (decide (x = b)); lia.
  - intros s s2 Hss Hs x Ox. destruct (same_shows s s2 x Hss) as [-> ->]. by apply Hs.
Qed.

(** ** Money *)

Lemma weight_of_shift (w w' : Address → Z) (f : Address → Z) (L : gset Address) :
  (∀ x, w' x = w x + f x) → weight_of w' L = weight_of w L + weight_of f L.
Proof.
  intros H. unfold weight_of. induction (elements L) as [|x l IH]; [done|]. rewrite !sumZ_cons, IH, H. lia.
Qed.

Lemma weight_of_add (f g : Address → Z) (L : gset Address) :
  weight_of (λ x, f x + g x) L = weight_of f L + weight_of g L.
Proof. by apply weight_of_shift. Qed.

Lemma weight_of_point (a : Address) (v : Z) (L : gset Address) :
  a ∈ L → weight_of (λ x, if decide (x = a) then v else 0) L = v.
Proof.
  intros Ha. unfold weight_of.
  assert (∀ l : list Address, NoDup l → sumZ (λ x, if decide (x = a) then v else 0) l = if decide (a ∈ l) then v else 0) as H.
  { induction 1 as [|x l Hx _ IH]; [by rewrite decide_False by apply not_elem_of_nil|]. rewrite sumZ_cons, IH.
    destruct (decide (x = a)) as [->|]; [rewrite decide_False by done; rewrite decide_True by left; lia|].
    destruct (decide (a ∈ l)); [by rewrite decide_True by (by right)|].
    rewrite decide_False; [lia|]. intros [->|]%elem_of_cons; done. }
  rewrite H by apply NoDup_elements. by rewrite decide_True by (by apply elem_of_elements).
Qed.

(** The accounts of [s'] together have at most what those of [s] have: in every
    collection of accounts that is large enough. *)
Definition addresses (L : gset Address) : Prop := ∀ a, a ∈ L → address_ok a.
Definition no_richer (s s' : StateDB) : Prop :=
  ∃ T, addresses T ∧ ∀ L, T ⊆ L → addresses L → weight_of (bal s') L ≤ weight_of (bal s) L.

Lemma effect_money base ro s s' : effect ro s s' → tracked db base s → sane s → no_richer s s'.
Proof.
  intros He Ht Hs. cut (sane s' ∧ no_richer s s'); [by intros []|]. revert Hs.
  apply (effect_steps base ro (λ s s', sane s → sane s' ∧ no_richer s s')); try done; clear s s' He Ht.
  - intros s Hs. split; [done|]. exists ∅. split; [by intros a ?%elem_of_empty|done].
  - intros s1 s2 s3 H1 H2 Hs. destruct (H1 Hs) as [Hs2 (T & OT & HT)], (H2 Hs2) as [Hs3 (T' & OT' & HT')]. split; [done|].
    exists (T ∪ T'). split; [intros a [?|?]%elem_of_union; auto|]. intros L HL OL. etrans; [apply HT'|apply HT]; set_solver.
  - intros o s s1 Ht Ha Hok Hr Hs. split; [eapply effect_sane; [by eapply effect_op|done..]|]. exists ∅. split; [by intros a ?%elem_of_empty|]. intros L _ _.
    unfold weight_of. rewrite (sumZ_ext (bal s1) (bal s)); [done|]. intros x _. eapply allowed_bal; [apply Ht|done..].
  - intros a b v s Ht Er Oa Ob Hv Hs. split; [eapply effect_sane; [by eapply eff_transfer; [..|constructor]|done..]|].
    exists {[a; b]}. split; [by intros x [->%elem_of_singleton| ->%elem_of_singleton]%elem_of_union|]. intros L HL _.
    rewrite (weight_of_shift (bal s) _ (λ x, (if decide (x = b) then v else 0) + (if decide (x = a) then - v else 0))).
    + rewrite weight_of_add, !weight_of_point by set_solver. lia.
    + intros x. destruct (transfer_bal a b v s x (tr_wf _ _ _ Ht)) as [-> _]. destruct (decide (x = b)), (decide (x = a)); lia.
  - intros self b ops s s1 Ht Ht1 Er Oself Ob Ho Hok Hr Hs.
    split; [eapply effect_sane; [by eapply eff_suicide; [..|constructor]|done..]|].
    exists {[self; b]}. split; [by intros x [->%elem_of_singleton| ->%elem_of_singleton]%elem_of_union|]. intros L HL _. set (v := bal s self). assert (0 ≤ v) as Hv by by apply Hs.
    rewrite (weight_of_shift (bal s) _ (λ x, (if decide (x = self) then - v else 0) +
      (if decide (x = b) then (if decide (b = self) then 0 else v) else 0))).
    + rewrite weight_of_add, !weight_of_point by set_solver. destruct (decide (b = self)); lia.
    + intros x. destruct (destroy_bal self b ops s s1 x (tr_wf _ _ _ Ht) (tr_wf _ _ _ Ht1) Ho Hr) as [-> _].
      fold v. assert (bal s self = v) as Ev by done. clearbody v.
      destruct (decide (x = self)), (decide (x = b)), (decide (b = self)); subst; try done; lia.
  - intros s s2 Hss Hs. split.
    + intros x Ox. destruct (same_shows s s2 x Hss) as [-> ->]. by apply Hs.
    + exists ∅. split; [by intros a ?%elem_of_empty|]. intros L _ _. unfold weight_of. rewrite (sumZ_ext (bal s2) (bal s)); [done|]. intros x _. apply (same_shows s s2 x Hss).
Qed.

(** ** Static calls *)

(** The refund and the logs, which only few operations change. *)
Definition records (s : StateDB) := (sd_refund s, sd_logs s).

Lemma records_append e s : records (journal_append e s) = records s.
Proof. destruct (append_keeps e s) as (_ & _ & E1 & E2 & _). unfold records. by rewrite E1, E2. Qed.

Lemma records_set o s : records (setStateObject o s) = records s.
Proof. done. Qed.

Lemma records_get a s : records (getStateObject a s).2 = records s.
Proof.
  unfold getStateObject. destruct (sd_stateObjects s !! a); [done|]. destruct (TryGet _ _) as [[|b enc] err].
  - unfold setError. by destruct (sd_dbErr s).
  - by destruct (decode_account _).
Qed.

Lemma records_with {A : Type} (none : A) f a s : records (with_object none f a s).2 = records s.
Proof.
  unfold with_object. pose proof (records_get a s) as H. destruct (getStateObject a s) as [[o|] s1]; [|done]. destruct (f o). exact H.
Qed.

Lemma records_create a s : records (createObject a s).2 = records s.
Proof.
  unfold createObject. pose proof (records_get a s) as H. destruct (getStateObject a s) as [prev s1]. cbn [snd] in *.
  by rewrite records_set, records_append.
Qed.

Lemma records_on a f s : (∀ o s, records (f o s) = records s) →
  records (let '(o, s) := GetOrNewStateObject a s in f o s) = records s.
Proof.
  intros Hf. unfold GetOrNewStateObject. pose proof (records_get a s) as H. destruct (getStateObject a s) as [o s1]. cbn [snd] in *.
  pose proof (records_create a s1) as H1. destruct (createObject a s1) as [[new prev] s2]. cbn [snd] in *.
  destruct o as [o|]; [destruct (so_deleted o)|]; rewrite Hf; congruence.
Qed.

Lemma static_records o s s' : allowed true s o → runOp db o s = Some s' → records s' = records s.
Proof.
  intros Ha. destruct o; cbn in Ha; try done; try (by destruct Ha); cbn [runOp]; intros [= <-]; try apply records_with; try done.
  - unfold CreateAccount. pose proof (records_create addr s) as H. destruct (createObject addr s) as [[o [p|]] s1]; [|done]. exact H.
  - apply records_on. intros o s1. by rewrite Ha.
  - apply records_on. intros o s1. rewrite Ha. unfold stateObject_AddBalance. cbn.
    destruct (stateObject_empty o); [|done]. unfold touch. destruct (_ =? _); exact (records_append _ s1).
  - unfold GetCodeSize. pose proof (records_get addr s) as H. destruct (getStateObject addr s) as [[o|] s1]; [|done].
    destruct (so_code o); [done|]. destruct (ContractCodeSize _ _ _) as [size [err|]]; [|done].
    cbn [snd] in *. unfold setError. by destruct (sd_dbErr s1).
  - unfold Exist. pose proof (records_get addr s) as H. by destruct (getStateObject addr s).
  - unfold Empty. pose proof (records_get addr s) as H. by destruct (getStateObject addr s).
  - unfold AddPreimage. destruct (_ !! _); [done|]. exact (records_append _ s).
Qed.

(** The same accounts (up to empty ones that were absent), refund and logs. *)
Record unseen (s s' : StateDB) : Prop := {
  un_account : ∀ a, oeq db (account s a) (account s' a);
  un_refund : sd_refund s' = sd_refund s;
  un_logs : ∀ h, GetLogs h s' = GetLogs h s
}.

Lemma static_account o s s' a :
  wf s → allowed true s o → runOp db o s = Some s' → oeq db (account s a) (account s' a).
Proof.
  intros Hw Ha Hr. symmetry. etrans; [by eapply (allowed_view true)|].
  destruct o; cbn [acts allowed] in *; try done; try (by destruct Ha); destruct (decide _) as [->|]; try done.
  - unfold account. rewrite Ha by done. exact (setBalance_same db (newObject addr zeroAccount)).
  - rewrite Ha, Z.sub_0_r. apply setBalance_same.
  - rewrite Ha, Z.add_0_r. apply setBalance_same.
Qed.

Lemma effect_unseen base s s' : effect true s s' → tracked db base s → unseen s s'.
Proof.
  intros He Ht. revert s s' He Ht. apply (effect_steps base true unseen); try done.
  - intros s1 s2 s3 [Ha ? Hl] [Ha' ? Hl']. split; [intros a; etrans; [apply Ha|apply Ha']|congruence|]. intros h. by rewrite Hl'.
  - intros o s s1 Ht Ha Hok Hr. pose proof (static_records o s s1 Ha Hr) as [= E1 E2]. split; [|done|].
    + intros a. by eapply static_account; [apply Ht|..].
    + intros h. unfold GetLogs. by rewrite E2.
  - intros s s2 [Hs _]. split; [|symmetry; apply Hs|intros h; symmetry; apply Hs]. intros a. by apply sim_account.
Qed.
End effect.
