(* ===== verification/StateTyped.v ===== *)
(** * StateTyped: the state stays within the types of Go

    Addresses of 20 bytes, nonces of 64 bits, hashes of 32 bytes: every operation with such
    arguments keeps the loaded accounts, the journal and the trie within these types, and so
    does the end of a transaction.  So a transaction that keeps balances from becoming
    negative can always be finished, and leaves a state for the next one. *)

From S2P Require Import Prelude Bytes Crypto MinerContract StateDB SecureTrie StateDBFacts StateDBRevert StateDBCommit StateDBView EvmMemory EvmState EvmEffect.

Local Open Scope Z_scope.

Section typed.
Context `{CR : Crypto} `{DS : !DigestSize} `{SD : StateDatabase} (db : Database).

Record object_typed (o : stateObject) : Prop := {
  ot_address : address_ok (so_address o);
  ot_nonce : is_u64 (ac_Nonce (so_data o));
  ot_root : hash_ok (ac_Root (so_data o));
  ot_code : hash_ok (ac_CodeHash (so_data o));
  ot_deleted : so_deleted o = true → 0 ≤ ac_Balance (so_data o)
}.

Definition entry_typed (e : journalEntry) : Prop :=
  match e with
  | resetObjectChange prev => object_typed prev
  | nonceChange a n => address_ok a ∧ is_u64 n
  | codeChange a _ h => address_ok a ∧ hash_ok h
  | createObjectChange a | suicideChange a _ _ | balanceChange a _ | storageChange a _ _ | touchChange a => address_ok a
  | refundChange _ | addLogChange _ | addPreimageChange _ => True
  end.

Record kept (s : StateDB) : Prop := {
  kp_objects : ∀ a o, sd_stateObjects s !! a = Some o → so_address o = a ∧ object_typed o;
  kp_entries : Forall entry_typed (sd_entries s);
  kp_trie : ∀ a o, address_ok a → load (sd_trie s) a = Some o → account_ok (so_data o)
}.

(** What the journal, the objects and the trie of two states share. *)
Lemma kept_ext s s' :
  sd_stateObjects s' = sd_stateObjects s → sd_entries s' = sd_entries s → sd_trie s' = sd_trie s → kept s → kept s'.
Proof. intros E1 E2 E3 [H1 H2 H3]. split; by rewrite ?E1, ?E2, ?E3. Qed.

Lemma kept_append e s : entry_typed e → kept s → kept (journal_append e s).
Proof.
  intros He [H1 H2 H3]. assert (kept (s <| sd_entries ::= λ es, es ++ [e] |>)) as Hk.
  { split; [done| |done]. upd. apply Forall_app. split; [done|by constructor]. }
  unfold journal_append. destruct (dirtied e); [|exact Hk]. by eapply kept_ext; [..|exact Hk].
Qed.

Lemma kept_set o s : object_typed o → kept s → kept (setStateObject o s).
Proof.
  intros Ho [H1 H2 H3]. split; [|done..]. intros a o'. unfold setStateObject. upd.
  rewrite lookup_insert_Some. intros [[<- <-]|[_ E]]; [done|by apply H1].
Qed.

Lemma account_typed a d : address_ok a → account_ok d → object_typed (newObject a d).
Proof. intros Ha []. by split. Qed.

Lemma object_oeq o o' : oeq db o o' → object_typed o → object_typed o'.
Proof. intros Ho [H1 H2 H3 H4 H5]. split; rewrite <- ?(oe_address _ _ _ Ho), <- ?(oe_data _ _ _ Ho), <- ?(oe_deleted _ _ _ Ho); done. Qed.

Lemma kept_get a s : address_ok a → kept s →
  kept (getStateObject a s).2 ∧ ∀ o, (getStateObject a s).1 = Some o → object_typed o ∧ so_address o = a ∧ so_deleted o = false.
Proof.
  intros Ha Hk. pose proof Hk as [H1 _ H3]. unfold getStateObject. destruct (sd_stateObjects s !! a) as [o|] eqn:E.
  - split; [done|]. destruct (H1 a o E) as [Ea Ho]. cbn. intros o'. destruct (so_deleted o) eqn:Ed; [done|]. by intros [= <-].
  - specialize (H3 a). unfold load in H3. destruct (TryGet _ _) as [[|b enc] err]; cbn [fst snd].
    + split; [|done]. unfold setError. destruct (sd_dbErr s); [done|]. by eapply kept_ext; [..|exact Hk].
    + cbn [fst] in H3. destruct (decode_account _) as [data|]; [|done]. cbn [fst snd].
      assert (object_typed (newObject a data)) as Ho by (apply account_typed; [done|]; by apply (H3 (newObject a data))).
      split; [by apply kept_set|]. by intros o [= <-].
Qed.

Lemma zero_typed : account_ok zeroAccount.
Proof. split; cbn; [by split|done|by split|]. apply keccak256_ok. Qed.

Lemma kept_create a s : address_ok a → kept s →
  kept (createObject a s).2 ∧ object_typed (createObject a s).1.1 ∧ so_address (createObject a s).1.1 = a ∧
  so_deleted (createObject a s).1.1 = false.
Proof.
  intros Ha Hk. unfold createObject. destruct (kept_get a s Ha Hk) as [Hk1 Ho]. destruct (getStateObject a s) as [prev s1]. cbn [fst snd] in *.
  assert (object_typed (setNonce 0 (newObject a zeroAccount))) as Hz by exact (account_typed a zeroAccount Ha zero_typed).
  split_and!; [|done..]. apply kept_set; [done|]. apply kept_append; [|done]. destruct prev as [o|]; [|done]. by apply (Ho o).
Qed.

Lemma kept_on a f s : address_ok a → kept s →
  (∀ o s, object_typed o → so_address o = a → so_deleted o = false → kept s → kept (f o s)) →
  kept (let '(o, s) := GetOrNewStateObject a s in f o s).
Proof.
  intros Ha Hk Hf. unfold GetOrNewStateObject. destruct (kept_get a s Ha Hk) as [Hk1 Ho].
  destruct (getStateObject a s) as [o s1]. cbn [fst snd] in *. destruct (kept_create a s1 Ha Hk1) as (Hk2 & Hn & En & Dn).
  destruct (createObject a s1) as [[new prev] s2]. cbn [fst snd] in *.
  destruct o as [o|]; [|by apply Hf]. destruct (Ho o eq_refl) as (H1 & H2 & H3). rewrite H3. by apply Hf.
Qed.

Lemma kept_with {A : Type} (none : A) f a s : address_ok a → kept s → (∀ o, oeq db o (f o).2) → kept (with_object none f a s).2.
Proof.
  intros Ha Hk Hf. unfold with_object. destruct (kept_get a s Ha Hk) as [Hk1 Ho]. destruct (getStateObject a s) as [[o|] s1]; [|done].
  cbn [fst snd] in *. specialize (Hf o). destruct (f o) as [x o']. cbn [snd] in *. apply kept_set; [|done].
  eapply object_oeq; [exact Hf|]. by apply (Ho o).
Qed.

(** ** Undoing *)

Lemma kept_object a f s s' : address_ok a → kept s → (∀ o, object_typed o → so_deleted o = false → object_typed (f o)) →
  on_object a f s = Some s' → kept s'.
Proof.
  intros Ha Hk Hf. unfold on_object. destruct (kept_get a s Ha Hk) as [Hk1 Ho]. destruct (getStateObject a s) as [[o|] s1]; [|done].
  cbn [fst snd] in *. intros [= <-]. destruct (Ho o eq_refl) as (? & _ & ?). apply kept_set; [by apply Hf|done].
Qed.

Lemma balance_typed v o : object_typed o → so_deleted o = false → object_typed (setBalance v o).
Proof. intros [H1 H2 H3 H4 H5] Hd. split; try done. unfold setBalance. upd. by rewrite Hd. Qed.

Lemma kept_revert e s s' : entry_typed e → kept s → entry_revert e s = Some s' → kept s'.
Proof.
  intros He Hk. destruct e; cbn [entry_revert entry_typed] in *.
  - intros [= <-]. destruct Hk as [H1 H2 H3]. split; [|done..]. intros a o. upd. rewrite lookup_delete_Some. intros [_ E]. by apply H1.
  - intros [= <-]. by apply kept_set.
  - destruct (kept_get account s He Hk) as [Hk1 Ho]. destruct (getStateObject account s) as [[o|] s1]; cbn [fst snd] in *; intros [= <-]; [|done].
    destruct (Ho o eq_refl) as (Hot & _ & Hd). apply kept_set; [|done]. apply balance_typed; [|done]. by destruct Hot.
  - apply kept_object; [done..|]. intros o. apply balance_typed.
  - apply kept_object; [apply He|done|]. intros o [] _. split; try done. apply He.
  - apply kept_object; [done..|]. by intros o [] _.
  - apply kept_object; [apply He|done|]. intros o [] _. split; try done. apply He.
  - intros [= <-]. by eapply kept_ext; [..|exact Hk].
  - intros [= <-]. destruct (_ =? _)%nat; by eapply kept_ext; [..|exact Hk].
  - intros [= <-]. by eapply kept_ext; [..|exact Hk].
  - by intros [= <-].
Qed.

Lemma kept_undirty e s : kept s → kept (undirty e s).
Proof. intros Hk. unfold undirty. destruct (dirtied e); [|done]. by eapply kept_ext; [..|exact Hk]. Qed.

Lemma kept_undo es s s' : Forall entry_typed es → kept s →
  foldr (λ e s, s ← s; s ← entry_revert e s; Some (undirty e s)) (Some s) es = Some s' → kept s'.
Proof.
  intros He Hk. revert s'. induction He as [|e es He _ IH]; intros s'; cbn [foldr]; [by intros [= <-]|].
  destruct (foldr _ _ es) as [s1|]; [|done]. cbn [mbind option_bind]. specialize (IH s1 eq_refl).
  destruct (entry_revert e s1) as [s2|] eqn:E; [|done]. intros [= <-]. apply kept_undirty. by eapply kept_revert.
Qed.

Lemma kept_snapshot id s s' : kept s → RevertToSnapshot id s = Some s' → kept s'.
Proof.
  intros Hk. unfold RevertToSnapshot. destruct (_ !! _) as [[id' snap]|]; [|done]. destruct (negb _); [done|].
  unfold journal_revert. destruct (foldr _ _ _) as [s1|] eqn:E; [|done]. cbn [mbind option_bind]. intros [= <-].
  apply kept_undo in E; [|apply Forall_drop, Hk|done]. assert (kept (s1 <| sd_entries ::= take snap |>)) as Hk'.
  { destruct E as [H1 H2 H3]. split; [done| |done]. upd. by apply Forall_take. }
  by eapply kept_ext; [..|exact Hk'].
Qed.

(** ** The operations *)

Lemma kept_SetBalance v o s : object_typed o → so_deleted o = false → kept s → kept (stateObject_SetBalance v o s).
Proof. intros Ho Hd Hk. apply kept_set; [by apply balance_typed|]. apply kept_append; [|done]. apply Ho. Qed.

Lemma kept_AddBalance v o s : object_typed o → so_deleted o = false → kept s → kept (stateObject_AddBalance v o s).
Proof.
  intros Ho Hd Hk. unfold stateObject_AddBalance. destruct (_ =? _); [|by apply kept_SetBalance]. destruct (stateObject_empty o); [|done].
  unfold touch. assert (kept (journal_append (touchChange (so_address o)) s)) as Hk' by (apply kept_append; [apply Ho|done]).
  destruct (_ =? _); [|done]. by eapply kept_ext; [..|exact Hk'].
Qed.

Lemma kept_SetCode h c o s : hash_ok h → object_typed o → so_deleted o = false → kept s → kept (stateObject_SetCode db h c o s).
Proof.
  intros Hh Ho Hd Hk. unfold stateObject_SetCode. destruct (Code_oeq db o) as [_ Hq]. destruct (stateObject_Code db o) as [prev o1]. cbn [snd] in *.
  pose proof (object_oeq o o1 Hq Ho) as H1. apply kept_set; [by destruct H1|]. apply kept_append; [|done]. split; apply H1.
Qed.

Lemma kept_SetState k v o s : object_typed o → kept s → kept (stateObject_SetState db k v o s).
Proof.
  intros Ho Hk. unfold stateObject_SetState. destruct (GetState_oeq db o k) as [_ Hq]. destruct (stateObject_GetState db o k) as [prev o1]. cbn [snd] in *.
  pose proof (object_oeq o o1 Hq Ho) as H1. destruct (_ =? _); [by apply kept_set|]. apply kept_set; [by destruct H1|].
  apply kept_append; [apply H1|done].
Qed.

Lemma kept_CreateAccount a s : address_ok a → kept s → kept (CreateAccount a s).
Proof.
  intros Ha Hk. unfold CreateAccount. destruct (kept_create a s Ha Hk) as (Hk1 & Hn & _ & Hd).
  destruct (createObject a s) as [[new [prev|]] s1]; cbn [fst snd] in *; [|done]. apply kept_set; [by apply balance_typed|done].
Qed.

Lemma kept_Suicide a s : address_ok a → kept s → kept (Suicide a s).2.
Proof.
  intros Ha Hk. unfold Suicide. destruct (kept_get a s Ha Hk) as [Hk1 Ho]. destruct (getStateObject a s) as [[o|] s1]; cbn [fst snd] in *; [|done].
  destruct (Ho o eq_refl) as (Hot & _ & Hd). apply kept_set; [|by apply kept_append]. apply balance_typed; [|done]. by destruct Hot.
Qed.

Lemma kept_GetCodeSize a s : address_ok a → kept s → kept (GetCodeSize db a s).2.
Proof.
  intros Ha Hk. unfold GetCodeSize. destruct (kept_get a s Ha Hk) as [Hk1 _]. destruct (getStateObject a s) as [[o|] s1]; cbn [fst snd] in *; [|done].
  destruct (so_code o); [done|]. destruct (ContractCodeSize _ _ _) as [size [err|]]; [|done]. cbn [snd]. unfold setError.
  destruct (sd_dbErr s1); [done|]. by eapply kept_ext; [..|exact Hk1].
Qed.

(** Every operation keeps the types. *)
Lemma runOp_kept o s s' : op_typed o → kept s → runOp db o s = Some s' → kept s'.
Proof.
  intros Ho Hk. destruct o; cbn [op_typed runOp] in *.
  - intros [= <-]. by apply kept_CreateAccount.
  - intros [= <-]. apply kept_on; [done..|]. intros o s1 ? _ ? ?. unfold stateObject_SubBalance. destruct (_ =? _); [done|by apply kept_SetBalance].
  - intros [= <-]. apply kept_on; [done..|]. intros o s1 ? _ ? ?. by apply kept_AddBalance.
  - intros [= <-]. by apply kept_with.
  - intros [= <-]. by apply kept_with.
  - intros [= <-]. apply kept_on; [apply Ho|done|]. intros o s1 H <- _ Hk1. apply kept_set; [destruct H; split; try done; apply Ho|].
    apply kept_append; [|done]. split; apply H.
  - intros [= <-]. by apply kept_with.
  - intros [= <-]. by apply kept_with.
  - intros [= <-]. apply kept_with; [done..|]. intros o. apply Code_oeq.
  - intros [= <-]. apply kept_on; [done..|]. intros o s1 ? _ ? ?. apply kept_SetCode; try done. apply keccak256_ok.
  - intros [= <-]. by apply kept_GetCodeSize.
  - intros [= <-]. unfold AddRefund. eapply kept_ext; [..|exact (kept_append (refundChange (sd_refund s)) s I Hk)]; done.
  - unfold SubRefund. destruct (_ <? _); [done|]. intros [= <-]. eapply kept_ext; [..|exact (kept_append (refundChange (sd_refund s)) s I Hk)]; done.
  - by intros [= <-].
  - intros [= <-]. apply kept_with; [done..|]. intros o. apply GetCommittedState_oeq.
  - intros [= <-]. apply kept_with; [done..|]. intros o. apply GetState_oeq.
  - intros [= <-]. apply kept_on; [done..|]. intros o s1 ? _ ? ?. by apply kept_SetState.
  - intros [= <-]. by apply kept_Suicide.
  - intros [= <-]. by apply kept_with.
  - intros [= <-]. unfold Exist. destruct (kept_get addr s Ho Hk) as [Hk1 _]. by destruct (getStateObject addr s).
  - intros [= <-]. unfold Empty. destruct (kept_get addr s Ho Hk) as [Hk1 _]. by destruct (getStateObject addr s).
  - by apply kept_snapshot.
  - intros [= <-]. by eapply kept_ext; [..|exact Hk].
  - intros [= <-]. unfold AddLog. eapply kept_ext; [..|exact (kept_append (addLogChange (sd_thash s)) s I Hk)]; done.
  - intros [= <-]. unfold AddPreimage. destruct (_ !! _); [done|].
    eapply kept_ext; [..|exact (kept_append (addPreimageChange hash) s I Hk)]; done.
Qed.

Lemma reaches_kept s s' : reaches db s s' → kept s → kept s'.
Proof.
  intros (ops & Ho & E) Hk. revert s E Hk. induction Ho as [|o ops Ho _ IH]; intros s; cbn [runOps]; [by intros [= ->]|].
  destruct (runOp db o s) as [s1|] eqn:E; [|done]. cbn. intros E' Hk. eapply IH; [exact E'|]. by eapply runOp_kept.
Qed.

Lemma kept_typed s : kept s → sane db s → typed s.
Proof.
  intros [H1 _ _] Hs a o E. destruct (H1 a o E) as [Ea Ho]. assert (address_ok a) as Ha by (rewrite <- Ea; apply Ho).
  split; [done|]. split; [apply Ho| |apply Ho..]. destruct (so_deleted o) eqn:Ed; [exact (ot_deleted _ Ho Ed)|].
  destruct (Hs a Ha) as [Hb _]. unfold bal, live in Hb. by rewrite E, Ed in Hb.
Qed.
End typed.

(** ** The end of a transaction *)

Section finish.
Context `{CR : Crypto} `{DS : !DigestSize} `{SD : StateDatabase} `{TL : !TrieLaws} (db : Database).

(** A state between two transactions, within its types. *)
Record settled (s : StateDB) : Prop := {
  st_quiet : quiet s;
  st_kept : kept s;
  st_sane : sane db s;
  st_refund : sd_refund s = 0
}.

Lemma updateRoot_typed o : account_ok (so_data o) → object_typed o → object_typed (updateRoot db o).
Proof.
  intros Ha Ho. pose proof (updateRoot_account_ok db o Ha) as [? Hb ? ?]. destruct (updateRoot_fixed db o) as (E & _ & _).
  split; [rewrite E; apply Ho|done..].
Qed.

Lemma finalised_typed o : account_ok (so_data o) → object_typed o → object_typed (finalised db true o).
Proof.
  intros Ha Ho. unfold finalised. destruct (doomed true o); [|by apply updateRoot_typed]. destruct Ho. split; try done. intros _. apply Ha.
Qed.

Lemma looped_kept s s1 : kept s → typed s → looped db s s1 → sd_entries s1 = sd_entries s → kept s1.
Proof.
  intros [H1 H2 H3] Hty [_ HO HL] Ee. split; [|by rewrite Ee|].
  - intros a o. rewrite HO. destruct (decide _); [|apply H1]. destruct (sd_stateObjects s !! a) as [o1|] eqn:E; [|done]. intros [= <-].
    destruct (H1 a o1 E) as [Ea Ho]. rewrite finalised_address. split; [done|]. apply finalised_typed; [by eapply Hty|done].
  - intros a o Ha E. specialize (HL a Ha). rewrite E in HL. unfold trie_after in HL. cbn in HL.
    assert (so_data <$> load (sd_trie s) a = Some (so_data o) → account_ok (so_data o)) as Hold.
    { intros (o' & E' & Ed)%fmap_Some. rewrite Ed. by eapply H3. }
    destruct (sd_stateObjects s !! a) as [o1|] eqn:E1; [|by apply Hold]. destruct (decide _); [|by apply Hold].
    unfold recorded in HL. destruct (doomed true o1); [done|]. injection HL as ->. apply updateRoot_account_ok. by eapply Hty.
Qed.

Lemma updateRoot_code o : code_of db (updateRoot db o) = code_of db o.
Proof.
  destruct (updateRoot_fixed db o) as (E1 & _ & _ & E2 & t & E3). unfold code_of, so_addrHash. by rewrite E1, E2, E3.
Qed.

(** The accounts that are left show the balances and the code they had. *)
Lemma finalise_sane s s' : sane db s → (∀ a, address_ok a → live s' a = finalise_view db s a) → sane db s'.
Proof.
  intros Hs HL a Ha. destruct (Hs a Ha) as [Hb Hc]. unfold bal, code_at, account in *. rewrite HL by done. unfold finalise_view.
  destruct (sd_stateObjects s !! a) as [o|] eqn:E; [|done]. destruct (decide _); [|done].
  unfold live in Hb, Hc. rewrite E in Hb, Hc. destruct (so_deleted o || doomed true o) eqn:Ed.
  { split; [done|]. cbn. unfold code_of. cbn. rewrite Z.eqb_refl. apply code_ok_nil. }
  apply orb_false_iff in Ed as [Ed _]. rewrite Ed in Hb, Hc. cbn in *. rewrite updateRoot_code. split; [|done].
  destruct (updateRoot_fixed db o) as (_ & _ & _ & _ & t & ->). exact Hb.
Qed.

(** A transaction that reaches [s] from a settled state can be finished. *)
Lemma transaction_finished s0 s :
  settled s0 → tracked db s0 s → reaches db s0 s → sane db s →
  ∃ s', Finalise db true s = Some s' ∧ settled s' ∧ (∀ a, address_ok a → live s' a = finalise_view db s a).
Proof.
  intros [Hq Hk _ _] Ht Hr Hs. pose proof (reaches_kept db s0 s Hr Hk) as Hk1. pose proof (kept_typed db s Hk1 Hs) as Hty.
  assert (healthy (sd_trie s)) as Hh by (destruct (tr_book _ _ _ Ht) as [-> _]; apply Hq).
  destruct (Finalise_runs db s0 s Ht Hty Hh) as (s' & E & F & H & L & T & _). exists s'. split_and!; [done| |done].
  split; [by eapply Finalise_quiet| |by eapply finalise_sane|].
  - destruct (finalise_loop_runs db s0 s Ht Hty Hh) as (s1 & E1 & L1 & A1).
    assert (sd_entries s1 = sd_entries s) as Ee by (by injection A1).
    pose proof (looped_kept s s1 Hk1 Hty L1 Ee) as [K1 K2 K3].
    unfold Finalise in E. rewrite E1 in E. cbn [mbind option_bind] in E. injection E as <-.
    destruct (track_spec (sd_entries s1) s1) as (U & _). set (s2 := foldl _ _ _) in *.
    split; [|constructor|].
    + change (sd_stateObjects (clearJournalAndRefund s2)) with (sd_stateObjects (untracked s2)). by rewrite U.
    + change (sd_trie (clearJournalAndRefund s2)) with (sd_trie (untracked s2)). by rewrite U.
  - unfold Finalise in E. destruct (finaliseAll _ _ _ _); [|done]. by injection E as <-.
Qed.

(** The state stays within the types of Go.  Whatever operations a transaction runs from
    a settled state, with addresses of 20 bytes, nonces of 64 bits and hashes of 32 bytes as
    their arguments, reverted ones included: every loaded account, undone or not, still has
    an address, a nonce, a root and a code hash of their widths, and as long as no balance is
    negative, every account can be encoded, the transaction can be finished and the state it
    leaves is settled again. *)
Theorem state_stays_typed ops s0 s :
  settled s0 → Forall op_typed ops → runOps db ops s0 = Some s →
  kept s ∧ (sane db s → typed s ∧ ∃ s', Finalise db true s = Some s' ∧ settled s').
Proof.
  intros Hs Ho E. assert (reaches db s0 s) as Hr by (by exists ops). split; [eapply reaches_kept; [done|apply Hs]|].
  intros Hsane. split; [eapply kept_typed; [eapply reaches_kept; [done|apply Hs]|done]|].
  pose proof (runOps_tracked db s0 ops s0 s (fresh_tracked db _ (qu_fresh _ (st_quiet _ Hs))) E) as Ht.
  destruct (transaction_finished s0 s Hs Ht Hr Hsane) as (s' & Ef & Hs' & _). by exists s'.
Qed.
End finish.

Module TypedExample.
Import Toy ToyState.

Lemma blank_sane : sane db blank.
Proof.
  intros a _. unfold bal, code_at, account. replace (live blank a) with (@None stateObject) by reflexivity.
  split; [done|]. apply code_ok_nil.
Qed.

Lemma blank_settled : settled db blank.
Proof.
  split; [exact BlockExample.blank_quiet| |exact blank_sane|by vm_compute]. split.
  - intros a o E. by rewrite Example.blank_objects in E.
  - constructor.
  - intros a o Ha E. pose proof (BlockExample.blank_synced a Ha) as H. by rewrite E in H.
Qed.

Lemma before_sane : sane db Example.s.
Proof.
  intros a Ha. pose proof Example.before_runs as E. unfold Example.before in E. cbn [runOps] in E.
  change (runOp db (opAddBalance 5 100) blank) with (Some (AddBalance 5 100 blank)) in E. cbn [mbind option_bind] in E.
  destruct (AddBalance_bal db 5 100 blank a (fr_wf _ Example.blank_fresh)) as (E1 & E2 & W).
  destruct (runOp db (opSetNonce 5 1) (AddBalance 5 100 blank)) as [s2|] eqn:E3; [|discriminate E]. injection E as <-.
  rewrite (allowed_bal db false (opSetNonce 5 1) (AddBalance 5 100 blank) s2 a W eq_refl E3), E1. destruct (blank_sane a Ha) as [Hb Hc].
  split; [destruct (decide _); lia|]. eapply (allowed_code db false (opSetNonce 5 1)); [exact W|done|exact E3|]. by rewrite E2.
Qed.
End TypedExample.

Section witness.
Import Toy ToyState TypedExample.

Lemma state_stays_typed_witness : typed Example.s ∧ ∃ s', Finalise db true Example.s = Some s' ∧ settled db s'.
Proof.
  apply (proj2 (state_stays_typed db Example.before blank Example.s blank_settled
    ltac:(repeat constructor; by vm_compute) Example.before_runs)). exact before_sane.
Defined.
End witness.
