(* ===== verification/EvmLogic.v ===== *)
(** * EvmLogic: runs of the virtual machine

    A program logic for the monad of the interpreter.  [runs st m e Q]: in the
    environment [e] the computation [m] neither panics, but for the faults that messages can
    cause ([fault_ok]), nor lacks fuel; its effect on the state is one of EvmEffect.v (read-only if
    [st]), the call depth and the read-only flag are those of before, and the result
    satisfies [Q]. *)

From S2P Require Import Prelude Bytes Crypto StateDB StateDBFacts StateDBRevert StateDBView EvmWord EvmCode EvmMemory EvmState EvmEffect.

Local Open Scope Z_scope.

Section logic.
Context `{CR : Crypto} `{SD : StateDatabase} `{PC : Precompiles} (db : Database) (base : StateDB) (rules : Rules).

Record good (e : EVM) : Prop := {
  gd_tracked : tracked db base (ev_StateDB e);
  gd_sane : sane db (ev_StateDB e);
  gd_data : Forall byte_ok (ev_returnData e)
}.

Record reach (st : bool) (e e' : EVM) : Prop := {
  re_depth : ev_depth e' = ev_depth e;
  re_readOnly : ev_readOnly e' = ev_readOnly e;
  re_effect : effect db st (ev_StateDB e) (ev_StateDB e')
}.

Lemma reach_refl st e : reach st e e.
Proof. split; [done..|constructor]. Qed.

Lemma reach_trans st e1 e2 e3 : reach st e1 e2 → reach st e2 e3 → reach st e1 e3.
Proof. intros [? ? ?] [? ? ?]. split; [congruence..|by eapply effect_trans]. Qed.

Lemma gd_wf e : good e → wf (ev_StateDB e).
Proof. intros [H _ _]. apply H. Qed.

(** The net metering of EIP-1283, which Petersburg takes back. *)
Definition net_metered : bool := negb (IsPetersburg rules || negb (IsConstantinople rules)).

(** What lies behind a panic that ends a run: the contract is one of those of the rules and
    panics on the input the run gave it; the counter of refunds is only lowered by the net
    metering. *)
Definition fault_ok (w : fault) : Prop :=
  match w with
  | contractFault p input => (∃ a, PrecompiledContracts (IsByzantium rules) a = Some p) ∧ code_ok input ∧ pc_Run p input = None
  | refundFault => net_metered = true
  end.

Definition runs {A : Type} (st : bool) (m : X A) (e : EVM) (Q : A → EVM → Prop) : Prop :=
  (∃ w, m e = Crashes w ∧ fault_ok w) ∨ ∃ a e', m e = Done a e' ∧ reach st e e' ∧ good e' ∧ Q a e'.

Lemma runs_ret {A : Type} st (a : A) e Q : good e → Q a e → runs st (mret a) e Q.
Proof. intros. right. exists a, e. split_and!; [done|apply reach_refl|done|done]. Qed.

Lemma runs_bind {A B : Type} st (m : X A) (k : A → X B) e P Q :
  runs st m e P → (∀ a e', reach st e e' → good e' → P a e' → runs st (k a) e' Q) → runs st (m ≫= k) e Q.
Proof.
  unfold mbind, X_bind. intros [(w & E1 & ?)|(a & e1 & E1 & R1 & G1 & H1)] Hk; [left; exists w; by rewrite E1|].
  destruct (Hk a e1 R1 G1 H1) as [(w & E2 & ?)|(b & e2 & E2 & R2 & G2 & H2)]; [left; exists w; by rewrite E1|right].
  exists b, e2. split_and!; [|by eapply reach_trans|done|done]. by rewrite E1.
Qed.

Lemma runs_conseq {A : Type} st (m : X A) e (P Q : A → EVM → Prop) :
  runs st m e P → (∀ a e', reach st e e' → good e' → P a e' → Q a e') → runs st m e Q.
Proof. intros [E|(a & e1 & E1 & R1 & G1 & H1)] H; [by left|right]. exists a, e1. split_and!; auto. Qed.

Lemma runs_ext {A : Type} st (m m' : X A) e Q : m' e = m e → runs st m e Q → runs st m' e Q.
Proof. unfold runs. by intros ->. Qed.

Lemma runs_mono {A : Type} st (m : X A) e Q : runs true m e Q → runs st m e Q.
Proof.
  intros [E|(a & e1 & E1 & [R1 R2 R3] & G1 & H1)]; [by left|right]. exists a, e1. split_and!; auto. split; [done..|by apply effect_mono].
Qed.

Lemma runs_gets {A : Type} st (f : EVM → A) e (Q : A → EVM → Prop) : good e → Q (f e) e → runs st (gets f) e Q.
Proof. intros. right. exists (f e), e. split_and!; [done|apply reach_refl|done|done]. Qed.

Lemma runs_orPanic {A : Type} st (o : option A) e a (Q : A → EVM → Prop) :
  o = Some a → good e → Q a e → runs st (orPanic o) e Q.
Proof. intros ->. intros. right. exists a, e. split_and!; [done|apply reach_refl|done|done]. Qed.

Lemma runs_orPanic_bind {A B : Type} st (o : option A) (k : A → X B) e a Q :
  o = Some a → runs st (k a) e Q → runs st (orPanic o ≫= k) e Q.
Proof. by intros ->. Qed.

Lemma runs_gets_bind {A B : Type} st (f : EVM → A) (k : A → X B) e Q : runs st (k (f e)) e Q → runs st (gets f ≫= k) e Q.
Proof. done. Qed.

(** Parts of the environment that are neither the state nor the call's. *)
Lemma runs_modify st f e (Q : unit → EVM → Prop) :
  good e → ev_StateDB (f e) = ev_StateDB e → ev_depth (f e) = ev_depth e → ev_readOnly (f e) = ev_readOnly e →
  Forall byte_ok (ev_returnData (f e)) → Q tt (f e) → runs st (modify f) e Q.
Proof.
  intros [G1 G2 G3] E1 E2 E3 HR HQ. right. exists tt, (f e). split_and!; [done| | |done].
  - split; [done..|]. rewrite E1. constructor.
  - by split; rewrite ?E1.
Qed.

(** ** Operations of the state *)

(** The same balances. *)
Definition same_bal (e e' : EVM) : Prop := ∀ x, bal (ev_StateDB e') x = bal (ev_StateDB e) x.

Lemma good_effect st e d : good e → effect db st (ev_StateDB e) d → good (e <| ev_StateDB := d |>).
Proof.
  intros [G1 G2 G3] H. split; upd; [|by eapply effect_sane|done]. by destruct (effect_extends db base st _ _ H G1).
Qed.

Lemma reach_effect st e d : effect db st (ev_StateDB e) d → reach st e (e <| ev_StateDB := d |>).
Proof. by split. Qed.

Lemma runs_reading {A : Type} st (f : StateDB → A * StateDB) o e (Q : A → EVM → Prop) :
  good e → allowed st (ev_StateDB e) o → op_typed o → runOp db o (ev_StateDB e) = Some (f (ev_StateDB e)).2 →
  (good (e <| ev_StateDB := (f (ev_StateDB e)).2 |>) →
   Q (f (ev_StateDB e)).1 (e <| ev_StateDB := (f (ev_StateDB e)).2 |>)) →
  runs st (reading f) e Q.
Proof.
  intros G Ha Ho Hr HQ. pose proof (effect_op db st o _ _ Ha Ho Hr) as He. pose proof (good_effect st e _ G He) as G'.
  right. exists (f (ev_StateDB e)).1, (e <| ev_StateDB := (f (ev_StateDB e)).2 |>).
  split_and!; [unfold reading; by destruct (f (ev_StateDB e))|by apply reach_effect|done|auto].
Qed.

Lemma runs_writing_effect st f e (Q : unit → EVM → Prop) :
  good e → effect db st (ev_StateDB e) (f (ev_StateDB e)) →
  (good (e <| ev_StateDB ::= f |>) → Q tt (e <| ev_StateDB ::= f |>)) → runs st (writing f) e Q.
Proof.
  intros G He HQ. pose proof (good_effect st e _ G He) as G'.
  right. exists tt, (e <| ev_StateDB ::= f |>). split_and!; [done|by apply reach_effect|done|auto].
Qed.

Lemma runs_writing st f o e (Q : unit → EVM → Prop) :
  good e → allowed st (ev_StateDB e) o → op_typed o → runOp db o (ev_StateDB e) = Some (f (ev_StateDB e)) →
  (∀ e', good e' → same_bal e e' → Q tt e') → runs st (writing f) e Q.
Proof.
  intros G Ha Ho Hr HQ. apply runs_writing_effect; [done|by eapply effect_op|]. intros G'. apply HQ; [done|].
  intros x. upd. by eapply (allowed_bal db st o); [apply gd_wf|..].
Qed.

Lemma runs_subtracting gas e (Q : unit → EVM → Prop) :
  good e → net_metered = true → (∀ e', good e' → same_bal e e' → Q tt e') → runs false (subtracting gas) e Q.
Proof.
  intros G Hn HQ. unfold runs, subtracting. destruct (SubRefund gas (ev_StateDB e)) as [d|] eqn:E; [|left; by exists refundFault].
  assert (effect db false (ev_StateDB e) d) as He by (by apply (effect_op db false (opSubRefund gas))).
  right. exists tt, (e <| ev_StateDB := d |>). pose proof (good_effect false e _ G He) as G'.
  split_and!; [done|by apply reach_effect|done|]. apply HQ; [done|]. intros x. upd. by eapply (allowed_bal db false (opSubRefund gas)); [apply gd_wf|..].
Qed.

(** What is read. *)
Lemma runs_GetBalance st a e (Q : Z → EVM → Prop) :
  address_ok a → good e →
  (∀ e', good e' → same_bal e e' → same db (ev_StateDB e) (ev_StateDB e') → Q (bal (ev_StateDB e) a) e') →
  runs st (reading (GetBalance a)) e Q.
Proof.
  intros Oa G HQ. destruct (with_object_loads db 0 (λ o, (ac_Balance (so_data o), o)) (λ o, ac_Balance (so_data o)) a (ev_StateDB e)) as [Hl Hv];
    [by apply gd_wf|done|]. fold (GetBalance a (ev_StateDB e)) in Hl, Hv.
  apply (runs_reading st _ (opGetBalance a)); [done..|]. intros G'. rewrite Hv. apply HQ; [done| |by apply loads_same].
  intros x. upd. symmetry. apply (sim_bal db), Hl.
Qed.

Lemma runs_GetCode st a e (Q : option bytes → EVM → Prop) :
  address_ok a → good e → (∀ c e', good e' → code_ok (default [] c) → same_bal e e' → Q c e') → runs st (reading (GetCode db a)) e Q.
Proof.
  intros Oa G HQ. destruct (with_object_loads db None (stateObject_Code db) (code_of db) a (ev_StateDB e)) as [Hl Hv];
    [by apply gd_wf|by apply Code_oeq|]. fold (GetCode db a (ev_StateDB e)) in Hl, Hv.
  apply (runs_reading st _ (opGetCode a)); [done..|]. intros G'. apply HQ; [done| |].
  - rewrite Hv. destruct (gd_sane _ G a Oa) as [_ Hc]. unfold code_at, account in Hc. by destruct (live (ev_StateDB e) a).
  - intros x. upd. symmetry. apply (sim_bal db), Hl.
Qed.

Lemma runs_Exist st a e (Q : bool → EVM → Prop) :
  address_ok a → good e →
  (∀ e', good e' → same_bal e e' → Q (bool_decide (is_Some (live (ev_StateDB e') a))) e') →
  runs st (reading (Exist a)) e Q.
Proof.
  intros Oa G HQ. apply (runs_reading st _ (opExist a)); [done..|]. intros G'. unfold Exist in *.
  destruct (getStateObject_loads db a (ev_StateDB e) (gd_wf e G)) as (H1 & H2 & H3 & _).
  destruct (getStateObject a (ev_StateDB e)) as [o s1]. cbn [fst snd] in *. subst o.
  replace (match live (ev_StateDB e) a with Some _ => true | None => false end)
    with (bool_decide (is_Some (live (ev_StateDB (e <| ev_StateDB := s1 |>)) a))).
  - apply HQ; [done|]. intros x. upd. symmetry. apply (sim_bal db), H1.
  - upd. rewrite H3. by destruct (live (ev_StateDB e) a).
Qed.

(** A reader whose result is not looked at. *)
Lemma runs_reads {A : Type} st (f : StateDB → A * StateDB) o e (Q : A → EVM → Prop) :
  good e → allowed st (ev_StateDB e) o → op_typed o → runOp db o (ev_StateDB e) = Some (f (ev_StateDB e)).2 →
  (∀ a e', good e' → same_bal e e' → Q a e') → runs st (reading f) e Q.
Proof.
  intros G Ha Ho Hr HQ. eapply runs_reading; [done..|]. intros G'. apply HQ; [done|].
  intros x. upd. by eapply (allowed_bal db st o); [apply gd_wf|..].
Qed.

(** ** Snapshots *)

(** [runs] with the effect since [e0] instead of the beginning of [m]. *)
Definition runs_since {A : Type} (st : bool) (e0 : EVM) (m : X A) (e : EVM) (Q : A → EVM → Prop) : Prop :=
  (∃ w, m e = Crashes w ∧ fault_ok w) ∨ ∃ a e', m e = Done a e' ∧ reach st e0 e' ∧ good e' ∧ Q a e'.

(** [e] is later than a snapshot taken in [e0], which has not been given up. *)
Definition within (st : bool) (e0 e : EVM) : Prop :=
  reach st (e0 <| ev_StateDB := (Snapshot (ev_StateDB e0)).2 |>) e.

Lemma runs_snapshot {A : Type} st (k : Z → X A) e Q :
  good e →
  (∀ e1, good e1 → same_bal e e1 → within st e e1 → runs_since st e (k (Snapshot (ev_StateDB e)).1) e1 Q) →
  runs st (reading Snapshot ≫= k) e Q.
Proof.
  intros G Hk. set (e1 := e <| ev_StateDB := (Snapshot (ev_StateDB e)).2 |>).
  assert (effect db st (ev_StateDB e) (Snapshot (ev_StateDB e)).2) as He by (by apply (effect_op db st opSnapshot)).
  destruct (Hk e1) as [E|(a & e2 & E & R & G2 & HQ)]; [by eapply good_effect|done|apply reach_refl|by left|]. right. by exists a, e2.
Qed.

Lemma since_bind {A B : Type} st e0 (m : X A) (k : A → X B) e P Q :
  within st e0 e → runs st m e P →
  (∀ a e', within st e0 e' → good e' → P a e' → runs_since st e0 (k a) e' Q) → runs_since st e0 (m ≫= k) e Q.
Proof.
  unfold mbind, X_bind. intros W [(w & E1 & ?)|(a & e1 & E1 & R1 & G1 & H1)] Hk; [left; exists w; by rewrite E1|].
  destruct (Hk a e1) as [(w & E2 & ?)|(b & e2 & E2 & R2 & G2 & H2)]; [by eapply reach_trans|done..|left; exists w; by rewrite E1|right].
  exists b, e2. split_and!; try done. by rewrite E1.
Qed.

Lemma within_reach st e0 e : within st e0 e → reach st e0 e.
Proof.
  intros [H1 H2 H3]. upd. split; [done..|]. eapply effect_trans; [|exact H3]. by apply (effect_op db st opSnapshot).
Qed.

Lemma since_ret {A : Type} st e0 (a : A) e (Q : A → EVM → Prop) :
  within st e0 e → good e → Q a e → runs_since st e0 (mret a) e Q.
Proof. intros W G HQ. right. exists a, e. split_and!; [done|by apply within_reach|done|done]. Qed.

(** What was done since the snapshot is undone. *)
Lemma since_undo st e0 e (Q : unit → EVM → Prop) :
  good e0 → within st e0 e → good e →
  (∀ e', reach st e0 e' → good e' → same db (ev_StateDB e0) (ev_StateDB e') → Q tt e') →
  runs_since st e0 (attempting (RevertToSnapshot (Snapshot (ev_StateDB e0)).1)) e Q.
Proof.
  intros G0 [W1 W2 W3] G HQ. upd. destruct (effect_undo db base st _ _ (gd_tracked _ G0) W3) as (d & E & S & He).
  set (e' := e <| ev_StateDB := d |>).
  assert (reach st e0 e') as R by (by split).
  assert (good e') as G'.
  { destruct (good_effect st e0 d G0 He) as [G1 G2 _]. split; [done..|]. apply G. }
  right. exists tt, e'. split_and!; [|done|done|by apply HQ]. unfold attempting. by rewrite E.
Qed.

Lemma since_bind_since {A B : Type} st e0 (m : X A) (k : A → X B) e P Q :
  runs_since st e0 m e P → (∀ a e', reach st e0 e' → good e' → P a e' → runs_since st e0 (k a) e' Q) →
  runs_since st e0 (m ≫= k) e Q.
Proof.
  unfold mbind, X_bind. intros [(w & E1 & ?)|(a & e1 & E1 & R1 & G1 & H1)] Hk; [left; exists w; by rewrite E1|].
  destruct (Hk a e1 R1 G1 H1) as [(w & E2 & ?)|(b & e2 & E2 & R2 & G2 & H2)]; [left; exists w; by rewrite E1|right].
  exists b, e2. split_and!; try done. by rewrite E1.
Qed.

Lemma since_done {A : Type} st e0 (a : A) e (Q : A → EVM → Prop) :
  reach st e0 e → good e → Q a e → runs_since st e0 (mret a) e Q.
Proof. intros. right. by exists a, e. Qed.
End logic.
