(* ===== verification/EvmCallFacts.v ===== *)
(** * EvmCallFacts: calls and creations run to an end

    Above any interpreter that runs contracts with at most [g] gas, the four kinds of
    calls and the two kinds of creations run with at most [g] gas, return at most the gas
    they were given, and a call that fails leaves the state as it was. *)

From S2P Require Import Prelude Bytes Crypto StateDB StateDBFacts StateDBRevert StateDBView EvmWord EvmCode EvmMemory EvmState EvmCall EvmEffect EvmLogic.

Local Open Scope Z_scope.

Record contract_ok (c : Contract) : Prop := {
  co_code : code_ok (ct_Code c);
  co_input : code_ok (ct_Input c);
  co_gas : is_u64 (ct_Gas c);
  co_value : 0 ≤ ct_value c;
  co_self : address_ok (ct_self c)
}.

(** The address of a caller. *)
Definition ref_ok (r : ContractRef) : Prop := address_ok (ContractRef_Address r).

Lemma BytesToAddress_ok b : Forall byte_ok b → address_ok (BytesToAddress b).
Proof. intros Hb. rewrite BytesToAddress_int by done. by apply Z.mod_pos_bound. Qed.

Lemma BigToAddress_ok x : address_ok (BigToAddress x).
Proof. apply BytesToAddress_ok, big_bytes_ok. Qed.

Lemma Hash_address_ok h : address_ok (BytesToAddress (drop 12 (Hash_Bytes h))).
Proof. apply BytesToAddress_ok, Forall_drop, be_bytes_ok. Qed.

Lemma CreatorAddress_ok : address_ok CreatorAddress.
Proof. by vm_compute. Qed.

Lemma add64_u64 x y : is_u64 (add64 x y).
Proof. apply u64_range. Qed.

Lemma UseGas_ok c gas : contract_ok c → 0 ≤ gas →
  contract_ok (UseGas c gas).2 ∧ ct_Gas (UseGas c gas).2 ≤ ct_Gas c ∧
  ((UseGas c gas).1 = true → ct_Gas (UseGas c gas).2 = ct_Gas c - gas ∧ gas ≤ ct_Gas c).
Proof.
  intros [H1 H2 H3 H4 H5] Hg. unfold UseGas. destruct (Z.ltb_spec (ct_Gas c) gas) as [Hl|Hl]; cbn [fst snd].
  - by split_and!.
  - upd. split_and!; [|lia|done]. split; try done. upd. unfold is_u64 in *. lia.
Qed.

Section calls.
Context `{CR : Crypto} `{SD : StateDatabase} `{PC : Precompiles} (db : Database) (base : StateDB).
Context (cx : VmContext) (rules : Rules) (cfg : VmConfig).

Abbreviation runs := (runs db base rules).
Abbreviation runs_since := (runs_since db base rules).
Abbreviation good := (good db base).

(** The bytes and the gas a contract leaves. *)
Definition out_ok (g : Z) (r : outcome) : Prop := code_ok r.1.1 ∧ 0 ≤ ct_Gas r.2 ≤ g.

(** Read-only, which has a meaning since Byzantium. *)
Definition static (readOnly : bool) : bool := readOnly && IsByzantium rules.

Definition interp_ok (g : Z) (interp : Contract → bytes → bool → X outcome) : Prop :=
  ∀ c input ro e, contract_ok c → ct_Gas c ≤ g → code_ok input → good e →
    runs (static (ev_readOnly e || ro)) (interp c input ro) e (λ r _, out_ok (ct_Gas c) r).

(** Weakening the read-only flag of a run. *)
Lemma runs_static {A : Type} (b c : bool) (m : X A) e Q :
  runs (static (b || c)) m e Q → runs (static b) m e Q.
Proof.
  unfold static. destruct b; [done|]. cbn. destruct (c && IsByzantium rules); [apply runs_mono|done].
Qed.

Lemma hash_code_ok h : code_ok (Hash_Bytes h).
Proof. split; [apply be_bytes_ok|]. unfold Hash_Bytes. by rewrite length_be_bytes. Qed.

Lemma out_ok_use c gas (ret : bytes) err :
  contract_ok c → 0 ≤ gas → code_ok ret → out_ok (ct_Gas c) (ret, err, (UseGas c gas).2).
Proof.
  intros Hc Hg Hr. destruct (UseGas_ok c gas Hc Hg) as (H1 & H2 & _). split; [done|]. destruct (co_gas _ H1). cbn. lia.
Qed.

Lemma RunPrecompiled_ok st p a input c e :
  PrecompiledContracts (IsByzantium rules) a = Some p → contract_ok c → code_ok input → good e →
  runs st (RunPrecompiledContract p input c) e (λ r _, out_ok (ct_Gas c) r).
Proof.
  intros Hp Hc Hi G. unfold RunPrecompiledContract. destruct (PrecompiledGas _ a p input Hp) as [Hg _].
  pose proof (out_ok_use c (pc_RequiredGas p input)) as Ho. destruct (UseGas c _) as [[] c'];
    [|apply runs_ret; [done|]; by apply Ho].
  destruct (pc_Run p input) as [[ret|]|] eqn:Er; [| |left; exists (contractFault p input); split; [done|]; split; [by exists a|done]]; (apply runs_ret; [done|]).
  - apply Ho; try done. by eapply PrecompiledRun.
  - by apply Ho.
Qed.

Lemma Kal_RequiredGas_nonneg p input : 0 ≤ Kal_RequiredGas p input.
Proof.
  destruct p; [done|]. cbn. unfold Sha256PerWordGas, Sha256BaseGas.
  pose proof (Z.div_pos (4 + 32 + 32 + Z.of_nat (length input) + 31) 32). lia.
Qed.

Lemma GetSeed_runs st n e (Q : Z * Z → EVM → Prop) :
  good e → (∀ r e', good e' → Q r e') → runs st (GetSeed cx n) e Q.
Proof.
  intros G HQ. unfold GetSeed. eapply runs_bind with (P := λ _ _, True); [by apply runs_modify; try apply G|].
  intros _ e1 _ G1 _. eapply runs_bind with (P := λ _ _, True); [by apply runs_gets|]. intros num e2 _ G2 _.
  apply runs_ret; auto.
Qed.

Lemma RunXblone_ok st p input c e :
  contract_ok c → good e → runs st (RunXblonePrecompiledContract cx p input c) e (λ r _, out_ok (ct_Gas c) r).
Proof.
  intros Hc G. unfold RunXblonePrecompiledContract. pose proof (Kal_RequiredGas_nonneg p input) as Hg.
  pose proof (out_ok_use c (Kal_RequiredGas p input)) as Ho. destruct (UseGas c _) as [[] c'];
    [|apply runs_ret; [done|]; by apply Ho].
  eapply runs_bind with (P := λ ret _, code_ok ret).
  - destruct p; cbn [Kal_Run]; (eapply runs_bind with (P := λ _ _, True); [by apply GetSeed_runs|]);
      intros [seed num] e1 _ G1 _; (apply runs_ret; [done|apply hash_code_ok]).
  - intros ret e1 _ G1 Hr. apply runs_ret; [done|]. by apply Ho.
Qed.

Section interpreter.
Context (g : Z) (interpret : Contract → bytes → bool → X outcome).
Hypothesis Hinterp : interp_ok g interpret.

Lemma run_ok c input ro e :
  contract_ok c → ct_Gas c ≤ g → code_ok input → good e →
  runs (static (ev_readOnly e || ro)) (run cx rules interpret c input ro) e (λ r _, out_ok (ct_Gas c) r).
Proof.
  intros Hc Hg Hi G. unfold run. destruct (ct_CodeAddr c) as [a|]; cbn; [|by apply Hinterp].
  destruct (PrecompiledContracts _ a) as [p|] eqn:Ep; [by eapply RunPrecompiled_ok|].
  destruct (KalPrecompiledContracts a); [by apply RunXblone_ok|by apply Hinterp].
Qed.

Lemma withCode_ok st c a e :
  address_ok a → contract_ok c → good e →
  runs st (withCode db c a) e (λ c' e', contract_ok c' ∧ ct_Gas c' = ct_Gas c ∧ same_bal e e').
Proof.
  intros Oa Hc G. unfold withCode.
  eapply runs_bind with (P := λ _ e', same_bal e e'); [by apply (runs_reads db base rules st _ (opGetCodeHash a)); auto|].
  intros h e1 _ G1 B1. eapply runs_bind with (P := λ c e', code_ok (default [] c) ∧ same_bal e1 e').
  - by apply runs_GetCode.
  - intros code e2 _ G2 [Hk B2]. apply runs_ret; [done|]. destruct Hc. split; [by split|]. split; [done|].
    intros x. by rewrite B2.
Qed.

(** What a call returns. *)
Definition call_ok (gas : Z) (e e' : EVM) (r : bytes * Z * option vmerror) : Prop :=
  code_ok r.1.1 ∧ 0 ≤ r.1.2 ≤ gas ∧ (r.2 ≠ None → same db (ev_StateDB e) (ev_StateDB e')).

Lemma finishCall_ok st e0 e gas r :
  good e0 → within db st e0 e → good e → out_ok gas r →
  runs_since st e0 (finishCall (Snapshot (ev_StateDB e0)).1 r) e (λ r e', call_ok gas e0 e' r).
Proof.
  intros G0 W G [Hr Hg]. unfold finishCall. destruct r as [[ret [err|]] c]; cbn [fst snd] in *.
  - eapply since_bind_since with (P := λ _ e', same db (ev_StateDB e0) (ev_StateDB e')); [by apply since_undo; auto|].
    intros _ e1 R1 G1 S1. apply since_done; [done..|]. split; [done|]. split; [|done].
    destruct (decide _); cbn; [done|]. unfold UseGas. destruct (Z.ltb_spec (ct_Gas c) (ct_Gas c)); upd; cbn; [lia|]. upd. lia.
  - by apply since_ret.
Qed.

(** Running a contract since a snapshot. *)
Lemma run_finish_ok b ro e0 e c input gas :
  good e0 → within db (static b) e0 e → b = ev_readOnly e0 ∨ b = ev_readOnly e0 || ro → good e →
  contract_ok c → ct_Gas c = gas → gas ≤ g → code_ok input →
  runs_since (static b) e0 (r ← run cx rules interpret c input ro; finishCall (Snapshot (ev_StateDB e0)).1 r) e
    (λ r e', call_ok gas e0 e' r).
Proof.
  intros G0 W Eb G Hc <- Hg Hi. eapply since_bind; [exact W| |].
  - pose proof (re_readOnly _ _ _ _ W) as Er. upd. rewrite <- Er in Eb.
    destruct Eb as [-> | ->]; [eapply runs_static|]; by apply run_ok.
  - intros r e1 W1 G1 Hr. by apply finishCall_ok.
Qed.

Lemma NewContract_ok caller a value gas : address_ok a → is_u64 gas → 0 ≤ value → contract_ok (NewContract caller a value gas).
Proof. intros. split; try done; apply code_ok_nil. Qed.

Lemma callGuard_runs st e (Q : option (option vmerror) → EVM → Prop) :
  good e → (∀ r, Q r e) → runs st (callGuard cfg) e Q.
Proof.
  intros G HQ. unfold callGuard. eapply runs_bind with (P := λ _ e', e' = e); [by apply runs_gets|].
  intros d e1 _ G1 ->. by apply runs_ret.
Qed.

Lemma call_ok_early gas e e' err : 0 ≤ gas → same db (ev_StateDB e) (ev_StateDB e') → call_ok gas e e' ([], gas, err).
Proof. intros. split; [apply code_ok_nil|]. split; [cbn; lia|done]. Qed.

Lemma CanTransfer_ok st a v e (Q : bool → EVM → Prop) :
  address_ok a → good e →
  (∀ e', good e' → same_bal e e' → same db (ev_StateDB e) (ev_StateDB e') → Q (v <=? bal (ev_StateDB e) a) e') →
  runs st (CanTransfer a v) e Q.
Proof.
  intros Oa G HQ. unfold CanTransfer.
  eapply runs_bind with (P := λ b e', b = bal (ev_StateDB e) a ∧ same_bal e e' ∧ same db (ev_StateDB e) (ev_StateDB e')).
  - by apply runs_GetBalance.
  - intros b e1 _ G1 (-> & B & S). apply runs_ret; [done|]. by apply HQ.
Qed.

Lemma Transfer_ok st a b v e (Q : unit → EVM → Prop) :
  address_ok a → address_ok b → good e → (st = true → v = 0) → 0 ≤ v ≤ bal (ev_StateDB e) a → (∀ e', good e' → Q tt e') →
  runs st (Transfer a b v) e Q.
Proof.
  intros Oa Ob G Hst Hv HQ. set (d := AddBalance b v (SubBalance a v (ev_StateDB e))).
  assert (effect db st (ev_StateDB e) d) as He.
  { destruct (decide (v = 0)) as [->|Hn].
    - eapply (eff_op db st (opSubBalance a 0)); [done..|]. by eapply (effect_op db st (opAddBalance b 0)).
    - destruct st; [by destruct Hn; apply Hst|]. by eapply (eff_transfer db false a b v); [..|constructor]. }
  right. exists tt, (e <| ev_StateDB := d |>). split_and!; [done|by apply reach_effect|by eapply good_effect|].
  by eapply HQ, good_effect.
Qed.

Lemma call_ok_later gas e e1 e2 r : same db (ev_StateDB e) (ev_StateDB e1) → call_ok gas e1 e2 r → call_ok gas e e2 r.
Proof. intros S (K1 & K2 & K3). split; [done|]. split; [done|]. intros Hn. exact (same_trans _ _ _ _ S (K3 Hn)). Qed.

(** The callee of a call exists, or is made. *)
Lemma make_ok st a e (ex : bool) (Q : unit → EVM → Prop) :
  address_ok a → good e → ex = bool_decide (is_Some (live (ev_StateDB e) a)) → (∀ e', good e' → same_bal e e' → Q tt e') →
  runs st (if negb ex then writing (CreateAccount a) else mret tt) e Q.
Proof.
  intros Oa G -> HQ. case_bool_decide as Hl; cbn.
  - apply runs_ret; [done|]. by apply HQ.
  - apply (runs_writing db base rules st _ (opCreateAccount a)); [done| |done|done|exact HQ]. intros _.
    destruct (live _ a) eqn:E; [|done]. destruct Hl. eauto.
Qed.

Lemma Call_ok caller addr input gas value e :
  ref_ok caller → address_ok addr → good e → is_u64 gas → gas ≤ g → code_ok input → 0 ≤ value →
  (static (ev_readOnly e) = true → value = 0) →
  runs (static (ev_readOnly e)) (Call db cx rules cfg interpret caller addr input gas value) e (λ r e', call_ok gas e e' r).
Proof.
  intros Oc Oa G Hgas Hg Hi Hv Hst. unfold Call. assert (0 ≤ gas) as Hg0 by (by destruct Hgas).
  eapply runs_bind with (P := λ _ e', e' = e); [by apply callGuard_runs|]. intros guard e1 _ G1 ->.
  destruct guard; [apply runs_ret; [done|]; apply call_ok_early; [done|apply same_refl]|].
  eapply runs_bind with (P := λ b e', b = (value <=? bal (ev_StateDB e) (ContractRef_Address caller)) ∧ same_bal e e' ∧ same db (ev_StateDB e) (ev_StateDB e')).
  { by apply CanTransfer_ok. }
  intros ok e1 R1 G2 (-> & B1 & S1).
  destruct (Z.leb_spec value (bal (ev_StateDB e) (ContractRef_Address caller))) as [Hb|]; cbn [negb];
    [|apply runs_ret; [done|]; by apply call_ok_early].
  assert (ev_readOnly e1 = ev_readOnly e) as Er by apply R1.
  eapply runs_conseq; [|intros r e2 _ _ Hr; exact (call_ok_later gas e e1 e2 r S1 Hr)].
  apply runs_snapshot; [done|]. intros e2 G3 B2 W2.
  eapply since_bind with (P := λ ex e', ex = bool_decide (is_Some (live (ev_StateDB e') addr)) ∧ same_bal e2 e'); [done| |].
  { by apply runs_Exist. }
  intros ex e3 W3 G4 [Eex B3]. destruct (_ && (value =? 0)).
  { apply since_ret; [done..|]. split; [apply code_ok_nil|]. split; [cbn; lia|done]. }
  eapply since_bind with (P := λ _ e', same_bal e3 e'); [done|by apply make_ok|]. intros _ e4 W4 G5 B4.
  eapply since_bind with (P := λ _ _, True); [done| |].
  { apply Transfer_ok; [done..| |done]. by rewrite B4, B3, B2, B1. }
  intros _ e5 W5 G6 _.
  eapply since_bind; [exact W5|apply withCode_ok; [done|by apply NewContract_ok|done]|].
  intros c e6 W6 G7 (Hc & Ec & _). apply (run_finish_ok (ev_readOnly e)); try done. left. congruence.
Qed.

Lemma CallCode_ok caller addr input gas value e :
  ref_ok caller → address_ok addr → good e → is_u64 gas → gas ≤ g → code_ok input → 0 ≤ value →
  runs (static (ev_readOnly e)) (CallCode db cx rules cfg interpret caller addr input gas value) e (λ r e', call_ok gas e e' r).
Proof.
  intros Oc Oa G Hgas Hg Hi Hv. unfold CallCode. assert (0 ≤ gas) as Hg0 by (by destruct Hgas).
  eapply runs_bind with (P := λ _ e', e' = e); [by apply callGuard_runs|]. intros guard e1 _ G1 ->.
  destruct guard; [apply runs_ret; [done|]; apply call_ok_early; [done|apply same_refl]|].
  eapply runs_bind with (P := λ _ e', same db (ev_StateDB e) (ev_StateDB e')); [by apply CanTransfer_ok|].
  intros ok e1 R1 G2 S1. destruct ok; cbn [negb]; [|apply runs_ret; [done|]; by apply call_ok_early].
  assert (ev_readOnly e1 = ev_readOnly e) as Er by apply R1.
  eapply runs_conseq; [|intros r e2 _ _ Hr; exact (call_ok_later gas e e1 e2 r S1 Hr)].
  apply runs_snapshot; [done|]. intros e2 G3 _ W2.
  eapply since_bind; [exact W2|apply withCode_ok; [done|by apply NewContract_ok|done]|].
  intros c e3 W3 G4 (Hc & Ec & _). apply (run_finish_ok (ev_readOnly e)); try done. left. congruence.
Qed.

Lemma DelegateCall_ok self caller value addr input gas e :
  address_ok self → address_ok addr → good e → is_u64 gas → gas ≤ g → code_ok input → 0 ≤ value →
  runs (static (ev_readOnly e)) (DelegateCall db cx rules cfg interpret (ContractCaller self caller value) addr input gas) e
    (λ r e', call_ok gas e e' r).
Proof.
  intros Os Oa G Hgas Hg Hi Hv. unfold DelegateCall. assert (0 ≤ gas) as Hg0 by (by destruct Hgas).
  eapply runs_bind with (P := λ _ e', e' = e); [by apply callGuard_runs|]. intros guard e1 _ G1 ->.
  destruct guard; [apply runs_ret; [done|]; apply call_ok_early; [done|apply same_refl]|].
  apply runs_snapshot; [done|]. intros e2 G3 _ W2. cbn [AsDelegate ct_caller NewContract].
  eapply since_bind with (P := λ c _, contract_ok c ∧ ct_Gas c = gas); [exact W2| |].
  { eapply runs_orPanic; [done..|]. split; [|done]. split; try done; apply code_ok_nil. }
  intros c e3 W3 G4 [Hc Ec]. eapply since_bind; [exact W3|by apply withCode_ok|].
  intros c' e4 W4 G5 (Hc' & Ec' & _). apply (run_finish_ok (ev_readOnly e)); try done; [by left|congruence].
Qed.

(** The effect of a static call is read-only since Byzantium. *)
Lemma StaticCall_ok caller addr input gas e :
  ref_ok caller → address_ok addr → good e → is_u64 gas → gas ≤ g → code_ok input →
  runs (static true) (StaticCall db cx rules cfg interpret caller addr input gas) e (λ r e', call_ok gas e e' r).
Proof.
  intros Oc Oa G Hgas Hg Hi. unfold StaticCall. assert (0 ≤ gas) as Hg0 by (by destruct Hgas).
  eapply runs_bind with (P := λ _ e', e' = e); [by apply callGuard_runs|]. intros guard e1 _ G1 ->.
  destruct guard; [apply runs_ret; [done|]; apply call_ok_early; [done|apply same_refl]|].
  apply runs_snapshot; [done|]. intros e2 G3 _ W2.
  eapply since_bind; [exact W2|apply withCode_ok; [done|by apply NewContract_ok|done]|].
  intros c e3 W3 G4 (Hc & Ec & _). eapply since_bind with (P := λ _ _, True); [exact W3| |].
  { by apply (runs_writing db base rules _ _ (opAddBalance addr 0)). }
  intros _ e4 W4 G5 _. apply (run_finish_ok true); try done. right. by rewrite orb_true_r.
Qed.

(** ** Creation *)

Lemma setContractCreator_ok a creator e (Q : unit → EVM → Prop) :
  good e → (∀ e', good e' → same_bal e e' → Q tt e') → runs false (setContractCreator db a creator) e Q.
Proof.
  intros G HQ. pose proof CreatorAddress_ok as Oa. unfold setContractCreator, getCreatorOrSelf, GetContractCreator.
  eapply runs_bind with (P := λ _ e', same_bal e e').
  - eapply runs_bind with (P := λ _ e', same_bal e e'); [|intros c e1 _ G1 B1; by apply runs_ret].
    eapply runs_bind with (P := λ _ e', same_bal e e'); [|intros c e1 _ G1 B1; by apply runs_ret].
    by apply (runs_reads db base rules false _ (opGetState CreatorAddress (CreatorSlotKey creator))).
  - intros real e1 _ G1 B1.
    apply (runs_writing db base rules false _ (opSetState CreatorAddress (CreatorSlotKey a) (Address_Hash real))); [done..|].
    intros e2 G2 B2. apply HQ; [done|]. intros x. by rewrite B2.
Qed.

Lemma storeCode_ok a gas r e :
  address_ok a → good e → out_ok gas r → runs false (storeCode db rules a r) e (λ r _, out_ok gas r.1).
Proof.
  intros Oa G [Hr Hg]. unfold storeCode. destruct r as [[ret [err|]] c]; cbn [fst snd] in *; [by apply runs_ret|].
  destruct (_ && _); [by apply runs_ret|].
  assert (0 ≤ mul64 (Z.of_nat (length ret)) CreateDataGas) as Hm by apply u64_range.
  assert (∀ err, out_ok gas (ret, err, (UseGas c (mul64 (Z.of_nat (length ret)) CreateDataGas)).2)) as Ho.
  { intros err. split; [done|]. unfold UseGas. destruct (Z.ltb_spec (ct_Gas c) (mul64 (Z.of_nat (length ret)) CreateDataGas)); cbn; [lia|]. upd. lia. }
  destruct (UseGas c _) as [[] c']; [|apply runs_ret; [done|apply Ho]].
  eapply runs_bind with (P := λ _ _, True); [|intros _ e1 _ G1 _; apply runs_ret; [done|apply Ho]].
  by apply (runs_writing db base rules false _ (opSetCode a ret)).
Qed.

(** What a creation returns; without the money for the value no balance changes. *)
Definition create_ok (gas : Z) (e e' : EVM) (r : bytes * Address * Z * option vmerror) : Prop :=
  code_ok r.1.1.1 ∧ 0 ≤ r.1.2 ≤ gas ∧ (r.2 = Some ErrInsufficientBalance → same_bal e e').

Lemma create_ok_later gas e e1 e2 r : same_bal e e1 → create_ok gas e1 e2 r → create_ok gas e e2 r.
Proof. intros B (H1 & H2 & H3). split; [done|]. split; [done|]. intros E x. by rewrite (H3 E), B. Qed.

Lemma finishCreate_ok e0 e gas a r :
  good e0 → within db false e0 e → good e → out_ok gas r.1 →
  runs_since false e0 (finishCreate rules (Snapshot (ev_StateDB e0)).1 a r) e (λ r e', create_ok gas e0 e' r).
Proof.
  intros G0 W G [Hr Hg]. unfold finishCreate. destruct r as [[[ret err] c] exceeded]; cbn [fst snd] in *.
  eapply since_bind_since with (P := λ c e', 0 ≤ ct_Gas c ≤ gas ∧ (err = Some ErrInsufficientBalance → same_bal e0 e')).
  - destruct (_ || _) eqn:Eb; cycle 1.
    { apply since_ret; [done..|]. split; [done|]. intros ->. by rewrite bool_decide_false, !orb_true_r in Eb. }
    eapply since_bind_since with (P := λ _ e', same_bal e0 e'); [apply since_undo; [done..|]; intros e1 _ _ S x; by apply (same_shows db)|].
    intros _ e1 R1 G1 S1. apply since_done; [done..|]. split; [|done]. destruct (decide _); [done|]. unfold UseGas.
    destruct (Z.ltb_spec (ct_Gas c) (ct_Gas c)); cbn; [lia|]. upd. lia.
  - intros c' e1 R1 G1 [Hc HB]. apply since_done; [done..|]. split; [done|]. split; [done|]. cbn. intros E. apply HB. by destruct exceeded, err.
Qed.

Lemma createAt_ok caller code codeHash gas value depth a e :
  ref_ok caller → address_ok a → good e → is_u64 gas → gas ≤ g → code_ok code → static (ev_readOnly e) = false →
  0 ≤ value ≤ bal (ev_StateDB e) (ContractRef_Address caller) →
  runs false (createAt db cx rules cfg interpret caller code codeHash gas value depth a) e (λ r e', create_ok gas e e' r).
Proof.
  intros Oc Oa G Hgas Hg Hk Hst Hv. unfold createAt. apply runs_snapshot; [done|]. intros e1 G1 B1 W1.
  eapply since_bind with (P := λ _ e', same_bal e1 e'); [exact W1|by apply (runs_writing db base rules _ _ (opCreateAccount a))|].
  intros _ e2 W2 G2 B2. eapply since_bind with (P := λ _ e', same_bal e2 e'); [exact W2|by apply setContractCreator_ok|].
  intros _ e3 W3 G3 B3. eapply since_bind with (P := λ _ e', same_bal e3 e'); [exact W3| |].
  { destruct (IsEIP158 rules); [by apply (runs_writing db base rules _ _ (opSetNonce a 1))|by apply runs_ret]. }
  intros _ e4 W4 G4 B4. eapply since_bind with (P := λ _ _, True); [exact W4| |].
  { apply Transfer_ok; try done. by rewrite B4, B3, B2, B1. }
  intros _ e5 W5 G5 _. cbn zeta. destruct (_ && _).
  { apply since_ret; [done..|]. split; [apply code_ok_nil|]. destruct Hgas. cbn. split; [lia|done]. }
  assert (contract_ok (SetCallCode (NewContract caller a value gas) a codeHash code)) as Hc.
  { split; try done. apply Hv. }
  eapply since_bind with (P := λ r _, out_ok gas r); [exact W5| |].
  { pose proof (re_readOnly _ _ _ _ W5) as Er. upd. rewrite <- Er in Hst. rewrite <- Hst.
    eapply runs_static, run_ok; try done. }
  intros r e6 W6 G6 Hr. eapply since_bind with (P := λ r _, out_ok gas r.1); [exact W6|by apply storeCode_ok|]. intros r' e7 W7 G7 Hr'. by apply finishCreate_ok.
Qed.

Lemma create_runs caller code codeHash gas value a e :
  ref_ok caller → address_ok a → good e → is_u64 gas → gas ≤ g → code_ok code → 0 ≤ value → static (ev_readOnly e) = false →
  runs false (create db cx rules cfg interpret caller code codeHash gas value a) e (λ r e', create_ok gas e e' r).
Proof.
  intros Oc Oa G Hgas Hg Hk Hv Hst. unfold create. assert (0 ≤ gas) as Hg0 by (by destruct Hgas).
  assert (∀ a g' err e', 0 ≤ g' ≤ gas → same_bal e e' → create_ok gas e e' ([], a, g', err)) as Hearly by (intros; split; [apply code_ok_nil|done]).
  eapply runs_bind with (P := λ _ e', e' = e); [by apply runs_gets|]. intros depth e1 _ _ ->.
  destruct (_ <? depth); [apply runs_ret; [done|]; apply Hearly; [lia|done]|].
  eapply runs_bind with (P := λ b e', b = (value <=? bal (ev_StateDB e) (ContractRef_Address caller)) ∧ same_bal e e').
  { by apply CanTransfer_ok. }
  intros ok e1 R1 G1 (-> & B1).
  destruct (Z.leb_spec value (bal (ev_StateDB e) (ContractRef_Address caller))) as [Hb|]; cbn [negb];
    [|apply runs_ret; [done|]; apply Hearly; [lia|done]].
  eapply runs_bind with (P := λ _ e', same_bal e1 e'); [by apply (runs_reads db base rules _ _ (opGetNonce (ContractRef_Address caller)))|].
  intros nonce e2 R2 G2 B2.
  eapply runs_bind with (P := λ _ e', same_bal e2 e'); [apply (runs_writing db base rules _ _ (opSetNonce (ContractRef_Address caller) (add64 nonce 1))); [done|done|split; [done|apply add64_u64]|done|done]|].
  intros _ e3 R3 G3 B3.
  eapply runs_bind with (P := λ _ e', same_bal e3 e'); [by apply (runs_reads db base rules _ _ (opGetCodeHash a))|].
  intros contractHash e4 R4 G4 B4.
  eapply runs_bind with (P := λ _ e', same_bal e4 e'); [by apply (runs_reads db base rules _ _ (opGetNonce a))|].
  intros nonce' e5 R5 G5 B5. assert (same_bal e e5) as B by (intros x; by rewrite B5, B4, B3, B2, B1).
  destruct (_ || _); [apply runs_ret; [done|]; apply Hearly; [lia|done]|].
  eapply runs_conseq; [apply createAt_ok; try done; [|by rewrite B]|intros r e6 _ _; by apply create_ok_later].
  by rewrite (re_readOnly _ _ _ _ R5), (re_readOnly _ _ _ _ R4), (re_readOnly _ _ _ _ R3), (re_readOnly _ _ _ _ R2), (re_readOnly _ _ _ _ R1).
Qed.

Lemma Create_ok caller code gas value e :
  ref_ok caller → good e → is_u64 gas → gas ≤ g → code_ok code → 0 ≤ value → static (ev_readOnly e) = false →
  runs false (Create db cx rules cfg interpret caller code gas value) e (λ r e', create_ok gas e e' r).
Proof.
  intros Oc G Hgas Hg Hk Hv Hst. unfold Create.
  eapply runs_bind with (P := λ _ e', same_bal e e'); [by apply (runs_reads db base rules _ _ (opGetNonce (ContractRef_Address caller)))|].
  intros nonce e1 R1 G1 B1. eapply runs_conseq; [apply create_runs; try done; [apply Hash_address_ok|]|intros r e2 _ _; by apply create_ok_later].
  by rewrite (re_readOnly _ _ _ _ R1).
Qed.

Lemma Create2_ok caller code gas value salt e :
  ref_ok caller → good e → is_u64 gas → gas ≤ g → code_ok code → 0 ≤ value → static (ev_readOnly e) = false →
  runs false (Create2 db cx rules cfg interpret caller code gas value salt) e (λ r e', create_ok gas e e' r).
Proof. intros. apply create_runs; try done. apply Hash_address_ok. Qed.
End interpreter.
End calls.
