(* ===== verification/EvmInstrFacts.v ===== *)
(** * EvmInstrFacts: the instructions run

    Every instruction, when its operands are on the stack and the memory it touches is
    there, runs to an end, keeps the frame well-formed and leaves no more gas than there
    was (a call: than there was with what it was given). *)

From S2P Require Import Prelude Bytes Crypto StateDB StateDBFacts StateDBRevert StateDBView EvmWord EvmCode EvmMemory EvmState EvmGas EvmCall EvmEffect EvmLogic EvmCallFacts EvmInstr.

Local Open Scope Z_scope.

(** ** Words *)

Definition nonneg (x : Z) : Prop := 0 ≤ x.

Lemma U256_nonneg x : nonneg (U256 x).
Proof. rewrite U256_wrap. apply wrap_ok. Qed.

Lemma if_nonneg (b : bool) x y : nonneg x → nonneg y → nonneg (if b then x else y).
Proof. by destruct b. Qed.

Lemma zero_nonneg : nonneg 0.
Proof. done. Qed.
Lemma one_nonneg : nonneg 1.
Proof. done. Qed.

Create HintDb words.
#[export] Hint Resolve U256_nonneg if_nonneg zero_nonneg one_nonneg : words.

Lemma Exp_nonneg b e : nonneg (Exp b e).
Proof.
  unfold Exp. match goal with |- nonneg (foldl ?f ?i ?l).1 => destruct (expWords_ok l i) as [? _]; [by split|done] end.
Qed.

Lemma byte_nonneg th val : 0 ≤ val → nonneg (opByte th val).
Proof.
  intros Hv. unfold opByte, Byte. apply if_nonneg; [|done]. destruct (_ <=? _)%nat; [done|].
  rewrite bigEndianByteAt_spec by done. unfold nonneg. pose proof (Z.mod_pos_bound (val `div` 256 ^ Z.of_nat (32 - 1 - Z.to_nat (Big_Int64 th))) 256). lia.
Qed.

(** The results of the arithmetic instructions are not negative. *)
Lemma binary_words x y : nonneg x → nonneg y →
  Forall nonneg [opAdd x y; opSub x y; opMul x y; opDiv x y; opSdiv x y; opMod x y; opSmod x y; opExp x y;
    opSignExtend x y; opLt x y; opGt x y; opSlt x y; opSgt x y; opEq x y; opAnd x y; opOr x y; opXor x y; opByte x y;
    opSHL x y; opSHR x y; opSAR x y].
Proof.
  intros Hx Hy. repeat apply Forall_cons_2; [..|done];
    try (unfold opAdd, opSub, opMul, opDiv, opSdiv, opMod, opSmod, opSignExtend, opLt, opGt, opSlt, opSgt, opEq, opSHL, opSHR, opSAR;
         cbv zeta; by auto 10 with words).
  - unfold opExp. auto 10 using Exp_nonneg with words.
  - unfold opAnd. apply Z.land_nonneg. by left.
  - unfold opOr. by apply Z.lor_nonneg.
  - unfold opXor. by apply Z.lxor_nonneg.
  - by apply byte_nonneg.
Qed.

Lemma code_nonneg b : Forall byte_ok b → nonneg (be_int b).
Proof. intros H. by destruct (be_int_bound b H). Qed.

Lemma validJumpdest_some code dest : 0 ≤ dest → is_Some (validJumpdest code dest).
Proof.
  intros Hd. unfold validJumpdest. destruct (codeBitmap_spec code) as (bits & -> & Hb).
  destruct (Z.leb_spec 63 (BitLen dest)) as [|Hs]; cbn [orb]; [by eexists|].
  assert (dest < 2 ^ 62) as Hlt by (apply BitLen_lt; lia). unfold Big_Uint64. rewrite u64_id by (unfold is_u64; lia).
  destruct (Z.leb_spec (Z.of_nat (length code)) dest); [by eexists|]. destruct (negb _); [by eexists|].
  cbn [mbind option_bind]. destruct (Hb (Z.to_nat dest)) as [-> _]; [lia|]. by eexists.
Qed.

Lemma getDataBig_ok data start size : Forall byte_ok data → Forall byte_ok (getDataBig data start size).
Proof.
  intros H. unfold getDataBig, RightPadBytes. assert (∀ n m, Forall byte_ok (take n (drop m data))) as Ht by (intros; by apply Forall_take, Forall_drop).
  destruct (_ <=? _); [done|]. apply Forall_app. split; [done|]. apply Forall_replicate. by split.
Qed.

(** ** Frames *)

Record frame_ok (fr : Frame) : Prop := {
  fo_stack : Forall nonneg (fr_stack fr);
  fo_mem : mem_ok (fr_mem fr);
  fo_contract : contract_ok (fr_contract fr);
  fo_pc : is_u64 (fr_pc fr)
}.

Definition gas_of (fr : Frame) : Z := ct_Gas (fr_contract fr).

Definition res_ok (gas : Z) (r : result) : Prop :=
  frame_ok r.1.1 ∧ code_ok r.1.2 ∧ gas_of r.1.1 ≤ gas.

(** The memory holds what a size function asks for. *)
Definition covers (f : Stack → option Z) (fr : Frame) : Prop :=
  ∀ size, f (fr_stack fr) = Some size → size ≤ Memory_Len (fr_mem fr).

Lemma calc_fits m off l : nonneg off → nonneg l → calcMemSize off l ≤ Memory_Len m → fits m off l.
Proof. unfold nonneg, calcMemSize, fits. destruct (Z.eqb_spec l 0); lia. Qed.

Section instructions.
Context `{CR : Crypto} `{SD : StateDatabase} `{PC : Precompiles} (db : Database) (base : StateDB).
Context (cx : VmContext) (rules : Rules) (cfg : VmConfig) (st : bool).

Abbreviation runs := (runs db base rules st).
Abbreviation good := (good db base).

Lemma runs_pop1 {B : Type} fr e x l (k : Z * Frame → X B) Q :
  fr_stack fr = x :: l → runs (k (x, fr <| fr_stack := l |>)) e Q → runs (pop1 fr ≫= k) e Q.
Proof. intros E H. unfold pop1. by rewrite E. Qed.

Lemma runs_pop2 {B : Type} fr e x y l (k : Z * Z * Frame → X B) Q :
  fr_stack fr = x :: y :: l → runs (k (x, y, fr <| fr_stack := l |>)) e Q → runs (pop2 fr ≫= k) e Q.
Proof. intros E H. unfold pop2, pop1. by rewrite E. Qed.

Lemma runs_pop3 {B : Type} fr e x y z l (k : Z * Z * Z * Frame → X B) Q :
  fr_stack fr = x :: y :: z :: l → runs (k (x, y, z, fr <| fr_stack := l |>)) e Q → runs (pop3 fr ≫= k) e Q.
Proof. intros E H. unfold pop3, pop2, pop1. by rewrite E. Qed.

Lemma frame_pop fr l k : frame_ok fr → fr_stack fr = l ++ k → frame_ok (fr <| fr_stack := k |>).
Proof. intros [H1 H2 H3 H4] E. split; try done. upd. rewrite E in H1. by apply Forall_app in H1 as [_ H1]. Qed.

Lemma frame_push fr x : frame_ok fr → nonneg x → frame_ok (push fr x).
Proof. intros [H1 H2 H3 H4] Hx. split; try done. unfold push. upd. by constructor. Qed.

Lemma frame_mem fr m : frame_ok fr → mem_ok m → frame_ok (fr <| fr_mem := m |>).
Proof. by intros [H1 H2 H3 H4]. Qed.

Lemma res_same fr fr' gas : frame_ok fr' → gas_of fr' = gas_of fr → gas = gas_of fr → res_ok gas (fr', [], None).
Proof. intros Hf E ->. split; [done|]. split; [apply code_ok_nil|]. cbn. lia. Qed.

Lemma ok_runs fr e gas : good e → frame_ok fr → gas_of fr ≤ gas → runs (ok fr) e (λ r _, res_ok gas r).
Proof. intros G Hf Hg. apply runs_ret; [done|]. split; [done|]. split; [apply code_ok_nil|done]. Qed.

Lemma fails_runs fr err e gas : good e → frame_ok fr → gas_of fr ≤ gas → runs (fails fr err) e (λ r _, res_ok gas r).
Proof. intros G Hf Hg. apply runs_ret; [done|]. split; [done|]. split; [apply code_ok_nil|done]. Qed.

(** An instruction whose operands, [n] words, are there. *)
Definition exec_ok (f : executionFunc) (n : nat) (pre : Frame → Prop) : Prop :=
  ∀ interp fr e, frame_ok fr → good e → (n ≤ length (fr_stack fr))%nat → pre fr →
    runs (f interp fr) e (λ r _, res_ok (gas_of fr) r).

Definition anywhere (fr : Frame) : Prop := True.

(** The operands of an instruction, which are not negative. *)
Lemma operands1 fr : frame_ok fr → (1 ≤ length (fr_stack fr))%nat →
  ∃ x l, fr_stack fr = x :: l ∧ nonneg x ∧ frame_ok (fr <| fr_stack := l |>).
Proof.
  intros F Hn. pose proof (fo_stack _ F) as Hs. destruct (fr_stack fr) as [|x l] eqn:E; [cbn in Hn; lia|].
  inversion_clear Hs. exists x, l. split_and!; try done. by apply (frame_pop fr [x]).
Qed.

Lemma operands2 fr : frame_ok fr → (2 ≤ length (fr_stack fr))%nat →
  ∃ x y l, fr_stack fr = x :: y :: l ∧ nonneg x ∧ nonneg y ∧ frame_ok (fr <| fr_stack := l |>).
Proof.
  intros F Hn. destruct (operands1 fr F) as (x & l & E & Hx & F1); [lia|].
  destruct (operands1 _ F1) as (y & k & E1 & Hy & F2); [rewrite E in Hn; upd; cbn in Hn; lia|]. upd. subst l.
  by exists x, y, k.
Qed.

Lemma operands3 fr : frame_ok fr → (3 ≤ length (fr_stack fr))%nat →
  ∃ x y z l, fr_stack fr = x :: y :: z :: l ∧ nonneg x ∧ nonneg y ∧ nonneg z ∧ frame_ok (fr <| fr_stack := l |>).
Proof.
  intros F Hn. destruct (operands2 fr F) as (x & y & l & E & Hx & Hy & F1); [lia|].
  destruct (operands1 _ F1) as (z & k & E1 & Hz & F2); [rewrite E in Hn; upd; cbn in Hn; lia|]. upd. subst l.
  by exists x, y, z, k.
Qed.

Lemma unary_ok f : (∀ x, nonneg x → nonneg (f x)) → exec_ok (unary f) 1 anywhere.
Proof.
  intros Hf interp fr e F G Hn _. destruct (operands1 fr F Hn) as (x & l & E & Hx & F1).
  eapply runs_pop1; [exact E|]. apply ok_runs; [done| |done]. apply frame_push; auto.
Qed.

Lemma binary_ok f : (∀ x y, nonneg x → nonneg y → nonneg (f x y)) → exec_ok (binary f) 2 anywhere.
Proof.
  intros Hf interp fr e F G Hn _. destruct (operands2 fr F Hn) as (x & y & l & E & Hx & Hy & F1).
  eapply runs_pop2; [exact E|]. apply ok_runs; [done| |done]. apply frame_push; auto.
Qed.

Lemma ternary_ok f : (∀ x y z, nonneg (f x y z)) → exec_ok (ternary f) 3 anywhere.
Proof.
  intros Hf interp fr e F G Hn _. destruct (operands3 fr F Hn) as (x & y & z & l & E & _ & _ & _ & F1).
  eapply runs_pop3; [exact E|]. apply ok_runs; [done| |done]. apply frame_push; auto.
Qed.

Lemma pushing_ok f : (∀ fr, frame_ok fr → nonneg (f fr)) → exec_ok (pushing f) 0 anywhere.
Proof. intros Hf interp fr e F G _ _. apply ok_runs; [done| |done]. apply frame_push; auto. Qed.

Lemma Address_Big_nonneg a : nonneg (Address_Big a).
Proof. apply code_nonneg, be_bytes_ok. Qed.

Lemma Hash_Big_nonneg h : nonneg (Hash_Big h).
Proof. apply code_nonneg, be_bytes_ok. Qed.

(** A word computed from the state. *)
Lemma lookup_ok {A : Type} (f : Z → StateDB → A * StateDB) (o : Z → op) (v : A → Z) :
  (∀ x s, allowed st s (o x) ∧ op_typed (o x) ∧ runOp db (o x) s = Some (f x s).2) → (∀ a, nonneg (v a)) →
  exec_ok (λ _ fr, '(x, fr) ← pop1 fr; a ← reading (f x); ok (push fr (v a))) 1 anywhere.
Proof.
  intros Hf Hv interp fr e F G Hn _. destruct (operands1 fr F Hn) as (x & l & E & Hx & F1).
  eapply runs_pop1; [exact E|]. eapply runs_bind with (P := λ _ _, True).
  - by apply (runs_reads db base rules st _ (o x)); [done|apply Hf..|].
  - intros a e1 _ G1 _. apply ok_runs; [done| |done]. by apply frame_push.
Qed.

Lemma opBalance_ok : exec_ok opBalance 1 anywhere.
Proof.
  intros interp fr e F G Hn _. destruct (operands1 fr F Hn) as (x & l & E & Hx & F1).
  eapply runs_pop1; [exact E|]. eapply runs_bind with (P := λ b _, nonneg b).
  - apply runs_GetBalance; [apply BigToAddress_ok|done|]. intros. apply (gd_sane _ _ _ G), BigToAddress_ok.
  - intros a e1 _ G1 Ha. apply ok_runs; [done| |done]. by apply frame_push.
Qed.

Lemma opExtCodeSize_ok : exec_ok (opExtCodeSize db) 1 anywhere.
Proof. apply (lookup_ok (λ x, GetCodeSize db (BigToAddress x)) (λ x, opGetCodeSize (BigToAddress x)) u64); [|intros; apply u64_range]. intros y s. split_and!; [done|apply BigToAddress_ok|done]. Qed.

Lemma opSload_ok : exec_ok (opSload db) 1 anywhere.
Proof.
  intros interp fr e F G Hn _. destruct (operands1 fr F Hn) as (x & l & E & Hx & F1).
  eapply runs_pop1; [exact E|]. eapply runs_bind with (P := λ _ _, True).
  - pose proof (co_self _ (fo_contract _ F)). by apply (runs_reads db base rules st _ (opGetState (ct_self (fr_contract fr)) (BigToHash x))).
  - intros v e1 _ G1 _. apply ok_runs; [done| |done]. apply frame_push; [done|apply Hash_Big_nonneg].
Qed.

Lemma opExtCodeHash_ok : exec_ok opExtCodeHash 1 anywhere.
Proof.
  intros interp fr e F G Hn _. destruct (operands1 fr F Hn) as (x & l & E & Hx & F1).
  pose proof (BigToAddress_ok x). eapply runs_pop1; [exact E|]. eapply runs_bind with (P := λ _ _, True).
  { by apply (runs_reads db base rules st _ (opEmpty (BigToAddress x))). }
  intros [] e1 _ G1 _; [by apply ok_runs; [done|apply frame_push|]|].
  eapply runs_bind with (P := λ _ _, True); [by apply (runs_reads db base rules st _ (opGetCodeHash (BigToAddress x)))|].
  intros h e2 _ G2 _. apply ok_runs; [done| |done]. apply frame_push; [done|apply Hash_Big_nonneg].
Qed.

Lemma opCallDataLoad_ok : exec_ok opCallDataLoad 1 anywhere.
Proof.
  intros interp fr e F G Hn _. destruct (operands1 fr F Hn) as (x & l & E & Hx & F1).
  eapply runs_pop1; [exact E|]. apply ok_runs; [done| |done]. apply frame_push; [done|].
  apply code_nonneg, getDataBig_ok. apply (co_input _ (fo_contract _ F)).
Qed.

Lemma opBlockhash_ok : exec_ok (opBlockhash cx) 1 anywhere.
Proof.
  intros interp fr e F G Hn _. destruct (operands1 fr F Hn) as (x & l & E & Hx & F1).
  eapply runs_pop1; [exact E|]. apply ok_runs; [done| |done]. apply frame_push; [done|].
  apply if_nonneg; [apply Hash_Big_nonneg|done].
Qed.

Lemma opReturnDataSize_ok : exec_ok opReturnDataSize 0 anywhere.
Proof.
  intros interp fr e F G _ _. apply runs_gets_bind, ok_runs; [done| |done]. apply frame_push; [done|]. unfold nonneg. lia.
Qed.

Lemma opPop_ok : exec_ok opPop 1 anywhere.
Proof.
  intros interp fr e F G Hn _. destruct (operands1 fr F Hn) as (x & l & E & Hx & F1).
  eapply runs_pop1; [exact E|]. by apply ok_runs.
Qed.

Lemma opStop_ok : exec_ok opStop 0 anywhere.
Proof. intros interp fr e F G _ _. by apply ok_runs. Qed.

(** ** Memory *)

Lemma covers2 (f : Z → Z → Z) fr x y l :
  covers (λ s, o ← Back s 0; k ← Back s 1; Some (f o k)) fr → fr_stack fr = x :: y :: l → f x y ≤ Memory_Len (fr_mem fr).
Proof. intros H E. apply H. by rewrite E. Qed.

Lemma Memory_Get_runs {B : Type} fr off len (k : bytes → X B) e Q :
  mem_ok (fr_mem fr) → fits (fr_mem fr) off len →
  (∀ b, code_ok b → runs (k b) e Q) →
  runs (orPanic (Memory_Get (fr_mem fr) (Big_Int64 off) (Big_Int64 len)) ≫= k) e Q.
Proof.
  intros Hm Hf Hk. destruct (get_fits _ _ _ Hm Hf) as (b & E & Hb & Hl). eapply runs_orPanic_bind; [exact E|].
  apply Hk. split; [done|lia].
Qed.

Lemma Memory_Set_runs {B : Type} fr off len v (k : Memory → X B) e Q :
  mem_ok (fr_mem fr) → fits (fr_mem fr) off len → Forall byte_ok v →
  (∀ m, mem_ok m → runs (k m) e Q) →
  runs (orPanic (Memory_Set (fr_mem fr) (Big_Uint64 off) (Big_Uint64 len) v) ≫= k) e Q.
Proof.
  intros Hm Hf Hv Hk. destruct (set_fits _ _ _ v Hm Hf Hv) as (m & E & Hm' & _). eapply runs_orPanic_bind; [exact E|]. by apply Hk.
Qed.

(** [SHA3], [RETURN] and [REVERT]: the first two operands are a range. *)
Lemma range_fits fr x y l : covers memorySha3 fr → fr_stack fr = x :: y :: l → nonneg x → nonneg y → fits (fr_mem fr) x y.
Proof. intros H E Hx Hy. apply calc_fits; [done..|]. apply H. unfold memorySha3. by rewrite E. Qed.

Lemma opSha3_ok : exec_ok (opSha3 cfg) 2 (covers memorySha3).
Proof.
  intros interp fr e F G Hn Hc. destruct (operands2 fr F Hn) as (x & y & l & E & Hx & Hy & F1).
  eapply runs_pop2; [exact E|]. apply Memory_Get_runs; [apply F|exact (range_fits fr x y l Hc E Hx Hy)|]. intros b Hb. cbv zeta.
  eapply runs_bind with (P := λ _ _, True).
  - destruct (EnablePreimageRecording cfg); [|by apply runs_ret].
    by apply (runs_writing db base rules st _ (opAddPreimage (keccak256 b) b)).
  - intros _ e1 _ G1 _. apply ok_runs; [done| |done]. apply frame_push; [done|apply Hash_Big_nonneg].
Qed.

Lemma opReturn_ok : exec_ok opReturn 2 (covers memorySha3).
Proof.
  intros interp fr e F G Hn Hc. destruct (operands2 fr F Hn) as (x & y & l & E & Hx & Hy & F1).
  eapply runs_pop2; [exact E|]. apply Memory_Get_runs; [apply F|exact (range_fits fr x y l Hc E Hx Hy)|]. intros b Hb.
  apply runs_ret; [done|]. split; [done|]. by split.
Qed.

Lemma copying_runs data x y z fr e gas :
  Forall byte_ok data → frame_ok fr → fits (fr_mem fr) x z → good e → gas_of fr ≤ gas →
  runs (copying data x y z fr) e (λ r _, res_ok gas r).
Proof.
  intros Hd F Hf G Hg. unfold copying. apply Memory_Set_runs; [apply F|done|by apply getDataBig_ok|]. intros m Hm.
  apply ok_runs; [done| |done]. by apply frame_mem.
Qed.

Lemma copy_ok (data : Frame → bytes) : (∀ fr, frame_ok fr → Forall byte_ok (data fr)) →
  exec_ok (λ _ fr, '(x, y, z, fr) ← pop3 fr; copying (data fr) x y z fr) 3 (covers memoryCallDataCopy).
Proof.
  intros Hd interp fr e F G Hn Hc. destruct (operands3 fr F Hn) as (x & y & z & l & E & Hx & Hy & Hz & F1).
  eapply runs_pop3; [exact E|]. apply copying_runs; [by apply Hd|done| |done|done].
  apply calc_fits; [done..|]. apply Hc. unfold memoryCallDataCopy. by rewrite E.
Qed.

Lemma opCallDataCopy_ok : exec_ok opCallDataCopy 3 (covers memoryCallDataCopy).
Proof. apply copy_ok. intros fr F. apply (co_input _ (fo_contract _ F)). Qed.

Lemma opCodeCopy_ok : exec_ok opCodeCopy 3 (covers memoryCallDataCopy).
Proof. apply copy_ok. intros fr F. apply (co_code _ (fo_contract _ F)). Qed.

Lemma operands4 fr : frame_ok fr → (4 ≤ length (fr_stack fr))%nat →
  ∃ w x y z l, fr_stack fr = w :: x :: y :: z :: l ∧ nonneg w ∧ nonneg x ∧ nonneg y ∧ nonneg z ∧
    frame_ok (fr <| fr_stack := x :: y :: z :: l |>) ∧ frame_ok (fr <| fr_stack := l |>).
Proof.
  intros F Hn. destruct (operands1 fr F) as (w & k & E & Hw & F1); [lia|].
  destruct (operands3 _ F1) as (x & y & z & l & E1 & Hx & Hy & Hz & F2); [rewrite E in Hn; upd; cbn in Hn; lia|]. upd. subst k.
  by exists w, x, y, z, l.
Qed.

Lemma opExtCodeCopy_ok : exec_ok (opExtCodeCopy db) 4 (covers memoryExtCodeCopy).
Proof.
  intros interp fr e F G Hn Hc. destruct (operands4 fr F Hn) as (w & x & y & z & l & E & Hw & Hx & Hy & Hz & F1 & F2).
  eapply runs_pop1; [exact E|]. eapply runs_pop3; [done|].
  eapply runs_bind with (P := λ c _, code_ok (default [] c)); [by apply runs_GetCode; [apply BigToAddress_ok|..]|].
  intros c e1 _ G1 Hk. apply copying_runs; [apply Hk|done| |done|done].
  apply calc_fits; [done..|]. apply Hc. unfold memoryExtCodeCopy. by rewrite E.
Qed.

Lemma opReturnDataCopy_ok : exec_ok opReturnDataCopy 3 (covers memoryCallDataCopy).
Proof.
  intros interp fr e F G Hn Hc. destruct (operands3 fr F Hn) as (x & y & z & l & E & Hx & Hy & Hz & F1).
  eapply runs_pop3; [exact E|]. apply runs_gets_bind. cbv zeta. unfold nonneg in *.
  destruct (Z.ltb_spec 64 (BitLen (y + z))) as [|Hb]; cbn [orb]; [by apply fails_runs|].
  apply BitLen_lt in Hb; [|lia..].
  assert (Big_Uint64 (y + z) = y + z) as -> by (apply u64_id; unfold is_u64; lia).
  assert (Big_Uint64 y = y) as -> by (apply u64_id; unfold is_u64; lia).
  destruct (Z.ltb_spec (Z.of_nat (length (ev_returnData e))) (y + z)); [by apply fails_runs|].
  rewrite (proj2 (Z.leb_le _ _)) by lia.
  eapply runs_orPanic_bind; [done|]. apply Memory_Set_runs; [apply F| | |].
  - apply calc_fits; [done..|]. apply Hc. unfold memoryCallDataCopy. by rewrite E.
  - apply Forall_take, Forall_drop. apply (gd_data _ _ _ G).
  - intros m Hm. apply ok_runs; [done| |done]. by apply frame_mem.
Qed.

Lemma opMload_ok : exec_ok opMload 1 (covers memoryMLoad).
Proof.
  intros interp fr e F G Hn Hc. destruct (operands1 fr F Hn) as (x & l & E & Hx & F1).
  eapply runs_pop1; [exact E|]. change 32 with (Big_Int64 32). apply Memory_Get_runs; [apply F| |].
  - apply calc_fits; [done|done|]. apply Hc. unfold memoryMLoad. by rewrite E.
  - intros b Hb. apply ok_runs; [done| |done]. apply frame_push; [done|]. apply code_nonneg, Hb.
Qed.

Lemma opMstore_ok : exec_ok opMstore 2 (covers memoryMLoad).
Proof.
  intros interp fr e F G Hn Hc. destruct (operands2 fr F Hn) as (x & y & l & E & Hx & Hy & F1).
  eapply runs_pop2; [exact E|]. destruct (set32_fits (fr_mem fr) x y) as (m & Em & Hm & _); [apply F| |done|].
  - apply calc_fits; [done|done|]. apply Hc. unfold memoryMLoad. by rewrite E.
  - eapply runs_orPanic_bind; [exact Em|]. apply ok_runs; [done| |done]. by apply frame_mem.
Qed.

Lemma opMstore8_ok : exec_ok opMstore8 2 (covers memoryMStore8).
Proof.
  intros interp fr e F G Hn Hc. destruct (operands2 fr F Hn) as (x & y & l & E & Hx & Hy & F1).
  eapply runs_pop2; [exact E|].
  destruct (setbyte_fits (fr_mem fr) x (Z.land (Big_Int64 y) 0xff)) as (m & Em & Hm & _); [apply F| | |].
  - apply calc_fits; [done|done|]. apply Hc. unfold memoryMStore8. by rewrite E.
  - change 0xff with (Z.ones 8). rewrite Z.land_ones by lia. apply Z.mod_pos_bound. lia.
  - eapply runs_orPanic_bind; [exact Em|]. apply ok_runs; [done| |done]. by apply frame_mem.
Qed.
(** ** Jumps, pushes and exchanges *)

Lemma frame_jump fr pc : frame_ok fr → is_u64 pc → frame_ok (fr <| fr_pc := pc |>).
Proof. by intros [H1 H2 H3 H4]. Qed.

Lemma jumpTo_runs pos fr e gas : nonneg pos → frame_ok fr → good e → gas_of fr ≤ gas →
  runs (jumpTo pos fr) e (λ r _, res_ok gas r).
Proof.
  intros Hp F G Hg. unfold jumpTo. destruct (validJumpdest_some (ct_Code (fr_contract fr)) pos Hp) as [b E].
  eapply runs_orPanic_bind; [exact E|]. destruct b; [|by apply fails_runs]. apply ok_runs; [done| |done].
  apply frame_jump; [done|apply u64_range].
Qed.

Lemma opJump_ok : exec_ok opJump 1 anywhere.
Proof.
  intros interp fr e F G Hn _. destruct (operands1 fr F Hn) as (x & l & E & Hx & F1).
  eapply runs_pop1; [exact E|]. by apply jumpTo_runs.
Qed.

Lemma opJumpi_ok : exec_ok opJumpi 2 anywhere.
Proof.
  intros interp fr e F G Hn _. destruct (operands2 fr F Hn) as (x & y & l & E & Hx & Hy & F1).
  eapply runs_pop2; [exact E|]. destruct (y =? 0); [|by apply jumpTo_runs]. apply ok_runs; [done| |done].
  destruct F1. split; try done. apply u64_range.
Qed.

Lemma makePush_ok n : exec_ok (makePush n) 0 (λ fr, fr_pc fr < Z.of_nat (length (ct_Code (fr_contract fr)))).
Proof.
  intros interp fr e F G _ Hpc. unfold makePush. cbv zeta. destruct (co_code _ (fo_contract _ F)) as [Hk Hl].
  destruct (fo_pc _ F) as [Hp _].
  assert (Big_Int64 (fr_pc fr + 1) = fr_pc fr + 1) as ->.
  { unfold Big_Int64. rewrite u64_id by (unfold is_u64; lia). rewrite (proj2 (Z.ltb_lt _ _)) by lia. done. }
  rewrite (proj2 (Z.leb_le 0 _)), (proj2 (Z.leb_le _ (_ `min` (_ + _)))) by lia.
  eapply runs_orPanic_bind; [done|]. apply ok_runs; [done| |done].
  set (data := take _ _). assert (Forall byte_ok data) as Hd by (by apply Forall_take, Forall_drop).
  assert (nonneg (be_int (RightPadBytes data (Z.of_nat n)))) as Hv.
  { apply code_nonneg. unfold RightPadBytes. destruct (_ <=? _); [done|]. apply Forall_app. split; [done|].
    apply Forall_replicate. by split. }
  destruct (frame_push fr _ F Hv). split; try done. apply u64_range.
Qed.

Lemma makeDup_ok n : (1 ≤ n)%nat → exec_ok (makeDup n) n anywhere.
Proof.
  intros Hn1 interp fr e F G Hn _. unfold makeDup, dup.
  destruct (lookup_lt_is_Some_2 (fr_stack fr) (n - 1)) as [x E]; [lia|]. rewrite E.
  eapply runs_orPanic_bind; [done|]. apply ok_runs; [done| |done].
  pose proof (Forall_lookup_1 _ _ _ _ (fo_stack _ F) E). destruct F. split; try done. by constructor.
Qed.

Lemma makeSwap_ok n : exec_ok (makeSwap n) (n + 1) anywhere.
Proof.
  intros interp fr e F G Hn _. unfold makeSwap, swap.
  destruct (lookup_lt_is_Some_2 (fr_stack fr) (n + 1 - 1)) as [x E]; [lia|]. rewrite E.
  destruct (lookup_lt_is_Some_2 (fr_stack fr) 0) as [y E']; [lia|]. cbn [mbind option_bind]. rewrite E'. cbn [mbind option_bind].
  eapply runs_orPanic_bind; [done|]. apply ok_runs; [done| |done].
  pose proof (Forall_lookup_1 _ _ _ _ (fo_stack _ F) E). pose proof (Forall_lookup_1 _ _ _ _ (fo_stack _ F) E').
  destruct F. split; try done. upd. by repeat apply Forall_insert.
Qed.

Lemma popTopics_runs n fr e (Q : list Hash * Frame → EVM → Prop) :
  frame_ok fr → good e → (n ≤ length (fr_stack fr))%nat →
  (∀ t fr', frame_ok fr' → gas_of fr' = gas_of fr → fr_mem fr' = fr_mem fr → Q (t, fr') e) → runs (popTopics n fr) e Q.
Proof.
  revert fr Q. induction n as [|n IH]; intros fr Q F G Hn HQ; cbn [popTopics]; [by apply runs_ret; auto|].
  destruct (operands1 fr F) as (x & l & E & Hx & F1); [lia|]. eapply runs_pop1; [exact E|].
  eapply runs_bind with (P := λ p e', e' = e ∧ frame_ok p.2 ∧ gas_of p.2 = gas_of fr ∧ fr_mem p.2 = fr_mem fr).
  - apply IH; [done|done| |by intros t fr' ? ? ?]. rewrite E in Hn. upd. cbn in Hn. lia.
  - intros [t fr'] e1 _ G1 (-> & F2 & E2 & E3). apply runs_ret; [done|]. by apply HQ.
Qed.

Lemma makeLog_ok n : st = false → exec_ok (makeLog cx n) (n + 2) (covers memorySha3).
Proof.
  intros Hst interp fr e F G Hn Hc. destruct (operands2 fr F) as (x & y & l & E & Hx & Hy & F1); [lia|].
  eapply runs_pop2; [exact E|].
  eapply runs_bind with (P := λ p _, frame_ok p.2 ∧ gas_of p.2 = gas_of fr ∧ fr_mem p.2 = fr_mem fr).
  { apply popTopics_runs; [done|done| |by intros t fr' ? ? ?]. rewrite E in Hn. upd. cbn in Hn. lia. }
  intros [t fr'] e1 _ G1 (F2 & E2 & E3). cbn [snd] in *.
  apply Memory_Get_runs; [apply F2|rewrite E3; exact (range_fits fr x y l Hc E Hx Hy)|].
  intros b Hb. eapply runs_bind with (P := λ _ _, True).
  - by eapply (runs_writing db base rules st _ (opAddLog _)).
  - intros _ e2 _ G2 _. apply ok_runs; [done|done|]. cbn in *. lia.
Qed.

Lemma opSstore_ok : st = false → exec_ok (opSstore db) 2 anywhere.
Proof.
  intros Hst interp fr e F G Hn _. destruct (operands2 fr F Hn) as (x & y & l & E & Hx & Hy & F1).
  eapply runs_pop2; [exact E|]. eapply runs_bind with (P := λ _ _, True).
  - pose proof (co_self _ (fo_contract _ F)). by apply (runs_writing db base rules st _ (opSetState (ct_self (fr_contract fr)) (BigToHash x) (BigToHash y))).
  - intros _ e1 _ G1 _. by apply ok_runs.
Qed.

Lemma setContractCreator_eq a c e : ∃ v, setContractCreator db a c e =
  Done tt (e <| ev_StateDB := SetState db CreatorAddress (CreatorSlotKey a) v
                               (GetState db CreatorAddress (CreatorSlotKey c) (ev_StateDB e)).2 |>).
Proof.
  unfold setContractCreator, getCreatorOrSelf, GetContractCreator, reading, mbind, X_bind.
  destruct (GetState db CreatorAddress (CreatorSlotKey c) (ev_StateDB e)) as [h d]. by eexists.
Qed.

Lemma opSuicide_ok : st = false → exec_ok (opSuicide db) 1 anywhere.
Proof.
  intros Hst interp fr e F G Hn _. destruct (operands1 fr F Hn) as (x & l & E & Hx & F1). unfold opSuicide.
  set (self := ct_self (fr_contract fr)). assert (address_ok self) as Os by apply (co_self _ (fo_contract _ F)).
  eapply runs_bind with (P := λ b e', b = bal (ev_StateDB e') self).
  { apply runs_GetBalance; [done..|]. intros e' _ B _. by rewrite B. }
  intros b e1 _ G1 ->. eapply runs_pop1; [exact E|]. set (d := AddBalance (BigToAddress x) (bal (ev_StateDB e1) self) (ev_StateDB e1)).
  destruct (setContractCreator_eq self 0 (e1 <| ev_StateDB := d |>)) as [v Ev].
  set (d1 := SetState db CreatorAddress _ v _) in Ev. set (d2 := (Suicide self d1).2).
  assert (effect db st (ev_StateDB e1) d2) as He.
  { eapply (eff_suicide db st self (BigToAddress x)
      [opGetState CreatorAddress (CreatorSlotKey 0); opSetState CreatorAddress (CreatorSlotKey self) v]); [done|done|apply BigToAddress_ok|by repeat constructor|repeat constructor; apply CreatorAddress_ok|done|constructor]. }
  assert (good (e1 <| ev_StateDB := d2 |>)) as G2 by (by eapply good_effect).
  right. exists (fr <| fr_stack := l |>, [], None), (e1 <| ev_StateDB := d2 |>).
  split_and!; [|by apply reach_effect|done|by split; [|split; [apply code_ok_nil|]]].
  unfold deleteFromCreator, mbind, X_bind. change (ct_self (fr_contract (fr <| fr_stack := l |>))) with self.
  change (writing (AddBalance (BigToAddress x) (bal (ev_StateDB e1) self)) e1) with (Done tt (e1 <| ev_StateDB := d |>)).
  cbv beta iota. rewrite Ev. unfold reading, d2. upd. by destruct (Suicide self d1).
Qed.
End instructions.

(** ** Creating and calling *)

Section nested.
Context `{CR : Crypto} `{SD : StateDatabase} `{PC : Precompiles} (db : Database) (base : StateDB).
Context (cx : VmContext) (rules : Rules) (cfg : VmConfig).
Context (g : Z) (interp : interpreter).
Hypothesis Hinterp : interp_ok db base rules g interp.

Abbreviation runs := (runs db base rules).
Abbreviation good := (good db base).

Lemma gain_ok fr returnGas bound :
  frame_ok fr → 0 ≤ returnGas → gas_of fr + returnGas ≤ bound → bound < 2 ^ 64 →
  frame_ok (gainGas returnGas fr) ∧ gas_of (gainGas returnGas fr) ≤ bound.
Proof.
  intros [H1 H2 [C1 C2 C3 C4] H4] Hr Hb Hu.
  assert (gas_of (gainGas returnGas fr) = gas_of fr + returnGas) as E.
  { unfold gas_of, gainGas in *. upd. apply add64_id. unfold is_u64 in *. lia. }
  rewrite E. split; [|done]. split; try done. split; try done. change (is_u64 (gas_of (gainGas returnGas fr))).
  rewrite E. unfold is_u64, gas_of in *. lia.
Qed.

Lemma frame_contract fr c : frame_ok fr → contract_ok c → frame_ok (fr <| fr_contract := c |>).
Proof. by intros [H1 H2 H3 H4]. Qed.

(** The gas given to a new contract is taken off its creator. *)
Lemma give_ok fr gas : frame_ok fr → 0 ≤ gas ≤ gas_of fr →
  frame_ok (fr <| fr_contract ::= λ c, (UseGas c gas).2 |>) ∧
  gas_of (fr <| fr_contract ::= λ c, (UseGas c gas).2 |>) = gas_of fr - gas.
Proof.
  intros F Hg. unfold gas_of in *. upd. destruct (UseGas_ok (fr_contract fr) gas (fo_contract _ F)) as (H1 & _ & _); [lia|].
  split; [by apply frame_contract|]. unfold UseGas. destruct (Z.ltb_spec (ct_Gas (fr_contract fr)) gas); [lia|]. done.
Qed.

Lemma kept64 x : 0 ≤ x → 0 ≤ x - x `div` 64 ≤ x.
Proof. intros. Z.to_euclidean_division_equations; lia. Qed.

(** After a creation. *)
Lemma created_ok fr word returnGas bound (res : bytes) (suberr : option vmerror) :
  frame_ok fr → nonneg word → 0 ≤ returnGas → gas_of fr + returnGas ≤ bound → bound < 2 ^ 64 → code_ok res →
  res_ok bound (gainGas returnGas (push fr word), if decide (suberr = Some errExecutionReverted) then res else [], None).
Proof.
  intros F Hw Hr Hb Hu Hk. destruct (gain_ok (push fr word) returnGas bound) as [F' Hg]; [by apply frame_push|done..|].
  split; [done|]. split; [|done]. cbn. destruct (decide _); [done|apply code_ok_nil].
Qed.

Lemma opCreate_ok fr e :
  frame_ok fr → good e → (3 ≤ length (fr_stack fr))%nat → covers memoryCreate fr → gas_of fr ≤ g →
  static rules (ev_readOnly e) = false →
  runs false (opCreate db cx rules cfg interp fr) e (λ r _, res_ok (gas_of fr) r).
Proof.
  intros F G Hn Hc Hg Hst. pose proof (co_self _ (fo_contract _ F)) as Os. destruct (operands3 fr F Hn) as (x & y & z & l & E & Hx & Hy & Hz & F1).
  eapply runs_pop3; [exact E|]. apply Memory_Get_runs; [apply F| |].
  { apply calc_fits; [done..|]. apply Hc. unfold memoryCreate. by rewrite E. }
  intros input Hi. cbv zeta. set (fr1 := fr <| fr_stack := l |>) in *. change (ct_Gas (fr_contract fr1)) with (gas_of fr).
  destruct (co_gas _ (fo_contract _ F)) as [Hg0 Hg1]. fold (gas_of fr) in Hg0, Hg1.
  set (gas := if IsEIP150 rules then _ else _). assert (0 ≤ gas ≤ gas_of fr) as Hgas.
  { unfold gas. destruct (IsEIP150 rules); [by apply kept64|lia]. }
  destruct (give_ok fr1 gas F1 Hgas) as [F2 Eg]. clearbody gas.
  eapply runs_bind; [apply (Create_ok db base cx rules cfg g interp Hinterp); try done; [exact (co_self _ (fo_contract _ F2))|unfold is_u64; lia|lia]|].
  intros [[[res addr] returnGas] suberr] e1 _ G1 (Hk & Hret & _). cbn [fst snd] in *. apply runs_ret; [done|].
  apply created_ok; try done; [|lia|]; [|rewrite Eg; change (gas_of fr1) with (gas_of fr); lia].
  pose proof (Address_Big_nonneg addr). destruct suberr; [by apply if_nonneg|done].
Qed.

Lemma opCreate2_ok fr e :
  frame_ok fr → good e → (4 ≤ length (fr_stack fr))%nat → covers memoryCreate fr → gas_of fr ≤ g →
  static rules (ev_readOnly e) = false →
  runs false (opCreate2 db cx rules cfg interp fr) e (λ r _, res_ok (gas_of fr) r).
Proof.
  intros F G Hn Hc Hg Hst. pose proof (co_self _ (fo_contract _ F)) as Os. destruct (operands3 fr F) as (x & y & z & l & E & Hx & Hy & Hz & F1); [lia|].
  destruct (operands1 _ F1) as (salt & k & E1 & Hsalt & F2); [rewrite E in Hn; upd; cbn in Hn; lia|].
  eapply runs_pop3; [exact E|]. eapply runs_pop1; [exact E1|]. apply Memory_Get_runs; [apply F| |].
  { apply calc_fits; [done..|]. apply Hc. unfold memoryCreate. by rewrite E. }
  intros input Hi. cbv zeta. set (fr1 := (fr <| fr_stack := l |>) <| fr_stack := k |>) in *. change (ct_Gas (fr_contract fr1)) with (gas_of fr).
  destruct (co_gas _ (fo_contract _ F)) as [Hg0 Hg1]. fold (gas_of fr) in Hg0, Hg1.
  pose proof (kept64 (gas_of fr) Hg0) as Hgas. set (gas := gas_of fr - _) in *.
  destruct (give_ok fr1 gas F2 Hgas) as [F3 Eg]. clearbody gas.
  eapply runs_bind; [apply (Create2_ok db base cx rules cfg g interp Hinterp); try done; [exact (co_self _ (fo_contract _ F3))|unfold is_u64; lia|lia]|].
  intros [[[res addr] returnGas] suberr] e1 _ G1 (Hk & Hret & _). cbn [fst snd] in *. apply runs_ret; [done|].
  apply created_ok; try done; [|lia|]; [|rewrite Eg; change (gas_of fr1) with (gas_of fr); lia].
  pose proof (Address_Big_nonneg addr). by destruct suberr.
Qed.

Lemma afterCall_ok st fr e e0 x y gas bound r :
  frame_ok fr → good e → fits (fr_mem fr) x y → call_ok db gas e0 e r → gas_of fr + gas ≤ bound → bound < 2 ^ 64 →
  runs st (afterCall x y fr r) e (λ r _, res_ok bound r).
Proof.
  intros F G Hf ([Hk Hkl] & Hret & _) Hb Hu. unfold afterCall. destruct r as [[ret returnGas] err]. cbn [fst snd] in *.
  set (word := match err with None => 1 | Some _ => 0 end). assert (nonneg word) as Hw by (by destruct err). clearbody word.
  pose proof (frame_push fr word F Hw) as F1.
  eapply runs_bind with (P := λ m _, mem_ok m).
  - destruct (decide _); [|apply runs_ret; [done|apply F]].
    destruct (set_fits (fr_mem fr) x y ret) as (m & E & Hm & _); [apply F|done|done|]. by eapply runs_orPanic.
  - intros m e1 _ G1 Hm. apply runs_ret; [done|].
    destruct (gain_ok ((push fr word) <| fr_mem := m |>) returnGas bound) as [F' Hg'].
    + by apply frame_mem.
    + lia.
    + change (gas_of ((push fr word) <| fr_mem := m |>)) with (gas_of fr). lia.
    + done.
    + split; [done|]. split; [by split|done].
Qed.

(** The ranges of a call are its last four operands. *)
Lemma callArgs_runs {B : Type} st fr e a b c d l (k : bytes * Z * Z * Frame → X B) Q :
  frame_ok fr → good e → fr_stack fr = a :: b :: c :: d :: l → fits (fr_mem fr) a b →
  (∀ args, code_ok args → runs st (k (args, c, d, fr <| fr_stack := l |>)) e Q) →
  runs st (callArgs fr ≫= k) e Q.
Proof.
  intros F G E Hf Hk. eapply runs_bind with (P := λ r e', e' = e ∧ ∃ args, code_ok args ∧ r = (args, c, d, fr <| fr_stack := l |>)).
  - eapply runs_pop2; [exact E|]. eapply runs_pop2; [done|]. apply Memory_Get_runs; [apply F|done|]. intros args Ha.
    apply runs_ret; [done|]. split; [done|]. by exists args.
  - intros r e' _ _ (-> & args & Ha & ->). by apply Hk.
Qed.

(** The gas of the callee, as [gasCall] left it, with the stipend. *)
Definition callee_gas (e : EVM) (value : Z) : Z := ev_callGasTemp e + (if value =? 0 then 0 else CallStipend).

Lemma stipend_ok e value bound : is_u64 (ev_callGasTemp e) → callee_gas e value ≤ bound → bound < 2 ^ 64 →
  let gas := if U256 value =? 0 then ev_callGasTemp e else add64 (ev_callGasTemp e) CallStipend in
  is_u64 gas ∧ gas ≤ callee_gas e value.
Proof.
  intros Ht Hb Hu. unfold callee_gas, CallStipend in *. cbv zeta. unfold is_u64 in *.
  destruct (Z.eqb_spec (U256 value) 0) as [|Hn]; [destruct (value =? 0); lia|].
  destruct (Z.eqb_spec value 0) as [->|]; [by destruct Hn|]. rewrite add64_id by (unfold is_u64; lia). lia.
Qed.
Lemma operands_call fr : frame_ok fr → (7 ≤ length (fr_stack fr))%nat → covers memoryCall fr →
  ∃ asked addr value a b c d l, fr_stack fr = asked :: addr :: value :: a :: b :: c :: d :: l ∧ nonneg value ∧
    fits (fr_mem fr) a b ∧ fits (fr_mem fr) c d ∧
    frame_ok (fr <| fr_stack := a :: b :: c :: d :: l |>) ∧ frame_ok (fr <| fr_stack := l |>).
Proof.
  intros F Hn Hc. destruct (operands3 fr F) as (asked & addr & value & k & E & _ & _ & Hv & F1); [lia|].
  destruct (operands4 _ F1) as (a & b & c & d & l & E1 & Ha & Hb & Hc' & Hd & _ & F2); [rewrite E in Hn; upd; cbn in Hn; lia|].
  upd. subst k. exists asked, addr, value, a, b, c, d, l. specialize (Hc (Z.max (calcMemSize c d) (calcMemSize a b))).
  rewrite E in Hc. specialize (Hc eq_refl). split_and!; try done; apply calc_fits; try done; lia.
Qed.

Lemma operands_delegate fr : frame_ok fr → (6 ≤ length (fr_stack fr))%nat → covers memoryDelegateCall fr →
  ∃ asked addr a b c d l, fr_stack fr = asked :: addr :: a :: b :: c :: d :: l ∧
    fits (fr_mem fr) a b ∧ fits (fr_mem fr) c d ∧
    frame_ok (fr <| fr_stack := a :: b :: c :: d :: l |>) ∧ frame_ok (fr <| fr_stack := l |>).
Proof.
  intros F Hn Hc. destruct (operands2 fr F) as (asked & addr & k & E & _ & _ & F1); [lia|].
  destruct (operands4 _ F1) as (a & b & c & d & l & E1 & Ha & Hb & Hc' & Hd & _ & F2); [rewrite E in Hn; upd; cbn in Hn; lia|].
  upd. subst k. exists asked, addr, a, b, c, d, l. specialize (Hc (Z.max (calcMemSize c d) (calcMemSize a b))).
  rewrite E in Hc. specialize (Hc eq_refl). split_and!; try done; apply calc_fits; try done; lia.
Qed.

(** A call that moves money, with [gas] for the callee. *)
Definition callee_ok (fr : Frame) (e : EVM) (bound : Z) : Prop :=
  ∀ value, fr_stack fr !! 2%nat = Some value →
    callee_gas e value ≤ g ∧ gas_of fr + callee_gas e value ≤ bound ∧ (static rules (ev_readOnly e) = true → value = 0).

Lemma opCall_ok fr e bound :
  frame_ok fr → good e → (7 ≤ length (fr_stack fr))%nat → covers memoryCall fr → is_u64 (ev_callGasTemp e) →
  callee_ok fr e bound → bound < 2 ^ 64 →
  runs (static rules (ev_readOnly e)) (opCall db cx rules cfg interp fr) e (λ r _, res_ok bound r).
Proof.
  intros F G Hn Hc Ht Hcal Hu. pose proof (co_self _ (fo_contract _ F)) as Os. destruct (operands_call fr F Hn Hc) as (asked & addr & value & a & b & c & d & l & E & Hv & Hab & Hcd & F1 & F2).
  destruct (Hcal value) as (Hg & Hb & Hst); [by rewrite E|]. destruct (co_gas _ (fo_contract _ F)) as [Hg0 _]. fold (gas_of fr) in Hg0.
  eapply runs_pop1; [exact E|]. apply runs_gets_bind. eapply runs_pop2; [done|].
  eapply callArgs_runs; [exact F1|done|done|exact Hab|]. intros args Ha. pose proof (BigToAddress_ok addr) as Oa. cbv zeta.
  destruct (stipend_ok e value bound) as [Hgu Hgl]; [done|lia|done|].
  eapply runs_bind; [apply (Call_ok db base cx rules cfg g interp Hinterp); try done; [lia|apply U256_nonneg|]|].
  { intros Hs. by rewrite (Hst Hs). }
  intros r e1 _ G1 Hr. eapply afterCall_ok; [done|done|exact Hcd|exact Hr| |done].
  change (gas_of _) with (gas_of fr). cbv zeta in *. lia.
Qed.

Lemma opCallCode_ok fr e bound :
  frame_ok fr → good e → (7 ≤ length (fr_stack fr))%nat → covers memoryCall fr → is_u64 (ev_callGasTemp e) →
  (∀ value, fr_stack fr !! 2%nat = Some value → callee_gas e value ≤ g ∧ gas_of fr + callee_gas e value ≤ bound) → bound < 2 ^ 64 →
  runs (static rules (ev_readOnly e)) (opCallCode db cx rules cfg interp fr) e (λ r _, res_ok bound r).
Proof.
  intros F G Hn Hc Ht Hcal Hu. pose proof (co_self _ (fo_contract _ F)) as Os. destruct (operands_call fr F Hn Hc) as (asked & addr & value & a & b & c & d & l & E & Hv & Hab & Hcd & F1 & F2).
  destruct (Hcal value) as (Hg & Hb); [by rewrite E|]. destruct (co_gas _ (fo_contract _ F)) as [Hg0 _]. fold (gas_of fr) in Hg0.
  eapply runs_pop1; [exact E|]. apply runs_gets_bind. eapply runs_pop2; [done|].
  eapply callArgs_runs; [exact F1|done|done|exact Hab|]. intros args Ha. pose proof (BigToAddress_ok addr) as Oa. cbv zeta.
  destruct (stipend_ok e value bound) as [Hgu Hgl]; [done|lia|done|].
  eapply runs_bind; [apply (CallCode_ok db base cx rules cfg g interp Hinterp); try done; [lia|apply U256_nonneg]|].
  intros r e1 _ G1 Hr. eapply afterCall_ok; [done|done|exact Hcd|exact Hr| |done].
  change (gas_of _) with (gas_of fr). cbv zeta in *. lia.
Qed.

Lemma opDelegateCall_ok fr e bound :
  frame_ok fr → good e → (6 ≤ length (fr_stack fr))%nat → covers memoryDelegateCall fr → is_u64 (ev_callGasTemp e) →
  ev_callGasTemp e ≤ g → gas_of fr + ev_callGasTemp e ≤ bound → bound < 2 ^ 64 →
  runs (static rules (ev_readOnly e)) (opDelegateCall db cx rules cfg interp fr) e (λ r _, res_ok bound r).
Proof.
  intros F G Hn Hc Ht Hg Hb Hu. pose proof (co_self _ (fo_contract _ F)) as Os. destruct (operands_delegate fr F Hn Hc) as (asked & addr & a & b & c & d & l & E & Hab & Hcd & F1 & F2).
  eapply runs_pop1; [exact E|]. apply runs_gets_bind. eapply runs_pop1; [done|].
  eapply callArgs_runs; [exact F1|done|done|exact Hab|]. intros args Ha. pose proof (BigToAddress_ok addr) as Oa.
  eapply runs_bind; [apply (DelegateCall_ok db base cx rules cfg g interp Hinterp); try done; apply (co_value _ (fo_contract _ F))|].
  intros r e1 _ G1 Hr. by eapply afterCall_ok; [done|done|exact Hcd|exact Hr|..].
Qed.

Lemma opStaticCall_ok fr e bound :
  frame_ok fr → good e → (6 ≤ length (fr_stack fr))%nat → covers memoryDelegateCall fr → is_u64 (ev_callGasTemp e) →
  ev_callGasTemp e ≤ g → gas_of fr + ev_callGasTemp e ≤ bound → bound < 2 ^ 64 →
  runs (static rules (ev_readOnly e)) (opStaticCall db cx rules cfg interp fr) e (λ r _, res_ok bound r).
Proof.
  intros F G Hn Hc Ht Hg Hb Hu. pose proof (co_self _ (fo_contract _ F)) as Os. destruct (operands_delegate fr F Hn Hc) as (asked & addr & a & b & c & d & l & E & Hab & Hcd & F1 & F2).
  eapply runs_pop1; [exact E|]. apply runs_gets_bind. eapply runs_pop1; [done|].
  eapply callArgs_runs; [exact F1|done|done|exact Hab|]. intros args Ha. pose proof (BigToAddress_ok addr) as Oa.
  eapply runs_bind.
  { apply (runs_static db base rules _ true). rewrite orb_true_r. by apply (StaticCall_ok db base cx rules cfg g interp Hinterp). }
  intros r e1 _ G1 Hr. by eapply afterCall_ok; [done|done|exact Hcd|exact Hr|..].
Qed.
End nested.
