(* ===== verification/EvmGasFacts.v ===== *)
(** * EvmGasFacts: the prices are computed

    Every gas function of the instruction table runs when the operands it looks at are
    on the stack, gives at least a lower bound, and refuses memory beyond the limit of
    [memoryGasCost].  The price of a call covers the gas of the callee. *)

From S2P Require Import Prelude Bytes Crypto StateDB StateDBFacts StateDBRevert StateDBView EvmWord EvmCode EvmMemory EvmState EvmGas EvmCall EvmEffect EvmLogic EvmCallFacts EvmInstr EvmInstrFacts.

Local Open Scope Z_scope.

Lemma memoryGasCost_some mem size fee mem' : memoryGasCost mem size = Some (fee, mem') → 0 ≤ size →
  0 ≤ fee ∧ me_store mem' = me_store mem ∧ size ≤ 0xffffffffe0.
Proof.
  unfold memoryGasCost. intros E Hs. destruct (Z.eqb_spec size 0) as [->|]; [by injection E as <- <-|].
  destruct (Z.ltb_spec 0xffffffffe0 size); [done|]. cbv zeta in E. destruct (_ <? _); injection E as <- <-; [|done].
  split; [apply u64_range|done].
Qed.

Lemma safeAdd_some x y z : safeAdd x y = Some z → 0 ≤ x → 0 ≤ y → z = x + y.
Proof.
  unfold safeAdd, SafeAdd. destruct (Z.ltb_spec (2 ^ 64 - 1 - x) y); [done|]. intros [= <-] ? ?. apply add64_id. unfold is_u64. lia.
Qed.

Lemma safeMul_some x y z : safeMul x y = Some z → 0 ≤ x → 0 ≤ y → z = x * y.
Proof.
  unfold safeMul, SafeMul. intros E Hx Hy. destruct (Z.eqb_spec x 0) as [->|]; [by injection E as <-|].
  destruct (Z.eqb_spec y 0) as [->|]; cbn [orb] in E; [injection E as <-; lia|].
  destruct (Z.ltb_spec ((2 ^ 64 - 1) `div` x) y); [done|]. injection E as <-. apply mul64_id. unfold is_u64.
  split; [lia|]. pose proof (Z.mul_div_le (2 ^ 64 - 1) x). nia.
Qed.

Lemma toWordSize_nonneg x : 0 ≤ x → 0 ≤ toWordSize x.
Proof.
  intros. unfold toWordSize. destruct (_ <? _); [by vm_compute|]. apply Z.div_pos; [apply u64_range|lia].
Qed.

(** The size in words covers the size in bytes. *)
Lemma words_cover m size : 0 ≤ m < 2 ^ 64 → safeMul (toWordSize m) 32 = Some size → m ≤ size.
Proof.
  intros Hm E. apply safeMul_some in E as ->; [|apply toWordSize_nonneg; lia|done].
  unfold toWordSize. destruct (Z.ltb_spec (2 ^ 64 - 1 - 31) m).
  - change ((2 ^ 64 - 1) `div` 32 + 1) with (2 ^ 59). lia.
  - rewrite add64_id by (unfold is_u64; lia). Z.to_euclidean_division_equations; lia.
Qed.

Section gas.
Context `{CR : Crypto} `{SD : StateDatabase} `{PC : Precompiles} (db : Database) (base : StateDB).
Context (cx : VmContext) (rules : Rules) (cfg : VmConfig) (st : bool).

Abbreviation runs := (runs db base rules st).
Abbreviation good := (good db base).

(** A gas function that looks at [n] operands; [flat] ones are for instructions that do
    not touch the memory. *)
Definition gas_ok (f : gasFunc) (n : nat) (flat : bool) (P : Frame → Z → EVM → Prop) : Prop :=
  ∀ fr e size, frame_ok fr → good e → (n ≤ length (fr_stack fr))%nat → 0 ≤ size → (flat = true → size = 0) →
    runs (f (fr_contract fr) (fr_stack fr) (fr_mem fr) size) e (λ r e',
      match r with
      | None => True
      | Some (cost, mem) => 0 ≤ cost ∧ me_store mem = me_store (fr_mem fr) ∧ size ≤ 0xffffffffe0 ∧ P fr cost e'
      end).

Definition at_least (lo : Z) (fr : Frame) (cost : Z) (e : EVM) : Prop := lo ≤ cost.

Lemma gas_ok_weaken f n m flat (P Q : Frame → Z → EVM → Prop) :
  gas_ok f n flat P → (n ≤ m)%nat → (∀ fr c e, P fr c e → Q fr c e) → gas_ok f m flat Q.
Proof.
  intros H Hn HPQ fr e size F G Hm Hs Hf. eapply runs_conseq; [apply H; try done; lia|].
  intros [[cost mem]|] e' _ _; [|done]. intros (? & ? & ? & ?). split_and!; auto.
Qed.

Lemma constGas_ok n gas : 0 ≤ gas → gas_ok (constGasFunc gas) n true (at_least gas).
Proof. intros Hg fr e size F G _ _ Hf. rewrite Hf by done. apply runs_ret; [done|]. unfold at_least. split_and!; try done; lia. Qed.

Lemma wordGas_ok lo price i n : 0 ≤ lo → 0 ≤ price → (i < n)%nat →
  gas_ok (wordGasFunc lo price i) n false (at_least lo).
Proof.
  intros Hlo Hp Hi fr e size F G Hn Hs _. unfold wordGasFunc, Back.
  destruct (lookup_lt_is_Some_2 (fr_stack fr) i) as [x E]; [lia|]. pose proof (Forall_lookup_1 _ _ _ _ (fo_stack _ F) E) as Hx.
  eapply runs_orPanic_bind; [exact E|]. apply runs_ret; [done|].
  destruct (memoryGasCost (fr_mem fr) size) as [[fee mem]|] eqn:Em; [|done]. cbn [mbind option_bind].
  destruct (memoryGasCost_some _ _ _ _ Em Hs) as (H1 & H2 & H3).
  destruct (safeAdd fee lo) as [gas|] eqn:Ea; [|done]. cbn [mbind option_bind]. apply safeAdd_some in Ea as ->; [|done..].
  unfold bigUint64. destruct (_ <? _); [done|]. cbn [mbind option_bind].
  assert (0 ≤ toWordSize (Big_Uint64 x)) as Hw by (apply toWordSize_nonneg, u64_range).
  destruct (safeMul _ price) as [wg|] eqn:Ew; [|done]. cbn [mbind option_bind]. apply safeMul_some in Ew as ->; [|done..].
  destruct (safeAdd _ _) as [gas|] eqn:Ea2; [|done]. cbn [mbind option_bind]. apply safeAdd_some in Ea2 as ->; [|nia..].
  unfold at_least. split_and!; try done; nia.
Qed.

Lemma memoryGas_ok lo n : 0 ≤ lo → gas_ok (memoryGasFunc lo) n false (at_least lo).
Proof.
  intros Hlo fr e size F G Hn Hs _. apply runs_ret; [done|].
  destruct (memoryGasCost (fr_mem fr) size) as [[fee mem]|] eqn:Em; [|done]. cbn [mbind option_bind].
  destruct (memoryGasCost_some _ _ _ _ Em Hs) as (H1 & H2 & H3).
  destruct (safeAdd fee lo) as [gas|] eqn:Ea; [|done]. cbn [mbind option_bind]. apply safeAdd_some in Ea as ->; [|done..].
  unfold at_least. split_and!; try done; lia.
Qed.

Lemma gasReturn_ok n : gas_ok gasReturn n false (at_least 0).
Proof.
  intros fr e size F G Hn Hs _. apply runs_ret; [done|].
  destruct (memoryGasCost (fr_mem fr) size) as [[fee mem]|] eqn:Em; [|done].
  destruct (memoryGasCost_some _ _ _ _ Em Hs) as (H1 & H2 & H3). done.
Qed.

Lemma gasLog_ok k n : (2 ≤ n)%nat → gas_ok (makeGasLog k) n false (at_least LogGas).
Proof.
  intros H2 fr e size F G Hn Hs _. unfold makeGasLog, Back.
  destruct (lookup_lt_is_Some_2 (fr_stack fr) 1) as [x E]; [lia|]. pose proof (Forall_lookup_1 _ _ _ _ (fo_stack _ F) E) as Hx.
  eapply runs_orPanic_bind; [exact E|]. apply runs_ret; [done|].
  unfold bigUint64. destruct (_ <? _); [done|]. cbn [mbind option_bind].
  destruct (memoryGasCost (fr_mem fr) size) as [[fee mem]|] eqn:Em; [|done]. cbn [mbind option_bind].
  destruct (memoryGasCost_some _ _ _ _ Em Hs) as (H1 & H3 & H4).
  destruct (safeAdd fee LogGas) as [gas|] eqn:Ea; [|done]. cbn [mbind option_bind]. apply safeAdd_some in Ea as ->; [|done..].
  assert (0 ≤ mul64 k LogTopicGas) as Ht by apply u64_range.
  assert (0 ≤ LogGas) as HL by done.
  destruct (safeAdd _ _) as [gas|] eqn:Ea; [|done]. cbn [mbind option_bind]. apply safeAdd_some in Ea as ->; [|lia..].
  assert (0 ≤ Big_Uint64 x) as Hux by apply u64_range.
  destruct (safeMul _ LogDataGas) as [wg|] eqn:Ew; [|done]. cbn [mbind option_bind]. apply safeMul_some in Ew as ->; [|done..].
  assert (0 ≤ Big_Uint64 x * LogDataGas) as Hm by (unfold LogDataGas; lia).
  destruct (safeAdd _ _) as [gas|] eqn:Ea2; [|done]. cbn [mbind option_bind]. apply safeAdd_some in Ea2 as ->; [|lia..].
  unfold at_least. split_and!; try done; lia.
Qed.

Lemma gasExp_ok n : (2 ≤ n)%nat → gas_ok (gasExp rules) n true (at_least GasSlowStep).
Proof.
  intros H2 fr e size F G Hn Hs Hf. rewrite Hf by done. unfold gasExp, Back.
  destruct (lookup_lt_is_Some_2 (fr_stack fr) 1) as [x E]; [lia|].
  eapply runs_orPanic_bind; [exact E|]. apply runs_ret; [done|]. cbv zeta.
  set (b := mul64 _ _). assert (0 ≤ b) as Hb by apply u64_range. clearbody b. assert (0 ≤ GasSlowStep) as Hg by done.
  destruct (safeAdd b GasSlowStep) as [gas|] eqn:Ea; [|done]. cbn [mbind option_bind]. apply safeAdd_some in Ea as ->; [|done..].
  unfold at_least. split_and!; try done; lia.
Qed.

Lemma refunding_ok gas e : st = false → good e → runs (writing (AddRefund gas)) e (λ _ _, True).
Proof. intros Hst G. by apply (runs_writing db base rules st _ (opAddRefund gas)). Qed.

Lemma netSStore_ok addr key current value e :
  st = false → net_metered rules = true → address_ok addr → good e →
  runs (netSStore db addr key current value) e (λ gas _, NetSstoreNoopGas ≤ gas).
Proof.
  intros Hst Hn Oa G. unfold netSStore. destruct (current =? value); [by apply runs_ret|].
  eapply runs_bind with (P := λ _ _, True); [by apply (runs_reads db base rules st _ (opGetCommittedState addr key))|].
  intros original e1 _ G1 _. destruct (original =? current).
  - destruct (original =? 0); [by apply runs_ret|]. eapply runs_bind with (P := λ _ _, True).
    + destruct (value =? 0); [by apply refunding_ok|by apply runs_ret].
    + intros _ e2 _ G2 _. by apply runs_ret.
  - eapply runs_bind with (P := λ _ _, True).
    + destruct (negb (original =? 0)); [|by apply runs_ret]. destruct (current =? 0); [rewrite Hst; by apply runs_subtracting|].
      destruct (value =? 0); [by apply refunding_ok|by apply runs_ret].
    + intros _ e2 _ G2 _. eapply runs_bind with (P := λ _ _, True); [|intros _ e3 _ G3 _; by apply runs_ret].
      destruct (original =? value); [|by apply runs_ret]. by destruct (original =? 0); apply refunding_ok.
Qed.

(** The price of a store, by the rules with and without the net metering. *)
Lemma gasSStore_ok n : st = false → (2 ≤ n)%nat → gas_ok (gasSStore db rules) n true (at_least NetSstoreNoopGas).
Proof.
  intros Hst H2 fr e size F G Hn Hs Hf. rewrite Hf by done. unfold gasSStore, Back.
  destruct (lookup_lt_is_Some_2 (fr_stack fr) 1) as [y Ey]; [lia|]. destruct (lookup_lt_is_Some_2 (fr_stack fr) 0) as [x Ex]; [lia|].
  eapply runs_orPanic_bind; [exact Ey|]. eapply runs_orPanic_bind; [exact Ex|]. pose proof (co_self _ (fo_contract _ F)) as Os.
  eapply runs_bind with (P := λ _ _, True).
  { by apply (runs_reads db base rules st _ (opGetState (ct_self (fr_contract fr)) (BigToHash x))). }
  intros current e1 _ G1 _. destruct (IsPetersburg rules || negb (IsConstantinople rules)) eqn:Hr.
  - destruct (_ && _); [by apply runs_ret|]. destruct (_ && _); [|by apply runs_ret].
    eapply runs_bind with (P := λ _ _, True); [by apply refunding_ok|]. intros _ e2 _ G2 _. by apply runs_ret.
  - eapply runs_bind; [apply netSStore_ok; [done|unfold net_metered; by rewrite Hr|done..]|].
    intros gas e2 _ G2 Hg. cbv beta in Hg. unfold NetSstoreNoopGas in *. apply runs_ret; [done|]. split_and!; [lia|done|done|exact Hg].
Qed.

Lemma gasSuicide_ok n : st = false → (1 ≤ n)%nat → gas_ok (gasSuicide rules) n true (at_least 0).
Proof.
  intros Hst H2 fr e size F G Hn Hs Hf. rewrite Hf by done. unfold gasSuicide, Back.
  destruct (lookup_lt_is_Some_2 (fr_stack fr) 0) as [x Ex]; [lia|].
  eapply runs_orPanic_bind; [exact Ex|]. cbv zeta. set (a := BigToAddress x). set (self := ct_self (fr_contract fr)).
  assert (address_ok a) as Oa by apply BigToAddress_ok. assert (address_ok self) as Os by apply (co_self _ (fo_contract _ F)).
  eapply runs_bind with (P := λ gas _, 0 ≤ gas).
  - destruct (IsEIP150 rules); [|by apply runs_ret].
    eapply runs_bind with (P := λ _ _, True).
    + destruct (IsEIP158 rules).
      * eapply runs_bind with (P := λ _ _, True); [by apply (runs_reads db base rules st _ (opEmpty a))|].
        intros [] e1 _ G1 _; [|by apply runs_ret].
        eapply runs_bind with (P := λ _ _, True); [by apply (runs_reads db base rules st _ (opGetBalance self))|].
        intros b e2 _ G2 _. by apply runs_ret.
      * eapply runs_bind with (P := λ _ _, True); [by apply (runs_reads db base rules st _ (opExist a))|].
        intros b e2 _ G2 _. by apply runs_ret.
    + intros new e1 _ G1 _. apply runs_ret; [done|]. unfold GasTableOf.
      destruct (IsConstantinople rules), (IsEIP158 rules), (IsEIP150 rules), new; cbn; lia.
  - intros gas e1 _ G1 Hg. eapply runs_bind with (P := λ _ _, True); [by apply (runs_reads db base rules st _ (opHasSuicided self))|].
    intros s e2 _ G2 _. eapply runs_bind with (P := λ _ _, True).
    + destruct s; [by apply runs_ret|]. by apply (runs_writing db base rules st _ (opAddRefund SuicideRefundGas)).
    + intros _ e3 _ G3 _. apply runs_ret; [done|]. unfold at_least. by split_and!.
Qed.

(** ** Calls *)

Lemma callGas_u64 gt avail b cost cg : callGas gt avail b cost = Some cg → is_u64 cg.
Proof.
  unfold callGas. cbv zeta. destruct (0 <? gt_CreateBySuicide gt).
  - destruct (_ || _); [intros [= <-]; apply u64_range|]. destruct (_ <? _); [done|]. intros [= <-]. apply u64_range.
  - destruct (_ <? _); [done|]. intros [= <-]. apply u64_range.
Qed.

(** The callee's gas and at least [lo] more are paid. *)
Definition pays (lo : Frame → Z) (fr : Frame) (cost : Z) (e : EVM) : Prop :=
  is_u64 (ev_callGasTemp e) ∧ lo fr + ev_callGasTemp e ≤ cost.

Lemma withCallGas_ok gas fr e size lo :
  frame_ok fr → good e → (1 ≤ length (fr_stack fr))%nat → 0 ≤ size → 0 ≤ gas → lo fr ≤ gas →
  runs (withCallGas rules gas (fr_contract fr) (fr_stack fr) (fr_mem fr) size) e (λ r e',
      match r with
      | None => True
      | Some (cost, mem) => 0 ≤ cost ∧ me_store mem = me_store (fr_mem fr) ∧ size ≤ 0xffffffffe0 ∧ pays lo fr cost e'
      end).
Proof.
  intros F G Hn Hs Hg Hlo. unfold withCallGas, Back. destruct (lookup_lt_is_Some_2 (fr_stack fr) 0) as [x Ex]; [lia|].
  eapply runs_orPanic_bind; [exact Ex|].
  destruct (memoryGasCost (fr_mem fr) size) as [[fee mem]|] eqn:Em; [|by apply runs_ret]. cbn [mbind option_bind].
  destruct (memoryGasCost_some _ _ _ _ Em Hs) as (H1 & H2 & H3).
  destruct (safeAdd gas fee) as [total|] eqn:Ea; [|by apply runs_ret]. cbn [mbind option_bind]. apply safeAdd_some in Ea as ->; [|done..].
  set (cg := callGas _ _ _ _). eapply runs_bind with (P := λ _ e', ev_callGasTemp e' = default 0 cg).
  { apply runs_modify; try done. apply G. }
  intros _ e1 _ G1 Et. apply runs_ret; [done|]. destruct cg as [c|] eqn:Ec; [|done]. cbn [mbind option_bind].
  apply callGas_u64 in Ec as Hc. destruct Hc as [Hc0 Hc1]. destruct (safeAdd _ c) as [cost|] eqn:Ea; [|done]. cbn [mbind option_bind].
  apply safeAdd_some in Ea as ->; [|lia..]. unfold pays. rewrite Et. cbn. unfold is_u64. split_and!; try done; lia.
Qed.

(** What a call costs apart from the callee's gas. *)
Definition transfer_price (fr : Frame) : Z :=
  1 + match fr_stack fr !! 2%nat with Some v => if v =? 0 then 0 else CallValueTransferGas | None => 0 end.

Lemma calls_price : 1 ≤ gt_Calls (GasTableOf rules).
Proof. unfold GasTableOf. repeat destruct (_ rules); cbn; lia. Qed.

Lemma gasCall_ok n : (7 ≤ n)%nat → gas_ok (gasCall rules) n false (pays transfer_price).
Proof.
  intros H7 fr e size F G Hn Hs _. unfold gasCall, Back.
  destruct (lookup_lt_is_Some_2 (fr_stack fr) 2) as [v Ev]; [lia|]. destruct (lookup_lt_is_Some_2 (fr_stack fr) 1) as [x Ex]; [lia|].
  eapply runs_orPanic_bind; [exact Ev|]. eapply runs_orPanic_bind; [exact Ex|]. cbv zeta.
  pose proof (BigToAddress_ok x) as Oa. eapply runs_bind with (P := λ _ _, True).
  - destruct (IsEIP158 rules).
    + destruct (negb (v =? 0)); [|by apply runs_ret]. by apply (runs_reads db base rules st _ (opEmpty (BigToAddress x))).
    + eapply runs_bind with (P := λ _ _, True); [by apply (runs_reads db base rules st _ (opExist (BigToAddress x)))|].
      intros b e1 _ G1 _. by apply runs_ret.
  - intros new e1 _ G1 _. pose proof calls_price. unfold CallNewAccountGas, CallValueTransferGas.
    apply withCallGas_ok; try done; [lia|destruct new, (v =? 0); cbn; lia|].
    unfold transfer_price, CallValueTransferGas. rewrite Ev. destruct new, (v =? 0); cbn; lia.
Qed.

Lemma gasCallCode_ok n : (7 ≤ n)%nat → gas_ok (gasCallCode rules) n false (pays transfer_price).
Proof.
  intros H7 fr e size F G Hn Hs _. unfold gasCallCode, Back.
  destruct (lookup_lt_is_Some_2 (fr_stack fr) 2) as [v Ev]; [lia|]. eapply runs_orPanic_bind; [exact Ev|].
  pose proof calls_price. apply withCallGas_ok; try done; [lia|unfold CallValueTransferGas; destruct (v =? 0); lia|].
  unfold transfer_price. rewrite Ev. unfold CallValueTransferGas. destruct (v =? 0); lia.
Qed.

Lemma gasDelegateCall_ok n : (1 ≤ n)%nat → gas_ok (gasDelegateCall rules) n false (pays (λ _, 1)).
Proof.
  intros H1 fr e size F G Hn Hs _. unfold gasDelegateCall. pose proof calls_price. apply withCallGas_ok; try done; lia.
Qed.
End gas.
