(* ===== verification/EvmRun.v ===== *)
(** * EvmRun: every run of the virtual machine ends

    The instruction table is sound: each of its operations, charged and executed, runs
    to an end.  Each turn of the interpreter's loop that does not end it costs gas, and a
    called contract gets less gas than its caller has, so more fuel than gas is enough
    for the loop and for all the calls within it. *)

From S2P Require Import Prelude Bytes Crypto StateDB StateDBFacts StateDBRevert StateDBView EvmWord EvmCode EvmMemory EvmState EvmGas EvmCall EvmEffect EvmLogic EvmCallFacts EvmInstr EvmInstrFacts EvmGasFacts Evm.

Local Open Scope Z_scope.

Section run.
Context `{CR : Crypto} `{SD : StateDatabase} `{PC : Precompiles} (db : Database) (base : StateDB).
Context (cx : VmContext) (rules : Rules) (cfg : VmConfig).

Abbreviation runs := (runs db base rules).
Abbreviation good := (good db base).

(** ** Charging *)

(** The memory function of an operation is defined on [n] operands. *)
Definition sizes (o : operation) (n : nat) : Prop :=
  ∀ f s, memorySize o = Some f → (n ≤ length s)%nat → Forall nonneg s → ∃ z, f s = Some z ∧ 0 ≤ z.

(** The frame after [cost] was paid. *)
Record charged (o : operation) (fr fr' : Frame) (cost : Z) : Prop := {
  cg_frame : frame_ok fr';
  cg_stack : fr_stack fr' = fr_stack fr;
  cg_pc : fr_pc fr' = fr_pc fr;
  cg_code : ct_Code (fr_contract fr') = ct_Code (fr_contract fr);
  cg_gas : gas_of fr' = gas_of fr - cost;
  cg_cost : 0 ≤ cost;
  cg_covers : ∀ f, memorySize o = Some f → covers f fr'
}.

Lemma newMemorySize_runs st o n fr e (Q : option Z → EVM → Prop) :
  frame_ok fr → good e → (n ≤ length (fr_stack fr))%nat → sizes o n →
  (∀ size, 0 ≤ size → (memorySize o = None → size = 0) →
     (∀ f z, memorySize o = Some f → f (fr_stack fr) = Some z → z ≤ size) → Q (Some size) e) →
  Q None e →
  runs st (newMemorySize o (fr_stack fr)) e Q.
Proof.
  intros F G Hn Hsz HS HN. unfold newMemorySize. destruct (memorySize o) as [f|] eqn:Em; [|by apply runs_ret; [|apply HS]].
  destruct (Hsz f (fr_stack fr) Em Hn (fo_stack _ F)) as (z & Ez & Hz). eapply runs_orPanic_bind; [exact Ez|].
  apply runs_ret; [done|]. unfold bigUint64. destruct (Z.ltb_spec 64 (BitLen z)) as [|Hb]; [done|]. cbn [mbind option_bind].
  apply BitLen_lt in Hb; [|lia..]. assert (Big_Uint64 z = z) as -> by (apply u64_id; unfold is_u64; lia).
  destruct (safeMul _ 32) as [size|] eqn:E; [|done]. apply HS.
  - apply safeMul_some in E as ->; [|by apply toWordSize_nonneg|done]. pose proof (toWordSize_nonneg z Hz). lia.
  - done.
  - intros f' z' [= <-]. rewrite Ez. intros [= <-]. by apply words_cover.
Qed.

Lemma charge_runs st o n flat P fr e (Q : vmerror + Frame → EVM → Prop) :
  frame_ok fr → good e → (n ≤ length (fr_stack fr))%nat → sizes o n →
  gas_ok db base rules st (gasCost o) n flat P → (flat = true → memorySize o = None) →
  (∀ err e', good e' → Q (inl err) e') →
  (∀ fr' cost e', good e' → charged o fr fr' cost → P fr cost e' → Q (inr fr') e') →
  runs st (charge o fr) e Q.
Proof.
  intros F G Hn Hsz Hgas Hflat HL HR. unfold charge.
  eapply runs_bind with (P := λ r e', match r with None => True | Some size => 0 ≤ size ∧ (memorySize o = None → size = 0) ∧
     (∀ f z, memorySize o = Some f → f (fr_stack fr) = Some z → z ≤ size) end).
  { apply (newMemorySize_runs st o n); auto. }
  intros [size|] e1 _ G1; [|intros _; apply runs_ret; auto]. intros (Hs & Hs0 & Hcov).
  eapply runs_bind; [by apply Hgas; auto|]. intros [[cost mem]|] e2 _ G2; [|intros _; apply runs_ret; auto].
  intros (Hc & Hstore & Hlim & HP).
  destruct (UseGas_ok (fr_contract fr) cost (fo_contract _ F) Hc) as (Hok & Hle & Hpaid).
  assert (ct_Code (UseGas (fr_contract fr) cost).2 = ct_Code (fr_contract fr)) as Ecode by (unfold UseGas; by destruct (_ <? _)).
  destruct (UseGas (fr_contract fr) cost) as [ok c']. cbn [fst snd] in *. apply runs_ret; [done|].
  destruct ok; [|by apply HL]. destruct (Hpaid eq_refl) as [Eg _]. eapply HR; [done| |exact HP].
  assert (mem_ok mem) as Hm by (destruct (fo_mem _ F); unfold mem_ok, Memory_Len in *; by rewrite Hstore).
  destruct (Resize_ok mem size Hm) as [Hm' El]; [lia|].
  assert (mem_ok (if 0 <? size then Resize mem size else mem) ∧ size ≤ Memory_Len (if 0 <? size then Resize mem size else mem)) as [Hm1 Hl1].
  { destruct (Z.ltb_spec 0 size); [split; [done|lia]|]. split; [done|]. unfold Memory_Len. lia. }
  split; upd; try done.
  - destruct F. by split.
  - intros f Ef z Ez. upd. specialize (Hcov f z Ef Ez). lia.
Qed.

(** ** Sound operations *)

(** What the turn of the loop for an operation may come to. *)
Definition turn (o : operation) (interp : interpreter) (fr : Frame) : X (vmerror + result) :=
  r ← charge o fr;
  match r with
  | inl err => mret (inl err)
  | inr fr => x ← execute o interp fr; mret (inr x)
  end.

Definition turned (o : operation) (fr : Frame) (r : vmerror + result) : Prop :=
  match r with
  | inl _ => True
  | inr x => res_ok (gas_of fr) x ∧ (halts o || reverts o = false → gas_of x.1.1 < gas_of fr)
  end.

(** The restrictions of a read-only run. *)
Definition restricted (ro : bool) (k : Z) (o : operation) (s : Stack) : Prop :=
  static rules ro = true → writes o = false ∧ (k = CALL → ∀ v, s !! 2%nat = Some v → v = 0).

Definition op_ok (k : Z) (o : operation) : Prop :=
  ∀ interp fr e, interp_ok db base rules (gas_of fr - 1) interp → frame_ok fr → good e →
    GetOp (ct_Code (fr_contract fr)) (fr_pc fr) = k → validateStack o (fr_stack fr) = None →
    restricted (ev_readOnly e) k o (fr_stack fr) →
    runs (static rules (ev_readOnly e)) (turn o interp fr) e (λ r _, turned o fr r).

Lemma validate_length pop push s : makeStackFunc pop push s = None → (pop ≤ length s)%nat.
Proof. unfold makeStackFunc. destruct (Z.ltb_spec (Z.of_nat (length s)) (Z.of_nat pop)); [done|]. intros _. lia. Qed.

Lemma op_plain k o n push flat lo pre :
  validateStack o = makeStackFunc n push →
  sizes o n → (flat = true → memorySize o = None) →
  (∀ st, (writes o = true → st = false) → gas_ok db base rules st (gasCost o) n flat (at_least lo)) →
  (∀ st, (writes o = true → st = false) → exec_ok db base rules st (execute o) n pre) →
  (∀ fr, frame_ok fr → (∀ f, memorySize o = Some f → covers f fr) → GetOp (ct_Code (fr_contract fr)) (fr_pc fr) = k → pre fr) →
  (1 ≤ lo ∨ halts o || reverts o = true) → op_ok k o.
Proof.
  intros Hv Hsz Hflat Hgas Hex Hpre Hlo interp fr e HI F G Hk Hst Hre.
  assert (n ≤ length (fr_stack fr))%nat as Hn by (rewrite Hv in Hst; by eapply validate_length).
  assert (writes o = true → static rules (ev_readOnly e) = false) as Hw.
  { intros Ew. destruct (static rules (ev_readOnly e)) eqn:Es; [|done]. destruct (Hre Es) as [? _]. congruence. }
  unfold turn. eapply runs_bind with (P := λ r e', match r with inl _ => True | inr fr' => ∃ cost, charged o fr fr' cost ∧ lo ≤ cost end).
  { apply (charge_runs _ o n flat (at_least lo)); auto. intros fr' cost e' _ Hch Hl. by exists cost. }
  intros [err|fr'] e1 _ G1; [intros _; by apply runs_ret|]. intros (cost & [F' Es Ep Ec Eg Hc Hcov] & Hl).
  eapply runs_bind; [apply Hex; try done; [by rewrite Es|]|].
  { apply Hpre; [done..|]. by rewrite Ec, Ep. }
  intros x e2 _ G2 (R1 & R2 & R3). apply runs_ret; [done|]. split.
  - split; [done|]. split; [done|lia].
  - intros Hh. destruct Hlo as [|Hlo]; [lia|congruence].
Qed.

(** *** The sizes of memory *)

Lemma calc_nonneg o l : nonneg o → nonneg l → 0 ≤ calcMemSize o l.
Proof. unfold nonneg, calcMemSize. destruct (l =? 0); lia. Qed.

Lemma Back_some s i : (i < length s)%nat → Forall nonneg s → ∃ x, Back s i = Some x ∧ nonneg x.
Proof. intros Hi Hs. destruct (lookup_lt_is_Some_2 s i Hi) as [x E]. exists x. split; [done|]. by eapply Forall_lookup_1. Qed.

Lemma size_range i j s : (i < length s)%nat → (j < length s)%nat → Forall nonneg s →
  ∃ z, (o ← Back s i; l ← Back s j; Some (calcMemSize o l)) = Some z ∧ 0 ≤ z.
Proof.
  intros Hi Hj Hs. destruct (Back_some s i Hi Hs) as (o & -> & Ho), (Back_some s j Hj Hs) as (l & -> & Hl).
  eexists. split; [done|]. by apply calc_nonneg.
Qed.

Lemma size_fixed i k s : (i < length s)%nat → 0 ≤ k → Forall nonneg s →
  ∃ z, (o ← Back s i; Some (calcMemSize o k)) = Some z ∧ 0 ≤ z.
Proof.
  intros Hi Hk Hs. destruct (Back_some s i Hi Hs) as (o & -> & Ho). eexists. split; [done|]. by apply calc_nonneg.
Qed.

Lemma size_ranges i j i' j' s :
  (i < length s)%nat → (j < length s)%nat → (i' < length s)%nat → (j' < length s)%nat → Forall nonneg s →
  ∃ z, (o ← Back s i; l ← Back s j; o' ← Back s i'; l' ← Back s j'; Some (Z.max (calcMemSize o l) (calcMemSize o' l'))) = Some z ∧ 0 ≤ z.
Proof.
  intros Hi Hj Hi' Hj' Hs. destruct (Back_some s i Hi Hs) as (o & -> & Ho), (Back_some s j Hj Hs) as (l & -> & Hl).
  destruct (Back_some s i' Hi' Hs) as (o' & -> & Ho'), (Back_some s j' Hj' Hs) as (l' & -> & Hl').
  eexists. split; [done|]. pose proof (calc_nonneg o l Ho Hl). lia.
Qed.

Ltac solve_sizes :=
  let f := fresh "f" in let s := fresh "s" in let Hf := fresh in let Hn := fresh in let Hs := fresh in
  intros f s Hf Hn Hs; injection Hf as <-;
  first [apply size_range; (lia || done) | apply size_fixed; (lia || done) | apply size_ranges; (lia || done)].

(** *** The prices *)

Lemma table_prices : let gt := GasTableOf rules in
  1 ≤ gt_ExtcodeSize gt ∧ 1 ≤ gt_ExtcodeCopy gt ∧ 0 ≤ gt_ExtcodeHash gt ∧ 1 ≤ gt_Balance gt ∧ 1 ≤ gt_SLoad gt.
Proof. unfold GasTableOf. by repeat destruct (_ rules). Qed.

Lemma at_op code pc k : GetOp code pc = k → k ≠ 0 → pc < Z.of_nat (length code).
Proof. unfold GetOp, GetByte. destruct (Z.ltb_spec pc (Z.of_nat (length code))); [done|]. intros <-. done. Qed.

(** An operation without memory whose price is fixed. *)
Lemma op_const k ex n push gas (h j : bool) :
  (∀ st, exec_ok db base rules st ex n anywhere) → 0 ≤ gas → (1 ≤ gas ∨ h = true) →
  op_ok k ((mkOp ex (constGasFunc gas) (makeStackFunc n push)) <| halts := h |> <| jumps := j |>).
Proof.
  intros Hex Hg Hl. apply (op_plain _ _ n push true gas anywhere); try done; [intros; by apply constGas_ok|].
  upd. destruct Hl as [?| ->]; [by left|by right].
Qed.

Lemma op_fixed k ex n push gas :
  (∀ st, exec_ok db base rules st ex n anywhere) → 1 ≤ gas → op_ok k (mkOp ex (constGasFunc gas) (makeStackFunc n push)).
Proof. intros Hex Hg. exact (op_const k ex n push gas false false Hex ltac:(lia) (or_introl Hg)). Qed.

Lemma op_binary k f gas : (∀ x y, nonneg x → nonneg y → nonneg (f x y)) → 1 ≤ gas →
  op_ok k (mkOp (binary f) (constGasFunc gas) (makeStackFunc 2 1)).
Proof. intros Hf Hg. apply op_fixed; [|done]. intros st. by apply binary_ok. Qed.

Lemma op_pushing k f gas : (∀ fr, frame_ok fr → nonneg (f fr)) → 1 ≤ gas →
  op_ok k (mkOp (pushing f) (constGasFunc gas) (makeStackFunc 0 1)).
Proof. intros Hf Hg. apply op_fixed; [|done]. intros st. by apply pushing_ok. Qed.

(** ** Operations that run other contracts *)

(** An operation whose price covers a callee's gas. *)
Lemma op_calling k o n push lo :
  validateStack o = makeStackFunc n push → sizes o n →
  (∀ st, gas_ok db base rules st (gasCost o) n false (pays lo)) →
  (∀ interp fr fr' e cost, interp_ok db base rules (gas_of fr - 1) interp → frame_ok fr → good e → charged o fr fr' cost →
     (n ≤ length (fr_stack fr'))%nat → restricted (ev_readOnly e) k o (fr_stack fr') → pays lo fr cost e → cost ≤ gas_of fr →
     runs (static rules (ev_readOnly e)) (execute o interp fr') e (λ r _, res_ok (gas_of fr - 1) r)) →
  op_ok k o.
Proof.
  intros Hv Hsz Hgas Hex interp fr e HI F G Hk Hst Hre.
  assert (n ≤ length (fr_stack fr))%nat as Hn by (rewrite Hv in Hst; by eapply validate_length).
  unfold turn. eapply runs_bind with (P := λ r e', match r with inl _ => True | inr fr' => ∃ cost, charged o fr fr' cost ∧ pays lo fr cost e' end).
  { apply (charge_runs _ o n false (pays lo)); auto; [done|]. intros fr' cost e' _ Hch Hl. by exists cost. }
  intros [err|fr'] e1 R1 G1; [intros _; by apply runs_ret|]. intros (cost & Hch & Hl).
  pose proof (re_readOnly _ _ _ _ R1) as Er. rewrite <- Er in *. pose proof (co_gas _ (fo_contract _ (cg_frame _ _ _ _ Hch))) as [Hg _].
  pose proof (cg_gas _ _ _ _ Hch) as Eg. fold (gas_of fr') in Hg.
  eapply runs_bind; [eapply (Hex interp fr fr'); try done; [by rewrite (cg_stack _ _ _ _ Hch)..|lia]|].
  intros x e2 _ G2 (R2 & R3 & R4). apply runs_ret; [done|]. split; [|lia]. split; [done|]. split; [done|lia].
Qed.

Lemma op_call : op_ok CALL ((mkOp (opCall db cx rules cfg) (gasCall rules) (makeStackFunc 7 1)) <| memorySize := Some memoryCall |> <| op_returns := true |>).
Proof.
  apply (op_calling _ _ 7 1 transfer_price); [done|solve_sizes|by intros; apply gasCall_ok|].
  intros interp fr fr' e cost HI F G Hch Hn Hre [Ht Hp] Hc. pose proof (co_gas _ (fo_contract _ F)) as [_ Hgu]. fold (gas_of fr) in Hgu.
  apply (opCall_ok db base cx rules cfg (gas_of fr - 1) interp HI); try done; [apply Hch|by apply Hch| |lia].
  intros v Ev. rewrite (cg_gas _ _ _ _ Hch). unfold transfer_price in Hp. rewrite <- (cg_stack _ _ _ _ Hch), Ev in Hp.
  unfold callee_gas, CallStipend, CallValueTransferGas in *. destruct (v =? 0) eqn:E0; (split_and!; [lia|lia|]).
  all: intros Hs; by apply (Hre Hs).
Qed.

Lemma op_callcode k : op_ok k ((mkOp (opCallCode db cx rules cfg) (gasCallCode rules) (makeStackFunc 7 1)) <| memorySize := Some memoryCall |> <| op_returns := true |>).
Proof.
  apply (op_calling _ _ 7 1 transfer_price); [done|solve_sizes|by intros; apply gasCallCode_ok|].
  intros interp fr fr' e cost HI F G Hch Hn Hre [Ht Hp] Hc. pose proof (co_gas _ (fo_contract _ F)) as [_ Hgu]. fold (gas_of fr) in Hgu.
  apply (opCallCode_ok db base cx rules cfg (gas_of fr - 1) interp HI); try done; [apply Hch|by apply Hch| |lia].
  intros v Ev. rewrite (cg_gas _ _ _ _ Hch). unfold transfer_price in Hp. rewrite <- (cg_stack _ _ _ _ Hch), Ev in Hp.
  unfold callee_gas, CallStipend, CallValueTransferGas in *. destruct (v =? 0); lia.
Qed.

Lemma op_delegatecall k : op_ok k ((mkOp (opDelegateCall db cx rules cfg) (gasDelegateCall rules) (makeStackFunc 6 1)) <| memorySize := Some memoryDelegateCall |> <| op_returns := true |>).
Proof.
  apply (op_calling _ _ 6 1 (λ _, 1)); [done|solve_sizes|by intros; apply gasDelegateCall_ok; lia|].
  intros interp fr fr' e cost HI F G Hch Hn Hre [Ht Hp] Hc. pose proof (co_gas _ (fo_contract _ F)) as [_ Hgu]. fold (gas_of fr) in Hgu.
  apply (opDelegateCall_ok db base cx rules cfg (gas_of fr - 1) interp HI); try done; [apply Hch|by apply Hch|lia| |lia].
  rewrite (cg_gas _ _ _ _ Hch). lia.
Qed.

Lemma op_staticcall k : op_ok k ((mkOp (opStaticCall db cx rules cfg) (gasStaticCall rules) (makeStackFunc 6 1)) <| memorySize := Some memoryStaticCall |> <| op_returns := true |>).
Proof.
  apply (op_calling _ _ 6 1 (λ _, 1)); [done|solve_sizes|by intros; apply gasDelegateCall_ok; lia|].
  intros interp fr fr' e cost HI F G Hch Hn Hre [Ht Hp] Hc. pose proof (co_gas _ (fo_contract _ F)) as [_ Hgu]. fold (gas_of fr) in Hgu.
  apply (opStaticCall_ok db base cx rules cfg (gas_of fr - 1) interp HI); try done; [apply Hch|by apply Hch|lia| |lia].
  rewrite (cg_gas _ _ _ _ Hch). lia.
Qed.

(** Creations, which write. *)
Lemma op_creating k o n push flat lo :
  validateStack o = makeStackFunc n push → sizes o n → writes o = true → (flat = true → memorySize o = None) →
  (∀ st, gas_ok db base rules st (gasCost o) n flat (at_least lo)) → 1 ≤ lo →
  (∀ interp g fr e, interp_ok db base rules g interp → frame_ok fr → good e → (n ≤ length (fr_stack fr))%nat →
     (∀ f, memorySize o = Some f → covers f fr) → gas_of fr ≤ g → static rules (ev_readOnly e) = false →
     runs false (execute o interp fr) e (λ r _, res_ok (gas_of fr) r)) →
  op_ok k o.
Proof.
  intros Hv Hsz Hw Hflat Hgas Hlo Hex interp fr e HI F G Hk Hst Hre.
  assert (n ≤ length (fr_stack fr))%nat as Hn by (rewrite Hv in Hst; by eapply validate_length).
  assert (static rules (ev_readOnly e) = false) as Es.
  { destruct (static rules (ev_readOnly e)) eqn:Es; [|done]. destruct (Hre Es) as [? _]. congruence. }
  unfold turn. eapply runs_bind with (P := λ r e', match r with inl _ => True | inr fr' => ∃ cost, charged o fr fr' cost ∧ lo ≤ cost end).
  { apply (charge_runs _ o n flat (at_least lo)); auto. intros fr' cost e' _ Hch Hl. by exists cost. }
  intros [err|fr'] e1 R1 G1; [intros _; by apply runs_ret|]. intros (cost & [F' E1 Ep Ec Eg Hc Hcov] & Hl).
  eapply runs_bind.
  { rewrite Es. apply (Hex interp (gas_of fr - 1)); try done; [by rewrite E1|lia|]. by rewrite (re_readOnly _ _ _ _ R1). }
  intros x e2 _ G2 (R2 & R3 & R4). apply runs_ret; [done|]. split; [|lia]. split; [done|]. split; [done|lia].
Qed.

Lemma op_create k : op_ok k ((mkOp (opCreate db cx rules cfg) gasCreate (makeStackFunc 3 1)) <| memorySize := Some memoryCreate |> <| writes := true |> <| op_returns := true |>).
Proof.
  apply (op_creating _ _ 3 1 false CreateGas); [done|solve_sizes|done|done|by intros; apply memoryGas_ok|done|].
  intros interp g fr e HI F G Hn Hc Hg Hs. by apply (opCreate_ok db base cx rules cfg g interp HI); auto.
Qed.

Lemma op_create2 k : op_ok k ((mkOp (opCreate2 db cx rules cfg) gasCreate2 (makeStackFunc 4 1)) <| memorySize := Some memoryCreate2 |> <| writes := true |> <| op_returns := true |>).
Proof.
  apply (op_creating _ _ 4 1 false Create2Gas); [done|solve_sizes|done|done|intros; apply wordGas_ok; (done || lia)|done|].
  intros interp g fr e HI F G Hn Hc Hg Hs. apply (opCreate2_ok db base cx rules cfg g interp HI); auto.
Qed.

(** ** The table *)

Ltac words :=
  let x := fresh in let y := fresh in let Hx := fresh in let Hy := fresh in let H := fresh in
  intros x y Hx Hy; pose proof (binary_words x y Hx Hy) as H; rewrite !Forall_cons in H; tauto.

(** An operation on memory, from the facts of its price and of its execution. *)
Ltac memory_op n lo gas exec :=
  eapply (op_plain _ _ n _ false lo);
  [ reflexivity | solve_sizes | done | intros ? ?; first [apply gas | eapply gas]; (done || lia || auto)
  | intros ? ?; apply exec; (done || auto) | intros ? ? H ?; exact (H _ eq_refl) | first [by left | by right] ].

Definition sound (t : instructionSet) : Prop := Forall (λ kv, op_ok kv.1 kv.2) t.

Hypothesis Hcx : 0 ≤ vc_GasPrice cx.

Lemma frontier_arithmetic : sound (take 23 (newFrontierInstructionSet db cx rules cfg)).
Proof.
  unfold newFrontierInstructionSet. cbn [take app]. unfold sound. repeat apply Forall_cons_2; [..|done]; cbn [fst snd];
    try (apply op_binary; [words|by vm_compute]).
  - apply (op_const _ _ 0 0 0 true false); [intros; apply opStop_ok|done|by right].
  - apply op_fixed; [|by vm_compute]. intros st. apply ternary_ok. intros. apply if_nonneg; [apply U256_nonneg|done].
  - apply op_fixed; [|by vm_compute]. intros st. apply ternary_ok. intros. apply if_nonneg; [apply U256_nonneg|done].
  - apply (op_plain _ _ 2 1 true GasSlowStep anywhere); try done; [by intros; apply gasExp_ok| |by left].
    intros st _. apply binary_ok. words.
  - apply op_fixed; [|by vm_compute]. intros st. apply unary_ok. intros. by apply if_nonneg.
  - apply op_fixed; [|by vm_compute]. intros st. apply unary_ok. intros. apply U256_nonneg.
Qed.

Lemma frontier_environment : sound (take 32 (drop 23 (newFrontierInstructionSet db cx rules cfg))).
Proof.
  pose proof table_prices as (P1 & P2 & _ & P4 & P5). unfold newFrontierInstructionSet. cbn [take drop app].
  unfold sound. repeat apply Forall_cons_2; [..|done]; cbn [fst snd].
  - memory_op 2%nat Sha3Gas (wordGas_ok db base rules) opSha3_ok.
  - apply op_pushing; [intros; apply Address_Big_nonneg|done].
  - apply op_fixed; [intros; apply opBalance_ok|done].
  - apply op_pushing; [intros; apply Address_Big_nonneg|done].
  - apply op_pushing; [intros; apply Address_Big_nonneg|done].
  - apply op_pushing; [|done]. intros fr F. apply (co_value _ (fo_contract _ F)).
  - apply op_fixed; [intros; apply opCallDataLoad_ok|done].
  - apply op_pushing; [|done]. intros. unfold nonneg. lia.
  - memory_op 3%nat GasFastestStep (wordGas_ok db base rules) opCallDataCopy_ok.
  - apply op_pushing; [|done]. intros. unfold nonneg. lia.
  - memory_op 3%nat GasFastestStep (wordGas_ok db base rules) opCodeCopy_ok.
  - by apply op_pushing.
  - apply op_fixed; [intros; apply opExtCodeSize_ok|done].
  - memory_op 4%nat (gt_ExtcodeCopy (GasTableOf rules)) (wordGas_ok db base rules) opExtCodeCopy_ok.
  - apply op_fixed; [intros; apply opBlockhash_ok|done].
  - apply op_pushing; [intros; apply Address_Big_nonneg|done].
  - apply op_pushing; [intros; apply U256_nonneg|done].
  - apply op_pushing; [intros; apply U256_nonneg|done].
  - apply op_pushing; [intros; apply U256_nonneg|done].
  - apply op_pushing; [intros; apply U256_nonneg|done].
  - apply op_fixed; [intros; apply opPop_ok|done].
  - memory_op 1%nat GasFastestStep (memoryGas_ok db base rules) opMload_ok.
  - memory_op 2%nat GasFastestStep (memoryGas_ok db base rules) opMstore_ok.
  - memory_op 2%nat GasFastestStep (memoryGas_ok db base rules) opMstore8_ok.
  - apply op_fixed; [intros; apply opSload_ok|done].
  - apply (op_plain _ _ 2 0 true NetSstoreNoopGas anywhere); try done; [..|by left]; intros st Hst.
    + by apply gasSStore_ok; auto.
    + by apply opSstore_ok; auto.
  - apply (op_const _ _ 1 0 GasMidStep false true); [intros; apply opJump_ok|done|by left].
  - apply (op_const _ _ 2 0 GasSlowStep false true); [intros; apply opJumpi_ok|done|by left].
  - apply op_pushing; [|done]. intros fr F. apply (fo_pc _ F).
  - apply op_pushing; [|done]. intros. unfold Memory_Len, nonneg. lia.
  - apply op_pushing; [|done]. intros fr F. apply (co_gas _ (fo_contract _ F)).
  - apply op_fixed; [intros; apply opStop_ok|done].
Qed.

Lemma op_push n : (1 ≤ n)%nat → op_ok (PUSH1 + Z.of_nat n - 1) (mkOp (makePush n) gasPush (makeStackFunc 0 1)).
Proof.
  intros Hn. apply (op_plain _ _ 0 1 true GasFastestStep (λ fr, fr_pc fr < Z.of_nat (length (ct_Code (fr_contract fr))))); try done;
     [by intros st _; apply constGas_ok|intros st _; apply makePush_ok| |by left].
  intros fr F _ Hk. eapply at_op; [exact Hk|]. unfold PUSH1. lia.
Qed.

Lemma op_dup k n : (1 ≤ n)%nat → op_ok k (mkOp (makeDup n) gasDup (makeDupStackFunc n)).
Proof.
  intros Hn. apply (op_plain _ _ n (n + 1) true GasFastestStep anywhere); try done; [by intros st _; apply constGas_ok|by intros st _; apply makeDup_ok|by left].
Qed.

Lemma op_swap k n : op_ok k (mkOp (makeSwap n) gasSwap (makeSwapStackFunc (n + 1))).
Proof.
  apply (op_plain _ _ (n + 1) (n + 1) true GasFastestStep anywhere); try done; [by intros st _; apply constGas_ok|by intros st _; apply makeSwap_ok|by left].
Qed.

Lemma op_log k n : op_ok k ((mkOp (makeLog cx n) (makeGasLog (Z.of_nat n)) (makeStackFunc (n + 2) 0)) <| memorySize := Some memoryLog |> <| writes := true |>).
Proof. memory_op (n + 2)%nat LogGas (gasLog_ok db base rules) makeLog_ok. Qed.

Lemma op_return k : op_ok k ((mkOp opReturn gasReturn (makeStackFunc 2 0)) <| memorySize := Some memoryReturn |> <| halts := true |>).
Proof. memory_op 2%nat 0 (gasReturn_ok db base rules) opReturn_ok. Qed.

Lemma op_selfdestruct k : op_ok k ((mkOp (opSuicide db) (gasSuicide rules) (makeStackFunc 1 0)) <| halts := true |> <| writes := true |>).
Proof.
  apply (op_plain _ _ 1 0 true 0 anywhere); try done; [..|by right]; intros st Hst.
  - by apply gasSuicide_ok; auto.
  - by apply opSuicide_ok; auto.
Qed.

Lemma seq_sound (f : nat → Z * operation) a n : (∀ i, (a ≤ i)%nat → op_ok (f i).1 (f i).2) → sound (f <$> seq a n).
Proof. intros H. apply Forall_fmap, Forall_forall. intros i [Hi _]%elem_of_seq. by apply H. Qed.

Lemma sound_app t u : sound t → sound u → sound (t ++ u).
Proof. intros. by apply Forall_app. Qed.

Lemma frontier_sound : sound (newFrontierInstructionSet db cx rules cfg).
Proof.
  rewrite <- (take_drop 23 (newFrontierInstructionSet db cx rules cfg)). apply sound_app; [apply frontier_arithmetic|].
  rewrite <- (take_drop 32 (drop 23 _)). apply sound_app; [apply frontier_environment|].
  unfold newFrontierInstructionSet. cbn [drop app]. repeat apply sound_app.
  - apply seq_sound. intros i Hi. by apply op_push.
  - apply seq_sound. intros i Hi. by apply op_dup.
  - apply seq_sound. intros i Hi. by apply op_swap.
  - apply seq_sound. intros i Hi. by apply op_log.
  - unfold sound. repeat apply Forall_cons_2; [..|done]; cbn [fst snd].
    + apply op_create.
    + apply op_call.
    + apply op_callcode.
    + apply op_return.
    + apply op_selfdestruct.
Qed.

Lemma homestead_sound : sound (newHomesteadInstructionSet db cx rules cfg).
Proof. apply sound_app; [|apply frontier_sound]. constructor; [|done]. apply op_delegatecall. Qed.

Lemma byzantium_sound : sound (newByzantiumInstructionSet db cx rules cfg).
Proof.
  apply sound_app; [|apply homestead_sound]. unfold sound. repeat apply Forall_cons_2; [..|done]; cbn [fst snd].
  - apply op_staticcall.
  - apply op_fixed; [intros; apply opReturnDataSize_ok|done].
  - memory_op 3%nat GasFastestStep (wordGas_ok db base rules) opReturnDataCopy_ok.
  - memory_op 2%nat 0 (gasReturn_ok db base rules) opReturn_ok.
Qed.

Lemma constantinople_sound : IsConstantinople rules = true → sound (newConstantinopleInstructionSet db cx rules cfg).
Proof.
  intros Hc. apply sound_app; [|apply byzantium_sound]. unfold sound. repeat apply Forall_cons_2; [..|done]; cbn [fst snd];
    try (apply op_binary; [words|by vm_compute]).
  - apply op_fixed; [intros; apply opExtCodeHash_ok|]. unfold GasTableOf. by rewrite Hc.
  - apply op_create2.
Qed.

Lemma JumpTable_sound : sound (JumpTable db cx rules cfg).
Proof.
  pose proof constantinople_sound as Hc. pose proof byzantium_sound as Hb. pose proof homestead_sound as Hh. pose proof frontier_sound as Hf.
  unfold JumpTable. destruct (IsConstantinople rules); [by apply Hc|]. by destruct (IsByzantium rules), (IsHomestead rules).
Qed.

Lemma findOp_ok k t o : sound t → findOp k t = Some o → op_ok k o.
Proof.
  induction 1 as [|[k' o'] t Ho _ IH]; [done|]. cbn [findOp fst snd] in *. destruct (Z.eqb_spec k' k) as [->|]; [by intros [= <-]|done].
Qed.

(** ** The loop *)

Lemma enforce_runs k o s e (Q : option vmerror → EVM → Prop) :
  good e → validateStack o s = None → (k = CALL → (3 ≤ length s)%nat) → Forall nonneg s →
  (∀ err, Q (Some err) e) → (restricted (ev_readOnly e) k o s → Q None e) →
  runs (static rules (ev_readOnly e)) (enforceRestrictions rules k o s) e Q.
Proof.
  intros G Hv H3 Hs HE HN. unfold enforceRestrictions. apply runs_gets_bind.
  unfold restricted, static in *. rewrite (andb_comm (IsByzantium rules)). destruct (ev_readOnly e && IsByzantium rules); [|apply runs_ret; [done|by apply HN]].
  destruct (writes o); [by apply runs_ret|]. destruct (Z.eqb_spec k CALL) as [->|Hn].
  - destruct (Back_some s 2) as (v & Ev & Hvn); [specialize (H3 eq_refl); lia|done|]. eapply runs_orPanic_bind; [exact Ev|].
    apply runs_ret; [done|]. destruct (Z.ltb_spec 0 (BitLen v)) as [|Hb]; [done|]. apply HN. intros _. split; [done|].
    intros _ v' Ev'. unfold Back in Ev. assert (v' = v) as -> by congruence.
    assert (v < 2 ^ 0) by (apply BitLen_lt; [done|lia|lia]). unfold nonneg in Hvn. lia.
  - apply runs_ret; [done|]. apply HN. intros _. split; [done|]. done.
Qed.

(** The outcome of a turn: a smaller frame or the end. *)
Definition stepped (fr : Frame) (r : Frame + outcome) : Prop :=
  match r with
  | inl fr' => frame_ok fr' ∧ gas_of fr' < gas_of fr
  | inr out => out_ok (gas_of fr) out
  end.

(** [CALL] is an operation with seven operands. *)
Lemma find_CALL o s : findOp CALL (JumpTable db cx rules cfg) = Some o → validateStack o s = None → (3 ≤ length s)%nat.
Proof.
  intros Hf Hv. assert (validateStack o = makeStackFunc 7 1) as E.
  { revert Hf. unfold JumpTable. destruct (IsConstantinople rules), (IsByzantium rules), (IsHomestead rules); by intros [= <-]. }
  rewrite E in Hv. apply validate_length in Hv. lia.
Qed.

Lemma frame_next fr : frame_ok fr → frame_ok (fr <| fr_pc ::= λ pc, add64 pc 1 |>).
Proof. intros [H1 H2 H3 H4]. split; try done. apply u64_range. Qed.

(** The end of a turn. *)
Definition settle (o : operation) (fr : Frame) (r : vmerror + result) : X (Frame + outcome) :=
  match r with
  | inl err => mret (inr ([], Some err, fr_contract fr))
  | inr (fr, res, err) =>
      (if op_returns o then modify (λ e : EVM, e <| ev_returnData := res |>) else mret tt);;
      mret (match err with
            | Some err => inr ([], Some err, fr_contract fr)
            | None =>
                if reverts o then inr (res, Some errExecutionReverted, fr_contract fr)
                else if halts o then inr (res, None, fr_contract fr)
                else if jumps o then inl fr
                else inl (fr <| fr_pc ::= λ pc, add64 pc 1 |>)
            end)
  end.

Lemma settle_runs st o fr r e : frame_ok fr → good e → turned o fr r → runs st (settle o fr r) e (λ r _, stepped fr r).
Proof.
  intros F G Ht. destruct (co_gas _ (fo_contract _ F)) as [Hg _]. fold (gas_of fr) in Hg.
  destruct r as [err|[[fr' res] err]]; cbn [settle].
  { apply runs_ret; [done|]. split; [apply code_ok_nil|]. cbn. fold (gas_of fr). lia. }
  destruct Ht as [(F' & Hk & Hle) Hlt]. cbn [fst snd] in *. destruct (co_gas _ (fo_contract _ F')) as [Hg' _]. fold (gas_of fr') in Hg'.
  eapply runs_bind with (P := λ _ _, True).
  { destruct (op_returns o); [|by apply runs_ret]. apply runs_modify; try done. apply Hk. }
  intros _ e1 _ G1 _. apply runs_ret; [done|].
  assert (∀ ret err, code_ok ret → out_ok (gas_of fr) (ret, err, fr_contract fr')) as Hout by (intros; split; [done|]; cbn; fold (gas_of fr'); lia).
  destruct err; [by apply Hout; apply code_ok_nil|]. destruct (reverts o); [by apply Hout|]. destruct (halts o); [by apply Hout|].
  specialize (Hlt eq_refl). destruct (jumps o); [done|]. split; [by apply frame_next|done].
Qed.

Lemma step_runs interp fr e :
  interp_ok db base rules (gas_of fr - 1) interp → frame_ok fr → good e →
  runs (static rules (ev_readOnly e)) (step db cx rules cfg interp fr) e (λ r _, stepped fr r).
Proof.
  intros HI F G. unfold step. cbv zeta. set (k := GetOp _ _).
  assert (∀ err e', good e' → runs (static rules (ev_readOnly e)) (mret (inr ([], Some err, fr_contract fr)) : X (Frame + outcome)) e' (λ r _, stepped fr r)) as Hstop.
  { intros err e' G'. apply runs_ret; [done|]. split; [apply code_ok_nil|]. cbn. fold (gas_of fr).
    destruct (co_gas _ (fo_contract _ F)). unfold gas_of. lia. }
  destruct (findOp k (JumpTable db cx rules cfg)) as [o|] eqn:Ef; [|by apply Hstop].
  pose proof (findOp_ok k _ o JumpTable_sound Ef) as Ho. destruct (validateStack o (fr_stack fr)) as [err|] eqn:Ev; [by apply Hstop|].
  eapply runs_bind with (P := λ r e', e' = e ∧ (r = None → restricted (ev_readOnly e) k o (fr_stack fr))).
  { apply enforce_runs; try done; [|apply F]. intros Ek. rewrite Ek in Ef. by eapply find_CALL. }
  intros [err|] e1 _ G1 [-> Hre]; [by apply Hstop|]. specialize (Hre eq_refl).
  assert (runs (static rules (ev_readOnly e)) (r ← turn o interp fr; settle o fr r) e (λ r _, stepped fr r)) as Hr.
  { eapply runs_bind; [by apply (Ho interp fr e HI F G eq_refl Ev Hre)|]. intros r e2 _ G2 Ht. by apply settle_runs. }
  eapply runs_ext; [|exact Hr]. unfold turn, mbind, X_bind.
  destruct (charge o fr e) as [[err|fr1] e3| | |]; try done. destruct (execute o interp fr1 e3) as [[[fr2 res] err] e4| | |]; done.
Qed.

(** ** All runs *)

Lemma enter_runs (lp : Frame → X outcome) c input ro e :
  (∀ fr e, frame_ok fr → good e → gas_of fr = ct_Gas c →
     runs (static rules (ev_readOnly e)) (lp fr) e (λ r _, out_ok (gas_of fr) r)) →
  contract_ok c → code_ok input → good e →
  runs (static rules (ev_readOnly e || ro)) (enter lp c input ro) e (λ r _, out_ok (ct_Gas c) r).
Proof.
  intros Hlp Hc Hi G. destruct (co_gas _ Hc) as [Hg _].
  set (e1 := (e <| ev_depth ::= λ d, d + 1 |>) <| ev_readOnly := ev_readOnly e || ro |> <| ev_returnData := [] |>).
  assert (good e1) as G1 by (destruct G; by split).
  set (body := if decide (ct_Code c = []) then mret ([], None, c) else lp (mkFrame 0 [] NewMemory (c <| ct_Input := input |>))).
  assert (runs (static rules (ev_readOnly e1)) body e1 (λ r _, out_ok (ct_Gas c) r)) as Hbody.
  { unfold body. destruct (decide _).
    - apply runs_ret; [done|]. split; [apply code_ok_nil|]. cbn. lia.
    - set (fr0 := mkFrame 0 [] NewMemory (c <| ct_Input := input |>)).
      assert (frame_ok fr0) as F0 by (destruct Hc; split; try done; by split).
      assert (gas_of fr0 = ct_Gas c) as E0 by done. pose proof (Hlp fr0 e1 F0 G1 E0) as H. by rewrite E0 in H. }
  assert (enter lp c input ro e = match body e1 with
    | Done r e2 => Done r ((e2 <| ev_readOnly := ev_readOnly e |>) <| ev_depth ::= λ d, d - 1 |>)
    | Panics => Panics | Crashes w => Crashes w | NoFuel => NoFuel end) as Eenter by done.
  unfold EvmLogic.runs in *. destruct Hbody as [(w & E & ?)|(r & e2 & Er & [R1 R2 R3] & G2 & Hr)]; [left; exists w; by rewrite Eenter, E|right].
  set (e3 := (e2 <| ev_readOnly := ev_readOnly e |>) <| ev_depth ::= λ d, d - 1 |>).
  exists r, e3. split_and!; [|split; [|done|done]|by destruct G2; split|done].
  - by rewrite Eenter, Er.
  - unfold e3. upd. rewrite R1. unfold e1. upd. lia.
Qed.

Lemma loop_runs fuel : ∀ fr e, frame_ok fr → good e → gas_of fr < Z.of_nat fuel →
  runs (static rules (ev_readOnly e)) (loop db cx rules cfg fuel fr) e (λ r _, out_ok (gas_of fr) r).
Proof.
  induction fuel as [|fuel IH]; intros fr e F G Hf.
  { destruct (co_gas _ (fo_contract _ F)). unfold gas_of in *. lia. }
  cbn [loop]. eapply runs_bind; [apply step_runs; [|done|done]|].
  - intros c input ro e1 Hc Hle Hi G1. apply enter_runs; [|done..]. intros fr1 e2 F1 G2 Eg. apply IH; [done|done|lia].
  - intros [fr'|out] e1 R1 G1 Hs.
    + destruct Hs as [F' Hlt]. pose proof (re_readOnly _ _ _ _ R1) as Er. rewrite <- Er.
      eapply runs_conseq; [apply IH; [done|done|lia]|]. intros r e2 _ _ [Hk Hg]. split; [done|lia].
    + by apply runs_ret.
Qed.

(** The interpreter with more fuel than gas. *)
Lemma Run_runs fuel : interp_ok db base rules (Z.of_nat fuel - 1) (Run db cx rules cfg fuel).
Proof.
  intros c input ro e Hc Hle Hi G. apply enter_runs; [|done..]. intros fr e1 F G1 Eg. apply loop_runs; [done|done|lia].
Qed.
End run.
