(* ===== verification/EvmFuel.v ===== *)
(** * EvmFuel: the fuel does not matter

    With more fuel the interpreter gives the same result, once there is one. *)

From S2P Require Import Prelude Bytes Crypto StateDB EvmWord EvmCode EvmMemory EvmState EvmGas EvmCall EvmInstr Evm.

Local Open Scope Z_scope.

Section fuel.
Context `{CR : Crypto} `{SD : StateDatabase} `{PrC : Precompiles} (db : Database) (cx : VmContext) (rules : Rules) (cfg : VmConfig).

(** [m'] gives what [m] gives, unless [m] lacks fuel. *)
Definition below {A : Type} (m m' : X A) : Prop := ∀ e, m e = NoFuel ∨ m' e = m e.

Lemma below_refl {A : Type} (m : X A) : below m m.
Proof. intros e. by right. Qed.

Lemma below_trans {A : Type} (m1 m2 m3 : X A) : below m1 m2 → below m2 m3 → below m1 m3.
Proof. intros H1 H2 e. destruct (H1 e) as [|E]; [by left|]. destruct (H2 e) as [E'|E']; [left|right]; congruence. Qed.

Lemma below_bind {A B : Type} (m m' : X A) (k k' : A → X B) :
  below m m' → (∀ a, below (k a) (k' a)) → below (m ≫= k) (m' ≫= k').
Proof.
  intros Hm Hk e. unfold mbind, X_bind. destruct (Hm e) as [E|E]; [left; by rewrite E|]. rewrite E.
  destruct (m e) as [a e'| | |]; [apply Hk|by right|by right|by left].
Qed.

Definition below_interp (I I' : interpreter) : Prop := ∀ c input ro, below (I c input ro) (I' c input ro).

(** An instruction that asks the interpreter only for whole runs. *)
Definition monotone (f : executionFunc) : Prop := ∀ I I', below_interp I I' → ∀ fr, below (f I fr) (f I' fr).

Ltac below_tac H :=
  repeat first
    [ apply H | apply below_refl | apply below_bind; [|intros]
    | match goal with |- context [match ?x with _ => _ end] => destruct x end ].

Section calls.
Context (I I' : interpreter) (HI : below_interp I I').

Lemma run_below c input ro : below (run cx rules I c input ro) (run cx rules I' c input ro).
Proof. unfold run. below_tac HI. Qed.

Lemma Call_below caller addr input gas value :
  below (Call db cx rules cfg I caller addr input gas value) (Call db cx rules cfg I' caller addr input gas value).
Proof. unfold Call. pose proof run_below as Hr. below_tac Hr. Qed.

Lemma CallCode_below caller addr input gas value :
  below (CallCode db cx rules cfg I caller addr input gas value) (CallCode db cx rules cfg I' caller addr input gas value).
Proof. unfold CallCode. pose proof run_below as Hr. below_tac Hr. Qed.

Lemma DelegateCall_below caller addr input gas :
  below (DelegateCall db cx rules cfg I caller addr input gas) (DelegateCall db cx rules cfg I' caller addr input gas).
Proof. unfold DelegateCall. pose proof run_below as Hr. below_tac Hr. Qed.

Lemma StaticCall_below caller addr input gas :
  below (StaticCall db cx rules cfg I caller addr input gas) (StaticCall db cx rules cfg I' caller addr input gas).
Proof. unfold StaticCall. pose proof run_below as Hr. below_tac Hr. Qed.

Lemma create_below caller code h gas value a :
  below (create db cx rules cfg I caller code h gas value a) (create db cx rules cfg I' caller code h gas value a).
Proof. unfold create, createAt. pose proof run_below as Hr. below_tac Hr. Qed.
End calls.

Lemma monotone_flat (f : Frame → X result) : monotone (λ _, f).
Proof. intros I I' _ fr. apply below_refl. Qed.

(** Every operation of the table is monotone. *)
Definition monotone_table (t : instructionSet) : Prop := Forall (λ kv, monotone (execute kv.2)) t.

Lemma call_monotone : monotone (opCall db cx rules cfg).
Proof. intros I I' HI fr. unfold opCall. pose proof (Call_below I I' HI) as Hr. below_tac Hr. Qed.
Lemma callcode_monotone : monotone (opCallCode db cx rules cfg).
Proof. intros I I' HI fr. unfold opCallCode. pose proof (CallCode_below I I' HI) as Hr. below_tac Hr. Qed.
Lemma delegatecall_monotone : monotone (opDelegateCall db cx rules cfg).
Proof. intros I I' HI fr. unfold opDelegateCall. pose proof (DelegateCall_below I I' HI) as Hr. below_tac Hr. Qed.
Lemma staticcall_monotone : monotone (opStaticCall db cx rules cfg).
Proof. intros I I' HI fr. unfold opStaticCall. pose proof (StaticCall_below I I' HI) as Hr. below_tac Hr. Qed.
Lemma create_monotone : monotone (opCreate db cx rules cfg).
Proof.
  intros I I' HI fr. unfold opCreate, Create. apply below_bind; [apply below_refl|]. intros [[[value offset] size] fr1].
  apply below_bind; [apply below_refl|]. intros input. cbv zeta. apply below_bind; [|intros; apply below_refl].
  apply below_bind; [apply below_refl|]. intros nonce. by apply create_below.
Qed.
Lemma create2_monotone : monotone (opCreate2 db cx rules cfg).
Proof.
  intros I I' HI fr. unfold opCreate2, Create2. apply below_bind; [apply below_refl|]. intros [[[value offset] size] fr1].
  apply below_bind; [apply below_refl|]. intros [salt fr2]. apply below_bind; [apply below_refl|]. intros input. cbv zeta.
  apply below_bind; [|intros; apply below_refl]. by apply create_below.
Qed.

Ltac monotone_tac :=
  unfold monotone_table; repeat apply Forall_cons_2; [..|done]; cbn [snd];
  first [ exact call_monotone | exact callcode_monotone | exact delegatecall_monotone | exact staticcall_monotone
        | exact create_monotone | exact create2_monotone | exact (monotone_flat _) ].

Lemma seq_monotone (f : nat → Z * operation) l : (∀ i, monotone (execute (f i).2)) → monotone_table (f <$> l).
Proof. intros H. apply Forall_fmap, Forall_forall. intros i _. apply H. Qed.

Lemma frontier_monotone : monotone_table (newFrontierInstructionSet db cx rules cfg).
Proof.
  unfold newFrontierInstructionSet. repeat apply Forall_app_2; try (apply seq_monotone; intros i; exact (monotone_flat _)); monotone_tac.
Qed.

Lemma JumpTable_monotone : monotone_table (JumpTable db cx rules cfg).
Proof.
  pose proof frontier_monotone as Hf.
  assert (monotone_table (newHomesteadInstructionSet db cx rules cfg)) as Hh by (apply Forall_app_2; [monotone_tac|exact Hf]).
  assert (monotone_table (newByzantiumInstructionSet db cx rules cfg)) as Hb by (apply Forall_app_2; [monotone_tac|exact Hh]).
  unfold JumpTable. destruct (IsConstantinople rules); [apply Forall_app_2; [monotone_tac|exact Hb]|].
  by destruct (IsByzantium rules), (IsHomestead rules).
Qed.

Lemma findOp_monotone k t o : monotone_table t → findOp k t = Some o → monotone (execute o).
Proof.
  induction 1 as [|[k' o'] t Ho _ IH]; [done|]. cbn [findOp snd] in *. destruct (k' =? k); [by intros [= <-]|done].
Qed.

Lemma step_below I I' fr : below_interp I I' → below (step db cx rules cfg I fr) (step db cx rules cfg I' fr).
Proof.
  intros HI. unfold step. cbv zeta. destruct (findOp _ _) as [o|] eqn:Ef; [|apply below_refl].
  pose proof (findOp_monotone _ _ _ JumpTable_monotone Ef I I' HI) as Ho.
  destruct (validateStack o (fr_stack fr)); [apply below_refl|]. apply below_bind; [apply below_refl|]. intros [err|]; [apply below_refl|].
  apply below_bind; [apply below_refl|]. intros [err|fr']; [apply below_refl|]. apply below_bind; [apply Ho|]. intros. apply below_refl.
Qed.

Lemma enter_below (l l' : Frame → X outcome) : (∀ fr, below (l fr) (l' fr)) → below_interp (enter l) (enter l').
Proof.
  intros H c input ro. unfold enter. repeat (apply below_bind; [apply below_refl|intros]).
  apply below_bind; [destruct (decide _); [apply below_refl|apply H]|]. intros. apply below_refl.
Qed.

Lemma loop_below_next n fr : below (loop db cx rules cfg n fr) (loop db cx rules cfg (S n) fr).
Proof.
  revert fr. induction n as [|n IH]; intros fr; [intros e; by left|].
  change (below (r ← step db cx rules cfg (enter (loop db cx rules cfg n)) fr; match r with inl fr => loop db cx rules cfg n fr | inr out => mret out end)
    (r ← step db cx rules cfg (enter (loop db cx rules cfg (S n))) fr; match r with inl fr => loop db cx rules cfg (S n) fr | inr out => mret out end)).
  apply below_bind; [by apply step_below, enter_below|]. intros [fr'|out]; [apply IH|apply below_refl].
Qed.

Lemma loop_below n m fr : (n ≤ m)%nat → below (loop db cx rules cfg n fr) (loop db cx rules cfg m fr).
Proof.
  induction 1 as [|m _ IH]; [apply below_refl|]. eapply below_trans; [exact IH|apply loop_below_next].
Qed.

Lemma Run_below n m : (n ≤ m)%nat → below_interp (Run db cx rules cfg n) (Run db cx rules cfg m).
Proof. intros H. apply enter_below. intros fr. by apply loop_below. Qed.
End fuel.
