(* ===== verification/EvmPrecompiled.v ===== *)
(** * EvmPrecompiled: the precompiled contracts

    src/core/vm/contracts.go and verifyHeader.go: prices and results of the contracts at
    the addresses 1 to 8 and 99.  The cryptography they call (sha256, ripemd160,
    secp256k1, the bn256 curve, ethash) and the RLP decoder are parameters.  [None] is a
    panic. *)

From S2P Require Import Prelude Bytes Crypto EvmWord EvmMemory EvmState.

Local Open Scope Z_scope.

(** The largest slice the runtime allocates. *)
Definition maxAlloc : Z := 2 ^ 48.

(** [header] of verifyHeader.go, as [rlp.DecodeBytes] leaves it: a pointer that was not
    reached is nil. *)
Record EthHeader := mkEthHeader {
  eh_ParentHash : Hash; eh_UncleHash : Hash; eh_Coinbase : Address; eh_Root : Hash; eh_TxHash : Hash;
  eh_ReceiptHash : Hash; eh_Bloom : bytes; eh_Difficulty : option Z; eh_Number : option Z;
  eh_GasLimit : Z; eh_GasUsed : Z; eh_Time : option Z; eh_Extra : bytes; eh_MixDigest : bytes; eh_Nonce : bytes
}.

Definition bytes_of (n : nat) (b : bytes) : Prop := Forall byte_ok b ∧ length b = n.

Class Primitives := {
  Sum256 : bytes → bytes;
  Sum256_ok b : bytes_of 32 (Sum256 b);
  ripemd160_Sum : bytes → bytes;
  ripemd160_ok b : bytes_of 20 (ripemd160_Sum b);
  Ecrecover : bytes → bytes → option bytes;
  G1 : Type;
  G2 : Type;
  G1_Unmarshal : bytes → option G1;
  G2_Unmarshal : bytes → option G2;
  G1_Marshal : G1 → bytes;
  G1_Marshal_ok p : bytes_of 64 (G1_Marshal p);
  G1_Add : G1 → G1 → G1;
  G1_ScalarMult : G1 → Z → G1;
  PairingCheck : list G1 → list G2 → bool;
  DecodeHeader : bytes → EthHeader;
  (* the light hash with the cache and the size of the dataset of a block number, which
     for a large number cannot be allocated *)
  HashimotoLight : Z → Hash → Z → option (bytes * bytes)
}.

Definition EcrecoverGas : Z := 3000.
Definition Ripemd160BaseGas : Z := 600.
Definition Ripemd160PerWordGas : Z := 120.
Definition IdentityBaseGas : Z := 15.
Definition IdentityPerWordGas : Z := 3.
Definition ModExpQuadCoeffDiv : Z := 20.
Definition Bn256AddGas : Z := 500.
Definition Bn256ScalarMulGas : Z := 40000.
Definition Bn256PairingBaseGas : Z := 100000.
Definition Bn256PairingPerPointGas : Z := 80000.

(** Padding; [make] panics beyond what can be allocated. *)
Definition rightPad (slice : bytes) (l : Z) : option bytes :=
  if l <=? Z.of_nat (length slice) then Some slice
  else if maxAlloc <? l then None
  else Some (slice ++ replicate (Z.to_nat l - length slice) 0).
Definition LeftPadBytes (slice : bytes) (l : Z) : option bytes :=
  if l <=? Z.of_nat (length slice) then Some slice
  else if maxAlloc <? l then None
  else Some (replicate (Z.to_nat l - length slice) 0 ++ slice).

(** [int(x)] of a [uint64]. *)
Definition as_int (x : Z) : Z := Big_Int64 x.

Definition getData (data : bytes) (start size : Z) : option bytes :=
  let length_ := Z.of_nat (length data) in
  let start := Z.min start length_ in
  let end_ := Z.min (add64 start size) length_ in
  if end_ <? start then None
  else rightPad (take (Z.to_nat (end_ - start)) (drop (Z.to_nat start) data)) (as_int size).

Definition wordPrice (perWord base : Z) (input : bytes) : Z :=
  add64 (mul64 (u64 (Z.of_nat (length input) + 31) `div` 32) perWord) base.

(** src/crypto/crypto.go *)
Definition secp256k1N : Z := 0xfffffffffffffffffffffffffffffffebaaedce6af48a03bbfd25e8cd0364141.
Definition secp256k1halfN : Z := secp256k1N `div` 2.
Definition ValidateSignatureValues (v r s : Z) (homestead : bool) : bool :=
  if (r <? 1) || (s <? 1) then false
  else if homestead && (secp256k1halfN <? s) then false
  else (r <? secp256k1N) && (s <? secp256k1N) && ((v =? 0) || (v =? 1)).

Definition allZero (b : bytes) : bool := forallb (λ x, x =? 0) b.

Section contracts.
Context `{CR : Crypto} `{PR : Primitives}.

Definition ecrecover_Run (input : bytes) : option (bytes + unit) :=
  input ← rightPad input 128;
  let r := be_int (take 32 (drop 64 input)) in
  let s := be_int (take 32 (drop 96 input)) in
  v ← input !! 63%nat;
  let v := (v - 27) `mod` 256 in
  if negb (allZero (take 31 (drop 32 input))) || negb (ValidateSignatureValues v r s false) then Some (inl [])
  else
    match Ecrecover (take 32 input) (take 64 (drop 64 input) ++ [v]) with
    | None => Some (inl [])
    | Some pubKey => ret ← LeftPadBytes (drop 12 (Hash_Bytes (keccak256 (drop 1 pubKey)))) 32; Some (inl ret)
    end.

Definition ripemd160hash_Run (input : bytes) : option (bytes + unit) :=
  ret ← LeftPadBytes (ripemd160_Sum input) 32; Some (inl ret).

(** *** bigModExp *)

Definition bigModExp_RequiredGas (input : bytes) : option Z :=
  baseLen ← be_int <$> getData input 0 32;
  expLen ← be_int <$> getData input 32 32;
  modLen ← be_int <$> getData input 64 32;
  let input := drop 96 input in
  expHead ← (if Z.of_nat (length input) <=? baseLen then Some 0
             else be_int <$> getData input (Big_Uint64 baseLen) (if 32 <? expLen then 32 else Big_Uint64 expLen));
  let msb := if 0 <? BitLen expHead then BitLen expHead - 1 else 0 in
  let adjExpLen := (if 32 <? expLen then 8 * (expLen - 32) else 0) + msb in
  let gas := Z.max modLen baseLen in
  let gas :=
    if gas <=? 64 then gas * gas
    else if gas <=? 1024 then (gas * gas) `div` 4 + (96 * gas - 3072)
    else (gas * gas) `div` 16 + (480 * gas - 199680) in
  let gas := (gas * Z.max adjExpLen 1) `div` ModExpQuadCoeffDiv in
  Some (if 64 <? BitLen gas then 2 ^ 64 - 1 else Big_Uint64 gas).

Definition bigModExp_Run (input : bytes) : option (bytes + unit) :=
  baseLen ← (λ b, Big_Uint64 (be_int b)) <$> getData input 0 32;
  expLen ← (λ b, Big_Uint64 (be_int b)) <$> getData input 32 32;
  modLen ← (λ b, Big_Uint64 (be_int b)) <$> getData input 64 32;
  let input := drop 96 input in
  if (baseLen =? 0) && (modLen =? 0) then Some (inl [])
  else
    base ← be_int <$> getData input 0 baseLen;
    exp ← be_int <$> getData input baseLen expLen;
    mod_ ← be_int <$> getData input (add64 baseLen expLen) modLen;
    ret ← LeftPadBytes (if BitLen mod_ =? 0 then [] else big_bytes ((base ^ exp) `mod` mod_)) (as_int modLen);
    Some (inl ret).

(** *** bn256 *)

(** An error of the curve ends a contract without a result. *)
Definition orError {A B : Type} (o : option A) (k : A → option (B + unit)) : option (B + unit) :=
  match o with Some a => k a | None => Some (inr tt) end.

Definition bn256Add_Run (input : bytes) : option (bytes + unit) :=
  b ← getData input 0 64;
  orError (G1_Unmarshal b) (λ x,
  b ← getData input 64 64;
  orError (G1_Unmarshal b) (λ y, Some (inl (G1_Marshal (G1_Add x y))))).

Definition bn256ScalarMul_Run (input : bytes) : option (bytes + unit) :=
  b ← getData input 0 64;
  orError (G1_Unmarshal b) (λ p,
  k ← getData input 64 32;
  Some (inl (G1_Marshal (G1_ScalarMult p (be_int k))))).

Definition true32Byte : bytes := replicate 31 0 ++ [1].
Definition false32Byte : bytes := replicate 32 0.

(** The loop over the points; an error ends it. *)
Fixpoint pairs (fuel : nat) (input : bytes) : option (list G1 * list G2) :=
  match fuel, input with
  | S fuel, _ :: _ =>
      c ← G1_Unmarshal (take 64 input);
      t ← G2_Unmarshal (take 128 (drop 64 input));
      '(cs, ts) ← pairs fuel (drop 192 input);
      Some (c :: cs, t :: ts)
  | _, _ => Some ([], [])
  end.

Definition bn256Pairing_Run (input : bytes) : option (bytes + unit) :=
  if (0 <? length input `mod` 192)%nat then Some (inr tt)
  else
    match pairs (length input) input with
    | None => Some (inr tt)
    | Some (cs, ts) => Some (inl (if PairingCheck cs ts then true32Byte else false32Byte))
    end.

(** *** verifyHeader *)

Definition hashNoNonce (h : EthHeader) : Hash :=
  keccak256 (rlp_list [RArr (Hash_Bytes (eh_ParentHash h)); RArr (Hash_Bytes (eh_UncleHash h)); RArr (Address_Bytes (eh_Coinbase h));
    RArr (Hash_Bytes (eh_Root h)); RArr (Hash_Bytes (eh_TxHash h)); RArr (Hash_Bytes (eh_ReceiptHash h)); RArr (eh_Bloom h);
    RBig (default 0 (eh_Difficulty h)); RBig (default 0 (eh_Number h)); RUint (eh_GasLimit h); RUint (eh_GasUsed h);
    RBig (default 0 (eh_Time h)); RArr (eh_Extra h)]).

Definition maxUint256 : Z := 2 ^ 256.

(** A nil number, a short nonce and a nil or zero difficulty are panics. *)
Definition verify (data : bytes) : option bool :=
  let head := DecodeHeader data in
  number ← eh_Number head;
  nonce ← (if (8 <=? length (eh_Nonce head))%nat then Some (be_int (take 8 (eh_Nonce head))) else None);
  '(digest, result) ← HashimotoLight (Big_Uint64 number) (hashNoNonce head) nonce;
  if negb (bool_decide (eh_MixDigest head = digest)) then Some false
  else
    difficulty ← eh_Difficulty head;
    if difficulty =? 0 then None
    else Some (negb (Z.quot maxUint256 difficulty <? be_int result)).

Definition verifyHeader_Run (input : bytes) : option (bytes + unit) :=
  if (length input <? 32)%nat then None
  else (λ ok : bool, inl (if ok then true32Byte else replicate 31 0 ++ [2])) <$> verify (drop 32 input).

(** *** The sets *)

Definition ecrecover : Precompiled := mkPrecompiled (λ _, EcrecoverGas) ecrecover_Run.
Definition sha256hash : Precompiled := mkPrecompiled (wordPrice Sha256PerWordGas Sha256BaseGas) (λ input, Some (inl (Sum256 input))).
Definition ripemd160hash : Precompiled := mkPrecompiled (wordPrice Ripemd160PerWordGas Ripemd160BaseGas) ripemd160hash_Run.
Definition dataCopy : Precompiled := mkPrecompiled (wordPrice IdentityPerWordGas IdentityBaseGas) (λ input, Some (inl input)).
Definition bigModExp : Precompiled := mkPrecompiled (λ input, default 0 (bigModExp_RequiredGas input)) bigModExp_Run.
Definition bn256Add : Precompiled := mkPrecompiled (λ _, Bn256AddGas) bn256Add_Run.
Definition bn256ScalarMul : Precompiled := mkPrecompiled (λ _, Bn256ScalarMulGas) bn256ScalarMul_Run.
Definition pairingPrice (input : bytes) : Z :=
  add64 Bn256PairingBaseGas (mul64 (u64 (Z.of_nat (length input) `div` 192)) Bn256PairingPerPointGas).
Definition bn256Pairing : Precompiled := mkPrecompiled pairingPrice bn256Pairing_Run.
Definition verifyHeader : Precompiled := mkPrecompiled pairingPrice verifyHeader_Run.

Definition PrecompiledContractsHomestead : list (Address * Precompiled) :=
  [(1, ecrecover); (2, sha256hash); (3, ripemd160hash); (4, dataCopy); (99, verifyHeader)].
Definition PrecompiledContractsByzantium : list (Address * Precompiled) :=
  [(1, ecrecover); (2, sha256hash); (3, ripemd160hash); (4, dataCopy); (5, bigModExp); (6, bn256Add);
   (7, bn256ScalarMul); (8, bn256Pairing); (99, verifyHeader)].

Fixpoint findContract (addr : Address) (l : list (Address * Precompiled)) : option Precompiled :=
  match l with
  | [] => None
  | (a, p) :: l => if a =? addr then Some p else findContract addr l
  end.

Definition contractsAt (byzantium : bool) (addr : Address) : option Precompiled :=
  findContract addr (if byzantium then PrecompiledContractsByzantium else PrecompiledContractsHomestead).
End contracts.

(** ** Facts *)

Lemma zeros_ok n : Forall byte_ok (replicate n 0).
Proof. apply Forall_replicate. unfold byte_ok. lia. Qed.
#[local] Hint Resolve zeros_ok : kal.

Lemma rightPad_ok b l r : code_ok b → rightPad b l = Some r → code_ok r.
Proof.
  intros [Hb Hl]. unfold rightPad, maxAlloc. destruct (Z.leb_spec l (Z.of_nat (length b))); [by intros [= <-]|].
  destruct (Z.ltb_spec (2 ^ 48) l); [done|]. intros [= <-]. split; [apply Forall_app; split; auto with kal|].
  rewrite length_app, length_replicate. lia.
Qed.

Lemma LeftPadBytes_ok b l r : code_ok b → LeftPadBytes b l = Some r → code_ok r.
Proof.
  intros [Hb Hl]. unfold LeftPadBytes, maxAlloc. destruct (Z.leb_spec l (Z.of_nat (length b))); [by intros [= <-]|].
  destruct (Z.ltb_spec (2 ^ 48) l); [done|]. intros [= <-]. split; [apply Forall_app; split; auto with kal|].
  rewrite length_app, length_replicate. lia.
Qed.

Lemma getData_ok b start size r : code_ok b → getData b start size = Some r → code_ok r.
Proof.
  intros [Hb Hl]. unfold getData. case_match; [done|]. apply rightPad_ok. split; [by apply Forall_take, Forall_drop|].
  rewrite length_take, length_drop. lia.
Qed.

Lemma as_int_small x : 0 ≤ x < 2 ^ 63 → as_int x = x.
Proof. intros Hx. unfold as_int, Big_Int64, u64. rewrite Z.mod_small by lia. case_cmp; lia. Qed.

(** The part of the data that is there, padded with zeros. *)
Lemma getData_small b start size : Z.of_nat (length b) < 2 ^ 62 → 0 ≤ start → 0 ≤ size ≤ maxAlloc →
  ∃ r, getData b start size = Some r ∧ length r = Z.to_nat size.
Proof.
  unfold maxAlloc. intros Hl Hs Hz. unfold getData.
  assert (Hadd : add64 (Z.min start (Z.of_nat (length b))) size = Z.min start (Z.of_nat (length b)) + size).
  { unfold add64, u64. apply Z.mod_small. lia. }
  rewrite Hadd, as_int_small by lia. case_cmp; [lia|].
  unfold rightPad, maxAlloc. set (t := take _ _).
  assert (Ht : (length t ≤ Z.to_nat size)%nat) by (unfold t; rewrite length_take; lia).
  case_cmp; [lia|]. case_cmp; [eexists; split; [reflexivity|lia]|].
  eexists. split; [reflexivity|]. rewrite length_app, length_replicate. lia.
Qed.

Lemma getData_app a b c : Z.of_nat (length (a ++ b ++ c)) < 2 ^ 62 →
  getData (a ++ b ++ c) (Z.of_nat (length a)) (Z.of_nat (length b)) = Some b.
Proof.
  rewrite !length_app. intros Hl. unfold getData. rewrite !length_app.
  rewrite (Z.min_l (Z.of_nat (length a))) by lia. unfold add64, u64. rewrite Z.mod_small by lia. rewrite Z.min_l by lia.
  case_cmp; [lia|]. rewrite as_int_small by lia.
  rewrite Nat2Z.id, drop_app_length. replace (Z.to_nat _) with (length b) by lia.
  rewrite take_app_length. unfold rightPad. by rewrite Z.leb_refl.
Qed.

Lemma Hash_Bytes_ok h : bytes_of 32 (Hash_Bytes h).
Proof. split; [unfold Hash_Bytes; auto with kal | apply length_be_bytes]. Qed.

Lemma bytes_of_code n b : bytes_of n b → Z.of_nat n < 2 ^ 62 → code_ok b.
Proof. intros [Hb Hn] Hl. split; [done|lia]. Qed.

(** What a big number modulo another takes is no more than the bytes of the other. *)
Lemma length_mod_bytes x m : Forall byte_ok m → be_int m ≠ 0 → (length (big_bytes (x `mod` be_int m)) ≤ length m)%nat.
Proof.
  intros Hm Hz. pose proof (be_int_bound m Hm). apply length_big_bytes_short.
  pose proof (Z.mod_pos_bound x (be_int m) ltac:(lia)). lia.
Qed.

Lemma BitLen_zero x : (BitLen x =? 0) = (x =? 0).
Proof.
  unfold BitLen. destruct (Z.eqb_spec x 0); [done|]. pose proof (Z.log2_nonneg (Z.abs x)). apply Z.eqb_neq. lia.
Qed.

(** A number within the given count of bytes, padded to it. *)
Lemma LeftPadBytes_int n x : 0 ≤ x < 256 ^ Z.of_nat n → Z.of_nat n ≤ maxAlloc →
  LeftPadBytes (big_bytes x) (Z.of_nat n) = Some (be_bytes n x).
Proof.
  intros Hx Hn. pose proof (length_big_bytes_short n x Hx) as Hl. unfold LeftPadBytes.
  assert (Hpad : replicate (n - length (big_bytes x)) 0 ++ big_bytes x = be_bytes n x).
  { apply be_int_inj; [apply Forall_app; split; auto using big_bytes_ok with kal | auto with kal | |].
    - rewrite length_app, length_replicate, length_be_bytes. lia.
    - rewrite be_int_app, be_int_big_bytes, be_int_be_bytes_id by lia.
      rewrite be_int_zeros. lia. }
  case_cmp; [lia|]. case_cmp; [|by rewrite Nat2Z.id, Hpad].
  f_equal. rewrite <- Hpad. by replace (n - _)%nat with 0%nat by lia.
Qed.

Section facts.
Context `{CR : Crypto} `{PR : Primitives}.

Lemma small_code b : Forall byte_ok b → (length b ≤ 32)%nat → code_ok b.
Proof. intros Hb Hl. split; [done|lia]. Qed.

Lemma ecrecover_ok input ret : ecrecover_Run input = Some (inl ret) → code_ok ret.
Proof.
  unfold ecrecover_Run. intros H. apply bind_Some in H as (i & _ & H). cbn zeta in H.
  apply bind_Some in H as (v & _ & H). case_match; [injection H as <-; by split|].
  destruct (Ecrecover _ _) as [pk|]; [|injection H as <-; by split]. apply bind_Some in H as (r & Hr & [= <-]).
  eapply LeftPadBytes_ok; [|exact Hr]. apply small_code; [apply Forall_drop; apply Hash_Bytes_ok|].
  rewrite length_drop. destruct (Hash_Bytes_ok (keccak256 (drop 1 pk))) as [_ E]. lia.
Qed.

Lemma ripemd160hash_ok input ret : ripemd160hash_Run input = Some (inl ret) → code_ok ret.
Proof.
  unfold ripemd160hash_Run. intros H. apply bind_Some in H as (r & Hr & [= <-]).
  eapply LeftPadBytes_ok; [|exact Hr]. destruct (ripemd160_ok input). apply small_code; [done|lia].
Qed.

Lemma bigModExp_ok input ret : code_ok input → bigModExp_Run input = Some (inl ret) → code_ok ret.
Proof.
  intros Hin H. unfold bigModExp_Run in H.
  do 3 (apply bind_Some in H as (? & _ & H)). cbn zeta in H.
  assert (Hd : code_ok (drop 96 input)) by (destruct Hin; split; [by apply Forall_drop | rewrite length_drop; lia]).
  case_match; [injection H as <-; by split|].
  apply bind_Some in H as (b & _ & H). apply bind_Some in H as (e & _ & H). apply bind_Some in H as (m & Hm & H).
  apply bind_Some in H as (r & Hr & [= <-]). eapply LeftPadBytes_ok; [|exact Hr]. clear Hr.
  rewrite BitLen_zero. case_cmp; [by split|].
  apply fmap_Some in Hm as (mb & Hmb & ->). apply getData_ok in Hmb as [Hb Hl]; [|exact Hd].
  split; [apply big_bytes_ok|]. pose proof (length_mod_bytes (b ^ e) mb Hb). lia.
Qed.

Lemma bn256_ok input ret :
  bn256Add_Run input = Some (inl ret) ∨ bn256ScalarMul_Run input = Some (inl ret) → code_ok ret.
Proof.
  assert (Hm : ∀ p, code_ok (G1_Marshal p)) by (intros p; eapply bytes_of_code; [apply G1_Marshal_ok | lia]).
  intros [H|H]; apply bind_Some in H as (x & _ & H); unfold orError in H; case_match; try done;
    apply bind_Some in H as (y & _ & H); [unfold orError in H; case_match; [|done]|]; by injection H as <-.
Qed.

Lemma flag_ok x : byte_ok x → code_ok (replicate 31 0 ++ [x]).
Proof. intros Hx. apply small_code; [|done]. apply Forall_app. split; [apply zeros_ok | by constructor]. Qed.

Lemma bn256Pairing_ok input ret : bn256Pairing_Run input = Some (inl ret) → code_ok ret.
Proof.
  unfold bn256Pairing_Run. case_match; [done|]. case_match; [|done]. case_match. intros [= <-].
  case_match; [by apply flag_ok | by apply (flag_ok 0)].
Qed.

Lemma verifyHeader_ok input ret : verifyHeader_Run input = Some (inl ret) → code_ok ret.
Proof.
  intros H. unfold verifyHeader_Run in H. case_match; [done|]. apply fmap_Some in H as (ok & _ & [= ->]).
  case_match; by apply flag_ok.
Qed.

Lemma wordPrice_u64 p b input : is_u64 (wordPrice p b input).
Proof. apply u64_range. Qed.

Lemma pairingPrice_u64 input : is_u64 (pairingPrice input).
Proof. apply u64_range. Qed.

Lemma bigModExp_u64 input : is_u64 (default 0 (bigModExp_RequiredGas input)).
Proof.
  destruct (bigModExp_RequiredGas input) as [g|] eqn:E; [|unfold is_u64; simpl; lia].
  unfold bigModExp_RequiredGas in E. do 4 (apply bind_Some in E as (? & _ & E); cbn zeta in E).
  injection E as <-. cbn [from_option]. unfold id. destruct (64 <? _); [unfold is_u64; lia | apply u64_range].
Qed.

(** The price of a contract is found without a panic. *)
Lemma bigModExp_price input : code_ok input → bigModExp_RequiredGas input ≠ None.
Proof.
  intros [Hb Hl] H. unfold bigModExp_RequiredGas in H.
  destruct (getData_small input 0 32 Hl ltac:(lia) ltac:(unfold maxAlloc; lia)) as (b1 & E1 & _).
  destruct (getData_small input 32 32 Hl ltac:(lia) ltac:(unfold maxAlloc; lia)) as (b2 & E2 & _).
  destruct (getData_small input 64 32 Hl ltac:(lia) ltac:(unfold maxAlloc; lia)) as (b3 & E3 & _).
  rewrite E1, E2, E3 in H. cbn [mbind option_bind fmap option_fmap option_map] in H. cbn zeta in H.
  destruct (_ <=? be_int b1); [done|].
  assert (He : 0 ≤ (if 32 <? be_int b2 then 32 else Big_Uint64 (be_int b2)) ≤ maxAlloc).
  { unfold maxAlloc, Big_Uint64, u64. case_cmp; [lia|].
    pose proof (getData_ok input 32 32 b2 (conj Hb Hl) E2) as [Hb2 _]. pose proof (be_int_bound b2 Hb2).
    rewrite Z.mod_small; lia. }
  destruct (getData_small (drop 96 input) (Big_Uint64 (be_int b1)) _ ltac:(rewrite length_drop; lia)
              ltac:(apply Z.mod_pos_bound; lia) He) as (b4 & E4 & _).
  by rewrite E4 in H.
Qed.

Lemma findContract_all (P : Precompiled → Prop) l a p : Forall (λ c, P (snd c)) l → findContract a l = Some p → P p.
Proof.
  induction 1 as [|[b q] l Hq Hl IH]; [done|]. cbn [findContract]. case_match; [by intros [= <-] | exact IH].
Qed.

Lemma contractsAt_all (P : Precompiled → Prop) byz a p :
  Forall P [ecrecover; sha256hash; ripemd160hash; dataCopy; bigModExp; bn256Add; bn256ScalarMul; bn256Pairing; verifyHeader] →
  contractsAt byz a = Some p → P p.
Proof.
  intros HP. rewrite !Forall_cons in HP. apply findContract_all.
  destruct byz; unfold PrecompiledContractsByzantium, PrecompiledContractsHomestead; rewrite !Forall_cons; naive_solver.
Qed.

#[local] Program Instance contracts : Precompiles := { PrecompiledContracts := contractsAt }.
Next Obligation.
  intros byz a p input. apply (contractsAt_all (λ p, is_u64 (pc_RequiredGas p input))). repeat constructor;
    first [ apply wordPrice_u64 | apply bigModExp_u64 | apply pairingPrice_u64 | by vm_compute ].
Qed.
Next Obligation.
  intros byz a p input ret H Hin. revert H.
  apply (contractsAt_all (λ p, pc_Run p input = Some (inl ret) → code_ok ret)). rewrite !Forall_cons.
  split_and!; [apply ecrecover_ok | | apply ripemd160hash_ok | by intros [= <-] | by apply bigModExp_ok
    | by intros; apply (bn256_ok input); left | by intros; apply (bn256_ok input); right
    | apply bn256Pairing_ok | apply verifyHeader_ok | done].
  intros [= <-]. eapply bytes_of_code; [apply Sum256_ok | lia].
Qed.
(** What a caller of the modular exponentiation passes: the three lengths, as words, and
    the three numbers. *)
Definition modexpInput (B E M : bytes) : bytes :=
  (be_bytes 32 (Z.of_nat (length B)) ++ be_bytes 32 (Z.of_nat (length E)) ++ be_bytes 32 (Z.of_nat (length M)))
  ++ B ++ E ++ M.

Lemma drop_header (h b : bytes) n : length h = n → drop n (h ++ b) = b.
Proof. intros <-. apply drop_app_length. Qed.

Lemma modexp_lengths B E M : let input := modexpInput B E M in Z.of_nat (length (B ++ E ++ M)) < 2 ^ 40 →
  getData input 0 32 = Some (be_bytes 32 (Z.of_nat (length B))) ∧
  getData input 32 32 = Some (be_bytes 32 (Z.of_nat (length E))) ∧
  getData input 64 32 = Some (be_bytes 32 (Z.of_nat (length M))).
Proof.
  intros input Hl. set (b := be_bytes 32 (Z.of_nat (length B))). set (e := be_bytes 32 (Z.of_nat (length E))).
  set (m := be_bytes 32 (Z.of_nat (length M))). set (t := B ++ E ++ M) in *.
  assert (Hb : length b = 32%nat) by apply length_be_bytes. assert (He : length e = 32%nat) by apply length_be_bytes.
  assert (Hm : length m = 32%nat) by apply length_be_bytes.
  assert (Hin : input = b ++ e ++ m ++ t) by (unfold input, modexpInput; by rewrite <- !app_assoc).
  rewrite Hin. split_and!.
  - pose proof (getData_app [] b (e ++ m ++ t)) as H. rewrite Hb in H. apply H. rewrite !length_app in *. simpl. lia.
  - pose proof (getData_app b e (m ++ t)) as H. rewrite Hb, He in H. apply H. rewrite !length_app in *. lia.
  - pose proof (getData_app (b ++ e) m t) as H. rewrite <- app_assoc, (length_app b e), Hb, He, Hm in H.
    apply H. rewrite !length_app in *. lia.
Qed.

Lemma word_length n : Z.of_nat n < 2 ^ 40 → Big_Uint64 (be_int (be_bytes 32 (Z.of_nat n))) = Z.of_nat n.
Proof.
  intros Hn. rewrite be_int_be_bytes_id; [apply u64_id; unfold is_u64; lia|].
  split; [lia|]. apply Z.lt_trans with (2 ^ 40); [done|by vm_compute].
Qed.

(** The contract at address 5 computes the modular power: called with the lengths of
    three numbers and the numbers, it returns base ^ exponent mod modulus in as many bytes
    as the modulus was given in, and zero for a zero modulus. *)
Theorem modexp_computes B E M : Forall byte_ok (B ++ E ++ M) → Z.of_nat (length (B ++ E ++ M)) < 2 ^ 40 →
  bigModExp_Run (modexpInput B E M) =
    Some (inl (be_bytes (length M) (if be_int M =? 0 then 0 else (be_int B ^ be_int E) `mod` be_int M))).
Proof.
  intros Hok Hl. destruct (modexp_lengths B E M Hl) as (E1 & E2 & E3).
  rewrite !Forall_app in Hok. destruct Hok as (HB & HE & HM).
  pose proof (getData_app [] B (E ++ M)) as D1. pose proof (getData_app B E M) as D2.
  pose proof (getData_app (B ++ E) M []) as D3. rewrite app_nil_r, <- app_assoc in D3.
  assert (Hb : Z.of_nat (length (B ++ E ++ M)) < 2 ^ 62) by lia.
  specialize (D1 Hb). specialize (D2 Hb). specialize (D3 Hb). clear Hb.
  rewrite !length_app in Hl. unfold bigModExp_Run. rewrite E1, E2, E3. cbn [mbind option_bind fmap option_fmap option_map].
  rewrite !word_length by lia. cbn zeta. unfold modexpInput at 1 2 3. rewrite drop_header by by rewrite !length_app, !length_be_bytes.
  destruct ((Z.of_nat (length B) =? 0) && (Z.of_nat (length M) =? 0)) eqn:Hz.
  { apply andb_prop in Hz as [_ Hz%Z.eqb_eq]. by replace (length M) with 0%nat by lia. }
  assert (Hadd : add64 (Z.of_nat (length B)) (Z.of_nat (length E)) = Z.of_nat (length (B ++ E)))
    by (rewrite length_app, add64_id; [lia | unfold is_u64; lia]).
  rewrite Hadd. cbn [app length] in D1. change (Z.of_nat 0) with 0 in D1. rewrite D1, D2, D3.
  cbn [mbind option_bind fmap option_fmap option_map]. rewrite BitLen_zero, as_int_small by lia.
  pose proof (be_int_bound M HM) as Hm. pose proof (pow256_pos (length M)).
  set (x := if be_int M =? 0 then 0 else (be_int B ^ be_int E) `mod` be_int M).
  replace (if be_int M =? 0 then [] else _) with (big_bytes x) by (unfold x; by case_cmp).
  rewrite LeftPadBytes_int; [done | | unfold maxAlloc; lia].
  unfold x. case_cmp; [lia|]. pose proof (Z.mod_pos_bound (be_int B ^ be_int E) (be_int M)). lia.
Qed.

Lemma modexp_computes_witness : bigModExp_Run (modexpInput [3] [5] [1; 0]) = Some (inl [0; 243]).
Proof.
  rewrite (modexp_computes [3] [5] [1; 0]); [by vm_compute | repeat constructor; done | by vm_compute].
Defined.

(** [getData] is said to be safe from overflow; its sum wraps around. *)
Lemma getData_wraps : getData [7] 1 (2 ^ 64 - 1) = None.
Proof. by vm_compute. Qed.

(** ** Contracts that panic *)

Lemma modexp_complexity m : 1 ≤ m →
  m ≤ (if m <=? 64 then m * m
       else if m <=? 1024 then (m * m) `div` 4 + (96 * m - 3072)
       else (m * m) `div` 16 + (480 * m - 199680)).
Proof.
  intros Hm. pose proof (Z.div_pos (m * m) 4). pose proof (Z.div_pos (m * m) 16).
  destruct (Z.leb_spec m 64); [nia|]. destruct (Z.leb_spec m 1024); nia.
Qed.

Lemma u64_large x : 0 ≤ x → Big_Uint64 x ≤ x.
Proof. intros Hx. apply Z.mod_le; lia. Qed.

Lemma bigModExp_total input b e m : code_ok input →
  getData input 0 32 = Some b → getData input 32 32 = Some e → getData input 64 32 = Some m →
  bigModExp_Run input = None →
  (Big_Uint64 (be_int b) ≠ 0 ∨ Big_Uint64 (be_int m) ≠ 0) ∧
  (maxAlloc < Big_Uint64 (be_int b) ∨ maxAlloc < Big_Uint64 (be_int e) ∨ maxAlloc < Big_Uint64 (be_int m)).
Proof.
  intros [Hb Hl] E1 E2 E3 H. unfold bigModExp_Run in H. rewrite E1, E2, E3 in H. cbn [mbind option_bind fmap option_fmap option_map] in H.
  cbn zeta in H. set (B := Big_Uint64 (be_int b)) in *. set (E := Big_Uint64 (be_int e)) in *. set (M := Big_Uint64 (be_int m)) in *.
  assert (is_u64 B ∧ is_u64 E ∧ is_u64 M) as (HB & HE & HM) by (split_and!; apply u64_range). unfold is_u64 in *.
  destruct ((B =? 0) && (M =? 0)) eqn:Ez; [done|]. split; [lia|].
  destruct (Z.le_gt_cases B maxAlloc) as [LB|]; [|by left]. destruct (Z.le_gt_cases E maxAlloc) as [LE|]; [|by right; left].
  destruct (Z.le_gt_cases M maxAlloc) as [LM|]; [|by right; right]. exfalso. set (d := drop 96 input) in *.
  assert (Z.of_nat (length d) < 2 ^ 62) as Hd by (unfold d; rewrite length_drop; lia).
  destruct (getData_small d 0 B Hd ltac:(lia) ltac:(lia)) as (x & Ex & _). destruct (getData_small d B E Hd ltac:(lia) ltac:(lia)) as (y & Ey & _).
  destruct (getData_small d (add64 B E) M Hd ltac:(apply u64_range) ltac:(lia)) as (z & Ezz & _).
  rewrite Ex, Ey, Ezz in H. cbn [mbind option_bind fmap option_fmap option_map] in H. unfold maxAlloc in *.
  rewrite as_int_small in H by lia. unfold LeftPadBytes, maxAlloc in H. destruct (_ <=? Z.of_nat _); [done|].
  destruct (Z.ltb_spec (2 ^ 48) M); [lia|done].
Qed.

(** The modular exponentiation asks for more memory than there is only for a price that no
    block pays. *)
Lemma bigModExp_panics input : code_ok input → bigModExp_Run input = None → 2 ^ 43 ≤ pc_RequiredGas bigModExp input.
Proof.
  intros Hin H. cbn [pc_RequiredGas bigModExp]. pose proof (bigModExp_price input Hin) as Hp. pose proof (proj2 Hin) as Hl.
  destruct (getData_small input 0 32 Hl ltac:(lia) ltac:(unfold maxAlloc; lia)) as (b & E1 & _).
  destruct (getData_small input 32 32 Hl ltac:(lia) ltac:(unfold maxAlloc; lia)) as (e & E2 & _).
  destruct (getData_small input 64 32 Hl ltac:(lia) ltac:(unfold maxAlloc; lia)) as (m & E3 & _).
  destruct (bigModExp_total input b e m Hin E1 E2 E3 H) as [Hnz Hbig]. clear H.
  assert (∀ x k, getData input k 32 = Some x → 0 ≤ be_int x) as Hpos.
  { intros x k Ex. apply (be_int_bound x), (getData_ok _ _ _ _ Hin Ex). }
  pose proof (Hpos b _ E1) as B0. pose proof (Hpos e _ E2) as E0. pose proof (Hpos m _ E3) as M0. clear Hpos.
  pose proof (u64_large _ B0) as B1. pose proof (u64_large _ E0) as E1'. pose proof (u64_large _ M0) as M1.
  destruct (bigModExp_RequiredGas input) as [g|] eqn:Eg; [|done]. clear Hp. cbn [from_option]. unfold id.
  unfold bigModExp_RequiredGas in Eg. rewrite E1, E2, E3 in Eg. cbn [mbind option_bind fmap option_fmap option_map] in Eg. cbn zeta in Eg.
  apply bind_Some in Eg as (h & _ & Eg). set (msb := if 0 <? BitLen h then BitLen h - 1 else 0) in *.
  assert (0 ≤ msb) as Hmsb by (unfold msb; destruct (Z.ltb_spec 0 (BitLen h)); lia).
  set (adj := (if 32 <? be_int e then 8 * (be_int e - 32) else 0) + msb) in *. set (k := Z.max (be_int m) (be_int b)) in *.
  assert (0 ≤ Big_Uint64 (be_int b) ∧ 0 ≤ Big_Uint64 (be_int m)) as [? ?] by (split; apply u64_range).
  assert (be_int m ≤ k ∧ be_int b ≤ k) as [? ?] by (unfold k; lia). pose proof (modexp_complexity k ltac:(lia)) as Hc. set (c := if k <=? 64 then _ else _) in *.
  assert (2 ^ 43 ≤ (c * Z.max adj 1) `div` ModExpQuadCoeffDiv) as Hg.
  { apply Z.div_le_lower_bound; [done|]. unfold ModExpQuadCoeffDiv, maxAlloc in *. destruct Hbig as [Hbig|[Hbig|Hbig]]; [nia| |nia].
    assert (8 * (2 ^ 48 - 32) ≤ adj) by (unfold adj; destruct (Z.ltb_spec 32 (be_int e)); lia). nia. }
  injection Eg as <-. revert Hg. generalize ((c * Z.max adj 1) `div` ModExpQuadCoeffDiv). intros gas Hg.
  destruct (Z.ltb_spec 64 (BitLen gas)) as [|Hbl]; [lia|].
  unfold BitLen in Hbl. rewrite (proj2 (Z.eqb_neq gas 0)), Z.abs_eq in Hbl by lia.
  assert (gas < 2 ^ 64) by (apply Z.log2_lt_pow2; lia). unfold Big_Uint64. rewrite u64_id by (unfold is_u64; lia). done.
Qed.

Lemma LeftPadBytes_word b : LeftPadBytes b 32 ≠ None.
Proof. unfold LeftPadBytes. by destruct (_ <=? _). Qed.

Lemma ecrecover_total input : ecrecover_Run input ≠ None.
Proof.
  unfold ecrecover_Run. destruct (rightPad input 128) as [b|] eqn:E; cycle 1.
  { unfold rightPad in E. by destruct (_ <=? _). }
  assert (128 ≤ length b)%nat as Hl.
  { unfold rightPad in E. destruct (Z.leb_spec 128 (Z.of_nat (length input))); injection E as <-; [lia|]. rewrite length_app, length_replicate. lia. }
  cbn [mbind option_bind]. cbn zeta. destruct (lookup_lt_is_Some_2 b 63) as [v ->]; [lia|]. cbn [mbind option_bind].
  destruct (_ || _); [done|]. destruct (Ecrecover _ _) as [pk|]; [|done].
  pose proof (LeftPadBytes_word (drop 12 (Hash_Bytes (keccak256 (drop 1 pk))))) as H. by destruct (LeftPadBytes _ 32).
Qed.

Lemma ripemd160hash_total input : ripemd160hash_Run input ≠ None.
Proof. unfold ripemd160hash_Run. pose proof (LeftPadBytes_word (ripemd160_Sum input)) as H. by destruct (LeftPadBytes _ 32). Qed.

Lemma bn256_total input : code_ok input → bn256Add_Run input ≠ None ∧ bn256ScalarMul_Run input ≠ None.
Proof.
  intros [_ Hl]. unfold bn256Add_Run, bn256ScalarMul_Run, orError.
  destruct (getData_small input 0 64 Hl ltac:(lia) ltac:(unfold maxAlloc; lia)) as (b1 & -> & _).
  destruct (getData_small input 64 64 Hl ltac:(lia) ltac:(unfold maxAlloc; lia)) as (b2 & -> & _).
  destruct (getData_small input 64 32 Hl ltac:(lia) ltac:(unfold maxAlloc; lia)) as (b3 & -> & _).
  cbn [mbind option_bind]. split; repeat case_match; done.
Qed.

Lemma bn256Pairing_total input : bn256Pairing_Run input ≠ None.
Proof. unfold bn256Pairing_Run. by repeat case_match. Qed.

(** The contract at address 99 panics on data that is shorter than a word or is no
    header with a number, a nonce and a difficulty it can work with; apart from it only the
    modular exponentiation does, for a price that no block pays. *)
Theorem contracts_that_panic byz a p input : contractsAt byz a = Some p → code_ok input → pc_Run p input = None →
  (p = verifyHeader ∧ ((length input < 32)%nat ∨ verify (drop 32 input) = None)) ∨ (p = bigModExp ∧ 2 ^ 43 ≤ pc_RequiredGas p input).
Proof.
  intros Hp Hin. revert Hp. apply (contractsAt_all (λ p, pc_Run p input = None →
    (p = verifyHeader ∧ ((length input < 32)%nat ∨ verify (drop 32 input) = None)) ∨ (p = bigModExp ∧ 2 ^ 43 ≤ pc_RequiredGas p input))). destruct (bn256_total input Hin).
  rewrite !Forall_cons. split_and!; cbn [pc_Run ecrecover sha256hash ripemd160hash dataCopy bn256Add bn256ScalarMul bn256Pairing]; try done; intros H'; try done.
  - by apply ecrecover_total in H'.
  - by apply ripemd160hash_total in H'.
  - right. split; [done|]. by apply bigModExp_panics.
  - by apply bn256Pairing_total in H'.
  - left. split; [done|]. cbn [pc_Run verifyHeader] in H'. unfold verifyHeader_Run in H'.
    destruct (Nat.ltb_spec (length input) 32); [by left|right]. by destruct (verify _).
Qed.

(** Data shorter than a word ends the node that runs the contract. *)
Lemma verifyHeader_short input : (length input < 32)%nat → verifyHeader_Run input = None.
Proof. intros H. unfold verifyHeader_Run. by rewrite (proj2 (Nat.ltb_lt _ _) H). Qed.
End facts.
#[export] Existing Instance contracts.

(** ** Toy primitives *)

Module ToyPrimitives.
Lemma zeros_of n : bytes_of n (replicate n 0).
Proof. split; [apply zeros_ok | apply length_replicate]. Qed.

Definition header : EthHeader := mkEthHeader 0 0 0 0 0 0 [] (Some 1) (Some 1) 0 0 (Some 1) [] [] (replicate 8 0).

Definition primitives : Primitives := {|
  Sum256 _ := replicate 32 0; Sum256_ok _ := zeros_of 32;
  ripemd160_Sum _ := replicate 20 0; ripemd160_ok _ := zeros_of 20;
  Ecrecover _ sig := Some (4 :: take 32 sig); G1 := unit; G2 := unit;
  G1_Unmarshal _ := Some tt; G2_Unmarshal _ := Some tt;
  G1_Marshal _ := replicate 64 0; G1_Marshal_ok _ := zeros_of 64;
  G1_Add _ _ := tt; G1_ScalarMult _ _ := tt; PairingCheck _ _ := true;
  DecodeHeader _ := header; HashimotoLight _ _ _ := Some ([], [])
|}.
End ToyPrimitives.
