(* ===== verification/EvmSafety.v ===== *)
(** * EvmSafety: what the virtual machine promises

    Messages to the machine end: with more fuel than gas every call and every creation
    returns, unless a precompiled contract or the refund counter of EIP-1283 panics, and
    which messages make them panic is stated.  A call that fails leaves no trace, a
    static call shows nothing, and no message makes money. *)

From S2P Require Import Prelude Bytes Crypto StateDB SecureTrie StateDBFacts StateDBRevert StateDBView EvmWord EvmCode EvmMemory EvmState EvmCall Evm EvmEffect StateTyped EvmLogic EvmCallFacts EvmRun EvmFuel EvmPrecompiled.

Local Open Scope Z_scope.

(** The four kinds of calls; a delegate call is made by a contract. *)
Inductive message :=
| MCall (caller : ContractRef) (value : Z)
| MCallCode (caller : ContractRef) (value : Z)
| MDelegateCall (self callerAddress : Address) (value : Z)
| MStaticCall (caller : ContractRef).

Definition message_value (m : message) : Z :=
  match m with MCall _ v | MCallCode _ v | MDelegateCall _ _ v => v | MStaticCall _ => 0 end.

Definition message_sender (m : message) : Address :=
  match m with MCall r _ | MCallCode r _ | MStaticCall r => ContractRef_Address r | MDelegateCall self _ _ => self end.

(** A message as Go has it: addresses of 20 bytes, and a value that is not negative. *)
Record proper (m : message) (addr : Address) : Prop := {
  pm_value : 0 ≤ message_value m;
  pm_sender : address_ok (message_sender m);
  pm_addr : address_ok addr
}.

(** The two kinds of creations; the second with its salt. *)
Inductive creation :=
| NCreate
| NCreate2 (salt : Z).

Section safety.
Context `{CR : Crypto} `{SD : StateDatabase} `{PC : Precompiles} (db : Database) (base : StateDB).
Context (cx : VmContext) (rules : Rules) (cfg : VmConfig).

Definition send (fuel : nat) (m : message) (addr : Address) (input : bytes) (gas : Z) : X (bytes * Z * option vmerror) :=
  let I := Run db cx rules cfg fuel in
  match m with
  | MCall caller value => Call db cx rules cfg I caller addr input gas value
  | MCallCode caller value => CallCode db cx rules cfg I caller addr input gas value
  | MDelegateCall self callerAddress value =>
      DelegateCall db cx rules cfg I (ContractCaller self callerAddress value) addr input gas
  | MStaticCall caller => StaticCall db cx rules cfg I caller addr input gas
  end.

Definition found (fuel : nat) (n : creation) (caller : ContractRef) (code : bytes) (gas value : Z) :
    X (bytes * Address * Z * option vmerror) :=
  let I := Run db cx rules cfg fuel in
  match n with
  | NCreate => Create db cx rules cfg I caller code gas value
  | NCreate2 salt => Create2 db cx rules cfg I caller code gas value salt
  end.


Hypothesis Hcx : 0 ≤ vc_GasPrice cx.

Lemma send_runs fuel m addr input gas e :
  good db base e → ev_readOnly e = false → is_u64 gas → gas < Z.of_nat fuel → code_ok input → proper m addr →
  runs db base rules (match m with MStaticCall _ => IsByzantium rules | _ => false end)
    (send fuel m addr input gas) e (λ r e', call_ok db gas e e' r).
Proof.
  intros G Hro Hgas Hf Hi Hv. pose proof (Run_runs db base cx rules cfg Hcx fuel) as HI.
  assert (Hle : gas ≤ Z.of_nat fuel - 1) by lia. assert (Hst : static rules (ev_readOnly e) = false) by by rewrite Hro.
  destruct Hv as [Hv Os Oa]. destruct m; cbn [send message_value message_sender] in *; rewrite <- ?Hst.
  - apply Call_ok with (g := Z.of_nat fuel - 1); try done. by rewrite Hst.
  - by apply CallCode_ok with (g := Z.of_nat fuel - 1).
  - by apply DelegateCall_ok with (g := Z.of_nat fuel - 1).
  - by apply (StaticCall_ok db base cx rules cfg (Z.of_nat fuel - 1)).
Qed.

Lemma found_runs fuel n caller code gas value e :
  ref_ok caller → good db base e → ev_readOnly e = false → is_u64 gas → gas < Z.of_nat fuel → code_ok code → 0 ≤ value →
  runs db base rules false (found fuel n caller code gas value) e (λ r e', create_ok gas e e' r).
Proof.
  intros Oc G Hro Hgas Hf Hi Hv. pose proof (Run_runs db base cx rules cfg Hcx fuel) as HI.
  assert (Hle : gas ≤ Z.of_nat fuel - 1) by lia. assert (Hst : static rules (ev_readOnly e) = false) by by rewrite Hro.
  destruct n; cbn [found].
  - by apply Create_ok with (g := Z.of_nat fuel - 1).
  - by apply Create2_ok with (g := Z.of_nat fuel - 1).
Qed.

Lemma send_below n k m addr input gas : (n ≤ k)%nat → below (send n m addr input gas) (send k m addr input gas).
Proof.
  intros H. pose proof (Run_below db cx rules cfg n k H) as HI.
  destruct m; cbn [send]; [by apply Call_below | by apply CallCode_below | by apply DelegateCall_below | by apply StaticCall_below].
Qed.

Lemma found_below n k m caller code gas value : (n ≤ k)%nat → below (found n m caller code gas value) (found k m caller code gas value).
Proof.
  intros H. pose proof (Run_below db cx rules cfg n k H) as HI.
  destruct m; cbn [found]; [|by apply create_below]. apply below_bind; [apply below_refl|]. intros nonce. by apply create_below.
Qed.

(** The state has been reached by operations from where the transaction began, has
    balances and code that are well-formed, and the machine is not in a static call. *)
Record ready (e : EVM) : Prop := { rd_good : good db base e; rd_writable : ev_readOnly e = false }.

(** C11. Every message to the virtual machine ends: with more fuel than gas, and whatever
    the code of the contracts that run is (loops, calls to any depth, creations,
    destructions), each of the four kinds of calls returns, with no more gas than it was
    given, the depth of the machine as before and a well-formed state, or it ends in one of
    two panics: of a precompiled contract, on the very input the run passed to it, or, by
    the rules of EIP-1283 only, of the counter of refunds.  Fuel is not a limit: with any
    greater amount the run is the same. *)
Theorem messages_end fuel m addr input gas e :
  ready e → is_u64 gas → gas < Z.of_nat fuel → code_ok input → proper m addr →
  (∀ fuel', (fuel ≤ fuel')%nat → send fuel' m addr input gas e = send fuel m addr input gas e) ∧
  match send fuel m addr input gas e with
  | Done (ret, leftGas, _) e' => Forall byte_ok ret ∧ 0 ≤ leftGas ≤ gas ∧ ev_depth e' = ev_depth e ∧ ready e'
  | Crashes w => fault_ok rules w
  | Panics | NoFuel => False
  end.
Proof.
  intros [G Hro] Hgas Hf Hi Hv. pose proof (send_runs fuel m addr input gas e G Hro Hgas Hf Hi Hv) as H.
  split.
  - intros k Hk. destruct (send_below fuel k m addr input gas Hk e) as [E|E]; [|exact E].
    destruct H as [(w & E' & _)|(? & ? & E' & _)]; rewrite E in E'; discriminate E'.
  - destruct H as [(w & -> & ?)|([[ret leftGas] err] & e' & -> & [R1 R2 _] & G' & ([Hr _] & Hl & _))]; [done|].
    split_and!; try done; [apply Hl..|]. split; [done|congruence].
Qed.

(** Every creation of a contract ends in the same way, with the plain and with the
    salted address. *)
Theorem creations_end fuel n caller code gas value e :
  ref_ok caller → ready e → is_u64 gas → gas < Z.of_nat fuel → code_ok code → 0 ≤ value →
  (∀ fuel', (fuel ≤ fuel')%nat → found fuel' n caller code gas value e = found fuel n caller code gas value e) ∧
  match found fuel n caller code gas value e with
  | Done (ret, _, leftGas, _) e' => Forall byte_ok ret ∧ 0 ≤ leftGas ≤ gas ∧ ev_depth e' = ev_depth e ∧ ready e'
  | Crashes w => fault_ok rules w
  | Panics | NoFuel => False
  end.
Proof.
  intros Oc [G Hro] Hgas Hf Hi Hv. pose proof (found_runs fuel n caller code gas value e Oc G Hro Hgas Hf Hi Hv) as H.
  split.
  - intros k Hk. destruct (found_below fuel k n caller code gas value Hk e) as [E|E]; [|exact E].
    destruct H as [(w & E' & _)|(? & ? & E' & _)]; rewrite E in E'; discriminate E'.
  - destruct H as [(w & -> & ?)|([[[ret a] leftGas] err] & e' & -> & [R1 R2 _] & G' & ([Hr _] & Hl & _))]; [done|].
    split_and!; try done; [apply Hl..|]. split; [done|congruence].
Qed.

(** C2. A call that fails, for whatever reason and however deep the calls it made, leaves
    the state as it was: accounts, code, storage, refund, logs and preimages. *)
Theorem failed_message_restores fuel m addr input gas e ret leftGas err e' :
  ready e → is_u64 gas → gas < Z.of_nat fuel → code_ok input → proper m addr →
  send fuel m addr input gas e = Done (ret, leftGas, Some err) e' →
  sim db (ev_StateDB e) (ev_StateDB e').
Proof.
  intros [G Hro] Hgas Hf Hi Hv E. destruct (send_runs fuel m addr input gas e G Hro Hgas Hf Hi Hv) as [(w & E' & _)|(r & e1 & E' & _ & _ & (_ & _ & H))].
  - congruence.
  - rewrite E in E'. injection E' as <- <-. by apply H.
Qed.


(** What a message or a creation leaves. *)
Definition leaves (fuel : nat) (e e' : EVM) : Prop :=
  (∃ m addr input gas r, is_u64 gas ∧ gas < Z.of_nat fuel ∧ code_ok input ∧ proper m addr ∧
     send fuel m addr input gas e = Done r e') ∨
  (∃ n caller code gas value r, ref_ok caller ∧ is_u64 gas ∧ gas < Z.of_nat fuel ∧ code_ok code ∧ 0 ≤ value ∧
     found fuel n caller code gas value e = Done r e').

(** C21. No message and no creation makes money: whatever contracts run, the accounts
    together have at most what they had before (a contract that destroys itself in favour
    of itself burns what it has). *)
Theorem messages_make_no_money fuel e e' :
  ready e → leaves fuel e e' → no_richer (ev_StateDB e) (ev_StateDB e').
Proof.
  intros [G Hro] H. assert (∃ st, reach db st e e') as (st & R).
  { destruct H as [(m & addr & input & gas & r & Hgas & Hf & Hi & Hv & E)|(n & caller & code & gas & value & r & Oc & Hgas & Hf & Hi & Hv & E)].
    - destruct (send_runs fuel m addr input gas e G Hro Hgas Hf Hi Hv) as [(w & E' & _)|(r' & e1 & E' & R & _)]; [congruence|].
      rewrite E in E'. injection E' as <- <-. by eexists.
    - destruct (found_runs fuel n caller code gas value e Oc G Hro Hgas Hf Hi Hv) as [(w & E' & _)|(r' & e1 & E' & R & _)]; [congruence|].
      rewrite E in E'. injection E' as <- <-. by eexists. }
  eapply effect_money; [apply R | apply G | apply G].
Qed.
End safety.

(** ** A state with three contracts

    Account 5 has money.  Contract 16 writes its storage and reverts, contract 17 writes its
    storage and stops, contract 18 sends what it is given to account 9. *)

Module EvmExample.
Import Toy ToyState.
#[export] Existing Instance ToyPrimitives.primitives.

Definition rules : Rules := mkRules true true true true true true.
Definition cx : VmContext := mkVmContext 5 1 9 8000000 10 1 0 7 (λ _, 0) (λ _, 0).
Definition cfg : VmConfig := mkVmConfig false false.
Definition fuel : nat := Z.to_nat 40000.

Definition reverting : bytes := [0x60; 1; 0x60; 0; 0x55; 0x60; 0; 0x60; 0; 0xfd].
Definition keeping : bytes := [0x60; 1; 0x60; 0; 0x55; 0].
Definition paying : bytes := [0x60; 0; 0x60; 0; 0x60; 0; 0x60; 0; 0x34; 0x60; 9; 0x61; 0xff; 0xff; 0xf1; 0].

Definition setup : list op := [opSetCode 16 reverting; opSetCode 17 keeping; opSetCode 18 paying].
Definition funded : StateDB := AddBalance 5 1000000 blank.
Definition state : StateDB := default blank (runOps db setup funded).
Definition evm : EVM := mkEVM state 0 0 false [] 0.

Lemma state_runs : runOps db setup funded = Some state.
Proof. apply default_ran. vm_compute. reflexivity. Qed.

Lemma funded_tracked : tracked db blank funded.
Proof. by apply (runOps_tracked db blank [opAddBalance 5 1000000] blank); [apply fresh_tracked, Example.blank_fresh|]. Qed.

Lemma funded_sane : sane db funded.
Proof.
  intros a Oa. destruct (AddBalance_bal db 5 1000000 blank a (tr_wf _ _ _ (fresh_tracked db _ Example.blank_fresh))) as (E1 & E2 & _).
  unfold funded. rewrite E1, E2. destruct (TypedExample.blank_sane a Oa). split; [destruct (decide _); lia | done].
Qed.

Ltac code_bytes := split; [repeat constructor; by vm_compute | by vm_compute].

Lemma setup_effect : effect db false funded state.
Proof.
  pose proof state_runs as H. unfold setup in H. cbn [runOps] in H.
  destruct (runOp db _ funded) as [s1|] eqn:E1; [|discriminate H]. cbn [mbind option_bind] in H.
  destruct (runOp db _ s1) as [s2|] eqn:E2; [|discriminate H]. cbn [mbind option_bind] in H.
  destruct (runOp db _ s2) as [s3|] eqn:E3; [|discriminate H]. cbn [mbind option_bind] in H. injection H as <-.
  eapply eff_op; [| |exact E1|]; [split; [done|code_bytes]|by vm_compute|].
  eapply eff_op; [| |exact E2|]; [split; [done|code_bytes]|by vm_compute|].
  eapply eff_op; [| |exact E3|]; [split; [done|code_bytes]|by vm_compute|]. constructor.
Qed.

Lemma evm_ready : ready db blank evm.
Proof.
  split; [|done]. split; [| |constructor].
  - exact (proj1 (effect_extends db blank false _ _ setup_effect funded_tracked)).
  - exact (effect_sane db blank false _ _ setup_effect funded_tracked funded_sane).
Qed.

(** What a run returned. *)
Definition result_of {A : Type} (x : exec A) : option A := match x with Done a _ => Some a | _ => None end.
End EvmExample.

Section witnesses.
Import Toy ToyState EvmExample.

Lemma returned {A : Type} (x : exec A) (a : A) : result_of x = Some a → ∃ e, x = Done a e.
Proof. destruct x; intros [= ->]. by eexists. Qed.

Lemma cx_price : 0 ≤ vc_GasPrice cx.
Proof. by vm_compute. Qed.

Lemma small_call addr : 0 <= addr < 100 → proper (MCall (AccountRef 5) 7) addr.
Proof. intros H. split; [done|by vm_compute|]. unfold address_ok. lia. Qed.

Lemma small_static : proper (MStaticCall (AccountRef 5)) 4.
Proof. by split; vm_compute. Qed.

Lemma payer_ok : ref_ok (AccountRef 5).
Proof. by vm_compute. Qed.

Lemma keeping_ok : code_ok keeping.
Proof. code_bytes. Qed.

Lemma pair_ok : code_ok [1; 2].
Proof. code_bytes. Qed.

Lemma three : 0 ≤ 3.
Proof. done. Qed.

Lemma example_gas : is_u64 30000 ∧ 30000 < Z.of_nat fuel.
Proof. split; by vm_compute. Qed.

Lemma messages_end_witness :
  (∀ fuel', (fuel ≤ fuel')%nat →
     send db cx rules cfg fuel' (MCall (AccountRef 5) 7) 17 [] 30000 evm =
     send db cx rules cfg fuel (MCall (AccountRef 5) 7) 17 [] 30000 evm) ∧
  result_of (send db cx rules cfg fuel (MCall (AccountRef 5) 7) 17 [] 30000 evm) = Some ([], 9994, None).
Proof.
  split; [|vm_compute; reflexivity].
  pose proof (messages_end db blank cx rules cfg cx_price fuel (MCall (AccountRef 5) 7) 17 [] 30000 evm
    evm_ready (proj1 example_gas) (proj2 example_gas) code_ok_nil (small_call 17 ltac:(lia))) as H.
  destruct H as [H _]. exact H.
Defined.

Lemma creations_end_witness :
  (∀ fuel', (fuel ≤ fuel')%nat →
     found db cx rules cfg fuel' NCreate (AccountRef 5) keeping 30000 3 evm =
     found db cx rules cfg fuel NCreate (AccountRef 5) keeping 30000 3 evm) ∧
  returns (result_of (found db cx rules cfg fuel NCreate (AccountRef 5) keeping 30000 3 evm)) = true.
Proof.
  split; [|vm_compute; reflexivity].
  pose proof (creations_end db blank cx rules cfg cx_price fuel NCreate (AccountRef 5) keeping 30000 3 evm
    payer_ok evm_ready (proj1 example_gas) (proj2 example_gas) keeping_ok three) as H.
  destruct H as [H _]. exact H.
Defined.

Lemma failed_message_restores_witness :
  ∃ e', send db cx rules cfg fuel (MCall (AccountRef 5) 7) 16 [] 30000 evm =
      Done ([], 9988, Some errExecutionReverted) e' ∧ sim db (ev_StateDB evm) (ev_StateDB e').
Proof.
  destruct (returned (send db cx rules cfg fuel (MCall (AccountRef 5) 7) 16 [] 30000 evm)
    ([], 9988, Some errExecutionReverted)) as (e' & E); [vm_compute; reflexivity|].
  exists e'. split; [exact E|].
  exact (failed_message_restores db blank cx rules cfg cx_price _ (MCall (AccountRef 5) 7) 16 [] 30000 evm _ _ _ e'
    evm_ready (proj1 example_gas) (proj2 example_gas) code_ok_nil (small_call 16 ltac:(lia)) E).
Defined.


Lemma messages_make_no_money_witness :
  ∃ e', send db cx rules cfg fuel (MCall (AccountRef 5) 7) 17 [] 30000 evm = Done ([], 9994, None) e' ∧
    no_richer (ev_StateDB evm) (ev_StateDB e').
Proof.
  destruct (returned (send db cx rules cfg fuel (MCall (AccountRef 5) 7) 17 [] 30000 evm)
    ([], 9994, None)) as (e' & E); [vm_compute; reflexivity|].
  exists e'. split; [exact E|].
  apply (messages_make_no_money db blank cx rules cfg cx_price fuel evm e' evm_ready).
  left. exists (MCall (AccountRef 5) 7), 17, [], 30000, ([], 9994, None).
  split_and!; [apply example_gas.. | apply code_ok_nil | apply small_call; lia | exact E].
Defined.
End witnesses.

(** ** The contract at address 99 *)

Section crash.
Context `{CR : Crypto} `{SD : StateDatabase} `{PR : Primitives} (db : Database) (cx : VmContext) (rules : Rules) (cfg : VmConfig).

Lemma reading_done {A B : Type} (f : StateDB → A * StateDB) (k : A → X B) e :
  (reading f ≫= k) e = k (f (ev_StateDB e)).1 (e <| ev_StateDB := (f (ev_StateDB e)).2 |>).
Proof. unfold mbind, X_bind, reading. by destruct (f (ev_StateDB e)). Qed.

Lemma short_price input : (length input < 32)%nat → pc_RequiredGas verifyHeader input = 100000.
Proof.
  intros H. cbn [pc_RequiredGas verifyHeader]. unfold pairingPrice. by rewrite (Z.div_small (Z.of_nat (length input))) by lia.
Qed.

Lemma run_99_crashes interpret caller addr input gas e : (length input < 32)%nat → 100000 ≤ gas →
  ∀ code hash, run cx rules interpret (SetCallCode (NewContract caller addr 0 gas) 99 hash code) input false e = Crashes (contractFault verifyHeader input).
Proof.
  intros Hi Hg code hash. unfold run.
  replace (ct_CodeAddr (SetCallCode (NewContract caller addr 0 gas) 99 hash code)) with (Some 99) by done.
  cbn [mbind option_bind].
  replace (PrecompiledContracts (IsByzantium rules) 99) with (Some verifyHeader) by (by destruct (IsByzantium rules)).
  unfold RunPrecompiledContract. rewrite short_price by done. unfold UseGas.
  replace (ct_Gas (SetCallCode (NewContract caller addr 0 gas) 99 hash code)) with gas by done.
  rewrite (proj2 (Z.ltb_ge _ _)) by done. cbn [pc_Run verifyHeader]. by rewrite verifyHeader_short.
Qed.

Lemma bind_done {A B : Type} (m : X A) (k : A → X B) e a e' : m e = Done a e' → (m ≫= k) e = k a e'.
Proof. unfold mbind, X_bind. by intros ->. Qed.

Lemma zero_transfers base e caller : address_ok caller → good db base e →
  ∃ e', CanTransfer caller 0 e = Done true e' ∧ same db (ev_StateDB e) (ev_StateDB e') ∧ good db base e'.
Proof.
  intros Oc G. destruct (runs_GetBalance db base rules false caller e (λ b e', b = bal (ev_StateDB e) caller ∧ same db (ev_StateDB e) (ev_StateDB e')) Oc G)
    as [(w & E & _)|(b & e' & E & _ & G' & (-> & S))]; [done| |].
  - unfold reading in E. by destruct (GetBalance caller (ev_StateDB e)).
  - exists e'. split; [|done]. unfold CanTransfer. rewrite (bind_done _ _ _ _ _ E). destruct (gd_sane _ _ _ G caller Oc) as [H _].
    by rewrite (proj2 (Z.leb_le _ _) H).
Qed.

(** The precompiled contract at address 99 ends the node: a call to it with enough gas
    and less than a word of data, from any account and in any state, is a panic, which
    nothing recovers. *)
Lemma header_call_crashes base fuel caller input gas e :
  ref_ok caller → good db base e → ev_depth e = 0 → (length input < 32)%nat → 100000 ≤ gas →
  send db cx rules cfg fuel (MCall caller 0) 99 input gas e = Crashes (contractFault verifyHeader input).
Proof.
  intros Oc G Hd Hi Hg. cbn [send]. unfold Call.
  assert (callGuard cfg e = Done None e) as E by (unfold callGuard, gets, mbind, X_bind; by rewrite Hd, andb_false_r).
  rewrite (bind_done _ _ _ _ _ E). cbv beta iota.
  destruct (zero_transfers base e (ContractRef_Address caller) Oc G) as (e1 & E1 & _ & _). rewrite (bind_done _ _ _ _ _ E1).
  cbv beta iota. cbn [negb]. rewrite !reading_done. cbv beta.
  replace (returns (PrecompiledContracts (IsByzantium rules) 99)) with true by (by destruct (IsByzantium rules)).
  rewrite andb_false_r. cbn [andb]. set (e2 := _ <| ev_StateDB := _ |>). clearbody e2.
  assert (∀ e3, (Transfer (ContractRef_Address caller) 99 0;;
      contract ← withCode db (NewContract caller 99 0 gas) 99;
      r ← run cx rules (Run db cx rules cfg fuel) contract input false;
      finishCall (Snapshot (ev_StateDB e1)).1 r) e3 = Crashes (contractFault verifyHeader input)) as Hrest.
  { intros e3. erewrite bind_done by reflexivity. unfold withCode, mbind, X_bind, mret, X_ret, reading.
    destruct (GetCodeHash 99 _) as [hash s1]. cbv beta iota. destruct (GetCode db 99 _) as [code s2]. cbv beta iota.
    by rewrite run_99_crashes. }
  destruct (Exist 99 _).1; cbn [negb]; erewrite bind_done by reflexivity; apply Hrest.
Qed.

(** What can make a message a panic of the node: the contract at address 99, on data that is
    shorter than a word or no header it can work with; the modular exponentiation, for more
    gas than a block has; the refunds of EIP-1283. *)
Definition fault_cause (w : fault) : Prop :=
  match w with
  | contractFault p input =>
      (p = verifyHeader ∧ ((length input < 32)%nat ∨ verify (drop 32 input) = None)) ∨ (p = bigModExp ∧ 2 ^ 43 ≤ pc_RequiredGas p input)
  | refundFault => IsConstantinople rules = true ∧ IsPetersburg rules = false
  end.

Lemma fault_ok_cause w : fault_ok rules w → fault_cause w.
Proof.
  destruct w as [p input|]; cbn [fault_ok fault_cause].
  - intros ((a & Ha) & Hi & Hp). exact (contracts_that_panic _ a p input Ha Hi Hp).
  - unfold net_metered. by destruct (IsPetersburg rules), (IsConstantinople rules).
Qed.


Lemma Exist_live a s : wf s → (Exist a s).1 = bool_decide (is_Some (live s a)).
Proof.
  intros Hw. unfold Exist. destruct (getStateObject_loads db a s Hw) as (_ & H & _).
  destruct (getStateObject a s) as [o s1]. cbn [fst snd] in *. subst o. by destruct (live s a).
Qed.

(** A call without value to one of the contracts of this chain, getSeed and getRand, does
    not run it as long as nobody has sent money there: the check for an account that does
    not exist asks only for the contracts of Ethereum. *)
Lemma seed_call_skipped base fuel caller addr input gas e :
  ref_ok caller → good db base e → ev_depth e = 0 → IsEIP158 rules = true → addr = 100 ∨ addr = 101 → live (ev_StateDB e) addr = None →
  ∃ e', send db cx rules cfg fuel (MCall caller 0) addr input gas e = Done ([], gas, None) e'.
Proof.
  intros Oc G Hd H158 Ha Hn. cbn [send]. unfold Call.
  assert (callGuard cfg e = Done None e) as E by (unfold callGuard, gets, mbind, X_bind; by rewrite Hd, andb_false_r).
  rewrite (bind_done _ _ _ _ _ E). cbv beta iota.
  destruct (zero_transfers base e (ContractRef_Address caller) Oc G) as (e1 & E1 & S1 & G1). rewrite (bind_done _ _ _ _ _ E1).
  cbv beta iota. cbn [negb]. rewrite !reading_done. cbv beta. upd.
  assert (live (ev_StateDB e1) addr = None) as Hn1.
  { pose proof (si_live _ _ _ (proj1 S1) addr) as H. rewrite Hn in H. by destruct (live (ev_StateDB e1) addr). }
  rewrite (Exist_live addr (Snapshot (ev_StateDB e1)).2) by (apply (Snapshot_tracked db base), (gd_tracked _ _ _ G1)).
  replace (live (Snapshot (ev_StateDB e1)).2 addr) with (live (ev_StateDB e1) addr) by reflexivity. rewrite Hn1. replace (returns (PrecompiledContracts (IsByzantium rules) addr)) with false
    by (destruct (IsByzantium rules), Ha as [->| ->]; reflexivity).
  rewrite H158, bool_decide_false by (by intros [? ?]). cbn [negb andb Z.eqb]. by eexists.
Qed.
End crash.

Section crash_witness.
Import Toy ToyState EvmExample.

Lemma header_call_crashes_witness : send db cx rules cfg fuel (MCall (AccountRef 5) 0) 99 [1; 2] 100000 evm = Crashes (contractFault verifyHeader [1; 2]).
Proof.
  apply (header_call_crashes db cx rules cfg blank fuel (AccountRef 5) [1; 2] 100000 evm payer_ok (rd_good _ _ _ evm_ready) eq_refl).
  - cbn. lia.
  - lia.
Defined.

Lemma call_99_proper : proper (MCall (AccountRef 5) 0) 99.
Proof. by split; vm_compute. Qed.

End crash_witness.
