(* ===== verification/StateTransition.v ===== *)
(** * StateTransition: applying a message

    src/core/state_transition.go and gaspool.go: buying gas, the intrinsic price, the run
    in the virtual machine, the refund and the fee; src/core/syscon/mechanism.go: messages
    whose gas the creator of the called contract pays for. *)

From S2P Require Import Prelude Bytes Crypto StateDB EvmWord EvmCode EvmMemory EvmState EvmGas EvmCall Evm.

Local Open Scope Z_scope.

(** [types.Message] *)
Record Message := mkMessage {
  ms_to : option Address;
  ms_from : Address;
  ms_nonce : Z;
  ms_amount : Z;
  ms_gasLimit : Z;
  ms_gasPrice : Z;
  ms_data : bytes;
  ms_checkNonce : bool;
  ms_txHash : Hash
}.

Definition NewMessage (from : Address) (to : option Address) (nonce amount gasLimit gasPrice : Z) (data : bytes) (checkNonce : bool) : Message :=
  mkMessage to from nonce amount gasLimit gasPrice data checkNonce 0.

(** ** GasPool: [None] of [AddGas] is its panic, of [SubGas] [ErrGasLimitReached] *)

Definition GasPool : Type := Z.
Definition AddGas (gp : GasPool) (amount : Z) : option GasPool :=
  if sub64 (2 ^ 64 - 1) amount <? gp then None else Some (add64 gp amount).
Definition SubGas (gp : GasPool) (amount : Z) : option GasPool :=
  if gp <? amount then None else Some (sub64 gp amount).

(** ** The intrinsic price; [None] is [vm.ErrOutOfGas] *)

Definition TxGas : Z := 21000.
Definition TxGasContractCreation : Z := 53000.
Definition TxDataZeroGas : Z := 4.
Definition TxDataNonZeroGas : Z := 68.

Definition IntrinsicGas (data : bytes) (contractCreation homestead : bool) : option Z :=
  let gas := if contractCreation && homestead then TxGasContractCreation else TxGas in
  if (0 <? length data)%nat then
    let nz := Z.of_nat (length (filter (λ b : Z, b ≠ 0) data)) in
    if (2 ^ 64 - 1 - gas) `div` TxDataNonZeroGas <? nz then None
    else
      let gas := add64 gas (mul64 nz TxDataNonZeroGas) in
      let z := sub64 (Z.of_nat (length data)) nz in
      if (2 ^ 64 - 1 - gas) `div` TxDataZeroGas <? z then None
      else Some (add64 gas (mul64 z TxDataZeroGas))
  else Some gas.

(** ** Errors *)

Inductive pay_error :=
| errGasZero              (* tx.Gas should not be 0 *)
| errNotContract          (* tx.to should be a contract *)
| errNotEnabled           (* not enabled by the creator *)
| errPriceExceeded
| errNotAllowed.

Inductive tx_error :=
| errInsufficientBalanceForGas
| ErrNonceTooHigh
| ErrNonceTooLow
| ErrGasLimitReached
| errPay (e : pay_error)
| errVm (e : vmerror).

Section transition.
Context `{CR : Crypto} `{SD : StateDatabase} `{PC : Precompiles} (db : Database) (cx : VmContext) (rules : Rules) (cfg : VmConfig).

(** ** syscon/mechanism.go *)

Definition AuthorityAddress : Address := 0x1000000000000000000000000000000000000003.

Definition IsCallContract (to : option Address) (data : bytes) : X bool :=
  if (0 <? length data)%nat then
    match to with
    | Some a => reading (HasCode a)
    | None => mret false
    end
  else mret false.

(** A slot of a mapping in the storage of the authority contract. *)
Definition authoritySlot (addr : Address) (n : Z) : bytes :=
  Hash_Bytes (keccak256 (Hash_Bytes (Address_Hash addr) ++ Hash_Bytes n)).
Definition authority (key : Hash) : X Z := h ← reading (GetState db AuthorityAddress key); mret (Hash_Big h).

Definition CreatorOrSelf (toAddress : Address) : X Address :=
  creator ← reading (GetState db CreatorAddress (BytesToHash (authoritySlot toAddress 0)));
  mret (if EmptyHash creator then toAddress else BytesToAddress (Hash_Bytes creator)).

Definition getMaxGasPrice (creatorAddress : Address) : X Z := authority (BytesToHash (authoritySlot creatorAddress 0)).
Definition gasLimit (creatorAddress : Address) : X Z :=
  v ← authority (BytesToHash (authoritySlot creatorAddress 1)); mret (Big_Uint64 v).
Definition model (creatorAddress : Address) : X Z :=
  v ← authority (BytesToHash (authoritySlot creatorAddress 2)); mret (Big_Uint64 v).
Definition listed (n : Z) (fromAddress creatorAddress : Address) : X bool :=
  v ← authority (keccak256 (Hash_Bytes (Address_Hash fromAddress) ++ authoritySlot creatorAddress n));
  mret (0 <? v).
Definition isWhite : Address → Address → X bool := listed 3.
Definition isBlack : Address → Address → X bool := listed 4.

Definition GetMaxGasPrice (toAddress : Address) : X Z :=
  price ← getMaxGasPrice toAddress;
  if 0 <? price then mret price
  else
    creator ← CreatorOrSelf toAddress;
    if creator =? toAddress then mret price else getMaxGasPrice creator.

Definition GetGasLimit (toAddress : Address) : X Z :=
  gasLmt ← gasLimit toAddress;
  if 0 <? gasLmt then mret gasLmt
  else
    creator ← CreatorOrSelf toAddress;
    if creator =? toAddress then mret gasLmt else gasLimit creator.

Definition GetRealGas (msg : Message) : X Z :=
  call ← IsCallContract (ms_to msg) (ms_data msg);
  if call && (ms_gasLimit msg =? 0) then
    match ms_to msg with Some a => GetGasLimit a | None => mret 0 end
  else mret (ms_gasLimit msg).

(** The limit, and the called contract. *)
Definition ValidatePayByContract (fromAddress : Address) (msg : Message) : X (pay_error + Z * Address) :=
  call ← IsCallContract (ms_to msg) (ms_data msg);
  match ms_to msg with
  | Some toAddress =>
      if negb call then mret (inl errGasZero)
      else
        creator ← CreatorOrSelf toAddress;
        if creator =? toAddress then mret (inl errNotContract)
        else
          maxPrice ← GetMaxGasPrice toAddress;
          limit ← GetGasLimit toAddress;
          if (maxPrice =? 0) || (limit =? 0) then mret (inl errNotEnabled)
          else if maxPrice <? ms_gasPrice msg then mret (inl errPriceExceeded)
          else
            m ← model toAddress;
            allowed ← (if m =? 0 then isWhite fromAddress creator
                       else black ← isBlack fromAddress creator; mret (negb black));
            mret (if (allowed : bool) then inr (limit, toAddress) else inl errNotAllowed)
  | None => mret (inl errGasZero)
  end.

(** ** The transition *)

Record Transition := mkTransition {
  tr_gp : GasPool;
  tr_msg : Message;
  tr_gas : Z;
  tr_initialGas : Z
}.

Definition useGas (st : Transition) (amount : Z) : option Transition :=
  if tr_gas st <? amount then None
  else Some (mkTransition (tr_gp st) (tr_msg st) (sub64 (tr_gas st) amount) (tr_initialGas st)).

Definition gasUsed (st : Transition) : Z := sub64 (tr_initialGas st) (tr_gas st).

(** Who pays: the sender or, for a message without gas, the creator of the contract. *)
Definition payAddr (msg : Message) (creator : option Address) : Address := default (ms_from msg) creator.

Definition buyGas (st : Transition) (creator : option Address) : X (tx_error + Transition) :=
  let msg := tr_msg st in
  let mgval := ms_gasLimit msg * ms_gasPrice msg in
  balance ← reading (GetBalance (payAddr msg creator));
  if balance <? mgval then mret (inl errInsufficientBalanceForGas)
  else
    match SubGas (tr_gp st) (ms_gasLimit msg) with
    | None => mret (inl ErrGasLimitReached)
    | Some gp =>
        writing (SubBalance (payAddr msg creator) mgval);;
        mret (inr (mkTransition gp msg (add64 (tr_gas st) (ms_gasLimit msg)) (ms_gasLimit msg)))
    end.

Definition preCheck (st : Transition) (creator : option Address) : X (tx_error + Transition) :=
  let msg := tr_msg st in
  if ms_checkNonce msg then
    nonce ← reading (GetNonce (ms_from msg));
    if nonce <? ms_nonce msg then mret (inl ErrNonceTooHigh)
    else if ms_nonce msg <? nonce then mret (inl ErrNonceTooLow)
    else buyGas st creator
  else buyGas st creator.

Definition refundGas (st : Transition) (creator : option Address) : X Transition :=
  refund ← gets (λ e : EVM, sd_refund (ev_StateDB e));
  let refund := Z.min (gasUsed st `div` 2) refund in
  let gas := add64 (tr_gas st) refund in
  writing (AddBalance (payAddr (tr_msg st) creator) (gas * ms_gasPrice (tr_msg st)));;
  gp ← orPanic (AddGas (tr_gp st) gas);
  mret (mkTransition gp (tr_msg st) gas (tr_initialGas st)).

(** What applying a message gives: the returned bytes, the gas used and whether the
    machine failed. *)
Definition applied : Type := bytes * Z * bool.

(** The part after the gas is bought.  The pool is part of the result, an error included. *)
Definition execute_message (interpret : Contract → bytes → bool → X outcome) (st : Transition) (creator : option Address) :
    X (GasPool * (tx_error + applied)) :=
  let msg := tr_msg st in
  match (gas ← IntrinsicGas (ms_data msg) (negb (returns (ms_to msg))) (IsHomestead rules); useGas st gas) with
  | None => mret (tr_gp st, inl (errVm ErrOutOfGas))
  | Some st =>
      let sender := AccountRef (ms_from msg) in
      '(ret, gas, vmerr) ←
        match ms_to msg with
        | None =>
            '(ret, _, gas, vmerr) ← Create db cx rules cfg interpret sender (ms_data msg) (tr_gas st) (ms_amount msg);
            mret (ret, gas, vmerr)
        | Some to =>
            nonce ← reading (GetNonce (ms_from msg));
            writing (SetNonce (ms_from msg) (add64 nonce 1));;
            Call db cx rules cfg interpret sender to (ms_data msg) (tr_gas st) (ms_amount msg)
        end;
      if decide (vmerr = Some ErrInsufficientBalance) then mret (tr_gp st, inl (errVm ErrInsufficientBalance))
      else
        st ← refundGas (mkTransition (tr_gp st) msg gas (tr_initialGas st)) creator;
        writing (AddBalance (vc_Coinbase cx) (gasUsed st * ms_gasPrice msg));;
        mret (tr_gp st, inr (ret, gasUsed st, returns vmerr))
  end.

Definition TransitionDb (interpret : Contract → bytes → bool → X outcome) (gp : GasPool) (msg : Message) :
    X (GasPool * (tx_error + applied)) :=
  pay ← (if ms_gasLimit msg =? 0 then
           r ← ValidatePayByContract (ms_from msg) msg;
           match r with
           | inl e => mret (inl (errPay e))
           | inr (limit, to) =>
               creator ← CreatorOrSelf to;
               mret (inr (Some creator,
                 NewMessage (ms_from msg) (ms_to msg) (ms_nonce msg) (ms_amount msg) limit (ms_gasPrice msg) (ms_data msg) (ms_checkNonce msg)))
           end
         else mret (inr (None, msg)));
  match pay with
  | inl e => mret (gp, inl e)
  | inr (creator, msg) =>
      r ← preCheck (mkTransition gp msg 0 0) creator;
      match r with
      | inl e => mret (gp, inl e)
      | inr st => execute_message interpret st creator
      end
  end.
End transition.
