(* ===== verification/TransitionFacts.v ===== *)
(** * TransitionFacts: messages end, and money is kept

    Reading the state shows nothing; the parts of a transition take, return and pay gas so
    that the sums of balances do not grow. *)

From S2P Require Import Prelude Bytes Crypto MinerContract StateDB StateDBFacts StateDBRevert StateDBView EvmWord EvmCode EvmMemory EvmState EvmGas EvmCall Evm EvmEffect EvmLogic EvmCallFacts EvmRun StateTransition.

Local Open Scope Z_scope.

(** ** The refund counter stays within its width *)

Section refund.
Context `{CR : Crypto} `{SD : StateDatabase} (db : Database).

Definition refund_ok (s : StateDB) : Prop := is_u64 (sd_refund s).

Lemma records_refund s s' : records s' = records s → sd_refund s' = sd_refund s.
Proof. by intros [= ? _]. Qed.

Lemma refund_append e s : sd_refund (journal_append e s) = sd_refund s.
Proof. apply records_refund, records_append. Qed.

Lemma refund_on a f s : (∀ o s, sd_refund (f o s) = sd_refund s) →
  sd_refund (let '(o, s) := GetOrNewStateObject a s in f o s) = sd_refund s.
Proof.
  intros Hf. unfold GetOrNewStateObject. pose proof (records_refund _ _ (records_get a s)) as H.
  destruct (getStateObject a s) as [o s1]. cbn [snd] in *.
  pose proof (records_refund _ _ (records_create a s1)) as H1. destruct (createObject a s1) as [[new prev] s2]. cbn [snd] in *.
  destruct o as [o|]; [destruct (so_deleted o)|]; rewrite Hf; congruence.
Qed.

Lemma refund_touch o s : sd_refund (touch o s) = sd_refund s.
Proof. unfold touch. destruct (_ =? _); exact (refund_append _ s). Qed.

(** The operations that leave the refund alone. *)
Definition keeps_refund (o : op) : Prop :=
  match o with opAddRefund _ | opSubRefund _ | opRevertToSnapshot _ => False | _ => True end.

Lemma runOp_keeps_refund o s s' : keeps_refund o → runOp db o s = Some s' → sd_refund s' = sd_refund s.
Proof.
  intros Ho. destruct o; cbn [runOp keeps_refund] in *; try done; intros [= <-]; try (apply records_refund, records_with); try done.
  - unfold CreateAccount. pose proof (records_refund _ _ (records_create addr s)) as H.
    destruct (createObject addr s) as [[o [p|]] s1]; [|done]. exact H.
  - apply refund_on. intros o s1. unfold stateObject_SubBalance. destruct (_ =? _); [done|]. apply refund_append.
  - apply refund_on. intros o s1. unfold stateObject_AddBalance. destruct (_ =? _).
    + destruct (stateObject_empty o); [apply refund_touch | done].
    + apply refund_append.
  - apply refund_on. intros o s1. apply refund_append.
  - apply refund_on. intros o s1. unfold stateObject_SetCode. destruct (stateObject_Code db o). apply refund_append.
  - unfold GetCodeSize. pose proof (records_refund _ _ (records_get addr s)) as H. destruct (getStateObject addr s) as [[o|] s1]; [|done].
    destruct (so_code o); [done|]. destruct (ContractCodeSize _ _ _) as [size [err|]]; [|done].
    cbn [snd] in *. unfold setError. by destruct (sd_dbErr s1).
  - apply refund_on. intros o s1. unfold stateObject_SetState. destruct (stateObject_GetState db o key). destruct (_ =? _); [done|]. apply refund_append.
  - unfold Suicide. pose proof (records_refund _ _ (records_get addr s)) as H. destruct (getStateObject addr s) as [[o|] s1]; [|done].
    cbn [snd] in *. rewrite <- H. exact (refund_append _ s1).
  - unfold Exist. pose proof (records_refund _ _ (records_get addr s)) as H. by destruct (getStateObject addr s).
  - unfold Empty. pose proof (records_refund _ _ (records_get addr s)) as H. by destruct (getStateObject addr s).
  - unfold AddPreimage. destruct (_ !! _); [done|]. exact (refund_append _ s).
Qed.

Lemma op_refund o s s' :
  (∀ id, o ≠ opRevertToSnapshot id) → runOp db o s = Some s' → refund_ok s → refund_ok s'.
Proof.
  intros Ho Hr Hs. unfold refund_ok in *. destruct o; try (by erewrite runOp_keeps_refund; [|..|exact Hr]).
  - injection Hr as <-. apply u64_range.
  - cbn [runOp] in Hr. unfold SubRefund in Hr. destruct (_ <? _); [done|]. injection Hr as <-. apply u64_range.
  - exfalso. by eapply Ho.
Qed.

Lemma storing_refund ops s s' : Forall storing ops → runOps db ops s = Some s' → sd_refund s' = sd_refund s.
Proof.
  intros Ho. revert s. induction Ho as [|o ops Ho _ IH]; intros s; cbn [runOps]; [by intros [= <-]|].
  destruct (runOp db o s) as [s1|] eqn:E; [|done]. cbn [mbind option_bind]. intros Hr. rewrite (IH s1 Hr).
  eapply runOp_keeps_refund; [|exact E]. by destruct o.
Qed.

Lemma effect_refund base ro s s' : effect db ro s s' → tracked db base s → refund_ok s → refund_ok s'.
Proof.
  intros He Ht. revert s s' He Ht. apply (effect_steps db base ro (λ s s', refund_ok s → refund_ok s')); try done.
  - auto.
  - intros o s s1 _ Ha _ Hr. eapply op_refund; [|exact Hr]. by intros id ->.
  - intros a b v s _ _ _ _ _. unfold refund_ok. by rewrite (runOp_keeps_refund (opAddBalance b v) (SubBalance a v s) _ I eq_refl),
      (runOp_keeps_refund (opSubBalance a v) s _ I eq_refl).
  - intros self b ops s s1 _ _ _ _ _ Ho _ Hr. unfold refund_ok.
    by rewrite (runOp_keeps_refund (StateDBRevert.opSuicide self) s1 _ I eq_refl), (storing_refund ops _ s1 Ho Hr),
      (runOp_keeps_refund (opAddBalance b (bal s self)) s _ I eq_refl).
  - intros s s2 [Hs _]. unfold refund_ok. by rewrite (si_refund _ _ _ Hs).
Qed.
End refund.

(** ** Looking at the state *)

Section looking.
Context `{CR : Crypto} `{SD : StateDatabase} `{PC : Precompiles} (db : Database) (base : StateDB).
Abbreviation good := (good db base).

(** Nothing that matters differs. *)
Record looks (e e' : EVM) : Prop := {
  lk_good : good e';
  lk_depth : ev_depth e' = ev_depth e;
  lk_readOnly : ev_readOnly e' = ev_readOnly e;
  lk_same : same db (ev_StateDB e) (ev_StateDB e');
  lk_reaches : reaches db (ev_StateDB e) (ev_StateDB e')
}.

Lemma looks_refl e : good e → looks e e.
Proof. intros G. split; [done..|apply same_refl|apply reaches_refl]. Qed.

Lemma looks_trans e1 e2 e3 : looks e1 e2 → looks e2 e3 → looks e1 e3.
Proof. intros [? ? ? ? ?] [? ? ? ? ?]. split; [done|congruence..|by eapply same_trans|by eapply reaches_trans]. Qed.

Lemma looks_bal e e' a : looks e e' → bal (ev_StateDB e') a = bal (ev_StateDB e) a.
Proof. intros H. apply (same_shows db), H. Qed.

Lemma looks_refund e e' : looks e e' → sd_refund (ev_StateDB e') = sd_refund (ev_StateDB e).
Proof. intros H. symmetry. apply (si_refund db), H. Qed.

Lemma loads_looks e s : good e → loads db (ev_StateDB e) s → reaches db (ev_StateDB e) s → looks e (e <| ev_StateDB := s |>).
Proof.
  intros [G1 G2 G3] H Hp. assert (same db (ev_StateDB e) s) as Hs by by apply loads_same.
  split; [|done|done|by upd|by upd]. split; upd; [| |done].
  - eapply does_tracked; [by apply does_loads | done].
  - intros a Oa. destruct (same_shows db _ _ a Hs) as [-> ->]. by apply G2.
Qed.

(** A computation that only looks, and gives a result that satisfies [P]. *)
Definition looking {A : Type} (m : X A) (P : EVM → A → Prop) : Prop :=
  ∀ e, good e → ∃ a e', m e = Done a e' ∧ looks e e' ∧ P e a.

Lemma looking_ret {A : Type} (a : A) (P : EVM → A → Prop) : (∀ e, P e a) → looking (mret a) P.
Proof. intros HP e G. exists a, e. split_and!; [done|by apply looks_refl|done]. Qed.

Lemma looking_bind {A B : Type} (m : X A) (k : A → X B) P Q :
  looking m P → (∀ a, (∃ e, P e a) → looking (k a) (λ _, Q)) → looking (m ≫= k) (λ _, Q).
Proof.
  intros Hm Hk e G. destruct (Hm e G) as (a & e1 & E1 & L1 & HP).
  destruct (Hk a (ex_intro _ e HP) e1 (lk_good _ _ L1)) as (b & e2 & E2 & L2 & HQ).
  exists b, e2. split_and!; [|by eapply looks_trans|done]. unfold mbind, X_bind. by rewrite E1.
Qed.

Lemma looking_object {A : Type} (none : A) f (v : stateObject → A) addr op :
  (∀ o, (f o).1 = v o ∧ oeq db o (f o).2) → op_typed op → (∀ s, runOp db op s = Some (with_object none f addr s).2) →
  looking (reading (with_object none f addr)) (λ e a, a = match live (ev_StateDB e) addr with Some o => v o | None => none end).
Proof.
  intros Hf Ho Hop e G. destruct (with_object_loads db none f v addr (ev_StateDB e) (gd_wf _ _ _ G) Hf) as [Hl Hv].
  exists (with_object none f addr (ev_StateDB e)).1, (e <| ev_StateDB := (with_object none f addr (ev_StateDB e)).2 |>).
  split_and!; [|apply loads_looks; [done|done|by eapply reaches_op]|done]. unfold reading. by destruct (with_object _ _ _ _).
Qed.

Lemma looking_weaken {A : Type} (m : X A) (P : EVM → A → Prop) (Q : A → Prop) :
  looking m P → (∀ e a, P e a → Q a) → looking m (λ _, Q).
Proof. intros H HQ e G. destruct (H e G) as (a & e' & ? & ? & ?). exists a, e'. eauto. Qed.

Lemma looking_GetState a k : address_ok a → looking (reading (GetState db a k)) (λ _ _, True).
Proof.
  intros Oa. eapply looking_weaken; [apply (looking_object 0 (λ o, stateObject_GetState db o k) (λ o, slot db o k) a (opGetState a k)); [|done..]; intros o; apply GetState_oeq | done].
Qed.

Lemma looking_HasCode a : address_ok a → looking (reading (HasCode a)) (λ _ _, True).
Proof.
  intros Oa. eapply looking_weaken; [by apply (looking_object false _ (λ o, negb (ac_CodeHash (so_data o) =? emptyCodeHash)) a (opHasCode a)) | done].
Qed.

Lemma looking_GetNonce a : address_ok a → looking (reading (GetNonce a)) (λ _ _, True).
Proof. intros Oa. eapply looking_weaken; [by apply (looking_object 0 _ (λ o, ac_Nonce (so_data o)) a (opGetNonce a)) | done]. Qed.

Lemma looking_GetBalance a : address_ok a → looking (reading (GetBalance a)) (λ e b, b = bal (ev_StateDB e) a).
Proof. intros Oa. by apply (looking_object 0 (λ o, (ac_Balance (so_data o), o)) (λ o, ac_Balance (so_data o)) a (opGetBalance a)). Qed.

Lemma AuthorityAddress_ok : address_ok AuthorityAddress.
Proof. by vm_compute. Qed.

Lemma looking_authority k : looking (authority db k) (λ _ _, True).
Proof. eapply looking_bind; [apply looking_GetState, AuthorityAddress_ok|]. intros h _. by apply looking_ret. Qed.

Lemma looking_IsCallContract to data : from_option address_ok True to → looking (IsCallContract to data) (λ _ _, True).
Proof. intros Oto. unfold IsCallContract. destruct (_ <? _)%nat; [|by apply looking_ret]. destruct to; [by apply looking_HasCode | by apply looking_ret]. Qed.

Lemma looking_CreatorOrSelf a : address_ok a → looking (CreatorOrSelf db a) (λ _, address_ok).
Proof.
  intros Oa. eapply looking_bind; [apply looking_GetState, CreatorAddress_ok|]. intros h _. apply looking_ret. intros _.
  destruct (EmptyHash h); [done|]. apply BytesToAddress_ok, be_bytes_ok.
Qed.

Lemma looking_gasLimit a : looking (gasLimit db a) (λ _, is_u64).
Proof. eapply looking_bind; [apply looking_authority|]. intros v _. apply looking_ret. intros _. apply u64_range. Qed.

Lemma looking_GetGasLimit a : address_ok a → looking (GetGasLimit db a) (λ _, is_u64).
Proof.
  intros Oa. eapply looking_bind; [apply looking_gasLimit|]. intros v [_ Hv]. destruct (0 <? v); [by apply looking_ret|].
  eapply looking_bind; [by apply looking_CreatorOrSelf|]. intros c _. destruct (_ =? _); [by apply looking_ret | apply looking_gasLimit].
Qed.

Lemma looking_GetMaxGasPrice a : address_ok a → looking (GetMaxGasPrice db a) (λ _ _, True).
Proof.
  intros Oa. eapply looking_bind; [apply looking_authority|]. intros v _. destruct (0 <? v); [by apply looking_ret|].
  eapply looking_bind; [by apply looking_CreatorOrSelf|]. intros c _. destruct (_ =? _); [by apply looking_ret | apply looking_authority].
Qed.

Lemma looking_listed n a b : looking (listed db n a b) (λ _ _, True).
Proof. eapply looking_bind; [apply looking_authority|]. intros v _. by apply looking_ret. Qed.

Lemma looking_Validate from msg : from_option address_ok True (ms_to msg) →
  looking (ValidatePayByContract db from msg) (λ _ r, match r with inr (limit, to) => is_u64 limit ∧ address_ok to | inl _ => True end).
Proof.
  intros Oto. eapply looking_bind; [by apply looking_IsCallContract|]. intros call _. destruct (ms_to msg) as [to|]; [|by apply looking_ret]. cbn in Oto.
  destruct (negb call); [by apply looking_ret|]. eapply looking_bind; [by apply looking_CreatorOrSelf|]. intros creator _.
  destruct (_ =? _); [by apply looking_ret|]. eapply looking_bind; [by apply looking_GetMaxGasPrice|]. intros maxPrice _.
  eapply looking_bind; [by apply looking_GetGasLimit|]. intros limit [_ Hl]. destruct (_ || _); [by apply looking_ret|].
  destruct (_ <? _); [by apply looking_ret|].
  eapply looking_bind with (P := λ _ _, True); [eapply looking_bind; [apply looking_authority|]; intros; by apply looking_ret|]. intros m _.
  eapply looking_bind with (P := λ _ _, True).
  - destruct (m =? 0); [apply looking_listed|]. eapply looking_bind; [apply looking_listed|]. intros; by apply looking_ret.
  - intros [] _; by apply looking_ret.
Qed.
End looking.

(** ** Money *)

Section money.
Context `{CR : Crypto} `{SD : StateDatabase} `{PC : Precompiles} (db : Database) (base : StateDB) (rules : Rules).
Abbreviation good := (good db base).
Abbreviation looks := (looks db base).
Abbreviation looking := (looking db base).

(** The accounts together have at most [d] more. *)
Definition richer (d : Z) (s s' : StateDB) : Prop :=
  ∃ T, addresses T ∧ ∀ L, T ⊆ L → addresses L → weight_of (bal s') L ≤ weight_of (bal s) L + d.

Lemma richer_trans d d' s1 s2 s3 : richer d s1 s2 → richer d' s2 s3 → richer (d + d') s1 s3.
Proof.
  intros (T & OT & H) (T' & OT' & H'). exists (T ∪ T'). split; [intros a [?|?]%elem_of_union; auto|].
  intros L HL OL. specialize (H L ltac:(set_solver) OL). specialize (H' L ltac:(set_solver) OL). lia.
Qed.

Lemma richer_same s s' : (∀ a, bal s' a = bal s a) → richer 0 s s'.
Proof. intros H. exists ∅. split; [by intros a ?%elem_of_empty|]. intros L _ _. unfold weight_of. rewrite (sumZ_ext (bal s') (bal s)) by (intros; apply H). lia. Qed.

Lemma richer_point d a s s' : address_ok a → (∀ x, bal s' x = if decide (x = a) then bal s x + d else bal s x) → richer d s s'.
Proof.
  intros Oa H. exists {[a]}. split; [by intros x ->%elem_of_singleton|]. intros L HL _.
  rewrite (weight_of_shift (bal s) _ (λ x, if decide (x = a) then d else 0)) by (intros x; rewrite H; destruct (decide _); lia).
  rewrite weight_of_point by set_solver. lia.
Qed.

(** What holds after a part of a transition that takes [d] from the accounts or gives it
    to them. *)
Record after (d : Z) (e e' : EVM) : Prop := {
  af_good : good e';
  af_depth : ev_depth e' = ev_depth e;
  af_readOnly : ev_readOnly e' = ev_readOnly e;
  af_refund : refund_ok (ev_StateDB e');
  af_richer : richer d (ev_StateDB e) (ev_StateDB e');
  af_reaches : reaches db (ev_StateDB e) (ev_StateDB e')
}.

Lemma after_trans d d' e1 e2 e3 : after d e1 e2 → after d' e2 e3 → after (d + d') e1 e3.
Proof. intros [? ? ? ? ? ?] [? ? ? ? ? ?]. split; [done|congruence..|done|by eapply richer_trans|by eapply reaches_trans]. Qed.

Lemma after_looks e e' : refund_ok (ev_StateDB e) → looks e e' → after 0 e e'.
Proof.
  intros Hr H. split; try apply H.
  - unfold refund_ok. by rewrite (looks_refund db base e e' H).
  - apply richer_same. intros a. by apply (looks_bal db base).
Qed.

Lemma after_reach e e' : good e → refund_ok (ev_StateDB e) → reach db false e e' → good e' → after 0 e e'.
Proof.
  intros G Hr [R1 R2 R3] G'. split; try done.
  - eapply effect_refund; [exact R3 | apply G | done].
  - destruct (effect_money db base false _ _ R3 (gd_tracked _ _ _ G) (gd_sane _ _ _ G)) as (T & OT & HT). exists T. split; [done|]. intros L HL OL. specialize (HT L HL OL). lia.
  - by eapply effect_reaches.
Qed.

Lemma balance_good e o f : good e → runOp db o (ev_StateDB e) = Some (f (ev_StateDB e)) →
  (∀ a, address_ok a → 0 ≤ bal (f (ev_StateDB e)) a ∧ code_at db (f (ev_StateDB e)) a = code_at db (ev_StateDB e) a) →
  good (e <| ev_StateDB ::= f |>).
Proof.
  intros [G1 G2 G3] Hr Hb. split; upd; [by eapply runOp_tracked| |done].
  intros a Oa. destruct (Hb a Oa) as [H1 ->]. split; [done|by apply G2].
Qed.

Lemma after_sub a v e : address_ok a → good e → refund_ok (ev_StateDB e) → 0 ≤ v ≤ bal (ev_StateDB e) a →
  after (- v) e (e <| ev_StateDB ::= SubBalance a v |>).
Proof.
  intros Oa G Hr Hv. pose proof (λ x, SubBalance_bal db a v (ev_StateDB e) x (gd_wf _ _ _ G)) as Hb. split; try done.
  - apply (balance_good e (opSubBalance a v)); [done..|]. intros x Ox. destruct (Hb x) as (-> & -> & _).
    split; [|done]. destruct (gd_sane _ _ _ G x Ox) as [? _]. destruct (decide (x = a)) as [->|]; lia.
  - upd. unfold refund_ok. by rewrite (runOp_keeps_refund db (opSubBalance a v) (ev_StateDB e) _ I eq_refl).
  - upd. apply richer_point with a; [done|]. intros x. destruct (Hb x) as (-> & _). destruct (decide _); lia.
  - by eapply (reaches_op db (opSubBalance a v)).
Qed.

Lemma after_add a v e : address_ok a → good e → refund_ok (ev_StateDB e) → 0 ≤ v →
  after v e (e <| ev_StateDB ::= AddBalance a v |>).
Proof.
  intros Oa G Hr Hv. pose proof (λ x, AddBalance_bal db a v (ev_StateDB e) x (gd_wf _ _ _ G)) as Hb. split; try done.
  - apply (balance_good e (opAddBalance a v)); [done..|]. intros x Ox. destruct (Hb x) as (-> & -> & _).
    split; [|done]. destruct (gd_sane _ _ _ G x Ox) as [? _]. destruct (decide (x = a)); lia.
  - upd. unfold refund_ok. by rewrite (runOp_keeps_refund db (opAddBalance a v) (ev_StateDB e) _ I eq_refl).
  - upd. apply richer_point with a; [done|]. intros x. by destruct (Hb x) as (-> & _).
  - by eapply (reaches_op db (opAddBalance a v)).
Qed.

(** A computation that ends, but for the faults a message can cause. *)
Definition ends {A : Type} (m : X A) (e : EVM) (Q : A → EVM → Prop) : Prop :=
  (∃ w, m e = Crashes w ∧ fault_ok rules w) ∨ ∃ a e', m e = Done a e' ∧ Q a e'.

Lemma ends_ret {A : Type} (a : A) e (Q : A → EVM → Prop) : Q a e → ends (mret a) e Q.
Proof. right. by exists a, e. Qed.

Lemma ends_bind {A B : Type} (m : X A) (k : A → X B) e P Q :
  ends m e P → (∀ a e', P a e' → ends (k a) e' Q) → ends (m ≫= k) e Q.
Proof.
  unfold mbind, X_bind. intros [(w & E & ?)|(a & e1 & E & HP)] Hk; [left; exists w; by rewrite E|].
  destruct (Hk a e1 HP) as [(w & E' & ?)|(b & e2 & E' & HQ)]; [left; exists w; by rewrite E | right]. exists b, e2. by rewrite E.
Qed.

Lemma ends_runs {A : Type} (m : X A) e (P Q : A → EVM → Prop) :
  good e → refund_ok (ev_StateDB e) → runs db base rules false m e P → (∀ a e', after 0 e e' → P a e' → Q a e') → ends m e Q.
Proof.
  intros G Hr [?|(a & e1 & E & R & G1 & HP)] HQ; [by left | right]. exists a, e1. split; [done|]. apply HQ; [by apply after_reach | done].
Qed.

Lemma ends_looking {A : Type} (m : X A) e (P : EVM → A → Prop) (Q : A → EVM → Prop) :
  good e → looking m P → (∀ a e', looks e e' → P e a → Q a e') → ends m e Q.
Proof. intros G Hm HQ. destruct (Hm e G) as (a & e1 & E & L & HP). right. exists a, e1. eauto. Qed.
End money.
