(* ===== verification/TransitionSafety.v ===== *)
(** * TransitionSafety: what applying a message promises

    Every message is applied or refused, unless a precompiled contract or the refund counter
    panics; the pool and the payer are charged for the gas used, no money is made, and a
    refused message leaves everything as it was or, if it had bought its gas, keeps it.  The functions by which
    contracts see earlier blocks (src/core/evm.go) are in ChainContext.v. *)

From S2P Require Import Prelude Bytes Crypto MinerContract StateDB SecureTrie StateDBFacts StateDBRevert StateDBView EvmWord EvmCode EvmMemory EvmState EvmGas EvmCall Evm EvmEffect EvmLogic EvmCallFacts EvmRun EvmPrecompiled EvmSafety StateTransition TransitionFacts.

Local Open Scope Z_scope.

Lemma filter_length (data : bytes) : (length (filter (λ b : Z, b ≠ 0%Z) data) ≤ length data)%nat.
Proof. apply length_filter. Qed.

Lemma div_bound a b c : 0 < b → c ≤ a `div` b → c * b ≤ a.
Proof. intros Hb H. pose proof (Z.mul_div_le a b Hb). nia. Qed.

Lemma IntrinsicGas_range data c h gas : Z.of_nat (length data) < 2 ^ 62 →
  IntrinsicGas data c h = Some gas → TxGas ≤ gas < 2 ^ 64.
Proof.
  intros Hl. unfold IntrinsicGas. set (g0 := if c && h then _ else _).
  assert (TxGas ≤ g0 < 2 ^ 20) as Hg0 by (unfold g0, TxGas, TxGasContractCreation; destruct (c && h); lia).
  destruct (0 <? length data)%nat; [|intros [= <-]; lia]. pose proof (filter_length data) as Hf.
  set (nz := Z.of_nat (length (filter _ _))) in *. assert (0 ≤ nz ≤ Z.of_nat (length data)) as Hnz by (unfold nz; lia). clearbody nz.
  destruct (Z.ltb_spec ((2 ^ 64 - 1 - g0) `div` TxDataNonZeroGas) nz) as [|H1]; [done|].
  apply div_bound in H1; [|done]. unfold TxDataNonZeroGas, TxDataZeroGas, TxGas in *.
  assert (mul64 nz 68 = nz * 68) as -> by (apply mul64_id; unfold is_u64; lia).
  assert (add64 g0 (nz * 68) = g0 + nz * 68) as -> by (apply add64_id; unfold is_u64; lia).
  assert (sub64 (Z.of_nat (length data)) nz = Z.of_nat (length data) - nz) as -> by (apply sub64_id; unfold is_u64; lia).
  set (z := Z.of_nat (length data) - nz) in *. assert (0 ≤ z) by (unfold z; lia). clearbody z.
  destruct (Z.ltb_spec ((2 ^ 64 - 1 - (g0 + nz * 68)) `div` 4) z) as [|H2]; [done|]. apply div_bound in H2; [|done].
  intros [= <-]. assert (mul64 z 4 = z * 4) as -> by (apply mul64_id; unfold is_u64; lia).
  rewrite add64_id; unfold is_u64; lia.
Qed.

Section safety.
Context `{CR : Crypto} `{SD : StateDatabase} `{PC : Precompiles} (db : Database) (base : StateDB).
Context (cx : VmContext) (rules : Rules) (cfg : VmConfig).

Hypothesis Hcx : 0 ≤ vc_GasPrice cx.
Hypothesis Hcoinbase : address_ok (vc_Coinbase cx).

Abbreviation good := (good db base).
Abbreviation after := (after db base).
Abbreviation ends := (ends rules).

Record message_ok (msg : Message) : Prop := {
  mo_gas : is_u64 (ms_gasLimit msg);
  mo_price : 0 ≤ ms_gasPrice msg;
  mo_amount : 0 ≤ ms_amount msg;
  mo_data : code_ok (ms_data msg);
  mo_from : address_ok (ms_from msg);
  mo_to : from_option address_ok True (ms_to msg)
}.

Lemma payAddr_ok msg creator : message_ok msg → from_option address_ok True creator → address_ok (payAddr msg creator).
Proof. intros Hm Hc. unfold payAddr. destruct creator; [exact Hc|apply Hm]. Qed.

(** Gas was bought: what is left of it, and the pool without it. *)
Record bought (gp0 : Z) (st : Transition) : Prop := {
  bo_gas : 0 ≤ tr_gas st ≤ tr_initialGas st;
  bo_initial : is_u64 (tr_initialGas st);
  bo_pool : tr_gp st + tr_initialGas st = gp0;
  bo_u64 : is_u64 gp0;
  bo_nonneg : 0 ≤ tr_gp st
}.

Lemma refundGas_ends gp0 st creator e :
  bought gp0 st → message_ok (tr_msg st) → from_option address_ok True creator → good e → refund_ok (ev_StateDB e) →
  ends (refundGas st creator) e (λ st' e', after (tr_gas st' * ms_gasPrice (tr_msg st)) e e' ∧
    tr_initialGas st' = tr_initialGas st ∧ tr_gp st' = tr_gp st + tr_gas st' ∧
    tr_gas st ≤ tr_gas st' ≤ tr_gas st + (tr_initialGas st - tr_gas st) `div` 2).
Proof.
  intros [Hg Hi Hp H0 Hn] Hm Hc G Hr. pose proof (mo_price _ Hm) as Hprice. unfold refundGas. apply ends_bind with (P := λ r e', r = sd_refund (ev_StateDB e) ∧ e' = e).
  { right. by exists (sd_refund (ev_StateDB e)), e. }
  intros r e1 [-> ->]. cbn zeta. unfold gasUsed. unfold is_u64 in *.
  assert (sub64 (tr_initialGas st) (tr_gas st) = tr_initialGas st - tr_gas st) as -> by (apply sub64_id; unfold is_u64; lia).
  set (half := (tr_initialGas st - tr_gas st) `div` 2).
  assert (0 ≤ half ∧ 2 * half ≤ tr_initialGas st - tr_gas st) as Hh.
  { unfold half. split; [apply Z.div_pos; lia | apply Z.mul_div_le; lia]. }
  set (r := Z.min half (sd_refund (ev_StateDB e))). assert (0 ≤ r ≤ half) as Hr' by (destruct Hr; unfold r; lia). clearbody r half.
  assert (add64 (tr_gas st) r = tr_gas st + r) as -> by (apply add64_id; unfold is_u64; lia).
  set (g := tr_gas st + r) in *.
  eapply ends_bind with (P := λ _ e', after (g * ms_gasPrice (tr_msg st)) e e').
  { right. eexists tt, _. split; [reflexivity|]. apply after_add; [by apply payAddr_ok|done..|]. unfold g. nia. }
  intros _ e2 A2. eapply ends_bind with (P := λ gp e', gp = tr_gp st + g ∧ e' = e2).
  { right. exists (tr_gp st + g), e2. split; [|done]. unfold AddGas.
    rewrite (sub64_id (2 ^ 64 - 1)) by (unfold is_u64, g; lia). rewrite (proj2 (Z.ltb_ge _ _)) by (unfold g; lia).
    rewrite add64_id by (unfold is_u64, g; lia). done. }
  intros gp e3 [-> ->]. apply ends_ret. cbn [tr_gas tr_initialGas tr_gp]. split_and!; [done..|unfold g; lia|unfold g; lia].
Qed.

(** The run in the machine, for both kinds of messages. *)
Definition machine_run (fuel : nat) (msg : Message) (gas : Z) : X (bytes * Z * option vmerror) :=
  let interpret := Run db cx rules cfg fuel in
  let sender := AccountRef (ms_from msg) in
  match ms_to msg with
  | None =>
      '(ret, _, gas, vmerr) ← Create db cx rules cfg interpret sender (ms_data msg) gas (ms_amount msg);
      mret (ret, gas, vmerr)
  | Some to =>
      nonce ← reading (GetNonce (ms_from msg));
      writing (SetNonce (ms_from msg) (add64 nonce 1));;
      Call db cx rules cfg interpret sender to (ms_data msg) gas (ms_amount msg)
  end.

Lemma machine_run_ends fuel msg gas e :
  message_ok msg → is_u64 gas → gas < Z.of_nat fuel → good e → ev_readOnly e = false → refund_ok (ev_StateDB e) →
  ends (machine_run fuel msg gas) e (λ r e', after 0 e e' ∧ 0 ≤ r.1.2 ≤ gas ∧ (r.2 = Some ErrInsufficientBalance → same_bal e e')).
Proof.
  intros [_ _ Ha Hd Of Oto] Hg Hf G Hro Hr. pose proof (Run_runs db base cx rules cfg Hcx fuel) as HI.
  assert (Hle : gas ≤ Z.of_nat fuel - 1) by lia. unfold machine_run. destruct (ms_to msg) as [to|].
  - eapply ends_bind; [eapply ends_looking; [exact G|by apply looking_GetNonce|intros n e1 L _; exact L]|]. intros n e1 L1. cbn beta.
    pose proof (after_looks db base e e1 Hr L1) as A1. pose proof (λ x, looks_bal db base e e1 x L1) as B1. destruct L1 as [G1 _ Ero _ _].
    eapply ends_bind with (P := λ _ e', after 0 e1 e' ∧ same_bal e1 e').
    { apply (ends_runs db base rules _ e1 (λ _ e', same_bal e1 e')); [done|apply A1| |done].
      apply (runs_writing db base rules _ _ (opSetNonce (ms_from msg) (add64 n 1))); [done|done|split; [done|apply add64_u64]|done|done]. }
    intros _ e2 [A2 B2]. assert (ev_readOnly e2 = false) as Hro2 by (rewrite (af_readOnly _ _ _ _ _ A2); congruence).
    apply (ends_runs db base rules _ e2 (λ r e', call_ok db gas e2 e' r)); [apply A2|apply A2| |].
    + replace false with (static rules (ev_readOnly e2)) by (by rewrite Hro2).
      apply Call_ok with (g := Z.of_nat fuel - 1); try done; [apply A2|]. by rewrite Hro2.
    + intros r e3 A3 (_ & H & HB). split; [|split; [done|]].
      * replace 0 with (0 + 0 + 0) by done. eapply after_trans; [by eapply after_trans | exact A3].
      * intros E x. rewrite <- B1, <- (B2 x). apply (same_shows db), HB. by rewrite E.
  - eapply ends_bind; [apply (ends_runs db base rules _ e (λ r e', create_ok gas e e' r)); [done|done| |]|].
    + apply Create_ok with (g := Z.of_nat fuel - 1); try done. by rewrite Hro.
    + intros r e1 A1 (_ & H). exact (conj A1 H).
    + intros [[[ret a] g'] vmerr] e1 [A1 H]. apply ends_ret. done.
Qed.

(** A message is refused early, before it buys gas, or late, when the gas does not cover
    the price of its data or the sender does not have the value. *)
Definition early (err : tx_error) : Prop := match err with errVm _ => False | _ => True end.
Definition late (err : tx_error) : Prop := err = errVm ErrOutOfGas ∨ err = errVm ErrInsufficientBalance.

Lemma execute_ends fuel gp0 st creator e :
  bought gp0 st → tr_gas st = tr_initialGas st → tr_initialGas st = ms_gasLimit (tr_msg st) → message_ok (tr_msg st) →
  from_option address_ok True creator → tr_gas st < Z.of_nat fuel → good e → ev_readOnly e = false → refund_ok (ev_StateDB e) →
  ends (execute_message db cx rules cfg (Run db cx rules cfg fuel) st creator) e (λ r e',
    match r.2 with
    | inl err => r.1 = tr_gp st ∧ late err ∧ after 0 e e' ∧ same_bal e e'
    | inr (ret, used, failed) => r.1 = gp0 - used ∧ TxGas `div` 2 ≤ used ≤ tr_initialGas st ∧
        after (tr_initialGas st * ms_gasPrice (tr_msg st)) e e'
    end).
Proof.
  intros B Eg Ei Hm Hcr Hf G Hro Hr. pose proof B as [Hg Hi Hp H0 Hn]. unfold execute_message.
  destruct (IntrinsicGas _ _ _) as [ig|] eqn:Eig; cbn [mbind option_bind].
  2: { apply ends_ret. cbn. split_and!; [done|by left|by apply after_looks, looks_refl|done]. }
  pose proof (IntrinsicGas_range _ _ _ _ (proj2 (mo_data _ Hm)) Eig) as Hig.
  unfold useGas. destruct (Z.ltb_spec (tr_gas st) ig) as [Hl|Hl].
  { apply ends_ret. cbn. split_and!; [done|by left|by apply after_looks, looks_refl|done]. }
  unfold is_u64, TxGas in *. assert (sub64 (tr_gas st) ig = tr_gas st - ig) as -> by (apply sub64_id; unfold is_u64; lia).
  cbn [tr_gas tr_gp tr_initialGas tr_msg]. fold (machine_run fuel (tr_msg st) (tr_gas st - ig)).
  eapply ends_bind; [apply machine_run_ends; try done; unfold is_u64; lia|].
  intros [[ret gas] vmerr] e1 (A1 & Hgas & HB). cbn [fst snd] in Hgas, HB. cbv beta iota.
  destruct (decide (vmerr = Some ErrInsufficientBalance)); [apply ends_ret; cbn; split_and!; [done|by right|done|auto]|].
  set (st1 := mkTransition _ _ _ _).
  assert (bought gp0 st1) as B1 by (split; unfold st1; cbn; unfold is_u64; lia).
  eapply ends_bind; [apply (refundGas_ends gp0 st1 creator e1); [done|exact Hm|done|apply A1|apply A1]|].
  intros st2 e2 (A2 & Ei2 & Egp & Hg2). cbn [st1 tr_gas tr_gp tr_initialGas tr_msg] in *.
  assert ((tr_initialGas st - gas) `div` 2 * 2 ≤ tr_initialGas st - gas) as Hhalf by (rewrite Z.mul_comm; apply Z.mul_div_le; lia).
  assert (gasUsed st2 = tr_initialGas st - tr_gas st2) as Eu by (unfold gasUsed; rewrite Ei2; apply sub64_id; unfold is_u64; lia).
  eapply ends_bind with (P := λ _ e', after (gasUsed st2 * ms_gasPrice (tr_msg st)) e2 e').
  { right. eexists tt, _. split; [reflexivity|]. apply after_add; [done|apply A2|apply A2|]. rewrite Eu. destruct Hm. nia. }
  intros _ e3 A3. apply ends_ret. cbn [fst snd]. rewrite Eu in *. change (21000 `div` 2) with 10500.
  clear -Hgas Hg2 Hhalf Egp Hp Hig Eg A1 A2 A3. split_and!; [lia|lia|lia|].
  replace (tr_initialGas st * _) with (0 + tr_gas st2 * ms_gasPrice (tr_msg st) + (tr_initialGas st - tr_gas st2) * ms_gasPrice (tr_msg st)) by lia.
  eapply after_trans; [by eapply after_trans | exact A3].
Qed.


(** The price of the gas limit was taken from an account, and nothing else. *)
Definition charged (msg : Message) (payer : Address) (e e' : EVM) : Prop :=
  ∀ a, bal (ev_StateDB e') a = bal (ev_StateDB e) a - (if decide (a = payer) then ms_gasLimit msg * ms_gasPrice msg else 0).

Lemma buyGas_ends gp msg creator e :
  message_ok msg → from_option address_ok True creator → is_u64 gp → good e → refund_ok (ev_StateDB e) →
  ends (buyGas (mkTransition gp msg 0 0) creator) e (λ r e',
    match r with
    | inl err => early err ∧ looks db base e e'
    | inr st => after (- (ms_gasLimit msg * ms_gasPrice msg)) e e' ∧ charged msg (payAddr msg creator) e e' ∧ bought gp st ∧ tr_msg st = msg ∧
        tr_gas st = tr_initialGas st ∧ tr_initialGas st = ms_gasLimit msg
    end).
Proof.
  intros Hm Hcr Hgp G Hr. pose proof Hm as [Hg Hp _ _ _ _]. pose proof (payAddr_ok msg creator Hm Hcr) as Op. unfold buyGas. cbn [tr_msg tr_gp tr_gas].
  eapply ends_bind; [eapply ends_looking; [exact G|by apply looking_GetBalance|intros b e1 L Hb; exact (conj L Hb)]|].
  intros b e1 [L1 ->]. cbn beta. destruct (Z.ltb_spec (bal (ev_StateDB e) (payAddr msg creator)) (ms_gasLimit msg * ms_gasPrice msg)) as [|Hb];
    [by apply ends_ret|].
  unfold SubGas. destruct (Z.ltb_spec gp (ms_gasLimit msg)) as [|Hl]; [by apply ends_ret|].
  pose proof (after_looks db base e e1 Hr L1) as A1. unfold is_u64 in *.
  eapply ends_bind with (P := λ _ e', after (- (ms_gasLimit msg * ms_gasPrice msg)) e1 e' ∧ charged msg (payAddr msg creator) e e').
  { right. eexists tt, _. split; [reflexivity|]. split.
    - apply after_sub; [done|apply A1|apply A1|]. rewrite (looks_bal db base e e1 _ L1). nia.
    - intros a. upd. destruct (SubBalance_bal db (payAddr msg creator) (ms_gasLimit msg * ms_gasPrice msg) (ev_StateDB e1) a (gd_wf _ _ _ (af_good _ _ _ _ _ A1)))
        as (-> & _). rewrite (looks_bal db base e e1 _ L1). destruct (decide _); lia. }
  intros _ e2 [A2 C2]. apply ends_ret. cbn [tr_msg tr_gas tr_initialGas tr_gp].
  assert (add64 0 (ms_gasLimit msg) = ms_gasLimit msg) as -> by (rewrite add64_id; unfold is_u64; lia).
  assert (sub64 gp (ms_gasLimit msg) = gp - ms_gasLimit msg) as -> by (apply sub64_id; unfold is_u64; lia).
  split_and!; try done.
  - replace (- (ms_gasLimit msg * ms_gasPrice msg)) with (0 + - (ms_gasLimit msg * ms_gasPrice msg)) by lia. by eapply after_trans.
  - split; cbn; unfold is_u64; lia.
Qed.

Lemma preCheck_ends gp msg creator e :
  message_ok msg → from_option address_ok True creator → is_u64 gp → good e → refund_ok (ev_StateDB e) →
  ends (preCheck (mkTransition gp msg 0 0) creator) e (λ r e',
    match r with
    | inl err => early err ∧ looks db base e e'
    | inr st => after (- (ms_gasLimit msg * ms_gasPrice msg)) e e' ∧ charged msg (payAddr msg creator) e e' ∧ bought gp st ∧ tr_msg st = msg ∧
        tr_gas st = tr_initialGas st ∧ tr_initialGas st = ms_gasLimit msg
    end).
Proof.
  intros Hm Hcr Hgp G Hr. unfold preCheck. cbn [tr_msg]. destruct (ms_checkNonce msg); [|by apply buyGas_ends].
  eapply ends_bind; [eapply ends_looking; [exact G|apply looking_GetNonce, Hm|intros n e1 L _; exact L]|].
  intros n e1 L1. cbn beta. destruct (n <? ms_nonce msg); [by apply ends_ret|]. destruct (ms_nonce msg <? n); [by apply ends_ret|].
  pose proof (after_looks db base e e1 Hr L1) as A1.
  destruct (buyGas_ends gp msg creator e1 Hm Hcr Hgp (lk_good _ _ _ _ L1) (af_refund _ _ _ _ _ A1)) as [?|(r & e2 & E & HQ)]; [by left|right].
  exists r, e2. split; [done|]. destruct r as [err|st].
  - destruct HQ as [? L2]. split; [done|exact (looks_trans _ _ _ _ _ L1 L2)].
  - destruct HQ as (A2 & C2 & HQ). split; [|split; [|done]]; [|intros a; by rewrite C2, (looks_bal db base e e1 _ L1)].
    replace (- (ms_gasLimit msg * ms_gasPrice msg)) with (0 + - (ms_gasLimit msg * ms_gasPrice msg)) by lia. by eapply after_trans.
Qed.

(** The message that is applied, and who pays for it. *)
Definition payment (msg : Message) : X (tx_error + option Address * Message) :=
  if ms_gasLimit msg =? 0 then
    r ← ValidatePayByContract db (ms_from msg) msg;
    match r with
    | inl e => mret (inl (errPay e))
    | inr (limit, to) =>
        creator ← CreatorOrSelf db to;
        mret (inr (Some creator,
          NewMessage (ms_from msg) (ms_to msg) (ms_nonce msg) (ms_amount msg) limit (ms_gasPrice msg) (ms_data msg) (ms_checkNonce msg)))
    end
  else mret (inr (None, msg)).

Lemma payment_looking msg : message_ok msg →
  looking db base (payment msg) (λ _ r,
    match r with
    | inl err => early err
    | inr (creator, msg') => message_ok msg' ∧ from_option address_ok True creator ∧ (ms_gasLimit msg ≠ 0 → msg' = msg ∧ creator = None)
    end).
Proof.
  intros [Hg Hp Ha Hd Of Oto]. unfold payment. destruct (Z.eqb_spec (ms_gasLimit msg) 0) as [E0|]; [|by apply looking_ret].
  eapply looking_bind; [by apply looking_Validate|]. intros [err|[limit to]] [_ Hl]; [by apply looking_ret|]. destruct Hl as [Hl Ot].
  eapply looking_bind; [by apply looking_CreatorOrSelf|]. intros creator [_ Ocr]. apply looking_ret. intros _. split_and!; [by split|done|by intros].
Qed.

(** The gas of a message was bought and kept: the pool lost it and the payer its price, no
    other account anything.  The payer is the sender or, when the message has no gas limit, the
    creator of the contract. *)
Definition gas_kept (msg : Message) (gp gp' : GasPool) (e e' : EVM) : Prop :=
  ∃ creator msg' e1, payment msg e = Done (inr (creator, msg')) e1 ∧ charged msg' (payAddr msg' creator) e e' ∧
    gp' = gp - ms_gasLimit msg' ∧ (ms_gasLimit msg ≠ 0 → msg' = msg ∧ payAddr msg' creator = ms_from msg).

(** The result of a transition. *)
Definition transition_post (gp : GasPool) (msg : Message) (e : EVM) (r : GasPool * (tx_error + applied)) (e' : EVM) : Prop :=
  after 0 e e' ∧
  match r.2 with
  | inr (_, used, _) => r.1 = gp - used ∧ 0 ≤ r.1 ∧ TxGas `div` 2 ≤ used ∧ (ms_gasLimit msg ≠ 0 → used ≤ ms_gasLimit msg)
  | inl err => 0 ≤ r.1 ≤ gp ∧
      ((early err ∧ r.1 = gp ∧ same db (ev_StateDB e) (ev_StateDB e')) ∨ (late err ∧ gas_kept msg gp r.1 e e'))
  end.

Definition enough (fuel : nat) (msg : Message) : Prop :=
  if ms_gasLimit msg =? 0 then 2 ^ 64 ≤ Z.of_nat fuel else ms_gasLimit msg < Z.of_nat fuel.

Lemma TransitionDb_ends fuel gp msg e :
  ready db base e → refund_ok (ev_StateDB e) → is_u64 gp → message_ok msg → enough fuel msg →
  ends (TransitionDb db cx rules cfg (Run db cx rules cfg fuel) gp msg) e (transition_post gp msg e).
Proof.
  intros [G Hro] Hr Hgp Hm Hf. unfold TransitionDb. fold (payment msg).
  destruct (payment_looking msg Hm e G) as (p & e1 & Ep & L1 & H).
  apply ends_bind with (P := λ p' e', p' = p ∧ e' = e1); [right; by exists p, e1|]. intros ? ? [-> ->]. pose proof (after_looks db base e e1 Hr L1) as A1.
  destruct p as [err|[creator msg']].
  { apply ends_ret. split; [done|]. cbn. unfold is_u64 in Hgp. split; [lia|]. left. split_and!; [done..|apply L1]. }
  destruct H as (Hm' & Hcr & Hsame).
  eapply ends_bind; [apply preCheck_ends; [exact Hm'|exact Hcr|exact Hgp|apply L1|apply A1]|]. intros [err|st] e2; cbn beta.
  { intros [He L2]. pose proof (looks_trans _ _ _ _ _ L1 L2) as L. apply ends_ret. split; [by apply after_looks|]. cbn. unfold is_u64 in Hgp.
    split; [lia|]. left. split_and!; [done..|apply L]. }
  intros (A2 & C2 & B & Em & Eg & Ei). rewrite <- Em in *.
  assert (tr_gas st < Z.of_nat fuel) as Hlt.
  { rewrite Eg, Ei. unfold enough in Hf. destruct (Z.eqb_spec (ms_gasLimit msg) 0) as [|Hn]; [destruct (mo_gas _ Hm'); lia|].
    by destruct (Hsame Hn) as [-> _]. }
  assert (ev_readOnly e2 = false) as Hro2 by (rewrite (af_readOnly _ _ _ _ _ A2), (lk_readOnly _ _ _ _ L1); done).
  destruct (execute_ends fuel gp st creator e2 B Eg Ei Hm' Hcr Hlt (af_good _ _ _ _ _ A2) Hro2 (af_refund _ _ _ _ _ A2))
    as [?|(r & e3 & E & HQ)]; [by left|right]. exists r, e3. split; [done|].
  pose proof (after_trans db base _ _ _ _ _ A1 A2) as A12. destruct r as [gp' [err|[[ret used] failed]]]; cbn [fst snd] in HQ.
  - destruct HQ as (-> & Hlate & A3 & B3). pose proof (after_trans db base _ _ _ _ _ A12 A3) as [? ? ? ? (T & OT & HT) ?].
    assert (gas_kept msg gp (tr_gp st) e e3) as Hk.
    { exists creator, (tr_msg st), e1. split_and!; [done| |destruct B; lia|].
      - intros a. by rewrite B3, C2, (looks_bal db base e e1 _ L1).
      - intros Hn. destruct (Hsame Hn) as [-> ->]. done. }
    destruct B, Hm'. split; [split; try done; exists T; split; [done|]; intros L HL OL; specialize (HT L HL OL)|cbn]; unfold is_u64 in *; [nia|].
    split; [lia|by right].
  - destruct HQ as (-> & Hu & A3). pose proof (after_trans db base _ _ _ _ _ A12 A3) as A. rewrite Ei in A.
    replace (_ + _) with 0 in A by lia. split; [done|]. cbn. destruct B. split_and!; [done|lia|lia|]. intros Hn. rewrite <- (proj1 (Hsame Hn)). lia.
Qed.


End safety.

Section witnesses.
Import Toy ToyState EvmExample.

Definition call : Message := mkMessage (Some 17) 5 0 7 50000 1 [1] true 9.
Definition replayed : Message := mkMessage (Some 17) 5 3 7 50000 1 [1] true 9.

Lemma call_ok' : message_ok call.
Proof. split; [by vm_compute | done | done | code_bytes | by vm_compute | by vm_compute]. Qed.

Lemma replayed_ok : message_ok replayed.
Proof. split; [by vm_compute | done | done | code_bytes | by vm_compute | by vm_compute]. Qed.

Lemma cx_coinbase : address_ok (vc_Coinbase cx).
Proof. by vm_compute. Qed.

Definition more_fuel : nat := Z.to_nat 60000.

Lemma enough_fuel : enough more_fuel call ∧ enough more_fuel replayed.
Proof. split; by vm_compute. Qed.

Lemma evm_refund : refund_ok (ev_StateDB evm).
Proof. by vm_compute. Qed.

Lemma pool_u64 : is_u64 100000.
Proof. by vm_compute. Qed.


(** The gas limit does not cover the price of the data. *)
Definition starved : Message := mkMessage (Some 17) 5 0 7 21000 1 [1] true 9.

Lemma starved_ok : message_ok starved.
Proof. split; [by vm_compute | done | done | code_bytes | by vm_compute | by vm_compute]. Qed.

Lemma starved_fuel : enough more_fuel starved.
Proof. by vm_compute. Qed.

End witnesses.
