(* ===== verification/ChainContext.v ===== *)
(** * ChainContext: how contracts see earlier blocks

    src/core/evm.go: the context of a transaction, with the functions that find the hashes
    and the seeds of earlier blocks.  Both walk back from the block and keep what they find
    in a map, which is nil at first; [None] is a walk that has not come to its end. *)

From S2P Require Import Prelude Bytes Crypto Types MinerContract EvmState StateTransition.

Local Open Scope Z_scope.

Definition maxHistory : Z := 2049.

(** [Message.Hash]; the pointer to the recipient is nil for a creation. *)
Definition Message_Hash `{CR : Crypto} (m : Message) : Hash :=
  if negb (EmptyHash (ms_txHash m)) then ms_txHash m
  else keccak256 (rlp_list [
    RArr (from_option (be_bytes 20) [] (ms_to m)); RArr (be_bytes 20 (ms_from m)); RUint (ms_nonce m);
    RBig (ms_amount m); RUint (ms_gasLimit m); RBig (ms_gasPrice m); RArr (ms_data m)]).

(** [Algorand.Coinbase] *)
Definition Coinbase (header : Header) : Address := hd_Coinbase header.

Section chain.
(** [ChainContext.GetHeader] *)
Context (GetHeader : Hash → Z → option Header).

Definition number (h : Header) : Z := u64 (hd_Number h).
Definition parentOf (h : Header) : option Header := GetHeader (hd_ParentHash h) (sub64 (number h) 1).

Fixpoint hashWalk (fuel : nat) (header : option Header) (n : Z) (cache : gmap Z Hash) : option (Hash * gmap Z Hash) :=
  match header with
  | None => Some (0, cache)
  | Some h =>
      let cache := <[sub64 (number h) 1 := hd_ParentHash h]> cache in
      if n =? sub64 (number h) 1 then Some (hd_ParentHash h, cache)
      else match fuel with O => None | S fuel => hashWalk fuel (parentOf h) n cache end
  end.

Definition GetHashFn (fuel : nat) (ref : Header) (n : Z) (cache : option (gmap Z Hash)) :
    option (Hash * option (gmap Z Hash)) :=
  let cache := default {[ sub64 (number ref) 1 := hd_ParentHash ref ]} cache in
  match cache !! n with
  | Some hash => Some (hash, Some cache)
  | None => '(hash, cache) ← hashWalk fuel (parentOf ref) n cache; Some (hash, Some cache)
  end.

Fixpoint seedWalk (fuel : nat) (header : option Header) (n : Z) (cache : gmap Z Z) : option (Z * gmap Z Z) :=
  match header with
  | None => Some (0, cache)
  | Some h =>
      let cache := <[number h := Header_Seed h]> cache in
      if n =? number h then Some (Header_Seed h, cache)
      else match fuel with O => None | S fuel => seedWalk fuel (parentOf h) n cache end
  end.

(** The counter that is returned too is the one of the machine. *)
Definition GetSeedFn (fuel : nat) (ref : Header) (n : Z) (cache : option (gmap Z Z)) : option (Z * option (gmap Z Z)) :=
  let current := number ref in
  if (n <? sub64 current maxHistory) || (current <? n) then Some (0, cache)
  else
    let cache := default {[ current := Header_Seed ref ]} cache in
    match cache !! n with
    | Some seed => Some (seed, Some cache)
    | None => '(seed, cache) ← seedWalk fuel (parentOf ref) n cache; Some (seed, Some cache)
    end.

(** The functions of the context, with fuel for the walk to the first block. *)
Definition walkFuel (ref : Header) : nat := Z.to_nat (number ref) + 2.
Definition NewEVMContext `{CR : Crypto} (msg : Message) (header : Header) (author : option Address) : VmContext :=
  mkVmContext (ms_from msg) (ms_gasPrice msg) (default (Coinbase header) author) (hd_GasLimit header) (hd_Number header) (hd_Time header)
    (hd_Difficulty header) (Message_Hash msg)
    (λ n, default 0 (fst <$> GetHashFn (walkFuel header) header n None))
    (λ n, default 0 (fst <$> GetSeedFn (walkFuel header) header n None)).

(** ** What they promise *)

(** The block [k] generations before. *)
Fixpoint ancestor (ref : Header) (k : nat) : option Header :=
  match k with O => Some ref | S k => h ← ancestor ref k; parentOf h end.

(** The chain has for a number a block of that number. *)
Hypothesis Hchain : ∀ h n hd, GetHeader h n = Some hd → hd_Number hd = n ∧ 0 ≤ n < 2 ^ 63.

Lemma ancestor_number ref k h : 0 ≤ hd_Number ref < 2 ^ 63 → ancestor ref k = Some h →
  hd_Number h = hd_Number ref - Z.of_nat k ∧ number h = hd_Number h ∧ 0 ≤ hd_Number h.
Proof.
  intros Hr. revert h. induction k as [|k IH]; intros h; cbn [ancestor].
  - intros [= <-]. unfold number. rewrite u64_id by (unfold is_u64; lia). lia.
  - intros (h' & E & H)%bind_Some. destruct (IH h' E) as (E1 & E2 & H0). unfold parentOf in H.
    destruct (Hchain _ _ _ H) as [En Hn]. rewrite E2 in *. unfold number.
    assert (0 < hd_Number h') as Hpos.
    { destruct (Z.eq_dec (hd_Number h') 0) as [E0|]; [|lia]. rewrite E0 in Hn. change (sub64 0 1) with (2 ^ 64 - 1) in Hn. lia. }
    rewrite sub64_id in En by (unfold is_u64; lia). rewrite u64_id by (unfold is_u64; lia). lia.
Qed.

Lemma ancestor_unique ref j k h h' : 0 ≤ hd_Number ref < 2 ^ 63 →
  ancestor ref j = Some h → ancestor ref k = Some h' → number h = number h' → j = k.
Proof.
  intros Hr Hj Hk E. destruct (ancestor_number ref j h Hr Hj) as (E1 & E1' & _).
  destruct (ancestor_number ref k h' Hr Hk) as (E2 & E2' & _). lia.
Qed.

(** A walk over the ancestors that keeps a value of each. *)
Section walk.
Context {V : Type} (key : Header → Z) (value : Header → V) (none : V).
Hypothesis Hkey : ∀ ref j k h h', 0 ≤ hd_Number ref < 2 ^ 63 →
  ancestor ref j = Some h → ancestor ref k = Some h' → key h = key h' → j = k.

Fixpoint walk (fuel : nat) (header : option Header) (n : Z) (cache : gmap Z V) : option (V * gmap Z V) :=
  match header with
  | None => Some (none, cache)
  | Some h =>
      let cache := <[key h := value h]> cache in
      if n =? key h then Some (value h, cache)
      else match fuel with O => None | S fuel => walk fuel (parentOf h) n cache end
  end.

(** What a map holds was found on the way. *)
Definition found_by (ref : Header) (cache : gmap Z V) : Prop :=
  ∀ k v, cache !! k = Some v → ∃ j h, ancestor ref j = Some h ∧ k = key h ∧ v = value h.

(** The answer: the value of the ancestor with the key. *)
Definition answers (ref : Header) (n : Z) (v : V) : Prop :=
  (∃ j h, ancestor ref j = Some h ∧ n = key h ∧ v = value h) ∨
  ((∀ j h, ancestor ref j = Some h → n ≠ key h) ∧ v = none).

Lemma answers_unique ref n v v' : 0 ≤ hd_Number ref < 2 ^ 63 → answers ref n v → answers ref n v' → v = v'.
Proof.
  intros Hr [(j & h & E & Ek & ->)|[Hn ->]] [(j' & h' & E' & Ek' & ->)|[Hn' ->]]; try done.
  - assert (j = j') as <- by (eapply Hkey; [exact Hr|exact E|exact E'|congruence]). congruence.
  - by destruct (Hn' j h E).
  - by destruct (Hn j' h' E').
Qed.

Lemma found_insert ref cache j h : found_by ref cache → ancestor ref j = Some h → found_by ref (<[key h := value h]> cache).
Proof.
  intros Hc E k v. destruct (decide (k = key h)) as [->|Hne].
  - rewrite lookup_insert_eq. intros [= <-]. by exists j, h.
  - rewrite lookup_insert_ne by done. apply Hc.
Qed.

Lemma found_insert_grows ref cache j h : 0 ≤ hd_Number ref < 2 ^ 63 → found_by ref cache → ancestor ref j = Some h →
  cache ⊆ <[key h := value h]> cache.
Proof.
  intros Hr Hc E. apply map_subseteq_spec. intros k v Ev. destruct (decide (k = key h)) as [->|Hne]; [|by rewrite lookup_insert_ne].
  rewrite lookup_insert_eq. destruct (Hc _ _ Ev) as (i & h' & E' & Ek & ->). 
  assert (i = j) as -> by (eapply Hkey; [exact Hr|exact E'|exact E|done]). congruence.
Qed.

Lemma walk_answers ref n cache : 0 ≤ hd_Number ref < 2 ^ 63 → found_by ref cache →
  ∀ fuel j, (Z.to_nat (hd_Number ref) + 1 - j < fuel)%nat → (∀ i h, (i < j)%nat → ancestor ref i = Some h → n ≠ key h) →
  ∃ v cache', walk fuel (ancestor ref j) n cache = Some (v, cache') ∧ answers ref n v ∧ found_by ref cache' ∧ cache ⊆ cache'.
Proof.
  intros Hr Hc fuel. revert cache Hc. induction fuel as [|fuel IH]; intros cache Hc j Hf Hbefore; [lia|].
  destruct (ancestor ref j) as [h|] eqn:E; cbn [walk].
  - pose proof (ancestor_number ref j h Hr E) as (En & _ & Hn0). pose proof (found_insert ref cache j h Hc E) as Hc'.
    destruct (Z.eqb_spec n (key h)) as [->|Hne].
    + eexists _, _. split; [reflexivity|]. split; [left; by exists j, h | split; [done | by eapply (found_insert_grows ref)]].
    + replace (parentOf h) with (ancestor ref (S j)) by (cbn; by rewrite E).
      destruct (IH _ Hc' (S j)) as (v & cache' & E1 & E2 & E3 & E4); [lia| |].
      { intros i h' Hi E'. destruct (decide (i = j)) as [->|]; [congruence|]. eapply Hbefore; [|exact E']. lia. }
      exists v, cache'. split_and!; [done..|]. etrans; [by eapply (found_insert_grows ref) | done].
  - eexists _, _. split; [reflexivity|]. split; [right; split; [|done]|done].
    intros i h E'. destruct (decide (i < j)%nat) as [Hi|Hi]; [by eapply Hbefore|]. exfalso.
    assert (∀ d, ancestor ref (j + d) = None) as Hnone.
    { induction d as [|d IHd]; [by rewrite Nat.add_0_r|]. rewrite Nat.add_succ_r. cbn. by rewrite IHd. }
    specialize (Hnone (i - j)%nat). replace (j + (i - j))%nat with i in Hnone by lia. congruence.
Qed.

Lemma lookup_answers ref cache n v : found_by ref cache → cache !! n = Some v → answers ref n v.
Proof. intros Hc E. destruct (Hc n v E) as (j & h & ? & ? & ?). left. by exists j, h. Qed.

(** Asking: the map first, then the walk. *)
Lemma ask_answers ref n cache : 0 ≤ hd_Number ref < 2 ^ 63 → found_by ref cache → cache !! (key ref) = Some (value ref) →
  ∃ v cache', match cache !! n with
              | Some v => Some (v, Some cache)
              | None => '(v, cache) ← walk (walkFuel ref) (parentOf ref) n cache; Some (v, Some cache)
              end = Some (v, Some cache') ∧ answers ref n v ∧ found_by ref cache' ∧ cache' !! (key ref) = Some (value ref).
Proof.
  intros Hr Hc H0. destruct (cache !! n) as [v|] eqn:E.
  - exists v, cache. split_and!; [done|by eapply lookup_answers|done|done].
  - destruct (walk_answers ref n cache Hr Hc (walkFuel ref) 1) as (v & cache' & E' & Ha & Hc' & Hsub).
    { unfold walkFuel, number. rewrite u64_id by (unfold is_u64; lia). lia. }
    { intros [|i] h Hi; [|lia]. cbn. intros [= <-] ->. congruence. }
    exists v, cache'. change (ancestor ref 1) with (parentOf ref) in E'. rewrite E'.
    split_and!; [done|done|done|]. by eapply lookup_weaken.
Qed.
End walk.

Lemma hashWalk_walk fuel h n cache :
  hashWalk fuel h n cache = walk (λ h, sub64 (number h) 1) hd_ParentHash 0 fuel h n cache.
Proof.
  revert h cache. induction fuel as [|fuel IH]; intros [h|] cache; done.
Qed.

Lemma seedWalk_walk fuel h n cache : seedWalk fuel h n cache = walk number Header_Seed 0 fuel h n cache.
Proof.
  revert h cache. induction fuel as [|fuel IH]; intros [h|] cache; done.
Qed.

Lemma hash_key ref j k h h' : 0 ≤ hd_Number ref < 2 ^ 63 →
  ancestor ref j = Some h → ancestor ref k = Some h' → sub64 (number h) 1 = sub64 (number h') 1 → j = k.
Proof.
  intros Hr Hj Hk E. eapply ancestor_unique; [done..|].
  destruct (ancestor_number ref j h Hr Hj) as (E1 & E1' & ?), (ancestor_number ref k h' Hr Hk) as (E2 & E2' & ?).
  rewrite <- (u64_id (number h)), <- (u64_id (number h')) by (unfold is_u64; lia).
  unfold sub64, u64 in *. rewrite <- (Z.sub_add 1 (number h)), <- (Z.sub_add 1 (number h')).
  rewrite <- Zplus_mod_idemp_l, E, Zplus_mod_idemp_l. done.
Qed.

(** Asking several times, with the map that is left each time. *)
Fixpoint ask {V : Type} (f : Z → option (gmap Z V) → option (V * option (gmap Z V))) (ns : list Z) (cache : option (gmap Z V)) :
    option (list V) :=
  match ns with
  | [] => Some []
  | n :: ns => '(v, cache) ← f n cache; vs ← ask f ns cache; Some (v :: vs)
  end.

(** The hash of the block [n] before [ref]: the parent hash of its successor. *)
Definition block_hash (ref : Header) (n : Z) : Hash :=
  match ancestor ref (Z.to_nat (hd_Number ref - 1 - n)) with Some h => hd_ParentHash h | None => 0 end.

Lemma block_hash_answers ref n : 0 ≤ hd_Number ref < 2 ^ 63 → 0 ≤ n < hd_Number ref →
  answers (λ h, sub64 (number h) 1) hd_ParentHash 0 ref n (block_hash ref n).
Proof.
  intros Hr Hn. unfold block_hash. destruct (ancestor _ _) as [h|] eqn:E.
  - left. exists (Z.to_nat (hd_Number ref - 1 - n)), h. destruct (ancestor_number _ _ _ Hr E) as (E1 & E2 & _).
    rewrite E2, E1, sub64_id by (unfold is_u64; lia). split_and!; [done|lia|done].
  - right. split; [|done]. intros j h E' ->. destruct (ancestor_number _ _ _ Hr E') as (E1 & E2 & H0).
    assert (hd_Number h ≠ 0) as Hz.
    { intros E0. rewrite E2, E0 in Hn. change (sub64 0 1) with (2 ^ 64 - 1) in Hn. lia. }
    rewrite E2, sub64_id in E by (unfold is_u64; lia).
    replace (Z.to_nat _) with j in E by lia. congruence.
Qed.

(** The function that finds the hashes of earlier blocks is right however often it is
    asked: for every list of numbers below that of the block, asked one after the other,
    the walks end and the answers, from the chain or from what earlier walks left, are the
    hashes of the ancestors of the block (zero for one the chain does not have). *)
Theorem block_hashes_found ref ns :
  0 ≤ hd_Number ref < 2 ^ 63 → Forall (λ n, 0 ≤ n < hd_Number ref) ns →
  ask (GetHashFn (walkFuel ref) ref) ns None = Some (block_hash ref <$> ns).
Proof.
  intros Hr Hns. set (key := λ h, sub64 (number h) 1).
  assert (∀ cache, found_by key hd_ParentHash ref (default {[key ref := hd_ParentHash ref]} cache) →
    default {[key ref := hd_ParentHash ref]} cache !! key ref = Some (hd_ParentHash ref) →
    ask (GetHashFn (walkFuel ref) ref) ns cache = Some (block_hash ref <$> ns)) as H.
  { induction Hns as [|n ns Hn Hns IH]; intros cache Hc H0; [done|]. cbn [ask fmap list_fmap].
    destruct (ask_answers key hd_ParentHash 0 hash_key ref n _ Hr Hc H0) as (v & cache' & E & Ha & Hc' & H0').
    assert (GetHashFn (walkFuel ref) ref n cache = Some (v, Some cache')) as -> by (unfold GetHashFn; rewrite hashWalk_walk; exact E).
    cbn [mbind option_bind]. rewrite (IH (Some cache') Hc' H0'). cbn [mbind option_bind]. do 2 f_equal.
    eapply (answers_unique key hd_ParentHash 0 hash_key); [exact Hr|exact Ha|by apply block_hash_answers]. }
  apply H; cbn [from_option]; unfold id.
  - intros k v Hk. apply lookup_singleton_Some in Hk as [<- <-]. by exists 0%nat, ref.
  - apply lookup_singleton_eq.
Qed.

(** The seed of the block [n]. *)
Definition block_seed (ref : Header) (n : Z) : Z :=
  match ancestor ref (Z.to_nat (hd_Number ref - n)) with Some h => Header_Seed h | None => 0 end.

Lemma block_seed_answers ref n : 0 ≤ hd_Number ref < 2 ^ 63 → 0 ≤ n ≤ hd_Number ref →
  answers number Header_Seed 0 ref n (block_seed ref n).
Proof.
  intros Hr Hn. unfold block_seed. destruct (ancestor _ _) as [h|] eqn:E.
  - left. exists (Z.to_nat (hd_Number ref - n)), h. destruct (ancestor_number _ _ _ Hr E) as (E1 & E2 & _). split_and!; [done|lia|done].
  - right. split; [|done]. intros j h E' ->. destruct (ancestor_number _ _ _ Hr E') as (E1 & E2 & H0).
    rewrite E2 in E. replace (Z.to_nat _) with j in E by lia. congruence.
Qed.

Definition in_history (ref : Header) (n : Z) : Prop :=
  maxHistory ≤ hd_Number ref ∧ hd_Number ref - maxHistory ≤ n ≤ hd_Number ref.
#[local] Instance in_history_dec ref n : Decision (in_history ref n).
Proof. unfold in_history. apply _. Defined.

Lemma seed_guard ref n : 0 ≤ hd_Number ref < 2 ^ 63 → is_u64 n →
  (n <? sub64 (number ref) maxHistory) || (number ref <? n) = negb (bool_decide (in_history ref n)).
Proof.
  intros Hr Hn. unfold number. rewrite u64_id by (unfold is_u64; lia). unfold is_u64, in_history, maxHistory in *.
  destruct (Z.le_gt_cases 2049 (hd_Number ref)) as [Hle|Hgt].
  - rewrite sub64_id by (unfold is_u64; lia). case_bool_decide; repeat case_cmp; try done; lia.
  - assert (sub64 (hd_Number ref) 2049 = hd_Number ref - 2049 + 2 ^ 64) as ->.
    { unfold sub64, u64. rewrite <- (Z.mod_add _ 1) by lia. rewrite Z.mod_small; lia. }
    case_bool_decide; repeat case_cmp; try done; lia.
Qed.

(** The function that finds the seeds of earlier blocks gives the seed of every block
    of the last 2049 and of the block itself, and zero for all others, however often it is
    asked.  In a block below 2049 it gives zero for every number, the block's own included:
    the difference that is to be the oldest block wraps around. *)
Theorem block_seeds_found ref ns :
  0 ≤ hd_Number ref < 2 ^ 63 → Forall is_u64 ns →
  ask (GetSeedFn (walkFuel ref) ref) ns None =
    Some ((λ n, if decide (in_history ref n) then block_seed ref n else 0) <$> ns).
Proof.
  intros Hr Hns.
  assert (∀ cache, found_by number Header_Seed ref (default {[number ref := Header_Seed ref]} cache) →
    default {[number ref := Header_Seed ref]} cache !! number ref = Some (Header_Seed ref) →
    ask (GetSeedFn (walkFuel ref) ref) ns cache = Some ((λ n,
      if decide (in_history ref n) then block_seed ref n else 0) <$> ns)) as H.
  { induction Hns as [|n ns Hn Hns IH]; intros cache Hc H0; [done|]. cbn [ask fmap list_fmap].
    pose proof (seed_guard ref n Hr Hn) as Hg. destruct (decide _) as [Hin|Hout].
    - destruct (ask_answers number Header_Seed 0 ancestor_unique ref n _ Hr Hc H0) as (v & cache' & E & Ha & Hc' & H0').
      assert (GetSeedFn (walkFuel ref) ref n cache = Some (v, Some cache')) as ->
        by (unfold GetSeedFn; rewrite Hg, bool_decide_true, seedWalk_walk by done; exact E).
      cbn [mbind option_bind]. rewrite (IH (Some cache') Hc' H0'). cbn [mbind option_bind]. do 2 f_equal.
      eapply (answers_unique number Header_Seed 0 ancestor_unique); [exact Hr|exact Ha|]. apply block_seed_answers; [done|]. unfold in_history, maxHistory in *. lia.
    - assert (GetSeedFn (walkFuel ref) ref n cache = Some (0, cache)) as ->
        by (unfold GetSeedFn; by rewrite Hg, bool_decide_false).
      cbn [mbind option_bind]. by rewrite (IH cache Hc H0). }
  apply H; cbn [from_option]; unfold id.
  - intros k v Hk. apply lookup_singleton_Some in Hk as [<- <-]. by exists 0%nat, ref.
  - apply lookup_singleton_eq.
Qed.
End chain.

(** ** A chain of four blocks *)

Module ChainExample.
Definition block (n : Z) : Header := mkHeader (100 + n) 0 0 0 0 0 0 0 n 0 0 0 [] (7 * n + 1) 0 0 emptyCertificate.
Definition chain (h : Hash) (n : Z) : option Header :=
  if (0 <=? n) && (n <? 3000) && (h =? 101 + n) then Some (block n) else None.

Lemma chain_numbers h n hd : chain h n = Some hd → hd_Number hd = n ∧ 0 ≤ n < 2 ^ 63.
Proof.
  unfold chain. destruct (_ && _) eqn:E; [|done]. apply andb_prop in E as [[E1%Z.leb_le E2%Z.ltb_lt]%andb_prop _].
  intros [= <-]. cbn. lia.
Qed.
End ChainExample.

Lemma block_hashes_found_witness :
  ask (GetHashFn ChainExample.chain (walkFuel (ChainExample.block 4)) (ChainExample.block 4)) [2; 0; 3; 1] None = Some [103; 101; 104; 102].
Proof.
  rewrite (block_hashes_found ChainExample.chain ChainExample.chain_numbers (ChainExample.block 4) [2; 0; 3; 1]).
  - vm_compute. reflexivity.
  - cbn. lia.
  - repeat constructor; cbn; lia.
Defined.

Lemma block_seeds_found_witness :
  ask (GetSeedFn ChainExample.chain (walkFuel (ChainExample.block 2051)) (ChainExample.block 2051)) [2050; 2; 1; 2051] None
    = Some [14351; 15; 0; 14358] ∧
  ask (GetSeedFn ChainExample.chain (walkFuel (ChainExample.block 4)) (ChainExample.block 4)) [3; 4] None = Some [0; 0].
Proof.
  split.
  - rewrite (block_seeds_found ChainExample.chain ChainExample.chain_numbers (ChainExample.block 2051) [2050; 2; 1; 2051]).
    + vm_compute. reflexivity.
    + cbn. lia.
    + repeat constructor; by vm_compute.
  - rewrite (block_seeds_found ChainExample.chain ChainExample.chain_numbers (ChainExample.block 4) [3; 4]).
    + vm_compute. reflexivity.
    + cbn. lia.
    + repeat constructor; by vm_compute.
Defined.
