(* ===== verification/Mortgage.v ===== *)
(** * Mortgage: how many calls the creator of a contract may pay for

    src/core/mortgage.go: the ring of slots that counts the calls of the last day.  The quota
    of a creator and the cache of the counters of all creators are not modelled. *)

From S2P Require Import Prelude Bytes Crypto Types MinerContract StateDB EvmState EvmCall StateTransition.

Local Open Scope Z_scope.

Definition slotCount : nat := 24.
Definition slotStep : Z := 1200.                (* [step] *)
Definition maxHeight : Z := 28800.

Record circleQueue := mkCircleQueue {
  cq_curSlotStartHeight : Z;
  cq_total : Z;
  cq_slots : list Z;
  cq_pos : Z
}.

Definition emptyQueue : circleQueue := mkCircleQueue 0 0 (replicate slotCount 0) 0.

(** The slots after the current one that are passed over, one by one. *)
Fixpoint clearSlots (gap : nat) (i : Z) (q : circleQueue) : circleQueue :=
  match gap with
  | O => q
  | S gap =>
      let index := Z.to_nat ((i + cq_pos q) `mod` Z.of_nat slotCount) in
      clearSlots gap (i + 1) (mkCircleQueue (add64 (cq_curSlotStartHeight q) slotStep)
        (sub64 (cq_total q) (cq_slots q !!! index)) (<[index := 0]> (cq_slots q)) (cq_pos q))
  end.

Definition queue_Add (height count : Z) (q : circleQueue) : circleQueue :=
  let curPos := (height `mod` maxHeight) `div` slotStep in
  if height <? cq_curSlotStartHeight q then q
  else if add64 (cq_curSlotStartHeight q) maxHeight <=? height then
    mkCircleQueue (height `div` slotStep * slotStep) count
      (<[Z.to_nat curPos := count]> (replicate slotCount 0)) curPos
  else if curPos =? cq_pos q then
    mkCircleQueue (cq_curSlotStartHeight q) (add64 (cq_total q) count)
      (<[Z.to_nat curPos := add64 (cq_slots q !!! Z.to_nat curPos) count]> (cq_slots q)) (cq_pos q)
  else
    let gap := (Z.of_nat slotCount + curPos - cq_pos q) `mod` Z.of_nat slotCount in
    let q := clearSlots (Z.to_nat gap) 1 q in
    mkCircleQueue (cq_curSlotStartHeight q) (add64 (cq_total q) count) (<[Z.to_nat curPos := count]> (cq_slots q)) curPos.

(** ** What the ring counts

    The newest slot, and the counts of all slots; what is older than the newest slot is
    not counted any more. *)

Record record := mkRecord { rc_slot : Z; rc_counts : list (Z * Z) }.

Definition record_add (height count : Z) (r : record) : record :=
  let k := height `div` slotStep in
  if k <? rc_slot r then r else mkRecord k ((k, count) :: rc_counts r).

Definition slot_count (l : list (Z * Z)) (k : Z) : Z := sumZ (λ p, if decide (p.1 = k) then p.2 else 0) l.

(** The sum over the last [n] slots up to [c]. *)
Fixpoint window (l : list (Z * Z)) (c : Z) (n : nat) : Z :=
  match n with O => 0 | S n => slot_count l (c - Z.of_nat n) + window l c n end.

Definition recent (r : record) : Z := window (rc_counts r) (rc_slot r) slotCount.

Lemma slot_count_cons k n l j : slot_count ((k, n) :: l) j = (if decide (k = j) then n else 0) + slot_count l j.
Proof. done. Qed.

Lemma slot_count_zero l k : Forall (λ p, p.1 ≠ k) l → slot_count l k = 0.
Proof.
  induction 1 as [|[j n] l Hj _ IH]; [done|]. rewrite slot_count_cons, IH. cbn in Hj. by rewrite decide_False.
Qed.

Lemma window_next l c n : window l (c + 1) n + slot_count l (c + 1 - Z.of_nat n) = slot_count l (c + 1) + window l c n.
Proof.
  induction n as [|n IH]; cbn [window]; [by rewrite Z.sub_0_r, Z.add_0_r|].
  replace (c + 1 - Z.of_nat (S n)) with (c - Z.of_nat n) by lia. lia.
Qed.

Lemma window_cons k m l c n : window ((k, m) :: l) c n = window l c n + (if decide (c - Z.of_nat n < k ≤ c) then m else 0).
Proof.
  induction n as [|n IH]; cbn [window]; [rewrite decide_False by lia; lia|].
  rewrite slot_count_cons, IH. destruct (decide (k = c - Z.of_nat n)) as [->|].
  - rewrite (decide_False (P := c - Z.of_nat n < _ ≤ c)), (decide_True (P := c - Z.of_nat (S n) < _ ≤ c)) by lia. lia.
  - destruct (decide (c - Z.of_nat n < k ≤ c)), (decide (c - Z.of_nat (S n) < k ≤ c)); lia.
Qed.

Lemma window_zero l c n : Forall (λ p, p.1 ≤ c - Z.of_nat n) l → window l c n = 0.
Proof.
  induction n as [|n IH]; intros H; [done|]. cbn [window]. rewrite IH, slot_count_zero; [done|..].
  - eapply Forall_impl; [exact H|]. cbn. lia.
  - eapply Forall_impl; [exact H|]. cbn. lia.
Qed.

(** The ring holds the last [slotCount] slots up to the slot [c]. *)
Record ring (c : Z) (l : list (Z * Z)) (q : circleQueue) : Prop := {
  rg_start : cq_curSlotStartHeight q = c * slotStep;
  rg_length : length (cq_slots q) = slotCount;
  rg_slots : ∀ i, 0 ≤ i < 24 → cq_slots q !! Z.to_nat ((c - i) `mod` 24) = Some (u64 (slot_count l (c - i)));
  rg_total : cq_total q = u64 (window l c slotCount);
  rg_range : Forall (λ p, p.1 ≤ c) l
}.

Lemma u64_add x y : add64 (u64 x) y = u64 (x + y).
Proof. unfold add64, u64. apply Zplus_mod_idemp_l. Qed.

Lemma u64_sub x y : sub64 (u64 x) (u64 y) = u64 (x - y).
Proof. unfold sub64, u64. rewrite Zminus_mod_idemp_l, Zminus_mod_idemp_r. done. Qed.

Lemma ring_index c i : (0 ≤ Z.to_nat ((c - i) `mod` 24) < 24)%nat.
Proof. pose proof (Z.mod_pos_bound (c - i) 24). lia. Qed.

Lemma mod_differ c i j : 0 ≤ i < 24 → 0 ≤ j < 24 → i ≠ j → Z.to_nat ((c - i) `mod` 24) ≠ Z.to_nat ((c - j) `mod` 24).
Proof.
  intros Hi Hj Hne E. pose proof (Z.mod_pos_bound (c - i) 24). pose proof (Z.mod_pos_bound (c - j) 24).
  assert ((c - i) `mod` 24 = (c - j) `mod` 24) as E' by lia. apply Hne. clear -E' Hi Hj. Z.to_euclidean_division_equations. lia.
Qed.

(** Passing to the next slot. *)
Lemma ring_next c l q :
  ring c l q → 0 ≤ c → (c + 1) * slotStep < 2 ^ 64 →
  let index := Z.to_nat ((c + 1) `mod` 24) in
  ring (c + 1) l (mkCircleQueue (add64 (cq_curSlotStartHeight q) slotStep) (sub64 (cq_total q) (cq_slots q !!! index))
    (<[index := 0]> (cq_slots q)) (cq_pos q)).
Proof.
  intros [Hs Hl Hsl Ht Hr] Hc Hb index. unfold slotStep, slotCount in *.
  assert (Hold : cq_slots q !! index = Some (u64 (slot_count l (c - 23)))).
  { rewrite <- (Hsl 23) by lia. unfold index. do 2 f_equal. clear. Z.to_euclidean_division_equations. lia. }
  assert (Hnew : slot_count l (c + 1) = 0) by (apply slot_count_zero; eapply Forall_impl; [exact Hr|]; cbn; lia).
  split; cbn [cq_curSlotStartHeight cq_slots cq_total].
  - rewrite Hs, add64_id; unfold slotStep, is_u64; lia.
  - by rewrite length_insert.
  - intros i Hi. destruct (Z.eq_dec i 0) as [->|Hne].
    + rewrite Z.sub_0_r, Hnew. fold index. apply list_lookup_insert_eq. rewrite Hl. unfold index. pose proof (Z.mod_pos_bound (c + 1) 24). lia.
    + rewrite list_lookup_insert_ne.
      * replace (c + 1 - i) with (c - (i - 1)) by lia. apply Hsl. lia.
      * unfold index. replace (c + 1) with (c + 1 - 0) at 1 by lia. apply mod_differ; lia.
  - rewrite Ht, (list_lookup_total_correct _ _ _ Hold), u64_sub. unfold slotCount. f_equal. pose proof (window_next l c 24) as H.
    replace (c + 1 - Z.of_nat 24) with (c - 23) in H by lia. lia.
  - eapply Forall_impl; [exact Hr|]. cbn. lia.
Qed.

Lemma ring_clear gap : ∀ c i q l, ring c l q → 0 ≤ c → (c + Z.of_nat gap) * slotStep < 2 ^ 64 →
  (i + cq_pos q) `mod` 24 = (c + 1) `mod` 24 → ring (c + Z.of_nat gap) l (clearSlots gap i q).
Proof.
  induction gap as [|gap IH]; intros c i q l Hq Hc Hb Hi; cbn [clearSlots]; [by rewrite Z.add_0_r|].
  replace (c + Z.of_nat (S gap)) with (c + 1 + Z.of_nat gap) in * by lia.
  replace ((i + cq_pos q) `mod` Z.of_nat slotCount) with ((c + 1) `mod` 24) by (by rewrite <- Hi).
  apply IH; [apply ring_next; [done|done|unfold slotStep in *; lia]|lia|done|].
  cbn [cq_pos]. replace (i + 1 + cq_pos q) with (i + cq_pos q + 1) by lia. rewrite <- Zplus_mod_idemp_l, Hi, Zplus_mod_idemp_l. done.
Qed.

Lemma height_slot height : 0 ≤ height → (height `mod` maxHeight) `div` slotStep = (height `div` slotStep) `mod` 24.
Proof. intros H. unfold maxHeight, slotStep. Z.to_euclidean_division_equations. lia. Qed.

(** The counts of a slot of the ring are increased. *)
Lemma ring_count c l q count pos :
  ring c l q → ring c ((c, count) :: l) (mkCircleQueue (cq_curSlotStartHeight q) (add64 (cq_total q) count)
    (<[Z.to_nat (c `mod` 24) := add64 (cq_slots q !!! Z.to_nat (c `mod` 24)) count]> (cq_slots q)) pos).
Proof.
  intros [Hs Hl Hsl Ht Hr]. pose proof (Hsl 0 ltac:(lia)) as H0. rewrite Z.sub_0_r in H0.
  split; cbn [cq_curSlotStartHeight cq_slots cq_total]; [done|by rewrite length_insert|..].
  - intros i Hi. destruct (Z.eq_dec i 0) as [->|Hne].
    + rewrite Z.sub_0_r, list_lookup_insert_eq by (apply lookup_lt_is_Some_1; eauto).
      rewrite (list_lookup_total_correct _ _ _ H0), u64_add, slot_count_cons, decide_True by done. do 2 f_equal. lia.
    + rewrite list_lookup_insert_ne, Hsl by (try done; replace c with (c - 0) at 1 by lia; apply mod_differ; lia).
      rewrite slot_count_cons, decide_False by lia. done.
  - rewrite Ht, u64_add, window_cons, decide_True by (unfold slotCount; lia). done.
  - constructor; [cbn; lia|done].
Qed.

Lemma ring_reset c l k pos : Forall (λ p, p.1 ≤ c) l → c + 24 ≤ k →
  ring k l (mkCircleQueue (k * slotStep) 0 (replicate slotCount 0) pos).
Proof.
  intros Hl Hk. split; cbn [cq_curSlotStartHeight cq_slots cq_total]; [done|apply length_replicate|..].
  - intros i Hi. rewrite lookup_replicate_2, slot_count_zero; [done|..].
    + eapply Forall_impl; [exact Hl|]. cbn. lia.
    + unfold slotCount. pose proof (ring_index k i). lia.
  - rewrite window_zero; [done|]. eapply Forall_impl; [exact Hl|]. unfold slotCount. cbn. lia.
  - eapply Forall_impl; [exact Hl|]. cbn. lia.
Qed.

(** The ring and the record it stands for. *)
Definition counts (r : record) (q : circleQueue) : Prop :=
  0 ≤ rc_slot r ∧ rc_slot r * slotStep < 2 ^ 63 ∧ ring (rc_slot r) (rc_counts r) q ∧ cq_pos q = rc_slot r `mod` 24.

Lemma counts_empty : counts (mkRecord 0 []) emptyQueue.
Proof.
  split_and!; [done|done| |done]. split; [done|done| |done|constructor].
  intros i Hi. unfold emptyQueue. cbn [cq_slots rc_slot rc_counts]. apply lookup_replicate_2. unfold slotCount. pose proof (ring_index 0 i). lia.
Qed.

Lemma ring_fresh c b l q count pos :
  ring c l q → Forall (λ p, p.1 ≤ b) l → b < c → is_u64 count →
  ring c ((c, count) :: l) (mkCircleQueue (cq_curSlotStartHeight q) (add64 (cq_total q) count)
    (<[Z.to_nat (c `mod` 24) := count]> (cq_slots q)) pos).
Proof.
  intros Hq Hb Hc Hn. pose proof (ring_count c l q count pos Hq) as HR.
  pose proof (rg_slots _ _ _ Hq 0 ltac:(lia)) as H0. rewrite Z.sub_0_r in H0.
  rewrite (list_lookup_total_correct _ _ _ H0), u64_add, slot_count_zero, Z.add_0_l, u64_id in HR; [done|done|].
  eapply Forall_impl; [exact Hb|]. cbn. lia.
Qed.

Lemma counts_add r q height count :
  counts r q → 0 ≤ height < 2 ^ 63 → is_u64 count → counts (record_add height count r) (queue_Add height count q).
Proof.
  intros (H0 & Hb & Hq & Hp) Hh Hn. unfold queue_Add, record_add. rewrite height_slot, (rg_start _ _ _ Hq) by lia.
  rewrite (add64_id (_ * _)) by (unfold is_u64, maxHeight, slotStep in *; lia).
  pose proof (rg_range _ _ _ Hq) as Hr. pose proof (rg_start _ _ _ Hq) as Hst.
  set (c := rc_slot r) in *. set (l := rc_counts r) in *. set (k := height `div` slotStep).
  assert (Hk : k * slotStep ≤ height < k * slotStep + slotStep)
    by (unfold k, slotStep; Z.to_euclidean_division_equations; lia).
  unfold slotStep, maxHeight in *. destruct (Z.ltb_spec height (c * 1200)) as [|Hc]; [rewrite (proj2 (Z.ltb_lt k c)) by lia; done|].
  rewrite (proj2 (Z.ltb_ge k c)) by lia. rewrite <- Hst.
  destruct (Z.leb_spec (cq_curSlotStartHeight q + 28800) height) as [Hc'|Hc'];
    [|destruct (Z.eqb_spec (k `mod` 24) (cq_pos q)) as [E|Hne]];
    (split_and!; cbn [rc_slot rc_counts cq_pos]; [lia|unfold slotStep; lia| |]); try done.
  - pose proof (ring_fresh k c l _ count (k `mod` 24) (ring_reset c l k 0 Hr ltac:(lia)) Hr ltac:(lia) Hn) as HR.
    cbn [cq_curSlotStartHeight cq_total cq_slots] in HR. by rewrite add64_id in HR.
  - assert (k = c) as -> by (rewrite Hp in E; clear -E Hc Hc' H0 Hk Hst; Z.to_euclidean_division_equations; lia). by apply ring_count.
  - set (gap := (_ + _ - _) `mod` _). assert (c < k ∧ gap = k - c) as [Hlt Hgap].
    { unfold gap. rewrite Hp in *. change (Z.of_nat slotCount) with 24. clear -Hne Hc Hc' H0 Hk Hst.
      Z.to_euclidean_division_equations. lia. }
    eapply ring_fresh; [|done|exact Hlt|done]. replace k with (c + Z.of_nat (Z.to_nat gap)) by lia.
    apply ring_clear; [done|done|unfold slotStep; lia|]. rewrite Hp, Zplus_mod_idemp_r. f_equal. lia.
Qed.

(** The calls of a creator, as they are counted block by block. *)
Definition recorded (l : list (Z * Z)) : record := foldl (λ r p, record_add p.1 p.2 r) (mkRecord 0 []) l.
Definition queue_of (l : list (Z * Z)) : circleQueue := foldl (λ q p, queue_Add p.1 p.2 q) emptyQueue l.

(** The counter of a creator is the number of their calls in the last day: after any
    blocks, with or without gaps, repeated or late, the total that the ring keeps
    incrementally is the sum of what was counted in the newest slot and the 23 before it,
    as a number of 64 bits; a call in a slot before the newest is not counted. *)
Theorem daily_total l :
  Forall (λ p, 0 ≤ p.1 < 2 ^ 63 ∧ is_u64 p.2) l → cq_total (queue_of l) = u64 (recent (recorded l)).
Proof.
  intros H. enough (counts (recorded l) (queue_of l)) as (_ & _ & HR & _) by exact (rg_total _ _ _ HR).
  unfold recorded, queue_of. revert H. generalize counts_empty.
  generalize (mkRecord 0 []) emptyQueue. induction l as [|[h n] l IH]; intros r q Hq H; [done|].
  cbn [foldl fst snd]. inversion_clear H as [|?? [Hh Hn] Hl]. apply IH; [by apply counts_add|done].
Qed.

(** Two calls in the first hour, one at height 1300 and one a day later: the first two are
    forgotten, as their slot is the oldest. *)
Lemma daily_total_witness :
  cq_total (queue_of [(5, 2); (1300, 1); (7, 9); (28900, 4)]) = u64 (recent (recorded [(5, 2); (1300, 1); (7, 9); (28900, 4)]))
  ∧ recent (recorded [(5, 2); (1300, 1); (7, 9); (28900, 4)]) = 5.
Proof.
  split; [|reflexivity]. apply daily_total. repeat constructor; unfold is_u64; cbn; lia.
Defined.
