(* ===== verification/ChainConfig.v ===== *)
(** * ChainConfig: which rules hold at which block

    src/params/config.go: the blocks at which the rules change, and whether a node may go
    on with another configuration than the one its chain was built with. *)

From S2P Require Import Prelude EvmState.

Local Open Scope Z_scope.

(** The fields of [ChainConfig] but the hash of the EIP 150 block and the parameters of the
    engines; [None] is a nil pointer. *)
Record ChainConfig := mkChainConfig {
  cc_ChainID : option Z;
  cc_HomesteadBlock : option Z;
  cc_DAOForkBlock : option Z;
  cc_DAOForkSupport : bool;
  cc_EIP150Block : option Z;
  cc_EIP155Block : option Z;
  cc_EIP158Block : option Z;
  cc_ByzantiumBlock : option Z;
  cc_ConstantinopleBlock : option Z;
  cc_PetersburgBlock : option Z;
  cc_EWASMBlock : option Z;
  cc_BlockYear : Z
}.

Definition isForked (s : option Z) (head : Z) : bool :=
  match s with None => false | Some s => s <=? head end.

Definition configNumEqual (x y : option Z) : bool :=
  match x, y with
  | None, None => true
  | Some x, Some y => x =? y
  | _, _ => false
  end.

Definition isForkIncompatible (s1 s2 : option Z) (head : Z) : bool :=
  (isForked s1 head || isForked s2 head) && negb (configNumEqual s1 s2).

Section config.
Context (c : ChainConfig).

Definition config_IsHomestead (num : Z) : bool := isForked (cc_HomesteadBlock c) num.
Definition config_IsDAOFork (num : Z) : bool := isForked (cc_DAOForkBlock c) num.
Definition config_IsEIP150 (num : Z) : bool := isForked (cc_EIP150Block c) num.
Definition config_IsEIP155 (num : Z) : bool := isForked (cc_EIP155Block c) num.
Definition config_IsEIP158 (num : Z) : bool := isForked (cc_EIP158Block c) num.
Definition config_IsByzantium (num : Z) : bool := isForked (cc_ByzantiumBlock c) num.
Definition config_IsConstantinople (num : Z) : bool := isForked (cc_ConstantinopleBlock c) num.
Definition config_IsPetersburg (num : Z) : bool :=
  isForked (cc_PetersburgBlock c) num ||
  (negb (bool_decide (is_Some (cc_PetersburgBlock c))) && isForked (cc_ConstantinopleBlock c) num).
Definition config_IsEWASM (num : Z) : bool := isForked (cc_EWASMBlock c) num.

(** The rules the virtual machine works by; the chain id and [IsEIP155], which it does not
    use, are left out. *)
Definition config_Rules (num : Z) : Rules :=
  mkRules (config_IsHomestead num) (config_IsEIP150 num) (config_IsEIP158 num) (config_IsByzantium num)
    (config_IsConstantinople num) (config_IsPetersburg num).
End config.

(** ** Another configuration *)

Inductive fork :=
| HomesteadFork | DAOFork | DAOForkSupportFlag | EIP150Fork | EIP155Fork | EIP158Fork | EIP158ChainID
| ByzantiumFork | ConstantinopleFork | ConstantinopleFixFork | EwasmFork.

Record ConfigCompatError := mkConfigCompatError {
  ce_What : fork;
  ce_StoredConfig : option Z;
  ce_NewConfig : option Z;
  ce_RewindTo : Z
}.

Definition newCompatError (what : fork) (storedblock newblock : option Z) : ConfigCompatError :=
  let rew :=
    match storedblock, newblock with
    | None, _ => newblock
    | Some _, None => storedblock
    | Some a, Some b => if a <? b then storedblock else newblock
    end in
  mkConfigCompatError what storedblock newblock
    (match rew with Some r => if 0 <? r then sub64 (u64 r) 1 else 0 | None => 0 end).

Section compatible.
Context (c newcfg : ChainConfig).

(** The tests, in the order they are made. *)
Definition incompatibilities (head : Z) : list (bool * ConfigCompatError) :=
  let blocks (what : fork) (block : ChainConfig → option Z) :=
    (isForkIncompatible (block c) (block newcfg) head, newCompatError what (block c) (block newcfg)) in
  [blocks HomesteadFork cc_HomesteadBlock;
   blocks DAOFork cc_DAOForkBlock;
   (config_IsDAOFork c head && negb (Bool.eqb (cc_DAOForkSupport c) (cc_DAOForkSupport newcfg)),
     newCompatError DAOForkSupportFlag (cc_DAOForkBlock c) (cc_DAOForkBlock newcfg));
   blocks EIP150Fork cc_EIP150Block;
   blocks EIP155Fork cc_EIP155Block;
   blocks EIP158Fork cc_EIP158Block;
   (config_IsEIP158 c head && negb (configNumEqual (cc_ChainID c) (cc_ChainID newcfg)),
     newCompatError EIP158ChainID (cc_EIP158Block c) (cc_EIP158Block newcfg));
   blocks ByzantiumFork cc_ByzantiumBlock;
   blocks ConstantinopleFork cc_ConstantinopleBlock;
   blocks ConstantinopleFixFork cc_PetersburgBlock;
   blocks EwasmFork cc_EWASMBlock].

Definition checkCompatible (head : Z) : option ConfigCompatError :=
  snd <$> List.find fst (incompatibilities head).

(** The loop, down to the lowest conflict; [None] is a loop that has not come to its end. *)
Fixpoint lowestConflict (fuel : nat) (bhead : Z) (lasterr : option ConfigCompatError) : option (option ConfigCompatError) :=
  match checkCompatible bhead with
  | None => Some lasterr
  | Some err =>
      if match lasterr with Some e => ce_RewindTo err =? ce_RewindTo e | None => false end then Some lasterr
      else match fuel with O => None | S fuel => lowestConflict fuel (ce_RewindTo err) (Some err) end
  end.

Definition CheckCompatible (fuel : nat) (height : Z) : option (option ConfigCompatError) := lowestConflict fuel height None.

(** ** What it promises *)

Definition fork_blocks : list (ChainConfig → option Z) :=
  [cc_HomesteadBlock; cc_DAOForkBlock; cc_EIP150Block; cc_EIP155Block; cc_EIP158Block; cc_ByzantiumBlock;
   cc_ConstantinopleBlock; cc_PetersburgBlock; cc_EWASMBlock].

(** The configurations are the same for all that is built at the block [n]: the rules of
    the virtual machine, the other forks, and the DAO vote and the chain id once they
    matter. *)
Record agree (n : Z) : Prop := {
  ag_rules : config_Rules c n = config_Rules newcfg n;
  ag_eip155 : config_IsEIP155 c n = config_IsEIP155 newcfg n;
  ag_daofork : config_IsDAOFork c n = config_IsDAOFork newcfg n;
  ag_ewasm : config_IsEWASM c n = config_IsEWASM newcfg n;
  ag_support : config_IsDAOFork c n = true → cc_DAOForkSupport c = cc_DAOForkSupport newcfg;
  ag_chain : config_IsEIP158 c n = true → cc_ChainID c = cc_ChainID newcfg
}.

(** The same for the numbers as they are written, a nil number read as never. *)
Record alike (n : Z) : Prop := {
  al_forks : Forall (λ block, isForked (block c) n = isForked (block newcfg) n) fork_blocks;
  al_dao : config_IsDAOFork c n = true → cc_DAOForkSupport c = cc_DAOForkSupport newcfg;
  al_id : config_IsEIP158 c n = true → cc_ChainID c = cc_ChainID newcfg
}.

(** Both configurations name a block for Petersburg, or both leave it to Constantinople. *)
Definition petersburg_alike : Prop := cc_PetersburgBlock c = None ↔ cc_PetersburgBlock newcfg = None.

Lemma agree_alike n : petersburg_alike → agree n ↔ alike n.
Proof.
  intros Hp. unfold petersburg_alike in Hp.
  assert (config_IsPetersburg c n = config_IsPetersburg newcfg n ∧
          config_IsConstantinople c n = config_IsConstantinople newcfg n ↔
          isForked (cc_PetersburgBlock c) n = isForked (cc_PetersburgBlock newcfg) n ∧
          config_IsConstantinople c n = config_IsConstantinople newcfg n) as H.
  { unfold config_IsPetersburg, config_IsConstantinople.
    destruct (cc_PetersburgBlock c) as [p|], (cc_PetersburgBlock newcfg) as [q|]; try (by intuition congruence).
    rewrite !bool_decide_true by (by eexists). cbn [negb andb]. by rewrite !orb_false_r. }
  split.
  - intros [Hr H155 Hd He Hs Hi]. unfold config_Rules in Hr. injection Hr as R1 R2 R3 R4 R5 R6.
    split; [|done|done]. unfold fork_blocks. rewrite !Forall_cons, Forall_nil. tauto.
  - intros [Hf Hd Hi]. unfold fork_blocks in Hf. rewrite !Forall_cons in Hf.
    destruct Hf as (F1 & F2 & F3 & F4 & F5 & F6 & F7 & F8 & F9 & _). destruct (proj2 H (conj F8 F7)) as [P1 P2].
    split; try done. unfold config_Rules, config_IsHomestead, config_IsEIP150, config_IsEIP158, config_IsByzantium.
    by rewrite F1, F3, F5, F6, P1, P2.
Qed.

(** Block numbers are not negative and fit into 64 bits. *)
Definition block_ok (b : option Z) : Prop := from_option is_u64 True b.

Lemma fork_compatible s1 s2 h :
  isForkIncompatible s1 s2 h = false ↔ ∀ n, n ≤ h → isForked s1 n = isForked s2 n.
Proof.
  unfold isForkIncompatible, isForked, configNumEqual. split.
  - intros H n Hn. destruct s1 as [a|], s2 as [b|]; try done.
    + destruct (Z.eqb_spec a b) as [->|Hne]; [done|]. destruct (Z.leb_spec a h), (Z.leb_spec b h); try done.
      destruct (Z.leb_spec a n), (Z.leb_spec b n); lia.
    + destruct (Z.leb_spec a h), (Z.leb_spec a n); try done. lia.
    + destruct (Z.leb_spec b h), (Z.leb_spec b n); try done. lia.
  - intros H. destruct s1 as [a|], s2 as [b|]; try done.
    + destruct (Z.eqb_spec a b) as [->|Hne]; [by rewrite andb_false_r|].
      pose proof (H a) as Ha. pose proof (H b) as Hb.
      destruct (Z.leb_spec a h), (Z.leb_spec b h); try done; destruct (Z.leb_spec a a), (Z.leb_spec b a), (Z.leb_spec a b), (Z.leb_spec b b); intuition (discriminate || lia).
    + pose proof (H a) as Ha. destruct (Z.leb_spec a h); [|done]. destruct (Z.leb_spec a a); intuition (discriminate || lia).
    + pose proof (H b) as Hb. destruct (Z.leb_spec b h); [|done]. destruct (Z.leb_spec b b); intuition (discriminate || lia).
Qed.

Lemma configNumEqual_spec x y : configNumEqual x y = true ↔ x = y.
Proof. destruct x, y; cbn; rewrite ?Z.eqb_eq; split; congruence. Qed.

(** Where a fork that cannot be rescheduled takes place first. *)
Lemma fork_conflict what s1 s2 h :
  0 ≤ h → block_ok s1 → block_ok s2 → isForkIncompatible s1 s2 h = true →
  ∃ r, 0 ≤ r ≤ h ∧ isForked s1 r ≠ isForked s2 r ∧ ce_RewindTo (newCompatError what s1 s2) = Z.max 0 (r - 1).
Proof.
  assert (Hrew : ∀ r, is_u64 r → (if 0 <? r then sub64 (u64 r) 1 else 0) = Z.max 0 (r - 1)).
  { intros r Hr. rewrite u64_id by done. unfold is_u64 in Hr. destruct (Z.ltb_spec 0 r); [|lia].
    rewrite sub64_id by (unfold is_u64; lia). lia. }
  unfold isForkIncompatible, isForked, configNumEqual, newCompatError, block_ok, from_option. intros Hh H1 H2 H. cbn [ce_RewindTo].
  destruct s1 as [a|], s2 as [b|]; try done.
  - destruct (Z.eqb_spec a b); [by rewrite andb_false_r in H|]. exists (Z.min a b). unfold is_u64 in *.
    split; [|split].
    + destruct (Z.leb_spec a h), (Z.leb_spec b h); try done; lia.
    + destruct (Z.leb_spec a (Z.min a b)), (Z.leb_spec b (Z.min a b)); (done || lia).
    + destruct (Z.ltb_spec a b); rewrite Hrew; unfold is_u64; lia.
  - exists a. unfold is_u64 in H1. destruct (Z.leb_spec a h); [|done]. rewrite Z.leb_refl, Hrew by done. split; [lia|done].
  - exists b. unfold is_u64 in H2. destruct (Z.leb_spec b h); [|done]. rewrite Z.leb_refl, Hrew by done. split; [lia|done].
Qed.

(** The configuration of a chain. *)
Definition config_ok (cfg : ChainConfig) : Prop :=
  Forall (λ block : ChainConfig → option Z, block_ok (block cfg)) fork_blocks.

Lemma find_fst_none {A} (l : list (bool * A)) : List.find fst l = None ↔ Forall (λ p, p.1 = false) l.
Proof.
  induction l as [|[[] x] l IH]; cbn; [done|split; [done|by inversion 1]|]. rewrite IH, Forall_cons. cbn. naive_solver.
Qed.

Lemma flag_compatible (block : ChainConfig → option Z) (P : Prop) (b : bool) h :
  (b = true ↔ P) → isForked (block c) h && negb b = false ↔ (∀ n, n ≤ h → isForked (block c) n = true → P).
Proof.
  intros Hb. assert (Hmono : ∀ n, n ≤ h → isForked (block c) n = true → isForked (block c) h = true).
  { unfold isForked. intros n Hn. destruct (block c); [|done]. rewrite !Z.leb_le. lia. }
  destruct (isForked (block c) h) eqn:E; cbn [andb].
  - rewrite negb_false_iff, Hb. split; [by intros HP n _ _|]. intros H. by apply (H h); [lia|].
  - split; [|done]. intros _ n Hn Hf. apply Hmono in Hf; [congruence|done].
Qed.

Lemma check_none h : checkCompatible h = None ↔ ∀ n, n ≤ h → alike n.
Proof.
  unfold checkCompatible. rewrite fmap_None, find_fst_none.
  assert (Hdao := flag_compatible cc_DAOForkBlock (cc_DAOForkSupport c = cc_DAOForkSupport newcfg)
    (Bool.eqb (cc_DAOForkSupport c) (cc_DAOForkSupport newcfg)) h (Bool.eqb_true_iff _ _)).
  assert (Hid := flag_compatible cc_EIP158Block (cc_ChainID c = cc_ChainID newcfg) _ h (configNumEqual_spec _ _)).
  unfold incompatibilities. rewrite !Forall_cons, Forall_nil. cbn [fst]. unfold config_IsDAOFork, config_IsEIP158.
  rewrite !fork_compatible, Hdao, Hid. split.
  - intros H n Hn. split; [|by apply H..]. repeat constructor; by apply H.
  - intros H. split_and!; try done; intros n Hn; destruct (H n Hn) as [Hf Hd Hi]; try done;
      unfold fork_blocks in Hf; rewrite !Forall_cons in Hf; apply Hf.
Qed.

Lemma flag_conflict what s1 s2 h :
  block_ok s1 → isForkIncompatible s1 s2 h = false → isForked s1 h = true →
  ∃ r, 0 ≤ r ≤ h ∧ isForked s1 r = true ∧ ce_RewindTo (newCompatError what s1 s2) = Z.max 0 (r - 1).
Proof.
  intros H1 Hi Hf. unfold isForkIncompatible in Hi. rewrite Hf in Hi. cbn [orb andb] in Hi.
  apply negb_false_iff, configNumEqual_spec in Hi as <-. destruct s1 as [a|]; [|done]. exists a.
  cbn in *. apply Z.leb_le in Hf. unfold is_u64 in H1. rewrite Z.leb_refl, Z.ltb_irrefl, u64_id by done. split_and!; [lia..|done|].
  destruct (Z.ltb_spec 0 a); [|lia]. rewrite sub64_id by (unfold is_u64; lia). lia.
Qed.

(** A conflict is just above the block the error names. *)
Lemma check_some h err :
  0 ≤ h → config_ok c → config_ok newcfg → checkCompatible h = Some err →
  ∃ r, 0 ≤ r ≤ h ∧ ¬ alike r ∧ ce_RewindTo err = Z.max 0 (r - 1).
Proof.
  intros Hh Hc Hn. unfold config_ok in Hc, Hn. rewrite Forall_forall in Hc, Hn.
  unfold checkCompatible, incompatibilities. cbn [List.find fst].
  assert (Hblock : ∀ what block, block ∈ fork_blocks → isForkIncompatible (block c) (block newcfg) h = true →
    ∃ r, 0 ≤ r ≤ h ∧ ¬ alike r ∧ ce_RewindTo (newCompatError what (block c) (block newcfg)) = Z.max 0 (r - 1)).
  { intros what block Hin H. destruct (fork_conflict what _ _ h Hh (Hc _ Hin) (Hn _ Hin) H) as (r & Hr & Hd & E).
    exists r. split_and!; [lia..| |done]. intros [Hf _ _]. rewrite Forall_forall in Hf. by apply Hd, Hf. }
  assert (Hin : Forall (λ block, block ∈ fork_blocks) fork_blocks) by (by apply Forall_forall).
  unfold fork_blocks in Hin at 2. rewrite !Forall_cons in Hin.
  destruct (isForkIncompatible (cc_HomesteadBlock c) _ h) eqn:E1; [intros [= <-]; apply (Hblock _ cc_HomesteadBlock); [apply Hin|done]|].
  destruct (isForkIncompatible (cc_DAOForkBlock c) _ h) eqn:E2; [intros [= <-]; apply (Hblock _ cc_DAOForkBlock); [apply Hin|done]|].
  destruct (config_IsDAOFork c h && _) eqn:E3.
  { apply andb_true_iff in E3 as [Ef Hne]. intros [= <-].
    edestruct flag_conflict as (r & Hr & Hf & E); [apply (Hc cc_DAOForkBlock), Hin|exact E2|exact Ef|]. exists r. split_and!; [lia..| |done].
    intros [_ Hd _]. rewrite (Hd Hf), Bool.eqb_reflx in Hne. done. }
  destruct (isForkIncompatible (cc_EIP150Block c) _ h) eqn:E4; [intros [= <-]; apply (Hblock _ cc_EIP150Block); [apply Hin|done]|].
  destruct (isForkIncompatible (cc_EIP155Block c) _ h) eqn:E5; [intros [= <-]; apply (Hblock _ cc_EIP155Block); [apply Hin|done]|].
  destruct (isForkIncompatible (cc_EIP158Block c) _ h) eqn:E6; [intros [= <-]; apply (Hblock _ cc_EIP158Block); [apply Hin|done]|].
  destruct (config_IsEIP158 c h && _) eqn:E7.
  { apply andb_true_iff in E7 as [Ef Hne]. intros [= <-].
    edestruct flag_conflict as (r & Hr & Hf & E); [apply (Hc cc_EIP158Block), Hin|exact E6|exact Ef|]. exists r. split_and!; [lia..| |done].
    intros [_ _ Hi]. rewrite (proj2 (configNumEqual_spec _ _) (Hi Hf)) in Hne. done. }
  destruct (isForkIncompatible (cc_ByzantiumBlock c) _ h) eqn:E8; [intros [= <-]; apply (Hblock _ cc_ByzantiumBlock); [apply Hin|done]|].
  destruct (isForkIncompatible (cc_ConstantinopleBlock c) _ h) eqn:E9; [intros [= <-]; apply (Hblock _ cc_ConstantinopleBlock); [apply Hin|done]|].
  destruct (isForkIncompatible (cc_PetersburgBlock c) _ h) eqn:E10; [intros [= <-]; apply (Hblock _ cc_PetersburgBlock); [apply Hin|done]|].
  destruct (isForkIncompatible (cc_EWASMBlock c) _ h) eqn:E11; [intros [= <-]; apply (Hblock _ cc_EWASMBlock); [apply Hin|done]|].
  done.
Qed.

(** [h] is the last block before a conflict, or the first block has one. *)
Definition below_conflict (h : Z) : Prop := ¬ alike (h + 1) ∨ h = 0 ∧ ¬ alike 0.

(** The loop ends at the lowest conflict. *)
Lemma lowestConflict_ends fuel : ∀ h last,
  0 ≤ h → config_ok c → config_ok newcfg → h + (if last is None then 1 else 0) ≤ Z.of_nat fuel →
  from_option (λ e, ce_RewindTo e = h ∧ below_conflict h) True last →
  ∃ r, lowestConflict fuel h last = Some r ∧
    match r with
    | None => last = None ∧ ∀ n, n ≤ h → alike n
    | Some e => 0 ≤ ce_RewindTo e ≤ h ∧ below_conflict (ce_RewindTo e) ∧
                (ce_RewindTo e = 0 ∨ ∀ n, n ≤ ce_RewindTo e → alike n)
    end.
Proof.
  induction fuel as [|fuel IH]; intros h last Hh Hc Hn Hf Hl; cbn [lowestConflict];
    (destruct (checkCompatible h) as [err|] eqn:E;
     [|exists last; split; [done|]; pose proof (proj1 (check_none h) E) as Ha; destruct last as [e|]; [|done];
       destruct Hl as [-> Hl]; split_and!; [lia..|done|by right]]);
    destruct (check_some h err Hh Hc Hn E) as (r & Hr & Hd & Er).
  - destruct last as [e|]; [|lia]. destruct Hl as [El Hl]. rewrite Er, El, (proj2 (Z.eqb_eq _ _)) by lia.
    exists (Some e). split; [done|]. rewrite El. split_and!; [lia..|done|left; lia].
  - assert (Hb : below_conflict (ce_RewindTo err)).
    { unfold below_conflict. rewrite Er. destruct (Z.eq_dec r 0) as [->|]; [by right|left].
      replace (Z.max 0 (r - 1) + 1) with r by lia. done. }
    assert (Hgo : ce_RewindTo err < h ∨ last = None → ∃ r, lowestConflict fuel (ce_RewindTo err) (Some err) = Some r ∧
      match r with
      | None => last = None ∧ ∀ n, n ≤ h → alike n
      | Some e => 0 ≤ ce_RewindTo e ≤ h ∧ below_conflict (ce_RewindTo e) ∧
                  (ce_RewindTo e = 0 ∨ ∀ n, n ≤ ce_RewindTo e → alike n)
      end).
    { intros Hlt. destruct (IH (ce_RewindTo err) (Some err)) as (r' & -> & Hr'); try done.
      - lia.
      - destruct last; intuition lia.
      - exists r'. split; [done|]. destruct r' as [e|]; [|by destruct Hr']. intuition lia. }
    destruct last as [e|]; [|by apply Hgo; right]. destruct Hl as [El Hl]. rewrite El.
    destruct (Z.eqb_spec (ce_RewindTo err) h) as [Eh|]; [|apply Hgo; left; lia].
    exists (Some e). split; [done|]. rewrite El. split_and!; [lia..|done|left; lia].
Qed.

Lemma written_checked fuel height :
  0 ≤ height < Z.of_nat fuel → config_ok c → config_ok newcfg →
  ∃ r, CheckCompatible fuel height = Some r ∧ (r = None ↔ ∀ n, n ≤ height → alike n) ∧
    match r with
    | None => True
    | Some e => 0 ≤ ce_RewindTo e ≤ height ∧ below_conflict (ce_RewindTo e) ∧
                (ce_RewindTo e = 0 ∨ ∀ n, n ≤ ce_RewindTo e → alike n)
    end.
Proof.
  intros Hh Hc Hn. destruct (lowestConflict_ends fuel height None) as (r & E & Hr); [lia|done|done|lia|done|].
  exists r. split; [done|]. split; [|by destruct r]. split.
  - intros ->. by destruct Hr.
  - intros Ha%check_none. unfold CheckCompatible in E. by destruct fuel; cbn [lowestConflict] in E; rewrite Ha in E; simplify_eq.
Qed.

(** C32. A chain is not continued with rules that change its past, if both configurations
    name a block for Petersburg or both leave it to Constantinople.  [CheckCompatible] ends;
    it accepts a configuration exactly when the rules of the virtual machine, the other
    forks, the DAO vote and the chain id that hold at the blocks up to the head are those
    the chain was built with; otherwise the block it names is the last one before the
    configurations differ (or the first block of the chain, when they differ there), so
    that a chain rewound to it is accepted. *)
Theorem config_checked fuel height :
  0 ≤ height < Z.of_nat fuel → config_ok c → config_ok newcfg → petersburg_alike →
  ∃ r, CheckCompatible fuel height = Some r ∧ (r = None ↔ ∀ n, n ≤ height → agree n) ∧
    match r with
    | None => True
    | Some e => 0 ≤ ce_RewindTo e ≤ height ∧
                (¬ agree (ce_RewindTo e + 1) ∨ ce_RewindTo e = 0 ∧ ¬ agree 0) ∧
                (ce_RewindTo e = 0 ∨ ∀ n, n ≤ ce_RewindTo e → agree n)
    end.
Proof.
  intros Hh Hc Hn Hp. destruct (written_checked fuel height Hh Hc Hn) as (r & E & Hr & He).
  pose proof (λ n, agree_alike n Hp) as Ha. exists r. split; [done|].
  split; [rewrite Hr; split; intros H n Hl; by apply Ha, H|].
  destruct r as [e|]; [|done]. destruct He as (H1 & H2 & H3). rewrite !Ha. split; [done|]. split; [exact H2|].
  destruct H3 as [H3|H3]; [by left|right]. intros n Hl. by apply Ha, H3.
Qed.
End compatible.

Module ConfigExample.
Definition old : ChainConfig :=
  mkChainConfig (Some 1) (Some 0) None false (Some 5) (Some 10) (Some 10) (Some 20) (Some 30) None None 100.
Definition new : ChainConfig :=
  mkChainConfig (Some 1) (Some 0) None false (Some 5) (Some 12) (Some 10) (Some 20) (Some 30) None None 100.
Definition late : ChainConfig :=
  mkChainConfig (Some 1) (Some 0) None false (Some 5) (Some 10) (Some 10) (Some 20) (Some 30) (Some 90) None 100.
End ConfigExample.
Import ConfigExample.

(** At block 50 the fork of EIP 155 is known to have been at 10. *)
Lemma config_checked_witness :
  ∃ e, CheckCompatible old new 51 50 = Some (Some e) ∧ ce_RewindTo e = 9 ∧ agree old new 9.
Proof.
  assert (config_ok old ∧ config_ok new) as [Hold Hnew]
    by (split; unfold config_ok, fork_blocks; rewrite !Forall_cons; cbn; unfold is_u64; split_and!; (done || lia)).
  destruct (config_checked old new 51 50 ltac:(lia) Hold Hnew) as (r & E & Hr); [unfold petersburg_alike; done|].
  vm_compute in E. injection E as <-. destruct Hr as (_ & _ & _ & [H|H]); [done|].
  eexists. split; [vm_compute; reflexivity|]. split; [done|]. apply H. done.
Defined.

(** A fork of Petersburg that is left to Constantinople and then scheduled for later is
    overlooked: the configuration is accepted, but the rules of past blocks change. *)
Lemma petersburg_overlooked :
  CheckCompatible old late 51 50 = Some None ∧
  config_Rules old 40 ≠ config_Rules late 40.
Proof. by split. Qed.
