(* ===== verification/Transaction.v ===== *)
(** * Transaction: signing and the sender

    src/core/types/transaction.go and transaction_signing.go: the hashes of a transaction,
    the three schemes it is signed with, the sender its signature stands for and the cache
    of the sender.  The curve (src/crypto/secp256k1, a C library) is a parameter. *)

From S2P Require Import Prelude Bytes Crypto Types EvmWord EvmPrecompiled StateTransition ChainConfig.

Local Open Scope Z_scope.

(** The part of secp256k1 that signs: [Sign] and the public key of a private key in the
    form of [FromECDSAPub]. *)
Class Secp256k1 := {
  secp_Sign : bytes → Z → option bytes;
  FromECDSAPub : Z → bytes
}.

(** What its documentation states: a signature has the form R, S, V with V 0 or 1 and a
    low S, and the public key is recovered from it. *)
Class SecpCorrect `{PR : Primitives} `{SG : Secp256k1} : Prop := {
  pub_form prv : ∃ xy, FromECDSAPub prv = 4 :: xy;
  sign_form h prv sig : secp_Sign h prv = Some sig →
    ∃ r s v, sig = be_bytes 32 r ++ be_bytes 32 s ++ [v] ∧ 1 ≤ r < secp256k1N ∧ 1 ≤ s ≤ secp256k1halfN ∧ 0 ≤ v ≤ 1;
  sign_recover h prv sig : secp_Sign h prv = Some sig → Ecrecover h sig = Some (FromECDSAPub prv)
}.

Inductive sig_error := ErrInvalidSig | ErrInvalidChainId | errRecover | errInvalidPublicKey | errSign.

Inductive Signer :=
| EIP155Signer (chainId chainIdMul : Z)
| HomesteadSigner
| FrontierSigner.

Definition NewEIP155Signer (chainId : option Z) : Signer :=
  let chainId := default 0 chainId in EIP155Signer chainId (chainId * 2).

Definition MakeSigner (config : ChainConfig) (blockNumber : Z) : Signer :=
  if config_IsEIP155 config blockNumber then NewEIP155Signer (cc_ChainID config)
  else if config_IsHomestead config blockNumber then HomesteadSigner
  else FrontierSigner.

Definition Signer_Equal (s s2 : Signer) : bool :=
  match s, s2 with
  | EIP155Signer id _, EIP155Signer id2 _ => id2 =? id
  | HomesteadSigner, HomesteadSigner => true
  | FrontierSigner, FrontierSigner => true
  | _, _ => false
  end.

Definition isProtectedV (V : Z) : bool :=
  if BitLen V <=? 8 then
    let v := Big_Uint64 V in negb (v =? 27) && negb (v =? 28)
  else true.

Definition deriveChainId (v : Z) : Z :=
  if BitLen v <=? 64 then
    let v := Big_Uint64 v in
    if (v =? 27) || (v =? 28) then 0 else sub64 v 35 `div` 2
  else (v - 35) `div` 2.

Section signing.
Context `{CR : Crypto} `{PR : Primitives} `{SG : Secp256k1}.

(** The fields that are signed, as the encoder gets them; the recipient is nil for a
    creation. *)
Definition signed_fields (tx : Transaction) : list rlp_item :=
  [RUint (tx_AccountNonce tx); RBig (tx_Price tx); RUint (tx_GasLimit tx);
   RArr (from_option (be_bytes 20) [] (tx_Recipient tx)); RBig (tx_Amount tx); RArr (tx_Payload tx)].

Definition Signer_Hash (s : Signer) (tx : Transaction) : Hash :=
  keccak256 (rlp_list (signed_fields tx ++
    match s with EIP155Signer chainId _ => [RBig chainId; RUint 0; RUint 0] | _ => [] end)).

Definition Transaction_Hash (tx : Transaction) : Hash :=
  keccak256 (rlp_list (signed_fields tx ++ [RBig (tx_V tx); RBig (tx_R tx); RBig (tx_S tx)])).

Definition recoverPlain (sighash : Hash) (R S Vb : Z) (homestead : bool) : sig_error + Address :=
  if 8 <? BitLen Vb then inl ErrInvalidSig
  else
    let V := sub64 (Big_Uint64 (Z.abs Vb)) 27 `mod` 256 in
    if negb (ValidateSignatureValues V R S homestead) then inl ErrInvalidSig
    else
      let sig := right_aligned 32 (big_bytes R) ++ right_aligned 32 (big_bytes S) ++ [V] in
      match Ecrecover (Hash_Bytes sighash) sig with
      | None => inl errRecover
      | Some [] => inl errInvalidPublicKey
      | Some (p0 :: pub) =>
          if negb (p0 =? 4) then inl errInvalidPublicKey
          else inr (be_int (drop 12 (Hash_Bytes (keccak256 pub))))
      end.

Definition Signer_Sender (s : Signer) (tx : Transaction) : sig_error + Address :=
  match s with
  | FrontierSigner => recoverPlain (Signer_Hash FrontierSigner tx) (tx_R tx) (tx_S tx) (tx_V tx) false
  | HomesteadSigner => recoverPlain (Signer_Hash HomesteadSigner tx) (tx_R tx) (tx_S tx) (tx_V tx) true
  | EIP155Signer chainId chainIdMul =>
      if negb (isProtectedV (tx_V tx)) then
        recoverPlain (Signer_Hash HomesteadSigner tx) (tx_R tx) (tx_S tx) (tx_V tx) true
      else if negb (deriveChainId (tx_V tx) =? chainId) then inl ErrInvalidChainId
      else recoverPlain (Signer_Hash s tx) (tx_R tx) (tx_S tx) (tx_V tx - chainIdMul - 8) true
  end.

(** [None] is the panic on a signature of a wrong size. *)
Definition SignatureValues (s : Signer) (sig : bytes) : option (Z * Z * Z) :=
  if negb (length sig =? 65)%nat then None
  else
    v ← sig !! 64%nat;
    let R := be_int (take 32 sig) in
    let S := be_int (take 32 (drop 32 sig)) in
    match s with
    | EIP155Signer chainId chainIdMul =>
        Some (R, S, if chainId =? 0 then (v + 27) `mod` 256 else (v + 35) `mod` 256 + chainIdMul)
    | _ => Some (R, S, (v + 27) `mod` 256)
    end.

Definition WithSignature (tx : Transaction) (s : Signer) (sig : bytes) : option Transaction :=
  '(r, s, v) ← SignatureValues s sig;
  Some (mkTransaction (tx_AccountNonce tx) (tx_Price tx) (tx_GasLimit tx) (tx_Recipient tx) (tx_Amount tx)
    (tx_Payload tx) v r s 0).

Definition SignTx (tx : Transaction) (s : Signer) (prv : Z) : option (sig_error + Transaction) :=
  match secp_Sign (Hash_Bytes (Signer_Hash s tx)) prv with
  | None => Some (inl errSign)
  | Some sig => tx ← WithSignature tx s sig; Some (inr tx)
  end.

Definition PubkeyToAddress (prv : Z) : Address :=
  BytesToAddress (drop 12 (Hash_Bytes (keccak256 (drop 1 (FromECDSAPub prv))))).

(** [Sender] with the cache of the transaction. *)
Definition sigCache : Type := option (Signer * Address).

Definition Sender (signer : Signer) (tx : Transaction) (cache : sigCache) : (sig_error + Address) * sigCache :=
  let derived :=
    match Signer_Sender signer tx with
    | inl err => (inl err, cache)
    | inr addr => (inr addr, Some (signer, addr))
    end in
  match cache with
  | Some (s, from) => if Signer_Equal s signer then (inr from, cache) else derived
  | None => derived
  end.

Definition AsMessage (tx : Transaction) (s : Signer) (cache : sigCache) : (sig_error + Message) * sigCache :=
  let '(from, cache) := Sender s tx cache in
  (match from with
   | inl err => inl err
   | inr from => inr (mkMessage (tx_Recipient tx) from (tx_AccountNonce tx) (tx_Amount tx) (tx_GasLimit tx)
                        (tx_Price tx) (tx_Payload tx) true (Transaction_Hash tx))
   end, cache).

(** ** What signing promises *)

Definition signer_ok (s : Signer) : Prop :=
  match s with EIP155Signer chainId chainIdMul => 0 < chainId ∧ chainIdMul = chainId * 2 | _ => True end.

Lemma right_aligned_big r : 0 ≤ r < 2 ^ 256 → right_aligned 32 (big_bytes r) = be_bytes 32 r.
Proof.
  intros Hr. apply be_int_inj.
  - unfold right_aligned. case_match; apply Forall_app; split; try apply Forall_drop; try apply big_bytes_ok;
      apply Forall_replicate; unfold byte_ok; lia.
  - apply be_bytes_ok.
  - rewrite length_be_bytes. pose proof (length_big_bytes_short 32 r Hr) as Hl. unfold right_aligned.
    rewrite (proj2 (Nat.ltb_ge 32 _)) by done. rewrite length_app, length_replicate. lia.
  - rewrite right_aligned_int by apply big_bytes_ok. rewrite be_int_big_bytes, be_int_be_bytes by lia. done.
Qed.

Lemma address_bytes b : length b = 20%nat → BytesToAddress b = be_int b.
Proof.
  intros H. unfold BytesToAddress, right_aligned, AddressLength. rewrite (proj2 (Nat.ltb_ge 20 (length b))), H by lia. done.
Qed.

Lemma BitLen_byte x : 0 ≤ x → (BitLen x <=? 8) = (x <? 256).
Proof.
  intros H. pose proof (BitLen_lt x 8 H ltac:(lia)) as E. destruct (Z.leb_spec (BitLen x) 8), (Z.ltb_spec x 256); try done; lia.
Qed.

Lemma chain_id_derived id v : 0 < id → 0 ≤ v ≤ 1 → deriveChainId (v + 35 + id * 2) = id.
Proof.
  intros Hid Hv. unfold deriveChainId. destruct (Z.leb_spec (BitLen (v + 35 + id * 2)) 64) as [H|_].
  - apply BitLen_lt in H; [|lia..]. unfold Big_Uint64. rewrite u64_id by (unfold is_u64; lia).
    rewrite (proj2 (Z.eqb_neq _ 27)), (proj2 (Z.eqb_neq _ 28)) by lia. cbn [orb].
    rewrite sub64_id by (unfold is_u64; lia). Z.to_euclidean_division_equations. lia.
  - Z.to_euclidean_division_equations. lia.
Qed.

Lemma protected_v id v : 0 < id → 0 ≤ v ≤ 1 → isProtectedV (v + 35 + id * 2) = true.
Proof.
  intros Hid Hv. unfold isProtectedV. rewrite BitLen_byte by lia. case_match; [|done]. unfold Big_Uint64.
  rewrite u64_id by (unfold is_u64; lia). rewrite (proj2 (Z.eqb_neq _ 27)), (proj2 (Z.eqb_neq _ 28)) by lia. done.
Qed.

Lemma recoverPlain_signed `{SC : !SecpCorrect} h prv r s v homestead :
  secp_Sign (Hash_Bytes h) prv = Some (be_bytes 32 r ++ be_bytes 32 s ++ [v]) →
  1 ≤ r < secp256k1N → 1 ≤ s ≤ secp256k1halfN → 0 ≤ v ≤ 1 →
  recoverPlain h r s (27 + v) homestead = inr (PubkeyToAddress prv).
Proof.
  intros E Hr Hs Hv. unfold recoverPlain. assert (HN : secp256k1halfN < secp256k1N ∧ secp256k1N < 2 ^ 256) by done.
  rewrite Z.ltb_antisym, BitLen_byte, (proj2 (Z.ltb_lt _ 256)) by lia. cbn [negb].
  replace (sub64 (Big_Uint64 (Z.abs (27 + v))) 27 `mod` 256) with v.
  2: { unfold Big_Uint64. rewrite Z.abs_eq, u64_id, sub64_id by (unfold is_u64; lia). rewrite Z.mod_small; lia. }
  assert (ValidateSignatureValues v r s homestead = true) as ->.
  { unfold ValidateSignatureValues. rewrite !(proj2 (Z.ltb_ge _ 1)), (proj2 (Z.ltb_ge secp256k1halfN s)), andb_false_r by lia. cbn [orb].
    rewrite !(proj2 (Z.ltb_lt _ secp256k1N)) by lia. destruct (Z.eqb_spec v 0), (Z.eqb_spec v 1); (done || lia). }
  cbn [negb]. rewrite !right_aligned_big, (sign_recover _ _ _ E) by lia. destruct (pub_form prv) as [xy Hp].
  unfold PubkeyToAddress. rewrite Hp. cbn [Z.eqb Pos.eqb negb drop]. rewrite drop_0, address_bytes; [done|].
  by rewrite length_drop; unfold Hash_Bytes; rewrite length_be_bytes.
Qed.

(** The signed transaction. *)
Definition with_values (tx : Transaction) (r s v : Z) : Transaction :=
  mkTransaction (tx_AccountNonce tx) (tx_Price tx) (tx_GasLimit tx) (tx_Recipient tx) (tx_Amount tx) (tx_Payload tx) v r s 0.

Lemma Signer_Hash_values sg tx r s v : Signer_Hash sg (with_values tx r s v) = Signer_Hash sg tx.
Proof. done. Qed.

Definition signed_v (sg : Signer) (v : Z) : Z :=
  match sg with EIP155Signer chainId chainIdMul => v + 35 + chainIdMul | _ => v + 27 end.

Lemma SignTx_values `{SC : !SecpCorrect} tx sg prv :
  signer_ok sg → secp_Sign (Hash_Bytes (Signer_Hash sg tx)) prv ≠ None →
  ∃ r s v, SignTx tx sg prv = Some (inr (with_values tx r s (signed_v sg v))) ∧
    secp_Sign (Hash_Bytes (Signer_Hash sg tx)) prv = Some (be_bytes 32 r ++ be_bytes 32 s ++ [v]) ∧
    1 ≤ r < secp256k1N ∧ 1 ≤ s ≤ secp256k1halfN ∧ 0 ≤ v ≤ 1.
Proof.
  intros Hs H. destruct (secp_Sign _ prv) as [sig|] eqn:E; [|done].
  destruct (sign_form _ _ _ E) as (r & s & v & -> & Hr & Hs' & Hv). exists r, s, v. split; [|done].
  assert (HN : secp256k1halfN < secp256k1N ∧ secp256k1N < 256 ^ Z.of_nat 32) by done.
  unfold SignTx, WithSignature, SignatureValues. rewrite E. rewrite !length_app, !length_be_bytes. cbn [length Nat.add Nat.eqb negb].
  rewrite lookup_app_r, lookup_app_r by (rewrite ?length_be_bytes; lia). rewrite !length_be_bytes. cbn [Nat.sub lookup list_lookup].
  cbn [mbind option_bind]. rewrite take_app_length' by (by rewrite length_be_bytes). rewrite drop_app_length' by (by rewrite length_be_bytes).
  rewrite take_app_length', !be_int_be_bytes_id by (by rewrite ?length_be_bytes || lia).
  unfold with_values, signed_v. destruct sg as [id mul| |]; cbn.
  - destruct Hs as [Hid ->]. rewrite (proj2 (Z.eqb_neq id 0)), Z.mod_small by lia. done.
  - rewrite Z.mod_small by lia. done.
  - rewrite Z.mod_small by lia. done.
Qed.

(** The cache after the sender was asked for with some signers in turn. *)
Definition asked (tx : Transaction) (l : list Signer) : sigCache :=
  foldl (λ cache s, snd (Sender s tx cache)) None l.

Definition canonical (s : Signer) : Prop :=
  match s with EIP155Signer chainId chainIdMul => chainIdMul = chainId * 2 | _ => True end.

Definition cache_right (tx : Transaction) (cache : sigCache) : Prop :=
  from_option (λ '(s, from), canonical s ∧ Signer_Sender s tx = inr from) True cache.

Lemma Signer_Equal_eq s s' : canonical s → canonical s' → Signer_Equal s s' = true → s = s'.
Proof. destruct s, s'; cbn; intros H H' E; try done. apply Z.eqb_eq in E. congruence. Qed.

Lemma Sender_right s tx cache :
  canonical s → cache_right tx cache → fst (Sender s tx cache) = Signer_Sender s tx ∧ cache_right tx (snd (Sender s tx cache)).
Proof.
  intros Hs Hc. unfold Sender.
  assert (Hd : ∀ p, p = match Signer_Sender s tx with inl err => (inl err, cache) | inr addr => (inr addr, Some (s, addr)) end →
    p.1 = Signer_Sender s tx ∧ cache_right tx p.2) by (intros p ->; by destruct (Signer_Sender s tx) eqn:E).
  destruct cache as [[s' from]|]; [|by apply Hd]. destruct (Signer_Equal s' s) eqn:E; [|by apply Hd].
  destruct Hc as [Hs' Hc]. apply Signer_Equal_eq in E as ->; done.
Qed.

Lemma asked_right tx l : Forall canonical l → cache_right tx (asked tx l).
Proof.
  unfold asked. generalize (None : sigCache) (I : cache_right tx None). induction l as [|s l IH]; intros cache Hc Hl; [done|].
  inversion_clear Hl. cbn. apply IH; [|done]. by apply Sender_right.
Qed.


(** With the chain id 0 the hash that is signed is not the one that is recovered from: the
    signature is made over the hash with the chain id, but has the form without one. *)
Lemma chain_id_zero_recovers tx sig tx' :
  WithSignature tx (NewEIP155Signer None) sig = Some tx' → sig !! 64%nat = Some 0 →
  Signer_Sender (NewEIP155Signer None) tx' = Signer_Sender HomesteadSigner tx' ∧
  Signer_Hash (NewEIP155Signer None) tx' = keccak256 (rlp_list (signed_fields tx ++ [RBig 0; RUint 0; RUint 0])).
Proof.
  intros E H. unfold WithSignature, SignatureValues in E. rewrite H in E. case_match; [done|]. cbn in E.
  injection E as <-. done.
Qed.
End signing.

(** ** A toy curve, in which a signature repeats the key *)

Module ToySecp.
#[export] Instance primitives : Primitives := ToyPrimitives.primitives.

#[export] Instance secp : Secp256k1 := {|
  secp_Sign _ prv := if (1 <=? prv) && (prv <? secp256k1N) then Some (be_bytes 32 prv ++ be_bytes 32 1 ++ [0]) else None;
  FromECDSAPub prv := 4 :: be_bytes 32 prv
|}.

#[export] Instance secp_correct : SecpCorrect.
Proof.
  split.
  - intros prv. by eexists.
  - intros h prv sig E. cbn in E. case_match eqn:H; [|done]. injection E as <-. apply andb_true_iff in H as [?%Z.leb_le ?%Z.ltb_lt].
    exists prv, 1, 0. split; [done|]. split; [done|]. split; [done|lia].
  - intros h prv sig E. cbn in E. case_match; [|done]. injection E as <-. change (Some (4 :: take 32 (be_bytes 32 prv ++ be_bytes 32 1 ++ [0])) = Some (4 :: be_bytes 32 prv)).
    by rewrite take_app_length' by (by rewrite length_be_bytes).
Qed.

Definition tx : Transaction := mkTransaction 3 1 21000 (Some 17) 7 [] 0 0 0 0.
End ToySecp.

