(* ===== verification/TrieProof.v ===== *)
(** * TrieProof: Merkle proofs

    src/trie/proof.go with the node decoder of src/trie/node.go and the sets of nodes of
    src/core/types/nodeset.go: a proof is made of the encoded nodes on the way to a key,
    and is checked against a root hash alone.  The RLP library is a parameter. *)

From S2P Require Import Prelude Bytes Crypto TrieEncoding Trie TrieTree TrieFacts Hasher HasherFacts.

Local Open Scope Z_scope.

(** ** The RLP library *)

Inductive rlp_kind := KindByte | KindString | KindList.

(** The encoder of strings and lists (of a list, the encoded elements are given), and the
    functions that take an encoding apart: [Split], [SplitString], [SplitList], which give
    the content and the rest, and [CountValues], whose error is never looked at. *)
Class Rlp := {
  enc_string : bytes → bytes;
  enc_list : bytes → bytes;
  rlp_Split : bytes → option (rlp_kind * bytes * bytes);
  rlp_SplitString : bytes → option (bytes * bytes);
  rlp_SplitList : bytes → option (bytes * bytes);
  rlp_CountValues : bytes → Z
}.

(** An encoding: one string, or one list. *)
Definition encoding `{Rlp} (e : bytes) : Prop := (∃ s, e = enc_string s) ∨ (∃ p, e = enc_list p).

(** What is documented of them. *)
Class RlpCorrect `{RL : Rlp} : Prop := {
  split_string s rest : rlp_SplitString (enc_string s ++ rest) = Some (s, rest);
  split_list p rest : rlp_SplitList (enc_list p ++ rest) = Some (p, rest);
  split_kind_string s rest :
    rlp_Split (enc_string s ++ rest) =
      Some (match s with [b] => if b <? 128 then KindByte else KindString | _ => KindString end, s, rest);
  split_kind_list p rest : rlp_Split (enc_list p ++ rest) = Some (KindList, p, rest);
  count_values l : Forall encoding l → rlp_CountValues (mjoin l) = Z.of_nat (length l);
  split_list_shorter b p rest : rlp_SplitList b = Some (p, rest) → (length p < length b)%nat;
  split_shorter b k v rest : rlp_Split b = Some (k, v, rest) → (length rest < length b)%nat
}.

(** ** Encoding and decoding nodes (node.go) *)

Section nodes.
Context `{RL : Rlp}.

(** The encoding of collapsed nodes: [EncodeRLP] of a full node puts the empty string for
    a child that is nil, and a short node is the list of its key and its child. *)
Fixpoint encodeNode (n : rawNode) : bytes :=
  match n with
  | rawFullNode children =>
      enc_list ((fix go l := match l with
                             | [] => []
                             | Some c :: l => encodeNode c ++ go l
                             | None :: l => enc_string [] ++ go l
                             end) children)
  | rawShortNode key val =>
      enc_list (enc_string key ++ match val with Some c => encodeNode c | None => enc_string [] end)
  | rawHash h => enc_string h
  | rawValue v => enc_string v
  end.

(** The result of decoding: a value, an error, or fuel that did not suffice. *)
Inductive decoding (A : Type) :=
| Decoded (a : A)
| BadNode
| DecodesOn.
#[global] Arguments Decoded {A} a.
#[global] Arguments BadNode {A}.
#[global] Arguments DecodesOn {A}.

#[global] Instance decoding_bind : MBind decoding := λ A B f m,
  match m with Decoded a => f a | BadNode => BadNode | DecodesOn => DecodesOn end.

Definition hashLen : nat := 32.

Definition decodeRef (decodeNode : bytes → decoding node) (buf : bytes) : decoding (option node * bytes) :=
  match rlp_Split buf with
  | None => BadNode
  | Some (KindList, _, rest) =>
      if (hashLen <? length buf - length rest)%nat then BadNode
      else n ← decodeNode buf; Decoded (Some n, rest)
  | Some (KindString, val, rest) =>
      if (length val =? 0)%nat then Decoded (None, rest)
      else if (length val =? 32)%nat then Decoded (Some (hashNode val), rest)
      else BadNode
  | Some (KindByte, _, _) => BadNode
  end.

Definition decodeShort (decodeNode : bytes → decoding node) (hash : option bytes) (elems : bytes) (cachegen : Z) : decoding node :=
  match rlp_SplitString elems with
  | None => BadNode
  | Some (kbuf, rest) =>
      let flag := mkFlag hash cachegen false in
      let key := compactToHex kbuf in
      if hasTerm key then
        match rlp_SplitString rest with
        | None => BadNode
        | Some (val, _) => Decoded (shortNode key (Some (valueNode val)) flag)
        end
      else '(r, _) ← decodeRef decodeNode rest; Decoded (shortNode key r flag)
  end.

(** The loop over the first sixteen children. *)
Fixpoint decodeKids (decodeNode : bytes → decoding node) (n : nat) (elems : bytes) : decoding (list (option node) * bytes) :=
  match n with
  | O => Decoded ([], elems)
  | S n =>
      '(cld, elems) ← decodeRef decodeNode elems;
      '(clds, elems) ← decodeKids decodeNode n elems;
      Decoded (cld :: clds, elems)
  end.

Definition decodeFull (decodeNode : bytes → decoding node) (hash : option bytes) (elems : bytes) (cachegen : Z) : decoding node :=
  '(clds, elems) ← decodeKids decodeNode 16 elems;
  match rlp_SplitString elems with
  | None => BadNode
  | Some (val, _) =>
      Decoded (fullNode (clds ++ [if (0 <? length val)%nat then Some (valueNode val) else None]) (mkFlag hash cachegen false))
  end.

Fixpoint decodeNode (fuel : nat) (hash : option bytes) (buf : bytes) (cachegen : Z) : decoding node :=
  match fuel with
  | O => DecodesOn
  | S fuel =>
      if (length buf =? 0)%nat then BadNode
      else
        match rlp_SplitList buf with
        | None => BadNode
        | Some (elems, _) =>
            let embedded buf := decodeNode fuel None buf cachegen in
            let c := rlp_CountValues elems in
            if c =? 2 then decodeShort embedded hash elems cachegen
            else if c =? 17 then decodeFull embedded hash elems cachegen
            else BadNode
        end
  end.
End nodes.

(** ** Sets of nodes (nodeset.go) *)

Record NodeSet := mkNodeSet {
  ns_nodes : gmap Hash bytes;
  ns_order : list Hash
}.

Definition NewNodeSet : NodeSet := mkNodeSet ∅ [].

Definition NodeSet_Put (key : Hash) (value : bytes) (s : NodeSet) : NodeSet :=
  match ns_nodes s !! key with
  | Some _ => s
  | None => mkNodeSet (<[key := value]> (ns_nodes s)) (ns_order s ++ [key])
  end.

Definition NodeSet_NodeList (s : NodeSet) : list bytes := (λ key, default [] (ns_nodes s !! key)) <$> ns_order s.

Section proofs.
Context `{CR : Crypto} `{RL : Rlp}.

(** [NodeList.NodeSet] *)
Definition NodeList_NodeSet (n : list bytes) : NodeSet :=
  foldl (λ db node, NodeSet_Put (keccak256 node) node db) NewNodeSet n.

(** ** Checking (proof.go) *)

(** [get]: what is left of the key, and the node where the walk ends; [None] is a panic. *)
Fixpoint get (tn : node) (key : bytes) : option (bytes * option node) :=
  let get' tn key := match tn with Some n => get n key | None => Some (key, None) end in
  match tn with
  | shortNode nKey nVal _ =>
      if (length key <? length nKey)%nat || negb (bool_decide (nKey = take (length nKey) key)) then Some ([], None)
      else get' nVal (drop (length nKey) key)
  | fullNode children _ =>
      match key with
      | [] => None
      | k0 :: krest =>
          if k0 <? 0 then None
          else (fix nth l i := match l with
                               | [] => None
                               | c :: l => match i with O => get' c krest | S i => nth l i end
                               end) children (Z.to_nat k0)
      end
  | hashNode _ => Some (key, Some tn)
  | valueNode _ => Some ([], Some tn)
  end.

(** The value, nil when the trie does not have the key; an error; a panic; or a walk that
    has not come to its end. *)
Inductive verdict :=
| Proved (value : option bytes)
| Refused
| VerifyPanics
| VerifiesOn.

(** With the hashes the database is asked for. *)
Fixpoint verifyFrom (fuel : nat) (wantHash : Hash) (key : bytes) (proofDb : NodeSet) : list Hash * verdict :=
  match ns_nodes proofDb !! wantHash with
  | None => ([wantHash], Refused)
  | Some buf =>
      match decodeNode (S (length buf)) (Some (Hash_Bytes wantHash)) buf 0 with
      | BadNode => ([wantHash], Refused)
      | DecodesOn => ([wantHash], VerifiesOn)
      | Decoded n =>
          match get n key with
          | None => ([wantHash], VerifyPanics)
          | Some (_, None) => ([wantHash], Proved None)
          | Some (keyrest, Some (hashNode cld)) =>
              match fuel with
              | O => ([wantHash], VerifiesOn)
              | S fuel => let '(reads, v) := verifyFrom fuel (BytesToHash cld) keyrest proofDb in (wantHash :: reads, v)
              end
          | Some (_, Some (valueNode v)) => ([wantHash], Proved (Some v))
          | Some _ => ([wantHash], VerifiesOn)
          end
      end
  end.

Definition VerifyProof (fuel : nat) (rootHash : Hash) (key : bytes) (proofDb : NodeSet) : list Hash * verdict :=
  verifyFrom fuel rootHash (keybytesToHex key) proofDb.

(** ** Making *)

Section prove.
Context (db_node : Hash → Z → option node) (cachegen : Z).

(** The nodes on the path to the key. *)
Fixpoint proofPath (fuel : nat) (tn : option node) (key : bytes) : outcome (list node) :=
  match fuel with
  | O => Crash
  | S fuel =>
      match key, tn with
      | [], _ | _, None => Ret []
      | k0 :: krest, Some n =>
          match n with
          | shortNode nKey nVal _ =>
              if (length key <? length nKey)%nat || negb (bool_decide (nKey = take (length nKey) key)) then Ret [n]
              else l ← proofPath fuel nVal (drop (length nKey) key); Ret (n :: l)
          | fullNode children _ =>
              child ← at_index children k0;
              l ← proofPath fuel child krest; Ret (n :: l)
          | hashNode h => n ← resolveHash db_node cachegen h []; proofPath fuel (Some n) key
          | valueNode _ => Crash
          end
      end
  end.

(** [hashChildren] without a database, and the cached hash of the node. *)
Definition hashChildren (n : node) : option (rawNode * option bytes) :=
  match n with
  | shortNode key val fl =>
      ckey ← hexToCompact key;
      '(cval, _, _) ← (match val with
                       | None => None
                       | Some (valueNode v) => Some (rawValue v, valueNode v, None)
                       | Some c => hash encodeNode 0 0 c None false
                       end);
      Some (rawShortNode ckey (Some cval), nf_hash fl)
  | fullNode children fl =>
      '(cs, _, _) ← hashKids (λ c db, hash encodeNode 0 0 c db false) O children None;
      Some (rawFullNode cs, nf_hash fl)
  | hashNode h => Some (rawHash h, None)
  | valueNode v => Some (rawValue v, None)
  end.

(** The loop that encodes the nodes of the path; [first] is the first turn. *)
Fixpoint proofNodes (first : bool) (nodes : list node) (fromLevel : Z) (proofDb : NodeSet) : option NodeSet :=
  match nodes with
  | [] => Some proofDb
  | n :: nodes =>
      '(collapsed, cached) ← hashChildren n;
      let hn := fst (store encodeNode cached collapsed None false) in
      let hash := match hn with rawHash h => Some h | _ => None end in
      if bool_decide (is_Some hash) || first then
        if 0 <? fromLevel then proofNodes false nodes (fromLevel - 1) proofDb
        else
          let enc := encodeNode collapsed in
          let hash := match hash with Some h => BytesToHash h | None => keccak256 enc end in
          proofNodes false nodes fromLevel (NodeSet_Put hash enc proofDb)
      else proofNodes false nodes fromLevel proofDb
  end.

Definition Prove (fuel : nat) (root : option node) (key : bytes) (fromLevel : Z) (proofDb : NodeSet) : outcome NodeSet :=
  nodes ← proofPath fuel root (keybytesToHex key);
  match proofNodes true nodes fromLevel proofDb with Some s => Ret s | None => Crash end.
End prove.
End proofs.
