(* ===== verification/TrieProofFacts.v ===== *)
(** * TrieProofFacts: Merkle proofs are complete and sound

    What [Prove] puts into a set of nodes passes [VerifyProof], and whatever nodes a peer
    sends, [VerifyProof] ends without a panic and accepts only what the trie of the root
    hash stores. *)

From S2P Require Import Prelude Bytes Crypto TrieEncoding Trie TrieTree TrieFacts Hasher HasherFacts TrieProof.

Local Open Scope Z_scope.

Section facts.
Context `{CR : Crypto} `{DS : !DigestSize} `{RL : Rlp} `{RC : !RlpCorrect}.

Abbreviation body := (body encodeNode).
Abbreviation refnode := (refnode encodeNode).

(** ** Decoding what was encoded *)

(** A reference as it is encoded, and as it is decoded. *)
Definition encref (r : option rawNode) : bytes := match r with Some c => encodeNode c | None => enc_string [] end.
Definition expref (r : option rawNode) (g : Z) : option node := (λ c, expandNode None c g) <$> r.

Lemma encodeNode_full cs : encodeNode (rawFullNode cs) = enc_list (mjoin (encref <$> cs)).
Proof. cbn [encodeNode]. f_equal. induction cs as [|[c|] cs IH]; [done|..]; cbn; by rewrite IH. Qed.

Lemma expandNode_full hsh cs g : expandNode hsh (rawFullNode cs) g = fullNode ((λ r, expref r g) <$> cs) (mkFlag hsh g false).
Proof. cbn [expandNode]. f_equal. induction cs as [|[c|] cs IH]; [done|..]; cbn; by rewrite IH. Qed.

Lemma expandNode_short hsh k r g : expandNode hsh (rawShortNode k r) g = shortNode (compactToHex k) (expref r g) (mkFlag hsh g false).
Proof. by destruct r. Qed.

Lemma encref_encoding r : encoding (encref r).
Proof. destruct r as [[cs|k v|h|v]|]; [right|right|left..]; eexists; reflexivity. Qed.

Lemma body_encoding t : wft t → ∃ p, encodeNode (body t) = enc_list p.
Proof. destruct 1; [eexists; reflexivity..|]. rewrite body_full, encodeNode_full. by eexists. Qed.

Lemma refnode_wft t : wft t → refnode t = Some (seal encodeNode (body t)).
Proof. by destruct 1. Qed.

Lemma key_term k : key_ok k → hasTerm k = true.
Proof.
  intros H. assert (∃ h, k = h ++ [16]) as [h ->]; [|by rewrite hasTerm_snoc].
  induction H as [|x k Hx _ (h & ->)]; [by exists []|by exists (x :: h)].
Qed.

(** Decoding the subtree [t], with anything behind it. *)
Definition decodes (t : tree) : Prop := ∀ fuel hsh g rest,
  (length (encodeNode (body t) ++ rest) < fuel)%nat →
  decodeNode fuel hsh (encodeNode (body t) ++ rest) g = Decoded (expandNode hsh (body t) g).

Lemma decode_ref t fuel g rest :
  t = TNil ∨ wft t → (wft t → decodes t) → (length (encref (refnode t) ++ rest) < fuel)%nat →
  decodeRef (λ buf, decodeNode fuel None buf g) (encref (refnode t) ++ rest) = Decoded (expref (refnode t) g, rest).
Proof.
  intros [->|Hw] Hd Hf; unfold decodeRef.
  { cbn [encref HasherFacts.refnode]. by rewrite split_kind_string. }
  rewrite refnode_wft in * by done. unfold seal in *. destruct (Nat.ltb_spec (length (encodeNode (body t))) 32) as [Hs|Hs].
  - cbn [encref] in *. destruct (body_encoding t Hw) as [p Ep]. rewrite Ep, split_kind_list, <- Ep. unfold hashLen.
    rewrite length_app, (proj2 (Nat.ltb_ge 32 _)) by lia. rewrite Hd by done. done.
  - cbn [encref encodeNode] in *. assert (Hl : length (makeHashNode (encodeNode (body t))) = 32%nat) by apply length_be_bytes.
    rewrite split_kind_string. destruct (makeHashNode (encodeNode (body t))) as [|x [|y h]] eqn:E; try done. by rewrite Hl.
Qed.

Lemma mjoin_cons (e : bytes) l : mjoin (e :: l) = e ++ mjoin l.
Proof. done. Qed.

Lemma decode_kids l fuel g rest :
  (∀ t, t ∈ l → t = TNil ∨ wft t) → (∀ t, t ∈ l → wft t → decodes t) →
  (length (mjoin (encref <$> (refnode <$> l)) ++ rest) < fuel)%nat →
  decodeKids (λ buf, decodeNode fuel None buf g) (length l) (mjoin (encref <$> (refnode <$> l)) ++ rest) =
    Decoded ((λ r, expref r g) <$> (refnode <$> l), rest).
Proof.
  induction l as [|t l IH]; intros Hp Hd Hf; [done|]. rewrite !fmap_cons in *. rewrite mjoin_cons, <- app_assoc in *. cbn [length decodeKids]. rewrite decode_ref; [|apply Hp; by left|apply Hd; by left|done].
  unfold mbind, decoding_bind. rewrite IH; [done|intros; apply Hp; by right|intros; apply Hd; [by right|done]|].
  rewrite !length_app in *. lia.
Qed.

Lemma mjoin_snoc (l : list bytes) e : mjoin (l ++ [e]) = mjoin l ++ e.
Proof. induction l as [|x l IH]; [apply app_nil_r|]. cbn [app]. by rewrite !mjoin_cons, IH, app_assoc. Qed.

Lemma refs_snoc l v : mjoin (encref <$> (refnode <$> l ++ [v])) = mjoin (encref <$> (refnode <$> l)) ++ encref (refnode v).
Proof. rewrite !fmap_app. apply mjoin_snoc. Qed.

(** The children of a full node: sixteen references, and a value. *)
Lemma full_split ch : wft (TFull ch) → ∃ l v, ch = l ++ [v] ∧ length l = 16%nat ∧
  (∀ t, t ∈ l → t = TNil ∨ wft t) ∧ (v = TNil ∨ ∃ x, x ≠ [] ∧ v = TVal x).
Proof.
  intros Hw. inversion Hw as [| |? Hl Hch H16 _]; subst. assert (Hlast : is_Some (ch !! 16%nat)) by (apply lookup_lt_is_Some_2; lia).
  destruct Hlast as [v Hv]. exists (take 16 ch), v. split_and!.
  - rewrite <- (take_drop 16 ch) at 1. f_equal. rewrite (drop_S ch v 16) by done. by rewrite drop_ge by lia.
  - rewrite length_take. lia.
  - intros t [i Hi]%list_elem_of_lookup_1. pose proof (lookup_lt_Some _ _ _ Hi) as Hlt. rewrite length_take in Hlt.
    rewrite lookup_take_lt in Hi by lia. destruct (full_places ch i t Hw Hi) as [?|Ht]; [by left|right].
    by rewrite (proj2 (Nat.ltb_lt i 16)) in Ht by lia.
  - pose proof (child_lookup _ _ _ Hv) as Ec. change (Z.of_nat 16) with 16 in Ec. rewrite Ec in H16.
    destruct (decide (v = TNil)) as [|Hn]; [by left|right]. by apply H16.
Qed.

Lemma decode_body t : wft t → decodes t.
Proof.
  induction t as [|v|k t IH|ch IH] using tree_rec'; intros Hw fuel hsh g rest Hf; [inversion Hw|inversion Hw|..];
    (destruct fuel as [|fuel]; [lia|]); destruct (body_encoding _ Hw) as [p Ep]; pose proof (split_list p rest) as Es;
    rewrite <- Ep in Es; pose proof (split_list_shorter _ _ _ Es) as Hsh; cbn [decodeNode];
    (rewrite (proj2 (Nat.eqb_neq (length _) 0)) by lia); rewrite Es.
  - rewrite body_short in *. cbn [encodeNode] in Ep. fold (encref (refnode t)) in Ep. assert (p = enc_string (compact k) ++ encref (refnode t)) as ->.
    { pose proof (split_list (enc_string (compact k) ++ encref (refnode t)) []) as E1. pose proof (split_list p []) as E2. congruence. }
    destruct (placed_short k t Hw) as (_ & _ & Hk). destruct (compact_hex k Hk) as [_ Ek].
    assert (rlp_CountValues (enc_string (compact k) ++ encref (refnode t)) = 2) as ->.
    { rewrite <- (app_nil_r (encref _)). apply (count_values [enc_string (compact k); encref (refnode t)]).
      apply Forall_cons_2; [left; by eexists|]. apply Forall_cons_2; [apply encref_encoding|constructor]. }
    cbn [Z.eqb Pos.eqb]. unfold decodeShort. rewrite split_string, expandNode_short, Ek.
    destruct (wft_below _ _ Hw) as [(Hk' & v & _ & ->)|(Hk' & Hf' & ch & ->)].
    + rewrite key_term by done. cbn [encref HasherFacts.refnode encodeNode]. rewrite <- (app_nil_r (enc_string v)), split_string. done.
    + rewrite hasTerm_nibbles by done. rewrite <- (app_nil_r (encref _)) in *.
      rewrite decode_ref; [done|by right|by apply IH|]. rewrite !length_app in *. lia.
  - rewrite body_full in *. rewrite encodeNode_full in Ep. assert (p = mjoin (encref <$> (refnode <$> ch))) as ->.
    { pose proof (split_list (mjoin (encref <$> (refnode <$> ch))) []) as E1. pose proof (split_list p []) as E2. congruence. }
    destruct (full_split ch Hw) as (l & v & -> & Hl & Hp & Hv).
    rewrite count_values by (apply Forall_fmap, Forall_fmap, Forall_true; intros; apply encref_encoding).
    rewrite !length_fmap, length_app, Hl. cbn [length]. change (Z.of_nat (16 + 1)) with 17. cbn [Z.eqb Pos.eqb].
    unfold decodeFull. rewrite refs_snoc in *. rewrite Forall_forall in IH. rewrite <- Hl at 1.
    rewrite decode_kids; [|done|intros t Ht; apply IH; apply elem_of_app; by left|lia].
    unfold mbind, decoding_bind. rewrite expandNode_full. rewrite !fmap_app. cbn [fmap list_fmap].
    destruct Hv as [->|(x & Hx & ->)]; cbn [encref HasherFacts.refnode encodeNode]; rewrite <- (app_nil_r (enc_string _)), split_string; [done|].
    destruct x; [done|]. done.
Qed.

(** ** Walking down the decoded nodes *)

Definition getopt (tn : option node) (key : bytes) : option (bytes * option node) :=
  match tn with Some n => get n key | None => Some (key, None) end.

Lemma get_full children fl i k :
  0 ≤ i → get (fullNode children fl) (i :: k) = match children !! Z.to_nat i with Some c => getopt c k | None => None end.
Proof.
  intros Hi. cbn [get]. rewrite (proj2 (Z.ltb_ge i 0)) by lia. generalize (Z.to_nat i). clear Hi.
  induction children as [|c children IH]; intros n; [by destruct n|]. destruct n as [|n]; [done|]. apply IH.
Qed.

Lemma get_short p v fl k :
  get (shortNode p v fl) k = match strip p k with Some r => getopt v r | None => Some ([], None) end.
Proof.
  cbn [get]. rewrite strip_take. case_bool_decide as Hp; cbn [negb]; [|by rewrite orb_true_r].
  rewrite orb_false_r, (proj2 (Nat.ltb_ge _ _)); [done|]. apply (f_equal length) in Hp. rewrite length_take in Hp. lia.
Qed.

(** The subtrees on the way to a key, with what is left of the key. *)
Inductive on_path : tree → bytes → tree → bytes → Prop :=
| path_here t k : on_path t k t k
| path_short p t r u k : on_path t r u k → on_path (TShort p t) (p ++ r) u k
| path_full ch i r u k : on_path (child ch i) r u k → on_path (TFull ch) (i :: r) u k.

Lemma on_path_short_inv p t k u k' : on_path (TShort p t) k u k' → u = TShort p t ∨ ∃ r, k = p ++ r ∧ on_path t r u k'.
Proof. inversion 1; subst; eauto. Qed.

Lemma on_path_trans t k u k' w k'' : on_path t k u k' → on_path u k' w k'' → on_path t k w k''.
Proof. intros H1 H2. induction H1; [done|constructor; auto..]. Qed.

Lemma on_path_subtree t k u k' : wfo t ∨ (∃ v, t = TVal v) → u ≠ TNil → on_path t k u k' → subtree u t.
Proof.
  intros Hw Hn H. induction H as [t k|p t r u k Hp IH|ch i r u k Hp IH]; [constructor|..].
  - constructor. apply IH; [|done]. destruct Hw as [[?|Hw]|[? ?]]; [done| |done].
    inversion Hw; subst; [right; by eexists|left; by right].
  - destruct (ch !! Z.to_nat i) as [t|] eqn:E.
    + assert (child ch i = t) as Ec by (unfold child; by rewrite E). rewrite Ec in *. eapply sub_full; [by eapply list_elem_of_lookup_2|].
      apply IH; [|done]. destruct Hw as [[?|Hw]|[? ?]]; [done| |done].
      destruct (placed_child ch t Hw (list_elem_of_lookup_2 _ _ _ E)) as [->|[[v ->]|Ht]]; [by left; left|right; by eexists|by left; right].
    + assert (child ch i = TNil) as Ec by (unfold child; by rewrite E). rewrite Ec in Hp. inversion Hp; subst; done.
Qed.

(** The subtrees on the way that are referred to by their hash, and with the first one those
    that are looked up. *)
Definition hashed_on (t : tree) (k : bytes) (u : tree) : Prop :=
  ∃ k', on_path t k u k' ∧ wft u ∧ hashed_root encodeNode u.
Definition looked_up (t : tree) (k : bytes) (u : tree) : Prop :=
  ∃ k', on_path t k u k' ∧ wft u ∧ (u = t ∨ hashed_root encodeNode u).

(** Where the walk through the nodes that are embedded in one another ends; [P] are those
    that were passed by. *)
Definition ends_at (t : tree) (k : bytes) (d : nat) (P : tree → Prop) (r : option (bytes * option node)) : Prop :=
  match r with
  | Some (_, None) => (∀ w, hashed_on t k w → P w) ∧ tget t k = []
  | Some (_, Some (valueNode v)) => v ≠ [] ∧ (∀ w, hashed_on t k w → P w) ∧ tget t k = v
  | Some (k', Some (hashNode h)) =>
      ∃ u, wft u ∧ key_ok k' ∧ refnode u = Some (rawHash h) ∧ tget t k = tget u k' ∧ on_path t k u k' ∧
           (d + length k' ≤ length k)%nat ∧ (∀ w, hashed_on t k w → P w ∨ looked_up u k' w)
  | _ => False
  end.

(** A subtree below its parent: as the parent refers to it. *)
Definition walks (t : tree) : Prop := ∀ k hsh g, key_ok k → ends_at t k 1 (λ w, w = t) (get (expandNode hsh (body t) g) k).

Lemma hashed_on_looked_up t k u : hashed_on t k u → looked_up t k u.
Proof. intros (k' & ? & ? & ?). exists k'. split_and!; try done. by right. Qed.

Lemma looked_up_inv t k u : looked_up t k u → u = t ∨ hashed_on t k u.
Proof. intros (k' & ? & ? & [|]); [by left|right; by exists k']. Qed.

Lemma ref_walks t k g : wft t → walks t → key_ok k → ends_at t k 0 (λ _, False) (getopt (expref (refnode t) g) k).
Proof.
  intros Hw Ht Hk. pose proof (refnode_wft t Hw) as Er. rewrite Er. cbn. unfold seal in *.
  destruct (Nat.ltb_spec (length (encodeNode (body t))) 32) as [Hs|Hs].
  - assert (Hno : ¬ hashed_root encodeNode t).
    { intros [h Eh]. rewrite Eh in Er. destruct (body_encoding t Hw) as [p Ep]. injection Er as Er. rewrite <- Er in Hs. cbn in Hs.
      destruct Hw; [done|done|by rewrite body_full in Er]. }
    assert (Hex : ∀ w, hashed_on t k w → w = t → False) by (intros w (k' & _ & _ & Hh) ->; done).
    specialize (Ht k None g Hk). unfold ends_at in *. repeat case_match; try done.
    + destruct Ht as (u & ? & ? & ? & ? & ? & ? & Hl). exists u. split_and!; try done; [lia|].
      intros w Hh. destruct (Hl w Hh) as [Hwt|]; [by destruct (Hex w Hh)|by right].
    + destruct Ht as (? & Hl & ?). split_and!; try done. intros w Hh. by eapply Hex, Hl.
    + destruct Ht as (Hl & ?). split_and!; try done. intros w Hh. by eapply Hex, Hl.
  - cbn. exists t. split_and!; try done; [constructor|]. intros w Hh. right. by apply hashed_on_looked_up.
Qed.

Lemma ends_at_step t k u r n :
  tget t k = tget u r → (∀ w k', on_path u r w k' → on_path t k w k') → (∀ w k', on_path t k w k' → w = t ∨ on_path u r w k') →
  (n + length r ≤ length k)%nat →
  ∀ res, ends_at u r 0 (λ _, False) res → ends_at t k n (λ w, w = t) res.
Proof.
  intros Eg Hp Hi Hl. assert (Hh : ∀ w, hashed_on t k w → w = t ∨ hashed_on u r w).
  { intros w (k' & Ho & ? & ?). destruct (Hi w k' Ho) as [|]; [by left|right; by exists k']. }
  intros [[k' [[| |h|v]|]]|] He; cbn in *; try done.
  - destruct He as (w & ? & ? & ? & ? & ? & ? & Hn). exists w. split_and!; try done; [congruence|by apply Hp|lia|].
    intros x Hx. destruct (Hh x Hx) as [|Hx']; [by left|right]. by destruct (Hn x Hx').
  - destruct He as (? & Hn & <-). split_and!; try done. intros x Hx. destruct (Hh x Hx) as [|Hx']; [done|by destruct (Hn x Hx')].
  - destruct He as (Hn & <-). split_and!; try done. intros x Hx. destruct (Hh x Hx) as [|Hx']; [done|by destruct (Hn x Hx')].
Qed.

Lemma fits_walks t k g : fits t k → (wft t → walks t) → ends_at t k 0 (λ _, False) (getopt (expref (refnode t) g) k).
Proof.
  assert (Hnone : ∀ k, (¬ wft t) → (∀ u k', on_path t k u k' → u = t) → ∀ w, hashed_on t k w → False).
  { intros k0 Hn Hp w (k' & Ho & Hw & _). by rewrite (Hp w k' Ho) in Hw. }
  intros Hf Hw. destruct k as [|x k].
  - destruct Hf as [->|(v & Hv & ->)]; cbn.
    + split; [|done]. intros w. apply Hnone; [inversion 1|by inversion 1].
    + split; [done|]. split; [|done]. intros w. apply Hnone; [inversion 1|by inversion 1].
  - destruct Hf as [Hk [->|Ht]]; [|apply ref_walks; auto]. cbn. split; [|done]. intros w. apply Hnone; [inversion 1|by inversion 1].
Qed.

Lemma body_walks t : wft t → walks t.
Proof.
  induction t as [|v|p t IH|ch IH] using tree_rec'; intros Hw k hsh g Hk; [inversion Hw|inversion Hw|..].
  - rewrite body_short, expandNode_short. destruct (placed_short p t Hw) as (_ & _ & Hh). destruct (compact_hex p Hh) as [_ ->].
    rewrite get_short. destruct (strip p k) as [r|] eqn:E.
    2: { unfold ends_at. rewrite tget_short, E. split; [|done]. intros w (k' & Ho & _). apply on_path_short_inv in Ho as [->|(r & -> & _)]; [done|].
         by rewrite strip_app in E. }
    apply strip_Some in E as ->. destruct (fits_short p t r Hw Hk) as [Hp Hr].
    pose proof (fits_walks t r g Hr IH) as He. apply (ends_at_step (TShort p t) (p ++ r) t r 1) in He; [done|..].
    + by rewrite tget_short, strip_app.
    + intros w k' H. by constructor.
    + intros w k' [->|(r' & Er & Ho)]%on_path_short_inv; [by left|right]. by apply app_inv_head in Er as <-.
    + rewrite length_app. destruct p; [done|cbn; lia].
  - rewrite body_full, expandNode_full. destruct k as [|i k]; [inversion Hk|].
    destruct (fits_full ch i k Hw Hk) as (Hi & Hlt & Hf). rewrite get_full by done.
    pose proof (child_lookup_lt ch i Hlt) as Hc. rewrite !list_lookup_fmap, Hc. cbn [fmap option_fmap option_map].
    rewrite Forall_forall in IH. pose proof (fits_walks (child ch i) k g Hf (IH _ (list_elem_of_lookup_2 _ _ _ Hc))) as He.
    apply (ends_at_step (TFull ch) (i :: k) (child ch i) k 1) in He; [done|by rewrite tget_full|..].
    + intros w k' H. by constructor.
    + intros w k' H. inversion H; subst; [by left|by right].
    + done.
Qed.

(** ** Checking a proof *)

(** What the trie stores under a key, nil for nothing. *)
Definition answer (t : tree) (k : bytes) : option bytes := match tget t k with [] => None | v => Some v end.

Definition nodeHash (t : tree) : Hash := keccak256 (encodeNode (body t)).

(** What the set has under the hash of a node of the trie is that node. *)
Definition genuine (S : NodeSet) (t : tree) : Prop :=
  ∀ u buf, subtree u t → ns_nodes S !! nodeHash u = Some buf → buf = encodeNode (body u).

Lemma subtree_trans s u t : subtree s u → subtree u t → subtree s t.
Proof. intros Hs. induction 1; [done|by constructor|by eapply sub_full]. Qed.

Lemma verify_walk S fuel : ∀ t k, wft t → key_ok k → genuine S t → (length k ≤ fuel)%nat →
  let '(reads, v) := verifyFrom fuel (nodeHash t) k S in
  v = Proved (answer t k) ∧ (∀ u, looked_up t k u → nodeHash u ∈ reads) ∨
  v = Refused ∧ ∃ u, looked_up t k u ∧ ns_nodes S !! nodeHash u = None.
Proof.
  induction fuel as [|fuel IH]; intros t k Hw Hk Hg Hf; [destruct k; [inversion Hk|cbn in Hf; lia]|].
  cbn [verifyFrom]. destruct (ns_nodes S !! nodeHash t) as [buf|] eqn:E.
  2: { right. split; [done|]. exists t. split; [|done]. exists k. split; [constructor|]. split; [done|by left]. }
  rewrite (Hg t buf (sub_refl t) E). pose proof (decode_body t Hw (Datatypes.S (length (encodeNode (body t)))) (Some (Hash_Bytes (nodeHash t))) 0 []) as Hd.
  rewrite !app_nil_r in Hd. rewrite Hd by lia. pose proof (body_walks t Hw k (Some (Hash_Bytes (nodeHash t))) 0 Hk) as He.
  destruct (get _ k) as [[k' [[| |h|v]|]]|]; cbn [ends_at] in He; try done; cycle 1.
  - left. unfold answer. destruct He as (Hv & Hlast & ->). split; [by destruct v|]. intros u [->|Hu%Hlast]%looked_up_inv; [by left|]. rewrite Hu. by left.
  - left. unfold answer. destruct He as (Hlast & ->). split; [done|]. intros u [->|Hu%Hlast]%looked_up_inv; [by left|]. rewrite Hu. by left.
  - destruct He as (u & Hu & Hk' & Hr & Hget & Hp & Hl & Hnext). destruct (refnode_hash encodeNode u h Hr (wft_not_nil u Hu)) as (_ & -> & _). fold (nodeHash u).
    assert (Hsub : subtree u t) by (eapply on_path_subtree; [by left; right|by apply wft_not_nil|exact Hp]).
    specialize (IH u k' Hu Hk'). destruct (verifyFrom fuel (nodeHash u) k' S) as [reads v].
    destruct IH as [[-> Hall]|[-> (w & (k2 & Hp' & Hw' & Hor) & Hnone)]]; [|lia| |].
    + intros w buf' Hs. apply Hg. by eapply subtree_trans.
    + left. unfold answer. rewrite Hget. split; [done|]. intros w [->|Hlw]%looked_up_inv; [by left|]. destruct (Hnext w Hlw) as [->|Hlw']; [by left|right; by apply Hall].
    + right. split; [done|]. exists w. split; [|done]. exists k2. split; [by eapply on_path_trans|]. split; [done|]. right.
      destruct Hor as [->|]; [by exists h|done].
Qed.

(** The set of a list of nodes. *)
Lemma NodeSet_Put_lookup key value S h :
  ns_nodes (NodeSet_Put key value S) !! h =
    match ns_nodes S !! h with Some v => Some v | None => if decide (key = h) then Some value else None end.
Proof.
  unfold NodeSet_Put. destruct (decide (key = h)) as [->|Hne].
  - destruct (ns_nodes S !! h) eqn:E; [by rewrite E|]. cbn. by rewrite lookup_insert_eq.
  - destruct (ns_nodes S !! key); [by destruct (ns_nodes S !! h)|]. cbn. rewrite lookup_insert_ne by done. by destruct (ns_nodes S !! h).
Qed.

Lemma NodeList_lookup l h buf : ns_nodes (NodeList_NodeSet l) !! h = Some buf → buf ∈ l ∧ h = keccak256 buf.
Proof.
  unfold NodeList_NodeSet. assert (Hgen : ∀ S, ns_nodes (foldl (λ db node, NodeSet_Put (keccak256 node) node db) S l) !! h = Some buf →
    ns_nodes S !! h = Some buf ∨ buf ∈ l ∧ h = keccak256 buf).
  { induction l as [|x l IH]; intros S H; [by left|]. cbn in H. apply IH in H as [H|[? ?]]; [|right; split; [by right|done]].
    rewrite NodeSet_Put_lookup in H. destruct (ns_nodes S !! h); [by left|]. case_decide; [|done]. injection H as <-. right. split; [by left|done]. }
  intros H%Hgen. destruct H as [H|H]; [|done]. cbn in H. by rewrite lookup_empty in H.
Qed.

(** A list of nodes that was sent, none of which collides with one of the trie. *)
Lemma verify_sent fuel t key l :
  wft t → Forall byte_ok key → (2 * length key < fuel)%nat →
  (∀ u buf, subtree u t → buf ∈ l → keccak256 buf = nodeHash u → buf = encodeNode (body u)) →
  ∃ reads v, VerifyProof fuel (rootHash encodeNode t) key (NodeList_NodeSet l) = (reads, v) ∧
    (v = Refused ∨ v = Proved (answer t (keybytesToHex key))).
Proof.
  intros Hw Hk Hf Hc. unfold VerifyProof. replace (rootHash encodeNode t) with (nodeHash t) by (by destruct Hw).
  pose proof (verify_walk (NodeList_NodeSet l) fuel t (keybytesToHex key)) as H. destruct (verifyFrom _ _ _ _) as [reads v].
  exists reads, v. split; [done|].
  destruct H as [[-> _]|[-> _]]; [done|by apply hex_key| |rewrite hex_length; lia|by right|by left].
  intros u buf Hu H. apply NodeList_lookup in H as [Hin E]. by apply Hc.
Qed.

(** A walk that comes to its end found all it asked for. *)
Lemma reads_found S fuel : ∀ h k reads v, verifyFrom fuel h k S = (reads, Proved v) → Forall (λ h, is_Some (ns_nodes S !! h)) reads.
Proof.
  induction fuel as [|fuel IH]; intros h k reads v; cbn [verifyFrom]; destruct (ns_nodes S !! h) as [buf|] eqn:E; try done;
    destruct (decodeNode _ _ _ _) as [n| |]; try done; destruct (get n k) as [[kr [[]|]]|]; try done;
    try (intros [= <- _]; by repeat constructor).
  destruct (verifyFrom fuel _ kr S) as [r v'] eqn:Ef. intros [= <- ->]. constructor; [done|]. by eapply IH.
Qed.

(** C14. Merkle proofs cannot be forged.  Whatever list of nodes a peer sends, checking it
    against the root hash of a trie ends, without a panic, and either refuses it or gives
    exactly what the trie stores under the key (nil for nothing), as long as no node of
    the list collides with one of the trie. *)
Theorem proof_sound fuel t key l :
  wft t → Forall byte_ok key → (2 * length key < fuel)%nat →
  (∀ u buf, subtree u t → buf ∈ l → keccak256 buf = keccak256 (encodeNode (body u)) → buf = encodeNode (body u)) →
  snd (VerifyProof fuel (rootHash encodeNode t) key (NodeList_NodeSet l)) = Refused ∨
  snd (VerifyProof fuel (rootHash encodeNode t) key (NodeList_NodeSet l)) = Proved (answer t (keybytesToHex key)).
Proof. intros Hw Hk Hf Hc. by destruct (verify_sent fuel t key l) as (reads & v & -> & Hv). Qed.

(** ** Making a proof *)

(** Among the nodes there are, different ones have different hashes. *)
Context (known : rawNode → Prop).
Hypothesis no_collision : ∀ c c', known c → known c' → keccak256 (encodeNode c) = keccak256 (encodeNode c') → c = c'.
Context (cachegen : Z).

Abbreviation nodes D := (expands (db_node D) (valid encodeNode D) (meant encodeNode D)).
Abbreviation covered := (covered encodeNode known).
Abbreviation addressed := (addressed encodeNode known).

Lemma hash_known t : wft t → hash_ok_for encodeNode known 0 0 t.
Proof. by apply hash_wft. Qed.

Lemma hashChildren_spec D n u :
  nodes D (Some n) u → stored n → wft u → covered u → addressed D →
  ∃ cached, hashChildren n = Some (body u, cached) ∧ ∀ h, cached = Some h → refnode u = Some (rawHash h).
Proof.
  intros He Hs Hw Hcov Ha. inversion He as [| |k n0 t fl Hv He0|nch ch fl Hv Hl Hch|]; subst; try done.
  - destruct (placed_short k t Hw) as (_ & _ & Hk). destruct (compact_hex k Hk) as [Ek _]. cbn [hashChildren]. rewrite Ek. cbn [mbind option_bind].
    destruct (hash_val encodeNode known 0 0 k t D None n0 (hash_known t) Hw Hcov He0) as (cval & nval & db1 & D1 & -> & R & _); [by left|done|].
    cbn [mbind option_bind]. exists (nf_hash fl). split; [|apply Hv]. by rewrite body_short, R.
  - cbn [hashChildren].
    destruct (hashKids_spec encodeNode known 0 0 ch (λ t _, hash_known t) (λ t, covered_child encodeNode known ch t Hcov) O nch D None)
      as (ns & db1 & D1 & E & _); [intros j t; by apply full_places|done|by left|done|].
    rewrite E. cbn. exists (nf_hash fl). split; [|apply Hv]. done.
Qed.

(** The nodes of the path: each stands for a subtree on the way to the key. *)
Definition path_nodes (D : NodeDatabase) (t : tree) (k : bytes) (l : list node) (us : list tree) : Prop :=
  Forall2 (λ n u, stored n ∧ nodes D (Some n) u ∧ wft u ∧ subtree u t ∧ ∃ k', on_path t k u k') l us.

Lemma path_nodes_sub D t k t' k' l us :
  subtree t t' → (∀ u r, on_path t k u r → on_path t' k' u r) → path_nodes D t k l us → path_nodes D t' k' l us.
Proof.
  intros Hs Hp H. eapply Forall2_impl; [exact H|]. intros n u (? & ? & ? & ? & r & ?). split_and!; try done; [by eapply subtree_trans|eauto].
Qed.

Definition path_ok (D : NodeDatabase) (t : tree) : Prop := ∀ fuel n k,
  nodes D n t → fits t k → loaded n → (2 * length k < fuel)%nat →
  ∃ l us, proofPath (db_node D) cachegen fuel n k = Ret l ∧ path_nodes D t k l us ∧
    (∀ u k', on_path t k u k' → wft u → u ∈ us) ∧ (wft t → head us = Some t).

Lemma path_any D t fuel n k :
  path_ok D t → nodes D n t → fits t k → (2 * length k + 1 < fuel)%nat →
  ∃ l us, proofPath (db_node D) cachegen fuel n k = Ret l ∧ path_nodes D t k l us ∧
    (∀ u k', on_path t k u k' → wft u → u ∈ us) ∧ (wft t → head us = Some t).
Proof.
  intros IH He Hf Hlt. destruct (expands_cases _ cachegen _ _ n t He) as [Hl|(h & m & -> & Hr & Hl & Hm)]; [apply IH; (done || lia)|].
  destruct fuel as [|fuel]; [lia|]. destruct k as [|x k].
  - exists [], []. split; [done|]. split; [constructor|]. destruct Hf as [->|(v & _ & ->)]; (split; [|inversion 1]);
      intros u k' Hp Hu; inversion Hp; subst; inversion Hu.
  - cbn [proofPath]. rewrite Hr. cbn [mbind outcome_bind].
    destruct (IH fuel (Some m) (x :: k) Hm Hf (stored_loaded _ Hl)) as (l & us & E & Hrest); [lia|]. rewrite E. eauto.
Qed.

Lemma path_spec D t : path_ok D t.
Proof.
  induction t as [|v|p t IH|ch IH] using tree_rec'; intros fuel n k He Hf Hl Hlt; (destruct fuel as [|fuel]; [lia|]).
  - apply expands_TNil in He as ->. exists [], []. split; [by destruct k|]. split; [constructor|]. split; [|inversion 1].
    intros u k' Hp Hu. inversion Hp; subst. inversion Hu.
  - destruct k as [|x k]; [|destruct Hf as [_ [?|Hw]]; [done|inversion Hw]]. exists [], []. split; [done|]. split; [constructor|]. split; [|inversion 1].
    intros u k' Hp Hu. inversion Hp; subst. inversion Hu.
  - destruct k as [|x k0]; [by destruct Hf as [?|(v & _ & ?)]|]. set (k := x :: k0) in *. destruct Hf as [Hk [?|Hw]]; [done|].
    inversion He as [| |? n0 ? fl Hv He0| |]; subst; [|done]. cbn [proofPath]. fold k.
    assert ((length k <? length p)%nat || negb (bool_decide (p = take (length p) k)) = negb (bool_decide (p = take (length p) k))) as ->.
    { case_bool_decide as Hp; [|apply orb_true_r]. rewrite orb_false_r. apply (f_equal length) in Hp.
      rewrite length_take in Hp. apply Nat.ltb_ge. lia. }
    case_bool_decide as Hp; cbn [negb].
    + assert (k = p ++ drop (length p) k) as Ek by (rewrite Hp at 1; by rewrite take_drop).
      set (r := drop (length p) k) in *. clearbody r k. subst k. destruct (fits_short p t r Hw Hk) as [Hne Hr].
      destruct (path_any D t fuel n0 r IH He0 Hr) as (l & us & E & Hn & Hon & _).
      { rewrite length_app in Hlt. destruct p; [done|cbn in Hlt; lia]. }
      rewrite E. cbn. exists (shortNode p n0 fl :: l), (TShort p t :: us). split; [by destruct p|]. split.
      { constructor; [split_and!; [done|done|done|constructor|eexists; constructor]|].
        eapply path_nodes_sub; [| |exact Hn]; [constructor; constructor|]. intros u r' Hu. by constructor. }
      split; [|done]. intros u k' Hu Hwu. apply on_path_short_inv in Hu as [->|(r' & Ep & Hu)]; [by left|]. right.
      apply app_inv_head in Ep as <-. by eapply Hon.
    + exists [shortNode p n0 fl], [TShort p t]. split; [done|]. split; [constructor; [split_and!; [done|done|done|constructor|eexists; constructor]|constructor]|].
      split; [|done]. intros u k' Hu Hwu. apply on_path_short_inv in Hu as [->|(r' & Ep & Hu)]; [by left|].
      destruct Hp. by rewrite Ep, take_app_length.
  - destruct k as [|i k]; [by destruct Hf as [?|(v & _ & ?)]|]. destruct Hf as [Hk [?|Hw]]; [done|].
    destruct (fits_full ch i k Hw Hk) as (Hi & Hlti & Hfc). inversion He as [| | |nch ? fl Hv Hlen Hch|]; subst; [|done].
    cbn [proofPath]. assert (Hkids : kids (db_node D) (valid encodeNode D) (meant encodeNode D) nch ch) by done.
    destruct (kids_at _ _ _ nch ch i Hkids Hi Hlti) as (c & Ec & Hc & Hlc). rewrite Ec. cbn [mbind outcome_bind].
    rewrite Forall_forall in IH. pose proof (child_lookup_lt ch i Hlti) as Ei.
    destruct (path_any D (child ch i) fuel c k (IH _ (list_elem_of_lookup_2 _ _ _ Ei)) Hc Hfc) as (l & us & E & Hn & Hon & _);
      [cbn in Hlt; lia|]. rewrite E. cbn. exists (fullNode nch fl :: l), (TFull ch :: us). split; [done|]. split.
    { constructor; [split_and!; [done|done|done|constructor|eexists; constructor]|]. eapply path_nodes_sub; [| |exact Hn].
      - eapply sub_full; [by eapply list_elem_of_lookup_2|constructor].
      - intros u r' Hu. by constructor. }
    split; [|done]. intros u k' Hu Hwu. inversion Hu as [| |? ? ? ? ? Hu']; subst; [by left|]. right. by eapply Hon.
Qed.

(** A set of nodes that were all made from tries. *)
Record set_ok (S : NodeSet) : Prop := {
  so_known : ∀ h buf, ns_nodes S !! h = Some buf → ∃ c, known c ∧ buf = encodeNode c ∧ h = keccak256 buf;
  so_order : ∀ h, is_Some (ns_nodes S !! h) ↔ h ∈ ns_order S;
  so_nodup : NoDup (ns_order S)
}.

Definition set_grows (S S' : NodeSet) : Prop := ∀ h buf, ns_nodes S !! h = Some buf → ns_nodes S' !! h = Some buf.

Lemma set_ok_new : set_ok NewNodeSet.
Proof.
  split; [intros h; cbn; rewrite lookup_empty; done| |constructor]. intros h. cbn. rewrite lookup_empty.
  split; [by intros []|by intros ?%elem_of_nil].
Qed.

Lemma Put_ok S c : set_ok S → known c → set_ok (NodeSet_Put (keccak256 (encodeNode c)) (encodeNode c) S).
Proof.
  intros [Hk Ho Hnd] Hc. split.
  - intros h buf. rewrite NodeSet_Put_lookup. destruct (ns_nodes S !! h) eqn:E; [intros [= <-]; by apply Hk|].
    case_decide as Hd; [|done]. intros [= <-]. eauto.
  - intros h. rewrite NodeSet_Put_lookup. unfold NodeSet_Put. set (key := keccak256 (encodeNode c)) in *. specialize (Ho h).
    destruct (ns_nodes S !! key) eqn:Ek; cbn [ns_nodes ns_order].
    + rewrite <- Ho. destruct (ns_nodes S !! h) eqn:E; [done|]. case_decide; [congruence|done].
    + rewrite elem_of_app, <- Ho, elem_of_cons, elem_of_nil. destruct (ns_nodes S !! h) eqn:E; [naive_solver|].
      case_decide; naive_solver.
  - unfold NodeSet_Put. destruct (ns_nodes S !! _) eqn:E; [done|]. cbn [ns_order]. apply NoDup_app. split_and!; [done| |apply NoDup_singleton].
    intros h Hh [->|?%elem_of_nil]%elem_of_cons; [|done]. apply Ho in Hh as [b Hb]. congruence.
Qed.

Lemma Put_in key value S : is_Some (ns_nodes (NodeSet_Put key value S) !! key).
Proof. rewrite NodeSet_Put_lookup, decide_True by done. by destruct (_ !! _). Qed.

Lemma Put_grows key value S : set_grows S (NodeSet_Put key value S).
Proof. intros h buf H. by rewrite NodeSet_Put_lookup, H. Qed.

(** The nodes that are put into the set. *)
Definition put_nodes (first : bool) (us : list tree) (u : tree) : Prop :=
  u ∈ us ∧ (hashed_root encodeNode u ∨ first = true ∧ head us = Some u).

Lemma put_cons first u us w : put_nodes false us w → put_nodes first (u :: us) w.
Proof. intros [? [?|[? _]]]; [|done]. split; [by right|by left]. Qed.

Lemma proofNodes_spec D t k l us : path_nodes D t k l us → covered t → addressed D → ∀ first S, set_ok S →
  ∃ S', proofNodes first l 0 S = Some S' ∧ set_ok S' ∧ set_grows S S' ∧
    (∀ u, put_nodes first us u → is_Some (ns_nodes S' !! nodeHash u)) ∧
    (∀ h, is_Some (ns_nodes S' !! h) → is_Some (ns_nodes S !! h) ∨ ∃ u, put_nodes first us u ∧ h = nodeHash u).
Proof.
  intros Hp Hcov Ha. induction Hp as [|n u l us (Hs & Hn & Hw & Hsub & _) _ IH]; intros first S HS.
  { exists S. split_and!; [done|done|by intros h b|by intros u [?%elem_of_nil _]|by left]. }
  assert (Hcu : covered u) by (intros s0 Hs0; apply Hcov; by eapply subtree_trans).
  destruct (hashChildren_spec D n u Hn Hs Hw Hcu Ha) as (cached & E & Hc). cbn [proofNodes]. rewrite E. cbn [mbind option_bind].
  destruct (store_spec encodeNode known no_collision u cached D None false) as (c & db' & D' & Est & Er & _);
    [by apply wft_not_nil|intros v ->; inversion Hw|apply Hcu; constructor|by left|done|done|done|].
  rewrite Est. cbn [fst].
  assert (Hh : (match c with rawHash h => Some h | _ => None end) = None ∧ ¬ hashed_root encodeNode u ∨
    ∃ h, (match c with rawHash h => Some h | _ => None end) = Some h ∧ hashed_root encodeNode u ∧ BytesToHash h = nodeHash u).
  { destruct c as [| |h|]; [left; split; [done|]; intros [h Eh]; congruence..| |left; split; [done|]; intros [h Eh]; congruence].
    right. exists h. split; [done|]. split; [by exists h|]. by apply (refnode_hash encodeNode u h Er (wft_not_nil u Hw)). }
  assert (Hput : put_nodes first (u :: us) u → ∃ S', proofNodes false l 0 (NodeSet_Put (nodeHash u) (encodeNode (body u)) S) = Some S' ∧ set_ok S' ∧ set_grows S S' ∧
    (∀ w, put_nodes first (u :: us) w → is_Some (ns_nodes S' !! nodeHash w)) ∧
    (∀ h, is_Some (ns_nodes S' !! h) → is_Some (ns_nodes S !! h) ∨ ∃ w, put_nodes first (u :: us) w ∧ h = nodeHash w)).
  { intros Hpu. destruct (IH false _ (Put_ok S (body u) HS (Hcu u (sub_refl u)))) as (S' & E' & HS' & Hg & Hin & Honly). exists S'.
    split_and!; [done|done|intros h b Hb; by apply Hg, Put_grows|..].
    - intros w [[->|Hw']%elem_of_cons Hor]; [destruct (Put_in (nodeHash u) (encodeNode (body u)) S) as [b Eb]; exists b; by apply Hg|].
      destruct Hor as [Hh'|[_ [= <-]]]; [apply Hin; by split; [|left]|].
      destruct (Put_in (nodeHash u) (encodeNode (body u)) S) as [b Eb]. exists b. by apply Hg.
    - intros h Hh'. destruct (Honly h Hh') as [Hb|(w & Hpw & ->)]; [|right; exists w; split; [by apply put_cons|done]].
      rewrite NodeSet_Put_lookup in Hb. destruct (ns_nodes S !! h); [by left|]. case_decide as Hd; [|by destruct Hb].
      right. exists u. by split. }
  destruct Hh as [[-> Hnh]|(h & -> & Hr & Eh)].
  - rewrite bool_decide_eq_false_2 by (by intros []). cbn [orb]. destruct first; cbn [Z.ltb Z.compare].
    + apply Hput. split; [by left|by right].
    + destruct (IH false S HS) as (S1 & -> & HS1 & Hg1 & Hin1 & Honly). exists S1. split_and!; [done|done|done|..].
      * intros w [[->|Hw']%elem_of_cons [Hr|[? _]]]; [done|done|apply Hin1; by split; [|left]|done].
      * intros h Hh. destruct (Honly h Hh) as [|(w & ? & ->)]; [by left|right]. exists w. split; [by apply put_cons|done].
  - rewrite bool_decide_eq_true_2 by done. cbn [orb Z.ltb Z.compare]. rewrite Eh. apply Hput. split; [by left|by left].
Qed.

Lemma NodeList_covers l buf : buf ∈ l → is_Some (ns_nodes (NodeList_NodeSet l) !! keccak256 buf).
Proof.
  unfold NodeList_NodeSet. generalize NewNodeSet. induction l as [|x l IH]; intros S H; [by apply elem_of_nil in H|].
  apply elem_of_cons in H as [->|H]; cbn.
  - destruct (Put_in (keccak256 x) x S) as [b Hb]. exists b. revert Hb. generalize (NodeSet_Put (keccak256 x) x S). clear IH.
    induction l as [|y l IH]; intros S' Hb; [done|]. cbn. apply IH. by apply Put_grows.
  - by apply IH.
Qed.

Lemma set_list S h buf : set_ok S → ns_nodes S !! h = Some buf → buf ∈ NodeSet_NodeList S.
Proof.
  intros HS H. unfold NodeSet_NodeList. apply list_elem_of_fmap. exists h. rewrite H. split; [done|]. apply HS. eauto.
Qed.

Lemma set_list_inv S buf : set_ok S → buf ∈ NodeSet_NodeList S → ∃ c, known c ∧ buf = encodeNode c.
Proof.
  intros HS (h & -> & Hh)%list_elem_of_fmap. apply (so_order S HS) in Hh as [b E]. rewrite E.
  destruct (so_known S HS h b E) as (c & ? & ? & _). eauto.
Qed.

(** What a proof adds to a set. *)
Lemma Prove_spec D root t key S fuel :
  cached encodeNode D root t → wft t → covered t → addressed D → set_ok S → Forall byte_ok key → enough (length key) fuel →
  ∃ S', Prove (db_node D) cachegen fuel root key 0 S = Ret S' ∧ set_ok S' ∧ set_grows S S' ∧
    (∀ u, looked_up t (keybytesToHex key) u → is_Some (ns_nodes S' !! nodeHash u)) ∧
    (∀ h, is_Some (ns_nodes S' !! h) → is_Some (ns_nodes S !! h) ∨ ∃ u, looked_up t (keybytesToHex key) u ∧ h = nodeHash u).
Proof.
  intros (He & _ & _) Hw Hcov Ha HS Hk Hf. unfold enough in Hf.
  assert (Hfit : fits t (keybytesToHex key)) by (apply fits_key; [by apply hex_key|by right]).
  destruct (path_any D t fuel root (keybytesToHex key) (path_spec D t) He Hfit) as (l & us & El & Hl & Hon & Hhd); [rewrite hex_length; lia|].
  destruct (proofNodes_spec D t _ l us Hl Hcov Ha true S HS) as (S' & ES & HS' & Hg & Hin & Honly).
  exists S'. unfold Prove. rewrite El. cbn [mbind outcome_bind]. rewrite ES. split_and!; [done|done|done|..].
  - intros u (k' & Hp & Hu & Hor). apply Hin. split; [by eapply Hon|]. destruct Hor as [->|]; [right; split; [done|by apply Hhd]|by left].
  - intros h Hh. destruct (Honly h Hh) as [|(u & [Hu Hor] & ->)]; [by left|right]. exists u. split; [|done].
    apply list_elem_of_lookup_1 in Hu as [i Hi]. destruct (Forall2_lookup_r _ _ _ _ _ Hl Hi) as (n & _ & _ & _ & Hwu & _ & k' & Hp).
    exists k'. split_and!; try done. destruct Hor as [|[_ Hhu]]; [by right|left]. rewrite Hhd in Hhu by done. congruence.
Qed.

(** A set that has all that is looked up, after it was sent. *)
Lemma Verify_spec t key S fuel :
  wft t → covered t → set_ok S → Forall byte_ok key → (2 * length key < fuel)%nat →
  (∀ u, looked_up t (keybytesToHex key) u → is_Some (ns_nodes S !! nodeHash u)) →
  ∃ reads, VerifyProof fuel (rootHash encodeNode t) key (NodeList_NodeSet (NodeSet_NodeList S)) = (reads, Proved (answer t (keybytesToHex key))) ∧
    ∀ u, looked_up t (keybytesToHex key) u → nodeHash u ∈ reads.
Proof.
  intros Hw Hcov HS Hk Hf Hall. unfold VerifyProof. replace (rootHash encodeNode t) with (nodeHash t) by (by destruct Hw).
  pose proof (verify_walk (NodeList_NodeSet (NodeSet_NodeList S)) fuel t (keybytesToHex key)) as H.
  destruct (verifyFrom _ _ _ _) as [reads v].
  destruct H as [[-> Hr]|[_ (u & Hu & Hnone)]]; [done|by apply hex_key| |rewrite hex_length; lia|by eexists|exfalso].
  - intros u buf Hsub H. apply NodeList_lookup in H as [Hb E]. destruct (set_list_inv S buf HS Hb) as (c & Hc & ->).
    f_equal. apply no_collision; [done|apply Hcov, Hsub|done].
  - destruct (Hall u Hu) as [b Hb]. destruct (so_known S HS _ _ Hb) as (c & _ & _ & Eb).
    destruct (NodeList_covers _ _ (set_list S _ _ HS Hb)) as [x Hx]. rewrite <- Eb in Hx. congruence.
Qed.

(** C29. A Merkle proof that is made is accepted.  [Prove] ends without a panic for every
    key, whichever nodes of the trie are loaded or cached, and the nodes it adds to a set
    that may already serve other proofs, sent as a list and made into a set again by the
    receiver, let [VerifyProof] find what the trie stores under the key, nil for nothing. *)
Theorem proof_complete D root t key S fuel fuel' :
  cached encodeNode D root t → wft t → covered t → addressed D → set_ok S → Forall byte_ok key →
  enough (length key) fuel → (2 * length key < fuel')%nat →
  ∃ S', Prove (db_node D) cachegen fuel root key 0 S = Ret S' ∧ set_ok S' ∧ set_grows S S' ∧
    snd (VerifyProof fuel' (rootHash encodeNode t) key (NodeList_NodeSet (NodeSet_NodeList S'))) = Proved (answer t (keybytesToHex key)).
Proof.
  intros Hc Hw Hcov Ha HS Hk Hf Hf'. destruct (Prove_spec D root t key S fuel) as (S' & E & HS' & Hg & Hall & _); [done..|].
  exists S'. split_and!; [done|done|done|]. by destruct (Verify_spec t key S' fuel' Hw Hcov HS' Hk Hf' Hall) as (reads & -> & _).
Qed.
End facts.

(** ** A toy RLP, with a tag and the length in front *)

Import Toy.

Module ToyRlp.
Definition toySplit (b : bytes) : option (rlp_kind * bytes * bytes) :=
  match b with
  | tag :: n :: r =>
      if (n <? 0) || (Z.of_nat (length r) <? n) then None
      else
        let v := take (Z.to_nat n) r in
        Some (if tag =? 1 then KindList
              else match v with [b] => if b <? 128 then KindByte else KindString | _ => KindString end,
              v, drop (Z.to_nat n) r)
  | _ => None
  end.

Fixpoint toyCount (fuel : nat) (b : bytes) : Z :=
  match fuel with
  | O => 0
  | S fuel => match toySplit b with Some (_, _, rest) => 1 + toyCount fuel rest | None => 0 end
  end.

#[export] Instance rlp : Rlp := {|
  enc_string s := 0 :: Z.of_nat (length s) :: s;
  enc_list p := 1 :: Z.of_nat (length p) :: p;
  rlp_Split := toySplit;
  rlp_SplitString b := match toySplit b with Some (KindList, _, _) | None => None | Some (_, v, rest) => Some (v, rest) end;
  rlp_SplitList b := match toySplit b with Some (KindList, v, rest) => Some (v, rest) | _ => None end;
  rlp_CountValues b := toyCount (length b) b
|}.

Lemma toySplit_item tag v rest : toySplit (tag :: Z.of_nat (length v) :: v ++ rest) =
  Some (if tag =? 1 then KindList
        else match v with [b] => if b <? 128 then KindByte else KindString | _ => KindString end, v, rest).
Proof.
  unfold toySplit. rewrite length_app, (proj2 (Z.ltb_ge _ 0)), (proj2 (Z.ltb_ge (Z.of_nat (length v + length rest)) _)) by lia.
  cbn [orb]. rewrite Nat2Z.id, take_app_length, drop_app_length. done.
Qed.

Lemma toySplit_shorter b k v rest : toySplit b = Some (k, v, rest) → (length v + length rest + 2 = length b)%nat.
Proof.
  unfold toySplit. destruct b as [|tag [|n r]]; [done..|]. destruct ((n <? 0) || (_ <? n)) eqn:E; [done|].
  apply orb_false_iff in E as [?%Z.ltb_ge ?%Z.ltb_ge]. intros [= _ <- <-]. rewrite length_take, length_drop. cbn. lia.
Qed.

Lemma toyCount_items l : Forall encoding l → ∀ fuel, (length (mjoin l) ≤ fuel)%nat → toyCount fuel (mjoin l) = Z.of_nat (length l).
Proof.
  induction 1 as [|e l He Hl IH]; intros fuel Hf; [by destruct fuel|]. rewrite mjoin_cons in *.
  destruct He as [[v ->]|[v ->]]; cbn [enc_string enc_list rlp] in *; cbn [app] in *; rewrite ?length_app in Hf; cbn [length] in Hf;
    rewrite ?length_app in Hf; (destruct fuel as [|fuel]; [lia|]); cbn [toyCount]; rewrite toySplit_item, IH by lia; cbn [length]; lia.
Qed.

#[export] Instance rlp_correct : RlpCorrect.
Proof.
  split; unfold rlp_SplitString, rlp_SplitList, rlp_Split, enc_string, enc_list, rlp.
  - intros s rest. cbn [app]. rewrite toySplit_item. cbn [Z.eqb]. destruct s as [|b [|? ?]]; [done| |done]. by destruct (b <? 128).
  - intros p rest. cbn [app]. by rewrite toySplit_item.
  - intros s rest. cbn [app]. by rewrite toySplit_item.
  - intros p rest. cbn [app]. by rewrite toySplit_item.
  - intros l Hl. cbn. by apply toyCount_items.
  - intros b p rest E. cbn in E. destruct (toySplit b) as [[[[] v] r]|] eqn:Es; try done. injection E as -> ->.
    apply toySplit_shorter in Es. lia.
  - intros b k v rest E. cbn in E. apply toySplit_shorter in E. lia.
Qed.
End ToyRlp.
Import ToyRlp.

(** ** A trie with one entry *)

Module ProofExample.
Definition key : bytes := [18; 52].
Definition value : bytes := replicate 40 7.
Definition t : tree := TShort (keybytesToHex key) (TVal value).
Definition root : option node := Some (shortNode (keybytesToHex key) (Some (valueNode value)) (newFlag 0)).
Definition known (c : rawNode) : Prop := c = HasherFacts.body encodeNode t ∨ c = rawValue value.

Lemma proof_key_bytes : Forall byte_ok key.
Proof. repeat constructor; unfold byte_ok; lia. Qed.

Lemma t_wft : wft t.
Proof. constructor; [apply hex_key, proof_key_bytes|done]. Qed.

Lemma subtree_t s : subtree s t → s = t ∨ s = TVal value.
Proof. inversion 1 as [|? ? Hs|]; subst; [by left|]. inversion Hs; subst. by right. Qed.

Lemma known_hashes : keccak256 (encodeNode (HasherFacts.body encodeNode t)) ≠ keccak256 (encodeNode (rawValue value)).
Proof. vm_compute. discriminate. Qed.

Definition garbage : bytes := [1; 2; 3].
Lemma garbage_hash : keccak256 garbage ≠ keccak256 (encodeNode (HasherFacts.body encodeNode t)).
Proof. vm_compute. discriminate. Qed.
Lemma garbage_hash' : keccak256 garbage ≠ keccak256 (encodeNode (HasherFacts.body encodeNode (TVal value))).
Proof. vm_compute. discriminate. Qed.

Lemma known_distinct c c' : known c → known c' → keccak256 (encodeNode c) = keccak256 (encodeNode c') → c = c'.
Proof. intros [-> | ->] [-> | ->] E; [done| | |done]; exfalso; [exact (known_hashes E)|exact (known_hashes (eq_sym E))]. Qed.

Lemma root_cached : cached encodeNode ∅ root t.
Proof.
  pose proof (hex_key key proof_key_bytes) as Hk. split_and!.
  - apply expands_short; [apply valid_new|]. constructor.
  - right. apply t_wft.
  - intros k Hk' Hg. exists key. split; [apply proof_key_bytes|]. unfold t in Hg. rewrite tget_short, strip_key in Hg by done.
    by destruct (decide (k = keybytesToHex key)).
Qed.

Lemma t_covered : covered encodeNode known t.
Proof. intros s [->| ->]%subtree_t; [by left|by right]. Qed.

Lemma answer_t : answer t (keybytesToHex key) = Some value.
Proof. vm_compute. reflexivity. Qed.
End ProofExample.
Import ProofExample.

Lemma proof_complete_witness :
  ∃ S', Prove (db_node ∅) 0 40 root key 0 NewNodeSet = Ret S' ∧ set_ok known S' ∧ set_grows NewNodeSet S' ∧
    snd (VerifyProof 40 (rootHash encodeNode t) key (NodeList_NodeSet (NodeSet_NodeList S'))) = Proved (Some value).
Proof.
  rewrite <- answer_t. apply (proof_complete known known_distinct 0).
  - apply root_cached.
  - apply t_wft.
  - apply t_covered.
  - by intros h c ?%lookup_empty_Some.
  - apply set_ok_new.
  - apply proof_key_bytes.
  - unfold enough. cbn. lia.
  - cbn. lia.
Defined.

Lemma proof_sound_witness :
  snd (VerifyProof 40 (rootHash encodeNode t) key (NodeList_NodeSet [garbage])) = Refused ∨
  snd (VerifyProof 40 (rootHash encodeNode t) key (NodeList_NodeSet [garbage])) = Proved (Some value).
Proof.
  rewrite <- answer_t. apply proof_sound.
  - apply t_wft.
  - apply proof_key_bytes.
  - cbn. lia.
  - intros u buf Hu Hb E. apply elem_of_cons in Hb as [->|Hb]; [|by apply elem_of_nil in Hb]. exfalso.
    apply subtree_t in Hu as [->| ->]; [exact (garbage_hash E)|exact (garbage_hash' E)].
Defined.
