(* ===== verification/CertProof.v ===== *)
(** * CertProof: the Merkle proof in a certificate

    src/core/proof.go: [BuildProof] collects the nodes that show the registrations of the
    leader and of the voters of a certificate; [VerifyProof] checks them against the root
    of the state, and that there is no node more.  The seal of a block is verified on such
    a proof when the state itself is not there. *)

From S2P Require Import Prelude Bytes Params Crypto Types MinerContract TrieEncoding Trie TrieTree TrieFacts Hasher HasherFacts StateDB SecureTrie TrieProof TrieProofFacts.

Local Open Scope Z_scope.

(** What a check comes to: accepted, an error, a panic, or fuel that did not suffice. *)
Inductive checked := Accepted | Rejected | CheckPanics | ChecksOn.

(** Checks share the hashes that were read ([readTraceDB]). *)
Definition check : Type := gset Hash → gset Hash * checked.

(** The next check is made when the one before has no error. *)
Definition check_then (m1 m2 : check) : check := λ reads,
  match m1 reads with
  | (reads, Accepted) => m2 reads
  | r => r
  end.

(** [None] in the result of a step that builds is the error of a missing storage trie. *)
Definition building : Type := NodeSet → outcome (option NodeSet).
Definition build_then (m1 m2 : building) : building := λ s,
  r ← m1 s; match r with Some s => m2 s | None => Ret None end.

Declare Scope proof_scope.
Delimit Scope proof_scope with proof.
Infix "&>>" := check_then (at level 60, right associativity) : proof_scope.
Infix "+>>" := build_then (at level 60, right associativity) : proof_scope.
Local Open Scope proof_scope.

Section proof.
Context `{CR : Crypto} `{RL : Rlp} `{CO : Codec} (config : AlgorandConfig).

(** ** Building *)

Section build.
(** The tries of the state and of the contract's storage, over the database of nodes. *)
Context (D : NodeDatabase) (cachegen : Z) (stateTrie : option node) (StorageTrie : option (option node)).

Definition StateDB_Prove (a : Address) (fromLevel : Z) : building := λ proofDb,
  s ← Prove (db_node D) cachegen key_fuel stateTrie (hashKey (Address_Bytes a)) fromLevel proofDb; Ret (Some s).

Definition StateDB_StorageProve (key : Hash) (fromLevel : Z) : building := λ proofDb,
  match StorageTrie with
  | None => Ret None
  | Some trie => s ← Prove (db_node D) cachegen key_fuel trie (hashKey (Hash_Bytes key)) fromLevel proofDb; Ret (Some s)
  end.

Definition proveForAddress (height : Z) (address : Address) : building :=
  let key := MakeMinerInfoKey config height address in
  let offset := Hash_Big key in
  StateDB_Prove address 0 +>>
  StateDB_StorageProve key 0 +>>
  StateDB_StorageProve (BigToHash (offset + 1)) 0 +>>
  StateDB_StorageProve (BigToHash (offset + 1 + 1)) 0.

(** The loop over the voters; the leader is the last when it is not one of them. *)
Fixpoint proveVoters (height : Z) (leader : Address) (cvs : list CertVoteStorage) (leaderNotIncluded : bool) : building :=
  match cvs with
  | [] => if leaderNotIncluded then proveForAddress height leader else λ proofDb, Ret (Some proofDb)
  | cert :: cvs =>
      let address := cs_Address (cv_Credential cert) in
      proveForAddress height address +>>
      proveVoters height leader cvs (leaderNotIncluded && negb (address =? leader))
  end.

Definition BuildProof (height : Z) (leader : Address) (cvs : list CertVoteStorage) : building :=
  StateDB_Prove MinerAddress 0 +>> proveVoters height leader cvs true.
End build.

(** ** Checking *)

(** Enough for the 64 nibbles of a hashed key. *)
Definition proof_fuel : nat := 65.

Section verify.
Context (proofDb : NodeSet).

Definition verifyProofMustHasKey (stateRoot : Hash) (key : bytes) : check := λ reads,
  let '(r, v) := TrieProof.VerifyProof proof_fuel stateRoot key proofDb in
  (list_to_set r ∪ reads,
   match v with
   | Proved value => if (length (default [] value) =? 0)%nat then Rejected else Accepted
   | Refused => Rejected
   | VerifyPanics => CheckPanics
   | VerifiesOn => ChecksOn
   end).

(** The offsets are hashed without their leading zeros, unlike those that are proved. *)
Definition verifyProofForAddress (stateRoot minerContractRoot : Hash) (height : Z) (address : Address) : check :=
  let key := MakeMinerInfoKey config height address in
  let offset := Hash_Big key in
  verifyProofMustHasKey stateRoot (hashKey (Address_Bytes address)) &>>
  verifyProofMustHasKey minerContractRoot (hashKey (Hash_Bytes key)) &>>
  verifyProofMustHasKey minerContractRoot (hashKey (big_bytes (offset + 1))) &>>
  verifyProofMustHasKey minerContractRoot (hashKey (big_bytes (offset + 1 + 1))).

Fixpoint verifyVoters (stateRoot minerContractRoot : Hash) (height : Z) (leader : Address)
    (cvs : list CertVoteStorage) (leaderNotIncluded : bool) : check :=
  match cvs with
  | [] =>
      if leaderNotIncluded then verifyProofForAddress stateRoot minerContractRoot height leader
      else λ reads, (reads, Accepted)
  | cert :: cvs =>
      let address := cs_Address (cv_Credential cert) in
      verifyProofForAddress stateRoot minerContractRoot height address &>>
      verifyVoters stateRoot minerContractRoot height leader cvs (leaderNotIncluded && negb (address =? leader))
  end.

Definition verifyProofNodeSet (stateRoot : Hash) (height : Z) (leader : Address) (cvs : list CertVoteStorage) : Z * checked :=
  let '(r, v) := TrieProof.VerifyProof proof_fuel stateRoot (hashKey (Address_Bytes MinerAddress)) proofDb in
  match v with
  | Refused => (0, Rejected)
  | VerifyPanics => (0, CheckPanics)
  | VerifiesOn => (0, ChecksOn)
  | Proved enc =>
      match rlp_read_account (default [] enc) with
      | None => (0, Rejected)
      | Some data =>
          match verifyVoters stateRoot (ac_Root data) height leader cvs true (list_to_set r) with
          | (reads, Accepted) => (Z.of_nat (size reads), Accepted)
          | (_, c) => (0, c)
          end
      end
  end.
End verify.

Definition VerifyProof (stateRoot : Hash) (height : Z) (leader : Address) (cvs : list CertVoteStorage) (proof : list bytes) : checked :=
  match verifyProofNodeSet (NodeList_NodeSet proof) stateRoot height leader cvs with
  | (reads, Accepted) => if reads =? Z.of_nat (length proof) then Accepted else Rejected
  | (_, c) => c
  end.
End proof.

(** ** What is built is accepted *)

(** The addresses the loops visit. *)
Fixpoint visited (leader : Address) (cvs : list CertVoteStorage) (leaderNotIncluded : bool) : list Address :=
  match cvs with
  | [] => if leaderNotIncluded then [leader] else []
  | cert :: cvs =>
      let address := cs_Address (cv_Credential cert) in
      address :: visited leader cvs (leaderNotIncluded && negb (address =? leader))
  end.

Definition voter (cvs : list CertVoteStorage) (a : Address) : Prop := ∃ cert, cert ∈ cvs ∧ a = cs_Address (cv_Credential cert).

Lemma visited_flag leader cvs flag a :
  a ∈ visited leader cvs flag ↔ voter cvs a ∨ (flag = true ∧ a = leader).
Proof.
  revert flag. induction cvs as [|c cvs IH]; intros flag; cbn [visited].
  - split; [|intros [(? & ?%elem_of_nil & _)|[-> ->]]; [done|by left]].
    destruct flag; [intros [->|?%elem_of_nil]%elem_of_cons; [by right|done]|by intros ?%elem_of_nil].
  - rewrite elem_of_cons, IH, andb_true_iff, negb_true_iff, Z.eqb_neq. split.
    + intros [->|[(c' & ? & ?)|[[] ?]]]; [left; exists c; split; [by left|done]|left; exists c'; split; [by right|done]|by right].
    + intros [(c' & [->|?]%elem_of_cons & ->)|[-> ->]]; [by left|right; left; by exists c'|].
      destruct (decide (leader = cs_Address (cv_Credential c))); [by left|right; right; auto].
Qed.

Lemma visited_all leader cvs a : a ∈ visited leader cvs true ↔ a = leader ∨ voter cvs a.
Proof. rewrite visited_flag. naive_solver. Qed.

Lemma size_list_le (l : list Hash) : (size (list_to_set l : gset Hash) ≤ length l)%nat.
Proof.
  induction l as [|h l IH]; [done|]. cbn [list_to_set length]. rewrite size_union_alt, size_singleton.
  pose proof (subseteq_size (list_to_set l ∖ {[h]}) (list_to_set l : gset Hash) ltac:(set_solver)). lia.
Qed.

Lemma size_nodup (l : list Hash) : (length l ≤ size (list_to_set l : gset Hash))%nat → NoDup l.
Proof.
  induction l as [|h l IH]; [constructor|]. cbn [list_to_set length]. intros Hle. pose proof (size_list_le l).
  destruct (decide (h ∈ l)) as [Hin|Hn].
  - exfalso. rewrite subseteq_union_1_L in Hle by (apply singleton_subseteq_l, elem_of_list_to_set, Hin). lia.
  - constructor; [done|]. apply IH. rewrite size_union, size_singleton in Hle; [lia|]. set_solver.
Qed.

Section facts.
Context `{CR : Crypto} `{DS : !DigestSize} `{RL : Rlp} `{RC : !RlpCorrect} `{CO : Codec} (config : AlgorandConfig).

(** The nodes that are read on the way to a key. *)
Definition asked (t : tree) (key : bytes) (h : Hash) : Prop := ∃ u, looked_up t (keybytesToHex key) u ∧ h = nodeHash u.
Definition has_key (t : tree) (key : bytes) : Prop := tget t (keybytesToHex key) ≠ [].

(** The key of a registration. *)
Abbreviation info height a := (MakeMinerInfoKey config height a).

(** The account of a miner and the three slots of the registration are there. *)
Record registered (t1 t2 : tree) (height : Z) (a : Address) : Prop := {
  rg_account : has_key t1 (hashKey (Address_Bytes a));
  rg_slot : has_key t2 (hashKey (Hash_Bytes (info height a)));
  rg_slot1 : has_key t2 (hashKey (big_bytes (Hash_Big (info height a) + 1)));
  rg_slot2 : has_key t2 (hashKey (big_bytes (Hash_Big (info height a) + 1 + 1)))
}.

(** The slots after the first have keys of 32 bytes without a leading zero. *)
Definition full_width (height : Z) (a : Address) : Prop :=
  256 ^ 31 ≤ Hash_Big (info height a) + 1 ∧ Hash_Big (info height a) + 2 < 256 ^ 32.

Lemma full_offset x : 256 ^ 31 ≤ x < 256 ^ 32 → Hash_Bytes (BigToHash x) = big_bytes x.
Proof.
  intros Hx. rewrite (big_bytes_full 31) by exact Hx. unfold Hash_Bytes. f_equal. rewrite BigToHash_int by lia.
  apply Z.mod_small. change (2 ^ 256) with (256 ^ 32). lia.
Qed.

(** With a leading zero the two keys are different. *)
Lemma short_offset_differs x : 0 ≤ x < 256 ^ 31 → Hash_Bytes (BigToHash x) ≠ big_bytes x.
Proof.
  intros Hx E. pose proof (length_big_bytes_short 31 x Hx) as Hl. rewrite <- E in Hl. unfold Hash_Bytes in Hl.
  rewrite length_be_bytes in Hl. unfold HashLength in Hl. lia.
Qed.

Section built.
Context (known : rawNode → Prop).
Hypothesis no_collision : ∀ c c', known c → known c' → keccak256 (encodeNode c) = keccak256 (encodeNode c') → c = c'.
Context (D : NodeDatabase) (cachegen : Z) (root1 root2 : option node) (t1 t2 : tree).

(** A trie in memory, with what it stands for. *)
Definition at_hand (root : option node) (t : tree) : Prop := cached encodeNode D root t ∧ wft t ∧ covered encodeNode known t.

Hypothesis nodes_addressed : addressed encodeNode known D.
Hypothesis state_trie : at_hand root1 t1.
Hypothesis storage_trie : at_hand root2 t2.

Definition builds (A : Hash → Prop) (m : building) : Prop := ∀ S, set_ok known S →
  ∃ S', m S = Ret (Some S') ∧ set_ok known S' ∧
    ∀ h, is_Some (ns_nodes S' !! h) ↔ is_Some (ns_nodes S !! h) ∨ A h.

Lemma builds_then A B m1 m2 : builds A m1 → builds B m2 → builds (λ h, A h ∨ B h) (m1 +>> m2).
Proof.
  intros H1 H2 S HS. destruct (H1 S HS) as (S1 & E1 & HS1 & HA). destruct (H2 S1 HS1) as (S2 & E2 & HS2 & HB).
  exists S2. unfold build_then. rewrite E1. cbn. split_and!; [done|done|]. intros h. rewrite HB, HA. naive_solver.
Qed.

Lemma builds_impl A B m : (∀ h, A h ↔ B h) → builds A m → builds B m.
Proof.
  intros HAB H S HS. destruct (H S HS) as (S' & E & HS' & Hh). exists S'. split_and!; [done|done|]. intros h.
  by rewrite Hh, HAB.
Qed.

Lemma builds_key root t key : at_hand root t → Forall byte_ok key → enough (length key) key_fuel →
  builds (asked t key) (λ s, s ← Prove (db_node D) cachegen key_fuel root key 0 s; Ret (Some s)).
Proof.
  intros (Hc & Hw & Hcov) Hk Hf S HS.
  destruct (Prove_spec known no_collision cachegen D root t key S key_fuel Hc Hw Hcov nodes_addressed HS Hk Hf) as (S' & E & HS' & Hg & Hin & Hout).
  exists S'. rewrite E. split_and!; [done|done|]. intros h. split; [apply Hout|].
  intros [[b Hb]|(u & Hu & ->)]; [exists b; by apply Hg|by apply Hin].
Qed.

Lemma builds_state a : builds (asked t1 (hashKey (Address_Bytes a))) (StateDB_Prove D cachegen root1 a 0).
Proof. apply (builds_key root1 t1); [exact state_trie|apply hashKey_ok|apply hashKey_fuel]. Qed.

Lemma builds_slot key : builds (asked t2 (hashKey (Hash_Bytes key))) (StateDB_StorageProve D cachegen (Some root2) key 0).
Proof. apply (builds_key root2 t2); [exact storage_trie|apply hashKey_ok|apply hashKey_fuel]. Qed.

(** The nodes that show one registration. *)
Definition addr_nodes (height : Z) (a : Address) (h : Hash) : Prop :=
  asked t1 (hashKey (Address_Bytes a)) h ∨ asked t2 (hashKey (Hash_Bytes (info height a))) h ∨
  asked t2 (hashKey (big_bytes (Hash_Big (info height a) + 1))) h ∨
  asked t2 (hashKey (big_bytes (Hash_Big (info height a) + 1 + 1))) h.

Lemma builds_address height a : full_width height a → builds (addr_nodes height a) (proveForAddress config D cachegen root1 (Some root2) height a).
Proof.
  intros [Hlo Hhi]. unfold proveForAddress, addr_nodes. rewrite <- !full_offset by lia.
  apply builds_then; [apply builds_state|]. repeat apply builds_then; apply builds_slot.
Qed.

Lemma builds_voters height leader cvs flag : Forall (full_width height) (visited leader cvs flag) →
  builds (λ h, ∃ a, a ∈ visited leader cvs flag ∧ addr_nodes height a h) (proveVoters config D cachegen root1 (Some root2) height leader cvs flag).
Proof.
  revert flag. induction cvs as [|c cvs IH]; intros flag; cbn [visited proveVoters].
  - destruct flag; intros Hw.
    + apply (builds_impl (addr_nodes height leader)), builds_address; [|by inversion Hw].
      intros h. split; [intros Hh; exists leader; split; [apply elem_of_cons; by left|exact Hh]|].
      intros (a & [->|[]%elem_of_nil]%elem_of_cons & Hh). exact Hh.
    + intros S HS. exists S. split_and!; [done|done|]. intros h. split; [by left|]. by intros [|(a & ?%elem_of_nil & _)].
  - intros [Ha Hw]%Forall_cons. eapply builds_impl; [|apply builds_then; [by apply builds_address|by apply IH]].
    intros h. split; [intros [Hh|(a & Ha' & Hh)]; eexists; (split; [|exact Hh]); apply elem_of_cons; [by left|by right]|].
    intros (a & [->|Ha']%elem_of_cons & Hh); [by left|right; exists a; by split].
Qed.

(** A check that accepts, reading nodes of the set and at least those of [A]. *)
Definition accepts (db : NodeSet) (A : Hash → Prop) (m : check) : Prop := ∀ reads, ∃ r,
  m reads = (r ∪ reads, Accepted) ∧ (∀ h, A h → h ∈ r) ∧ (∀ h, h ∈ r → is_Some (ns_nodes db !! h)).

Lemma accepts_then db A B m1 m2 : accepts db A m1 → accepts db B m2 → accepts db (λ h, A h ∨ B h) (m1 &>> m2).
Proof.
  intros H1 H2 reads. destruct (H1 reads) as (r1 & E1 & HA & Hr1). destruct (H2 (r1 ∪ reads)) as (r2 & E2 & HB & Hr2).
  exists (r2 ∪ r1). unfold check_then. rewrite E1, E2. split_and!; [f_equal; set_solver|set_solver|set_solver].
Qed.

Lemma accepts_impl db A B m : (∀ h, B h → A h) → accepts db A m → accepts db B m.
Proof. intros HAB H reads. destruct (H reads) as (r & E & HA & Hr). exists r. split_and!; [done| |done]. auto. Qed.

Definition sent (S : NodeSet) : NodeSet := NodeList_NodeSet (NodeSet_NodeList S).

Lemma sent_has S h : set_ok known S → is_Some (ns_nodes (sent S) !! h) → h ∈ ns_order S.
Proof.
  intros HS [buf Hb]. apply NodeList_lookup in Hb as [Hin ->]. apply list_elem_of_fmap in Hin as (h & -> & Hh).
  pose proof Hh as Hs. apply (so_order _ S HS) in Hs as [b E]. rewrite E. cbn. destruct (so_known _ S HS h b E) as (c & _ & _ & <-). done.
Qed.

Lemma answer_value t key : default [] (answer t (keybytesToHex key)) = tget t (keybytesToHex key).
Proof. unfold answer. by destruct (tget t _). Qed.

(** A key that is there, looked up in a set that has all the nodes on its way. *)
Lemma accepts_read S t key : wft t → covered encodeNode known t → set_ok known S → Forall byte_ok key → length key = 32%nat →
  (∀ h, asked t key h → is_Some (ns_nodes S !! h)) →
  ∃ r, TrieProof.VerifyProof proof_fuel (rootHash encodeNode t) key (sent S) = (r, Proved (answer t (keybytesToHex key))) ∧
    (∀ h, asked t key h → h ∈ r) ∧ (∀ h, h ∈ r → is_Some (ns_nodes (sent S) !! h)).
Proof.
  intros Hw Hc HS Hk Hl Hall.
  destruct (Verify_spec known no_collision t key S proof_fuel Hw Hc HS Hk) as (r & E & Hr);
    [unfold proof_fuel; lia|intros u Hu; apply Hall; by exists u|].
  exists r. split_and!; [exact E|intros h (u & Hu & ->); by apply Hr|]. apply Forall_forall. by eapply reads_found.
Qed.

Lemma accepts_key S t key : wft t → covered encodeNode known t → set_ok known S →
  (∀ h, asked t (hashKey key) h → is_Some (ns_nodes S !! h)) → has_key t (hashKey key) →
  accepts (sent S) (asked t (hashKey key)) (verifyProofMustHasKey (sent S) (rootHash encodeNode t) (hashKey key)).
Proof.
  intros Hw Hc HS Hall Hkey reads. destruct (hashKey_ok key) as [Hk Hl].
  destruct (accepts_read S t (hashKey key) Hw Hc HS Hk Hl Hall) as (r & E & Hin & Hout).
  exists (list_to_set r). unfold verifyProofMustHasKey. rewrite E, answer_value. split_and!.
  - f_equal. unfold has_key in Hkey. by destruct (tget t _).
  - intros h Hh. apply elem_of_list_to_set, Hin, Hh.
  - intros h Hh%elem_of_list_to_set. by apply Hout.
Qed.

Lemma accepts_address S height a : set_ok known S → (∀ h, addr_nodes height a h → is_Some (ns_nodes S !! h)) → registered t1 t2 height a →
  accepts (sent S) (addr_nodes height a) (verifyProofForAddress config (sent S) (rootHash encodeNode t1) (rootHash encodeNode t2) height a).
Proof.
  intros HS Hall []. destruct state_trie as (_ & Hw1 & Hc1), storage_trie as (_ & Hw2 & Hc2). unfold verifyProofForAddress, addr_nodes in *.
  repeat apply accepts_then; (apply accepts_key; [assumption..| |assumption]); intros h Hh; apply Hall; eauto.
Qed.

Lemma accepts_voters S height leader cvs flag : set_ok known S →
  (∀ a, a ∈ visited leader cvs flag → registered t1 t2 height a ∧ ∀ h, addr_nodes height a h → is_Some (ns_nodes S !! h)) →
  accepts (sent S) (λ h, ∃ a, a ∈ visited leader cvs flag ∧ addr_nodes height a h)
    (verifyVoters config (sent S) (rootHash encodeNode t1) (rootHash encodeNode t2) height leader cvs flag).
Proof.
  intros HS. revert flag. induction cvs as [|c cvs IH]; intros flag; cbn [visited verifyVoters].
  - destruct flag; intros Hv.
    + destruct (Hv leader) as [Hreg Hn]; [apply elem_of_cons; by left|].
      apply (accepts_impl _ (addr_nodes height leader)), accepts_address; [|exact HS|exact Hn|exact Hreg].
      intros h (a & [->|[]%elem_of_nil]%elem_of_cons & Hh). exact Hh.
    + intros reads. exists ∅. split_and!; [f_equal; set_solver|by intros h (a & ?%elem_of_nil & _)|set_solver].
  - intros Hv. eapply accepts_impl; [|apply accepts_then; [apply accepts_address; [exact HS|apply Hv, elem_of_cons; by left..]|]].
    2: { apply IH. intros a Ha. apply Hv, elem_of_cons. by right. }
    intros h (a & [->|Ha]%elem_of_cons & Hh); [by left|right; exists a; by split].
Qed.

(** All that was read is all that was sent. *)
Lemma reads_all S (reads : gset Hash) : set_ok known S →
  (∀ h, h ∈ reads ↔ is_Some (ns_nodes S !! h)) → Z.of_nat (size reads) = Z.of_nat (length (NodeSet_NodeList S)).
Proof.
  intros HS Hr. f_equal. unfold NodeSet_NodeList. rewrite length_fmap, <- (size_list_to_set (C := gset Hash)) by apply HS.
  f_equal. apply set_eq. intros h. rewrite elem_of_list_to_set, Hr. apply HS.
Qed.

(** C30. The proof that goes into a certificate is accepted, if no second or third slot of
    the leader and the voters has a key with a leading zero byte (the builder and the
    verifier hash such a key differently, see [short_offset_differs]).  When they are all registered and that condition holds,
    [BuildProof] ends without an error, whichever nodes of the two tries are loaded, and
    [VerifyProof] accepts the nodes it collected for the root of the state, none of them
    useless. *)
Theorem certificate_proof_complete height leader cvs data :
  rlp_read_account (tget t1 (keybytesToHex (hashKey (Address_Bytes MinerAddress)))) = Some data →
  ac_Root data = rootHash encodeNode t2 →
  (∀ a, a = leader ∨ voter cvs a → registered t1 t2 height a ∧ full_width height a) →
  ∃ S, BuildProof config D cachegen root1 (Some root2) height leader cvs NewNodeSet = Ret (Some S) ∧
    VerifyProof config (rootHash encodeNode t1) height leader cvs (NodeSet_NodeList S) = Accepted.
Proof.
  intros Hd Hroot Hreg. setoid_rewrite <- visited_all in Hreg.
  assert (Hw : Forall (full_width height) (visited leader cvs true)) by (apply Forall_forall; intros a Ha; apply Hreg, Ha).
  destruct (builds_then _ _ _ _ (builds_state MinerAddress) (builds_voters height leader cvs true Hw) NewNodeSet (set_ok_new known)) as (S & E & HS & Hin).
  assert (Hin' : ∀ h, is_Some (ns_nodes S !! h) ↔ asked t1 (hashKey (Address_Bytes MinerAddress)) h ∨ ∃ a, a ∈ visited leader cvs true ∧ addr_nodes height a h).
  { intros h. rewrite Hin. cbn [ns_nodes NewNodeSet]. rewrite lookup_empty. split; [by intros [[]|?]|by right]. }
  exists S. split; [exact E|]. unfold VerifyProof, verifyProofNodeSet. destruct state_trie as (_ & Hw1 & Hc1).
  destruct (accepts_read S t1 (hashKey (Address_Bytes MinerAddress)) Hw1 Hc1 HS) as (r & Er & Hr & Hr');
    [apply hashKey_ok..|intros h Hh; apply Hin'; by left|].
  unfold sent in Er. rewrite Er, answer_value, Hd, Hroot.
  destruct (accepts_voters S height leader cvs true HS) with (reads := list_to_set r : gset Hash) as (rv & Ev & Hv & Hv').
  { intros a Ha. split; [by apply Hreg|]. intros h Hh. apply Hin'. right. by exists a. }
  unfold sent in Ev. rewrite Ev. cbn iota beta. rewrite (proj2 (Z.eqb_eq _ _)); [done|]. apply reads_all; [exact HS|].
  intros h. rewrite elem_of_union, elem_of_list_to_set. split.
  - intros [Hh|Hh]; apply (so_order _ S HS), sent_has; auto.
  - rewrite Hin'. intros [Hh|Hh]; [right; by apply Hr|left; by apply Hv].
Qed.
End built.

(** ** What is accepted is there *)

Section received.
Context (t1 t2 : tree) (l : list bytes).

(** No node that was sent collides with one of the trie. *)
Definition collision_free (t : tree) : Prop :=
  ∀ u buf, subtree u t → buf ∈ l → keccak256 buf = nodeHash u → buf = encodeNode (HasherFacts.body encodeNode u).

Hypothesis state_wft : wft t1.
Hypothesis storage_wft : wft t2.
Hypothesis state_free : collision_free t1.
Hypothesis storage_free : collision_free t2.

Abbreviation db := (NodeList_NodeSet l).

(** A check that ends, and by accepting shows [P]. *)
Definition shows (P : Prop) (m : check) : Prop := ∀ reads,
  (∃ r, m reads = (r, Rejected)) ∨
  (∃ r, m reads = (r ∪ reads, Accepted) ∧ P ∧ ∀ h, h ∈ r → is_Some (ns_nodes db !! h)).

Lemma shows_then P Q m1 m2 : shows P m1 → shows Q m2 → shows (P ∧ Q) (m1 &>> m2).
Proof.
  intros H1 H2 reads. unfold check_then. destruct (H1 reads) as [(r1 & ->)|(r1 & -> & HP & Hr1)]; [left; by exists r1|].
  destruct (H2 (r1 ∪ reads)) as [(r2 & ->)|(r2 & -> & HQ & Hr2)]; [left; by exists r2|]. right. exists (r2 ∪ r1).
  split_and!; [f_equal; set_solver|done|done|set_solver].
Qed.

Lemma shows_impl P Q m : (P → Q) → shows P m → shows Q m.
Proof. intros HPQ H reads. destruct (H reads) as [|(r & E & HP & Hr)]; [by left|right; exists r; split_and!; auto]. Qed.

Lemma verified t key : wft t → collision_free t →
  ∃ r v, TrieProof.VerifyProof proof_fuel (rootHash encodeNode t) (hashKey key) db = (r, v) ∧
    (v = Refused ∨ v = Proved (answer t (keybytesToHex (hashKey key))) ∧ ∀ h, h ∈ r → is_Some (ns_nodes db !! h)).
Proof.
  intros Hw Hc. destruct (hashKey_ok key) as [Hk Hl].
  destruct (verify_sent proof_fuel t (hashKey key) l Hw Hk) as (r & v & E & Hv); [unfold proof_fuel; lia|exact Hc|].
  exists r, v. split; [exact E|]. destruct Hv as [->| ->]; [by left|right]. split; [done|]. apply Forall_forall. by eapply reads_found.
Qed.

Lemma shows_key t key : wft t → collision_free t →
  shows (has_key t (hashKey key)) (verifyProofMustHasKey db (rootHash encodeNode t) (hashKey key)).
Proof.
  intros Hw Hc reads. destruct (verified t key Hw Hc) as (r & v & E & Hv). unfold verifyProofMustHasKey. rewrite E.
  destruct Hv as [->|[-> Hr]]; [left; by eexists|]. rewrite answer_value. unfold has_key.
  destruct (tget t _) eqn:Et; [left; by eexists|right]. exists (list_to_set r). split_and!; [done|done|].
  intros h Hh%elem_of_list_to_set. by apply Hr.
Qed.

Lemma shows_address height a :
  shows (registered t1 t2 height a) (verifyProofForAddress config db (rootHash encodeNode t1) (rootHash encodeNode t2) height a).
Proof.
  eapply shows_impl; [|unfold verifyProofForAddress; repeat apply shows_then; apply shows_key; assumption].
  intros (? & ? & ? & ?). by split.
Qed.

Lemma shows_voters height leader cvs flag :
  shows (Forall (registered t1 t2 height) (visited leader cvs flag))
    (verifyVoters config db (rootHash encodeNode t1) (rootHash encodeNode t2) height leader cvs flag).
Proof.
  revert flag. induction cvs as [|c cvs IH]; intros flag; cbn [visited verifyVoters].
  - destruct flag; [eapply shows_impl, shows_address; intros H; constructor; [exact H|constructor]|].
    intros reads. right. exists ∅. split_and!; [f_equal; set_solver|constructor|set_solver].
  - eapply shows_impl; [|apply shows_then; [apply shows_address|apply IH]]. intros [? ?]. by constructor.
Qed.

(** Nodes that were all read are different. *)
Lemma all_read_nodup (reads : gset Hash) : (∀ h, h ∈ reads → is_Some (ns_nodes db !! h)) → size reads = length l → NoDup l.
Proof.
  intros Hr Hs. apply (NoDup_fmap_1 keccak256), size_nodup. rewrite length_fmap, <- Hs. apply subseteq_size.
  intros h Hh. destruct (Hr h Hh) as [buf Hb]. apply NodeList_lookup in Hb as [Hin ->]. by apply elem_of_list_to_set, list_elem_of_fmap_2.
Qed.

(** C13. A certificate's proof cannot show a registration that is not there.  Whatever nodes
    are sent, [VerifyProof] ends without a panic, with an error or accepting; and when it
    accepts, the leader and every voter has an account in the state of the root and the
    slots of a registration in the storage of the miner contract, and no node was sent
    twice, as long as no node that was sent collides with one of the two tries. *)
Theorem certificate_proof_sound height leader cvs data :
  rlp_read_account (tget t1 (keybytesToHex (hashKey (Address_Bytes MinerAddress)))) = Some data →
  ac_Root data = rootHash encodeNode t2 →
  VerifyProof config (rootHash encodeNode t1) height leader cvs l = Rejected ∨
  VerifyProof config (rootHash encodeNode t1) height leader cvs l = Accepted ∧ NoDup l ∧
    ∀ a, a = leader ∨ voter cvs a → registered t1 t2 height a.
Proof.
  intros Hd Hroot. unfold VerifyProof, verifyProofNodeSet.
  destruct (verified t1 (Address_Bytes MinerAddress) state_wft state_free) as (r & v & -> & [->|[-> Hr]]); [by left|].
  rewrite answer_value, Hd, Hroot.
  destruct (shows_voters height leader cvs true (list_to_set r)) as [(rv & ->)|(rv & -> & Hreg & Hrv)]; [by left|]. cbn iota beta.
  destruct (Z.eqb_spec (Z.of_nat (size (rv ∪ list_to_set r))) (Z.of_nat (length l))) as [Hs|]; [right|by left]. split; [done|]. split.
  - apply (all_read_nodup (rv ∪ list_to_set r)); [|lia]. intros h [Hh|Hh%elem_of_list_to_set]%elem_of_union; [by apply Hrv|by apply Hr].
  - intros a Ha%visited_all. rewrite Forall_forall in Hreg. by apply Hreg.
Qed.
End received.
End facts.

(** ** A state with one registration *)

Import ToyRlp.

Module CertExample.
(** Short inputs, as all keys are, have one digest. *)
Definition flat_digest (b : bytes) : Z := if (length b <=? 64)%nat then 2 ^ 255 else Toy.digest b.

#[export] Instance crypto : Crypto := {|
  keccak256 := flat_digest;
  sha512_256 := @sha512_256 Toy.crypto;
  rlp_list := @rlp_list Toy.crypto;
  ed_pub := @ed_pub Toy.crypto;
  ed_sign := @ed_sign Toy.crypto;
  ed_verify := @ed_verify Toy.crypto;
  vrf_pub := @vrf_pub Toy.crypto;
  VrfProve := @VrfProve Toy.crypto;
  VrfProofToHash256 := @VrfProofToHash256 Toy.crypto;
  VrfVerify256 := @VrfVerify256 Toy.crypto
|}.

#[export] Instance digest_size : DigestSize.
Proof.
  split; intros b; [|apply Z.mod_pos_bound; lia]. cbn. unfold flat_digest. case_match; [by vm_compute|apply Z.mod_pos_bound; lia].
Qed.

Definition key : bytes := hashKey [].
Definition entry (v : Z) : tree := TShort (keybytesToHex key) (TVal (replicate 80 v)).
Definition entry_root (v : Z) : option node := Some (shortNode (keybytesToHex key) (Some (valueNode (replicate 80 v))) (newFlag 0)).
Definition nodes : list rawNode :=
  [HasherFacts.body encodeNode (entry 7); rawValue (replicate 80 7);
   HasherFacts.body encodeNode (entry 8); rawValue (replicate 80 8)].
Definition known (c : rawNode) : Prop := c ∈ nodes.

(** Every account that is read has the second trie for its storage. *)
#[export] Instance codec : Codec := {|
  encode_node := encodeNode;
  rlp_account _ := None;
  rlp_read_account _ := Some (mkAccount 0 0 (rootHash encodeNode (entry 8)) 0);
  rlp_value b := b;
  rlp_content b := (b, None)
|}.

Definition config : AlgorandConfig := mkAlgorandConfig 1000 100 10.
Definition leader : Address := 77.
Definition cvs : list CertVoteStorage := [mkCertVoteStorage ForwardSecure.zeroSignature (mkCredentialStorage 78 0)].

Lemma short_key b : (length b ≤ 64)%nat → hashKey b = key.
Proof. intros Hb. unfold key, hashKey. cbn [keccak256 crypto]. unfold flat_digest. by rewrite (proj2 (Nat.leb_le _ _)). Qed.

Lemma flat_key_bytes : Forall byte_ok key.
Proof. apply hashKey_ok. Qed.

Lemma digests_differ : NoDup ((λ c, keccak256 (encodeNode c)) <$> nodes).
Proof. apply (bool_decide_unpack _). by vm_compute. Qed.

Lemma flat_known_distinct c c' : known c → known c' → keccak256 (encodeNode c) = keccak256 (encodeNode c') → c = c'.
Proof.
  intros [i Hi]%list_elem_of_lookup_1 [j Hj]%list_elem_of_lookup_1 E.
  assert (i = j) as ->; [|congruence]. eapply NoDup_lookup; [apply digests_differ|..]; rewrite list_lookup_fmap, ?Hi, ?Hj; cbn [fmap option_fmap option_map]; [reflexivity|].
  by rewrite E.
Qed.

Lemma entry_wft v : wft (entry v).
Proof. constructor; [apply hex_key, flat_key_bytes|done]. Qed.

Lemma subtree_entry v s : subtree s (entry v) → s = entry v ∨ s = TVal (replicate 80 v).
Proof. inversion 1 as [|? ? Hs|]; subst; [by left|]. inversion Hs; subst. by right. Qed.

Lemma entry_get v : tget (entry v) (keybytesToHex key) = replicate 80 v.
Proof. unfold entry. rewrite tget_short, strip_key by apply hex_key, flat_key_bytes. by rewrite decide_True by done. Qed.

Lemma entry_at_hand v : known (HasherFacts.body encodeNode (entry v)) → known (rawValue (replicate 80 v)) → at_hand known ∅ (entry_root v) (entry v).
Proof.
  intros H1 H2. pose proof (hex_key key flat_key_bytes) as Hk. split_and!.
  - split_and!; [apply expands_short; [apply valid_new|constructor]|right; apply entry_wft|].
    intros k Hk' Hg. exists key. split; [apply flat_key_bytes|]. unfold entry in Hg. rewrite tget_short, strip_key in Hg by done.
    by destruct (decide (k = keybytesToHex key)).
  - apply entry_wft.
  - intros s [->| ->]%subtree_entry; assumption.
Qed.

Lemma entry_has v b : (length b ≤ 64)%nat → has_key (entry v) (hashKey b).
Proof. intros Hb. unfold has_key. rewrite short_key, entry_get by done. by vm_compute. Qed.

Lemma flat_info height a : MakeMinerInfoKey config height a = 2 ^ 255.
Proof.
  unfold MakeMinerInfoKey. cbn [keccak256 crypto]. unfold flat_digest. rewrite (proj2 (Nat.leb_le _ _)); [by vm_compute|].
  rewrite length_app. unfold Hash_Bytes. rewrite !length_be_bytes. unfold HashLength. lia.
Qed.

Lemma all_registered height a : registered config (entry 7) (entry 8) height a ∧ full_width config height a.
Proof.
  unfold full_width. split; [split; rewrite ?flat_info; apply entry_has|rewrite flat_info; by vm_compute].
  - unfold Address_Bytes. rewrite length_be_bytes. unfold AddressLength. lia.
  - unfold Hash_Bytes. rewrite length_be_bytes. unfold HashLength. lia.
  - apply Nat.leb_le. by vm_compute.
  - apply Nat.leb_le. by vm_compute.
Qed.

Lemma garbage_differs : keccak256 [1; 2; 3] ∉ (λ c, keccak256 (encodeNode c)) <$> nodes.
Proof. apply (bool_decide_unpack _). by vm_compute. Qed.

Lemma garbage_free v : known (HasherFacts.body encodeNode (entry v)) → known (rawValue (replicate 80 v)) → collision_free [[1; 2; 3]] (entry v).
Proof.
  intros H1 H2 u buf Hu [->|[]%elem_of_nil]%elem_of_cons E. exfalso. apply garbage_differs. rewrite E.
  apply subtree_entry in Hu as [->| ->]; apply (list_elem_of_fmap_2 (λ c, keccak256 (encodeNode c))); assumption.
Qed.
End CertExample.
Import CertExample.

Lemma certificate_proof_complete_witness :
  ∃ S, BuildProof config ∅ 0 (entry_root 7) (Some (entry_root 8)) 5 leader cvs NewNodeSet = Ret (Some S) ∧
    VerifyProof config (rootHash encodeNode (entry 7)) 5 leader cvs (NodeSet_NodeList S) = Accepted.
Proof.
  apply (certificate_proof_complete config known flat_known_distinct ∅ 0 (entry_root 7) (entry_root 8) (entry 7) (entry 8))
    with (data := mkAccount 0 0 (rootHash encodeNode (entry 8)) 0).
  - by intros h c ?%lookup_empty_Some.
  - apply entry_at_hand; apply elem_of_cons; [by left|right; apply elem_of_cons; by left].
  - apply entry_at_hand; do 2 (apply elem_of_cons; right); apply elem_of_cons; [by left|right; apply elem_of_cons; by left].
  - reflexivity.
  - reflexivity.
  - intros a _. apply all_registered.
Defined.

Lemma certificate_proof_sound_witness :
  VerifyProof config (rootHash encodeNode (entry 7)) 5 leader cvs [[1; 2; 3]] = Rejected ∨
  VerifyProof config (rootHash encodeNode (entry 7)) 5 leader cvs [[1; 2; 3]] = Accepted ∧ NoDup [[1; 2; 3]] ∧
    ∀ a, a = leader ∨ voter cvs a → registered config (entry 7) (entry 8) 5 a.
Proof.
  apply (certificate_proof_sound config (entry 7) (entry 8) [[1; 2; 3]]) with (data := mkAccount 0 0 (rootHash encodeNode (entry 8)) 0).
  - apply entry_wft.
  - apply entry_wft.
  - apply garbage_free; apply elem_of_cons; [by left|right; apply elem_of_cons; by left].
  - apply garbage_free; do 2 (apply elem_of_cons; right); apply elem_of_cons; [by left|right; apply elem_of_cons; by left].
  - reflexivity.
  - reflexivity.
Defined.
