(* ===== verification/Receipt.v ===== *)
(** * Receipt: receipts and their bloom filters

    src/core/types/receipt.go and bloom9.go: the record of a transaction, its two encodings
    up to the RLP of the fields, and the filter of 2048 bits by which logs are searched. *)

From S2P Require Import Prelude Bytes Crypto MinerContract StateDB.

Local Open Scope Z_scope.

(** ** Bloom filters *)

Definition BloomByteLength : Z := 256.
Definition BloomBitLength : Z := 8 * BloomByteLength.

Section bloom.
Context `{CR : Crypto}.

(** The bit of the bytes [i] and [i + 1] of a digest. *)
Definition bloomBit (b : bytes) (i : nat) : Z :=
  Z.land (nth (i + 1) b 0 + Z.shiftl (nth i b 0) 8) 2047.

(** The loop over [i] = 0, 2, 4. *)
Definition bloom9 (b : bytes) : Z :=
  let b := Hash_Bytes (keccak256 b) in
  foldl (λ r i, Z.lor r (Z.shiftl 1 (bloomBit b i))) 0 [0; 2; 4]%nat.

(** [BytesToBloom]: the content of the array as a number; [None] is its panic. *)
Definition BytesToBloom (b : bytes) : option Z :=
  if BloomByteLength <? Z.of_nat (length b) then None else Some (be_int b).

Definition LogsBloom (logs : list Log) : Z :=
  foldl (λ bin log,
    foldl (λ bin b, Z.lor bin (bloom9 (Hash_Bytes b))) (Z.lor bin (bloom9 (Address_Bytes (lg_Address log)))) (lg_Topics log))
    0 logs.

Definition BloomLookup (bin : Z) (topic : bytes) : bool :=
  let cmp := bloom9 topic in
  Z.land bin cmp =? cmp.

(** [Add] and [Test] take a number, whose bytes have no leading zeros. *)
Definition Bloom_Add (b : Z) (d : Z) : option Z := BytesToBloom (big_bytes (Z.lor b (bloom9 (big_bytes d)))).
Definition Bloom_Test (b : Z) (test : Z) : bool := BloomLookup b (big_bytes test).
Definition Bloom_TestBytes (b : Z) (test : bytes) : bool := Bloom_Test b (be_int test).
End bloom.

(** ** Receipts *)

Definition ReceiptStatusFailed : Z := 0.
Definition ReceiptStatusSuccessful : Z := 1.
Definition receiptStatusFailedRLP : bytes := [].
Definition receiptStatusSuccessfulRLP : bytes := [1].

Record Receipt := mkReceipt {
  rc_PostState : bytes;
  rc_Status : Z;
  rc_CumulativeGasUsed : Z;
  rc_Bloom : Z;
  rc_Logs : list Log;
  rc_TxHash : Hash;
  rc_ContractAddress : Address;
  rc_GasUsed : Z
}.
#[global] Instance Receipt_fields : Fields Receipt := λ r,
  mkReceipt (rc_PostState r) (rc_Status r) (rc_CumulativeGasUsed r) (rc_Bloom r) (rc_Logs r) (rc_TxHash r)
    (rc_ContractAddress r) (rc_GasUsed r).

Definition zeroReceipt : Receipt := mkReceipt [] 0 0 0 [] 0 0 0.

Definition NewReceipt (root : bytes) (failed : bool) (cumulativeGasUsed : Z) : Receipt :=
  zeroReceipt <| rc_PostState := root |> <| rc_CumulativeGasUsed := cumulativeGasUsed |>
    <| rc_Status := if failed then ReceiptStatusFailed else ReceiptStatusSuccessful |>.

Definition statusEncoding (r : Receipt) : bytes :=
  match rc_PostState r with
  | [] => if rc_Status r =? ReceiptStatusFailed then receiptStatusFailedRLP else receiptStatusSuccessfulRLP
  | root => root
  end.

(** [None] is the error of an invalid status. *)
Definition setStatus (r : Receipt) (postStateOrStatus : bytes) : option Receipt :=
  if bool_decide (postStateOrStatus = receiptStatusSuccessfulRLP) then Some (r <| rc_Status := ReceiptStatusSuccessful |>)
  else if bool_decide (postStateOrStatus = receiptStatusFailedRLP) then Some (r <| rc_Status := ReceiptStatusFailed |>)
  else if (length postStateOrStatus =? HashLength)%nat then Some (r <| rc_PostState := postStateOrStatus |>)
  else None.

(** The fields that are encoded, for the consensus and for the database. *)
Record receiptRLP := mkReceiptRLP {
  rr_PostStateOrStatus : bytes;
  rr_CumulativeGasUsed : Z;
  rr_Bloom : Z;
  rr_Logs : list Log
}.
Record receiptStorageRLP := mkReceiptStorageRLP {
  rs_PostStateOrStatus : bytes;
  rs_CumulativeGasUsed : Z;
  rs_Bloom : Z;
  rs_TxHash : Hash;
  rs_ContractAddress : Address;
  rs_Logs : list Log;
  rs_GasUsed : Z
}.

Definition Receipt_EncodeRLP (r : Receipt) : receiptRLP :=
  mkReceiptRLP (statusEncoding r) (rc_CumulativeGasUsed r) (rc_Bloom r) (rc_Logs r).
Definition Receipt_DecodeRLP (r : Receipt) (dec : receiptRLP) : option Receipt :=
  r ← setStatus r (rr_PostStateOrStatus dec);
  Some (r <| rc_CumulativeGasUsed := rr_CumulativeGasUsed dec |> <| rc_Bloom := rr_Bloom dec |> <| rc_Logs := rr_Logs dec |>).

Definition ReceiptForStorage_EncodeRLP (r : Receipt) : receiptStorageRLP :=
  mkReceiptStorageRLP (statusEncoding r) (rc_CumulativeGasUsed r) (rc_Bloom r) (rc_TxHash r) (rc_ContractAddress r)
    (rc_Logs r) (rc_GasUsed r).
Definition ReceiptForStorage_DecodeRLP (r : Receipt) (dec : receiptStorageRLP) : option Receipt :=
  r ← setStatus r (rs_PostStateOrStatus dec);
  Some (r <| rc_CumulativeGasUsed := rs_CumulativeGasUsed dec |> <| rc_Bloom := rs_Bloom dec |> <| rc_Logs := rs_Logs dec |>
          <| rc_TxHash := rs_TxHash dec |> <| rc_ContractAddress := rs_ContractAddress dec |> <| rc_GasUsed := rs_GasUsed dec |>).

(** ** The filter of receipts *)

Section receipts.
Context `{CR : Crypto}.

Definition CreateBloom (receipts : list Receipt) : option Z :=
  BytesToBloom (big_bytes (foldl (λ bin receipt, Z.lor bin (LogsBloom (rc_Logs receipt))) 0 receipts)).
End receipts.

(** ** What the filter finds *)

Section facts.
Context `{CR : Crypto}.

Definition bloom_ok (b : Z) : Prop := 0 ≤ b < 2 ^ BloomBitLength.

Lemma bloomBit_range b i : 0 ≤ bloomBit b i < BloomBitLength.
Proof.
  unfold bloomBit. change 2047 with (Z.ones 11). rewrite Z.land_ones by lia.
  change BloomBitLength with (2 ^ 11). by apply Z.mod_pos_bound.
Qed.

Lemma bloom_bound x : 0 ≤ x → (∀ n, BloomBitLength ≤ n → Z.testbit x n = false) → bloom_ok x.
Proof.
  intros Hx Hb. split; [done|]. destruct (Z.eq_dec x 0) as [->|Hn]; [done|]. apply Z.log2_lt_pow2; [lia|].
  destruct (Z.lt_ge_cases (Z.log2 x) BloomBitLength) as [|Hge]; [done|]. specialize (Hb _ Hge).
  rewrite Z.bit_log2 in Hb by lia. done.
Qed.

Lemma lor_bloom x y : bloom_ok x → bloom_ok y → bloom_ok (Z.lor x y).
Proof.
  intros [Hx Hx'] [Hy Hy']. apply bloom_bound; [by apply Z.lor_nonneg|]. intros n Hn. rewrite Z.lor_spec.
  assert (∀ z, 0 ≤ z < 2 ^ BloomBitLength → Z.testbit z n = false) as H.
  { intros z Hz. destruct (Z.eq_dec z 0) as [->|]; [apply Z.testbit_0_l|]. apply Z.bits_above_log2; [lia|].
    apply Z.lt_le_trans with BloomBitLength; [|done]. apply Z.log2_lt_pow2; lia. }
  rewrite !H; done.
Qed.

Lemma bit_bloom i : 0 ≤ i < BloomBitLength → bloom_ok (Z.shiftl 1 i).
Proof. intros Hi. rewrite Z.shiftl_1_l. split; [apply Z.pow_nonneg; lia|apply Z.pow_lt_mono_r; lia]. Qed.

Lemma bloom9_ok b : bloom_ok (bloom9 b).
Proof. unfold bloom9. cbn [foldl]. repeat apply lor_bloom; try (apply bit_bloom, bloomBit_range). by split. Qed.

(** [x] is a part of [y]. *)
Definition within_bloom (x y : Z) : Prop := Z.land y x = x.

Lemma within_refl x : within_bloom x x.
Proof. apply Z.land_diag. Qed.

Lemma within_lor_l x y z : within_bloom x y → within_bloom x (Z.lor y z).
Proof. unfold within_bloom. intros H. rewrite Z.land_lor_distr_l, H. apply Z.bits_inj. intros n. rewrite Z.lor_spec, Z.land_spec. by destruct (Z.testbit x n), (Z.testbit z n). Qed.

Lemma within_lor_r x y z : within_bloom x z → within_bloom x (Z.lor y z).
Proof. intros H. rewrite Z.lor_comm. by apply within_lor_l. Qed.

Lemma within_trans x y z : within_bloom x y → within_bloom y z → within_bloom x z.
Proof. unfold within_bloom. intros <- <-. apply Z.bits_inj. intros n. rewrite !Z.land_spec. by destruct (Z.testbit z n), (Z.testbit y n), (Z.testbit x n). Qed.

(** The loops that collect filters. *)
Lemma lor_loop {A : Type} (f : A → Z) (l : list A) x : bloom_ok x → (∀ a, a ∈ l → bloom_ok (f a)) →
  let r := foldl (λ b a, Z.lor b (f a)) x l in
  bloom_ok r ∧ within_bloom x r ∧ (∀ a, a ∈ l → within_bloom (f a) r) ∧
  ∀ n, Z.testbit r n = true → Z.testbit x n = true ∨ ∃ a, a ∈ l ∧ Z.testbit (f a) n = true.
Proof.
  revert x. induction l as [|a l IH]; intros x Hx Hf; cbn [foldl].
  { split_and!; [done|apply within_refl|by intros a ?%elem_of_nil|by left]. }
  destruct (IH (Z.lor x (f a))) as (H1 & H2 & H3 & H4).
  { apply lor_bloom; [done|]. apply Hf. by left. }
  { intros b Hb. apply Hf. by right. }
  split_and!; [done| | |].
  - eapply within_trans; [|exact H2]. apply within_lor_l, within_refl.
  - intros b [->|Hb]%elem_of_cons; [|by apply H3]. eapply within_trans; [|exact H2]. apply within_lor_r, within_refl.
  - intros n Hn. destruct (H4 n Hn) as [H|(b & Hb & H)]; [|right; exists b; split; [by right|done]].
    rewrite Z.lor_spec in H. apply orb_true_iff in H as [|]; [by left|right; exists a; split; [by left|done]].
Qed.

(** What a log can be found by. *)
Definition keys (log : Log) : list bytes := Address_Bytes (lg_Address log) :: (Hash_Bytes <$> lg_Topics log).

Lemma foldl_join (l : list Log) x :
  foldl (λ bin log, foldl (λ bin b, Z.lor bin (bloom9 (Hash_Bytes b))) (Z.lor bin (bloom9 (Address_Bytes (lg_Address log)))) (lg_Topics log)) x l =
  foldl (λ bin k, Z.lor bin (bloom9 k)) x (mjoin (keys <$> l)).
Proof.
  revert x. induction l as [|log l IH]; intros x; [done|]. rewrite fmap_cons. change (mjoin (keys log :: (keys <$> l))) with (keys log ++ mjoin (keys <$> l)).
  rewrite foldl_app, <- IH. cbn [foldl]. f_equal. unfold keys. cbn [foldl]. generalize (Z.lor x (bloom9 (Address_Bytes (lg_Address log)))).
  induction (lg_Topics log) as [|t ts IHt]; intros y; [done|]. rewrite fmap_cons. cbn [foldl]. by rewrite IHt.
Qed.

Lemma LogsBloom_spec logs :
  bloom_ok (LogsBloom logs) ∧ (∀ log k, log ∈ logs → k ∈ keys log → within_bloom (bloom9 k) (LogsBloom logs)) ∧
  ∀ n, Z.testbit (LogsBloom logs) n = true → ∃ log k, log ∈ logs ∧ k ∈ keys log ∧ Z.testbit (bloom9 k) n = true.
Proof.
  unfold LogsBloom. rewrite foldl_join. destruct (lor_loop bloom9 (mjoin (keys <$> logs)) 0) as (H1 & _ & H3 & H4); [by split|intros; apply bloom9_ok|].
  split_and!; [done| |].
  - intros log k Hl Hk. apply H3, list_elem_of_join. exists (keys log). split; [done|]. by apply list_elem_of_fmap_2.
  - intros n Hn. destruct (H4 n Hn) as [H|(k & Hk & H)]; [by rewrite Z.testbit_0_l in H|].
    apply list_elem_of_join in Hk as (ks & Hk & Hks). apply list_elem_of_fmap in Hks as (log & -> & Hl). by exists log, k.
Qed.

Lemma BytesToBloom_fits x : bloom_ok x → BytesToBloom (big_bytes x) = Some x.
Proof.
  intros [H1 H2]. unfold BytesToBloom. pose proof (length_big_bytes_short 256 x) as Hl.
  rewrite (proj2 (Z.ltb_ge _ _)); [by rewrite be_int_big_bytes|]. unfold BloomByteLength.
  assert (length (big_bytes x) ≤ 256)%nat; [|lia]. apply Hl. split; [done|]. replace (256 ^ Z.of_nat 256) with (2 ^ BloomBitLength); [done|].
  change 256 with (2 ^ 8) at 1. by rewrite <- Z.pow_mul_r.
Qed.

(** C31. No log is missed in the filter of a block.  [CreateBloom] never panics; the filter it
    makes from receipts answers yes for the address and for every topic of every one of
    their logs, and has no bit that is not one of an address or a topic: it is the union
    of the filters of the single receipts. *)
Theorem bloom_complete receipts :
  ∃ bloom, CreateBloom receipts = Some bloom ∧ bloom_ok bloom ∧
    (∀ r log, r ∈ receipts → log ∈ rc_Logs r →
       BloomLookup bloom (Address_Bytes (lg_Address log)) = true ∧
       ∀ t, t ∈ lg_Topics log → BloomLookup bloom (Hash_Bytes t) = true) ∧
    (∀ n, Z.testbit bloom n = true ↔ ∃ r b, r ∈ receipts ∧ CreateBloom [r] = Some b ∧ Z.testbit b n = true).
Proof.
  destruct (lor_loop (λ r, LogsBloom (rc_Logs r)) receipts 0) as (H1 & _ & H3 & H4); [by split|intros; apply LogsBloom_spec|].
  set (bloom := foldl _ _ _) in *. exists bloom.
  assert (∀ r log k, r ∈ receipts → log ∈ rc_Logs r → k ∈ keys log → BloomLookup bloom k = true) as Hk.
  { intros r log k Hr Hl Hk. apply Z.eqb_eq. eapply within_trans; [by apply (proj1 (proj2 (LogsBloom_spec (rc_Logs r))) log)|by apply H3]. }
  assert (∀ r, CreateBloom [r] = Some (LogsBloom (rc_Logs r))) as Hone.
  { intros r. unfold CreateBloom. cbn [foldl]. rewrite Z.lor_0_l. apply BytesToBloom_fits, LogsBloom_spec. }
  split_and!; [by apply BytesToBloom_fits|done| |].
  - intros r log Hr Hl. split; [apply (Hk r log); [done..|by left]|]. intros t Ht. apply (Hk r log); [done..|]. right. by apply list_elem_of_fmap_2.
  - intros n. split.
    + intros Hn. destruct (H4 n Hn) as [H|(r & Hr & H)]; [by rewrite Z.testbit_0_l in H|]. exists r, (LogsBloom (rc_Logs r)). by rewrite Hone.
    + intros (r & b & Hr & E & Hn). rewrite Hone in E. injection E as <-. pose proof (H3 r Hr) as Hw. unfold within_bloom in Hw.
      rewrite <- Hw, Z.land_spec in Hn. by apply andb_true_iff in Hn as [? _].
Qed.
End facts.

(** ** Encoding and decoding *)

(** A receipt of the rules since Byzantium, with a status; or of those before, with the
    root of the state and no status. *)
(** [TestBytes] asks for the bytes without their leading zeros, which is not what
    [LogsBloom] adds. *)
Lemma test_bytes_strips `{CR : Crypto} bloom test : Bloom_TestBytes bloom (0 :: test) = Bloom_TestBytes bloom test.
Proof. unfold Bloom_TestBytes. by rewrite be_int_cons. Qed.

Definition receipt_ok (r : Receipt) : Prop :=
  rc_PostState r = [] ∧ (rc_Status r = ReceiptStatusFailed ∨ rc_Status r = ReceiptStatusSuccessful) ∨
  length (rc_PostState r) = HashLength ∧ rc_Status r = ReceiptStatusFailed.

Lemma status_roundtrip r r0 : receipt_ok r → rc_PostState r0 = [] → rc_Status r0 = 0 →
  setStatus r0 (statusEncoding r) = Some (r0 <| rc_PostState := rc_PostState r |> <| rc_Status := rc_Status r |>).
Proof.
  intros Hr E1 E2. destruct r0 as [p0 s0 ? ? ? ? ? ?], r as [p s ? ? ? ? ? ?]. cbn in E1, E2. subst. unfold statusEncoding, setStatus. cbn [rc_PostState rc_Status].
  destruct Hr as [[Hp Hs]|[Hp Hs]]; cbn in *; [subst p; by destruct Hs as [-> | ->]|].
  destruct p as [|b [|c p]]; [done..|]. cbv iota beta. by rewrite !bool_decide_eq_false_2, (proj2 (Nat.eqb_eq _ _) Hp), Hs.
Qed.

(** A receipt is read from the database as it was written. *)
Lemma receipt_stored r : receipt_ok r →
  ReceiptForStorage_DecodeRLP zeroReceipt (ReceiptForStorage_EncodeRLP r) = Some r.
Proof. intros Hr. unfold ReceiptForStorage_DecodeRLP. cbn [rs_PostStateOrStatus ReceiptForStorage_EncodeRLP]. rewrite status_roundtrip by done. by destruct r. Qed.

(** The receipt of a transaction that succeeded under the rules before Byzantium is read as
    one that failed: of the root and the status only the root is written. *)
Lemma status_forgotten root gas : length root = HashLength →
  ∃ r, ReceiptForStorage_DecodeRLP zeroReceipt (ReceiptForStorage_EncodeRLP (NewReceipt root false gas)) = Some r ∧
    rc_Status (NewReceipt root false gas) = ReceiptStatusSuccessful ∧ rc_Status r = ReceiptStatusFailed.
Proof.
  intros Hl. exists (NewReceipt root true gas). split_and!; [|done..].
  transitivity (ReceiptForStorage_DecodeRLP zeroReceipt (ReceiptForStorage_EncodeRLP (NewReceipt root true gas))); [by destruct root|].
  apply receipt_stored. by right.
Qed.
