(* ===== verification/Heap.v ===== *)
(** * Heap: the heaps of the Go library

    The package container/heap, by which the transaction pool and the miner order
    transactions: a heap is a slice in which no element is less than its parent.  The
    elements and their order are parameters; [Swap], [Push] and [Pop] are the usual ones on
    slices, as every user here defines them. *)

From S2P Require Import Prelude.

Section heap.
Context {A : Type} (less : A → A → bool).

(** [h.Less(i, j)] and [h.Swap(i, j)], at indices of the slice. *)
Definition less_at (h : list A) (i j : nat) : bool :=
  match h !! i, h !! j with Some x, Some y => less x y | _, _ => false end.
Definition swap (i j : nat) (h : list A) : list A :=
  match h !! i, h !! j with Some x, Some y => <[i := y]> (<[j := x]> h) | _, _ => h end.

Definition parent (j : nat) : nat := (j - 1) `div` 2.

(** The loops have fuel: [up] goes to smaller indices, [down] to larger ones below [n]. *)
Fixpoint up_loop (fuel : nat) (h : list A) (j : nat) : list A :=
  match fuel with
  | O => h
  | S fuel =>
      let i := parent j in
      if (i =? j)%nat || negb (less_at h j i) then h else up_loop fuel (swap i j h) i
  end.
Definition up (h : list A) (j : nat) : list A := up_loop (S j) h j.

Fixpoint down_loop (fuel : nat) (h : list A) (i n : nat) : list A * nat :=
  match fuel with
  | O => (h, i)
  | S fuel =>
      let j1 := (2 * i + 1)%nat in
      if (n <=? j1)%nat then (h, i)
      else
        let j2 := (j1 + 1)%nat in
        let j := if (j2 <? n)%nat && less_at h j2 j1 then j2 else j1 in
        if negb (less_at h j i) then (h, i) else down_loop fuel (swap i j h) j n
  end.
(** Whether anything moved is part of the result. *)
Definition down (h : list A) (i0 n : nat) : list A * bool :=
  let '(h, i) := down_loop n h i0 n in (h, (i0 <? i)%nat).

(** [for i := n/2 - 1; i >= 0; i--] *)
Fixpoint init_loop (i : nat) (h : list A) : list A :=
  match i with
  | O => h
  | S i => init_loop i (fst (down h i (length h)))
  end.
Definition heap_Init (h : list A) : list A := init_loop (length h `div` 2) h.

Definition heap_Push (h : list A) (x : A) : list A := up (h ++ [x]) (length h).

(** The last element and the others: the [Pop] of the slice. *)
Definition slice_Pop (h : list A) : option (A * list A) :=
  x ← last h; Some (x, take (length h - 1) h).

(** [None] is the panic on an empty heap. *)
Definition heap_Pop (h : list A) : option (A * list A) :=
  let n := (length h - 1)%nat in
  slice_Pop (fst (down (swap 0 n h) 0 n)).

Definition heap_Fix (h : list A) (i : nat) : list A :=
  let '(h, moved) := down h i (length h) in
  if moved then h else up h i.

Definition heap_Remove (h : list A) (i : nat) : option (A * list A) :=
  let n := (length h - 1)%nat in
  slice_Pop
    (if (n =? i)%nat then h
     else
       let '(h, moved) := down (swap i n h) i n in
       if moved then h else up h i).
End heap.

(** ** Swapping *)

Section swapping.
Context {A : Type}.
Implicit Types (h : list A).

Lemma swap_length i j h : length (swap i j h) = length h.
Proof. unfold swap. destruct (h !! i), (h !! j); rewrite ?length_insert; done. Qed.

Lemma swap_lookup i j h k : (i < length h)%nat → (j < length h)%nat →
  swap i j h !! k = if decide (k = i) then h !! j else if decide (k = j) then h !! i else h !! k.
Proof.
  intros Hi Hj. unfold swap. destruct (lookup_lt_is_Some_2 _ _ Hi) as [x Ex], (lookup_lt_is_Some_2 _ _ Hj) as [y Ey]. rewrite Ex, Ey.
  destruct (decide (k = i)) as [->|]; [by rewrite list_lookup_insert_eq by (by rewrite length_insert)|].
  rewrite list_lookup_insert_ne by done. destruct (decide (k = j)) as [->|]; [by rewrite list_lookup_insert_eq|].
  by rewrite list_lookup_insert_ne.
Qed.

Lemma swap_perm i j h : (i < length h)%nat → (j < length h)%nat → swap i j h ≡ₚ h.
Proof.
  intros Hi Hj. apply Permutation_inj. split; [apply swap_length|].
  exists (λ k, if decide (k = i) then j else if decide (k = j) then i else k). split.
  - intros a b. repeat case_decide; intros; subst; congruence.
  - intros k. rewrite swap_lookup by done. by repeat case_decide.
Qed.
End swapping.

Lemma parent_lt j : (0 < j)%nat → (parent j < j)%nat.
Proof. intros H. unfold parent. apply Nat.Div0.div_lt_upper_bound; lia. Qed.

Lemma parent_child j i : (0 < j)%nat → parent j = i ↔ j = (2 * i + 1)%nat ∨ j = (2 * i + 2)%nat.
Proof.
  intros H. unfold parent. split.
  - intros <-. pose proof (Nat.div_mod_eq (j - 1) 2). pose proof (Nat.mod_upper_bound (j - 1) 2). lia.
  - intros [-> | ->].
    + replace (2 * i + 1 - 1)%nat with (i * 2)%nat by lia. by rewrite Nat.div_mul.
    + replace (2 * i + 2 - 1)%nat with (1 + i * 2)%nat by lia. by rewrite Nat.div_add.
Qed.

(** ** What is kept *)

Class HeapOrder {A : Type} (less : A → A → bool) : Prop := {
  less_asym x y : less x y = true → less y x = false;
  less_trans x y z : less y x = false → less z y = false → less z x = false
}.

Section laws.
Context {A : Type} (less : A → A → bool) `{HO : !HeapOrder less}.
Implicit Types (h : list A).

Definition le_at (h : list A) (i j : nat) : Prop := ∀ x y, h !! i = Some x → h !! j = Some y → less y x = false.

Lemma le_at_trans h i j k : (j < length h)%nat → le_at h i j → le_at h j k → le_at h i k.
Proof.
  intros Hj H1 H2 x z Ex Ez. destruct (lookup_lt_is_Some_2 _ _ Hj) as [y Ey]. eapply less_trans; [exact (H1 x y Ex Ey)|exact (H2 y z Ey Ez)].
Qed.

Lemma less_irrefl x : less x x = false.
Proof. destruct (less x x) eqn:E; [|done]. by rewrite (less_asym _ _ E) in E. Qed.

Lemma le_at_refl h i : le_at h i i.
Proof. intros x y ? ?. simplify_eq. apply less_irrefl. Qed.

Lemma less_at_le h i j : less_at less h j i = false → le_at h i j.
Proof. unfold less_at. intros H x y Ex Ey. by rewrite Ex, Ey in H. Qed.

Lemma less_at_true h i j : less_at less h j i = true → le_at h j i ∧ (i < length h)%nat ∧ (j < length h)%nat.
Proof.
  unfold less_at. destruct (h !! j) as [y|] eqn:Ey; [|done]. destruct (h !! i) as [x|] eqn:Ex; [|done]. intros H.
  split; [|split; by eapply lookup_lt_Some]. intros a b Ea Eb. simplify_eq. by apply less_asym.
Qed.

(** The first [n] elements are ordered below the indices from [k] on. *)
Definition heap_from (n k : nat) (h : list A) : Prop := ∀ j, (0 < j < n)%nat → (k ≤ parent j)%nat → le_at h (parent j) j.
Definition is_heap (h : list A) : Prop := heap_from (length h) 0 h.

(** All is in order but what is below [i] and, if [b], what is above it; and the element
    above [i] is not more than those below it. *)
Definition hole (b : bool) (n k i : nat) (h : list A) : Prop :=
  (∀ j, (0 < j < n)%nat → (k ≤ parent j)%nat → parent j ≠ i → (b = true → j ≠ i) → le_at h (parent j) j) ∧
  (∀ j, (0 < i)%nat → (k ≤ parent i)%nat → (0 < j < n)%nat → parent j = i → le_at h (parent i) j).

Lemma swap_le h i j a b a' b' : (i < length h)%nat → (j < length h)%nat →
  (a' = if decide (a = i) then j else if decide (a = j) then i else a) →
  (b' = if decide (b = i) then j else if decide (b = j) then i else b) →
  le_at h a' b' → le_at (swap i j h) a b.
Proof.
  intros Hi Hj -> -> H x y. rewrite !swap_lookup by done. intros Ex Ey. apply (H x y); by repeat case_decide.
Qed.

(** Below the hole all is in order: it is closed. *)
Lemma hole_closed n k i h : hole false n k i h → (∀ j, (0 < j < n)%nat → parent j = i → le_at h i j) → heap_from n k h.
Proof.
  intros [H1 _] H2 j Hj Hk. destruct (decide (parent j = i)) as [E|]; [rewrite E; by apply H2|]. by apply H1.
Qed.

(** The smaller child moves up, and the hole down. *)
Lemma hole_down b n k i j h : (n ≤ length h)%nat → (0 < j < n)%nat → parent j = i → (i < length h)%nat →
  (∀ c, (0 < c < n)%nat → parent c = i → le_at h j c) → le_at h j i →
  hole b n k i h → hole false n k j (swap i j h).
Proof.
  intros Hn Hj Ep Hi Hmin Hji [H1 H2]. pose proof (parent_lt j ltac:(lia)) as Hlt. rewrite Ep in Hlt. split.
  - intros c Hc Hk Hpc _. destruct (decide (parent c = i)) as [Epc|Hpi].
    + rewrite Epc. destruct (decide (c = j)) as [->|Hcj].
      * eapply (swap_le h i j i j j i); [lia|lia|by rewrite decide_True|by rewrite decide_False, decide_True by lia|done].
      * assert (c ≠ i) by (pose proof (parent_lt c ltac:(lia)); lia).
        eapply (swap_le h i j i c j c); [lia|lia|by rewrite decide_True|by rewrite !decide_False by lia|by apply Hmin].
    + destruct (decide (c = i)) as [->|Hci].
      * eapply (swap_le h i j (parent i) i (parent i) j); [lia|lia|by rewrite !decide_False by lia|by rewrite decide_True|].
        apply H2; [lia|done|lia|done].
      * assert (c ≠ j) by congruence.
        eapply (swap_le h i j (parent c) c (parent c) c); [lia|lia|by rewrite !decide_False by lia..|]. by apply H1.
  - intros c _ Hk Hc Epc. rewrite Ep. pose proof (parent_lt c ltac:(lia)).
    eapply (swap_le h i j i c j c); [lia|lia|by rewrite decide_True|by rewrite !decide_False by lia|].
    rewrite <- Epc. apply H1; [done|rewrite Epc, Ep in *; lia|lia|lia].
Qed.

Lemma down_loop_spec fuel : ∀ b n k i h, (n ≤ length h)%nat → (n ≤ fuel + i)%nat → hole b n k i h →
  let r := down_loop less fuel h i n in
  r.1 ≡ₚ h ∧ (∀ m, (n ≤ m)%nat → r.1 !! m = h !! m) ∧ (i ≤ r.2)%nat ∧
  (r.2 = i → r.1 = h ∧ ∀ j, (0 < j < n)%nat → parent j = i → le_at h i j) ∧
  (b = false ∨ (i < r.2)%nat → heap_from n k r.1).
Proof.
  induction fuel as [|fuel IH]; intros b n k i h Hn Hf Hh; cbn zeta.
  { assert (∀ j, (0 < j < n)%nat → parent j = i → le_at h i j) as Hc by (intros j Hj Ej; pose proof (parent_lt j ltac:(lia)); lia).
    cbn. split_and!; [done..|]. intros [->|]; [by eapply hole_closed|lia]. }
  cbn [down_loop]. destruct (Nat.leb_spec n (2 * i + 1)) as [Hle|Hlt].
  { assert (∀ j, (0 < j < n)%nat → parent j = i → le_at h i j) as Hc by (intros j Hj [->| ->]%parent_child; lia).
    cbn [fst snd]. split_and!; [done..|]. intros [->|]; [by eapply hole_closed|lia]. }
  set (j := if _ && _ then _ else _).
  assert ((0 < j < n)%nat ∧ parent j = i ∧ ∀ c, (0 < c < n)%nat → parent c = i → le_at h j c) as (Hj & Ej & Hmin).
  { unfold j. destruct (Nat.ltb_spec (2 * i + 1 + 1) n) as [H2|H2]; cbn [andb].
    - destruct (less_at less h (2 * i + 1 + 1) (2 * i + 1)) eqn:E; (split; [lia|]); (split; [apply parent_child; lia|]);
        intros c Hc [-> | ->]%parent_child; try lia.
      + apply less_at_true in E as [E _]. exact E.
      + replace (2 * i + 2)%nat with (2 * i + 1 + 1)%nat by lia. apply le_at_refl.
      + apply le_at_refl.
      + replace (2 * i + 2)%nat with (2 * i + 1 + 1)%nat by lia. by apply less_at_le.
    - split; [lia|]. split; [apply parent_child; lia|]. intros c Hc [-> | ->]%parent_child; [apply le_at_refl|lia..]. }
  clearbody j. destruct (less_at less h j i) eqn:E; cbn [negb].
  - apply less_at_true in E as (Hji & Hi & Hjl). pose proof (hole_down b n k i j h Hn Hj Ej Hi Hmin Hji Hh) as Hh'.
    pose proof (parent_lt j ltac:(lia)).
    destruct (IH false n k j (swap i j h) ltac:(by rewrite swap_length) ltac:(lia) Hh') as (P1 & P2 & P3 & _ & P5).
    split_and!; [etrans; [exact P1|by apply swap_perm]| |lia|lia|intros _; apply P5; by left].
    intros m Hm. rewrite P2 by done. rewrite swap_lookup by done. by rewrite !decide_False by lia.
  - assert (∀ c, (0 < c < n)%nat → parent c = i → le_at h i c) as Hc.
    { intros c Hc Ec. eapply le_at_trans; [|by apply less_at_le|by apply Hmin]. lia. }
    cbn [fst snd]. split_and!; [done..|]. intros [->|]; [by eapply hole_closed|lia].
Qed.

(** The element at [j] may be less than its parent. *)
Definition above (n j : nat) (h : list A) : Prop :=
  (∀ c, (0 < c < n)%nat → c ≠ j → le_at h (parent c) c) ∧
  (∀ c, (0 < j)%nat → (0 < c < n)%nat → parent c = j → le_at h (parent j) c).

Lemma above_up n j h : (n ≤ length h)%nat → (0 < j < n)%nat → le_at h j (parent j) → above n j h →
  above n (parent j) (swap (parent j) j h).
Proof.
  intros Hn Hj Hle [H1 H2]. pose proof (parent_lt j ltac:(lia)) as Hlt. set (i := parent j) in *. split.
  - intros c Hc Hci. pose proof (parent_lt c ltac:(lia)). destruct (decide (c = j)) as [->|Hcj].
    { fold i. eapply (swap_le h i j i j j i); [lia|lia|by rewrite decide_True|by rewrite decide_False, decide_True by lia|done]. }
    destruct (decide (parent c = i)) as [E|Hpi]; [|destruct (decide (parent c = j)) as [E|Hpj]].
    + rewrite E. eapply (swap_le h i j i c j c); [lia|lia|by rewrite decide_True|by rewrite !decide_False by lia|].
      eapply le_at_trans; [|exact Hle|]; [lia|]. rewrite <- E. by apply H1.
    + rewrite E. eapply (swap_le h i j j c i c); [lia|lia|by rewrite decide_False, decide_True by lia|by rewrite !decide_False by lia|].
      apply H2; [lia|done|done].
    + eapply (swap_le h i j (parent c) c (parent c) c); [lia|lia|by rewrite !decide_False by lia..|]. by apply H1.
  - intros c Hi Hc Ec. pose proof (parent_lt c ltac:(lia)). pose proof (parent_lt i Hi). destruct (decide (c = j)) as [->|Hcj].
    + eapply (swap_le h i j (parent i) j (parent i) i); [lia|lia|by rewrite !decide_False by lia|by rewrite decide_False, decide_True by lia|].
      apply H1; lia.
    + eapply (swap_le h i j (parent i) c (parent i) c); [lia|lia|by rewrite !decide_False by lia..|].
      eapply (le_at_trans _ _ i); [lia|apply H1; lia|]. rewrite <- Ec. by apply H1.
Qed.

Lemma up_loop_spec fuel : ∀ n j h, (n ≤ length h)%nat → (j < n)%nat → (j < fuel)%nat → above n j h →
  let r := up_loop less fuel h j in r ≡ₚ h ∧ (∀ m, (n ≤ m)%nat → r !! m = h !! m) ∧ heap_from n 0 r.
Proof.
  induction fuel as [|fuel IH]; intros n j h Hn Hj Hf Hh; [lia|]. cbn zeta. cbn [up_loop]. destruct (Nat.eqb_spec (parent j) j) as [E|Hne].
  { cbn [orb]. split_and!; [done..|]. intros c Hc _. apply Hh; [done|]. intros ->. pose proof (parent_lt j). lia. }
  assert (0 < j)%nat as H0 by (destruct j; [done|lia]). pose proof (parent_lt j H0) as Hlt. cbn [orb].
  destruct (less_at less h j (parent j)) eqn:E; cbn [negb].
  - apply less_at_true in E as (Hle & _ & _). pose proof (above_up n j h Hn ltac:(lia) Hle Hh) as Hh'.
    destruct (IH n (parent j) (swap (parent j) j h) ltac:(by rewrite swap_length) ltac:(lia) ltac:(lia) Hh') as (P1 & P2 & P3).
    split_and!; [etrans; [exact P1|apply swap_perm; lia]| |done].
    intros m Hm. rewrite P2 by done. rewrite swap_lookup by lia. by rewrite !decide_False by lia.
  - split_and!; [done..|]. intros c Hc _. destruct (decide (c = j)) as [->|]; [by apply less_at_le|]. by apply Hh.
Qed.

(** ** The operations *)

Lemma heap_min h x : is_heap h → h !! 0%nat = Some x → ∀ y, y ∈ h → less y x = false.
Proof.
  intros Hh Ex y [i Ey]%list_elem_of_lookup_1. revert y Ey. induction i as [i IH] using lt_wf_ind. intros y Ey.
  destruct (decide (i = 0%nat)) as [->|Hi]; [simplify_eq; apply less_irrefl|].
  pose proof (parent_lt i ltac:(lia)) as Hlt. pose proof (lookup_lt_Some _ _ _ Ey).
  destruct (lookup_lt_is_Some_2 h (parent i) ltac:(lia)) as [z Ez].
  eapply less_trans; [exact (IH _ Hlt z Ez)|]. exact (Hh i ltac:(lia) ltac:(lia) z y Ez Ey).
Qed.

Lemma heap_Init_spec h : heap_Init less h ≡ₚ h ∧ is_heap (heap_Init less h).
Proof.
  unfold heap_Init, is_heap. set (n := length h).
  assert (heap_from n (n `div` 2) h) as H.
  { intros j Hj Hk. pose proof (parent_lt j ltac:(lia)). pose proof (proj1 (parent_child j (parent j) ltac:(lia)) eq_refl).
    pose proof (Nat.div_mod_eq n 2). pose proof (Nat.mod_upper_bound n 2). lia. }
  assert (∀ k h, length h = n → heap_from n k h → init_loop less k h ≡ₚ h ∧ heap_from n 0 (init_loop less k h)) as HI.
  { clear H. clearbody n. clear h. induction k as [|k IH]; intros h En Hh; [done|]. cbn [init_loop]. unfold down. rewrite En.
    destruct (down_loop_spec n false n k k h) as (P1 & _ & _ & _ & P5); [lia|lia| |].
    { split; [|intros j H0 Hk; pose proof (parent_lt k); lia]. intros j Hj Hk Hp _. apply Hh; [done|lia]. }
    destruct (down_loop less n h k n) as [h' i]. cbn [fst] in *. specialize (P5 (or_introl eq_refl)).
    destruct (IH h') as [Q1 Q2]; [by rewrite (Permutation_length P1)|done|]. split; [by etrans|done]. }
  destruct (HI (n `div` 2)%nat h eq_refl H) as [P Q]. split; [done|]. by rewrite (Permutation_length P).
Qed.

Lemma heap_Push_spec h x : is_heap h → heap_Push less h x ≡ₚ x :: h ∧ is_heap (heap_Push less h x).
Proof.
  intros Hh. unfold heap_Push, up.
  destruct (up_loop_spec (S (length h)) (S (length h)) (length h) (h ++ [x])) as (P1 & _ & P3); [rewrite length_app; cbn; lia|lia|lia| |].
  { split; [|intros c H0 Hc Ec; pose proof (parent_lt c); lia]. intros c Hc Hcn a b. pose proof (parent_lt c ltac:(lia)).
    rewrite !lookup_app_l by lia. apply Hh; lia. }
  split; [rewrite P1; symmetry; apply Permutation_cons_append|]. unfold is_heap. rewrite (Permutation_length P1), length_app, Nat.add_comm. exact P3.
Qed.

(** The last element is taken off a slice whose others are a heap. *)
Lemma slice_Pop_heap n h x : length h = S n → heap_from n 0 h → h !! n = Some x →
  ∃ h', slice_Pop h = Some (x, h') ∧ is_heap h' ∧ h ≡ₚ x :: h'.
Proof.
  intros En Hh Ex. exists (take n h). unfold slice_Pop. rewrite last_lookup, En. cbn [Nat.pred]. rewrite Ex. cbn [mbind option_bind].
  replace (S n - 1)%nat with n by lia. split_and!; [done| |].
  - unfold is_heap. rewrite length_take_le by lia. intros j Hj Hk a b. pose proof (parent_lt j ltac:(lia)).
    rewrite !lookup_take_lt by lia. by apply Hh.
  - rewrite <- (take_drop n h) at 1. rewrite (drop_S h x n Ex), drop_ge by lia. symmetry. apply Permutation_cons_append.
Qed.

(** Closing a hole with an element of any order. *)
Lemma sift_spec n i h : (n ≤ length h)%nat → (i < n)%nat → hole true n 0 i h →
  let r := let '(h, moved) := down less h i n in if moved then h else up less h i in
  r ≡ₚ h ∧ (∀ m, (n ≤ m)%nat → r !! m = h !! m) ∧ heap_from n 0 r.
Proof.
  intros Hn Hi Hh. unfold down. destruct (down_loop_spec n true n 0 i h Hn ltac:(lia) Hh) as (P1 & P2 & P3 & P4 & P5).
  destruct (down_loop less n h i n) as [h' i']. cbn [fst snd] in *. destruct (Nat.ltb_spec i i') as [Hlt|Hge].
  - split_and!; [done..|]. apply P5. by right.
  - destruct (P4 ltac:(lia)) as [-> Hc]. apply up_loop_spec; [lia..|]. destruct Hh as [H1 H2]. split.
    + intros c Hcn Hci. destruct (decide (parent c = i)) as [E|]; [rewrite E; by apply Hc|]. apply H1; [done|lia|done|done].
    + intros c H0 Hcn Ec. apply H2; [done|lia|done|done].
Qed.

Lemma heap_Pop_spec h x : is_heap h → h !! 0%nat = Some x →
  ∃ h', heap_Pop less h = Some (x, h') ∧ is_heap h' ∧ h ≡ₚ x :: h'.
Proof.
  intros Hh Ex. unfold heap_Pop, down. destruct (length h) as [|n] eqn:En; [apply lookup_lt_Some in Ex; lia|].
  replace (S n - 1)%nat with n by lia. pose proof (swap_length 0 n h) as El. pose proof (swap_perm 0 n h ltac:(lia) ltac:(lia)) as Ps.
  destruct (down_loop_spec n false n 0 0 (swap 0 n h)) as (P1 & P2 & _ & _ & P5); [lia|lia| |].
  { split; [|lia]. intros j Hj Hk Hp _. pose proof (parent_lt j ltac:(lia)). pose proof (Hh j ltac:(lia) ltac:(lia)) as Hle.
    eapply (swap_le h 0 n (parent j) j (parent j) j); [lia|lia|by rewrite !decide_False by lia..|done]. }
  destruct (down_loop less n (swap 0 n h) 0 n) as [h' i]. cbn [fst snd] in *.
  destruct (slice_Pop_heap n h' x) as (r & E & Hr & Pr).
  - by rewrite (Permutation_length P1), El.
  - apply P5. by left.
  - rewrite P2, swap_lookup by lia. destruct (decide (n = 0%nat)) as [->|]; [done|]. by rewrite decide_True.
  - exists r. split_and!; [done..|]. by rewrite <- Pr, P1, Ps.
Qed.

Lemma heap_Remove_spec h i x : is_heap h → h !! i = Some x →
  ∃ h', heap_Remove less h i = Some (x, h') ∧ is_heap h' ∧ h ≡ₚ x :: h'.
Proof.
  intros Hh Ex. pose proof (lookup_lt_Some _ _ _ Ex) as Hi. unfold heap_Remove. destruct (length h) as [|n] eqn:En; [lia|].
  replace (S n - 1)%nat with n by lia. destruct (Nat.eqb_spec n i) as [->|Hne].
  { apply slice_Pop_heap with (n := i); [done| |done]. intros j Hj Hk. apply Hh; lia. }
  pose proof (swap_length i n h) as El. pose proof (swap_perm i n h ltac:(lia) ltac:(lia)) as Ps.
  destruct (sift_spec n i (swap i n h)) as (P1 & P2 & P3); [lia|lia| |].
  { split.
    - intros j Hj Hk Hp Hji. specialize (Hji eq_refl). pose proof (parent_lt j ltac:(lia)). pose proof (Hh j ltac:(lia) ltac:(lia)) as Hle.
      eapply (swap_le h i n (parent j) j (parent j) j); [lia|lia|by rewrite !decide_False by lia..|done].
    - intros j H0 Hk Hj Ej. pose proof (parent_lt i H0). pose proof (parent_lt j ltac:(lia)).
      eapply (swap_le h i n (parent i) j (parent i) j); [lia|lia|by rewrite !decide_False by lia..|].
      eapply (le_at_trans _ _ i); [lia|apply Hh; lia|]. pose proof (Hh j ltac:(lia) ltac:(lia)) as Hle. by rewrite Ej in Hle. }
  set (r := let '(h, moved) := _ in _) in *. destruct (slice_Pop_heap n r x) as (h' & E & Hr & Pr).
  - by rewrite (Permutation_length P1), El.
  - exact P3.
  - rewrite P2, swap_lookup by lia. rewrite decide_False by done. by rewrite decide_True.
  - exists h'. split_and!; [done..|]. by rewrite <- Pr, P1, Ps.
Qed.

Lemma heap_Fix_spec h i x : is_heap h → (i < length h)%nat →
  heap_Fix less (<[i := x]> h) i ≡ₚ <[i := x]> h ∧ is_heap (heap_Fix less (<[i := x]> h) i).
Proof.
  intros Hh Hi. unfold heap_Fix, is_heap. rewrite length_insert.
  destruct (sift_spec (length h) i (<[i := x]> h)) as (P1 & _ & P3); [by rewrite length_insert|done| |].
  { split.
    - intros j Hj Hk Hp Hji a b. rewrite !list_lookup_insert_ne by (intros ->; by apply Hji || done). by apply Hh.
    - intros j H0 Hk Hj Ej a b. pose proof (parent_lt i H0). pose proof (parent_lt j ltac:(lia)).
      rewrite !list_lookup_insert_ne by lia. apply (le_at_trans _ _ i); [done|apply Hh; lia|].
      pose proof (Hh j ltac:(lia) ltac:(lia)) as Hle. by rewrite Ej in Hle. }
  set (r := let '(h, moved) := _ in _) in *. split; [done|]. rewrite (Permutation_length P1), length_insert. exact P3.
Qed.
End laws.
