(* ===== verification/ProcessorFacts.v ===== *)
(** * ProcessorFacts: how the processing of a block ends

    A block that is processed leaves the state settled, its receipts account for the gas, which never exceeds
    the limit of the block, and no money appears but the reward; and the DAO fork moves the
    money of the drained accounts and nothing else. *)

From S2P Require Import Prelude Bytes Crypto Types MinerContract Engine StateDB SecureTrie StateDBFacts StateDBRevert StateDBCommit StateDBView EvmMemory EvmState EvmEffect StateTyped EvmCall Evm EvmLogic EvmCallFacts EvmRun EvmPrecompiled EvmSafety StateTransition TransitionFacts TransitionSafety ChainContext ChainConfig Transaction Receipt Processor.

Local Open Scope Z_scope.

Section settled.
Context `{CR : Crypto} `{DS : !DigestSize} `{SD : StateDatabase} `{TL : !TrieLaws} (db : Database).
Abbreviation settled := (settled db).

Lemma prepare_settled thash bhash i s : settled s → settled (StateDB.Prepare thash bhash i s).
Proof.
  intros [[[[W1 W2 W3 W4] E D R] H A] K S F]. split; [|by eapply kept_ext; [..|exact K]|exact S|exact F].
  split; [|exact H|exact A]. split; [by split|done..].
Qed.

Lemma loads_settled s s' : loads db s s' → kept s' → settled s → settled s'.
Proof.
  intros [E S _ W] K [[[_ F1 F2 F3] H A] _ Hs Hr]. unfold rest in E. injection E as E1 E2 E3 E4 E5 E6 E7 E8 E9 E10 E11.
  split; [|done| |congruence].
  - split; [split; [done|congruence..]|by rewrite E1|]. intros a Ha. rewrite <- (A a Ha). symmetry. by apply (sim_dying db).
  - intros a Ha. destruct (Hs a Ha) as [Hb Hc]. rewrite <- (sim_bal db s s' a S). split; [done|].
    unfold code_at in *. rewrite <- (oe_code _ _ _ (sim_account db s s' a S)). exact Hc.
Qed.

(** What a transaction leaves is no more than what it had. *)
Lemma finalise_bal s s' a : sane db s → address_ok a → live s' a = finalise_view db s a → bal s' a ≤ bal s a.
Proof.
  intros Hs Ha E. destruct (Hs a Ha) as [Hb _]. unfold bal in *. rewrite E. unfold finalise_view.
  destruct (sd_stateObjects s !! a) as [o|] eqn:Eo; [|done]. destruct (decide _); [|done].
  unfold live in *. rewrite Eo in *. destruct (so_deleted o); cbn [orb]; [done|]. destruct (doomed true o); [done|].
  destruct (updateRoot_fixed db o) as (_ & _ & _ & _ & t & ->). done.
Qed.

Lemma weight_of_le (f g : Address → Z) (L : gset Address) : (∀ a, a ∈ L → f a ≤ g a) → weight_of f L ≤ weight_of g L.
Proof.
  intros H. unfold weight_of. assert (∀ a, a ∈ elements L → f a ≤ g a) as H' by (intros a Ha%elem_of_elements; by apply H).
  clear H. induction (elements L) as [|a l IH]; [done|]. rewrite !sumZ_cons.
  pose proof (H' a (list_elem_of_here _ _)). specialize (IH (λ b Hb, H' b (list_elem_of_further _ _ _ Hb))). lia.
Qed.

Lemma finalise_richer s s' : sane db s → (∀ a, address_ok a → live s' a = finalise_view db s a) → richer 0 s s'.
Proof.
  intros Hs H. exists ∅. split; [by intros a ?%elem_of_empty|]. intros L _ OL. rewrite Z.add_0_r. apply weight_of_le.
  intros a Ha. apply finalise_bal; [done|by apply OL|by apply H, OL].
Qed.

Lemma richer_le d d' s s' : d ≤ d' → richer d s s' → richer d' s s'.
Proof. intros Hd (T & OT & H). exists T. split; [done|]. intros L HL OL. specialize (H L HL OL). lia. Qed.
End settled.

(** ** One transaction *)

Section transactions.
Context `{CR : Crypto} `{DS : !DigestSize} `{PR : Primitives} `{SG : Secp256k1} `{SD : StateDatabase} `{TL : !TrieLaws} `{PC : Precompiles}.
Context (db : Database) (config : ChainConfig) (GetHeader : Hash → Z → option Header) (cfg : VmConfig) (fuel : nat).
Abbreviation settled := (settled db).

(** The values of a decoded transaction. *)
Record transaction_ok (tx : Transaction) : Prop := {
  to_gas : is_u64 (tx_GasLimit tx);
  to_price : 0 ≤ tx_Price tx;
  to_amount : 0 ≤ tx_Amount tx;
  to_payload : code_ok (tx_Payload tx);
  to_recipient : from_option address_ok True (tx_Recipient tx)
}.

(** The fuel for every instruction the gas of the transaction pays for. *)
Definition fuelled (tx : Transaction) : Prop :=
  if tx_GasLimit tx =? 0 then 2 ^ 64 ≤ Z.of_nat fuel else tx_GasLimit tx < Z.of_nat fuel.

Lemma recovered_ok h R S V b a : recoverPlain h R S V b = inr a → address_ok a.
Proof.
  unfold recoverPlain. destruct (_ <? _); [done|]. destruct (negb _); [done|]. destruct (Ecrecover _ _) as [[|p0 pub]|]; [done| |done].
  destruct (negb _); [done|]. intros [= <-].
  assert (length (drop 12 (Hash_Bytes (keccak256 pub))) = 20%nat) as E by (by rewrite length_drop; unfold Hash_Bytes; rewrite length_be_bytes).
  pose proof (be_int_bound (drop 12 (Hash_Bytes (keccak256 pub))) (Forall_drop _ _ _ (be_bytes_ok _ _))) as H. rewrite E in H. exact H.
Qed.

Lemma sender_ok s tx a : Signer_Sender s tx = inr a → address_ok a.
Proof. destruct s; cbn [Signer_Sender]; repeat case_match; try done; apply recovered_ok. Qed.

Lemma AsMessage_ok s tx cache msg :
  transaction_ok tx → cache_right tx cache → fst (AsMessage tx s cache) = inr msg →
  message_ok msg ∧ ms_gasLimit msg = tx_GasLimit tx ∧ ms_to msg = tx_Recipient tx ∧ ms_gasPrice msg = tx_Price tx.
Proof.
  intros [H1 H2 H3 H4 H5] Hc. unfold AsMessage. assert (∀ a, fst (Sender s tx cache) = inr a → address_ok a) as Ha.
  { intros a. unfold Sender. destruct cache as [[s' from]|].
    - destruct (Signer_Equal s' s); [intros [= <-]; by eapply sender_ok, Hc|]. destruct (Signer_Sender s tx) eqn:E; [done|].
      intros [= <-]. by eapply sender_ok.
    - destruct (Signer_Sender s tx) eqn:E; [done|]. intros [= <-]. by eapply sender_ok. }
  destruct (Sender s tx cache) as [[err|from] cache']; [done|]. cbn [fst] in *. intros [= <-]. split; [|done]. split; try done. by apply Ha.
Qed.

(** The rules under which blocks are processed: empty accounts are deleted. *)
Definition rules_ok (number : Z) : Prop := config_IsEIP158 config number = true.

(** A transaction is finished, before and since Byzantium. *)
Lemma pending_root_finalises number s s' : rules_ok number → Finalise db true s = Some s' → ∃ root, pending_root db config number s = Some (root, s').
Proof.
  intros He E. unfold pending_root. rewrite He. destruct (config_IsByzantium config number); [by rewrite E; exists []|].
  unfold StateDB.IntermediateRoot. rewrite E. by eexists.
Qed.

Lemma NewEVM_ready s : settled s → ready db s (NewEVM s) ∧ refund_ok (ev_StateDB (NewEVM s)).
Proof.
  intros [Q K S R]. split; [|unfold refund_ok; cbn; rewrite R; by split]. split; [|done].
  split; [apply fresh_tracked, Q|done|constructor].
Qed.

(** What the receipt of a transaction says, when [used] gas was used before it. *)
Record receipt_for (used : Z) (tx : Transaction) (r : Receipt) : Prop := {
  rf_hash : rc_TxHash r = Transaction_Hash tx;
  rf_cumulative : rc_CumulativeGasUsed r = used + rc_GasUsed r;
  rf_least : TxGas `div` 2 ≤ rc_GasUsed r;
  rf_most : tx_GasLimit tx ≠ 0 → rc_GasUsed r ≤ tx_GasLimit tx;
  rf_bloom : Receipt.CreateBloom [r] = Some (rc_Bloom r);
  rf_contract : is_Some (tx_Recipient tx) → rc_ContractAddress r = 0
}.

Lemma CreateBloom_one r : Receipt.CreateBloom [r] = Some (LogsBloom (rc_Logs r)).
Proof. unfold Receipt.CreateBloom. cbn [foldl]. rewrite Z.lor_0_l. apply BytesToBloom_fits, LogsBloom_spec. Qed.

Lemma receipt_built used tx root failed gas contract logs :
  TxGas `div` 2 ≤ gas → (tx_GasLimit tx ≠ 0 → gas ≤ tx_GasLimit tx) →
  let receipt := (NewReceipt root failed (used + gas)) <| rc_TxHash := Transaction_Hash tx |> <| rc_GasUsed := gas |> in
  let receipt := match tx_Recipient tx with None => receipt <| rc_ContractAddress := contract |> | Some _ => receipt end in
  let receipt := receipt <| rc_Logs := logs |> in
  receipt_for used tx (receipt <| rc_Bloom := LogsBloom (rc_Logs receipt) |>).
Proof.
  intros H1 H2 r1 r2 r3. set (status := if failed then ReceiptStatusFailed else ReceiptStatusSuccessful).
  assert (∀ b h a, r2 = mkReceipt root status (used + gas) 0 [] h a gas →
    r3 <| rc_Bloom := b |> = mkReceipt root status (used + gas) b logs h a gas ∧ rc_Logs r3 = logs) as Hr.
  { intros b h a E. unfold r3. rewrite E. by split. }
  assert (r2 = mkReceipt root status (used + gas) 0 [] (Transaction_Hash tx) (match tx_Recipient tx with None => contract | Some _ => 0 end) gas) as E2.
  { unfold r2, r1. generalize (Transaction_Hash tx). intros h. by destruct (tx_Recipient tx). }
  clearbody r2 status. pose proof (proj2 (Hr 0 _ _ E2)) as ->. destruct (Hr (LogsBloom logs) _ _ E2) as [-> _].
  split; cbn [rc_TxHash rc_CumulativeGasUsed rc_GasUsed rc_Bloom rc_ContractAddress]; try done.
  - apply CreateBloom_one.
  - by intros [to ->].
Qed.

(** Where the gas of a block is. *)
Record gas_of (limit : Z) (p : Progress) : Prop := {
  gs_limit : is_u64 limit;
  gs_sum : pg_usedGas p + pg_gp p = limit;
  gs_used : 0 ≤ pg_usedGas p;
  gs_pool : 0 ≤ pg_gp p
}.

Lemma ApplyTransaction_ends limit header tx cache p :
  rules_ok (hd_Number header) → address_ok (hd_Coinbase header) → transaction_ok tx → cache_right tx cache → fuelled tx →
  settled (pg_state p) → gas_of limit p →
  match ApplyTransaction db config GetHeader cfg fuel None header tx cache p with
  | Processed (r, gas, p') =>
      receipt_for (pg_usedGas p) tx r ∧ rc_GasUsed r = gas ∧ pg_usedGas p' = pg_usedGas p + gas ∧
      gas_of limit p' ∧ settled (pg_state p') ∧ richer 0 (pg_state p) (pg_state p')
  | Invalid _ => True
  | ProcessCrashes w => fault_ok (config_Rules config (hd_Number header)) w
  | ProcessPanics | ProcessNoFuel => False
  end.
Proof.
  intros Hr Hcb Htx Hc Hf Hs [G1 G2 G3 G4]. unfold ApplyTransaction.
  destruct (fst (AsMessage _ _ _)) as [err|msg] eqn:Em; [done|]. cbn [orInvalid mbind processed_bind].
  destruct (AsMessage_ok _ _ _ _ Htx Hc Em) as (Hm & Eg & Eto & Ep).
  set (cx := NewEVMContext GetHeader msg header None). set (rules := config_Rules config _).
  destruct (NewEVM_ready _ Hs) as [Hrd Hrf].
  assert (is_u64 (pg_gp p)) as Hgp by (unfold is_u64 in *; lia).
  assert (enough fuel msg) as Hen by (unfold enough; rewrite Eg; exact Hf).
  pose proof (TransitionDb_ends db (pg_state p) cx rules cfg (mo_price _ Hm) Hcb fuel (pg_gp p) msg (NewEVM (pg_state p)) Hrd Hrf Hgp Hm Hen) as H.
  unfold on_machine. destruct H as [(w & -> & Hp)|([gp r] & e & -> & [A HP])]; [done|]. cbn [mbind processed_bind].
  destruct r as [err|[[ret gas] failed]]; [done|]. cbn [orInvalid mbind processed_bind fst snd] in *. destruct HP as (-> & Hpos & Hleast & Hmost).
  destruct (transaction_finished db (pg_state p) (ev_StateDB e) Hs (gd_tracked _ _ _ (af_good _ _ _ _ _ A)) (af_reaches _ _ _ _ _ A)
    (gd_sane _ _ _ (af_good _ _ _ _ _ A))) as (s' & Ef & Hs' & HL).
  destruct (pending_root_finalises _ _ _ Hr Ef) as [root ->]. cbn [mbind option_bind orDie processed_bind]. rewrite CreateBloom_one. cbn [mbind orDie processed_bind].
  assert (0 ≤ gas) as Hg0 by (change (TxGas `div` 2) with 10500 in Hleast; lia).
  assert (add64 (pg_usedGas p) gas = pg_usedGas p + gas) as -> by (apply add64_id; unfold is_u64 in *; lia).
  split_and!; [| |done| |done|].
  - rewrite Eto. apply receipt_built; [done|by rewrite <- Eg].
  - rewrite Eto. by destruct (tx_Recipient tx).
  - split; cbn; [done|lia..].
  - cbn. replace 0 with (0 + 0) by done. eapply richer_trans; [apply A|]. apply (finalise_richer db); [apply A|exact HL].
Qed.

(** ** Counting *)

Definition counts_to (k : Z) (counter : MortgageContractCounter) : Prop := ∀ a n, counter !! a = Some n → 1 ≤ n ≤ k.

Lemma read_settled {A : Type} (none : A) f (v : stateObject → A) addr s :
  address_ok addr → (∀ o, (f o).1 = v o ∧ oeq db o (f o).2) → settled s →
  settled (with_object none f addr s).2 ∧ richer 0 s (with_object none f addr s).2.
Proof.
  intros Oa Hf Hs. destruct (with_object_loads db none f v addr s) as [L _]; [apply Hs|done|].
  split; [eapply loads_settled; [exact L| |done]; apply (kept_with db); [done|apply Hs|apply Hf]|].
  apply richer_same. intros a. symmetry. by apply (sim_bal db), L.
Qed.

Lemma ProcessTx_ends k counter tx s :
  transaction_ok tx → settled s → counts_to k counter → 0 ≤ k < 2 ^ 64 - 1 →
  ∃ counter' s', on_machine (ProcessTx db counter tx) s = Processed (counter', s') ∧
    settled s' ∧ richer 0 s s' ∧ counts_to (k + 1) counter'.
Proof.
  intros Htx Hs Hc Hk. pose proof (to_recipient _ Htx) as Oto.
  assert (∃ b s1, isCallOrdinaryContract tx (NewEVM s) = Done b (NewEVM s1) ∧ settled s1 ∧ richer 0 s s1) as (b & s1 & E1 & Hs1 & R1).
  { unfold isCallOrdinaryContract, IsCallContract. destruct (0 <? _)%nat; [|by eexists _, s; split_and!; [done..|apply richer_same]].
    destruct (tx_Recipient tx) as [to|]; [|by eexists _, s; split_and!; [done..|apply richer_same]].
    destruct (read_settled false (λ o, (negb (ac_CodeHash (so_data o) =? emptyCodeHash), o)) (λ o, negb (ac_CodeHash (so_data o) =? emptyCodeHash)) to s)
      as [H1 H2]; [done..|]. fold (HasCode to s) in H1, H2. unfold mbind, X_bind, reading. cbn [NewEVM ev_StateDB].
    destruct (HasCode to s) as [c s1]. by eexists _, s1. }
  unfold on_machine, ProcessTx. unfold mbind at 1, X_bind at 1. rewrite E1. destruct (tx_Recipient tx) as [to|]; cycle 1.
  { eexists _, _. split_and!; [done..|]. intros a n E. specialize (Hc a n E). lia. }
  destruct b; cycle 1.
  { eexists _, _. split_and!; [done..|]. intros a n E. specialize (Hc a n E). lia. }
  destruct (read_settled 0 (λ o, stateObject_GetState db o (CreatorSlotKey to)) (λ o, slot db o (CreatorSlotKey to)) CreatorAddress s1)
    as [H1 H2]; [apply CreatorAddress_ok|intros o; apply GetState_oeq|done|].
  fold (StateDB.GetState db CreatorAddress (CreatorSlotKey to) s1) in H1, H2.
  unfold GetContractCreator, mbind, X_bind, reading. cbn [NewEVM ev_StateDB].
  destruct (StateDB.GetState _ _ _ _) as [h s2]. eexists _, _. split_and!; [done..| |].
  - replace 0 with (0 + 0) by done. by eapply richer_trans.
  - intros a n.
    unfold MortgageContractCounter in *. rewrite lookup_insert_Some. intros [[_ <-]|[_ E]]; [|specialize (Hc a n E); lia].
    destruct (counter !! _) as [m|] eqn:E; cbn [from_option]; [apply Hc in E|]; unfold id; rewrite add64_id by (unfold is_u64; lia); lia.
Qed.

(** ** The loop *)

(** A receipt for every transaction, in the order of the block. *)
Fixpoint receipts_for (used : Z) (txs : list (Transaction * sigCache)) (rs : list Receipt) : Prop :=
  match txs, rs with
  | [], [] => True
  | (tx, _) :: txs, r :: rs => receipt_for used tx r ∧ receipts_for (used + rc_GasUsed r) txs rs
  | _, _ => False
  end.

Definition submitted (t : Transaction * sigCache) : Prop := transaction_ok t.1 ∧ cache_right t.1 t.2 ∧ fuelled t.1.

(** What the loop leaves, from the progress [p] with [k] transactions before. *)
Definition loop_post (limit k : Z) (txs : list (Transaction * sigCache)) (p : Progress)
    (out : list Receipt * list Log * MortgageContractCounter * Progress) : Prop :=
  let '(rs, logs, counter, p') := out in
  receipts_for (pg_usedGas p) txs rs ∧ logs = mjoin (rc_Logs <$> rs) ∧ pg_usedGas p' = pg_usedGas p + sumZ rc_GasUsed rs ∧
  gas_of limit p' ∧ settled (pg_state p') ∧ richer 0 (pg_state p) (pg_state p') ∧ counts_to (k + Z.of_nat (length txs)) counter.

Lemma processTransactions_ends limit block txs :
  rules_ok (Block_Number block) → address_ok (Block_Coinbase block) → Forall submitted txs →
  ∀ i p counter k, settled (pg_state p) → gas_of limit p → counts_to k counter → 0 ≤ k → k * 10500 ≤ pg_usedGas p →
  match processTransactions db config GetHeader cfg fuel block i txs p counter with
  | Processed out => loop_post limit k txs p out
  | Invalid _ => True
  | ProcessCrashes w => fault_ok (config_Rules config (Block_Number block)) w
  | ProcessPanics | ProcessNoFuel => False
  end.
Proof.
  intros Hr Hcb Hall. induction Hall as [|[tx cache] txs (Htx & Hc & Hf) _ IH]; intros i p counter k Hs Hg Hn Hk Hu.
  { cbn. rewrite !Z.add_0_r. split_and!; [done..|by apply richer_same|done]. }
  cbn [processTransactions]. set (p0 := mkProgress (StateDB.Prepare _ _ _ _) _ _).
  assert (settled (pg_state p0)) as Hs0 by (by apply prepare_settled).
  assert (gas_of limit p0) as Hg0 by (destruct Hg; by split).
  pose proof (ApplyTransaction_ends limit (bl_header block) tx cache p0 Hr Hcb Htx Hc Hf Hs0 Hg0) as H.
  destruct (ApplyTransaction _ _ _ _ _ _ _ _ _ _) as [[[r gas] p1]|err| | |]; [|done..].
  destruct H as (Hrf & Hgas & Hu1 & Hg1 & Hs1 & R1). cbn [mbind processed_bind]. change (pg_usedGas p0) with (pg_usedGas p) in *.
  assert (10500 ≤ gas) as Hleast by (rewrite <- Hgas; exact (rf_least _ _ _ Hrf)).
  destruct (ProcessTx_ends k counter tx (pg_state p1) Htx Hs1 Hn) as (counter1 & s2 & -> & Hs2 & R2 & Hn1).
  { destruct Hg as [[_ ?] ? ? ?]. lia. }
  cbn [mbind processed_bind]. set (p2 := mkProgress s2 _ _).
  assert (gas_of limit p2) as Hg2 by (destruct Hg1; by split).
  specialize (IH (i + 1) p2 counter1 (k + 1) Hs2 Hg2 Hn1 ltac:(lia)). change (pg_usedGas p2) with (pg_usedGas p1) in IH.
  specialize (IH ltac:(lia)). destruct (processTransactions _ _ _ _ _ _ _ _ _ _) as [[[[rs logs] counter2] p3]|err| | |]; [|done..].
  cbn [mbind processed_bind mret processed_ret loop_post] in *. destruct IH as (I1 & -> & I3 & I4 & I5 & I6 & I7).
  change (pg_usedGas p2) with (pg_usedGas p1) in *. split_and!; [|done|rewrite sumZ_cons; lia|done..| |].
  - split; [done|]. by rewrite Hgas, <- Hu1.
  - replace 0 with (0 + (0 + 0)) by done. eapply richer_trans; [exact R1|]. by eapply richer_trans; [exact R2|].
  - cbn [length]. by replace (k + Z.of_nat (S (length txs))) with (k + 1 + Z.of_nat (length txs)) by lia.
Qed.

(** ** The engine's part *)

(** What an engine promises to the processor: [Finalize] ends with a settled state in which
    the accounts have at most the reward more, or panics for a reason. *)
Class Finalizes (engine : Header → StateDB → list Receipt → option StateDB) (reward : Header → Z) (reason : Header → StateDB → Prop) : Prop :=
  engine_finalizes header s rs :
    rules_ok (hd_Number header) → address_ok (hd_Coinbase header) → settled s →
    match engine header s rs with
    | Some s' => settled s' ∧ richer (reward header) s s'
    | None => reason header s
    end.

Definition block_reward (header : Header) : Z := EidosBlockReward (cc_BlockYear config) (hd_Number header).

(** No miner has money after the reward is paid. *)
Definition no_stake (header : Header) (s : StateDB) : Prop :=
  ∃ root s', StateDB.IntermediateRoot db true (StateDB.AddBalance (hd_Coinbase header) (block_reward header) s) = Some (root, s') ∧
    StateDB_TotalBalanceOfMiners db s' = None.

Lemma block_reward_pos header : 0 ≤ block_reward header.
Proof. unfold block_reward, EidosBlockReward. repeat case_match; by vm_compute. Qed.

Lemma algorand_finalizes : Finalizes (algorand_engine db config) block_reward no_stake.
Proof.
  intros header s rs He Hcb Hs. unfold algorand_engine, Algorand_Finalize. fold (block_reward header). unfold rules_ok in He. rewrite He.
  set (s1 := StateDB.AddBalance _ _ s). destruct (NewEVM_ready s Hs) as [Hrd Hrf].
  pose proof (after_add db s (hd_Coinbase header) (block_reward header) (NewEVM s) Hcb (rd_good _ _ _ Hrd) Hrf (block_reward_pos header)) as A.
  destruct A as [[T S _] _ _ _ R K]. cbn [ev_StateDB] in *.
  destruct (transaction_finished db s s1 Hs T K S) as (s' & Ef & Hs' & HL).
  assert (StateDB.IntermediateRoot db true s1 = Some (Trie_Hash (sd_trie s'), s')) as Ei by (unfold StateDB.IntermediateRoot; by rewrite Ef).
  rewrite Ei. cbn [mbind option_bind]. destruct (StateDB_TotalBalanceOfMiners db s') as [total|] eqn:Et; cbn.
  - split; [done|]. replace (block_reward header) with (block_reward header + 0) by lia. eapply richer_trans; [exact R|].
    by apply (finalise_richer db).
  - by exists (Trie_Hash (sd_trie s')), s'.
Qed.

(** ** The block *)

Record block_ok (block : Block) (caches : nat → sigCache) : Prop := {
  bk_rules : rules_ok (Block_Number block);
  bk_no_fork : dao_fork_at config (Block_Number block) = false;
  bk_coinbase : address_ok (Block_Coinbase block);
  bk_limit : is_u64 (hd_GasLimit (bl_header block));
  bk_transactions : Forall submitted (Block_Transactions block caches)
}.

(** The receipts, the logs, the gas used, the counted calls and the state of a block. *)
Definition block_post (block : Block) (caches : nat → sigCache) (reward : Z) (s : StateDB)
    (out : list Receipt * list Log * Z * MortgageContractCounter * StateDB) : Prop :=
  let '(receipts, allLogs, usedGas, counter, s') := out in
  receipts_for 0 (Block_Transactions block caches) receipts ∧
  allLogs = mjoin (rc_Logs <$> receipts) ∧
  usedGas = sumZ rc_GasUsed receipts ∧ usedGas ≤ hd_GasLimit (bl_header block) ∧
  settled s' ∧ richer reward s s' ∧
  counts_to (Z.of_nat (length (bl_transactions block))) counter.

(** The state before the engine's part. *)
Definition before_engine (block : Block) (caches : nat → sigCache) (s s' : StateDB) : Prop :=
  ∃ rs logs counter p, processTransactions db config GetHeader cfg fuel block 0 (Block_Transactions block caches)
    (mkProgress s (hd_GasLimit (bl_header block)) 0) ∅ = Processed (rs, logs, counter, p) ∧ pg_state p = s'.

Lemma Process_ends engine reward reason `{!Finalizes engine reward reason} block caches s :
  block_ok block caches → settled s →
  match Process db config GetHeader cfg fuel engine block caches s with
  | Processed out => block_post block caches (reward (bl_header block)) s out
  | Invalid _ => True
  | ProcessCrashes w => fault_ok (config_Rules config (Block_Number block)) w
  | ProcessPanics => ∃ s', before_engine block caches s s' ∧ reason (bl_header block) s'
  | ProcessNoFuel => False
  end.
Proof.
  intros [Hr Hd Hcb Hl Hall] Hs. unfold Process. assert (AddGas 0 (hd_GasLimit (bl_header block)) = Some (hd_GasLimit (bl_header block))) as ->.
  { unfold AddGas, is_u64 in *. rewrite (sub64_id (2 ^ 64 - 1)) by (unfold is_u64; lia). rewrite (proj2 (Z.ltb_ge _ _)) by lia.
    by rewrite add64_id by (unfold is_u64; lia). }
  cbn [orDie mbind processed_bind]. rewrite Hd. set (p := mkProgress s _ _).
  assert (gas_of (hd_GasLimit (bl_header block)) p) as Hg by (unfold is_u64 in Hl; split; cbn; unfold is_u64; lia).
  pose proof (processTransactions_ends (hd_GasLimit (bl_header block)) block (Block_Transactions block caches) Hr Hcb Hall 0 p ∅ 0 Hs Hg) as H.
  specialize (H ltac:(done) ltac:(lia) ltac:(done)). unfold before_engine. fold p.
  destruct (processTransactions _ _ _ _ _ _ _ _ _ _) as [[[[rs logs] counter] p']|err| | |] eqn:E; [|done..].
  destruct H as (H1 & -> & H3 & H4 & H5 & H6 & H7). cbn [mbind processed_bind].
  pose proof (engine_finalizes (bl_header block) (pg_state p') rs Hr Hcb H5) as HF.
  destruct (engine (bl_header block) (pg_state p') rs) as [s'|]; cbn [orDie mbind processed_bind mret processed_ret].
  - destruct HF as [HF1 HF2]. cbn [block_post]. split_and!; [done|done|exact H3| |done| |].
    + destruct H4 as [_ H4 _ ?]. lia.
    + replace (reward (bl_header block)) with (0 + reward (bl_header block)) by lia. by eapply richer_trans.
    + unfold Block_Transactions in H7. by rewrite length_imap in H7.
  - exists (pg_state p'). split; [|done]. by exists rs, (mjoin (rc_Logs <$> rs)), counter, p'.
Qed.

(** C4. Every block is processed to the end.  By the rules of EIP-158, outside the block of
    the DAO fork, from a settled state and with transactions of Go's types, [Process] ends in
    one of four ways: with the error of a transaction that cannot be applied; with
    everything a block yields; with the panic of a precompiled contract on the input a
    transaction passed to it or, by the rules of EIP-1283, of the counter of refunds; or with
    the panic of the engine when no miner has money after the block.  No transaction makes the
    pool of gas, the gas used or a counter overflow.  When it yields a block, there is one
    receipt for each transaction, in their order, whose cumulative gas is the sum of the gas so
    far and whose bloom filter is that of its logs; the gas of the block is their sum and
    within the limit of the block; the logs are those of the receipts; the state is settled,
    ready for the next block; and the accounts together have at most the reward of the block
    more than before. *)
Theorem block_processed block caches s :
  block_ok block caches → settled s →
  match Process db config GetHeader cfg fuel (algorand_engine db config) block caches s with
  | Processed out => block_post block caches (block_reward (bl_header block)) s out
  | Invalid _ => True
  | ProcessCrashes w => fault_ok (config_Rules config (Block_Number block)) w
  | ProcessPanics => ∃ s', before_engine block caches s s' ∧ no_stake (bl_header block) s'
  | ProcessNoFuel => False
  end.
Proof. intros Hb Hs. by apply Process_ends; [apply algorand_finalizes|..]. Qed.
End transactions.

(** ** The DAO fork *)

Section dao.
Context `{CR : Crypto} `{SD : StateDatabase} (db : Database).

Lemma SetBalance_bal b v s a : wf s → bal (SetBalance b v s) a = (if decide (a = b) then v else bal s a) ∧ wf (SetBalance b v s).
Proof.
  intros Hw. split; [|by apply (on_account_does db); [done|]; intros; apply SetBalance_does].
  rewrite !bal_account. unfold SetBalance.
  destruct (oeq_shows db _ _ (on_account_view db b s (λ o s, stateObject_SetBalance v o s) (setBalance v) Hw
    ltac:(intros o o' []; split; try done; unfold setBalance; upd; congruence)
    ltac:(intros o s0 Hd _ x; by rewrite SetBalance_view) a)) as [-> _].
  by destruct (decide _).
Qed.

Lemma drain_bal addr s a : wf s → addr ≠ DAORefundContract →
  bal (drain addr s) a = (if decide (a = addr) then 0 else if decide (a = DAORefundContract) then bal s a + bal s addr else bal s a) ∧
  wf (drain addr s).
Proof.
  intros Hw Hn. unfold drain, StateDB.GetBalance.
  destruct (with_object_loads db 0 (λ o, (ac_Balance (so_data o), o)) (λ o, ac_Balance (so_data o)) addr s Hw) as [L Hv]; [done|].
  destruct (with_object _ _ _ _) as [balance s1]. cbn [fst snd] in *. fold (bal s addr) in Hv. subst balance.
  destruct (AddBalance_bal db DAORefundContract (bal s addr) s1 a (ld_wf _ _ _ L)) as (E1 & _ & W1).
  destruct (SetBalance_bal addr 0 (StateDB.AddBalance DAORefundContract (bal s addr) s1) a W1) as [E2 W2].
  rewrite E2, E1, <- (sim_bal db s s1 a (ld_sim _ _ _ L)). split; [|done]. destruct (decide (a = addr)); [done|]. by destruct (decide _).
Qed.

Lemma drains_bal l : NoDup l → DAORefundContract ∉ l → ∀ s, wf s →
  let s' := foldl (λ s addr, drain addr s) s l in
  ∀ a, bal s' a = if decide (a ∈ l) then 0 else if decide (a = DAORefundContract) then bal s a + sumZ (bal s) l else bal s a.
Proof.
  induction 1 as [|x l Hx _ IH]; intros Hd s Hw s' a.
  { rewrite decide_False by apply not_elem_of_nil. cbn. rewrite Z.add_0_r. by destruct (decide _). }
  apply not_elem_of_cons in Hd as [Hdx Hd]. assert (∀ b, _) as Hb by exact (λ b, proj1 (drain_bal x s b Hw (not_eq_sym Hdx))).
  specialize (IH Hd (drain x s) (proj2 (drain_bal x s a Hw (not_eq_sym Hdx))) a). unfold s'. cbn [foldl]. rewrite IH, !Hb, sumZ_cons.
  assert (sumZ (bal (drain x s)) l = sumZ (bal s) l) as ->.
  { apply sumZ_ext. intros b Hbl. rewrite Hb. rewrite !decide_False; [done|by intros ->..]. }
  destruct (decide (a ∈ l)) as [Ha|Ha]; [by rewrite decide_True by (by right)|].
  destruct (decide (a = x)) as [->|Hax].
  - rewrite (decide_True (P := x ∈ _)) by left. by rewrite decide_False by congruence.
  - rewrite (decide_False (P := a ∈ _)) by (by apply not_elem_of_cons). destruct (decide _) as [->|]; lia.
Qed.

Lemma drain_list_distinct : NoDup DAODrainList ∧ DAORefundContract ∉ DAODrainList.
Proof. split; apply (bool_decide_unpack _); by vm_compute. Qed.

(** The fork leaves nothing in the drained accounts, gives what they had to the refund
    contract and changes no other balance. *)
Theorem dao_fork_moves s a : wf s →
  bal (ApplyDAOHardFork s) a =
    if decide (a ∈ DAODrainList) then 0
    else if decide (a = DAORefundContract) then bal s a + sumZ (bal s) DAODrainList
    else bal s a.
Proof.
  intros Hw. unfold ApplyDAOHardFork, Exist. destruct (getStateObject_loads db DAORefundContract s Hw) as (L & _).
  destruct (getStateObject _ s) as [o s1]. cbn [fst snd] in *.
  match goal with |- bal (foldl _ ?x _) _ = _ => set (s2 := x) end.
  assert (wf s2 ∧ ∀ b, bal s2 b = bal s b) as [W2 B2].
  { unfold s2. assert (∀ b, bal s1 b = bal s b) as B1 by (intros b; symmetry; apply (sim_bal db), L).
    destruct o; [by split; [apply L|]|]. split; [apply (CreateAccount_does db), L|]. intros b. rewrite <- B1, !bal_account.
    destruct (oeq_shows db _ _ (CreateAccount_view db DAORefundContract s1 b (ld_wf _ _ _ L))) as [-> _]. by destruct (decide _). }
  destruct drain_list_distinct as [Hnd Hni]. rewrite (drains_bal DAODrainList Hnd Hni s2 W2 a), B2.
  by rewrite (sumZ_ext (bal s2) (bal s)) by (intros; apply B2).
Qed.
End dao.

Module BlockWitness.
Import Toy ToyState EvmExample.
#[local] Existing Instance ToySecp.secp.

Definition config : ChainConfig :=
  mkChainConfig (Some 889) (Some 0) None false (Some 0) (Some 0) (Some 0) (Some 0) (Some 0) (Some 0) None 100.

(** Two transactions of the owner of the key 5, signed for the chain 889. *)
Definition unsigned (nonce : Z) : Transaction := mkTransaction nonce 0 30000 (Some 17) 0 [] 0 0 0 0.
Definition signed (nonce : Z) : Transaction :=
  match SignTx (unsigned nonce) (NewEIP155Signer (Some 889)) 5 with Some (inr tx) => tx | _ => unsigned nonce end.

Definition header : Header := mkHeader 1 0 9 0 0 0 0 0 10 100000 0 0 [] 0 0 0 emptyCertificate.
Definition block : Block := mkBlock header [] [signed 0; signed 1].
Definition caches (_ : nat) : sigCache := None.

Lemma signed_ok nonce : nonce = 0 ∨ nonce = 1 → submitted more_fuel (signed nonce, None).
Proof.
  intros H. assert (∃ v r s, signed nonce = mkTransaction nonce 0 30000 (Some 17) 0 [] v r s 0) as (v & r & s & ->).
  { destruct H as [-> | ->]; eexists _, _, _; vm_compute; reflexivity. }
  split; [|split; [done|by vm_compute]]. split; [by vm_compute|done|done|apply code_ok_nil|by vm_compute].
Qed.

Lemma block_fine : block_ok config more_fuel block caches.
Proof.
  split; [by split; vm_compute|by vm_compute|by vm_compute|by vm_compute|].
  constructor; [apply signed_ok; by left|]. constructor; [apply signed_ok; by right|constructor].
Qed.

(** What is seen of the result. *)
Definition seen (r : processed (list Receipt * list Log * Z * MortgageContractCounter * StateDB)) : option (list Z * Z) :=
  match r with Processed (rs, _, used, _, _) => Some (rc_GasUsed <$> rs, used) | _ => None end.
End BlockWitness.

Section witness.
Import Toy ToyState EvmExample BlockWitness.

Lemma block_processed_witness :
  ∃ rs logs counter s',
    Process db config (λ _ _, None) cfg more_fuel (algorand_engine db config) block caches blank
    = Processed (rs, logs, 42000, counter, s') ∧ rc_GasUsed <$> rs = [21000; 21000] ∧ settled db s' ∧ richer (40 * BigEther) blank s'.
Proof.
  assert (seen (Process db config (λ _ _, None) cfg more_fuel (algorand_engine db config) block caches blank) = Some ([21000; 21000], 42000))
    as E by (vm_compute; reflexivity).
  pose proof (block_processed db config (λ _ _, None) cfg more_fuel block caches blank block_fine TypedExample.blank_settled) as H.
  destruct (Process _ _ _ _ _ _ _ _ _) as [[[[[rs logs] used] counter] s']|err| | |]; try discriminate E.
  injection E as E1 ->. destruct H as (_ & _ & _ & _ & H5 & H6 & _). exists rs, logs, counter, s'. auto.
Defined.
End witness.
