(* ===== verification/TxList.v ===== *)
(** * TxList: the transactions of an account in the pool

    src/core/tx_list.go: the map from nonces to transactions with its heap of nonces and its
    cache ([txSortedMap]), and the list of an account above it ([txList]).  Go iterates over
    maps in no particular order, here in that of [map_to_list]; a [nil] in a slice of
    transactions is [None].  The outer [None] is a panic. *)

From stdpp Require Import fin_maps.
From S2P Require Import Prelude Bytes Crypto Types StateDB EvmMemory EvmState EvmPrecompiled StateTransition Transaction Processor Heap.

Local Open Scope Z_scope.

Definition nonceHeap : Type := list Z.
Definition nonce_less (x y : Z) : bool := x <? y.

Record txSortedMap := mkTxSortedMap {
  tm_items : gmap Z Transaction;
  tm_index : nonceHeap;
  tm_cache : option (list Transaction)
}.

Definition newTxSortedMap : txSortedMap := mkTxSortedMap ∅ [] None.

Definition sorted_Get (nonce : Z) (m : txSortedMap) : option Transaction := tm_items m !! nonce.

Definition Put (tx : Transaction) (m : txSortedMap) : txSortedMap :=
  let nonce := tx_AccountNonce tx in
  let index := match tm_items m !! nonce with None => heap_Push nonce_less (tm_index m) nonce | Some _ => tm_index m end in
  mkTxSortedMap (<[nonce := tx]> (tm_items m)) index None.

(** The loop of [Forward], which ends when the heap is empty. *)
Fixpoint forward_loop (fuel : nat) (threshold : Z) (items : gmap Z Transaction) (index : nonceHeap) :
    option (list (option Transaction) * gmap Z Transaction * nonceHeap) :=
  match fuel, index with
  | S fuel, first :: _ =>
      if first <? threshold then
        '(nonce, index) ← heap_Pop nonce_less index;
        '(removed, items', index) ← forward_loop fuel threshold (delete nonce items) index;
        Some (items !! nonce :: removed, items', index)
      else Some ([], items, index)
  | _, _ => Some ([], items, index)
  end.

(** [s[n:]] and [s[:len(s)-n]] *)
Definition slice_from {A : Type} (n : nat) (l : list A) : option (list A) := if (length l <? n)%nat then None else Some (drop n l).
Definition slice_but {A : Type} (n : nat) (l : list A) : option (list A) :=
  if (length l <? n)%nat then None else Some (take (length l - n) l).

Definition Forward (threshold : Z) (m : txSortedMap) : option (list (option Transaction) * txSortedMap) :=
  '(removed, items, index) ← forward_loop (length (tm_index m)) threshold (tm_items m) (tm_index m);
  cache ← match tm_cache m with
          | None => Some None
          | Some cache => cache ← slice_from (length removed) cache; Some (Some cache)
          end;
  Some (removed, mkTxSortedMap items index cache).

Definition sorted_Filter (f : Transaction → bool) (m : txSortedMap) : list Transaction * txSortedMap :=
  let removed := filter (λ tx, f tx = true) (map_to_list (tm_items m)).*2 in
  let items := filter (λ kv, f kv.2 = false) (tm_items m) in
  match removed with
  | [] => ([], m)
  | _ => (removed, mkTxSortedMap items (heap_Init nonce_less (map_to_list items).*1) None)
  end.

(** The loop of [Cap] drops the highest nonces of the sorted index. *)
Fixpoint cap_loop (drops : nat) (size : nat) (index : nonceHeap) (items : gmap Z Transaction) :
    option (list (option Transaction) * gmap Z Transaction) :=
  match drops with
  | O => Some ([], items)
  | S drops =>
      nonce ← index !! (size - 1)%nat;
      '(l, items') ← cap_loop drops (size - 1)%nat index (delete nonce items);
      Some (items !! nonce :: l, items')
  end.

(** A negative threshold, which the pool never passes, would make the loop index below 0. *)
Definition sorted_Cap (threshold : nat) (m : txSortedMap) : option (list (option Transaction) * txSortedMap) :=
  let size := size (tm_items m) in
  if (size <=? threshold)%nat then Some ([], m)
  else
    let index := merge_sort Z.le (tm_index m) in
    '(drops, items) ← cap_loop (size - threshold) size index (tm_items m);
    if (length index <? threshold)%nat then None
    else
      cache ← match tm_cache m with
              | None => Some None
              | Some cache => cache ← slice_but (length drops) cache; Some (Some cache)
              end;
      Some (drops, mkTxSortedMap items (heap_Init nonce_less (take threshold index)) cache).

Definition sorted_Remove (nonce : Z) (m : txSortedMap) : option (bool * txSortedMap) :=
  match tm_items m !! nonce with
  | None => Some (false, m)
  | Some _ =>
      index ← match list_find (λ n, n = nonce) (tm_index m) with
              | Some (i, _) => snd <$> heap_Remove nonce_less (tm_index m) i
              | None => Some (tm_index m)
              end;
      Some (true, mkTxSortedMap (delete nonce (tm_items m)) index None)
  end.

Fixpoint ready_loop (fuel : nat) (next : Z) (items : gmap Z Transaction) (index : nonceHeap) :
    option (list (option Transaction) * gmap Z Transaction * nonceHeap) :=
  match fuel, index with
  | S fuel, first :: _ =>
      if first =? next then
        '(_, index) ← heap_Pop nonce_less index;
        '(ready, items', index) ← ready_loop fuel (add64 next 1) (delete next items) index;
        Some (items !! next :: ready, items', index)
      else Some ([], items, index)
  | _, _ => Some ([], items, index)
  end.

Definition sorted_Ready (start : Z) (m : txSortedMap) : option (list (option Transaction) * txSortedMap) :=
  match tm_index m with
  | [] => Some ([], m)
  | first :: _ =>
      if start <? first then Some ([], m)
      else
        '(ready, items, index) ← ready_loop (length (tm_index m)) first (tm_items m) (tm_index m);
        Some (ready, mkTxSortedMap items index None)
  end.

Definition sorted_Len (m : txSortedMap) : nat := size (tm_items m).

(** [TxByNonce] *)
Definition nonce_le (x y : Transaction) : Prop := tx_AccountNonce x ≤ tx_AccountNonce y.
#[global] Instance nonce_le_dec : RelDecision nonce_le := λ x y, Z_le_dec (tx_AccountNonce x) (tx_AccountNonce y).
#[global] Instance nonce_le_total : Total nonce_le := λ x y, Z.le_ge_cases _ _.
#[global] Instance nonce_le_trans : Transitive nonce_le := λ x y z, Z.le_trans _ _ _.

Definition sorted_Flatten (m : txSortedMap) : list Transaction * txSortedMap :=
  let cache := default (merge_sort nonce_le (map_to_list (tm_items m)).*2) (tm_cache m) in
  (cache, mkTxSortedMap (tm_items m) (tm_index m) (Some cache)).

(** ** The list of an account *)

Definition Transaction_Gas (tx : Transaction) : Z := if 0 <? tx_GasLimit tx then tx_GasLimit tx else tx_ContractGas tx.
Definition Transaction_Cost (tx : Transaction) : Z := tx_Price tx * tx_GasLimit tx + tx_Amount tx.

Record txList := mkTxList {
  tl_strict : bool;
  tl_txs : txSortedMap;
  tl_costcap : Z;
  tl_gascap : Z
}.

Definition newTxList (strict : bool) : txList := mkTxList strict newTxSortedMap 0 0.

Definition Overlaps (tx : Transaction) (l : txList) : bool := bool_decide (is_Some (sorted_Get (tx_AccountNonce tx) (tl_txs l))).

(** An [int64] of a [uint64] or of a sum. *)
Definition s64 (x : Z) : Z := (x + 2 ^ 63) `mod` 2 ^ 64 - 2 ^ 63.

Definition list_Add (tx : Transaction) (priceBump : Z) (l : txList) : bool * option Transaction * txList :=
  let old := sorted_Get (tx_AccountNonce tx) (tl_txs l) in
  let better :=
    match old with
    | Some old =>
        let threshold := (tx_Price old * s64 (100 + s64 priceBump)) `div` 100 in
        (tx_Price tx <=? tx_Price old) || (tx_Price tx <? threshold)
    | None => false
    end in
  if (better : bool) then (false, None, l)
  else
    let cost := Transaction_Cost tx in
    let gas := Transaction_Gas tx in
    (true, old, mkTxList (tl_strict l) (Put tx (tl_txs l))
       (if tl_costcap l <? cost then cost else tl_costcap l) (if tl_gascap l <? gas then gas else tl_gascap l)).

Definition on_txs {A : Type} (r : option (A * txSortedMap)) (l : txList) : option (A * txList) :=
  '(a, m) ← r; Some (a, mkTxList (tl_strict l) m (tl_costcap l) (tl_gascap l)).

Definition list_Forward (threshold : Z) (l : txList) : option (list (option Transaction) * txList) :=
  on_txs (Forward threshold (tl_txs l)) l.
Definition list_Cap (threshold : nat) (l : txList) : option (list (option Transaction) * txList) :=
  on_txs (sorted_Cap threshold (tl_txs l)) l.
Definition list_Ready (start : Z) (l : txList) : option (list (option Transaction) * txList) :=
  on_txs (sorted_Ready start (tl_txs l)) l.
Definition list_Flatten (l : txList) : list Transaction * txList :=
  let '(txs, m) := sorted_Flatten (tl_txs l) in (txs, mkTxList (tl_strict l) m (tl_costcap l) (tl_gascap l)).
Definition list_Len (l : txList) : nat := sorted_Len (tl_txs l).
Definition list_Empty (l : txList) : bool := (list_Len l =? 0)%nat.

Definition list_Remove (tx : Transaction) (l : txList) : option (bool * list Transaction * txList) :=
  let nonce := tx_AccountNonce tx in
  '(removed, m) ← sorted_Remove nonce (tl_txs l);
  let l := mkTxList (tl_strict l) m (tl_costcap l) (tl_gascap l) in
  if negb removed then Some (false, [], l)
  else if tl_strict l then
    let '(invalids, m) := sorted_Filter (λ tx, nonce <? tx_AccountNonce tx) m in
    Some (true, invalids, mkTxList (tl_strict l) m (tl_costcap l) (tl_gascap l))
  else Some (true, [], l).

Section filter.
Context `{CR : Crypto} `{PR : Primitives} `{SG : Secp256k1} `{SD : StateDatabase} (db : Database).
(** [tx.From()]: the cached sender *)
Context (From : Transaction → Address).

(** The test of [Filter]; it reads the state. *)
Definition tooExpensive (costLimit gasLimit : Z) (tx : Transaction) : X bool :=
  if tx_GasLimit tx =? 0 then
    r ← ValidatePayByContract db (From tx)
          (mkMessage (tx_Recipient tx) (From tx) (tx_AccountNonce tx) (tx_Amount tx) (tx_GasLimit tx) (tx_Price tx) (tx_Payload tx) true
             (Transaction_Hash tx));
    match r with
    | inl _ => mret true
    | inr (_, to) =>
        creator ← CreatorOrSelf db to;
        contractCostLimit ← reading (GetBalance creator);
        gas ← GetGasLimit db to;
        mret ((contractCostLimit <? tx_Price tx * gas) || (costLimit <? tx_Amount tx) || (gasLimit <? gas))
    end
  else mret ((costLimit <? Transaction_Cost tx) || (gasLimit <? Transaction_Gas tx)).

(** Its answer on a state; it always gives one ([tooExpensive_answers]), and what reading
    loads is not seen. *)
Definition removes (s : StateDB) (costLimit gasLimit : Z) (tx : Transaction) : bool :=
  match tooExpensive costLimit gasLimit tx (NewEVM s) with Done b _ => b | _ => false end.

Definition lowest (txs : list Transaction) : Z :=
  foldl (λ low tx, if tx_AccountNonce tx <? low then tx_AccountNonce tx else low) (2 ^ 64 - 1) txs.

Definition list_Filter (s : StateDB) (costLimit gasLimit : Z) (l : txList) : list Transaction * list Transaction * txList :=
  if (tl_costcap l <=? costLimit) && (tl_gascap l <=? gasLimit) then ([], [], l)
  else
    let '(removed, m) := sorted_Filter (removes s costLimit gasLimit) (tl_txs l) in
    let '(invalids, m) :=
      match removed with
      | _ :: _ => if tl_strict l then sorted_Filter (λ tx, lowest removed <? tx_AccountNonce tx) m else ([], m)
      | [] => ([], m)
      end in
    (removed, invalids, mkTxList (tl_strict l) m costLimit gasLimit).
End filter.
