(* ===== verification/TxListFacts.v ===== *)
(** * TxListFacts: what the lists of the pool promise

    The sorted map is a map from nonces to transactions, whatever its heap and its cache
    hold; the list of an account keeps its bounds, and in strict mode no gaps. *)

From stdpp Require Import fin_maps.
From S2P Require Import Prelude Bytes Crypto Types StateDB SecureTrie EvmMemory EvmState EvmPrecompiled StateTransition Transaction Processor Heap TxList.

Local Open Scope Z_scope.

#[global] Instance nonce_order : HeapOrder nonce_less.
Proof.
  split; unfold nonce_less.
  - intros x y H%Z.ltb_lt. apply Z.ltb_ge. lia.
  - intros x y z H1%Z.ltb_ge H2%Z.ltb_ge. apply Z.ltb_ge. lia.
Qed.

(** The transactions of a map in the order of their nonces. *)
Definition by_nonce (M : gmap Z Transaction) : list Transaction := merge_sort nonce_le (map_to_list M).*2.

Definition keyed (M : gmap Z Transaction) : Prop := ∀ n tx, M !! n = Some tx → tx_AccountNonce tx = n ∧ is_u64 n.

Record sorted_ok (m : txSortedMap) : Prop := {
  sm_keyed : keyed (tm_items m);
  sm_heap : is_heap nonce_less (tm_index m);
  sm_index : tm_index m ≡ₚ (map_to_list (tm_items m)).*1;
  sm_cache : ∀ l, tm_cache m = Some l → l = by_nonce (tm_items m)
}.

Lemma elem_values (M : gmap Z Transaction) tx : keyed M → tx ∈ (map_to_list M).*2 ↔ M !! tx_AccountNonce tx = Some tx.
Proof.
  intros Hk. rewrite list_elem_of_fmap. split.
  - intros ([n t] & -> & H%elem_of_map_to_list). cbn. destruct (Hk n t H) as [-> _]. done.
  - intros H. exists (tx_AccountNonce tx, tx). split; [done|]. by apply elem_of_map_to_list.
Qed.

Lemma elem_by_nonce M tx : keyed M → tx ∈ by_nonce M ↔ M !! tx_AccountNonce tx = Some tx.
Proof. intros Hk. unfold by_nonce. rewrite merge_sort_Permutation. by apply elem_values. Qed.

Lemma nonce_unique M x y : keyed M → x ∈ by_nonce M → y ∈ by_nonce M → tx_AccountNonce x = tx_AccountNonce y → x = y.
Proof. intros Hk Hx%elem_by_nonce Hy%elem_by_nonce E; [|done..]. rewrite E in Hx. congruence. Qed.

Lemma nodup_values M : keyed M → NoDup (map_to_list M).*2.
Proof.
  intros Hk. apply NoDup_fmap_2_strong; [|apply NoDup_map_to_list]. intros [n x] [m y] H1%elem_of_map_to_list H2%elem_of_map_to_list E.
  cbn in E. subst y. destruct (Hk _ _ H1) as [E1 _], (Hk _ _ H2) as [E2 _]. congruence.
Qed.

Lemma by_nonce_sorted M : StronglySorted nonce_le (by_nonce M).
Proof. apply Sorted_StronglySorted; [apply _|]. apply Sorted_merge_sort. apply _. Qed.

(** A sorted list of the transactions of a map is the one. *)
Lemma by_nonce_unique M l : keyed M → l ≡ₚ (map_to_list M).*2 → StronglySorted nonce_le l → l = by_nonce M.
Proof.
  intros Hk Hp Hs. assert (l ≡ₚ by_nonce M) as Hp' by (unfold by_nonce; by rewrite merge_sort_Permutation).
  apply (StronglySorted_unique_strong nonce_le); [|done|apply by_nonce_sorted|done].
  intros x y Hx Hy H1 H2. unfold nonce_le in *. apply (nonce_unique M); [done| |done|lia]. by rewrite <- Hp'.
Qed.

(** The heap of a map: its nonces, each once. *)
Record indexed (M : gmap Z Transaction) (index : nonceHeap) : Prop := {
  ix_keyed : keyed M;
  ix_heap : is_heap nonce_less index;
  ix_perm : index ≡ₚ (map_to_list M).*1
}.

Lemma sorted_indexed m : sorted_ok m → indexed (tm_items m) (tm_index m).
Proof. by intros [H1 H2 H3 _]. Qed.

Lemma keyed_delete M n : keyed M → keyed (delete n M).
Proof. intros Hk i tx [_ H]%lookup_delete_Some. by apply Hk. Qed.

Lemma keyed_filter (P : Z * Transaction → Prop) `{!∀ x, Decision (P x)} M : keyed M → keyed (filter P M).
Proof. intros Hk i tx [E _]%map_lookup_filter_Some. by apply Hk. Qed.

Lemma by_nonce_cons M n tx : keyed M → M !! n = Some tx → (∀ i t, M !! i = Some t → n ≤ i) → by_nonce M = tx :: by_nonce (delete n M).
Proof.
  intros Hk Hn Hmin. destruct (Hk n tx Hn) as [En _]. symmetry. apply by_nonce_unique; [done| |].
  - unfold by_nonce. rewrite merge_sort_Permutation. rewrite <- (map_to_list_delete M n tx Hn). done.
  - constructor; [apply by_nonce_sorted|]. apply Forall_forall. intros y Hy%elem_by_nonce; [|by apply keyed_delete].
    apply lookup_delete_Some in Hy as [_ Hy]. apply Hmin in Hy. unfold nonce_le. lia.
Qed.

Lemma by_nonce_empty : by_nonce ∅ = [].
Proof. done. Qed.

Lemma indexed_nil M : indexed M [] → M = ∅.
Proof. intros [_ _ H]. apply Permutation_nil_l in H. symmetry in H. apply fmap_nil_inv in H. by apply map_to_list_empty_iff. Qed.

Lemma elem_index M index n : indexed M index → n ∈ index ↔ is_Some (M !! n).
Proof.
  intros [_ _ H]. rewrite H, list_elem_of_fmap. split.
  - intros ([i tx] & -> & E%elem_of_map_to_list). by eexists.
  - intros [tx E]. exists (n, tx). split; [done|]. by apply elem_of_map_to_list.
Qed.

Lemma index_min M n index i tx : indexed M (n :: index) → M !! i = Some tx → n ≤ i.
Proof.
  intros Hx E. pose proof (heap_min nonce_less (n :: index) n (ix_heap _ _ Hx) eq_refl i) as H.
  apply Z.ltb_ge, H. apply (elem_index M _ i Hx). by eexists.
Qed.

Lemma delete_indexed M index index' n : indexed M index → is_heap nonce_less index' → index ≡ₚ n :: index' → indexed (delete n M) index'.
Proof.
  intros Hx Hh P. pose proof Hx as [Hk _ Hp]. split; [by apply keyed_delete|done|]. assert (is_Some (M !! n)) as [tx E].
  { apply (elem_index M index n Hx). rewrite P. by left. }
  apply (Permutation_cons_inv (a := n)). rewrite <- P, Hp, <- (map_to_list_delete M n tx E). done.
Qed.

Lemma pop_indexed M n index : indexed M (n :: index) →
  ∃ tx index', heap_Pop nonce_less (n :: index) = Some (n, index') ∧ M !! n = Some tx ∧ indexed (delete n M) index' ∧
    length index' = length index ∧ by_nonce M = tx :: by_nonce (delete n M).
Proof.
  intros Hx. destruct (heap_Pop_spec nonce_less (n :: index) n (ix_heap _ _ Hx) eq_refl) as (index' & E & Hh & P).
  destruct (proj1 (elem_index M _ n Hx) (list_elem_of_here _ _)) as [tx Etx].
  exists tx, index'. split_and!; [done|done|by eapply delete_indexed|apply Permutation_length in P; cbn in P; lia|].
  apply by_nonce_cons; [apply Hx|done|]. intros i t. by apply index_min with (index := index).
Qed.

Definition lower (t : Z) (M : gmap Z Transaction) : gmap Z Transaction := filter (λ kv, kv.1 < t) M.
Definition upper (t : Z) (M : gmap Z Transaction) : gmap Z Transaction := filter (λ kv, ¬ kv.1 < t) M.

Lemma forward_loop_spec t fuel : ∀ M index, indexed M index → (length index ≤ fuel)%nat →
  ∃ index', forward_loop fuel t M index = Some (Some <$> by_nonce (lower t M), upper t M, index') ∧ indexed (upper t M) index' ∧
    by_nonce M = by_nonce (lower t M) ++ by_nonce (upper t M).
Proof.
  induction fuel as [|fuel IH]; intros M [|n index] Hx Hf; cbn [length] in Hf; try lia.
  1, 2: apply indexed_nil in Hx as Hm; subst M; exists []; unfold lower, upper; by rewrite !map_filter_empty.
  cbn [forward_loop]. destruct (Z.ltb_spec n t) as [Hlt|Hge].
  - destruct (pop_indexed M n index Hx) as (tx & index1 & -> & Etx & Hx1 & El & Eb).
    destruct (IH (delete n M) index1 Hx1 ltac:(lia)) as (index2 & E2 & Hx2 & Eb2). cbn [mbind option_bind]. rewrite E2. cbn [mbind option_bind].
    assert (upper t (delete n M) = upper t M) as Eu by (apply map_filter_delete_not; cbn; intros; simplify_eq; lia).
    assert (by_nonce (lower t M) = tx :: by_nonce (lower t (delete n M))) as Elw.
    { unfold lower. rewrite (map_filter_delete (λ kv : Z * Transaction, kv.1 < t)). apply by_nonce_cons; [apply keyed_filter, Hx| |].
      - by apply map_lookup_filter_Some.
      - intros i x [E _]%map_lookup_filter_Some. by eapply index_min. }
    rewrite Eu in *. exists index2. rewrite Elw, Etx. split_and!; [done|done|]. rewrite Eb, Eb2. done.
  - assert (lower t M = ∅) as Elw.
    { apply map_empty. intros i. apply map_lookup_filter_None. right. intros x E. cbn. pose proof (index_min M n index i x Hx E). lia. }
    assert (upper t M = M) as Eu.
    { apply map_filter_id. intros i x E. cbn. pose proof (index_min M n index i x Hx E). lia. }
    exists (n :: index). by rewrite Elw, Eu.
Qed.

(** ** Maps as sorted lists *)

Definition of_list (l : list Transaction) : gmap Z Transaction := list_to_map ((λ tx, (tx_AccountNonce tx, tx)) <$> l).

Lemma keys_nonces M : keyed M → (map_to_list M).*1 = tx_AccountNonce <$> (map_to_list M).*2.
Proof.
  intros Hk. rewrite <- list_fmap_compose. apply list_fmap_ext. intros i [n tx] E%list_elem_of_lookup_2%elem_of_map_to_list. cbn.
  destruct (Hk n tx E). done.
Qed.

Lemma by_nonce_nonces M : keyed M → tx_AccountNonce <$> by_nonce M ≡ₚ (map_to_list M).*1.
Proof. intros Hk. rewrite keys_nonces by done. unfold by_nonce. by rewrite merge_sort_Permutation. Qed.

Lemma by_nonce_length M : length (by_nonce M) = size M.
Proof. unfold by_nonce. by rewrite merge_sort_Permutation, length_fmap, length_map_to_list. Qed.

Lemma of_by_nonce M : keyed M → of_list (by_nonce M) = M.
Proof.
  intros Hk. unfold of_list. rewrite <- (list_to_map_to_list M) at 2. apply list_to_map_proper.
  - rewrite <- list_fmap_compose. change (NoDup (tx_AccountNonce <$> by_nonce M)). rewrite by_nonce_nonces by done. apply NoDup_fst_map_to_list.
  - unfold by_nonce. rewrite merge_sort_Permutation, <- list_fmap_compose.
    replace (_ <$> map_to_list M) with (map_to_list M); [done|]. rewrite <- (list_fmap_id (map_to_list M)) at 1. apply list_fmap_ext.
    intros i [n tx] E%list_elem_of_lookup_2%elem_of_map_to_list. cbn. by destruct (Hk n tx E) as [-> _].
Qed.

Lemma by_nonce_snoc M l tx : keyed M → by_nonce M = l ++ [tx] → M !! tx_AccountNonce tx = Some tx ∧ by_nonce (delete (tx_AccountNonce tx) M) = l.
Proof.
  intros Hk E. assert (M !! tx_AccountNonce tx = Some tx) as Etx by (apply elem_by_nonce; [done|]; rewrite E; set_solver).
  split; [done|]. symmetry. apply by_nonce_unique; [by apply keyed_delete| |].
  - pose proof (by_nonce_sorted M) as _. apply (Permutation_cons_inv (a := tx)).
    change (tx :: (map_to_list (delete (tx_AccountNonce tx) M)).*2) with (((tx_AccountNonce tx, tx) :: map_to_list (delete (tx_AccountNonce tx) M)).*2).
    rewrite (map_to_list_delete M _ tx Etx). rewrite Permutation_cons_append, <- E. unfold by_nonce. by rewrite merge_sort_Permutation.
  - pose proof (by_nonce_sorted M) as Hs. rewrite E in Hs. by eapply StronglySorted_app_1_l.
Qed.

(** ** The operations *)

Lemma new_ok : sorted_ok newTxSortedMap.
Proof. split; [by intros n tx ?|intros j Hj; cbn in Hj; lia|done|done]. Qed.

Lemma sorted_Put_ok m tx : sorted_ok m → is_u64 (tx_AccountNonce tx) →
  sorted_ok (Put tx m) ∧ tm_items (Put tx m) = <[tx_AccountNonce tx := tx]> (tm_items m).
Proof.
  intros [Hk Hh Hi _] Hn. split; [|done]. set (n := tx_AccountNonce tx) in *. split; cbn [Put tm_items tm_index tm_cache]; [| | |done].
  - intros i t [[<- <-]|[_ E]]%lookup_insert_Some; [done|by apply Hk].
  - fold n. destruct (tm_items m !! n); [done|]. exact (proj2 (heap_Push_spec nonce_less _ _ Hh)).
  - fold n. destruct (tm_items m !! n) as [old|] eqn:E.
    + rewrite Hi, <- (map_to_list_delete (tm_items m) n old E), <- (map_to_list_delete (<[n:=tx]> (tm_items m)) n tx) by apply lookup_insert_eq.
      by rewrite delete_insert_eq.
    + rewrite map_to_list_insert by done. cbn. rewrite (proj1 (heap_Push_spec nonce_less (tm_index m) n Hh)). by rewrite Hi.
Qed.

Lemma slice_from_app {A : Type} (l1 l2 : list A) : slice_from (length l1) (l1 ++ l2) = Some l2.
Proof. unfold slice_from. rewrite length_app, (proj2 (Nat.ltb_ge _ _)) by lia. by rewrite drop_app_length. Qed.

Lemma Forward_ok m t : sorted_ok m →
  ∃ m', Forward t m = Some (Some <$> by_nonce (lower t (tm_items m)), m') ∧ sorted_ok m' ∧ tm_items m' = upper t (tm_items m).
Proof.
  intros Hm. destruct (forward_loop_spec t (length (tm_index m)) (tm_items m) (tm_index m) (sorted_indexed m Hm) ltac:(done)) as (index & E & Hx & Eb).
  unfold Forward. rewrite E. cbn [mbind option_bind]. rewrite length_fmap. destruct (tm_cache m) as [l|] eqn:Ec.
  - rewrite (sm_cache m Hm l Ec), Eb, slice_from_app. cbn [mbind option_bind]. eexists. split; [done|]. split; [|done]. destruct Hx. by split; [..|intros ? [= <-]].
  - cbn [mbind option_bind]. eexists. split; [done|]. split; [|done]. destruct Hx. by split.
Qed.

Definition filtered (f : Transaction → bool) (M : gmap Z Transaction) : gmap Z Transaction := filter (λ kv, f kv.2 = true) M.
Definition unfiltered (f : Transaction → bool) (M : gmap Z Transaction) : gmap Z Transaction := filter (λ kv, f kv.2 = false) M.

Lemma filtered_values f M : filter (λ tx, f tx = true) (map_to_list M).*2 ≡ₚ (map_to_list (filtered f M)).*2.
Proof.
  unfold filtered. rewrite map_filter_alt, map_to_list_to_map.
  - induction (map_to_list M) as [|[n tx] l IH]; [done|]. cbn [fmap list_fmap fst snd]. rewrite !filter_cons. cbn [snd].
    destruct (decide (f tx = true)); [by rewrite fmap_cons, IH|done].
  - apply NoDup_fmap_fst; [|apply NoDup_filter, NoDup_map_to_list].
    intros n x y [_ H1%elem_of_map_to_list]%list_elem_of_filter [_ H2%elem_of_map_to_list]%list_elem_of_filter. congruence.
Qed.

Lemma Filter_ok m f : sorted_ok m →
  (sorted_Filter f m).1 ≡ₚ by_nonce (filtered f (tm_items m)) ∧ sorted_ok (sorted_Filter f m).2 ∧
  tm_items (sorted_Filter f m).2 = unfiltered f (tm_items m).
Proof.
  intros Hm. pose proof (filtered_values f (tm_items m)) as Hv. unfold sorted_Filter.
  assert (by_nonce (filtered f (tm_items m)) ≡ₚ filter (λ tx, f tx = true) (map_to_list (tm_items m)).*2) as Hp
    by (unfold by_nonce; by rewrite merge_sort_Permutation, Hv).
  destruct (filter (λ tx, f tx = true) _) as [|tx l] eqn:E; cbn [fst snd tm_items]; (split; [by rewrite Hp|]).
  - split; [done|]. symmetry. apply map_filter_id. intros n tx En. cbn. destruct (f tx) eqn:Ef; [|done]. exfalso.
    assert (tx ∈ @nil Transaction) as H%elem_of_nil; [|done]. rewrite <- E. apply list_elem_of_filter. split; [done|].
    apply list_elem_of_fmap. exists (n, tx). split; [done|]. by apply elem_of_map_to_list.
  - split; [|done]. destruct (heap_Init_spec nonce_less (map_to_list (unfiltered f (tm_items m))).*1) as [P H].
    split; [apply keyed_filter, Hm|exact H|exact P|done].
Qed.

Lemma indexed_heap M index : keyed M → index ≡ₚ tx_AccountNonce <$> by_nonce M → is_heap nonce_less index → indexed M index.
Proof. intros Hk P Hh. split; [done..|]. by rewrite P, by_nonce_nonces. Qed.

(** The index, sorted, is the list of nonces. *)
Lemma index_sorted m : sorted_ok m → merge_sort Z.le (tm_index m) = tx_AccountNonce <$> by_nonce (tm_items m).
Proof.
  intros Hm. assert (∀ l, StronglySorted nonce_le l → StronglySorted Z.le (tx_AccountNonce <$> l)) as Hl.
  { induction 1 as [|x l _ IH Hx]; [constructor|]. rewrite fmap_cons. constructor; [done|]. apply Forall_fmap. exact Hx. }
  apply (StronglySorted_unique Z.le).
  - apply Sorted_StronglySorted; [apply _|]. apply Sorted_merge_sort. apply _.
  - apply Hl, by_nonce_sorted.
  - rewrite merge_sort_Permutation, (sm_index m Hm), by_nonce_nonces by apply Hm. done.
Qed.

Lemma cap_loop_spec d : ∀ M index l r, keyed M → by_nonce M = l → index = (tx_AccountNonce <$> l) ++ r → (d ≤ length l)%nat →
  ∃ M', cap_loop d (length l) index M = Some (Some <$> reverse (drop (length l - d) l), M') ∧ keyed M' ∧ by_nonce M' = take (length l - d) l.
Proof.
  induction d as [|d IH]; intros M index l r Hk El Ei Hd.
  { exists M. rewrite Nat.sub_0_r, drop_all, take_ge by lia. done. }
  destruct l as [|tx l _] using rev_ind; [cbn in Hd; lia|]. rewrite length_app in *. cbn [length] in *.
  destruct (by_nonce_snoc M l tx Hk El) as [Etx Eb]. cbn [cap_loop]. replace (length l + 1 - 1)%nat with (length l) by lia.
  unfold nonceHeap in *. assert (index !! length l = Some (tx_AccountNonce tx)) as ->.
  { rewrite Ei, fmap_app, <- app_assoc, lookup_app_r; rewrite length_fmap; [|done]. by rewrite Nat.sub_diag. }
  cbn [mbind option_bind]. destruct (IH (delete (tx_AccountNonce tx) M) index l (tx_AccountNonce tx :: r) (keyed_delete _ _ Hk) Eb) as (M' & E & Hk' & Eb').
  { by rewrite Ei, fmap_app, <- app_assoc. }
  { lia. }
  rewrite E. cbn [mbind option_bind]. exists M'. replace (length l + 1 - S d)%nat with (length l - d)%nat by lia.
  rewrite drop_app_le, take_app_le by lia. split_and!; [|done..]. by rewrite reverse_app, Etx.
Qed.

Lemma Cap_ok m k : sorted_ok m →
  ∃ drops m', sorted_Cap k m = Some (Some <$> drops, m') ∧ sorted_ok m' ∧
    drops = reverse (drop k (by_nonce (tm_items m))) ∧ tm_items m' = of_list (take k (by_nonce (tm_items m))).
Proof.
  intros Hm. pose proof Hm as [Hk _ _ Hc]. unfold sorted_Cap. pose proof (by_nonce_length (tm_items m)) as Hsz. destruct (Nat.leb_spec (size (tm_items m)) k) as [Hle|Hlt].
  { exists [], m. rewrite drop_ge, take_ge by lia. split_and!; [done..|]. by rewrite of_by_nonce. }
  rewrite index_sorted by done. set (l := by_nonce (tm_items m)) in *.
  destruct (cap_loop_spec (size (tm_items m) - k) (tm_items m) (tx_AccountNonce <$> l) l [] Hk eq_refl) as (M' & E & Hk' & Eb'); [by rewrite app_nil_r|lia|].
  rewrite Hsz in E, Eb'. replace (size (tm_items m) - (size (tm_items m) - k))%nat with k in * by lia.
  rewrite E. cbn [mbind option_bind]. rewrite length_fmap. rewrite (proj2 (Nat.ltb_ge _ _)) by lia. rewrite length_fmap, length_reverse, length_drop.
  assert (M' = of_list (take k l)) as EM by (by rewrite <- Eb', of_by_nonce).
  destruct (heap_Init_spec nonce_less (take k (tx_AccountNonce <$> l))) as [P H].
  assert (indexed M' (heap_Init nonce_less (take k (tx_AccountNonce <$> l)))) as Hx.
  { apply indexed_heap; [done| |done]. by rewrite P, Eb', fmap_take. }
  destruct (tm_cache m) as [c|] eqn:Ec.
  - rewrite (Hc c eq_refl). fold l. unfold slice_but. rewrite (proj2 (Nat.ltb_ge _ _)) by lia. cbn [mbind option_bind].
    replace (length l - (length l - k))%nat with k by lia. eexists _, _. split; [done|]. split; [|done].
    destruct Hx. split; [done..|]. intros ? [= <-]. cbn [tm_items]. by rewrite Eb'.
  - cbn [mbind option_bind]. eexists _, _. split; [done|]. split; [|done]. destruct Hx. by split.
Qed.

Lemma Remove_ok m n : sorted_ok m →
  ∃ m', sorted_Remove n m = Some (bool_decide (is_Some (tm_items m !! n)), m') ∧ sorted_ok m' ∧ tm_items m' = delete n (tm_items m).
Proof.
  intros Hm. unfold sorted_Remove. destruct (tm_items m !! n) as [tx|] eqn:E; cycle 1.
  { exists m. split_and!; [done..|]. by rewrite delete_id. }
  destruct (list_find (λ k, k = n) (tm_index m)) as [[i k]|] eqn:Ef; cycle 1.
  { apply list_find_None in Ef. rewrite Forall_forall in Ef. destruct (Ef n); [|done]. apply (elem_index _ _ _ (sorted_indexed m Hm)). by rewrite E. }
  apply list_find_Some in Ef as (Ei & -> & _).
  destruct (heap_Remove_spec nonce_less (tm_index m) i n (sm_heap m Hm) Ei) as (index' & -> & Hh & P). cbn [fmap option_fmap option_map mbind option_bind snd].
  destruct (delete_indexed _ _ _ _ (sorted_indexed m Hm) Hh P). eexists. split; [done|]. split; [|done]. by split.
Qed.

(** The transactions with the nonces [next], [next + 1], ... at the front. *)
Fixpoint consecutive (next : Z) (l : list Transaction) : list Transaction :=
  match l with
  | [] => []
  | tx :: l => if tx_AccountNonce tx =? next then tx :: consecutive (add64 next 1) l else []
  end.

Lemma ready_loop_spec fuel : ∀ next M index, indexed M index → (length index ≤ fuel)%nat →
  ∃ M' index', ready_loop fuel next M index = Some (Some <$> consecutive next (by_nonce M), M', index') ∧ indexed M' index' ∧
    by_nonce M' = drop (length (consecutive next (by_nonce M))) (by_nonce M).
Proof.
  induction fuel as [|fuel IH]; intros next M [|n index] Hx Hf; cbn [length] in Hf; try lia.
  1, 2: apply indexed_nil in Hx as Hm; subst M; by exists ∅, [].
  cbn [ready_loop]. destruct (pop_indexed M n index Hx) as (tx & index1 & Ep & Etx & Hx1 & El & Eb). rewrite Eb. cbn [consecutive].
  destruct (ix_keyed _ _ Hx n tx Etx) as [-> _]. destruct (Z.eqb_spec n next) as [<-|Hne].
  - rewrite Ep. cbn [mbind option_bind]. destruct (IH (add64 n 1) (delete n M) index1 Hx1 ltac:(lia)) as (M' & index2 & E2 & Hx2 & Eb2).
    rewrite E2. cbn [mbind option_bind]. exists M', index2. rewrite Etx. by split_and!.
  - exists M, (n :: index). by split_and!.
Qed.

Lemma Ready_ok m start : sorted_ok m →
  let l := by_nonce (tm_items m) in
  let ready := match l with tx :: _ => if start <? tx_AccountNonce tx then [] else consecutive (tx_AccountNonce tx) l | [] => [] end in
  ∃ m', sorted_Ready start m = Some (Some <$> ready, m') ∧ sorted_ok m' ∧ tm_items m' = of_list (drop (length ready) l).
Proof.
  intros Hm l ready. pose proof (sorted_indexed m Hm) as Hx. unfold sorted_Ready. destruct (tm_index m) as [|n index] eqn:Ei.
  { apply indexed_nil in Hx as E. assert (ready = []) as -> by (unfold ready, l; by rewrite E). exists m. split_and!; [done..|].
    symmetry. apply (of_by_nonce (tm_items m)), Hm. }
  destruct (pop_indexed _ n index Hx) as (tx & index1 & _ & Etx & _ & _ & Eb). destruct (sm_keyed m Hm n tx Etx) as [En _].
  assert (ready = if start <? n then [] else consecutive n l) as -> by (unfold ready, l; by rewrite Eb, En).
  destruct (start <? n).
  { exists m. split_and!; [done..|]. symmetry. apply (of_by_nonce (tm_items m)), Hm. }
  destruct (ready_loop_spec (length (n :: index)) n _ _ Hx ltac:(done)) as (M' & index' & E & Hx' & Eb'). rewrite E. cbn [mbind option_bind].
  eexists. split; [done|]. destruct Hx' as [Hk' Hh' Hp']. split; [by split|]. cbn [tm_items]. unfold l. by rewrite <- Eb', of_by_nonce.
Qed.

Lemma Flatten_ok m : sorted_ok m →
  (sorted_Flatten m).1 = by_nonce (tm_items m) ∧ sorted_ok (sorted_Flatten m).2 ∧ tm_items (sorted_Flatten m).2 = tm_items m.
Proof.
  intros [Hk Hh Hi Hc]. unfold sorted_Flatten. assert (default (by_nonce (tm_items m)) (tm_cache m) = by_nonce (tm_items m)) as E.
  { destruct (tm_cache m) as [l|] eqn:E; [by apply Hc|done]. }
  unfold by_nonce in E at 1. rewrite E. cbn [fst snd tm_items]. split_and!; [done| |done]. by split; [..|intros ? [= <-]].
Qed.

(** ** The sorted map is a map *)

Inductive map_op :=
| MPut (tx : Transaction)
| MForward (threshold : Z)
| MFilter (f : Transaction → bool)
| MCap (threshold : nat)
| MRemove (nonce : Z)
| MReady (start : Z)
| MFlatten.

(** What an operation returns: transactions, which may be [nil], or whether one was there. *)
Definition map_output : Type := list (option Transaction) + bool.

Definition run_map_op (o : map_op) (m : txSortedMap) : option (map_output * txSortedMap) :=
  match o with
  | MPut tx => Some (inl [], Put tx m)
  | MForward t => '(l, m) ← Forward t m; Some (inl l, m)
  | MFilter f => let '(l, m) := sorted_Filter f m in Some (inl (Some <$> l), m)
  | MCap k => '(l, m) ← sorted_Cap k m; Some (inl l, m)
  | MRemove n => '(b, m) ← sorted_Remove n m; Some (inr b, m)
  | MReady start => '(l, m) ← sorted_Ready start m; Some (inl l, m)
  | MFlatten => let '(l, m) := sorted_Flatten m in Some (inl (Some <$> l), m)
  end.

Fixpoint run_map_ops (ops : list map_op) (m : txSortedMap) : option (list map_output * txSortedMap) :=
  match ops with
  | [] => Some ([], m)
  | o :: ops => '(out, m) ← run_map_op o m; '(outs, m) ← run_map_ops ops m; Some (out :: outs, m)
  end.

(** The same on a map from nonces to transactions. *)
Definition ready_txs (start : Z) (M : gmap Z Transaction) : list Transaction :=
  match by_nonce M with
  | tx :: _ => if start <? tx_AccountNonce tx then [] else consecutive (tx_AccountNonce tx) (by_nonce M)
  | [] => []
  end.

Definition spec_map_op (o : map_op) (M : gmap Z Transaction) : (list Transaction + bool) * gmap Z Transaction :=
  match o with
  | MPut tx => (inl [], <[tx_AccountNonce tx := tx]> M)
  | MForward t => (inl (by_nonce (lower t M)), upper t M)
  | MFilter f => (inl (by_nonce (filtered f M)), unfiltered f M)
  | MCap k => (inl (reverse (drop k (by_nonce M))), of_list (take k (by_nonce M)))
  | MRemove n => (inr (bool_decide (is_Some (M !! n))), delete n M)
  | MReady start => (inl (ready_txs start M), of_list (drop (length (ready_txs start M)) (by_nonce M)))
  | MFlatten => (inl (by_nonce M), M)
  end.

Fixpoint spec_map_ops (ops : list map_op) (M : gmap Z Transaction) : list (list Transaction + bool) * gmap Z Transaction :=
  match ops with
  | [] => ([], M)
  | o :: ops => let '(out, M) := spec_map_op o M in let '(outs, M) := spec_map_ops ops M in (out :: outs, M)
  end.

(** The same answer; the order of what [Filter] removes is that of an iteration over a Go
    map. *)
Definition answers (o : map_op) (out : map_output) (spec : list Transaction + bool) : Prop :=
  match o, out, spec with
  | MFilter _, inl l, inl l' => l ≡ₚ Some <$> l'
  | MFilter _, _, _ => False
  | _, inl l, inl l' => l = Some <$> l'
  | _, inr b, inr b' => b = b'
  | _, _, _ => False
  end.

Definition map_op_ok (o : map_op) : Prop := match o with MPut tx => is_u64 (tx_AccountNonce tx) | _ => True end.

Lemma run_map_op_ok o m : sorted_ok m → map_op_ok o →
  ∃ out m', run_map_op o m = Some (out, m') ∧ sorted_ok m' ∧ answers o out (spec_map_op o (tm_items m)).1 ∧
    tm_items m' = (spec_map_op o (tm_items m)).2.
Proof.
  intros Hm Ho. destruct o; cbn [run_map_op spec_map_op map_op_ok answers fst snd] in *.
  - destruct (sorted_Put_ok m tx Hm Ho). by eexists _, _.
  - destruct (Forward_ok m threshold Hm) as (m' & -> & ? & ?). by eexists _, _.
  - destruct (Filter_ok m f Hm) as (P & ? & ?). destruct (sorted_Filter f m) as [l m']. cbn [fst snd] in *. eexists _, _. split_and!; [done..| |done].
    cbn [answers]. by rewrite P.
  - destruct (Cap_ok m threshold Hm) as (drops & m' & -> & ? & -> & ?). by eexists _, _.
  - destruct (Remove_ok m nonce Hm) as (m' & -> & ? & ?). by eexists _, _.
  - destruct (Ready_ok m start Hm) as (m' & -> & ? & ?). by eexists _, _.
  - destruct (Flatten_ok m Hm) as (E & ? & ?). destruct (sorted_Flatten m) as [l m']. cbn [fst snd] in *. subst l. by eexists _, _.
Qed.

(** C25. The sorted map of the pool is a map from nonces to transactions.  Whatever sequence
    of operations runs on it, no operation panics, and its answers and its content are those
    of the operations on a plain map: [Forward] gives the transactions below the threshold,
    [Cap] those beyond the limit from the highest nonce down, [Ready] the ones whose nonces
    follow each other from the lowest on, [Flatten] all of them, in the order of their nonces,
    whatever the heap and the cache of the sorted order are in between; none of the
    transactions that are returned is nil. *)
Theorem sorted_map_refines ops : Forall map_op_ok ops →
  ∃ outs m, run_map_ops ops newTxSortedMap = Some (outs, m) ∧
    Forall2 (λ '(o, out) spec, answers o out spec) (zip ops outs) (spec_map_ops ops ∅).1 ∧ length outs = length ops ∧
    tm_items m = (spec_map_ops ops ∅).2.
Proof.
  change ∅ with (tm_items newTxSortedMap). generalize new_ok. generalize newTxSortedMap. intros m Hm Hall. revert m Hm.
  induction Hall as [|o ops Ho _ IH]; intros m Hm.
  { exists [], m. by repeat split. }
  destruct (run_map_op_ok o m Hm Ho) as (out & m1 & E1 & Hm1 & Ha & Ei). destruct (IH m1 Hm1) as (outs & m2 & E2 & Hall2 & El & Ei2).
  cbn [run_map_ops spec_map_ops]. rewrite E1. cbn [mbind option_bind]. rewrite E2. cbn [mbind option_bind].
  destruct (spec_map_op o (tm_items m)) as [spec M]. cbn [fst snd] in *. subst M.
  destruct (spec_map_ops ops (tm_items m1)) as [specs M']. cbn [fst snd] in *. exists (out :: outs), m2.
  split_and!; [done|by constructor|cbn [length]; by rewrite El|done].
Qed.

(** ** The list of an account *)

Section list.
Context `{CR : Crypto} `{PR : Primitives} `{SG : Secp256k1} `{SD : StateDatabase} (db : Database) (From : Transaction → Address).
Abbreviation removes := (removes db From).
Abbreviation list_Filter := (list_Filter db From).

(** A computation that only reads returns. *)
Definition answering {A : Type} (m : X A) : Prop := ∀ e, ∃ a e', m e = Done a e'.

Lemma answering_ret {A : Type} (a : A) : answering (mret a).
Proof. intros e. by exists a, e. Qed.
Lemma answering_reading {A : Type} (f : StateDB → A * StateDB) : answering (reading f).
Proof. intros e. unfold reading. destruct (f (ev_StateDB e)) as [a d]. by eexists _, _. Qed.
Lemma answering_bind {A B : Type} (m : X A) (k : A → X B) : answering m → (∀ a, answering (k a)) → answering (m ≫= k).
Proof. intros Hm Hk e. destruct (Hm e) as (a & e1 & E). unfold mbind, X_bind. rewrite E. apply Hk. Qed.

Local Ltac answers_tac :=
  repeat first [ apply answering_ret | apply answering_reading | apply answering_bind; [|intros ?] | case_match ].

Lemma tooExpensive_answers costLimit gasLimit tx : answering (tooExpensive db From costLimit gasLimit tx).
Proof.
  unfold tooExpensive, ValidatePayByContract, IsCallContract, CreatorOrSelf, GetMaxGasPrice, GetGasLimit, getMaxGasPrice, StateTransition.gasLimit, model, isWhite, isBlack,
    listed, authority, CreatorOrSelf. answers_tac.
Qed.

Lemma removes_own s c g tx : tx_GasLimit tx ≠ 0 → removes s c g tx = (c <? Transaction_Cost tx) || (g <? Transaction_Gas tx).
Proof. intros Hn. unfold removes, TxList.removes, tooExpensive. by rewrite (proj2 (Z.eqb_neq _ _) Hn). Qed.

Lemma kept_amount s c g tx : tx_GasLimit tx = 0 → removes s c g tx = false → tx_Amount tx ≤ c.
Proof.
  intros E0. unfold removes, TxList.removes. destruct (tooExpensive_answers c g tx (NewEVM s)) as (b & e & E). rewrite E. intros ->.
  revert E. unfold tooExpensive. rewrite E0. cbn [Z.eqb]. unfold mbind, X_bind. destruct (ValidatePayByContract _ _ _ _) as [[err|[limit to]] e1| | |]; try done.
  destruct (CreatorOrSelf _ _ _) as [creator e2| | |]; try done. destruct (reading _ _) as [balance e3| | |]; try done.
  destruct (GetGasLimit _ _ _) as [gas e4| | |]; try done. intros [= E _]. apply orb_false_iff in E as [[_ E]%orb_false_iff _]. by apply Z.ltb_ge in E.
Qed.

(** The bounds of a list: no transaction costs more than [costcap], none that pays for its
    own gas has more gas than [gascap]. *)
Record list_ok (l : txList) : Prop := {
  lo_sorted : sorted_ok (tl_txs l);
  lo_cost : ∀ n tx, tm_items (tl_txs l) !! n = Some tx → Transaction_Cost tx ≤ tl_costcap l;
  lo_gas : ∀ n tx, tm_items (tl_txs l) !! n = Some tx → tx_GasLimit tx ≠ 0 → Transaction_Gas tx ≤ tl_gascap l
}.

(** No nonce is missing between two that are there. *)
Definition gapless (M : gmap Z Transaction) : Prop := ∀ i j k, i ≤ j ≤ k → is_Some (M !! i) → is_Some (M !! k) → is_Some (M !! j).

Lemma gapless_lower t M : gapless M → gapless (lower t M).
Proof.
  intros Hg i j k Hj [x [Ex _]%map_lookup_filter_Some] [y [Ey Hk]%map_lookup_filter_Some]. cbn in Hk.
  destruct (Hg i j k Hj ltac:(by eexists) ltac:(by eexists)) as [z Ez]. exists z. apply map_lookup_filter_Some. cbn. split; [done|lia].
Qed.

Lemma gapless_upper t M : gapless M → gapless (upper t M).
Proof.
  intros Hg i j k Hj [x [Ex Hi]%map_lookup_filter_Some] [y [Ey _]%map_lookup_filter_Some]. cbn in Hi.
  destruct (Hg i j k Hj ltac:(by eexists) ltac:(by eexists)) as [z Ez]. exists z. apply map_lookup_filter_Some. cbn. split; [done|lia].
Qed.

(** A list that has fewer transactions keeps its bounds. *)
Lemma list_ok_sub l m c g : list_ok l → sorted_ok m → tm_items m ⊆ tm_items (tl_txs l) → c = tl_costcap l → g = tl_gascap l →
  list_ok (mkTxList (tl_strict l) m c g).
Proof.
  intros [_ H1 H2] Hm Hs -> ->. split; [done|intros n tx E..]; cbn in *; [eapply H1|eapply H2]; by eapply lookup_weaken.
Qed.

Lemma lowest_spec l : Forall (λ tx, is_u64 (tx_AccountNonce tx)) l → l ≠ [] →
  (∃ tx, tx ∈ l ∧ tx_AccountNonce tx = lowest l) ∧ ∀ tx, tx ∈ l → lowest l ≤ tx_AccountNonce tx.
Proof.
  intros Hl Hne. unfold lowest.
  assert (∀ l low, Forall (λ tx, is_u64 (tx_AccountNonce tx)) l → let r := foldl (λ low tx, if tx_AccountNonce tx <? low then tx_AccountNonce tx else low) low l in
    r ≤ low ∧ (∀ tx, tx ∈ l → r ≤ tx_AccountNonce tx) ∧ (r = low ∨ ∃ tx, tx ∈ l ∧ tx_AccountNonce tx = r)) as H.
  { clear l Hl Hne. intros l. induction l as [|x l IH]; intros low Hl; cbn [foldl].
    - split_and!; [done|by intros ? ?%elem_of_nil|by left].
    - apply Forall_cons in Hl as [Hx Hl]. destruct (IH (if tx_AccountNonce x <? low then tx_AccountNonce x else low) Hl) as (H1 & H2 & H3). cbn zeta in *.
      set (r := foldl _ _ _) in *. destruct (Z.ltb_spec (tx_AccountNonce x) low).
      + split_and!; [lia| |right; destruct H3 as [->|(t & ? & ?)]; [exists x; split; [by left|done]|exists t; split; [by right|done]]].
        intros t [->|Ht]%elem_of_cons; [done|by apply H2].
      + split_and!; [done| |destruct H3 as [->|(t & ? & ?)]; [by left|right; exists t; split; [by right|done]]].
        intros t [->|Ht]%elem_of_cons; [lia|by apply H2]. }
  destruct (H l (2 ^ 64 - 1) Hl) as (H1 & H2 & H3). cbn zeta in *. set (r := foldl _ _ _) in *. split; [|done].
  destruct H3 as [E|]; [|done]. destruct l as [|x l]; [done|]. exists x. split; [by left|]. pose proof (H2 x (list_elem_of_here _ _)).
  apply Forall_cons in Hl as [[_ Hx] _]. lia.
Qed.

Lemma unfiltered_negb f M : unfiltered f M = filtered (λ tx, negb (f tx)) M.
Proof. apply map_filter_ext. intros n tx _. cbn. by rewrite negb_true_iff. Qed.

Lemma by_nonce_split f M : by_nonce (filtered f M) ++ by_nonce (unfiltered f M) ≡ₚ by_nonce M.
Proof.
  rewrite unfiltered_negb. unfold by_nonce. rewrite !merge_sort_Permutation, <- !filtered_values.
  induction (map_to_list M).*2 as [|tx l IH]; [done|]. rewrite !filter_cons. destruct (f tx) eqn:E; cbn [negb].
  - rewrite decide_True, decide_False by done. cbn. by rewrite IH.
  - rewrite decide_False, decide_True by done. by rewrite <- Permutation_middle, IH.
Qed.

(** What is left when everything above the lowest removed transaction is removed too. *)
Lemma strict_rest f M removed : keyed M → removed ≡ₚ by_nonce (filtered f M) → removed ≠ [] →
  unfiltered (λ tx, lowest removed <? tx_AccountNonce tx) (unfiltered f M) = lower (lowest removed) M.
Proof.
  intros Hk P Hne. pose proof (keyed_filter (λ kv : Z * Transaction, f kv.2 = true) M Hk) as Hkf. fold (filtered f M) in Hkf.
  assert (∀ tx, tx ∈ removed ↔ M !! tx_AccountNonce tx = Some tx ∧ f tx = true) as Hin.
  { intros tx. rewrite P, elem_by_nonce by done. unfold filtered. by rewrite map_lookup_filter_Some. }
  destruct (lowest_spec removed) as [(t & Ht & El) Hmin]; [|done|].
  { apply Forall_forall. intros tx [E _]%Hin. by destruct (Hk _ _ E). }
  set (low := lowest removed) in *. apply map_eq. intros n. apply option_eq. intros tx. unfold unfiltered, lower. rewrite !map_lookup_filter_Some. cbn.
  split.
  - intros [[E Ef] Hn%Z.ltb_ge]. destruct (Hk n tx E) as [En _]. split; [done|]. apply Hin in Ht as [Et Eft]. rewrite El in Et.
    assert (n ≠ low) by (intros ->; congruence). lia.
  - intros [E Hn]. destruct (Hk n tx E) as [En _]. split_and!; [done| |apply Z.ltb_ge; lia].
    destruct (f tx) eqn:Ef; [|done]. pose proof (Hmin tx ltac:(apply Hin; by rewrite En)). lia.
Qed.

Definition filter_post (c g : Z) (l l' : txList) (removed invalids : list Transaction) : Prop :=
  list_ok l' ∧ removed ++ invalids ++ by_nonce (tm_items (tl_txs l')) ≡ₚ by_nonce (tm_items (tl_txs l)) ∧
  (∀ n tx, tm_items (tl_txs l') !! n = Some tx → tx_GasLimit tx ≠ 0 → Transaction_Cost tx ≤ c ∧ Transaction_Gas tx ≤ g) ∧
  (tl_strict l = true → gapless (tm_items (tl_txs l)) → gapless (tm_items (tl_txs l'))).

Lemma list_Filter_ok s c g l : list_ok l →
  let '(removed, invalids, l') := list_Filter s c g l in filter_post c g l l' removed invalids ∧ ∀ tx, tx ∈ removed → removes s c g tx = true.
Proof.
  intros Hl. pose proof Hl as [Hm H1 H2]. unfold list_Filter, TxList.list_Filter, filter_post. destruct (_ && _) eqn:Eb.
  { apply andb_true_iff in Eb as [?%Z.leb_le ?%Z.leb_le]. split; [|by intros ? ?%elem_of_nil]. split_and!; [done..| |done].
    intros n tx E Hn. specialize (H1 n tx E). specialize (H2 n tx E Hn). lia. }
  clear Eb. pose proof (Filter_ok (tl_txs l) (removes s c g) Hm) as (P & Hm' & Ei).
  destruct (sorted_Filter (removes s c g) (tl_txs l)) as [removed m]. cbn [fst snd] in *. set (M := tm_items (tl_txs l)) in *.
  pose proof (sm_keyed _ Hm) as Hk. fold M in Hk.
  assert (∀ tx, tx ∈ removed → removes s c g tx = true) as Hr.
  { intros tx. rewrite P, elem_by_nonce by by apply keyed_filter. by intros [_ ?]%map_lookup_filter_Some. }
  assert (∀ m', sorted_ok m' → tm_items m' ⊆ tm_items m → list_ok (mkTxList (tl_strict l) m' c g) ∧
    ∀ n tx, tm_items m' !! n = Some tx → tx_GasLimit tx ≠ 0 → Transaction_Cost tx ≤ c ∧ Transaction_Gas tx ≤ g) as Hok.
  { intros m' Hs Hsub. assert (∀ n tx, tm_items m' !! n = Some tx → removes s c g tx = false) as Hkept.
    { intros n tx E. pose proof (lookup_weaken _ _ _ _ E Hsub) as E'. rewrite Ei in E'. by apply map_lookup_filter_Some in E' as [_ ?]. }
    assert (∀ n tx, tm_items m' !! n = Some tx → tx_GasLimit tx ≠ 0 → Transaction_Cost tx ≤ c ∧ Transaction_Gas tx ≤ g) as Hb.
    { intros n tx E Hn. specialize (Hkept n tx E). rewrite removes_own in Hkept by done. apply orb_false_iff in Hkept as [?%Z.ltb_ge ?%Z.ltb_ge]. done. }
    split; [|done]. split; [done| |intros n tx E Hn; by destruct (Hb n tx E Hn)]. intros n tx E. cbn [tl_costcap].
    destruct (decide (tx_GasLimit tx = 0)) as [E0|Hn]; [|by destruct (Hb n tx E Hn)].
    unfold Transaction_Cost. rewrite E0, Z.mul_0_r. by apply (kept_amount s c g tx E0), Hkept with n. }
  destruct removed as [|t removed].
  { destruct (Hok m Hm' ltac:(done)) as [? ?]. split; [|done]. split_and!; [done| |done|].
    - cbn [tl_txs app]. rewrite Ei. by rewrite <- (by_nonce_split (removes s c g) M), <- P.
    - intros _ Hg. cbn [tl_txs]. rewrite Ei. replace (unfiltered (removes s c g) M) with M; [done|]. symmetry. apply map_filter_id. intros n tx E. cbn.
      destruct (removes s c g tx) eqn:Er; [|done]. exfalso. assert (tx ∈ @nil Transaction) as ?%elem_of_nil; [|done]. rewrite P. apply elem_by_nonce; [by apply keyed_filter|].
      apply map_lookup_filter_Some. destruct (Hk n tx E) as [-> _]. done. }
  destruct (tl_strict l) eqn:Es.
  - set (r := t :: removed) in *. pose proof (Filter_ok m (λ tx, lowest r <? tx_AccountNonce tx) Hm') as (P2 & Hm2 & Ei2).
    destruct (sorted_Filter _ m) as [invalids m2]. cbn [fst snd] in *. destruct (Hok m2 Hm2) as [? ?]; [rewrite Ei2; apply map_filter_subseteq|].
    split; [|done]. split_and!; [done| |done|].
    + cbn [tl_txs]. rewrite Ei2, P2, (by_nonce_split (λ tx, lowest r <? tx_AccountNonce tx) (tm_items m)), Ei, P. apply by_nonce_split.
    + intros _ Hg. cbn [tl_txs]. rewrite Ei2, Ei, (strict_rest _ M r); [by apply gapless_lower|done|done|done].
  - destruct (Hok m Hm' ltac:(done)) as [? ?]. split; [|done]. split_and!; [done| |done|done].
    cbn [tl_txs]. rewrite app_nil_l, Ei, P. apply by_nonce_split.
Qed.

Lemma new_list_ok strict : list_ok (newTxList strict).
Proof. split; [exact new_ok|by intros n tx ?..]. Qed.

Lemma list_Add_ok tx bump l : list_ok l → is_u64 (tx_AccountNonce tx) → list_ok (list_Add tx bump l).2.
Proof.
  intros [Hm H1 H2] Hn. unfold list_Add. destruct (match sorted_Get _ _ with Some _ => _ | None => _ end); [done|]. cbn [snd].
  destruct (sorted_Put_ok (tl_txs l) tx Hm Hn) as [Hm' Ei].
  split; cbn [tl_txs tl_costcap tl_gascap]; [done|rewrite Ei; intros n t [[_ <-]|[_ E]]%lookup_insert_Some..].
  - destruct (Z.ltb_spec (tl_costcap l) (Transaction_Cost tx)); lia.
  - specialize (H1 n t E). destruct (Z.ltb_spec (tl_costcap l) (Transaction_Cost tx)); lia.
  - intros _. destruct (Z.ltb_spec (tl_gascap l) (Transaction_Gas tx)); lia.
  - intros Ht. specialize (H2 n t E Ht). destruct (Z.ltb_spec (tl_gascap l) (Transaction_Gas tx)); lia.
Qed.

Inductive list_op :=
| LAdd (tx : Transaction) (priceBump : Z)
| LForward (threshold : Z)
| LFilter (s : StateDB) (costLimit gasLimit : Z)
| LCap (threshold : nat)
| LRemove (tx : Transaction)
| LReady (start : Z)
| LFlatten.

Definition run_list_op (o : list_op) (l : txList) : option txList :=
  match o with
  | LAdd tx bump => Some (list_Add tx bump l).2
  | LForward t => snd <$> list_Forward t l
  | LFilter s c g => Some (list_Filter s c g l).2
  | LCap k => snd <$> list_Cap k l
  | LRemove tx => snd <$> list_Remove tx l
  | LReady n => snd <$> list_Ready n l
  | LFlatten => Some (list_Flatten l).2
  end.

Fixpoint run_list_ops (ops : list list_op) (l : txList) : option txList :=
  match ops with [] => Some l | o :: ops => l ← run_list_op o l; run_list_ops ops l end.

Definition list_op_ok (o : list_op) : Prop := match o with LAdd tx _ => is_u64 (tx_AccountNonce tx) | _ => True end.

Lemma of_list_sub M l1 l2 : keyed M → by_nonce M = l1 ++ l2 → of_list l1 ⊆ M ∧ of_list l2 ⊆ M.
Proof.
  intros Hk E. assert (∀ l n tx, of_list l !! n = Some tx → tx ∈ l ∧ tx_AccountNonce tx = n) as Hl.
  { intros l n tx H%elem_of_list_to_map_2. apply list_elem_of_fmap in H as (t & [= -> ->] & ?). done. }
  split; apply map_subseteq_spec; intros n tx [Hin <-]%Hl; apply elem_by_nonce; rewrite ?E; set_solver.
Qed.

Lemma run_list_op_ok o l : list_ok l → list_op_ok o → ∃ l', run_list_op o l = Some l' ∧ list_ok l' ∧ tl_strict l' = tl_strict l.
Proof.
  intros Hl Ho. pose proof (lo_sorted _ Hl) as Hm. pose proof (sm_keyed _ Hm) as Hk. destruct o; cbn [run_list_op list_op_ok] in *.
  - eexists. split; [done|]. split; [by apply list_Add_ok|]. unfold list_Add. by destruct (match sorted_Get _ _ with Some _ => _ | None => _ end).
  - unfold list_Forward, on_txs. destruct (Forward_ok (tl_txs l) threshold Hm) as (m' & -> & ? & Ei). eexists. split; [done|]. split; [|done].
    apply list_ok_sub; try done. rewrite Ei. apply map_filter_subseteq.
  - pose proof (list_Filter_ok s costLimit gasLimit l Hl) as H. eexists. split; [done|].
    unfold list_Filter, TxList.list_Filter in *. repeat (case_match; simplify_eq/=; try (by destruct H as [[? _] _])).
  - unfold list_Cap, on_txs. destruct (Cap_ok (tl_txs l) threshold Hm) as (d & m' & -> & ? & _ & Ei). eexists. split; [done|]. split; [|done].
    apply list_ok_sub; try done. rewrite Ei. eapply (proj1 (of_list_sub _ _ _ Hk (eq_sym (take_drop threshold _)))).
  - unfold list_Remove. destruct (Remove_ok (tl_txs l) (tx_AccountNonce tx) Hm) as (m' & -> & Hm' & Ei). cbn [mbind option_bind tl_strict].
    assert (tm_items m' ⊆ tm_items (tl_txs l)) as Hs by (rewrite Ei; apply delete_subseteq). destruct (negb _); [eexists; split; [done|]; split; [|done]; by apply list_ok_sub|].
    destruct (tl_strict l) eqn:Es; [|eexists; split; [done|]; split; [rewrite <- Es; by apply list_ok_sub|done]].
    pose proof (Filter_ok m' (λ t, tx_AccountNonce tx <? tx_AccountNonce t) Hm') as (_ & Hm2 & Ei2). destruct (sorted_Filter _ m') as [inv m2]. cbn [fst snd] in *.
    eexists. split; [done|]. split; [|done]. cbn [snd]. rewrite <- Es. apply list_ok_sub; try done. rewrite Ei2. etrans; [apply map_filter_subseteq|done].
  - unfold list_Ready, on_txs. destruct (Ready_ok (tl_txs l) start Hm) as (m' & -> & ? & Ei). eexists. split; [done|]. split; [|done].
    apply list_ok_sub; try done. rewrite Ei. eapply (proj2 (of_list_sub _ _ _ Hk (eq_sym (take_drop _ _)))).
  - unfold list_Flatten. destruct (Flatten_ok (tl_txs l) Hm) as (_ & ? & Ei). destruct (sorted_Flatten (tl_txs l)) as [txs m]. cbn [fst snd] in *.
    eexists. split; [done|]. split; [|done]. apply list_ok_sub; try done. by rewrite Ei.
Qed.

Lemma of_list_elem l n : is_Some (of_list l !! n) ↔ ∃ tx, tx ∈ l ∧ tx_AccountNonce tx = n.
Proof.
  unfold of_list. split.
  - intros [tx H%elem_of_list_to_map_2]. apply list_elem_of_fmap in H as (t & [= -> ->] & ?). by exists t.
  - intros (tx & Hin & <-). apply not_eq_None_Some. intros H%not_elem_of_list_to_map. apply H. rewrite <- list_fmap_compose.
    by apply (list_elem_of_fmap_2 tx_AccountNonce).
Qed.

(** The lower and the higher transactions of a list without gaps have none. *)
Lemma gapless_parts M l1 l2 : keyed M → by_nonce M = l1 ++ l2 → gapless M → gapless (of_list l1) ∧ gapless (of_list l2).
Proof.
  intros Hk E Hg. assert (∀ x y, x ∈ l1 → y ∈ l2 → tx_AccountNonce x ≤ tx_AccountNonce y) as Hle.
  { intros x y Hx Hy. pose proof (by_nonce_sorted M) as Hs. rewrite E in Hs. by eapply StronglySorted_app_1_elem_of in Hs. }
  assert (∀ tx, tx ∈ l1 ∨ tx ∈ l2 ↔ M !! tx_AccountNonce tx = Some tx) as Hin by (intros tx; rewrite <- elem_by_nonce, E by done; by rewrite elem_of_app).
  assert (∀ i j k, i ≤ j ≤ k → (∃ tx, (tx ∈ l1 ∨ tx ∈ l2) ∧ tx_AccountNonce tx = i) → (∃ tx, (tx ∈ l1 ∨ tx ∈ l2) ∧ tx_AccountNonce tx = k) →
    ∃ tx, (tx ∈ l1 ∨ tx ∈ l2) ∧ tx_AccountNonce tx = j) as Hall.
  { intros i j k Hj (x & Hx%Hin & <-) (y & Hy%Hin & <-). destruct (Hg _ j _ Hj ltac:(by eexists) ltac:(by eexists)) as [z Ez].
    destruct (Hk j z Ez) as [Ej _]. exists z. rewrite Hin, Ej. done. }
  assert (∀ x y, tx_AccountNonce x = tx_AccountNonce y → (x ∈ l1 ∨ x ∈ l2) → (y ∈ l1 ∨ y ∈ l2) → x = y) as Hu by (intros x y En Hx%Hin Hy%Hin; congruence).
  split; intros i j k Hj; rewrite !of_list_elem; intros (x & Hx & Ex) (y & Hy & Ey).
  - destruct (Hall i j k Hj) as (z & [Hz|Hz] & Ez); [by eauto..|by exists z|]. pose proof (Hle y z Hy Hz).
    assert (y = z) as -> by (apply Hu; [lia|by left|by right]). by exists z.
  - destruct (Hall i j k Hj) as (z & [Hz|Hz] & Ez); [by eauto..| |by exists z]. pose proof (Hle z x Hz Hx).
    assert (x = z) as -> by (apply Hu; [lia|by right|by left]). by exists z.
Qed.

(** C26. The list of an account in the pool stays sound.  Whatever operations run on it, none
    panics and the caps bound what is in it.  So, at any time, [Filter] leaves no transaction
    that pays for its own gas and costs more than the account has or than the block has gas
    for, also when the caps let it return at once; it removes only transactions its test
    refuses and, in strict mode, those with higher nonces, so that a list without gaps stays
    without gaps; and [Add] replaces a transaction only by one with a higher price, by the
    required part. *)
Theorem account_list_sound ops strict : Forall list_op_ok ops →
  ∃ l, run_list_ops ops (newTxList strict) = Some l ∧ list_ok l ∧ tl_strict l = strict ∧
    (∀ s c g, let '(removed, invalids, l') := list_Filter s c g l in
       filter_post c g l l' removed invalids ∧ ∀ tx, tx ∈ removed → removes s c g tx = true) ∧
    (∀ tx bump,
       match list_Add tx bump l with
       | (true, old, l') =>
           tm_items (tl_txs l') = <[tx_AccountNonce tx := tx]> (tm_items (tl_txs l)) ∧ old = tm_items (tl_txs l) !! tx_AccountNonce tx ∧
           ∀ o, old = Some o → tx_Price o < tx_Price tx ∧ (tx_Price o * s64 (100 + s64 bump)) `div` 100 ≤ tx_Price tx
       | (false, _, l') => l' = l
       end).
Proof.
  intros Hall. assert (∃ l, run_list_ops ops (newTxList strict) = Some l ∧ list_ok l ∧ tl_strict l = strict) as (l & E & Hl & Es).
  { pose proof (new_list_ok strict) as Hl. assert (tl_strict (newTxList strict) = strict) as Es by done. revert Hl Es. generalize (newTxList strict).
    induction Hall as [|o ops Ho _ IH]; intros l Hl Es; [by exists l|]. cbn [run_list_ops].
    destruct (run_list_op_ok o l Hl Ho) as (l' & -> & Hl' & Es'). cbn [mbind option_bind]. apply IH; [done|congruence]. }
  exists l. split_and!; [done..|intros s c g; by apply list_Filter_ok|].
  intros tx bump. unfold list_Add, sorted_Get. destruct (tm_items (tl_txs l) !! tx_AccountNonce tx) as [o|] eqn:Eo; [|by split_and!].
  destruct (_ || _) eqn:Eb; [done|]. apply orb_false_iff in Eb as [?%Z.leb_gt ?%Z.ltb_ge]. split_and!; [done..|]. by intros ? [= <-].
Qed.

(** A transaction whose gas the creator of a contract pays for is not tested as long as the
    account of the sender has money: [Filter] returns at once. *)
Lemma contract_paid_kept s c g l : tl_costcap l ≤ c → tl_gascap l ≤ g → list_Filter s c g l = ([], [], l).
Proof. intros Hc Hg. unfold list_Filter, TxList.list_Filter. by rewrite (proj2 (Z.leb_le _ _) Hc), (proj2 (Z.leb_le _ _) Hg). Qed.

(** A strict list without gaps stays without gaps under everything but [Add]. *)
Lemma gapless_kept o l l' : list_ok l → tl_strict l = true → gapless (tm_items (tl_txs l)) → (∀ tx bump, o ≠ LAdd tx bump) →
  run_list_op o l = Some l' → gapless (tm_items (tl_txs l')).
Proof.
  intros Hl Es Hg Ho. pose proof (lo_sorted _ Hl) as Hm. pose proof (sm_keyed _ Hm) as Hk. destruct o; cbn [run_list_op] in *.
  - by destruct (Ho tx priceBump).
  - unfold list_Forward, on_txs. destruct (Forward_ok (tl_txs l) threshold Hm) as (m' & -> & _ & Ei). intros [= <-]. cbn. rewrite Ei. by apply gapless_upper.
  - intros [= <-]. pose proof (list_Filter_ok s costLimit gasLimit l Hl) as H. destruct (list_Filter _ _ _ _) as [[r i] l1]. apply H; done.
  - unfold list_Cap, on_txs. destruct (Cap_ok (tl_txs l) threshold Hm) as (d & m' & -> & _ & _ & Ei). intros [= <-]. cbn. rewrite Ei.
    exact (proj1 (gapless_parts _ _ _ Hk (eq_sym (take_drop threshold _)) Hg)).
  - unfold list_Remove. destruct (Remove_ok (tl_txs l) (tx_AccountNonce tx) Hm) as (m' & -> & Hm' & Ei). cbn [mbind option_bind tl_strict].
    destruct (bool_decide_reflect (is_Some (tm_items (tl_txs l) !! tx_AccountNonce tx))) as [_|Hn]; cbn [negb]; [rewrite Es|].
    + pose proof (Filter_ok m' (λ t, tx_AccountNonce tx <? tx_AccountNonce t) Hm') as (_ & _ & Ei2). destruct (sorted_Filter _ m') as [inv m2]. cbn [fst snd] in *.
      intros [= <-]. cbn. rewrite Ei2, Ei. replace (unfiltered _ _) with (lower (tx_AccountNonce tx) (tm_items (tl_txs l))); [by apply gapless_lower|].
      apply map_eq. intros n. apply option_eq. intros t. unfold unfiltered, lower. rewrite !map_lookup_filter_Some, lookup_delete_Some, Z.ltb_ge. cbn.
      split; [intros [E ?]|intros [[? E] ?]]; destruct (Hk _ _ E); split_and!; try done; lia.
    + intros [= <-]. cbn. rewrite Ei, delete_id by (by apply eq_None_not_Some). done.
  - unfold list_Ready, on_txs. destruct (Ready_ok (tl_txs l) start Hm) as (m' & -> & _ & Ei). intros [= <-]. cbn. rewrite Ei.
    exact (proj2 (gapless_parts _ _ _ Hk (eq_sym (take_drop _ _)) Hg)).
  - unfold list_Flatten. destruct (Flatten_ok (tl_txs l) Hm) as (_ & _ & Ei). destruct (sorted_Flatten (tl_txs l)) as [txs m]. cbn [fst snd] in *.
    intros [= <-]. cbn. by rewrite Ei.
Qed.
End list.

Module ListExample.
Import Toy ToyState.
#[local] Existing Instance ToySecp.primitives.

Definition tx (nonce price gas : Z) : Transaction := mkTransaction nonce price gas (Some 17) 7 [1] 0 0 0 0.
Definition sender (_ : Transaction) : Address := 5.

Definition map_ops : list map_op :=
  [MPut (tx 7 1 21000); MPut (tx 5 1 21000); MPut (tx 6 1 21000); MPut (tx 9 1 21000); MFlatten; MForward 6; MCap 2; MReady 6].
Definition list_ops : list list_op := [LAdd (tx 5 10 21000) 10; LAdd (tx 6 10 30000) 10; LAdd (tx 7 10 21000) 10; LFlatten].

Lemma map_ops_ok : Forall map_op_ok map_ops.
Proof. unfold map_ops. repeat (apply Forall_cons; split; [by vm_compute|]). constructor. Qed.
Lemma list_ops_ok : Forall list_op_ok list_ops.
Proof. unfold list_ops. repeat (apply Forall_cons; split; [by vm_compute|]). constructor. Qed.
End ListExample.

Section witness.
Import Toy ToyState ListExample.
#[local] Existing Instance ToySecp.primitives.

Lemma sorted_map_refines_witness :
  ∃ outs m, run_map_ops map_ops newTxSortedMap = Some (outs, m) ∧ tm_items m = ∅ ∧
    outs !! 7%nat = Some (inl [Some (tx 6 1 21000); Some (tx 7 1 21000)]).
Proof.
  destruct (sorted_map_refines map_ops map_ops_ok) as (outs & m & E & _ & _ & Hm). exists outs, m. split; [exact E|].
  split; [rewrite Hm; vm_compute; reflexivity|].
  assert ((λ r, r.1 !! 7%nat) <$> run_map_ops map_ops newTxSortedMap = Some (Some (inl [Some (tx 6 1 21000); Some (tx 7 1 21000)]))) as E7
    by (vm_compute; reflexivity).
  rewrite E in E7. by injection E7.
Defined.

(** The account has less than the second transaction costs: it goes, and the third with it. *)
Lemma account_list_sound_witness :
  ∃ l l', run_list_ops db sender list_ops (newTxList true) = Some l ∧
    list_Filter db sender blank 250000 100000 l = ([tx 6 10 30000], [tx 7 10 21000], l') ∧ list_ok l' ∧ gapless (tm_items (tl_txs l')).
Proof.
  destruct (account_list_sound db sender list_ops true list_ops_ok) as (l & E & Hl & Es & HF & _).
  assert (∃ l', list_Filter db sender blank 250000 100000 l = ([tx 6 10 30000], [tx 7 10 21000], l')) as (l' & Ef).
  { assert ((λ l, (list_Filter db sender blank 250000 100000 l).1) <$> run_list_ops db sender list_ops (newTxList true)
      = Some ([tx 6 10 30000], [tx 7 10 21000])) as E' by (vm_compute; reflexivity).
    rewrite E in E'. injection E' as E'. destruct (list_Filter _ _ _ _ _ l) as [r l']. exists l'. by rewrite <- E'. }
  specialize (HF blank 250000 100000). rewrite Ef in HF. destruct HF as [(H1 & _ & _ & H4) _]. exists l, l'. split_and!; [done..|].
  apply (H4 Es). assert ((λ l, elements (dom (tm_items (tl_txs l)))) <$> run_list_ops db sender list_ops (newTxList true) = Some [7; 5; 6]) as Ed
    by (vm_compute; reflexivity).
  rewrite E in Ed. injection Ed as Ed. intros i j k Hj Hi Hk. rewrite <- !elem_of_dom, <- !elem_of_elements, Ed, !elem_of_cons, !elem_of_nil in *. lia.
Defined.

(** The test refuses a transaction that nobody pays for, and [Filter] leaves it in the list. *)
Lemma contract_paid_unfiltered :
  let l := (list_Add (tx 5 10 0) 10 (newTxList true)).2 in
  removes db sender blank 100 100 (tx 5 10 0) = true ∧ list_Filter db sender blank 100 100 l = ([], [], l).
Proof. split; [vm_compute; reflexivity|]. by apply contract_paid_kept. Qed.
End witness.
