(* ===== verification/TxOrder.v ===== *)
(** * TxOrder: transactions in the order of their prices

    [TransactionsByPriceAndNonce] of src/core/types/transaction.go, from which the miner takes
    transactions, and [txPricedList] of src/core/tx_list.go, by which the pool finds the
    cheapest ones; with the sets of accounts and the lookup of src/core/tx_pool.go.  [None]
    is a panic. *)

From stdpp Require Import fin_maps.
From S2P Require Import Prelude Bytes Crypto Types EvmPrecompiled Transaction Heap.

Local Open Scope Z_scope.

(** The [Less] of [TxByPrice] and of [TxByPriceAsc]. *)
Definition price_less (x y : Transaction) : bool := tx_Price y <? tx_Price x.
Definition price_less_asc (x y : Transaction) : bool :=
  if tx_Price x <? tx_Price y then true
  else if tx_Price y <? tx_Price x then false
  else tx_AccountNonce y <? tx_AccountNonce x.

Section order.
Context `{CR : Crypto} `{PR : Primitives}.

(** [acc, _ := Sender(signer, tx)]: the zero address on an error; a cached sender is the
    same. *)
Definition sender_of (signer : Signer) (tx : Transaction) : Address :=
  match Signer_Sender signer tx with inr a => a | inl _ => 0 end.

(** ** TransactionsByPriceAndNonce *)

Record TransactionsByPriceAndNonce := mkByPrice {
  bp_txs : gmap Address (list Transaction);
  bp_heads : list Transaction;
  bp_signer : Signer
}.

(** The range over the map, whose entries the loop changes: an entry that was deleted is
    not visited, one that was added need not be. *)
Fixpoint collect_heads (signer : Signer) (keys : list Address) (txs : gmap Address (list Transaction)) (heads : list Transaction) :
    option (gmap Address (list Transaction) * list Transaction) :=
  match keys with
  | [] => Some (txs, heads)
  | from :: keys =>
      match txs !! from with
      | None => collect_heads signer keys txs heads
      | Some [] => None
      | Some (tx :: rest) =>
          let acc := sender_of signer tx in
          let txs := <[acc := rest]> txs in
          collect_heads signer keys (if decide (from = acc) then txs else delete from txs) (heads ++ [tx])
      end
  end.

Definition NewTransactionsByPriceAndNonce (signer : Signer) (txs : gmap Address (list Transaction)) : option TransactionsByPriceAndNonce :=
  '(txs, heads) ← collect_heads signer (map_to_list txs).*1 txs [];
  Some (mkByPrice txs (heap_Init price_less heads) signer).

Definition Peek (t : TransactionsByPriceAndNonce) : option Transaction := head (bp_heads t).

Definition Shift (t : TransactionsByPriceAndNonce) : option TransactionsByPriceAndNonce :=
  match bp_heads t with
  | [] => None
  | tx :: _ =>
      let acc := sender_of (bp_signer t) tx in
      match bp_txs t !! acc with
      | Some (next :: rest) =>
          Some (mkByPrice (<[acc := rest]> (bp_txs t)) (heap_Fix price_less (<[0%nat := next]> (bp_heads t)) 0) (bp_signer t))
      | _ => '(_, heads) ← heap_Pop price_less (bp_heads t); Some (mkByPrice (bp_txs t) heads (bp_signer t))
      end
  end.

Definition Pop (t : TransactionsByPriceAndNonce) : option TransactionsByPriceAndNonce :=
  '(_, heads) ← heap_Pop price_less (bp_heads t); Some (mkByPrice (bp_txs t) heads (bp_signer t)).

(** ** txPricedList *)

(** [txLookup.all], and an [accountSet] with its signer. *)
Definition txLookup : Type := gmap Hash Transaction.
Record accountSet := mkAccountSet { as_accounts : gset Address; as_signer : Signer }.

Definition lookup_Add (tx : Transaction) (all : txLookup) : txLookup := <[Transaction_Hash tx := tx]> all.
Definition lookup_Remove (hash : Hash) (all : txLookup) : txLookup := delete hash all.

Definition containsTx (local : accountSet) (tx : Transaction) : bool :=
  match Signer_Sender (as_signer local) tx with inr addr => bool_decide (addr ∈ as_accounts local) | inl _ => false end.

Record txPricedList := mkPriced { pl_items : list Transaction; pl_stales : Z }.
Definition newTxPricedList : txPricedList := mkPriced [] 0.

Definition priced_Put (tx : Transaction) (l : txPricedList) : txPricedList :=
  mkPriced (heap_Push price_less_asc (pl_items l) tx) (pl_stales l).

(** [Removed], after the transaction left [all]. *)
Definition Removed (all : txLookup) (l : txPricedList) : txPricedList :=
  let stales := pl_stales l + 1 in
  if stales <=? Z.of_nat (length (pl_items l)) `div` 4 then mkPriced (pl_items l) stales
  else mkPriced (heap_Init price_less_asc (map_to_list all).*2) 0.

Definition stale (all : txLookup) (tx : Transaction) : bool := bool_decide (all !! Transaction_Hash tx = None).

(** The loop of [Cap]: the dropped and the saved transactions, and the rest of the heap. *)
Fixpoint priced_cap (fuel : nat) (all : txLookup) (threshold : Z) (local : accountSet) (l : txPricedList) :
    option (list Transaction * list Transaction * txPricedList) :=
  match fuel, pl_items l with
  | S fuel, _ :: _ =>
      '(tx, items) ← heap_Pop price_less_asc (pl_items l);
      if stale all tx then priced_cap fuel all threshold local (mkPriced items (pl_stales l - 1))
      else if threshold <=? tx_Price tx then Some ([], [tx], mkPriced items (pl_stales l))
      else
        '(drop, save, l) ← priced_cap fuel all threshold local (mkPriced items (pl_stales l));
        Some (if containsTx local tx then (drop, tx :: save, l) else (tx :: drop, save, l))
  | _, _ => Some ([], [], l)
  end.

Definition push_all (txs : list Transaction) (l : txPricedList) : txPricedList := foldl (λ l tx, priced_Put tx l) l txs.

Definition priced_Cap (all : txLookup) (threshold : Z) (local : accountSet) (l : txPricedList) : option (list Transaction * txPricedList) :=
  '(drop, save, l) ← priced_cap (length (pl_items l)) all threshold local l;
  Some (drop, push_all save l).

(** Stale transactions at the front are taken off. *)
Fixpoint drop_stales (fuel : nat) (all : txLookup) (l : txPricedList) : option txPricedList :=
  match fuel, pl_items l with
  | S fuel, tx :: _ =>
      if stale all tx then '(_, items) ← heap_Pop price_less_asc (pl_items l); drop_stales fuel all (mkPriced items (pl_stales l - 1))
      else Some l
  | _, _ => Some l
  end.

Definition Underpriced (all : txLookup) (tx : Transaction) (local : accountSet) (l : txPricedList) : option (bool * txPricedList) :=
  if containsTx local tx then Some (false, l)
  else
    l ← drop_stales (length (pl_items l)) all l;
    Some (match pl_items l with cheapest :: _ => tx_Price tx <=? tx_Price cheapest | [] => false end, l).

Fixpoint priced_discard (fuel : nat) (all : txLookup) (count : Z) (local : accountSet) (l : txPricedList) :
    option (list Transaction * list Transaction * txPricedList) :=
  match fuel, pl_items l with
  | S fuel, _ :: _ =>
      if count <=? 0 then Some ([], [], l)
      else
        '(tx, items) ← heap_Pop price_less_asc (pl_items l);
        if stale all tx then priced_discard fuel all count local (mkPriced items (pl_stales l - 1))
        else if containsTx local tx then
          '(drop, save, l) ← priced_discard fuel all count local (mkPriced items (pl_stales l));
          Some (drop, tx :: save, l)
        else
          '(drop, save, l) ← priced_discard fuel all (count - 1) local (mkPriced items (pl_stales l));
          Some (tx :: drop, save, l)
  | _, _ => Some ([], [], l)
  end.

(** [make] panics for a negative capacity. *)
Definition Discard (all : txLookup) (count : Z) (local : accountSet) (l : txPricedList) : option (list Transaction * txPricedList) :=
  if count <? 0 then None
  else
    '(drop, save, l) ← priced_discard (length (pl_items l)) all count local l;
    Some (drop, push_all save l).
End order.
