(* ===== verification/TxOrderFacts.v ===== *)
(** * TxOrderFacts: the best and the worst transactions

    The miner gets the transactions of every account in the order of their nonces, always one
    with the highest price that may come next; the pool drops the cheapest transactions
    that are not local, and no others. *)

From stdpp Require Import fin_maps.
From S2P Require Import Prelude Bytes Crypto Types EvmPrecompiled Transaction Heap TxOrder.

Local Open Scope Z_scope.

#[global] Instance price_order : HeapOrder price_less.
Proof.
  split; unfold price_less.
  - intros x y H%Z.ltb_lt. apply Z.ltb_ge. lia.
  - intros x y z H1%Z.ltb_ge H2%Z.ltb_ge. apply Z.ltb_ge. lia.
Qed.

Lemma price_less_asc_spec x y :
  price_less_asc x y = true ↔ tx_Price x < tx_Price y ∨ tx_Price x = tx_Price y ∧ tx_AccountNonce y < tx_AccountNonce x.
Proof.
  unfold price_less_asc. destruct (Z.ltb_spec (tx_Price x) (tx_Price y)); [split; [lia|done]|].
  destruct (Z.ltb_spec (tx_Price y) (tx_Price x)); [split; [done|lia]|]. rewrite Z.ltb_lt. lia.
Qed.

Lemma price_le_asc_spec x y :
  price_less_asc x y = false ↔ tx_Price y < tx_Price x ∨ tx_Price x = tx_Price y ∧ tx_AccountNonce x ≤ tx_AccountNonce y.
Proof.
  pose proof (price_less_asc_spec x y) as H. destruct (price_less_asc x y); [split; [done|]; intros; destruct H as [H _]; specialize (H eq_refl); lia|].
  split; [|done]. intros _. assert (¬ (tx_Price x < tx_Price y ∨ tx_Price x = tx_Price y ∧ tx_AccountNonce y < tx_AccountNonce x)) by (by rewrite <- H). lia.
Qed.

#[global] Instance price_order_asc : HeapOrder price_less_asc.
Proof.
  split.
  - intros x y H%price_less_asc_spec. apply price_le_asc_spec. lia.
  - intros x y z H1%price_le_asc_spec H2%price_le_asc_spec. apply price_le_asc_spec. lia.
Qed.

Section facts.
Context `{CR : Crypto} `{PR : Primitives}.

(** ** The queues of the accounts *)

(** The next transaction of every account and those after it. *)
Abbreviation queues := (gmap Address (Transaction * list Transaction)).

Definition own (signer : Signer) (a : Address) (q : Transaction * list Transaction) : Prop :=
  ∀ tx, tx ∈ q.1 :: q.2 → sender_of signer tx = a.

Record queued (t : TransactionsByPriceAndNonce) (Q : queues) : Prop := {
  qd_heap : is_heap price_less (bp_heads t);
  qd_heads : bp_heads t ≡ₚ fst <$> (map_to_list Q).*2;
  qd_rest : ∀ a q, Q !! a = Some q → bp_txs t !! a = Some q.2 ∧ own (bp_signer t) a q
}.

(** The next transaction of an account whose price none of the others beats. *)
Definition best (Q : queues) (a : Address) (tx : Transaction) (rest : list Transaction) : Prop :=
  Q !! a = Some (tx, rest) ∧ ∀ b q, Q !! b = Some q → tx_Price q.1 ≤ tx_Price tx.

Definition advance (a : Address) (rest : list Transaction) (Q : queues) : queues :=
  match rest with [] => delete a Q | tx :: rest => <[a := (tx, rest)]> Q end.

Lemma Peek_spec t Q : queued t Q →
  match Peek t with
  | None => Q = ∅
  | Some tx => ∃ rest, best Q (sender_of (bp_signer t) tx) tx rest
  end.
Proof.
  intros [Hh Hp Hr]. unfold Peek. destruct (bp_heads t) as [|tx heads] eqn:E; cbn [head].
  - apply Permutation_nil_l in Hp. symmetry in Hp. apply fmap_nil_inv, fmap_nil_inv in Hp. by apply map_to_list_empty_iff.
  - assert (tx ∈ fst <$> (map_to_list Q).*2) as Hin by (rewrite <- Hp; by left).
    apply list_elem_of_fmap in Hin as ([x rest] & -> & Hin). apply list_elem_of_fmap in Hin as ([a q] & Eq & Hin%elem_of_map_to_list).
    cbn [fst snd] in *. subst q. destruct (Hr a (x, rest) Hin) as [_ Ho]. exists rest. rewrite (Ho x ltac:(by left)). split; [done|].
    intros b q Hb. apply Z.ltb_ge. apply (heap_min price_less (x :: heads) x Hh eq_refl). rewrite Hp.
    apply list_elem_of_fmap. exists q. split; [done|]. apply list_elem_of_fmap. exists (b, q). split; [done|]. by apply elem_of_map_to_list.
Qed.

Lemma heads_delete (Q : queues) a q : Q !! a = Some q → q.1 :: (fst <$> (map_to_list (delete a Q)).*2) ≡ₚ fst <$> (map_to_list Q).*2.
Proof. intros E. by rewrite <- (map_to_list_delete Q a q E). Qed.

Lemma Pop_spec t Q tx rest : queued t Q → Peek t = Some tx → best Q (sender_of (bp_signer t) tx) tx rest →
  ∃ t', Pop t = Some t' ∧ bp_signer t' = bp_signer t ∧ bp_txs t' = bp_txs t ∧ queued t' (delete (sender_of (bp_signer t) tx) Q).
Proof.
  intros [Hh Hp Hr] Et [Eb _]. unfold Peek in Et. unfold Pop. rewrite head_lookup in Et.
  destruct (heap_Pop_spec price_less (bp_heads t) tx Hh Et) as (heads & -> & Hh' & P). cbn [mbind option_bind].
  eexists. split; [done|]. split_and!; [done..|]. split; [done| |].
  - cbn [bp_heads]. apply (Permutation_cons_inv (a := tx)). rewrite <- P, Hp. symmetry. by apply (heads_delete Q _ (tx, rest)).
  - intros a q [_ E]%lookup_delete_Some. by apply Hr.
Qed.

Lemma Shift_spec t Q tx rest : queued t Q → Peek t = Some tx → best Q (sender_of (bp_signer t) tx) tx rest →
  ∃ t', Shift t = Some t' ∧ bp_signer t' = bp_signer t ∧ queued t' (advance (sender_of (bp_signer t) tx) rest Q).
Proof.
  intros Hq Et Hb. pose proof Hq as [Hh Hp Hr]. pose proof Hb as [Eb _]. destruct (Hr _ _ Eb) as [Er Ho]. cbn [snd] in Er.
  unfold Shift. destruct (bp_heads t) as [|x heads] eqn:Eh; [unfold Peek in Et; by rewrite Eh in Et|].
  assert (x = tx) as -> by (unfold Peek in Et; rewrite Eh in Et; by injection Et). set (a := sender_of _ tx) in *. rewrite Er.
  destruct rest as [|next rest].
  - destruct (Pop_spec t Q tx [] Hq Et Hb) as (t' & E & Es & _ & Hq'). unfold Pop in E. rewrite Eh in E. eexists. split; [exact E|]. by split.
  - destruct (heap_Fix_spec price_less (tx :: heads) 0 next Hh ltac:(cbn; lia)) as [P H].
    eexists. split; [done|]. split; [done|]. split; [exact H| |].
    + cbn [bp_heads advance]. rewrite P. cbn [list_insert insert]. rewrite <- (heads_delete (<[a:=(next, rest)]> Q) a (next, rest)) by apply lookup_insert_eq.
      cbn [fst]. rewrite delete_insert_eq. constructor. apply (Permutation_cons_inv (a := tx)). rewrite Hp. symmetry. by apply (heads_delete Q a (tx, next :: rest)).
    + cbn [advance bp_txs bp_signer]. intros b q. rewrite lookup_insert_Some. intros [[<- <-]|[Hn E]].
      * rewrite lookup_insert_eq. split; [done|]. intros y Hy. apply Ho. by right.
      * rewrite lookup_insert_ne by done. by apply Hr.
Qed.

(** ** A whole run *)

Definition noTransaction : Transaction := mkTransaction 0 0 0 None 0 [] 0 0 0 0.
Definition queue_of (l : list Transaction) : Transaction * list Transaction :=
  match l with tx :: rest => (tx, rest) | [] => (noTransaction, []) end.

Lemma collect_spec signer (l : list (Address * (Transaction * list Transaction))) : NoDup l.*1 → ∀ M heads,
  (∀ a q, (a, q) ∈ l → M !! a = Some (q.1 :: q.2) ∧ own signer a q) →
  ∃ M', collect_heads signer l.*1 M heads = Some (M', heads ++ l.*2.*1) ∧ ∀ a q, (a, q) ∈ l → M' !! a = Some q.2.
Proof.
  intros Hnd. assert (∀ M heads, (∀ a q, (a, q) ∈ l → M !! a = Some (q.1 :: q.2) ∧ own signer a q) →
    ∃ M', collect_heads signer l.*1 M heads = Some (M', heads ++ l.*2.*1) ∧ (∀ a q, (a, q) ∈ l → M' !! a = Some q.2) ∧ ∀ a, a ∉ l.*1 → M' !! a = M !! a) as H.
  2: { intros M heads HM. destruct (H M heads HM) as (M' & ? & ? & _). by exists M'. }
  induction l as [|[a q] l IH]; intros M heads HM.
  { exists M. cbn. rewrite app_nil_r. split_and!; [done|by intros ? ? ?%elem_of_nil|done]. }
  rewrite fmap_cons in Hnd. apply NoDup_cons in Hnd as [Ha Hnd]. cbn [fst] in Ha. destruct (HM a q ltac:(by left)) as [E Ho].
  cbn [fmap list_fmap fst snd collect_heads]. rewrite E, (Ho q.1 ltac:(by left)). rewrite decide_True by done.
  destruct (IH Hnd (<[a:=q.2]> M) (heads ++ [q.1])) as (M' & EM & H1 & H2).
  { intros b q' Hb. assert (b ≠ a) by (intros ->; apply Ha; apply list_elem_of_fmap; by exists (a, q')). rewrite lookup_insert_ne by done. apply HM. by right. }
  exists M'. rewrite EM, <- app_assoc. split_and!; [done| |].
  - intros b q' [[= -> ->]|Hb]%elem_of_cons; [|by apply H1]. by rewrite H2, lookup_insert_eq.
  - intros b Hb. apply not_elem_of_cons in Hb as [Hba Hb]. rewrite H2 by done. by rewrite lookup_insert_ne.
Qed.

Definition accounts_ok (signer : Signer) (txs : gmap Address (list Transaction)) : Prop :=
  ∀ a l, txs !! a = Some l → l ≠ [] ∧ ∀ tx, tx ∈ l → sender_of signer tx = a.

Lemma New_spec signer txs : accounts_ok signer txs →
  ∃ t, NewTransactionsByPriceAndNonce signer txs = Some t ∧ bp_signer t = signer ∧ queued t (queue_of <$> txs).
Proof.
  intros Ht. unfold NewTransactionsByPriceAndNonce. set (l := prod_map id queue_of <$> map_to_list txs).
  assert (map_to_list (queue_of <$> txs) ≡ₚ l) as Pl by (unfold l; by rewrite map_to_list_fmap).
  assert (l.*1 = (map_to_list txs).*1) as El by (unfold l; rewrite <- list_fmap_compose; by apply list_fmap_ext; intros i [a q] _).
  assert (∀ a q, (a, q) ∈ l → txs !! a = Some (q.1 :: q.2) ∧ own signer a q) as HM.
  { intros a q Hin. apply list_elem_of_fmap in Hin as ([a' k] & [= -> ->] & Hin%elem_of_map_to_list). cbn [id].
    destruct (Ht a' k Hin) as [Hne Ho]. destruct k as [|x k]; [done|]. by split. }
  destruct (collect_spec signer l) with (M := txs) (heads := @nil Transaction) as (M' & E & H1); [rewrite El; apply NoDup_fst_map_to_list|exact HM|].
  rewrite <- El, E. cbn [mbind option_bind]. eexists. split; [done|]. split; [done|].
  destruct (heap_Init_spec price_less ([] ++ l.*2.*1)) as [P H]. split; [exact H|cbn [bp_heads]; rewrite P; by rewrite Pl|].
  intros a q E'. assert ((a, q) ∈ l) as Hin by (rewrite <- Pl; by apply elem_of_map_to_list). split; [by apply H1|by apply HM].
Qed.

(** The miner takes one transaction after the other; when one cannot be executed it drops
    the account. *)
Fixpoint take_txs (executed : list bool) (t : TransactionsByPriceAndNonce) : option (list Transaction * TransactionsByPriceAndNonce) :=
  match executed with
  | [] => Some ([], t)
  | ok :: executed =>
      match Peek t with
      | None => Some ([], t)
      | Some tx => t ← (if (ok : bool) then Shift t else Pop t); '(l, t) ← take_txs executed t; Some (tx :: l, t)
      end
  end.

Inductive drains : queues → list bool → list Transaction → Prop :=
| drains_stop Q : drains Q [] []
| drains_empty executed : drains ∅ executed []
| drains_take Q a tx rest (ok : bool) executed l :
    best Q a tx rest → drains (if ok then advance a rest Q else delete a Q) executed l → drains Q (ok :: executed) (tx :: l).

Lemma take_drains executed : ∀ t Q, queued t Q → ∃ l t', take_txs executed t = Some (l, t') ∧ drains Q executed l.
Proof.
  induction executed as [|ok executed IH]; intros t Q Hq; [by exists [], t; split; [|constructor]|].
  cbn [take_txs]. pose proof (Peek_spec t Q Hq) as HP. destruct (Peek t) as [tx|] eqn:Et; [|subst Q; exists [], t; split; [done|constructor]].
  destruct HP as [rest Hb]. assert (∃ t1, (if ok then Shift t else Pop t) = Some t1 ∧
    queued t1 (if ok then advance (sender_of (bp_signer t) tx) rest Q else delete (sender_of (bp_signer t) tx) Q)) as (t1 & -> & Hq1).
  { destruct ok; [destruct (Shift_spec t Q tx rest Hq Et Hb) as (t1 & ? & _ & ?)|destruct (Pop_spec t Q tx rest Hq Et Hb) as (t1 & ? & _ & _ & ?)]; by exists t1. }
  cbn [mbind option_bind]. destruct (IH t1 _ Hq1) as (l & t2 & -> & Hd). cbn [mbind option_bind]. exists (tx :: l), t2. split; [done|]. by econstructor.
Qed.

Definition remaining (Q : queues) : nat := sum_list_with (λ q, S (length q.2)) (map_to_list Q).*2.

Lemma remaining_delete (Q : queues) a q : Q !! a = Some q → remaining Q = (S (length q.2) + remaining (delete a Q))%nat.
Proof. intros E. unfold remaining. by rewrite <- (map_to_list_delete Q a q E). Qed.

Lemma remaining_advance (Q : queues) a tx rest : Q !! a = Some (tx, rest) → remaining Q = S (remaining (advance a rest Q)).
Proof.
  intros E. rewrite (remaining_delete Q a _ E). cbn [snd]. destruct rest as [|y rest]; [done|]. cbn [advance].
  rewrite (remaining_delete (<[a:=(y, rest)]> Q) a (y, rest)) by apply lookup_insert_eq. by rewrite delete_insert_eq.
Qed.

Lemma drains_all signer executed Q l : drains Q executed l → Forall (λ ok, ok = true) executed → (remaining Q ≤ length executed)%nat →
  (∀ a q, Q !! a = Some q → own signer a q) →
  ∀ a, filter (λ tx, sender_of signer tx = a) l = match Q !! a with Some q => q.1 :: q.2 | None => [] end.
Proof.
  induction 1 as [Q|executed|Q a tx rest ok executed l [Eb Hb] Hd IH]; intros Hok Hr Ho b.
  - destruct (Q !! b) as [q|] eqn:E; [|done]. rewrite (remaining_delete Q b q E) in Hr. cbn in Hr. lia.
  - by rewrite lookup_empty.
  - apply Forall_cons in Hok as [-> Hok]. rewrite (remaining_advance Q a tx rest Eb) in Hr. cbn [length] in Hr.
    assert (∀ c q, advance a rest Q !! c = Some q → own signer c q) as Ho'.
    { intros c q. destruct rest as [|y rest]; cbn [advance]; [intros [_ E]%lookup_delete_Some; by apply Ho|].
      rewrite lookup_insert_Some. intros [[<- <-]|[_ E]]; [|by apply Ho]. intros z Hz. apply (Ho a (tx, y :: rest) Eb). by right. }
    specialize (IH Hok ltac:(lia) Ho' b). rewrite filter_cons, IH. pose proof (Ho a _ Eb tx ltac:(by left)) as Ea. rewrite Ea.
    destruct (decide (a = b)) as [<-|Hn].
    + rewrite Eb. destruct rest as [|y rest]; cbn [advance fst snd]; [by rewrite lookup_delete_eq|by rewrite lookup_insert_eq].
    + destruct rest as [|y rest]; cbn [advance]; [by rewrite lookup_delete_ne|by rewrite lookup_insert_ne].
Qed.

(** C27. The miner gets the transactions in the right order.  From the lists of the accounts,
    none of them empty and each with transactions of its own, whatever transactions turn out
    not to be executable: nothing panics; every transaction that is given out is the next
    one of its account, and none of the next ones of the others has a higher price; and if all
    are executed, every account's transactions come in the order of its list and none is left
    out. *)
Theorem miner_order signer txs : accounts_ok signer txs →
  ∃ t, NewTransactionsByPriceAndNonce signer txs = Some t ∧
    (∀ executed, ∃ l t', take_txs executed t = Some (l, t') ∧ drains (queue_of <$> txs) executed l) ∧
    (∀ n, (remaining (queue_of <$> txs) ≤ n)%nat →
       ∃ l t', take_txs (replicate n true) t = Some (l, t') ∧ ∀ a, filter (λ tx, sender_of signer tx = a) l = default [] (txs !! a)).
Proof.
  intros Ht. destruct (New_spec signer txs Ht) as (t & E & Es & Hq). exists t. split; [done|]. split; [intros executed; by apply take_drains|].
  intros n Hn. destruct (take_drains (replicate n true) t _ Hq) as (l & t' & El & Hd). exists l, t'. split; [done|]. intros a.
  rewrite (drains_all signer _ _ _ Hd).
  - rewrite lookup_fmap. destruct (txs !! a) as [k|] eqn:Ek; [|done]. cbn. destruct (Ht a k Ek) as [Hne _]. by destruct k.
  - by apply Forall_replicate.
  - by rewrite length_replicate.
  - intros b q Hb. rewrite lookup_fmap in Hb. destruct (txs !! b) as [k|] eqn:Ek; [|done].
    cbn in Hb. injection Hb as <-. destruct (Ht b k Ek) as [Hne Ho]. destruct k; [done|]. exact Ho.
Qed.

(** ** The priced list *)

Lemma pop_least items x rest : is_heap price_less_asc items → items = x :: rest →
  ∃ items', heap_Pop price_less_asc items = Some (x, items') ∧ is_heap price_less_asc items' ∧ items ≡ₚ x :: items' ∧
    (∀ y, y ∈ items' → price_less_asc y x = false) ∧ length items' = length rest.
Proof.
  intros Hh E. destruct (heap_Pop_spec price_less_asc items x Hh ltac:(by rewrite E)) as (items' & Ep & Hh' & P).
  exists items'. split_and!; [done..| |].
  - intros y Hy. apply (heap_min price_less_asc items x Hh ltac:(by rewrite E)). rewrite P. by right.
  - apply Permutation_length in P. rewrite E in P. cbn in P. lia.
Qed.

Lemma push_all_spec txs : ∀ l, is_heap price_less_asc (pl_items l) →
  is_heap price_less_asc (pl_items (push_all txs l)) ∧ pl_items (push_all txs l) ≡ₚ txs ++ pl_items l ∧ pl_stales (push_all txs l) = pl_stales l.
Proof.
  induction txs as [|tx txs IH]; intros l Hh; [done|]. cbn [push_all foldl].
  destruct (heap_Push_spec price_less_asc (pl_items l) tx Hh) as [P H]. destruct (IH (priced_Put tx l) H) as (H1 & H2 & H3).
  split_and!; [done| |done]. fold (push_all txs (priced_Put tx l)). rewrite H2. cbn [priced_Put pl_items]. rewrite P. by rewrite <- Permutation_middle.
Qed.

Definition live_remote (all : txLookup) (local : accountSet) (tx : Transaction) : Prop := stale all tx = false ∧ containsTx local tx = false.

(** What a list loses besides the dropped transactions is stale, and counted. *)
Definition cleaned (all : txLookup) (l l' : txPricedList) (drop : list Transaction) : Prop :=
  is_heap price_less_asc (pl_items l') ∧
  ∃ gone, pl_items l ≡ₚ drop ++ gone ++ pl_items l' ∧ Forall (λ tx, stale all tx = true) gone ∧
    pl_stales l' = pl_stales l - Z.of_nat (length gone).

Lemma cleaned_stale all x items l l' drop : pl_items l ≡ₚ x :: items → stale all x = true →
  cleaned all (mkPriced items (pl_stales l - 1)) l' drop → cleaned all l l' drop.
Proof.
  intros P Hx (Hh & gone & P' & Hg & Es). split; [done|]. exists (x :: gone). cbn [pl_items pl_stales] in *. split_and!; [|by constructor|cbn [length]; lia].
  rewrite P, P'. cbn. by rewrite Permutation_middle.
Qed.

Lemma cleaned_drop all x items l l' drop : pl_items l ≡ₚ x :: items →
  cleaned all (mkPriced items (pl_stales l)) l' drop → cleaned all l l' (x :: drop).
Proof. intros P (Hh & gone & P' & Hg & Es). split; [done|]. exists gone. cbn [pl_items pl_stales] in *. split_and!; [|done..]. by rewrite P, P'. Qed.

(** What is saved goes back. *)
Lemma cleaned_save all l l' drop save : cleaned all l l' (drop ++ save) → cleaned all l (push_all save l') drop.
Proof.
  intros (Hh & gone & P & Hg & Es). destruct (push_all_spec save l' Hh) as (H1 & H2 & H3). split; [done|]. exists gone.
  split_and!; [|done|by rewrite H3]. rewrite H2, P, <- !app_assoc. apply Permutation_app_head. by rewrite !app_assoc, (Permutation_app_comm save gone).
Qed.

Lemma cleaned_refl all l : is_heap price_less_asc (pl_items l) → cleaned all l l [].
Proof. intros Hh. split; [done|]. exists []. split_and!; [done..|]. cbn. lia. Qed.

Lemma priced_discard_spec fuel all local : ∀ count l, is_heap price_less_asc (pl_items l) → (length (pl_items l) ≤ fuel)%nat →
  ∃ drop save l', priced_discard fuel all count local l = Some (drop, save, l') ∧ cleaned all l l' (drop ++ save) ∧
    Forall (live_remote all local) drop ∧ Forall (λ tx, containsTx local tx = true) save ∧
    Z.of_nat (length drop) ≤ Z.max 0 count ∧ (Z.of_nat (length drop) < count → pl_items l' = []) ∧
    (∀ x y, x ∈ drop → y ∈ pl_items l' → price_less_asc y x = false).
Proof.
  induction fuel as [|fuel IH]; intros count l Hh Hf; destruct (pl_items l) as [|x rest] eqn:E; cbn [length] in Hf; try lia.
  1, 2: exists [], [], l; cbn [priced_discard]; rewrite ?E; split_and!; try done; [apply cleaned_refl; by rewrite E|cbn; lia|by intros x y ?%elem_of_nil].
  cbn [priced_discard]. rewrite E. destruct (Z.leb_spec count 0) as [Hc|Hc].
  { exists [], [], l. split_and!; try done; [apply cleaned_refl; by rewrite E|cbn; lia|cbn; lia|by intros ? ? ?%elem_of_nil]. }
  destruct (pop_least (x :: rest) x rest Hh eq_refl) as (items & -> & Hh' & P & Hmin & El). cbn [mbind option_bind]. rewrite <- E in P.
  destruct (stale all x) eqn:Es; [|destruct (containsTx local x) eqn:Ec].
  - destruct (IH count (mkPriced items (pl_stales l - 1)) Hh' ltac:(cbn; lia)) as (drop & save & l' & -> & H1 & H2). exists drop, save, l'.
    split; [done|]. split; [by eapply cleaned_stale|done].
  - destruct (IH count (mkPriced items (pl_stales l)) Hh' ltac:(cbn; lia)) as (drop & save & l' & -> & H1 & H2 & H3 & H4). exists drop, (x :: save), l'.
    split; [done|]. split; [|split; [done|split; [by constructor|done]]].
    destruct (cleaned_drop all x items l l' (drop ++ save) P H1) as (Hq & gone & P2 & Hg & Est). split; [done|]. exists gone. split_and!; [|done..].
    rewrite P2. by rewrite <- Permutation_middle.
  - destruct (IH (count - 1) (mkPriced items (pl_stales l)) Hh' ltac:(cbn; lia)) as (drop & save & l' & -> & H1 & H2 & H3 & H4 & H5 & H6). exists (x :: drop), save, l'.
    split_and!; [done|by apply cleaned_drop with (items := items)|by constructor|done|cbn [length]; lia|cbn [length]; intros; apply H5; lia|].
    intros a b [->|Ha]%elem_of_cons Hb; [|by apply H6]. apply Hmin. destruct H1 as (_ & gone & P2 & _). cbn [pl_items] in P2. rewrite P2.
    rewrite !elem_of_app. by right; right.
Qed.

Lemma priced_cap_spec fuel all threshold local : ∀ l, is_heap price_less_asc (pl_items l) → (length (pl_items l) ≤ fuel)%nat →
  ∃ drop save l', priced_cap fuel all threshold local l = Some (drop, save, l') ∧ cleaned all l l' (drop ++ save) ∧
    Forall (λ tx, live_remote all local tx ∧ tx_Price tx < threshold) drop ∧
    Forall (λ tx, containsTx local tx = true ∨ threshold ≤ tx_Price tx) save ∧ Forall (λ tx, threshold ≤ tx_Price tx) (pl_items l').
Proof.
  induction fuel as [|fuel IH]; intros l Hh Hf; destruct (pl_items l) as [|x rest] eqn:E; cbn [length] in Hf; try lia.
  1, 2: exists [], [], l; cbn [priced_cap]; rewrite ?E; split_and!; try done; apply cleaned_refl; by rewrite E.
  cbn [priced_cap]. rewrite E. destruct (pop_least (x :: rest) x rest Hh eq_refl) as (items & -> & Hh' & P & Hmin & El). cbn [mbind option_bind]. rewrite <- E in P.
  destruct (stale all x) eqn:Es.
  { destruct (IH (mkPriced items (pl_stales l - 1)) Hh' ltac:(cbn; lia)) as (drop & save & l' & -> & H1 & H2). exists drop, save, l'.
    split; [done|]. split; [by eapply cleaned_stale|done]. }
  destruct (Z.leb_spec threshold (tx_Price x)) as [Ht|Ht].
  { exists [], [x], (mkPriced items (pl_stales l)). split; [done|]. split; [|split_and!; [done| |]].
    - split; [done|]. exists []. split_and!; [by rewrite P|done|cbn; lia].
    - apply Forall_singleton. by right.
    - apply Forall_forall. intros y Hy%Hmin%price_le_asc_spec. lia. }
  destruct (IH (mkPriced items (pl_stales l)) Hh' ltac:(cbn; lia)) as (drop & save & l' & -> & H1 & H2 & H3 & H4). cbn [mbind option_bind].
  pose proof (cleaned_drop all x items l l' (drop ++ save) P H1) as Hcl. destruct (containsTx local x) eqn:Ec.
  - exists drop, (x :: save), l'. split; [done|]. split; [|split_and!; [done|constructor; [by left|done]|done]].
    destruct Hcl as (Hq & gone & P2 & Hg & Est). split; [done|]. exists gone. split_and!; [|done..]. rewrite P2. by rewrite <- Permutation_middle.
  - exists (x :: drop), save, l'. split_and!; [done|exact Hcl|by constructor|done|done].
Qed.

Lemma drop_stales_spec fuel all : ∀ l, is_heap price_less_asc (pl_items l) → (length (pl_items l) ≤ fuel)%nat →
  ∃ l', drop_stales fuel all l = Some l' ∧ cleaned all l l' [] ∧ ∀ x rest, pl_items l' = x :: rest → stale all x = false.
Proof.
  induction fuel as [|fuel IH]; intros l Hh Hf; destruct (pl_items l) as [|x rest] eqn:E; cbn [length] in Hf; try lia.
  1, 2: exists l; cbn [drop_stales]; rewrite ?E; split_and!; [done|apply cleaned_refl; by rewrite E|done].
  cbn [drop_stales]. rewrite E. destruct (stale all x) eqn:Es; cycle 1.
  { exists l. split_and!; [done|apply cleaned_refl; by rewrite E|]. rewrite E. by intros ? ? [= <- <-]. }
  destruct (pop_least (x :: rest) x rest Hh eq_refl) as (items & -> & Hh' & P & _ & El). cbn [mbind option_bind]. rewrite <- E in P.
  destruct (IH (mkPriced items (pl_stales l - 1)) Hh' ltac:(cbn; lia)) as (l' & -> & H1 & H2). exists l'. split_and!; [done|by eapply cleaned_stale|done].
Qed.

Lemma cleaned_live all l l' drop tx : cleaned all l l' drop → tx ∈ pl_items l → stale all tx = false → tx ∈ drop ∨ tx ∈ pl_items l'.
Proof.
  intros (_ & gone & P & Hg & _) Hin Hs. rewrite P, !elem_of_app in Hin. destruct Hin as [?|[Hin|?]]; [by left| |by right].
  rewrite Forall_forall in Hg. by rewrite (Hg tx Hin) in Hs.
Qed.

Lemma cleaned_elem all l l' drop tx : cleaned all l l' drop → tx ∈ drop ∨ tx ∈ pl_items l' → tx ∈ pl_items l.
Proof. intros (_ & gone & P & _ & _) H. rewrite P, !elem_of_app. tauto. Qed.

(** C28. When the pool is full the right transactions go.  From the heap of the transactions
    of the pool, whatever stale ones it holds: [Discard], asked for a number that is not
    negative, gives at most as many, each of them still in the pool and not of a local
    account; none of those that stay is cheaper, and they are fewer than asked for only if no
    other one is left.  [Cap] gives exactly the remote ones below the threshold.
    [Underpriced] says of a transaction that is not local whether there are transactions in
    the pool and all have at least its price.  What the heap loses besides is stale, and
    taken off the count of stale transactions. *)
Theorem cheapest_dropped all local l : is_heap price_less_asc (pl_items l) →
  (∀ count, 0 ≤ count → ∃ drop l', Discard all count local l = Some (drop, l') ∧ cleaned all l l' drop ∧
     Forall (live_remote all local) drop ∧ Z.of_nat (length drop) ≤ count ∧
     (Z.of_nat (length drop) < count → ∀ tx, tx ∈ pl_items l' → ¬ live_remote all local tx) ∧
     ∀ x y, x ∈ drop → y ∈ pl_items l' → live_remote all local y → tx_Price x ≤ tx_Price y) ∧
  (∀ threshold, ∃ drop l', priced_Cap all threshold local l = Some (drop, l') ∧ cleaned all l l' drop ∧
     Forall (λ tx, live_remote all local tx ∧ tx_Price tx < threshold) drop ∧
     ∀ tx, tx ∈ pl_items l' → live_remote all local tx → threshold ≤ tx_Price tx) ∧
  (∀ tx, ∃ b l', Underpriced all tx local l = Some (b, l') ∧ cleaned all l l' [] ∧
     (b = true ↔ containsTx local tx = false ∧ (∃ y, y ∈ pl_items l ∧ stale all y = false) ∧
        ∀ y, y ∈ pl_items l → stale all y = false → tx_Price tx ≤ tx_Price y)).
Proof.
  intros Hh. split_and!.
  - intros count Hcount. destruct (priced_discard_spec (length (pl_items l)) all local count l Hh ltac:(done)) as (drop & save & l1 & E & H1 & H2 & H3 & H4 & H5 & H6).
    unfold Discard. rewrite (proj2 (Z.ltb_ge _ _) Hcount), E. cbn [mbind option_bind]. exists drop, (push_all save l1). pose proof (cleaned_save all l l1 drop save H1) as Hc.
    pose proof (push_all_spec save l1 (proj1 H1)) as (_ & Pp & _). rewrite Forall_forall in H3. split_and!; [done..|lia| |].
    + intros Hl tx Hin [_ Hr]. rewrite Pp, (H5 Hl), app_nil_r in Hin. by rewrite (H3 tx Hin) in Hr.
    + intros x y Hx Hy [_ Hr]. rewrite Pp, elem_of_app in Hy. destruct Hy as [Hy|Hy]; [by rewrite (H3 y Hy) in Hr|].
      pose proof (H6 x y Hx Hy) as Hle%price_le_asc_spec. lia.
  - intros threshold. destruct (priced_cap_spec (length (pl_items l)) all threshold local l Hh ltac:(done)) as (drop & save & l1 & E & H1 & H2 & H3 & H4).
    unfold priced_Cap. rewrite E. cbn [mbind option_bind]. exists drop, (push_all save l1). pose proof (cleaned_save all l l1 drop save H1) as Hc.
    pose proof (push_all_spec save l1 (proj1 H1)) as (_ & Pp & _). rewrite Forall_forall in H3, H4. split_and!; [done..|].
    intros tx Hin [_ Hr]. rewrite Pp, elem_of_app in Hin. destruct Hin as [Hin|Hin]; [|by apply H4]. destruct (H3 tx Hin) as [Hl|]; [by rewrite Hl in Hr|done].
  - intros tx. unfold Underpriced. destruct (containsTx local tx) eqn:Ec; [exists false, l; split_and!; [done|by apply cleaned_refl|]; split; [done|by intros [? _]]|].
    destruct (drop_stales_spec (length (pl_items l)) all l Hh ltac:(done)) as (l' & E & Hc & Hf). rewrite E. cbn [mbind option_bind]. eexists _, l'.
    split_and!; [done..|]. destruct (pl_items l') as [|x rest] eqn:El.
    + split; [done|]. intros (_ & (y & Hy & Hs) & _). destruct (cleaned_live all l l' [] y Hc Hy Hs) as [H|H]; rewrite ?El in H; by apply elem_of_nil in H.
    + specialize (Hf x rest eq_refl). assert (x ∈ pl_items l) as Hx by (apply (cleaned_elem all l l' [] x Hc); right; rewrite El; by left).
      rewrite Z.leb_le. split; [|intros (_ & _ & H); by apply H].
      intros Hle. split_and!; [done|by exists x|]. intros y Hy Hs. destruct (cleaned_live all l l' [] y Hc Hy Hs) as [H%elem_of_nil|H]; [done|].
      pose proof (heap_min price_less_asc (pl_items l') x (proj1 Hc) ltac:(by rewrite El) y H) as Hm%price_le_asc_spec. lia.
Qed.
End facts.

Module OrderExample.
Import Toy.
#[local] Existing Instance ToySecp.secp.
#[local] Existing Instance ToySecp.primitives.

Definition signer : Signer := NewEIP155Signer (Some 889).
Definition signed (key nonce price : Z) : Transaction :=
  match SignTx (mkTransaction nonce price 21000 (Some 17) 0 [] 0 0 0 0) signer key with Some (inr tx) => tx | _ => noTransaction end.

Definition txs : gmap Address (list Transaction) := {[ 5 := [signed 5 0 3; signed 5 1 9]; 6 := [signed 6 0 7; signed 6 1 1] ]}.

Definition pool : list Transaction := [signed 5 0 3; signed 5 1 9; signed 6 0 7; signed 6 1 1].
Definition all : txLookup := foldr lookup_Add ∅ (drop 1 pool).
Definition locals : accountSet := mkAccountSet {[6]} signer.
Definition priced : txPricedList := push_all pool newTxPricedList.
End OrderExample.

(** A part of the result of a run of two steps, read off the run itself. *)
Lemma read_run {A B C} (f : B → C) (x : option A) (g : A → option B) y : f <$> (x ≫= g) = Some y → ∀ a b, x = Some a → g a = Some b → f b = y.
Proof. intros E a b -> Hb. cbn in E. rewrite Hb in E. by injection E. Qed.

Section witness.
Import Toy OrderExample.
#[local] Existing Instance ToySecp.primitives.

Lemma txs_ok : accounts_ok signer txs.
Proof.
  intros a l H. unfold txs in H. rewrite !lookup_insert_Some in H.
  destruct H as [[<- <-]|[_ [<- <-]%lookup_singleton_Some]]; (split; [done|]); intros tx Hin; repeat (apply elem_of_cons in Hin as [->|Hin]; [vm_compute; reflexivity|]);
    by apply elem_of_nil in Hin.
Qed.

Lemma run_prices :
  (λ r : list Transaction * TransactionsByPriceAndNonce, tx_Price <$> r.1) <$> (NewTransactionsByPriceAndNonce signer txs ≫= take_txs (replicate 4 true)) =
  Some [7; 3; 9; 1].
Proof. vm_compute. reflexivity. Qed.

(** The prices of the accounts are 3, 9 and 7, 1: the order is 7, 3, 9, 1. *)
Lemma miner_order_witness :
  ∃ t l t', NewTransactionsByPriceAndNonce signer txs = Some t ∧ take_txs (replicate 4 true) t = Some (l, t') ∧
    tx_Price <$> l = [7; 3; 9; 1] ∧ filter (λ tx, sender_of signer tx = 5) l = [signed 5 0 3; signed 5 1 9].
Proof.
  destruct (miner_order signer txs txs_ok) as (t & E & _ & H). destruct (H 4%nat ltac:(vm_compute; lia)) as (l & t' & El & Hf).
  exists t, l, t'. split; [exact E|]. split; [exact El|]. split; [|rewrite Hf; vm_compute; reflexivity].
  exact (read_run _ _ _ _ run_prices t (l, t') E El).
Defined.

Lemma priced_heap : is_heap price_less_asc (pl_items priced).
Proof. apply (push_all_spec pool newTxPricedList). intros j Hj. cbn in Hj. lia. Qed.

Lemma run_discard : fst <$> (Discard all 2 locals priced ≫= Some) = Some [signed 5 1 9].
Proof. vm_compute. reflexivity. Qed.

(** The account 6 is local, and the transaction at 3 has left the pool. *)
Lemma cheapest_dropped_witness : ∃ l', Discard all 2 locals priced = Some ([signed 5 1 9], l') ∧ cleaned all priced l' [signed 5 1 9].
Proof.
  destruct (proj1 (cheapest_dropped all locals priced priced_heap) 2 ltac:(done)) as (drop & l' & E & Hc & _).
  pose proof (read_run _ _ _ _ run_discard (drop, l') (drop, l') E eq_refl : drop = [signed 5 1 9]) as ->.
  exists l'. split; [exact E|exact Hc].
Defined.
End witness.
